(* ===== verification/_CoqProject ===== *)
-Q . S2P
Prelude.v
GoStd.v
Effects.v
BitArray.v
Types.v
Validator.v
VoteSet.v
HeightVoteSet.v
PrivValidator.v
PartSet.v
Health.v
StateAgent.v
RoundState.v
Consensus.v
ConsensusSafety.v
Agreement.v
Ticker.v
StateDB.v
StateRevert.v
StateSafety.v
Bloom.v
Filter.v
Bloombits.v
EvmData.v
EvmOps.v
EvmState.v
EvmInv.v
EvmWords.v
EvmJump.v
EvmFrame.v
EvmStep.v
EvmCalls.v
EvmTable.v
EvmLoop.v
EvmFuel.v
EvmDemo.v
EvmSafety.v
Transition.v
TransitionSafety.v
TxList.v
Miner.v
MinerSafety.v
