(* ===== verification/Prelude.v ===== *)
(** * Verification of rpc-network

    The repository is a fork of go-ethereum with a Tendermint-style consensus
    engine in [src/consensus/tbft].  This library models the engine and the parts
    of the fork that execute transactions, and proves what makes them correct.

    ** The program and the files of the library

    A validator runs one state machine ([state.go]).  It reacts to proposals,
    block parts and votes of its peers, to its own messages, and to timeouts; it
    collects votes per height and round, signs votes through a signer that
    remembers what it signed, assembles a proposed block from parts, and commits
    the block that more than two thirds of the voting power precommitted.

    - [Prelude]: Go's machine integers ([u64], [i64]), panics ([outcome]), slices,
      loops; generic lemmas on lists and sums, the tactics and hint databases.
    - [GoStd]: [sort.Search], [container/heap] and the bytes of [math/big], as the
      standard library has them.
    - [Effects]: the monad of state and panics that the larger components use, with
      weakest preconditions, partial ([wp]) and total ([twp]).
    - [BitArray] ([help/bit_array.go]): the words, and their view as booleans.
    - [Types] ([vote.go], [proposal.go], [datas.go], [canonical_json.go],
      [truekey.go]): data, sign bytes, verification.  Amino, RLP, Keccak and ECDSA
      are the class [Lib]; [LibLaws] states the documented facts that are used.
    - [Validator] ([validator.go], [validator_set.go]): the sorted set, proposer
      rotation over a heap, commit verification.
    - [VoteSet] ([vote_set.go]) and [HeightVoteSet] ([height_vote_set.go]): the
      votes of a round and of a height.
    - [PrivValidator] ([priv_validator.go]): the signer.
    - [PartSet] ([part_set.go], [simple_proof.go]): block parts, Merkle proofs.
    - [Health] ([health.go]): liveness of the committee members and the proposals
      to switch them, on a heap of shared objects.
    - [StateAgent] ([priv_validator.go], [datas.go]): the agent that makes and
      verifies blocks, and the store of the latest blocks.  Blocks, the chain
      behind the agent and the clock are the class [Env].
    - [RoundState], [Consensus] ([round_state.go], [state.go]): the state and every
      handler, in a monad of state and panics; [ConsensusSafety]: their safety.
    - [Agreement]: several machines with their own keys, among validators that may
      do anything, and the votes they cast.
    - [Ticker] ([ticker.go]): the timeout routine as interleaved steps.

    A node executes transactions on a database of accounts.

    - [StateDB] ([core/state/statedb.go], [state_object.go], [journal.go]): accounts
      as objects on a heap, the journal, snapshots, and writing to the tries.
      Tries, their database, the snapshot tree, RLP and Keccak are the class
      [StateLib]; [StateLaws] states what is used of them.
    - [StateRevert]: states that cannot be told apart by reading, and that the
      operations of a transaction can be undone up to this equivalence.
    - [StateSafety]: the states of a database, and the theorems on them.

    The virtual machine of [core/vm] runs the code of accounts on this database.

    - [EvmData] ([stack.go], [memory.go], [analysis.go], [contract.go], [common.go],
      [gas.go], [errors.go], [contracts.go], [params]): the data of a call.  256-bit
      words are the class [uint256.Lib], with [uint256.Laws]; the precompiled
      contracts besides the copy of data, addresses of new contracts and the flag
      that cancels a run are the class [EvmLib], with [EvmLaws].
    - [EvmOps] ([instructions.go], [gas_table.go], [memory_table.go],
      [jump_table.go], [eips.go], [interpreter.go], [evm.go]): every instruction and
      its gas, the tables of the eight forks, the loop, calls and creations.  The
      loop and the calls in it are one recursion on fuel.
    - [EvmState]: what the machine does with the database, and the class [Keeps]: a
      property of states that every such action keeps, given the gas that is left.
      The proofs about the machine are made once, for any such property.
      [EvmInv]: the properties (solvency of the refund counter, no new ether, nothing
      changes in a static call).
    - [EvmWords], [EvmJump], [EvmFrame]: memory and its fee, the analysis of jump
      destinations, well-formed frames and the instructions that stay in a frame.
      [EvmStep], [EvmCalls], [EvmTable], [EvmLoop]: costs, calls and creations, each
      entry of the tables, and the loop.  [EvmFuel]: more fuel changes no result.
    - [EvmSafety]: the theorems; [EvmDemo]: a concrete machine for the examples.

    Transactions run in the machine one after the other, and their logs are found
    again by filters of bits.

    - [Transition] ([core/state_transition.go], [gaspool.go], [evm.go],
      [state_processor.go], [miner/worker.go], [consensus/misc/dao.go]): the price of
      a message, its pre-payment, run and refund, the hashes of earlier blocks, the
      transactions of a block, and one transaction of a block that is built.
      [TransitionSafety]: the theorems.
    - [Bloom] ([core/types/bloom9.go], [receipt.go]): receipts and the filter of
      their logs.  [Filter] ([eth/filters/filter.go]): the search for logs in blocks.
      [Bloombits] ([core/bloombits/generator.go], [matcher.go]): the index of the
      filters and the search in it.  Keccak and the operations on vectors of bits
      are the classes [CryptoLib] and [BitLib], with [CryptoLaws] and [BitLaws].

    Blocks are built of the transactions that wait in a pool.

    - [TxList] ([core/tx_list.go]): the transactions of one account, with a heap of
      their nonces, a cache and caps on cost and gas.
    - [Miner] ([core/types/transaction.go], [core/block_validator.go],
      [consensus/ethash/consensus.go], [miner/worker.go]): the order by price and
      nonce, the gas limit, the uncles and the worker that fills a block.
      [MinerSafety]: the theorems.

    Every definition has the name of the function or type it models, in a Module
    with the name of the receiver's type.  A [*T] that may be nil is an [option];
    objects that the code shares by pointer and changes (part sets, members,
    proposals to switch) are indices into a heap.  A mutex, the log and metrics
    are left out.  What the code sends on a channel is appended to a list.

    ** What the theorems show

    - Machine ([ConsensusSafety]): by induction on [reach], for every sequence of
      inputs, the height, round and step only move the way the protocol allows; a
      precommit for a block is only signed with a polka (more than two thirds of
      the prevotes) of its round; a lock has a polka of its round and is kept
      until a later polka or a commit; a stored block has a commit that verifies;
      heights never drop.
    - Agreement ([Agreement]): the machines of a net, which take inputs in any
      order, store blocks with one hash at a height, if the others have less than
      a third of the voting power, nobody forges a vote of a machine and no
      committee change restarts one of them at the height.  The proof is in two
      halves: [lawful] logs of votes decide one block, and every step of a
      machine keeps the log lawful.
    - Votes ([Validator], [VoteSet], [HeightVoteSet]): exact behaviour of [AddVote]
      on every branch, quorum intersection, finality of a majority, [MakeCommit]
      against [VerifyCommit], the bound on the rounds that peers may open.
    - Signer: never two different messages for one height, round and step.
    - Proposer rotation: the heap refines a scan for the highest priority, and the
      number of turns of a validator is its share up to a constant.
    - Parts: soundness of [AddPart] for a collision-free hash, round trip of
      cutting and collecting, and the index confusion that remains possible.
    - State database ([StateSafety]): for every reachable state, [RevertToSnapshot]
      after any operations makes every getter return what it returned at the
      snapshot; setters do what they say and leave other accounts alone;
      [Finalise] removes the accounts that are to go and commits the slots of the
      others; and an account that is only overwritten is not written.
    - Virtual machine ([EvmSafety]): with any fuel above the gas, every call and
      creation returns, with the same result; no round of the loop panics, breaks
      the stack limit or the fee of the memory, or adds gas; a message that fails
      changes nothing but the nonce of a creator; no message makes ether; a static
      call changes nothing; the refund counter never goes below zero and pays for
      every cleared slot; jumps lead exactly to the destinations of a byte-by-byte
      reading of the code; and the copy of data shares the memory of its caller.
    - Transactions ([TransitionSafety]): a transaction ends, uses at most its gas and
      at least half of its intrinsic gas, and takes exactly that from the block; it
      makes no ether; when the machine fails it costs its fee and a nonce and nothing
      else; the intrinsic gas is exact up to 64 bits; which rejected transactions
      have been charged all the same, and that the miner loses their gas; the
      receipts of a block add up to the gas it reports; and the cache of hashes does
      not change an answer.
    - Logs ([Bloombits]): a filter has every address and topic of its receipts, the
      generator turns the filters of a section, and the search of a range returns the
      logs that match, all of them and in order, whether its blocks are indexed or
      not.
    - Pool ([TxList]): the sorted map refines a map from nonces to transactions; the
      filter of a list removes exactly what the account cannot pay or the block cannot
      hold, and in a strict list what lies behind it; no removal leaves a gap in a
      strict list; a transaction is replaced only at the bumped price.
    - Miner ([MinerSafety]): transactions come up in the order of price and nonce; the
      worker ends, packs each account's transactions in their order and local accounts
      first, and its gas, receipts and ether add up, whenever it is interrupted; the
      gas limit and the uncles that it chooses pass the checks of the engine.
    - Ticker, block store, health manager: order of timeouts, the latest blocks are
      kept, who is proposed for removal.
    - Bit arrays: pointwise refinement, JSON round trip, and where operations on
      arrays of different length deviate.

    ** Bounds

    Loops over slices are structural; binary search and the heap take fuel equal
    to the length, which the lemmas show is enough.  Voting power is assumed to
    satisfy [quorate]: powers are positive and their double stays below 2^63, so
    that the quorum [2/3 + 1] does not overflow.  [calm] inputs keep rounds below
    2^62: the code converts rounds between [uint] and [int].  The class [EnvLaws]
    states what the machine needs of the chain behind the agent: its height does
    not drop, grows when a block is accepted, and a verified block is signed with
    its own hash; theorems on heights take the height of the chain below 2^62.

    A run of the virtual machine takes fuel: each round takes one of it and at
    least one unit of gas, and a call gets at most the gas of its caller, so that
    more fuel than gas is enough ([send_ends]).  The theorems on whole messages take
    gas up to 2^56, which keeps the refund counter from overflowing, or any gas
    below 2^64; code, input and returned data are below 2^62 bytes ([fits]), as Go's
    slices are.  The walk over ancestors takes the number of the block and one as
    fuel, a section of the index as many rounds as it has blocks, and the worker one
    round for each transaction and one more; the theorems show that these are enough.
    The nonces of the pool are 64-bit numbers, the price bump is below 2^63 - 100, and
    the gas limit of a parent is at least 6144, below which a full parent can lead to
    a limit that the engine refuses.  [Process_accounts] is about blocks after Byzantium
    and leaves out only runs that subtract the refund counter below zero, which
    [send_solvent] excludes for a message on a fresh state.

    ** Not modelled

    Of the virtual machine: tracers and loggers, [ExtraEips] (which change the
    shared tables), interpreters of other code, and the arithmetic of precompiled
    contracts.  Of the index, the scheduler, the distribution of requests to retrievers
    and the end of a session before its time: the vectors arrive as a function, and
    the stages of the pipeline are functions on the list of sections.  Of blocks, the
    sender of a signature, the author of a header and [Finalize] of the engine, which
    are arguments.  Of the pool, everything above the list of one account; of the miner,
    its loops and channels, the header and the sealing: what the interrupt flag shows at
    each look, the order in which a map is read and the verification of an uncle's
    header are arguments.  JSON and String output, the log, metrics, the network ([tp2p]), node start-up
    ([node.go]) and the rest of go-ethereum; of the state database the proofs, the
    dump and the iterators.  The engine refers to names that are not
    in the repository ([params.ConsensusConfig], [Block.SetSign],
    [Block.SwitchInfos]): they are fields of [Env] and of [Config]. *)

From Stdlib Require Export ZArith Lia.
From Stdlib Require Strings.Byte.
From stdpp Require Export base list numbers strings gmap.

#[global] Open Scope Z_scope.

(** ** Machine integers

    Go's [uint], [uint64] and [int], [int64] are 64 bits wide on the platforms
    the program is built for.  A value is the integer it denotes; every
    operation that can leave the range is followed by an explicit [u64] or
    [i64]. *)

Definition two63 : Z := 2 ^ 63.
Definition two64 : Z := 2 ^ 64.
Definition max_i64 : Z := 2 ^ 63 - 1.
Definition min_i64 : Z := - 2 ^ 63.
Definition u64 (z : Z) : Z := z mod two64.
Definition i64 (z : Z) : Z := (z + two63) mod two64 - two63.

Definition in_u64 (z : Z) : Prop := 0 <= z < two64.
Definition in_i64 (z : Z) : Prop := min_i64 <= z <= max_i64.

(** ** Byte slices *)

Abbreviation byte := Byte.byte.
Abbreviation bytes := (list Byte.byte).

#[global] Instance byte_eq_decision : EqDecision byte := Byte.byte_eq_dec.

Definition byte_Z (b : byte) : Z := Z.of_N (Byte.to_N b).
Definition Z_byte (z : Z) : byte :=
  match Byte.of_N (Z.to_N (z mod 256)) with Some b => b | None => Byte.x00 end.

(** [bytes.Compare] and [bytes.Equal] of Go's standard library. *)
Fixpoint bytes_compare (a b : bytes) : comparison :=
  match a, b with
  | [], [] => Eq
  | [], _ :: _ => Lt
  | _ :: _, [] => Gt
  | x :: a', y :: b' =>
      match Byte.to_N x ?= Byte.to_N y with
      | Eq => bytes_compare a' b'
      | c => c
      end%N
  end.

Definition bytes_equal (a b : bytes) : bool := bool_decide (a = b).

(** ** Panics

    A Go function either returns or panics.  An [error] value is an ordinary
    result, kept apart from [Panic]. *)
Inductive outcome (A : Type) : Type :=
| Ret (a : A)
| Panic (why : string).
Arguments Ret {A} a.
Arguments Panic {A} why.

Definition obind {A B} (m : outcome A) (k : A -> outcome B) : outcome B :=
  match m with Ret a => k a | Panic w => Panic w end.

Declare Scope go_scope.
Delimit Scope go_scope with go.
Notation "'let!' x := m 'in' k" := (obind m (fun x => k))
  (at level 10, x pattern, m at level 100, k at level 200,
   format "'let!'  x  :=  m  'in' '//' k") : go_scope.
#[global] Open Scope go_scope.

(** Reading a slice at an index out of range panics. *)
Definition slice_get {A} (l : list A) (i : Z) : outcome A :=
  if (i <? 0) then Panic "index out of range"
  else match l !! Z.to_nat i with
       | Some a => Ret a
       | None => Panic "index out of range"
       end.

(** Writing one does too. *)
Definition slice_set {A} (l : list A) (i : Z) (a : A) : outcome (list A) :=
  if (i <? 0) || (Z.of_nat (length l) <=? i) then Panic "index out of range"
  else Ret (<[Z.to_nat i := a]> l).

(** Length of a slice, as Go's [len]. *)
Definition zlen {A} (l : list A) : Z := Z.of_nat (length l).

(** Sum of a list of integers under a weight. *)
Definition zsum_with {A} (f : A -> Z) (l : list A) : Z := foldr (fun a s => f a + s) 0 l.

(** [for i := lo; i < hi; i++ { body }] over a state, where the body may panic. *)
Fixpoint loopM {S} (body : Z -> S -> outcome S) (i : Z) (n : nat) (s : S) : outcome S :=
  match n with
  | O => Ret s
  | Datatypes.S n' => let! s' := body i s in loopM body (i + 1) n' s'
  end.

Definition for_loop {S} (lo hi : Z) (body : Z -> S -> outcome S) (s : S) : outcome S :=
  loopM body lo (Z.to_nat (hi - lo)) s.

(** [for _, x := range l { body }] with an early error return: the body gives
    either the state to go on with or the error to return. *)
Fixpoint rangeM {A S E} (body : Z -> A -> S -> outcome (E + S)) (i : Z) (l : list A) (s : S)
    : outcome (E + S) :=
  match l with
  | [] => Ret (inr s)
  | a :: l' =>
      let! r := body i a s in
      match r with
      | inl e => Ret (inl e)
      | inr s' => rangeM body (i + 1) l' s'
      end
  end.

(** ** Automation *)

Create HintDb godb.

(** Case analysis on every boolean comparison and decision of the goal and
    the context, then arithmetic. *)
Ltac bdestr :=
  repeat match goal with
  | H : context [Z.leb ?a ?b] |- _ => destruct (Z.leb_spec a b)
  | H : context [Z.ltb ?a ?b] |- _ => destruct (Z.ltb_spec a b)
  | H : context [Z.eqb ?a ?b] |- _ => destruct (Z.eqb_spec a b)
  | |- context [Z.leb ?a ?b] => destruct (Z.leb_spec a b)
  | |- context [Z.ltb ?a ?b] => destruct (Z.ltb_spec a b)
  | |- context [Z.eqb ?a ?b] => destruct (Z.eqb_spec a b)
  end.

(** Split a hypothesis [obind m k = Ret r] into its successful steps. *)
Ltac ounfold H :=
  repeat match type of H with
  | obind ?m _ = Ret _ =>
      let E := fresh "E" in destruct m eqn:E; [cbn [obind] in H | discriminate H]
  | Ret _ = Ret _ => injection H as H
  end.

(** Ranges are decidable, and a closed decidable goal is closed by evaluation. *)
#[global] Instance in_u64_dec z : Decision (in_u64 z).
Proof. unfold in_u64. apply _. Defined.

#[global] Instance in_i64_dec z : Decision (in_i64 z).
Proof. unfold in_i64. apply _. Defined.

Ltac by_decide := apply (bool_decide_unpack _); vm_compute; exact I.

(** ** Lemmas on integers *)

Lemma u64_range z : in_u64 (u64 z).
Proof. unfold in_u64, u64, two64. apply Z.mod_pos_bound. lia. Qed.

Lemma u64_id z : in_u64 z -> u64 z = z.
Proof. intros H. unfold u64, in_u64 in *. by apply Z.mod_small. Qed.

Lemma i64_range z : in_i64 (i64 z).
Proof.
  unfold in_i64, i64, min_i64, max_i64, two63, two64.
  pose proof (Z.mod_pos_bound (z + 2 ^ 63) (2 ^ 64) ltac:(lia)). lia.
Qed.

Lemma i64_id z : in_i64 z -> i64 z = z.
Proof.
  unfold in_i64, i64, min_i64, max_i64, two63, two64. intros H.
  rewrite Z.mod_small; lia.
Qed.

Lemma i64_u64 z : i64 (u64 z) = i64 z.
Proof.
  unfold i64, u64, two64, two63. f_equal.
  by rewrite Z.add_mod_idemp_l by lia.
Qed.

Lemma u64_i64 z : u64 (i64 z) = u64 z.
Proof.
  unfold i64, u64, two64, two63.
  rewrite <- Zminus_mod_idemp_l, Zmod_mod, Zminus_mod_idemp_l.
  f_equal. lia.
Qed.

Lemma i64_of_small_u64 z : 0 <= z < two63 -> i64 z = z.
Proof. intros H. apply i64_id. unfold in_i64, min_i64, max_i64, two63 in *. lia. Qed.

Lemma i64_of_large_u64 z : two63 <= z < two64 -> i64 z = z - two64.
Proof.
  unfold i64, two63, two64. intros H.
  replace (z + 2 ^ 63) with (z - 2 ^ 63 + 1 * 2 ^ 64) by lia.
  rewrite Z_mod_plus_full, Z.mod_small; lia.
Qed.

(** ** Lemmas on slices *)

Lemma zlen_nonneg {A} (l : list A) : 0 <= zlen l.
Proof. unfold zlen. lia. Qed.

Lemma slice_get_Ret {A} (l : list A) i a :
  slice_get l i = Ret a <-> 0 <= i /\ l !! Z.to_nat i = Some a.
Proof.
  unfold slice_get. destruct (Z.ltb_spec i 0).
  - split; [discriminate | lia].
  - destruct (l !! Z.to_nat i) eqn:E; split; intros H0.
    + by inv H0.
    + destruct H0. by simplify_eq.
    + discriminate.
    + destruct H0. by simplify_eq.
Qed.

Lemma slice_get_nat {A} (l : list A) r x : l !! r = Some x -> slice_get l (Z.of_nat r) = Ret x.
Proof. intros H. apply slice_get_Ret. rewrite Nat2Z.id. split; [lia|done]. Qed.

Lemma slice_get_in {A} (l : list A) i :
  0 <= i < zlen l -> exists a, slice_get l i = Ret a /\ l !! Z.to_nat i = Some a.
Proof.
  intros H. unfold zlen in H.
  destruct (lookup_lt_is_Some_2 l (Z.to_nat i)) as [a Ha]; [lia|].
  exists a. split; [|done]. apply slice_get_Ret. split; [lia | done].
Qed.

Lemma slice_set_in {A} (l : list A) i a :
  0 <= i < zlen l -> slice_set l i a = Ret (<[Z.to_nat i := a]> l).
Proof. intros H. unfold slice_set, zlen in *. bdestr; simpl; (lia || done). Qed.

Lemma slice_set_Ret {A} (l l' : list A) i a :
  slice_set l i a = Ret l' -> 0 <= i < zlen l /\ l' = <[Z.to_nat i := a]> l.
Proof.
  unfold slice_set, zlen. intros H. bdestr; simpl in H; try discriminate.
  inv H. split; [lia | done].
Qed.

(** ** Filtered lists *)

Lemma filter_none {A} (P : A -> Prop) `{!forall x, Decision (P x)} (l : list A) : (forall x, x ∈ l -> ~ P x) -> filter P l = [].
Proof. induction l as [|x l IH]; intros Hl; [done|]. rewrite filter_cons_False; [apply IH; set_solver|apply Hl; set_solver]. Qed.

Lemma filter_all {A} (P : A -> Prop) `{!forall x, Decision (P x)} (l : list A) : (forall x, x ∈ l -> P x) -> filter P l = l.
Proof. induction l as [|x l IH]; intros Hl; [done|]. rewrite filter_cons_True; [f_equal; apply IH; set_solver|apply Hl; set_solver]. Qed.

Lemma filter_ext_in {A} (P Q : A -> Prop) `{!forall x, Decision (P x), !forall x, Decision (Q x)} (l : list A) : (forall x, x ∈ l -> P x <-> Q x) -> filter P l = filter Q l.
Proof.
  induction l as [|x l IH]; intros Heq; [done|]. rewrite !filter_cons, IH by (intros; apply Heq; by right).
  destruct (decide (P x)) as [Hp|Hp], (decide (Q x)) as [Hq|Hq]; try done; [destruct Hq|destruct Hp]; by apply (Heq x (list_elem_of_here _ _)).
Qed.

(** ** Loops *)

(** The invariant rule of a loop: established at [lo], kept by the body, it
    holds at [hi], and the loop does not panic when the body does not. *)
Lemma loopM_inv {S} (P : Z -> S -> Prop) (body : Z -> S -> outcome S) n lo s :
  P lo s ->
  (forall i s, lo <= i < lo + Z.of_nat n -> P i s -> exists s', body i s = Ret s' /\ P (i + 1) s') ->
  exists s', loopM body lo n s = Ret s' /\ P (lo + Z.of_nat n) s'.
Proof.
  revert lo s. induction n as [|n IH]; intros lo s H0 Hb; simpl.
  - exists s. by rewrite Z.add_0_r.
  - destruct (Hb lo s ltac:(lia) H0) as (s1 & -> & H1). simpl.
    destruct (IH (lo + 1) s1 H1) as (s2 & -> & H2).
    { intros i s' Hi HP. apply Hb; [lia | done]. }
    exists s2. split; [done|]. by replace (lo + Z.of_nat (Datatypes.S n)) with (lo + 1 + Z.of_nat n) by lia.
Qed.

Lemma for_loop_inv {S} (P : Z -> S -> Prop) (body : Z -> S -> outcome S) lo hi s :
  lo <= hi ->
  P lo s ->
  (forall i s, lo <= i < hi -> P i s -> exists s', body i s = Ret s' /\ P (i + 1) s') ->
  exists s', for_loop lo hi body s = Ret s' /\ P hi s'.
Proof.
  intros Hle H0 Hb. unfold for_loop.
  destruct (loopM_inv P body (Z.to_nat (hi - lo)) lo s H0) as (s' & E & H').
  { intros i s' Hi. apply Hb. lia. }
  exists s'. split; [done|]. by replace hi with (lo + Z.of_nat (Z.to_nat (hi - lo))) by lia.
Qed.

(** ** Lemmas on weighted sums *)

Section Sums.
Context {A : Type}.
Implicit Types (f g : A -> Z) (l : list A).

Lemma zsum_app f l1 l2 : zsum_with f (l1 ++ l2) = zsum_with f l1 + zsum_with f l2.
Proof. induction l1 as [|a l1 IH]; simpl; [done|]. unfold zsum_with in *. simpl. lia. Qed.

Lemma zsum_ext f g l : (forall a, a ∈ l -> f a = g a) -> zsum_with f l = zsum_with g l.
Proof.
  induction l as [|a l IH]; intros H; [done|]. unfold zsum_with in *. simpl.
  rewrite (H a) by set_solver. rewrite IH; [done|]. set_solver.
Qed.

Lemma zsum_zero l : zsum_with (fun _ => 0) l = 0.
Proof. induction l as [|a l IH]; [done|exact IH]. Qed.

Lemma zsum_add f g l : zsum_with (fun a => f a + g a) l = zsum_with f l + zsum_with g l.
Proof. induction l as [|a l IH]; [done|]. unfold zsum_with in *. simpl. lia. Qed.

Lemma zsum_scale c f l : zsum_with (fun a => c * f a) l = c * zsum_with f l.
Proof. induction l as [|a l IH]; unfold zsum_with in *; simpl; lia. Qed.

Lemma zsum_nonneg f l : (forall a, a ∈ l -> 0 <= f a) -> 0 <= zsum_with f l.
Proof.
  induction l as [|a l IH]; intros H; [done|]. unfold zsum_with in *. simpl.
  pose proof (H a ltac:(set_solver)). pose proof (IH ltac:(set_solver)). lia.
Qed.

Lemma zsum_mono f g l : (forall a, a ∈ l -> f a <= g a) -> zsum_with f l <= zsum_with g l.
Proof.
  induction l as [|a l IH]; intros H; [done|]. unfold zsum_with in *. simpl.
  pose proof (H a ltac:(set_solver)). pose proof (IH ltac:(set_solver)). lia.
Qed.

Lemma zsum_perm f l1 l2 : l1 ≡ₚ l2 -> zsum_with f l1 = zsum_with f l2.
Proof. induction 1; unfold zsum_with in *; simpl; lia. Qed.

Lemma zsum_fmap {B} (h : B -> A) f (l : list B) :
  zsum_with f (h <$> l) = zsum_with (fun b => f (h b)) l.
Proof. induction l as [|a l IH]; [done|]. unfold zsum_with in *. simpl. f_equal. exact IH. Qed.

Lemma zsum_insert f l i a b :
  l !! i = Some b -> zsum_with f (<[i := a]> l) = zsum_with f l + f a - f b.
Proof.
  revert i. induction l as [|c l IH]; intros i H; [done|].
  destruct i as [|i]; simpl in *.
  - inv H. unfold zsum_with. simpl. lia.
  - specialize (IH _ H). unfold zsum_with in *. simpl. lia.
Qed.

Lemma zsum_lookup_le f l i a :
  (forall b, b ∈ l -> 0 <= f b) -> l !! i = Some a -> f a <= zsum_with f l.
Proof.
  intros Hn H. apply list_elem_of_lookup_2 in H.
  induction l as [|c l IH]; [set_solver|]. unfold zsum_with in *. simpl.
  pose proof (Hn c ltac:(set_solver)).
  pose proof (zsum_nonneg f l ltac:(set_solver)). unfold zsum_with in *.
  apply elem_of_cons in H as [->|H]; [lia|]. pose proof (IH ltac:(set_solver) H). lia.
Qed.
End Sums.

(** ** Byte comparison is a total order *)

Lemma to_N_inj x y : Byte.to_N x = Byte.to_N y -> x = y.
Proof.
  intros H. assert (Byte.of_N (Byte.to_N x) = Byte.of_N (Byte.to_N y)) as E by congruence.
  rewrite !Byte.of_to_N in E. by simplify_eq.
Qed.

Lemma bytes_compare_eq a b : bytes_compare a b = Eq <-> a = b.
Proof.
  revert b. induction a as [|x a IH]; intros [|y b]; simpl; try done.
  destruct (N.compare_spec (Byte.to_N x) (Byte.to_N y)) as [E|E|E].
  - apply to_N_inj in E as ->. rewrite IH. split; congruence.
  - split; [done|]. intros [= -> ->]. lia.
  - split; [done|]. intros [= -> ->]. lia.
Qed.

Lemma bytes_compare_refl a : bytes_compare a a = Eq.
Proof. by apply bytes_compare_eq. Qed.

Lemma bytes_compare_antisym a b : bytes_compare b a = CompOpp (bytes_compare a b).
Proof.
  revert b. induction a as [|x a IH]; intros [|y b]; simpl; try done.
  rewrite N.compare_antisym, IH. by destruct (Byte.to_N x ?= Byte.to_N y)%N.
Qed.

Lemma bytes_compare_lt_trans a b c :
  bytes_compare a b = Lt -> bytes_compare b c = Lt -> bytes_compare a c = Lt.
Proof.
  revert b c. induction a as [|x a IH]; intros [|y b] [|z c]; simpl; try done.
  destruct (N.compare_spec (Byte.to_N x) (Byte.to_N y)) as [E|E|E];
  destruct (N.compare_spec (Byte.to_N y) (Byte.to_N z)) as [F|F|F]; try done;
  destruct (N.compare_spec (Byte.to_N x) (Byte.to_N z)); try lia; try done.
  apply IH.
Qed.

Lemma bytes_equal_true a b : bytes_equal a b = true <-> a = b.
Proof. unfold bytes_equal. by rewrite bool_decide_eq_true. Qed.

Lemma bytes_equal_false a b : bytes_equal a b = false <-> a <> b.
Proof. unfold bytes_equal. by rewrite bool_decide_eq_false. Qed.

#[export] Hint Resolve u64_range i64_range bytes_compare_refl : godb.
