(* ===== verification/GoStd.v ===== *)
(** * Routines of Go's standard library the program calls

    [sort.Search] (binary search) and [container/heap] (a binary heap in a
    slice), written as the library writes them, and the bytes of [math/big], with
    the facts the components use: the search finds the boundary of a monotone
    predicate, the heap keeps its least element at the root, and the bytes of a
    natural number give it back. *)

From S2P Require Import Prelude.

(** ** [sort.Search] *)

(** [for i < j { h := int(uint(i+j) >> 1); if !f(h) { i = h+1 } else { j = h } }].
    The fuel bounds the number of rounds; [j - i] rounds are enough. *)
Fixpoint searchLoop (f : Z -> outcome bool) (fuel : nat) (i j : Z) : outcome Z :=
  match fuel with
  | O => Ret i
  | S fuel' =>
      if i <? j then
        let h := (i + j) / 2 in
        let! b := f h in
        if b then searchLoop f fuel' i h else searchLoop f fuel' (h + 1) j
      else Ret i
  end.

Definition sortSearch (n : Z) (f : Z -> outcome bool) : outcome Z :=
  searchLoop f (Z.to_nat n) 0 n.

(** ** [container/heap] *)

Section Heap.
Context {A : Type} (less : A -> A -> outcome bool).

Definition swap (h : list A) (i j : nat) : list A :=
  match h !! i, h !! j with
  | Some x, Some y => <[i := y]> (<[j := x]> h)
  | _, _ => h
  end.

Definition lessAt (h : list A) (i j : nat) : outcome bool :=
  let! x := slice_get h (Z.of_nat i) in
  let! y := slice_get h (Z.of_nat j) in
  less x y.

(** Go's [(j - 1) / 2] truncates toward zero: the parent of 0 is 0. *)
Definition parent (j : nat) : nat := ((j - 1) / 2)%nat.

Fixpoint heapUp (fuel : nat) (h : list A) (j : nat) : outcome (list A) :=
  match fuel with
  | O => Ret h
  | S fuel' =>
      let i := parent j in
      if Nat.eqb i j then Ret h
      else let! b := lessAt h j i in
           if b then heapUp fuel' (swap h i j) i else Ret h
  end.

(** Returns the slice and where the element ended. *)
Fixpoint heapDown (fuel : nat) (h : list A) (i n : nat) : outcome (list A * nat) :=
  match fuel with
  | O => Ret (h, i)
  | S fuel' =>
      let j1 := (2 * i + 1)%nat in
      if (n <=? j1)%nat then Ret (h, i)
      else
        let j2 := (j1 + 1)%nat in
        let! b2 := (if (j2 <? n)%nat then lessAt h j2 j1 else Ret false) in
        let j := if b2 then j2 else j1 in
        let! b := lessAt h j i in
        if b then heapDown fuel' (swap h i j) j n else Ret (h, i)
  end.

Definition heapPush (h : list A) (x : A) : outcome (list A) :=
  let h' := h ++ [x] in
  heapUp (length h') h' (length h' - 1).

Definition heapFix (h : list A) (i : nat) : outcome (list A) :=
  let! (h', i') := heapDown (length h) h i (length h) in
  if (i <? i')%nat then Ret h' else heapUp (length h') h' i.

(** [heap.Init]: [for i := n/2 - 1; i >= 0; i-- { down(h, i, n) }], from [i - 1] on. *)
Fixpoint initLoop (i : nat) (h : list A) : outcome (list A) :=
  match i with
  | O => Ret h
  | S i => let! (h', _) := heapDown (length h) h i (length h) in initLoop i h'
  end.

Definition heapInit (h : list A) : outcome (list A) := initLoop (length h / 2) h.

(** The last element, which [Pop] of the slice returns, and the others. *)
Definition popLast (h : list A) : outcome (A * list A) :=
  let! x := slice_get h (zlen h - 1) in Ret (x, take (length h - 1) h).

Definition heapPop (h : list A) : outcome (A * list A) :=
  let n := (length h - 1)%nat in
  if (length h =? 0)%nat then Panic "index out of range"
  else let! (h', _) := heapDown (length h) (swap h 0 n) 0 n in popLast h'.

(** [heap.Remove] of the element at an index of the heap. *)
Definition heapRemove (h : list A) (i : nat) : outcome (A * list A) :=
  let n := (length h - 1)%nat in
  if (length h <=? i)%nat then Panic "index out of range"
  else if (n =? i)%nat then popLast h
  else
    let! (h', i') := heapDown (length h) (swap h i n) i n in
    let! h'' := (if (i <? i')%nat then Ret h' else heapUp (length h') h' i) in
    popLast h''.

End Heap.

(** ** The search finds the boundary *)

Section SearchFacts.
Context (n : Z) (f : Z -> outcome bool) (p : Z -> bool).
Hypothesis Hf : forall i, 0 <= i < n -> f i = Ret (p i).
Hypothesis Hmono : forall i j, 0 <= i <= j -> j < n -> p i = true -> p j = true.

Lemma searchLoop_spec fuel i j :
  0 <= i <= j -> j <= n -> (Z.to_nat (j - i) <= fuel)%nat ->
  (forall k, 0 <= k < i -> p k = false) -> (forall k, j <= k < n -> p k = true) ->
  exists r, searchLoop f fuel i j = Ret r /\ 0 <= r <= n /\
    (forall k, 0 <= k < r -> p k = false) /\ (forall k, r <= k < n -> p k = true).
Proof.
  revert i j. induction fuel as [|fuel IH]; intros i j Hij Hj Hfuel Hlo Hhi; simpl.
  - assert (i = j) as -> by lia. exists j. auto with lia.
  - destruct (Z.ltb_spec i j) as [Hlt|Hge].
    + pose proof (Z.div_mod (i + j) 2 ltac:(lia)). pose proof (Z.mod_pos_bound (i + j) 2 ltac:(lia)).
      rewrite Hf by lia. simpl. destruct (p ((i + j) / 2)) eqn:E.
      * apply IH; try lia; try done. intros k Hk.
        destruct (Z.ltb_spec k j); [|apply Hhi; lia]. eapply Hmono; [| |done]; lia.
      * apply IH; try lia; try done. intros k Hk.
        destruct (p k) eqn:Ek; [|done]. rewrite <- E. symmetry. eapply Hmono; [| |done]; lia.
    + assert (i = j) as -> by lia. exists j. auto with lia.
Qed.

Lemma sortSearch_spec : 0 <= n ->
  exists r, sortSearch n f = Ret r /\ 0 <= r <= n /\
    (forall k, 0 <= k < r -> p k = false) /\ (forall k, r <= k < n -> p k = true).
Proof. intros Hn. apply searchLoop_spec; lia. Qed.
End SearchFacts.

(** ** Heap facts *)

Section HeapFacts.
Context {A : Type} (less : A -> A -> outcome bool) (lt : A -> A -> bool).

(** On the elements considered, [less] returns and is a strict total order. *)
Context (P : A -> Prop).
Hypothesis less_lt : forall x y, P x -> P y -> x <> y -> less x y = Ret (lt x y).
Hypothesis lt_asym : forall x y, P x -> P y -> lt x y = true -> lt y x = false.
Hypothesis lt_trans : forall x y z, P x -> P y -> P z ->
  lt y x = false -> lt z y = false -> lt z x = false.

(** No element is below its parent. *)
Definition heap_at (h : list A) (j : nat) : Prop :=
  forall x y, h !! parent j = Some x -> h !! j = Some y -> lt y x = false.

Definition is_heap (h : list A) : Prop := forall j, (0 < j)%nat -> heap_at h j.

Lemma parent_lt j : (0 < j)%nat -> (parent j < j)%nat.
Proof. intros H. unfold parent. apply Nat.Div0.div_lt_upper_bound; lia. Qed.

Lemma parent_le j : (parent j <= j)%nat.
Proof. unfold parent. apply Nat.Div0.div_le_upper_bound. lia. Qed.

(** The children of [i] are [2i+1] and [2i+2]. *)
Lemma parent_children i j : (0 < j)%nat -> parent j = i <-> (j = 2 * i + 1 \/ j = 2 * i + 2)%nat.
Proof.
  intros H. unfold parent. pose proof (Nat.div_mod_eq (j - 1) 2).
  pose proof (Nat.mod_upper_bound (j - 1) 2 ltac:(lia)). lia.
Qed.

Lemma lt_irrefl x : P x -> lt x x = false.
Proof. intros Hx. destruct (lt x x) eqn:E; [|done]. by rewrite (lt_asym x x) in E. Qed.

(** The root of a heap is least. *)
Lemma heap_root (h : list A) x : Forall P h -> is_heap h -> h !! 0%nat = Some x ->
  forall j y, h !! j = Some y -> lt y x = false.
Proof.
  intros HP Hh H0 j. induction j as [j IH] using lt_wf_ind. intros y Hy.
  destruct (decide (j = 0%nat)) as [->|Hj].
  - simplify_eq. apply lt_irrefl. by eapply Forall_lookup_1.
  - pose proof (parent_lt j ltac:(lia)) as Hlt.
    destruct (lookup_lt_is_Some_2 h (parent j)) as [z Hz].
    { apply lookup_lt_Some in Hy. lia. }
    apply (lt_trans x z y); try (by eapply Forall_lookup_1).
    + by apply (IH (parent j)).
    + by apply (Hh j); [lia|..].
Qed.

Lemma swap_spec (h : list A) (i j : nat) x y : h !! i = Some x -> h !! j = Some y ->
  forall k, swap h i j !! k = if Nat.eqb k i then Some y else if Nat.eqb k j then Some x else h !! k.
Proof.
  intros Hx Hy k. unfold swap. rewrite Hx, Hy. apply lookup_lt_Some in Hx as Hxl.
  apply lookup_lt_Some in Hy as Hyl.
  destruct (Nat.eqb_spec k i) as [->|]; [by rewrite list_lookup_insert_eq by (rewrite length_insert; lia)|].
  rewrite list_lookup_insert_ne by done. destruct (Nat.eqb_spec k j) as [->|].
  - by rewrite list_lookup_insert_eq.
  - by rewrite list_lookup_insert_ne.
Qed.

Lemma swap_perm (h : list A) (i j : nat) x y : h !! i = Some x -> h !! j = Some y -> swap h i j ≡ₚ h.
Proof. intros Hx Hy. unfold swap. rewrite Hx, Hy. by apply Permutation_insert_swap. Qed.

(** What a heap operation may assume and keeps: distinct elements, all in [P]. *)
Definition heap_ok (h : list A) : Prop := NoDup h /\ Forall P h.

Lemma heap_ok_perm h h' : h' ≡ₚ h -> heap_ok h -> heap_ok h'.
Proof. intros E [Hn HP]. split; by rewrite E. Qed.

Lemma lessAt_spec (h : list A) (i j : nat) x y : heap_ok h -> i <> j ->
  h !! i = Some x -> h !! j = Some y -> lessAt less h i j = Ret (lt x y).
Proof.
  intros [Hn HP] Hne Hx Hy. unfold lessAt.
  rewrite (proj2 (slice_get_Ret h (Z.of_nat i) x)) by (rewrite Nat2Z.id; auto with lia). simpl.
  rewrite (proj2 (slice_get_Ret h (Z.of_nat j) y)) by (rewrite Nat2Z.id; auto with lia). simpl.
  apply less_lt; try (by eapply Forall_lookup_1). intros ->.
  apply Hne. by eapply NoDup_lookup.
Qed.

(** [up] repairs a heap whose only fault is between [j] and its parent. *)
Definition up_inv (h : list A) (j : nat) : Prop :=
  (forall k, (0 < k)%nat -> k <> j -> heap_at h k) /\
  (forall k x y, (0 < k)%nat -> parent k = j -> (0 < j)%nat ->
     h !! parent j = Some x -> h !! k = Some y -> lt y x = false).

Lemma up_inv_step (h : list A) (j : nat) x y : heap_ok h -> (0 < j)%nat ->
  h !! parent j = Some x -> h !! j = Some y -> lt y x = true -> up_inv h j ->
  up_inv (swap h (parent j) j) (parent j).
Proof.
  intros Hok Hj Hx Hy Hlt [H1 H2]. pose proof (parent_lt j Hj) as Hpj.
  assert (forall k z, h !! k = Some z -> P z) as HP.
  { intros k z Hz. destruct Hok as [_ HF]. by eapply Forall_lookup_1. }
  pose proof (swap_spec h _ _ x y Hx Hy) as Hs. split.
  - intros k Hk Hkne a b. rewrite !Hs. destruct (Nat.eqb_spec k (parent j)); [done|].
    destruct (Nat.eqb_spec k j) as [->|Hkj].
    + rewrite Nat.eqb_refl. intros [= <-] [= <-]. eauto.
    + destruct (Nat.eqb_spec (parent k) (parent j)) as [Ep|Ep].
      * intros [= <-] Hb. apply (lt_trans y x b); eauto. by apply (H1 k Hk Hkj); [rewrite Ep|].
      * destruct (Nat.eqb_spec (parent k) j) as [Eq|Eq].
        -- intros [= <-] Hb. by apply (H2 k x b).
        -- apply (H1 k Hk Hkj).
  - intros k a b Hk Hpk Hi. rewrite !Hs. pose proof (parent_lt _ Hi).
    destruct (Nat.eqb_spec (parent (parent j)) (parent j)); [lia|].
    destruct (Nat.eqb_spec (parent (parent j)) j); [lia|]. intros Ha.
    assert (lt x a = false) as Hxa by (by apply (H1 (parent j)); [lia|lia|..]).
    destruct (Nat.eqb_spec k (parent j)) as [->|].
    { pose proof (parent_lt _ Hi). lia. }
    destruct (Nat.eqb_spec k j) as [->|Hkj]; [by intros [= <-]|].
    intros Hb. apply (lt_trans a x b); eauto. by apply (H1 k Hk Hkj); [rewrite Hpk|].
Qed.

Lemma up_inv_heap (h : list A) j : up_inv h j -> (j = 0%nat \/ heap_at h j) -> is_heap h.
Proof.
  intros [H1 _] Hj k Hk. destruct (decide (k = j)) as [->|]; [|by apply H1].
  destruct Hj as [->|]; [lia|done].
Qed.

Lemma heapUp_spec fuel (h : list A) j : heap_ok h -> (j < length h)%nat -> (j <= fuel)%nat ->
  up_inv h j -> exists h', heapUp less fuel h j = Ret h' /\ h' ≡ₚ h /\ is_heap h'.
Proof.
  revert h j. induction fuel as [|fuel IH]; intros h j Hok Hj Hf Hinv; simpl.
  - exists h. split; [done|]. split; [done|]. apply (up_inv_heap h j); [done|]. left. lia.
  - destruct (Nat.eqb_spec (parent j) j) as [E|E].
    { exists h. split; [done|]. split; [done|]. apply (up_inv_heap h j); [done|]. left.
      destruct j; [done|]. pose proof (parent_lt (S j)). lia. }
    assert (0 < j)%nat as Hj0 by (destruct j; [done|lia]). pose proof (parent_lt j Hj0).
    destruct (lookup_lt_is_Some_2 h j Hj) as [y Hy].
    destruct (lookup_lt_is_Some_2 h (parent j)) as [x Hx]; [lia|].
    rewrite (lessAt_spec h j (parent j) y x) by done. simpl. destruct (lt y x) eqn:El.
    + pose proof (swap_perm h _ _ x y Hx Hy) as Ep.
      destruct (IH (swap h (parent j) j) (parent j)) as (h' & -> & Ep' & Hh).
      * by eapply heap_ok_perm.
      * rewrite (Permutation_length Ep). lia.
      * lia.
      * by eapply up_inv_step.
      * exists h'. split; [done|]. split; [by rewrite Ep'|done].
    + exists h. split; [done|]. split; [done|]. apply (up_inv_heap h j); [done|]. right.
      intros a b Ha Hb. by simplify_eq.
Qed.

(** No element is below its parent, from the parent [lo] on. *)
Definition heap_from (lo : nat) (h : list A) : Prop := forall j, (0 < j)%nat -> (lo <= parent j)%nat -> heap_at h j.

(** [down] repairs such a heap whose only faults are between [i] and its children. *)
Definition down_inv (lo : nat) (h : list A) (i : nat) : Prop :=
  (forall k, (0 < k)%nat -> (lo <= parent k)%nat -> parent k <> i -> heap_at h k) /\
  (forall k x y, (0 < k)%nat -> parent k = i -> (0 < i)%nat -> (lo <= parent i)%nat ->
     h !! parent i = Some x -> h !! k = Some y -> lt y x = false).

Lemma down_inv_step lo (h : list A) (i j : nat) x y : heap_ok h -> (lo <= i)%nat -> (0 < j)%nat -> parent j = i ->
  h !! i = Some x -> h !! j = Some y -> lt y x = true ->
  (forall k z, (0 < k)%nat -> parent k = i -> h !! k = Some z -> lt z y = false) ->
  down_inv lo h i -> down_inv lo (swap h i j) j.
Proof.
  intros Hok Hlo Hj Hpj Hx Hy Hlt Hmin [H1 H2]. pose proof (parent_lt j Hj) as Hij. rewrite Hpj in Hij.
  assert (forall k z, h !! k = Some z -> P z) as HP.
  { intros k z Hz. destruct Hok as [_ HF]. by eapply Forall_lookup_1. }
  pose proof (swap_spec h _ _ x y Hx Hy) as Hs. split.
  - intros k Hk Hl Hkne a b. rewrite !Hs. destruct (Nat.eqb_spec (parent k) i) as [Ep|Ep].
    + intros [= <-]. destruct (Nat.eqb_spec k i); [subst; pose proof (parent_lt _ Hk); lia|].
      destruct (Nat.eqb_spec k j) as [->|]; [intros [= <-]; eauto|]. intros Hb. by apply (Hmin k).
    + destruct (Nat.eqb_spec (parent k) j); [done|]. intros Ha.
      destruct (Nat.eqb_spec k i) as [->|].
      * intros [= <-]. by apply (H2 j a y).
      * destruct (Nat.eqb_spec k j) as [->|]; [done|]. intros Hb. by apply (H1 k Hk Hl Ep).
  - intros k a b Hk Hpk _ _. rewrite !Hs, Hpj, Nat.eqb_refl. intros [= <-].
    pose proof (parent_lt k Hk).
    destruct (Nat.eqb_spec k i); [lia|]. destruct (Nat.eqb_spec k j); [lia|].
    intros Hb. apply (H1 k Hk); [lia|lia|by rewrite Hpk|done].
Qed.

Lemma down_inv_heap lo (h : list A) i x : down_inv lo h i -> h !! i = Some x ->
  (forall k z, (0 < k)%nat -> parent k = i -> h !! k = Some z -> lt z x = false) -> heap_from lo h.
Proof.
  intros [H1 _] Hx Hall k Hk Hl. destruct (decide (parent k = i)) as [Ep|]; [|by apply H1].
  intros a b Ha Hb. rewrite Ep in Ha. simplify_eq. by apply (Hall k).
Qed.

Lemma heap_from_0 h : heap_from 0 h <-> is_heap h.
Proof. split; intros H j Hj; [apply H; lia|intros _; by apply H]. Qed.

(** The smaller child is below both children. *)
Lemma min_child (h : list A) i j1 : heap_ok h -> j1 = (2 * i + 1)%nat -> (j1 < length h)%nat ->
  exists b2 y, (if (j1 + 1 <? length h)%nat then lessAt less h (j1 + 1) j1 else Ret false) = Ret b2 /\
    h !! (if b2 : bool then j1 + 1 else j1)%nat = Some y /\
    parent (if b2 : bool then j1 + 1 else j1)%nat = i /\
    forall k z, (0 < k)%nat -> parent k = i -> h !! k = Some z -> lt z y = false.
Proof.
  intros Hok Hj1 Hlen. destruct (lookup_lt_is_Some_2 h j1 Hlen) as [y1 Hy1].
  assert (forall k z, h !! k = Some z -> P z) as HP.
  { intros k z Hz. destruct Hok as [_ HF]. by eapply Forall_lookup_1. }
  assert (parent j1 = i) as Hp1 by (apply parent_children; lia).
  assert (parent (j1 + 1) = i) as Hp2 by (apply parent_children; lia).
  destruct (Nat.ltb_spec (j1 + 1) (length h)) as [H2|H2].
  - destruct (lookup_lt_is_Some_2 h (j1 + 1)%nat H2) as [y2 Hy2].
    rewrite (lessAt_spec h (j1 + 1)%nat j1 y2 y1) by (done || lia).
    destruct (lt y2 y1) eqn:E; [exists true, y2|exists false, y1]; split_and!; try done;
      intros k z Hk Hpk Hz; apply parent_children in Hpk as [->| ->]; try done;
      replace (2 * i + 2)%nat with (j1 + 1)%nat in * by lia; subst j1; simplify_eq; eauto using lt_irrefl.
  - exists false, y1. split_and!; try done. intros k z Hk Hpk Hz.
    apply parent_children in Hpk as [->| ->]; [|by apply lookup_lt_Some in Hz; lia|done].
    subst j1. simplify_eq. eauto using lt_irrefl.
Qed.

Lemma heapDown_from lo fuel (h : list A) i : heap_ok h -> (lo <= i < length h)%nat ->
  (length h <= i + fuel)%nat -> down_inv lo h i ->
  exists h' i', heapDown less fuel h i (length h) = Ret (h', i') /\ h' ≡ₚ h /\ heap_from lo h'.
Proof.
  revert h i. induction fuel as [|fuel IH]; intros h i Hok [Hlo Hi] Hf Hinv; [lia|].
  cbn [heapDown]. destruct (lookup_lt_is_Some_2 h i Hi) as [x Hx].
  destruct (Nat.leb_spec (length h) (2 * i + 1)) as [Hn|Hn].
  { exists h, i. split; [done|]. split; [done|]. eapply down_inv_heap; [done..|].
    intros k z Hk Hpk Hz. apply lookup_lt_Some in Hz. apply parent_children in Hpk; lia. }
  destruct (min_child h i (2 * i + 1)%nat Hok eq_refl Hn) as (b2 & y & -> & Hy & Hpj & Hmin). cbn [obind].
  set (j := if b2 then (2 * i + 1 + 1)%nat else (2 * i + 1)%nat) in *.
  assert (0 < j)%nat as Hj0 by (destruct b2; lia). assert (i < j)%nat by (destruct b2; lia).
  rewrite (lessAt_spec h j i y x) by (done || lia). cbn [obind]. destruct (lt y x) eqn:El.
  - pose proof (swap_perm h _ _ x y Hx Hy) as Ep.
    destruct (IH (swap h i j) j) as (h' & i' & E & Ep' & Hh).
    + by eapply heap_ok_perm.
    + rewrite (Permutation_length Ep). split; [lia|by eapply lookup_lt_Some].
    + rewrite (Permutation_length Ep). lia.
    + by eapply down_inv_step.
    + rewrite (Permutation_length Ep) in E. exists h', i'. split; [done|]. split; [by rewrite Ep'|done].
  - exists h, i. split; [done|]. split; [done|]. eapply down_inv_heap; [done..|].
    intros k z Hk Hpk Hz. assert (forall k z, h !! k = Some z -> P z) as HP.
    { intros k' z' Hz'. destruct Hok as [_ HF]. by eapply Forall_lookup_1. }
    apply (lt_trans x y z); eauto.
Qed.

Lemma heapDown_spec fuel (h : list A) i : heap_ok h -> (i < length h)%nat ->
  (length h <= i + fuel)%nat -> down_inv 0 h i ->
  exists h' i', heapDown less fuel h i (length h) = Ret (h', i') /\ h' ≡ₚ h /\ is_heap h'.
Proof.
  intros Hok Hi Hf Hinv. destruct (heapDown_from 0 fuel h i Hok ltac:(lia) Hf Hinv) as (h' & i' & E & Ep & Hh).
  exists h', i'. split; [done|]. split; [done|]. by apply heap_from_0.
Qed.

(** [heap.Push] keeps the heap and adds the element. *)
Lemma heapPush_spec (h : list A) x : heap_ok (h ++ [x]) -> is_heap h ->
  exists h', heapPush less h x = Ret h' /\ h' ≡ₚ h ++ [x] /\ is_heap h'.
Proof.
  intros Hok Hh. unfold heapPush. rewrite length_app. simpl.
  replace (length h + 1 - 1)%nat with (length h) by lia.
  apply heapUp_spec; [done|rewrite length_app; simpl; lia|lia|]. split.
  - intros k Hk Hne a b Ha Hb. pose proof (parent_lt k Hk).
    assert (k < length h)%nat by (apply lookup_lt_Some in Hb; rewrite length_app in Hb; simpl in Hb; lia).
    rewrite lookup_app_l in Ha, Hb by lia. by apply (Hh k Hk).
  - intros k a b Hk Hpk Hj _ Hb. apply lookup_lt_Some in Hb.
    rewrite length_app in Hb. simpl in Hb. pose proof (parent_lt k Hk). lia.
Qed.

(** [heap.Fix(h, 0)] restores the heap after the root changed. *)
Lemma heapFix_root_spec (h : list A) : heap_ok h -> (0 < length h)%nat ->
  (forall k, (0 < k)%nat -> parent k <> 0%nat -> heap_at h k) ->
  exists h', heapFix less h 0 = Ret h' /\ h' ≡ₚ h /\ is_heap h'.
Proof.
  intros Hok Hl Hinv. unfold heapFix.
  destruct (heapDown_spec (length h) h 0 Hok Hl) as (h' & i' & -> & Ep & Hh); [lia| |].
  { split; [intros k Hk _; by apply Hinv|]. intros; lia. }
  simpl. destruct (Nat.ltb_spec 0 i'); [by exists h'|].
  exists h'. split; [|done]. by destruct (length h') as [|m] eqn:E.
Qed.
(** [heap.Init] makes a heap. *)
Lemma initLoop_spec i (h : list A) : heap_ok h -> (i <= length h)%nat -> heap_from i h -> exists h', initLoop less i h = Ret h' /\ h' ≡ₚ h /\ is_heap h'.
Proof.
  revert h. induction i as [|i IH]; intros h Hok Hi Hh; [exists h; by rewrite <- heap_from_0|]. cbn [initLoop].
  destruct (heapDown_from i (length h) h i Hok ltac:(lia) ltac:(lia)) as (h' & j & -> & Ep & Hh').
  - split; [intros k Hk Hl Hne; apply Hh; lia|]. intros k x y Hk Hpk Hi0 Hl. pose proof (parent_lt i Hi0). lia.
  - cbn [obind]. destruct (IH h') as (h'' & E & Ep' & Hh''); [by eapply heap_ok_perm|rewrite (Permutation_length Ep); lia|done|]. exists h''. split; [done|]. split; [by rewrite Ep'|done].
Qed.

Lemma heapInit_spec (h : list A) : heap_ok h -> exists h', heapInit less h = Ret h' /\ h' ≡ₚ h /\ is_heap h'.
Proof.
  intros Hok. pose proof (Nat.div_mod_eq (length h) 2) as Hd. pose proof (Nat.mod_upper_bound (length h) 2 ltac:(lia)). apply initLoop_spec; [done|lia|].
  intros j Hj Hl x y _ Hy. apply lookup_lt_Some in Hy. destruct (proj1 (parent_children (parent j) j Hj) eq_refl); lia.
Qed.

(** [down] on the front of a slice leaves its end alone. *)
Lemma swap_app (h t : list A) i j : (i < length h)%nat -> (j < length h)%nat -> swap (h ++ t) i j = swap h i j ++ t.
Proof.
  intros Hi Hj. unfold swap. rewrite !lookup_app_l by done. destruct (lookup_lt_is_Some_2 h i Hi) as [x ->], (lookup_lt_is_Some_2 h j Hj) as [y ->].
  by rewrite insert_app_l, insert_app_l by (rewrite ?length_insert; done).
Qed.

Lemma lessAt_app (h t : list A) i j : (i < length h)%nat -> (j < length h)%nat -> lessAt less (h ++ t) i j = lessAt less h i j.
Proof. intros Hi Hj. unfold lessAt, slice_get. rewrite !Nat2Z.id, !lookup_app_l by done. done. Qed.

Lemma swap_length (h : list A) i j : length (swap h i j) = length h.
Proof. unfold swap. destruct (h !! i), (h !! j); rewrite ?length_insert; done. Qed.

Lemma heapDown_app fuel (h t : list A) i : (i < length h)%nat ->
  heapDown less fuel (h ++ t) i (length h) = let! (h', j) := heapDown less fuel h i (length h) in Ret (h' ++ t, j).
Proof.
  revert h i. induction fuel as [|fuel IH]; intros h i Hi; [done|]. cbn [heapDown]. destruct (Nat.leb_spec (length h) (2 * i + 1)) as [Hn|Hn]; [done|].
  set (m := if (2 * i + 1 + 1 <? length h)%nat then lessAt less (h ++ t) (2 * i + 1 + 1) (2 * i + 1) else Ret false).
  assert (m = if (2 * i + 1 + 1 <? length h)%nat then lessAt less h (2 * i + 1 + 1) (2 * i + 1) else Ret false) as ->.
  { unfold m. destruct (Nat.ltb_spec (2 * i + 1 + 1) (length h)); [by rewrite lessAt_app by lia|done]. }
  destruct (Nat.ltb_spec (2 * i + 1 + 1) (length h)) as [H2|H2]; [destruct (lessAt less h (2 * i + 1 + 1) (2 * i + 1)) as [b|]; [|done]|]; cbn [obind]; [destruct b|];
    match goal with |- context [lessAt less (h ++ t) ?j i] => rewrite (lessAt_app h t j i) by lia; destruct (lessAt less h j i) as [[]|]; [|done..]; cbn [obind];
      rewrite swap_app by lia; pose proof (IH (swap h i j) j) as H; rewrite swap_length in H; apply H; lia end.
Qed.

Lemma popLast_app (h : list A) x : popLast (h ++ [x]) = Ret (x, h).
Proof.
  unfold popLast, slice_get, zlen. rewrite length_app. cbn [length]. rewrite (proj2 (Z.ltb_ge _ _)) by lia. replace (Z.to_nat (Z.of_nat (length h + 1) - 1)) with (length h) by lia.
  rewrite lookup_app_r, Nat.sub_diag by lia. cbn [lookup list_lookup obind]. by replace (length h + 1 - 1)%nat with (length h) by lia; rewrite take_app_length.
Qed.

(** The last element moved to the place of the [i]-th one. *)
Lemma swap_last (h : list A) x y i : (h ++ [x]) !! i = Some y -> (i < length h)%nat -> swap (h ++ [x]) i (length h) = <[i := x]> h ++ [y].
Proof.
  intros Hy Hi. unfold swap. rewrite Hy. rewrite lookup_app_r, Nat.sub_diag by lia. cbn [lookup list_lookup]. apply list_eq. intros k. rewrite !list_lookup_insert, !length_insert, length_app. cbn [length].
  destruct (decide (k < length h)%nat).
  - rewrite (lookup_app_l (<[i := x]> h)) by (rewrite length_insert; lia). rewrite list_lookup_insert. repeat case_decide; try lia; [done|]. by rewrite lookup_app_l.
  - rewrite (lookup_app_r (<[i := x]> h)), length_insert by (rewrite length_insert; lia). rewrite (decide_False (P := i = k /\ _)) by lia. destruct (decide (k = length h)) as [->|].
    + by rewrite decide_True, Nat.sub_diag by lia.
    + rewrite decide_False by lia. rewrite !lookup_ge_None_2; [done|cbn; lia|rewrite length_app; cbn; lia].
Qed.
Lemma is_heap_app (h t : list A) : is_heap (h ++ t) -> is_heap h.
Proof. intros H j Hj x y Hx Hy. apply (H j Hj); by apply lookup_app_l_Some. Qed.

Lemma heapUp_app fuel (h t : list A) j : (j < length h)%nat -> heapUp less fuel (h ++ t) j = let! h' := heapUp less fuel h j in Ret (h' ++ t).
Proof.
  revert h j. induction fuel as [|fuel IH]; intros h j Hj; [done|]. cbn [heapUp]. destruct (Nat.eqb_spec (parent j) j); [done|]. pose proof (parent_le j). rewrite lessAt_app by lia.
  destruct (lessAt less h j (parent j)) as [[]|]; [|done..]. cbn [obind]. rewrite swap_app by lia. apply IH. rewrite swap_length. lia.
Qed.

(** A heap in which the [i]-th element was replaced has its faults around [i]. *)
Lemma replaced_at (h : list A) i x k : is_heap h -> (0 < k)%nat -> k <> i -> parent k <> i -> heap_at (<[i := x]> h) k.
Proof. intros Hh Hk Hne Hpe a b. rewrite !list_lookup_insert_ne by done. by apply Hh. Qed.

Lemma replaced_child (h : list A) i x k a b : heap_ok h -> is_heap h -> (i < length h)%nat -> (0 < i)%nat -> (0 < k)%nat -> parent k = i ->
  <[i := x]> h !! parent i = Some a -> <[i := x]> h !! k = Some b -> lt b a = false.
Proof.
  intros [_ HP] Hh Hi Hi0 Hk Hpk. pose proof (parent_lt i Hi0). pose proof (parent_lt k Hk). rewrite !list_lookup_insert_ne by lia. intros Ha Hb. destruct (lookup_lt_is_Some_2 h i Hi) as [y Hy].
  assert (forall k z, h !! k = Some z -> P z) as HP' by (intros ? ? Hz; by eapply Forall_lookup_1). apply (lt_trans a y b); eauto; [by apply (Hh i)|]. apply (Hh k); [done|by rewrite Hpk|done].
Qed.

Lemma heapDown_stays fuel (h : list A) i x : heap_ok h -> h !! i = Some x -> (forall k z, (0 < k)%nat -> parent k = i -> h !! k = Some z -> lt z x = false) ->
  heapDown less (S fuel) h i (length h) = Ret (h, i).
Proof.
  intros Hok Hx Hc. cbn [heapDown]. destruct (Nat.leb_spec (length h) (2 * i + 1)) as [Hn|Hn]; [done|]. destruct (min_child h i (2 * i + 1)%nat Hok eq_refl Hn) as (b2 & y & -> & Hy & Hpj & _). cbn [obind].
  set (j := if b2 then (2 * i + 1 + 1)%nat else (2 * i + 1)%nat) in *. rewrite (lessAt_spec h j i y x) by (done || (unfold j; destruct b2; lia)). cbn [obind]. rewrite (Hc j y); [done|unfold j; destruct b2; lia|done|done].
Qed.

Lemma heap_up_inv (h : list A) i : heap_ok h -> is_heap h -> up_inv h i.
Proof.
  intros [_ HP] Hh. split; [intros; by apply Hh|]. intros k x y Hk Hpk Hi Hx Hy. assert (forall k z, h !! k = Some z -> P z) as HP' by (intros ? ? Hz; by eapply Forall_lookup_1).
  destruct (lookup_lt_is_Some_2 h i) as [z Hz]. { apply lookup_lt_Some in Hy. pose proof (parent_lt k Hk). lia. }
  apply (lt_trans x z y); eauto; [by apply (Hh i)|]. apply (Hh k); [done|by rewrite Hpk|done].
Qed.

(** [down] and then [up], as [heap.Remove] has them, repair such a heap. *)
Lemma repair_spec fuel (h : list A) i x : heap_ok h -> heap_ok (<[i := x]> h) -> is_heap h -> (i < length h)%nat -> (length h <= fuel)%nat ->
  exists h', (let! (h1, j) := heapDown less fuel (<[i := x]> h) i (length h) in if (i <? j)%nat then Ret h1 else heapUp less fuel h1 i) = Ret h' /\ h' ≡ₚ <[i := x]> h /\ is_heap h'.
Proof.
  intros Hok Hg Hh Hi Hf. set (g := <[i := x]> h) in *. assert (length g = length h) as Hlen by apply length_insert. assert (g !! i = Some x) as Hx by (by apply list_lookup_insert_eq).
  assert (forall k z, g !! k = Some z -> P z) as HP by (intros ? ? Hz; destruct Hg; by eapply Forall_lookup_1). destruct fuel as [|fuel]; [lia|].
  assert ((exists z, (0 < i)%nat /\ g !! parent i = Some z /\ lt x z = true) \/ heap_at g i) as [(z & Hi0 & Hz & Hlt)|Hat].
  { destruct (decide (0 < i)%nat) as [Hi0|]; [|right; intros a b Ha Hb; replace (parent i) with i in Ha by (unfold parent; assert (i = 0%nat) as -> by lia; done); simplify_eq; eauto using lt_irrefl].
    pose proof (parent_lt i Hi0). destruct (lookup_lt_is_Some_2 g (parent i)) as [z Hz]; [lia|]. destruct (lt x z) eqn:E; [left; by exists z|right]. intros a b Ha Hb. by simplify_eq. }
  - assert (forall k b, (0 < k)%nat -> parent k = i -> g !! k = Some b -> lt b x = false) as Hc.
    { intros k b Hk Hpk Hb. destruct (lt b x) eqn:E; [|done]. pose proof (replaced_child h i x k z b Hok Hh Hi Hi0 Hk Hpk Hz Hb). assert (lt x z = false); [|congruence]. apply (lt_trans z b x); eauto. }
    rewrite <- Hlen, (heapDown_stays fuel g i x) by done. cbn [obind]. rewrite (proj2 (Nat.ltb_ge _ _)) by lia. apply heapUp_spec; [done|lia|lia|]. split.
    + intros k Hk Hne. destruct (decide (parent k = i)) as [E|]; [|by apply replaced_at]. intros a b Ha Hb. rewrite E in Ha. simplify_eq. by apply (Hc k).
    + intros k a b Hk Hpk _. by apply replaced_child.
  - rewrite <- Hlen. destruct (heapDown_spec (S fuel) g i Hg ltac:(lia) ltac:(lia)) as (h1 & j & -> & Ep & Hh1).
    { split; [intros k Hk _ Hpe; destruct (decide (k = i)) as [->|]; [done|by apply replaced_at]|]. intros k a b Hk Hpk Hi0 _. by apply replaced_child. }
    cbn [obind]. destruct (Nat.ltb_spec i j); [by exists h1|]. assert (heap_ok h1) as Hok1 by (by eapply heap_ok_perm). destruct (heapUp_spec (S fuel) h1 i) as (h2 & -> & Ep2 & Hh2); [done|rewrite (Permutation_length Ep); lia|lia|by apply heap_up_inv|].
    exists h2. split; [done|]. split; [by rewrite Ep2|done].
Qed.

Lemma heapDown_length fuel (h h' : list A) i n j : heapDown less fuel h i n = Ret (h', j) -> length h' = length h.
Proof.
  revert h i. induction fuel as [|fuel IH]; intros h i E; [by injection E as <-|]. cbn [heapDown] in E. destruct (n <=? 2 * i + 1)%nat; [by injection E as <-|].
  destruct (if (2 * i + 1 + 1 <? n)%nat then _ else _) as [b|]; [|done]. cbn [obind] in E. destruct (lessAt _ _ _ _) as [[]|]; [|by injection E as <-|done]. cbn [obind] in E. by rewrite (IH _ _ E), swap_length.
Qed.

(** [heap.Remove] takes one element out of a heap. *)
Lemma heapRemove_spec (h : list A) i y : heap_ok h -> is_heap h -> h !! i = Some y -> exists h', heapRemove less h i = Ret (y, h') /\ h ≡ₚ y :: h' /\ is_heap h'.
Proof.
  intros Hok Hh Hy. pose proof (lookup_lt_Some _ _ _ Hy) as Hi. unfold heapRemove. rewrite (proj2 (Nat.leb_gt _ _)) by lia. destruct h as [|x0 h0'] using rev_ind; [cbn in Hi; lia|]. rename x0 into x, h0' into h0.
  rewrite length_app in *. cbn [length] in *. replace (length h0 + 1 - 1)%nat with (length h0) by lia. pose proof (is_heap_app h0 [x] Hh) as Hh0. destruct (Nat.eqb_spec (length h0) i) as [E|E].
  - rewrite popLast_app. rewrite <- E, lookup_app_r, Nat.sub_diag in Hy by lia. injection Hy as <-. exists h0. split; [done|]. split; [by rewrite Permutation_app_comm|done].
  - pose proof (swap_last h0 x y i Hy ltac:(lia)) as Esw. assert (<[i := x]> h0 ++ [y] ≡ₚ h0 ++ [x]) as Ep.
    { rewrite <- Esw. eapply swap_perm; [exact Hy|]. rewrite lookup_app_r, Nat.sub_diag by lia. done. }
    assert (heap_ok (<[i := x]> h0)) as Hg. { destruct (heap_ok_perm _ _ Ep Hok) as [Hn HP]. apply NoDup_app in Hn as (Hn & _). apply Forall_app in HP as [HP _]. done. }
    assert (heap_ok h0) as Hok0. { destruct Hok as [Hn HP]. apply NoDup_app in Hn as (Hn & _). apply Forall_app in HP as [HP _]. done. }
    destruct (repair_spec (length h0 + 1) h0 i x Hok0 Hg Hh0 ltac:(lia) ltac:(lia)) as (h' & Er & Ep' & Hh'). rewrite Esw.
    pose proof (heapDown_app (length h0 + 1) (<[i := x]> h0) [y] i ltac:(rewrite length_insert; lia)) as Hd. rewrite length_insert in Hd. rewrite Hd. clear Hd.
    destruct (heapDown less (length h0 + 1) (<[i := x]> h0) i (length h0)) as [[h1 j]|] eqn:Ed; [|done]. cbn [obind] in *. assert (length h1 = length h0) as Hl1 by (rewrite (heapDown_length _ _ _ _ _ _ Ed); apply length_insert).
    exists h'. split; [|split; [rewrite <- Ep, Ep'; by rewrite Permutation_app_comm|done]]. destruct (Nat.ltb_spec i j).
    + injection Er as <-. cbn [obind]. apply popLast_app.
    + rewrite heapUp_app by lia. rewrite length_app, Hl1. cbn [length]. rewrite Er. cbn [obind]. apply popLast_app.
Qed.

(** [heap.Pop] takes the root out of a heap. *)
Lemma heapPop_spec (h : list A) y : heap_ok h -> is_heap h -> h !! 0%nat = Some y -> exists h', heapPop less h = Ret (y, h') /\ h ≡ₚ y :: h' /\ is_heap h'.
Proof.
  intros Hok Hh Hy. destruct (heapRemove_spec h 0 y Hok Hh Hy) as (h' & E & Ep & Hh'). exists h'. split; [|done]. rewrite <- E. unfold heapPop, heapRemove. pose proof (lookup_lt_Some _ _ _ Hy) as Hi.
  destruct (Nat.eqb_spec (length h) 0); [lia|]. rewrite (proj2 (Nat.leb_gt _ _)) by lia. destruct (Nat.eqb_spec (length h - 1) 0) as [E1|E1].
  - rewrite E1. unfold swap. rewrite Hy. rewrite !list_insert_id by (rewrite ?list_insert_id; done). destruct (length h) eqn:El; [lia|]. done.
  - destruct (heapDown less (length h) (swap h 0 (length h - 1)) 0 (length h - 1)) as [[h1 j]|]; [|done]. cbn [obind]. destruct (Nat.ltb_spec 0 j); [done|]. by destruct (length h1).
Qed.
End HeapFacts.

(** ** Bytes of [math/big] *)

(** The last [n] bytes of a number, the most significant one first. *)
Fixpoint bigEndian (n : nat) (z : Z) : bytes := match n with O => [] | S n => bigEndian n (z / 256) ++ [Z_byte (z mod 256)] end.

(** [SetBytes] and [Bytes] of a natural number; [Bytes] has no leading zero. *)
Definition fromBytes (b : bytes) : Z := fold_left (fun z c => 256 * z + byte_Z c) b 0.
Definition bigBytes (z : Z) : bytes := bigEndian (if z =? 0 then O else S (Z.to_nat (Z.log2 z / 8))) z.

Lemma bigEndian_length n z : length (bigEndian n z) = n.
Proof. revert z. induction n as [|n IH]; intros z; cbn; [done|]. rewrite length_app, IH. cbn. lia. Qed.

Lemma byte_Z_range (b : byte) : 0 <= byte_Z b < 256.
Proof. unfold byte_Z. pose proof (Byte.to_N_bounded b). lia. Qed.

Lemma byte_Z_of z : 0 <= z < 256 -> byte_Z (Z_byte z) = z.
Proof.
  intros Hz. unfold byte_Z, Z_byte. rewrite Z.mod_small by lia. destruct (Byte.of_N (Z.to_N z)) as [b|] eqn:E.
  - apply Byte.to_of_N in E. rewrite E. lia.
  - apply Byte.of_N_None_iff in E. lia.
Qed.

Lemma fromBytes_bigEndian n z : 0 <= z < 256 ^ Z.of_nat n -> fromBytes (bigEndian n z) = z.
Proof.
  revert z. induction n as [|n IH]; intros z Hz; [cbn in *; lia|]. rewrite Nat2Z.inj_succ, Z.pow_succ_r in Hz by lia. pose proof (Z.mod_pos_bound z 256 ltac:(lia)) as Hm. cbn [bigEndian].
  unfold fromBytes in *. rewrite fold_left_app, IH by (split; [apply Z.div_pos|apply Z.div_lt_upper_bound]; lia). cbn. rewrite byte_Z_of by done. pose proof (Z.div_mod z 256). lia.
Qed.

Lemma fromBytes_bigBytes z : 0 <= z -> fromBytes (bigBytes z) = z.
Proof.
  intros Hz. unfold bigBytes. apply fromBytes_bigEndian. destruct (Z.eqb_spec z 0) as [->|H0]; [done|]. pose proof (Z.log2_nonneg z). pose proof (Z.log2_spec z ltac:(lia)) as [_ Hl].
  pose proof (Z.div_mod (Z.log2 z) 8 ltac:(lia)). pose proof (Z.mod_pos_bound (Z.log2 z) 8 ltac:(lia)). assert (0 <= Z.log2 z / 8) by (apply Z.div_pos; lia).
  split; [lia|]. rewrite Nat2Z.inj_succ, Z2Nat.id by lia. change 256 with (2 ^ 8). rewrite <- Z.pow_mul_r by lia. eapply Z.lt_le_trans; [exact Hl|]. apply Z.pow_le_mono_r; lia.
Qed.

(** A number below [256 ^ n] has at most [n] bytes. *)
Lemma bigBytes_length n z : 0 <= z < 256 ^ n -> 0 <= n -> zlen (bigBytes z) <= n.
Proof.
  intros Hz Hn. unfold zlen, bigBytes. rewrite bigEndian_length. destruct (Z.eqb_spec z 0) as [->|H0]; [lia|]. change 256 with (2 ^ 8) in Hz. rewrite <- Z.pow_mul_r in Hz by lia.
  assert (Z.log2 z < 8 * n) as Hl by (apply Z.log2_lt_pow2; lia). pose proof (Z.log2_nonneg z). assert (Z.log2 z / 8 < n) by (apply Z.div_lt_upper_bound; lia).
  assert (0 <= Z.log2 z / 8) by (apply Z.div_pos; lia). lia.
Qed.

Lemma fromBytes_app b c : fromBytes (b ++ c) = fromBytes b * 256 ^ zlen c + fromBytes c.
Proof.
  unfold fromBytes. rewrite fold_left_app. generalize (fold_left (fun z c => 256 * z + byte_Z c) b 0). induction c as [|x c IH]; intros a; [change (zlen (@nil byte)) with 0; cbn [fold_left]; lia|].
  cbn [fold_left]. rewrite (IH (256 * a + byte_Z x)), (IH (256 * 0 + byte_Z x)). unfold zlen. cbn [length]. rewrite Nat2Z.inj_succ, Z.pow_succ_r by lia. lia.
Qed.

Lemma fromBytes_zeros n : fromBytes (replicate n Byte.x00) = 0.
Proof. induction n as [|n IH]; [done|]. exact IH. Qed.

Lemma fromBytes_range b : 0 <= fromBytes b < 256 ^ zlen b.
Proof.
  induction b as [|x b IH] using rev_ind; [done|]. rewrite fromBytes_app. pose proof (byte_Z_range x). unfold zlen in *. rewrite length_app, Nat2Z.inj_add, Z.pow_add_r by lia.
  change (fromBytes [x]) with (256 * 0 + byte_Z x). cbn [length]. change (256 ^ Z.of_nat 1) with 256. nia.
Qed.
