(* ===== verification/Effects.v ===== *)
(** * State and panics

    The monad of the code that changes an object in place: a computation takes
    the object and returns a value and the changed object, or panics.  [wp] is
    partial correctness, [twp] adds that the computation does not panic. *)

From S2P Require Import Prelude.

Section Effects.
Context {S : Type}.

Definition ST (A : Type) : Type := S -> outcome (A * S).

#[global] Instance ST_ret : MRet ST := fun A a s => Ret (a, s).
#[global] Instance ST_bind : MBind ST := fun A B f m s => let! (a, s') := m s in f a s'.

Definition lift {A} (o : outcome A) : ST A := fun s => let! a := o in Ret (a, s).
Definition panic {A} (why : string) : ST A := fun _ => Panic why.
Definition gets {A} (f : S -> A) : ST A := fun s => Ret (f s, s).
Definition modify (f : S -> S) : ST unit := fun s => Ret (tt, f s).
Definition when (b : bool) (m : ST unit) : ST unit := if b then m else mret tt.

(** A nil pointer panics. *)
Definition nonNil {A} (o : option A) : ST A :=
  match o with Some a => mret a | None => panic "nil pointer dereference" end.

(** [for _, x := range l { body }]. *)
Fixpoint each {A} (body : A -> ST unit) (l : list A) : ST unit :=
  match l with
  | [] => mret tt
  | x :: l' => _ ← body x; each body l'
  end.

(** What holds of every run that does not panic. *)
Definition wp {A} (m : ST A) (Q : A -> S -> Prop) (s : S) : Prop :=
  match m s with Ret (a, s') => Q a s' | Panic _ => True end.

(** The run does not panic and the postcondition holds. *)
Definition twp {A} (m : ST A) (Q : A -> S -> Prop) (s : S) : Prop :=
  exists a s', m s = Ret (a, s') /\ Q a s'.

Lemma wp_ret {A} (a : A) Q s : Q a s -> wp (mret a) Q s.
Proof. done. Qed.

Lemma wp_bind {A B} (m : ST A) (f : A -> ST B) Q s : wp m (fun a s' => wp (f a) Q s') s -> wp (m ≫= f) Q s.
Proof. unfold wp, mbind, ST_bind. destruct (m s) as [[a s']|]; simpl; done. Qed.

Lemma wp_mono {A} (m : ST A) (Q Q' : A -> S -> Prop) s :
  wp m Q s -> (forall a s', Q a s' -> Q' a s') -> wp m Q' s.
Proof. unfold wp. destruct (m s) as [[a s']|]; auto. Qed.

Lemma wp_and {A} (m : ST A) (Q Q' : A -> S -> Prop) s :
  wp m Q s -> wp m Q' s -> wp m (fun a s' => Q a s' /\ Q' a s') s.
Proof. unfold wp. destruct (m s) as [[a s']|]; auto. Qed.

Lemma wp_panic {A} why (Q : A -> S -> Prop) s : wp (panic why) Q s.
Proof. done. Qed.

Lemma wp_lift {A} (o : outcome A) Q s : (forall a, o = Ret a -> Q a s) -> wp (lift o) Q s.
Proof. unfold wp, lift. destruct o; simpl; auto. Qed.

Lemma wp_gets {A} (f : S -> A) Q s : Q (f s) s -> wp (gets f) Q s.
Proof. done. Qed.

Lemma wp_modify f Q s : Q tt (f s) -> wp (modify f) Q s.
Proof. done. Qed.

Lemma wp_nonNil {A} (o : option A) Q s : (forall a, o = Some a -> Q a s) -> wp (nonNil o) Q s.
Proof. destruct o; simpl; [intros H; by apply wp_ret, H|done]. Qed.

Lemma wp_when (b : bool) (m : ST unit) Q s : (b = true -> wp m Q s) -> (b = false -> Q tt s) -> wp (when b m) Q s.
Proof. destruct b; simpl; intros H1 H2; [by apply H1|by apply wp_ret, H2]. Qed.

(** From a run back to its postcondition. *)
Lemma wp_run {A} (m : ST A) Q s a s' : wp m Q s -> m s = Ret (a, s') -> Q a s'.
Proof. unfold wp. intros H E'. by rewrite E' in H. Qed.

Lemma twp_ret {A} (a : A) (Q : A -> S -> Prop) s : Q a s -> twp (mret a) Q s.
Proof. intros H. by exists a, s. Qed.

Lemma twp_bind {A B} (m : ST A) (f : A -> ST B) Q s : twp m (fun a s' => twp (f a) Q s') s -> twp (m ≫= f) Q s.
Proof. intros (a & s1 & E1 & b & s2 & E2 & H). exists b, s2. unfold mbind, ST_bind. by rewrite E1. Qed.

Lemma twp_mono {A} (m : ST A) (Q Q' : A -> S -> Prop) s :
  twp m Q s -> (forall a s', Q a s' -> Q' a s') -> twp m Q' s.
Proof. intros (a & s1 & E1 & H) HQ. exists a, s1. auto. Qed.

Lemma twp_gets {A} (f : S -> A) (Q : A -> S -> Prop) s : Q (f s) s -> twp (gets f) Q s.
Proof. intros H. by exists (f s), s. Qed.

Lemma twp_modify f (Q : unit -> S -> Prop) s : Q tt (f s) -> twp (modify f) Q s.
Proof. intros H. by exists tt, (f s). Qed.

(** The postcondition holds unless the run panics for a reason in [P]: [wp] allows
    every reason, [twp] none. *)
Definition pwp {A} (P : string -> Prop) (m : ST A) (Q : A -> S -> Prop) (s : S) : Prop :=
  match m s with Ret (a, s') => Q a s' | Panic why => P why end.

Lemma pwp_ret {A} P (a : A) (Q : A -> S -> Prop) s : Q a s -> pwp P (mret a) Q s.
Proof. done. Qed.

Lemma pwp_bind {A B} P (m : ST A) (f : A -> ST B) Q s : pwp P m (fun a s' => pwp P (f a) Q s') s -> pwp P (m ≫= f) Q s.
Proof. unfold pwp, mbind, ST_bind. destruct (m s) as [[a s']|]; simpl; done. Qed.

Lemma pwp_mono {A} P (m : ST A) (Q Q' : A -> S -> Prop) s :
  pwp P m Q s -> (forall a s', Q a s' -> Q' a s') -> pwp P m Q' s.
Proof. unfold pwp. destruct (m s) as [[a s']|]; auto. Qed.

Lemma pwp_gets {A} P (f : S -> A) (Q : A -> S -> Prop) s : Q (f s) s -> pwp P (gets f) Q s.
Proof. done. Qed.

Lemma pwp_modify P f (Q : unit -> S -> Prop) s : Q tt (f s) -> pwp P (modify f) Q s.
Proof. done. Qed.

Lemma pwp_lift {A} P (o : outcome A) a (Q : A -> S -> Prop) s : o = Ret a -> Q a s -> pwp P (lift o) Q s.
Proof. by intros ->. Qed.

Lemma pwp_nonNil {A} P (o : option A) a (Q : A -> S -> Prop) s : o = Some a -> Q a s -> pwp P (nonNil o) Q s.
Proof. by intros ->. Qed.

Lemma pwp_when P (b : bool) (m : ST unit) (Q : unit -> S -> Prop) s :
  (b = true -> pwp P m Q s) -> (b = false -> Q tt s) -> pwp P (when b m) Q s.
Proof. destruct b; simpl; intros H1 H2; [by apply H1|by apply pwp_ret, H2]. Qed.

Lemma pwp_run {A} P (m : ST A) a s' (Q : A -> S -> Prop) s : m s = Ret (a, s') -> Q a s' -> pwp P m Q s.
Proof. unfold pwp. by intros ->. Qed.

Lemma pwp_total {A} P (m : ST A) (Q : A -> S -> Prop) s : twp m Q s -> pwp P m Q s.
Proof. intros (a & s' & E1 & H). by eapply pwp_run. Qed.

Lemma pwp_gets_bind {A B} P (g : S -> A) (k : A -> ST B) Q s : pwp P (k (g s)) Q s -> pwp P (gets g ≫= k) Q s.
Proof. done. Qed.

Lemma pwp_modify_bind {B} P (g : S -> S) (k : unit -> ST B) Q s : pwp P (k tt) Q (g s) -> pwp P (modify g ≫= k) Q s.
Proof. done. Qed.

Lemma pwp_lift_bind {A B} P (o : outcome A) a (k : A -> ST B) Q s : o = Ret a -> pwp P (k a) Q s -> pwp P (lift o ≫= k) Q s.
Proof. by intros ->. Qed.

(** A run that panics for no reason returns. *)
Lemma pwp_never {A} (m : ST A) (Q : A -> S -> Prop) s : pwp (fun _ => False) m Q s -> twp m Q s.
Proof. unfold pwp, twp. destruct (m s) as [[a s']|]; [by exists a, s'|done]. Qed.

Lemma wp_total {A} (m : ST A) (Q : A -> S -> Prop) s : wp m Q s -> (exists r, m s = Ret r) -> twp m Q s.
Proof. unfold wp, twp. intros H [[a s'] E1]. rewrite E1 in H. eauto. Qed.
End Effects.

Arguments ST : clear implicits.
