(* ===== verification/BitArray.v ===== *)
(** * The bit array of the consensus engine

    Model of [consensus/tbft/help/bit_array.go]: which validators voted, which
    block parts arrived.  The array is a list of 64-bit words; the abstract view
    is a list of booleans ([to_bits]), and the theorems say which operations
    implement the pointwise operation on that list and where they do not.
    A [*BitArray] is an [option BitArray]; the mutex of the source is not
    modelled, each method is one atomic step. *)

From S2P Require Import Prelude.

Module BitArray.

Record t := mk { Bits : Z; Elems : list Z }.

(** Number of 64-bit words for [bits] bits, [(bits+63)/64] on [uint]. *)
Definition words (bits : Z) : Z := u64 (bits + 63) / 64.

Definition NewBitArray (bits : Z) : option t :=
  if bits <=? 0 then None
  else Some (mk bits (replicate (Z.to_nat (words bits)) 0)).

Definition Size (bA : option t) : Z :=
  match bA with None => 0 | Some b => Bits b end.

(** [uint64(1) << k]: zero once [k] reaches the width. *)
Definition shl1 (k : Z) : Z := if 64 <=? k then 0 else Z.shiftl 1 k.

(** [^x] on [uint64]. *)
Definition wnot (x : Z) : Z := Z.land (Z.lnot x) (Z.ones 64).

Definition getIndex (b : t) (i : Z) : outcome bool :=
  if Bits b <=? i then Ret false
  else let! e := slice_get (Elems b) (i / 64) in
       Ret (0 <? Z.land e (shl1 (i mod 64))).

Definition GetIndex (bA : option t) (i : Z) : outcome bool :=
  match bA with None => Ret false | Some b => getIndex b i end.

Definition setIndex (b : t) (i : Z) (v : bool) : outcome (bool * t) :=
  if Bits b <=? i then Ret (false, b)
  else
    let! e := slice_get (Elems b) (i / 64) in
    let e' := if v then Z.lor e (shl1 (i mod 64)) else Z.land e (wnot (shl1 (i mod 64))) in
    let! es := slice_set (Elems b) (i / 64) e' in
    Ret (true, mk (Bits b) es).

Definition SetIndex (bA : option t) (i : Z) (v : bool) : outcome (bool * option t) :=
  match bA with
  | None => Ret (false, None)
  | Some b => let! (r, b') := setIndex b i v in Ret (r, Some b')
  end.

Definition copy (b : t) : t := mk (Bits b) (Elems b).

Definition Copy (bA : option t) : option t := copy <$> bA.

Definition copyBits (b : t) (bits : Z) : t :=
  mk bits (resize (Z.to_nat (words bits)) 0 (Elems b)).

(** [for i := 0; i < len(c); i++ { c[i] = f(c[i], o[i]) }]: reading [o] past its
    end panics. *)
Fixpoint zipWords (f : Z -> Z -> Z) (c o : list Z) : outcome (list Z) :=
  match c, o with
  | [], _ => Ret []
  | _ :: _, [] => Panic "index out of range"
  | x :: c', y :: o' => let! r := zipWords f c' o' in Ret (f x y :: r)
  end.

Definition Or (bA o : option t) : outcome (option t) :=
  match bA, o with
  | None, None => Ret None
  | None, Some _ => Ret (Copy o)
  | Some _, None => Ret (Copy bA)
  | Some b, Some o =>
      let c := copyBits b (Z.max (Bits b) (Bits o)) in
      let! es := zipWords Z.lor (Elems c) (Elems o) in
      Ret (Some (mk (Bits c) es))
  end.

Definition and (b o : t) : outcome t :=
  let c := copyBits b (Z.min (Bits b) (Bits o)) in
  let! es := zipWords Z.land (Elems c) (Elems o) in
  Ret (mk (Bits c) es).

Definition And (bA o : option t) : outcome (option t) :=
  match bA, o with
  | Some b, Some o => let! c := and b o in Ret (Some c)
  | _, _ => Ret None
  end.

Definition not (b : t) : t := mk (Bits b) (wnot <$> Elems b).

Definition Not (bA : option t) : option t := not <$> bA.

(** The branch of [Sub] for a longer receiver.  The first loop masks each word
    of the copy with its own complement, the second subtracts bit by bit. *)
Definition subWord (i : Z) (c : t) : outcome t :=
  let! x := slice_get (Elems c) i in
  let! es := slice_set (Elems c) i (Z.land x (wnot x)) in
  Ret (mk (Bits c) es).

Definition subBit (o : t) (idx : Z) (c : t) : outcome t :=
  let! x := getIndex c (u64 idx) in
  let! y := (if x then getIndex o (u64 idx) else Ret false) in
  let! (_, c') := setIndex c (u64 idx) (x && negb y) in
  Ret c'.

Definition subLonger (b o : t) : outcome t :=
  let n := zlen (Elems o) in
  let! c := for_loop 0 (n - 1) subWord (copy b) in
  let i := n - 1 in
  if 0 <=? i then for_loop (i * 64) (i64 (Bits o)) (subBit o) c else Ret c.

Definition Sub (bA o : option t) : outcome (option t) :=
  match bA, o with
  | Some b, Some o =>
      if Bits o <? Bits b
      then let! c := subLonger b o in Ret (Some c)
      else let! c := and b (not o) in Ret (Some c)
  | _, _ => Ret None
  end.

Definition IsEmpty (bA : option t) : bool :=
  match bA with
  | None => true
  | Some b => forallb (fun e => negb (0 <? e)) (Elems b)
  end.

Definition IsFull (bA : option t) : outcome bool :=
  match bA with
  | None => Ret true
  | Some b =>
      let n := zlen (Elems b) in
      if n - 1 <? 0 then Panic "slice bounds out of range"
      else if forallb (fun e => wnot e =? 0) (take (Z.to_nat (n - 1)) (Elems b)) then
        let lastElemBits := u64 (Bits b + 63) mod 64 + 1 in
        let! lastElem := slice_get (Elems b) (n - 1) in
        Ret (Z.land (u64 (lastElem + 1)) (u64 (shl1 lastElemBits - 1)) =? 0)
      else Ret false
  end.

(** The scan of one word for a set bit, from a random start, over [width]
    positions. *)
Fixpoint pickBit (e width start : Z) (j : Z) (n : nat) : option Z :=
  match n with
  | O => None
  | S n' =>
      let bitIdx := (j + start) mod width in
      if 0 <? Z.land e (shl1 bitIdx) then Some bitIdx
      else pickBit e width start (j + 1) n'
  end.

(** One word of the scan: the index found, and the number of random draws made
    so far.  [intn c n] is what the [c]-th call of [random.Intn(n)] returns. *)
Definition pickElem (b : t) (intn : Z -> Z -> Z) (c elemIdx : Z) : outcome (option Z * Z) :=
  let! e := slice_get (Elems b) elemIdx in
  if elemIdx <? zlen (Elems b) - 1 then
    if 0 <? e then
      match pickBit e 64 (intn c 64) 0 64 with
      | Some bitIdx => Ret (Some (u64 (64 * elemIdx + bitIdx)), c + 1)
      | None => Panic "0"
      end
    else Ret (None, c)
  else
    let elemBits := if Bits b mod 64 =? 0 then 64 else Bits b mod 64 in
    match pickBit e elemBits (intn c elemBits) 0 (Z.to_nat elemBits) with
    | Some bitIdx => Ret (Some (u64 (64 * elemIdx + bitIdx)), c + 1)
    | None => Ret (None, c + 1)
    end.

(** The scan over the words, from word [start] on, wrapping around. *)
Fixpoint pickElems (b : t) (intn : Z -> Z -> Z) (c start i : Z) (k : nat) : outcome (Z * bool) :=
  match k with
  | O => Ret (0, false)
  | S k' =>
      let! (r, c') := pickElem b intn c ((i + start) mod zlen (Elems b)) in
      match r with
      | Some idx => Ret (idx, true)
      | None => pickElems b intn c' start (i + 1) k'
      end
  end.

Definition PickRandom (bA : option t) (intn : Z -> Z -> Z) : outcome (Z * bool) :=
  match bA with
  | None => Ret (0, false)
  | Some b =>
      let length := zlen (Elems b) in
      if length =? 0 then Ret (0, false)
      else pickElems b intn 1 (intn 0 length) 0 (Z.to_nat length)
  end.

(** [binary.LittleEndian.PutUint64]. *)
Definition putUint64 (e : Z) : bytes :=
  (fun k => Z_byte (Z.shiftr e (8 * Z.of_nat k))) <$> seq 0 8.

(** [copy(dst[off:], src)]. *)
Definition copyAt (dst : bytes) (off : nat) (src : bytes) : outcome bytes :=
  if (length dst <? off)%nat then Panic "slice bounds out of range"
  else let n := min (length dst - off) (length src) in
       Ret (take off dst ++ take n src ++ drop (off + n) dst).

Definition Bytes (b : t) : outcome bytes :=
  let numBytes := u64 (Bits b + 7) / 8 in
  for_loop 0 (zlen (Elems b)) (fun i bz =>
      let! e := slice_get (Elems b) i in
      copyAt bz (Z.to_nat (i * 8)) (putUint64 e))
    (replicate (Z.to_nat numBytes) Byte.x00).

(** [copy(bA.Elems, o.Elems)]. *)
Definition Update (bA o : option t) : option t :=
  match bA, o with
  | Some b, Some o =>
      let n := min (length (Elems b)) (length (Elems o)) in
      Some (mk (Bits b) (take n (Elems o) ++ drop n (Elems b)))
  | _, _ => bA
  end.

(** JSON text: the quoted string of ['x'] and ['_'], or [null]. *)
Definition jnull : bytes := [Byte.x6e; Byte.x75; Byte.x6c; Byte.x6c].
Definition jquote : byte := Byte.x22.
Definition jx : byte := Byte.x78.
Definition junder : byte := Byte.x5f.

Definition MarshalJSON (bA : option t) : outcome bytes :=
  match bA with
  | None => Ret jnull
  | Some b =>
      let! body := for_loop 0 (i64 (Bits b)) (fun i acc =>
          let! x := getIndex b (u64 i) in
          Ret (acc ++ [if x then jx else junder])) [] in
      Ret ([jquote] ++ body ++ [jquote])
  end.

(** The match of [bitArrayJSONRegexp], a quoted string over the two letters:
    the text between the quotes. *)
Definition jsonBits (bz : bytes) : option bytes :=
  match bz with
  | q :: rest =>
      match reverse rest with
      | q' :: rbody =>
          if bool_decide (q = jquote) && bool_decide (q' = jquote)
             && forallb (fun c => bool_decide (c = jx) || bool_decide (c = junder)) rbody
          then Some (reverse rbody) else None
      | [] => None
      end
  | [] => None
  end.

(** [inl tt] is the format error. *)
Definition UnmarshalJSON (bz : bytes) : outcome (unit + t) :=
  if bool_decide (bz = jnull) then Ret (inr (mk 0 []))
  else match jsonBits bz with
       | None => Ret (inl tt)
       | Some bits =>
           let numBits := zlen bits in
           let! bA2 := for_loop 0 numBits (fun i bA2 =>
               let! c := slice_get bits i in
               if bool_decide (c = jx) then
                 let! (_, bA2') := SetIndex bA2 (u64 i) true in Ret bA2'
               else Ret bA2) (NewBitArray (u64 numBits)) in
           match bA2 with
           | None => Panic "nil pointer dereference"
           | Some b2 => Ret (inr (mk (Bits b2) (Elems b2)))
           end
       end.

(** ** Abstract view *)

(** Bit [i] of a list of words. *)
Definition wbit (es : list Z) (i : Z) : bool :=
  Z.testbit (default 0 (es !! Z.to_nat (i / 64))) (i mod 64).

Definition bit (b : t) (i : Z) : bool := wbit (Elems b) i.

Definition to_bits (b : t) : list bool :=
  (fun k => bit b (Z.of_nat k)) <$> seq 0 (Z.to_nat (Bits b)).

(** What [NewBitArray] establishes and every operation relies on. *)
Definition wf (b : t) : Prop :=
  0 < Bits b < two63 /\ zlen (Elems b) = (Bits b + 63) / 64 /\ Forall in_u64 (Elems b).

(** No bit is set beyond [Bits]. *)
Definition clean (b : t) : Prop := forall i, Bits b <= i -> bit b i = false.

#[global] Instance wf_dec b : Decision (wf b).
Proof. unfold wf. apply _. Defined.

(** [clean] only has to be checked on the rest of the last word. *)
Definition cleanb (b : t) : bool :=
  forallb (fun k => negb (bit b (Bits b + Z.of_nat k))) (seq 0 64).

(** ** Words *)

Lemma in_u64_bits z :
  in_u64 z <-> 0 <= z /\ forall k, 64 <= k -> Z.testbit z k = false.
Proof.
  unfold in_u64, two64. split.
  - intros [H0 H1]. split; [done|]. by apply Z.bounded_iff_bits_nonneg.
  - intros [H0 H1]. split; [done|]. apply Z.bounded_iff_bits_nonneg; (lia || done).
Qed.

Lemma shl1_spec k : 0 <= k < 64 -> shl1 k = 2 ^ k.
Proof. intros H. unfold shl1. bdestr; [lia|]. rewrite Z.shiftl_1_l. done. Qed.

Lemma testbit_shl1 k j : 0 <= k < 64 -> Z.testbit (shl1 k) j = (k =? j).
Proof. intros H. rewrite shl1_spec by done. by rewrite Z.pow2_bits_eqb by lia. Qed.

Lemma land_shl1 e k : 0 <= k < 64 -> (0 <? Z.land e (shl1 k)) = Z.testbit e k.
Proof.
  intros H.
  assert (Z.land e (shl1 k) = if Z.testbit e k then 2 ^ k else 0) as ->.
  { apply Z.bits_inj'. intros j Hj. rewrite Z.land_spec, testbit_shl1 by done.
    destruct (Z.eqb_spec k j) as [->|Hne].
    - destruct (Z.testbit e j).
      + by rewrite Z.pow2_bits_true by lia.
      + by rewrite Z.bits_0.
    - rewrite andb_false_r. destruct (Z.testbit e k); [|by rewrite Z.bits_0].
      by rewrite Z.pow2_bits_false by lia. }
  destruct (Z.testbit e k); [|done]. apply Z.ltb_lt, Z.pow_pos_nonneg; lia.
Qed.

Lemma testbit_wnot x k : 0 <= k < 64 -> Z.testbit (wnot x) k = negb (Z.testbit x k).
Proof.
  intros H. unfold wnot. rewrite Z.land_spec, Z.lnot_spec, Z.ones_spec_low by lia.
  by rewrite andb_true_r.
Qed.

Lemma wnot_range x : in_u64 (wnot x).
Proof.
  apply in_u64_bits. unfold wnot. split.
  - apply Z.land_nonneg. right. by vm_compute.
  - intros k Hk. rewrite Z.land_spec, (Z.ones_spec_high 64 k) by lia. apply andb_false_r.
Qed.

Lemma lor_range x y : in_u64 x -> in_u64 y -> in_u64 (Z.lor x y).
Proof.
  rewrite !in_u64_bits. intros [? H1] [? H2]. split; [by apply Z.lor_nonneg|].
  intros k Hk. by rewrite Z.lor_spec, H1, H2.
Qed.

Lemma land_range x y : in_u64 x -> 0 <= y -> in_u64 (Z.land x y).
Proof.
  rewrite !in_u64_bits. intros [? H1] ?. split; [apply Z.land_nonneg; lia|].
  intros k Hk. by rewrite Z.land_spec, H1.
Qed.

Lemma shl1_range k : 0 <= k -> in_u64 (shl1 k).
Proof.
  intros H. unfold shl1. bdestr; [unfold in_u64, two64; lia|].
  rewrite Z.shiftl_1_l. unfold in_u64, two64. split; [lia|].
  by apply Z.pow_lt_mono_r.
Qed.

(** A word of 64 bits is determined by its bits. *)
Lemma word_ext x y :
  in_u64 x -> in_u64 y -> (forall k, 0 <= k < 64 -> Z.testbit x k = Z.testbit y k) -> x = y.
Proof.
  rewrite !in_u64_bits. intros [Hx H1] [Hy H2] H. apply Z.bits_inj'. intros k Hk.
  destruct (Z.ltb_spec k 64); [apply H; lia|]. by rewrite H1, H2.
Qed.

#[local] Hint Resolve wnot_range lor_range land_range shl1_range : godb.

(** ** Reading and writing one bit *)

Lemma idx_split i : 0 <= i -> 0 <= i / 64 /\ 0 <= i mod 64 < 64 /\ i = 64 * (i / 64) + i mod 64.
Proof.
  intros H. pose proof (Z.mod_pos_bound i 64 ltac:(lia)).
  pose proof (Z.div_pos i 64 ltac:(lia) ltac:(lia)).
  pose proof (Z.div_mod i 64 ltac:(lia)). lia.
Qed.

Lemma words_wf bits : 0 < bits < two63 -> words bits = (bits + 63) / 64.
Proof.
  intros H. unfold words. rewrite u64_id; [done|].
  unfold in_u64, two63, two64 in *. lia.
Qed.

(** An index below [Bits] falls in a word that exists. *)
Lemma wf_word b i : wf b -> 0 <= i < Bits b ->
  0 <= i / 64 < zlen (Elems b).
Proof.
  intros (Hb & Hl & _) Hi. rewrite Hl. split; [apply Z.div_pos; lia|].
  apply Z.div_lt_upper_bound; [lia|].
  pose proof (Z.mod_pos_bound (Bits b + 63) 64 ltac:(lia)).
  pose proof (Z.div_mod (Bits b + 63) 64 ltac:(lia)). lia.
Qed.

Lemma getIndex_spec b i : wf b -> 0 <= i ->
  getIndex b i = Ret (if Bits b <=? i then false else bit b i).
Proof.
  intros Hwf Hi. unfold getIndex. destruct (Z.leb_spec (Bits b) i); [done|].
  destruct (slice_get_in (Elems b) (i / 64)) as (e & -> & He); [by apply wf_word|]. simpl.
  rewrite land_shl1 by (apply Z.mod_pos_bound; lia).
  unfold bit, wbit. by rewrite He.
Qed.

Lemma wbit_insert es i j e : 0 <= i -> 0 <= j -> Z.of_nat (Z.to_nat (i / 64)) < zlen es ->
  wbit (<[Z.to_nat (i / 64) := e]> es) j
  = if i / 64 =? j / 64 then Z.testbit e (j mod 64) else wbit es j.
Proof.
  intros Hi Hj Hl. unfold wbit, zlen in *.
  pose proof (idx_split i Hi) as (? & _ & _). pose proof (idx_split j Hj) as (? & _ & _).
  destruct (Z.eqb_spec (i / 64) (j / 64)) as [<-|Hne].
  - by rewrite list_lookup_insert_eq by lia.
  - by rewrite list_lookup_insert_ne by lia.
Qed.

Lemma wf_insert b k e : wf b -> in_u64 e -> wf (mk (Bits b) (<[k := e]> (Elems b))).
Proof.
  intros (H1 & H2 & H3) He. split; [done|]. unfold zlen in *. cbn [Elems Bits].
  rewrite length_insert. split; [done|]. by apply Forall_insert.
Qed.

(** Writing bit [i] changes bit [i] only. *)
Lemma setIndex_spec b i v : wf b -> 0 <= i < Bits b ->
  exists b', setIndex b i v = Ret (true, b') /\ wf b' /\ Bits b' = Bits b /\
    length (Elems b') = length (Elems b) /\
    forall j, 0 <= j -> bit b' j = if i =? j then v else bit b j.
Proof.
  intros Hwf Hi. unfold setIndex. bdestr; [lia|].
  pose proof (wf_word b i Hwf Hi) as Hw.
  destruct (slice_get_in (Elems b) (i / 64) Hw) as (e & -> & He). simpl.
  rewrite slice_set_in by done. simpl. eexists. split; [done|].
  pose proof (idx_split i ltac:(lia)) as (_ & Hm & _).
  assert (in_u64 e) as Hee.
  { destruct Hwf as (_ & _ & HF). by eapply Forall_lookup in He. }
  assert (forall x, length (<[Z.to_nat (i / 64) := x]> (Elems b)) = length (Elems b)) as Hlen.
  { intros x. apply length_insert. }
  split; [|split; [done|split; [apply Hlen|]]].
  - apply wf_insert; [done|]. destruct v.
    + apply lor_range; [done|]. apply shl1_range. lia.
    + apply land_range; [done|]. apply wnot_range.
  - intros j Hj. unfold bit. simpl. rewrite wbit_insert by (unfold zlen in *; lia).
    pose proof (idx_split j Hj) as (_ & Hmj & Ej).
    pose proof (idx_split i ltac:(lia)) as (_ & _ & Ei).
    destruct (Z.eqb_spec (i / 64) (j / 64)) as [E|E].
    + assert (wbit (Elems b) j = Z.testbit e (j mod 64)) as Hold.
      { unfold wbit. by rewrite <- E, He. }
      rewrite Hold. destruct (Z.eqb_spec i j) as [->|Hne].
      * destruct v.
        -- rewrite Z.lor_spec, testbit_shl1 by done. rewrite Z.eqb_refl. apply orb_true_r.
        -- rewrite Z.land_spec, testbit_wnot, testbit_shl1, Z.eqb_refl by done. apply andb_false_r.
      * assert ((i mod 64 =? j mod 64) = false) as Hf by (apply Z.eqb_neq; lia).
        destruct v.
        -- rewrite Z.lor_spec, testbit_shl1, Hf by done. apply orb_false_r.
        -- rewrite Z.land_spec, testbit_wnot, testbit_shl1, Hf by done. apply andb_true_r.
    + destruct (Z.eqb_spec i j) as [->|]; [done|]. done.
Qed.

Lemma to_bits_lookup b k :
  to_bits b !! k = if (Z.of_nat k <? Bits b) then Some (bit b (Z.of_nat k)) else None.
Proof.
  unfold to_bits. rewrite list_lookup_fmap.
  destruct (Z.ltb_spec (Z.of_nat k) (Bits b)).
  - by rewrite lookup_seq_lt by lia.
  - by rewrite lookup_seq_ge by lia.
Qed.

Lemma length_to_bits b : length (to_bits b) = Z.to_nat (Bits b).
Proof. unfold to_bits. by rewrite length_fmap, length_seq. Qed.

(** Equality of the abstract views, bit by bit. *)
Lemma to_bits_ext b (l : list bool) :
  0 <= Bits b -> length l = Z.to_nat (Bits b) ->
  (forall i, 0 <= i < Bits b -> l !! Z.to_nat i = Some (bit b i)) -> to_bits b = l.
Proof.
  intros Hb Hl H. apply list_eq. intros k. rewrite to_bits_lookup.
  destruct (Z.ltb_spec (Z.of_nat k) (Bits b)) as [Hk|Hk].
  - rewrite <- H by lia. by rewrite Nat2Z.id.
  - symmetry. apply lookup_ge_None. lia.
Qed.

(** ** Pointwise operations *)

Lemma zipWords_ok f c o : (length c <= length o)%nat -> zipWords f c o = Ret (zip_with f c o).
Proof.
  revert o. induction c as [|x c IH]; intros [|y o] H; simpl in *; try done; try lia.
  by rewrite IH by lia.
Qed.

Lemma zipWords_panic f c o : (length o < length c)%nat ->
  zipWords f c o = Panic "index out of range".
Proof.
  revert o. induction c as [|x c IH]; intros [|y o] H; simpl in *; try done; try lia.
  by rewrite IH by lia.
Qed.

Lemma wbit_zip f g es os i : 0 <= i -> i / 64 < zlen es -> i / 64 < zlen os ->
  (forall x y k, 0 <= k < 64 -> Z.testbit (f x y) k = g (Z.testbit x k) (Z.testbit y k)) ->
  wbit (zip_with f es os) i = g (wbit es i) (wbit os i).
Proof.
  intros Hi H1 H2 Hf. unfold wbit, zlen in *. pose proof (idx_split i Hi) as (? & ? & _).
  destruct (lookup_lt_is_Some_2 es (Z.to_nat (i / 64))) as [x Hx]; [lia|].
  destruct (lookup_lt_is_Some_2 os (Z.to_nat (i / 64))) as [y Hy]; [lia|].
  rewrite lookup_zip_with, Hx, Hy. simpl. by apply Hf.
Qed.

Lemma wbit_resize es n i : 0 <= i -> i / 64 < Z.of_nat n -> wbit (resize n 0 es) i = wbit es i.
Proof.
  intros Hi H. unfold wbit. pose proof (idx_split i Hi) as (? & _ & _).
  destruct (decide (Z.to_nat (i / 64) < length es)%nat).
  - by rewrite lookup_resize by lia.
  - rewrite lookup_resize_new by lia. by rewrite lookup_ge_None_2 by lia.
Qed.

Lemma Forall_resize_u64 es n : Forall in_u64 es -> Forall in_u64 (resize n 0 es).
Proof. intros H. apply Forall_resize; [|done]. unfold in_u64, two64. lia. Qed.

Lemma Forall_zip_u64 f es os :
  (forall x y, in_u64 x -> in_u64 y -> in_u64 (f x y)) ->
  Forall in_u64 es -> Forall in_u64 os -> Forall in_u64 (zip_with f es os).
Proof.
  intros Hf H. revert os. induction H as [|x es Hx _ IH]; intros os Hos; simpl; [done|].
  destruct Hos as [|y os]; constructor; auto.
Qed.

(** Words of a shorter array are not more than those of a longer one. *)
Lemma words_mono a b : a <= b -> (a + 63) / 64 <= (b + 63) / 64.
Proof. intros H. apply Z.div_le_mono; lia. Qed.

Lemma cleanb_clean b : wf b -> cleanb b = true -> clean b.
Proof.
  intros (HB & Hl & _) H i Hi. unfold cleanb in H. rewrite forallb_forall in H.
  destruct (Z.ltb_spec i (Bits b + 64)).
  - specialize (H (Z.to_nat (i - Bits b))). rewrite Z2Nat.id in H by lia.
    replace (Bits b + (i - Bits b)) with i in H by lia.
    apply negb_true_iff, H, in_seq. lia.
  - unfold bit, wbit. rewrite lookup_ge_None_2; [apply Z.bits_0|].
    assert ((Bits b + 63) / 64 <= i / 64) by (apply Z.div_le_mono; lia).
    unfold zlen in Hl. lia.
Qed.

(** The common shape of [and] and [Or] on arrays that fit: copy the receiver to
    [n] bits and combine word by word. *)
Lemma zip_copy_spec f g b o n :
  wf b -> wf o -> 0 < n < two63 -> (n + 63) / 64 <= zlen (Elems o) ->
  (forall x y, in_u64 x -> in_u64 y -> in_u64 (f x y)) ->
  (forall x y k, 0 <= k < 64 -> Z.testbit (f x y) k = g (Z.testbit x k) (Z.testbit y k)) ->
  exists es, zipWords f (Elems (copyBits b n)) (Elems o) = Ret es /\ wf (mk n es) /\
    forall i, 0 <= i -> i / 64 < (n + 63) / 64 -> bit (mk n es) i = g (bit b i) (bit o i).
Proof.
  intros (Hb & Hbl & HbF) (Ho & Hol & HoF) Hn Hle Hfr Hfg.
  assert (length (Elems (copyBits b n)) = Z.to_nat ((n + 63) / 64)) as Hlen.
  { simpl. rewrite length_resize, words_wf by done. done. }
  assert (0 <= (n + 63) / 64) by (apply Z.div_pos; lia).
  unfold zlen in *. rewrite zipWords_ok by lia. eexists. split; [done|]. split.
  - split; [done|]. split.
    + simpl in *. unfold zlen. rewrite length_zip_with, Hlen. lia.
    + simpl. apply Forall_zip_u64; [done| |done]. by apply Forall_resize_u64.
  - intros i Hi Hlt. unfold bit. simpl in Hlen |- *.
    rewrite (wbit_zip f g) by (unfold zlen; (done || lia)).
    f_equal. simpl. apply wbit_resize; [done|]. rewrite words_wf by done. lia.
Qed.

Lemma idx_in_words i n : 0 <= i < n -> i / 64 < (n + 63) / 64.
Proof.
  intros H. apply Z.div_lt_upper_bound; [lia|].
  pose proof (Z.mod_pos_bound (n + 63) 64 ltac:(lia)).
  pose proof (Z.div_mod (n + 63) 64 ltac:(lia)). lia.
Qed.

Lemma and_spec b o : wf b -> wf o ->
  exists c, and b o = Ret c /\ wf c /\ Bits c = Z.min (Bits b) (Bits o) /\
    forall i, 0 <= i < Bits c -> bit c i = bit b i && bit o i.
Proof.
  intros Hb Ho. pose proof Hb as (Hb1 & _). pose proof Ho as (Ho1 & Ho2 & _).
  destruct (zip_copy_spec Z.land andb b o (Z.min (Bits b) (Bits o))) as (es & E & Hwf & Hbit).
  - done.
  - done.
  - lia.
  - rewrite Ho2. apply words_mono. lia.
  - intros x y Hx [? _]. by apply land_range.
  - intros. by rewrite Z.land_spec.
  - unfold and. rewrite E. simpl. eexists. split; [done|]. split; [done|]. split; [done|].
    simpl. intros i Hi. apply Hbit; [lia|]. by apply idx_in_words.
Qed.

Lemma not_wf b : wf b -> wf (not b).
Proof.
  intros (H1 & H2 & H3). split; [done|]. simpl. unfold zlen in *. rewrite length_fmap.
  split; [done|]. apply Forall_fmap. eapply Forall_impl; [done|]. intros. apply wnot_range.
Qed.

Lemma not_bit b i : wf b -> 0 <= i -> i / 64 < zlen (Elems b) -> bit (not b) i = negb (bit b i).
Proof.
  intros Hwf Hi Hlt. unfold bit, wbit, not, zlen in *. simpl.
  pose proof (idx_split i Hi) as (? & Hm & _).
  destruct (lookup_lt_is_Some_2 (Elems b) (Z.to_nat (i / 64))) as [x Hx]; [lia|].
  rewrite list_lookup_fmap, Hx. simpl. by apply testbit_wnot.
Qed.

Lemma zip_to_bits (g : bool -> bool -> bool) b o c :
  wf b -> wf o -> Bits c = Z.min (Bits b) (Bits o) ->
  (forall i, 0 <= i < Bits c -> bit c i = g (bit b i) (bit o i)) ->
  to_bits c = zip_with g (to_bits b) (to_bits o).
Proof.
  intros (Hx & _) (Hy & _) HB H. apply to_bits_ext.
  - lia.
  - rewrite length_zip_with, !length_to_bits. lia.
  - intros i Hi. rewrite lookup_zip_with, !to_bits_lookup.
    rewrite Z2Nat.id by lia. rewrite !(proj2 (Z.ltb_lt _ _)) by lia. simpl. by rewrite H.
Qed.

(** The first loop of [Sub] clears the leading words. *)
Lemma subWord_loop b n : wf b -> 0 <= n <= zlen (Elems b) ->
  exists c, for_loop 0 n subWord (copy b) = Ret c /\ wf c /\ Bits c = Bits b /\
    forall i, 0 <= i -> bit c i = if i / 64 <? n then false else bit b i.
Proof.
  intros Hb Hn.
  destruct (for_loop_inv (fun k c => wf c /\ Bits c = Bits b /\ zlen (Elems c) = zlen (Elems b) /\
      forall i, 0 <= i -> bit c i = if i / 64 <? k then false else bit b i)
    subWord 0 n (copy b)) as (c & E & ? & ? & _ & ?); [lia| | |by exists c].
  - split_and!; try done. intros i Hi. pose proof (idx_split i Hi) as (? & _ & _).
    destruct (Z.ltb_spec (i / 64) 0); [lia|]. done.
  - intros k c Hk (Hcw & HcB & Hcl & Hc). unfold subWord.
    destruct (slice_get_in (Elems c) k) as (x & -> & Hx); [lia|]. simpl.
    rewrite slice_set_in by lia. simpl. eexists. split; [done|].
    assert (Z.land x (wnot x) = 0) as ->.
    { destruct Hcw as (_ & _ & HF). eapply Forall_lookup in Hx; [|done].
      apply word_ext.
      - apply land_range; [done|]. apply wnot_range.
      - unfold in_u64, two64. lia.
      - intros j Hj. rewrite Z.land_spec, testbit_wnot, Z.bits_0 by done.
        by destruct (Z.testbit x j). }
    split; [|split; [done|split]].
    + apply wf_insert; [done|]. unfold in_u64, two64. lia.
    + unfold zlen in *. simpl. by rewrite length_insert.
    + intros i Hi. unfold bit. simpl.
      replace k with (k * 64 / 64) at 1 by (rewrite Z.div_mul; lia).
      rewrite wbit_insert; [|lia|lia|rewrite Z.div_mul by lia; lia].
      rewrite Z.div_mul, Z.bits_0 by lia.
      fold (bit c i). rewrite Hc by done. bdestr; try done; lia.
Qed.

(** One round of the second loop subtracts one bit. *)
Lemma subBit_spec o k c : wf c -> wf o -> 0 <= k < Bits o -> Bits o < Bits c ->
  exists c', subBit o k c = Ret c' /\ wf c' /\ Bits c' = Bits c /\
    forall i, 0 <= i -> bit c' i = if k =? i then bit c i && negb (bit o i) else bit c i.
Proof.
  intros Hc Ho Hk Hlt. unfold subBit. pose proof Ho as (Ho1 & _).
  rewrite u64_id by (unfold in_u64, two63, two64 in *; lia).
  rewrite getIndex_spec by (done || lia). bdestr; [lia|]. simpl.
  assert ((let! y := (if bit c k then getIndex o k else Ret false) in
    let! (_, c') := setIndex c k (bit c k && negb y) in Ret c')
    = (let! (_, c') := setIndex c k (bit c k && negb (bit o k)) in Ret c')) as ->.
  { destruct (bit c k) eqn:E; simpl; [|done].
    rewrite getIndex_spec by (done || lia). bdestr; [lia|]. done. }
  destruct (setIndex_spec c k (bit c k && negb (bit o k)) Hc) as (c' & -> & Hw' & HB' & _ & Hbit);
    [lia|]. simpl. eexists. split; [done|]. split; [done|]. split; [lia|].
  intros i Hi. rewrite Hbit by done. by destruct (Z.eqb_spec k i) as [->|].
Qed.

Lemma subBit_loop o lo c : wf c -> wf o -> 0 <= lo <= Bits o -> Bits o < Bits c ->
  exists c', for_loop lo (Bits o) (subBit o) c = Ret c' /\ wf c' /\ Bits c' = Bits c /\
    forall i, 0 <= i -> bit c' i =
      if (lo <=? i) && (i <? Bits o) then bit c i && negb (bit o i) else bit c i.
Proof.
  intros Hc Ho Hlo Hlt.
  destruct (for_loop_inv (fun k c' => wf c' /\ Bits c' = Bits c /\
      forall i, 0 <= i -> bit c' i =
        if (lo <=? i) && (i <? k) then bit c i && negb (bit o i) else bit c i)
    (subBit o) lo (Bits o) c) as (c' & E & ? & ? & ?); [lia| | |by exists c'].
  - split_and!; try done. intros i Hi. bdestr; simpl; (done || lia).
  - intros k c1 Hk (Hw & HB & Hbit).
    destruct (subBit_spec o k c1 Hw Ho ltac:(lia) ltac:(lia)) as (c2 & E & ? & ? & H2).
    exists c2. split; [done|]. split; [done|]. split; [lia|].
    intros i Hi. rewrite H2, Hbit by done.
    destruct (Z.eqb_spec k i) as [->|]; bdestr; simpl; try done; lia.
Qed.

(** [Sub] on a longer receiver: what the two loops do to every bit. *)
Lemma subLonger_spec b o : wf b -> wf o -> Bits o < Bits b ->
  exists c, subLonger b o = Ret c /\ wf c /\ Bits c = Bits b /\
    forall i, 0 <= i -> bit c i =
      if i / 64 <? zlen (Elems o) - 1 then false
      else if i <? Bits o then bit b i && negb (bit o i) else bit b i.
Proof.
  intros Hb Ho Hlt. pose proof Hb as (Hb1 & Hb2 & _). pose proof Ho as (Ho1 & Ho2 & _).
  assert (1 <= zlen (Elems o)) as Hn.
  { rewrite Ho2. apply Z.div_le_lower_bound; lia. }
  assert (zlen (Elems o) <= zlen (Elems b)) as Hnb.
  { rewrite Ho2, Hb2. apply words_mono. lia. }
  assert ((zlen (Elems o) - 1) * 64 < Bits o) as Hlast.
  { rewrite Ho2. pose proof (Z.mod_pos_bound (Bits o + 63) 64 ltac:(lia)).
    pose proof (Z.div_mod (Bits o + 63) 64 ltac:(lia)). lia. }
  unfold subLonger.
  destruct (subWord_loop b (zlen (Elems o) - 1)) as (c1 & -> & Hw1 & HB1 & H1); [done|lia|]. simpl.
  destruct (Z.leb_spec 0 (zlen (Elems o) - 1)); [|lia].
  rewrite i64_of_small_u64 by lia.
  destruct (subBit_loop o ((zlen (Elems o) - 1) * 64) c1) as (c & -> & Hw & HB & Hc);
    [done|done|lia|lia|].
  exists c. split; [done|]. split; [done|]. split; [lia|].
  intros i Hi. rewrite Hc, !H1 by done.
  pose proof (idx_split i Hi) as (? & ? & ?). bdestr; simpl; try done; nia.
Qed.

(** ** [IsEmpty] and [IsFull] *)

(** The low [w] bits of a word are all ones exactly when its successor is a
    multiple of [2 ^ w]. *)
Lemma word_ones e w : 0 <= w ->
  (e + 1) mod 2 ^ w = 0 <-> forall k, 0 <= k < w -> Z.testbit e k = true.
Proof.
  intros Hw. assert (0 < 2 ^ w) by (apply Z.pow_pos_nonneg; lia).
  assert ((e + 1) mod 2 ^ w = 0 <-> e mod 2 ^ w = Z.ones w) as ->.
  { rewrite Z.ones_equiv. pose proof (Z.mod_pos_bound e (2 ^ w) ltac:(done)).
    rewrite <- Zplus_mod_idemp_l. split; intros H'.
    - destruct (Z.eqb_spec (e mod 2 ^ w) (2 ^ w - 1)); [lia|].
      rewrite Z.mod_small in H'; lia.
    - rewrite H'. replace (Z.pred (2 ^ w) + 1) with (1 * 2 ^ w) by lia. apply Z.mod_mul. lia. }
  rewrite <- Z.land_ones by done. split.
  - intros E k Hk. pose proof (f_equal (fun z => Z.testbit z k) E) as E'. simpl in E'.
    rewrite Z.land_spec, Z.ones_spec_low in E' by lia. by rewrite andb_true_r in E'.
  - intros H'. apply Z.bits_inj'. intros k Hk. rewrite Z.land_spec.
    destruct (Z.ltb_spec k w).
    + rewrite Z.ones_spec_low, H' by lia. done.
    + rewrite Z.ones_spec_high by lia. apply andb_false_r.
Qed.

Lemma mask_ones w : 1 <= w <= 64 -> u64 (shl1 w - 1) = Z.ones w.
Proof.
  intros H. rewrite Z.ones_equiv. unfold shl1. destruct (Z.leb_spec 64 w).
  - assert (w = 64) as -> by lia. done.
  - rewrite Z.shiftl_1_l, u64_id; [lia|]. unfold in_u64, two64.
    assert (2 ^ w < 2 ^ 64) by (apply Z.pow_lt_mono_r; lia).
    assert (0 < 2 ^ w) by (apply Z.pow_pos_nonneg; lia). lia.
Qed.

(** The test of [IsFull] on the last word. *)
Lemma last_word_full e w : 1 <= w <= 64 ->
  (Z.land (u64 (e + 1)) (u64 (shl1 w - 1)) =? 0) = true
  <-> forall k, 0 <= k < w -> Z.testbit e k = true.
Proof.
  intros Hw. rewrite <- word_ones, mask_ones, Z.land_ones, Z.eqb_eq by lia.
  unfold u64, two64.
  replace (2 ^ 64) with (2 ^ w * 2 ^ (64 - w)) by (rewrite <- Z.pow_add_r; f_equal; lia).
  rewrite Z.rem_mul_r, Z.mul_comm, Z_mod_plus_full, Zmod_mod; [done| |].
  - pose proof (Z.pow_pos_nonneg 2 w). lia.
  - apply Z.pow_pos_nonneg; lia.
Qed.

Lemma wnot_zero e : in_u64 e ->
  (wnot e =? 0) = true <-> forall k, 0 <= k < 64 -> Z.testbit e k = true.
Proof.
  intros He. rewrite Z.eqb_eq. split.
  - intros E k Hk. pose proof (testbit_wnot e k Hk) as H. rewrite E, Z.bits_0 in H.
    by destruct (Z.testbit e k).
  - intros H. apply word_ext; [apply wnot_range|unfold in_u64, two64; lia|].
    intros k Hk. by rewrite testbit_wnot, H, Z.bits_0.
Qed.

(** The bits of word [k] of an array. *)
Lemma bit_word b k j x : Elems b !! k = Some x -> 0 <= j < 64 ->
  bit b (64 * Z.of_nat k + j) = Z.testbit x j.
Proof.
  intros E Hj. unfold bit, wbit.
  rewrite (Z.mul_comm 64), Z.div_add_l, Z.div_small, Z.add_0_r, Nat2Z.id, E by lia. simpl.
  by rewrite Z.add_comm, Z_mod_plus_full, Z.mod_small by lia.
Qed.

Lemma word_all b k x w (v : bool) : Elems b !! k = Some x -> 0 <= w <= 64 ->
  (forall j, 0 <= j < w -> Z.testbit x j = v)
  <-> (forall i, 64 * Z.of_nat k <= i < 64 * Z.of_nat k + w -> bit b i = v).
Proof.
  intros E Hw. split.
  - intros H i Hi. replace i with (64 * Z.of_nat k + (i - 64 * Z.of_nat k)) by lia.
    rewrite (bit_word b k _ x E) by lia. apply H. lia.
  - intros H j Hj. rewrite <- (bit_word b k j x E) by lia. apply H. lia.
Qed.

(** A test that decides "every bit of this word is [v]" decides, over the first
    [n] words, "every bit of these words is [v]". *)
Lemma words_all b (f : Z -> bool) (v : bool) n : wf b -> 0 <= n <= zlen (Elems b) ->
  (forall x, in_u64 x -> f x = true <-> forall j, 0 <= j < 64 -> Z.testbit x j = v) ->
  forallb f (take (Z.to_nat n) (Elems b)) = true <-> forall i, 0 <= i < 64 * n -> bit b i = v.
Proof.
  intros (_ & _ & HF) Hn Hf. rewrite forallb_forall. split.
  - intros H i Hi. pose proof (idx_split i ltac:(lia)) as (? & Hm & ?).
    destruct (lookup_lt_is_Some_2 (Elems b) (Z.to_nat (i / 64))) as [x Hx]; [unfold zlen in *; lia|].
    assert (f x = true) as Hfx.
    { apply H, list_elem_of_In, list_elem_of_lookup. exists (Z.to_nat (i / 64)).
      by rewrite lookup_take_lt by lia. }
    rewrite Hf in Hfx by (by eapply Forall_lookup in Hx).
    eapply (word_all b (Z.to_nat (i / 64)) x 64 v Hx); [lia|done|lia].
  - intros H x [k Hk]%list_elem_of_In%list_elem_of_lookup.
    apply lookup_take_Some in Hk as [Hk Hlt]. apply Hf; [by eapply Forall_lookup in Hk|].
    apply (word_all b k x 64 v Hk); [lia|]. intros i Hi. apply H. lia.
Qed.

(** All words but the last are full, and so is the used part of the last. *)
Lemma IsFull_spec b : wf b ->
  exists r, IsFull (Some b) = Ret r /\ (r = true <-> forall i, 0 <= i < Bits b -> bit b i = true).
Proof.
  intros Hwf. pose proof Hwf as (HB & Hl & HF). unfold IsFull. set (n := zlen (Elems b)) in *.
  assert (1 <= n) by (rewrite Hl; apply Z.div_le_lower_bound; lia).
  destruct (Z.ltb_spec (n - 1) 0); [lia|].
  destruct (slice_get_in (Elems b) (n - 1)) as (e & -> & He); [unfold n; lia|]. simpl.
  set (w := u64 (Bits b + 63) mod 64 + 1).
  assert (1 <= w <= 64 /\ Bits b = 64 * (n - 1) + w) as [Hw HBn].
  { unfold w. rewrite u64_id by (unfold in_u64, two63, two64 in *; lia).
    pose proof (Z.mod_pos_bound (Bits b + 63) 64 ltac:(lia)).
    pose proof (Z.div_mod (Bits b + 63) 64 ltac:(lia)). lia. }
  pose proof (words_all b (fun e => wnot e =? 0) true (n - 1) Hwf ltac:(lia) wnot_zero) as Hlead.
  pose proof (last_word_full e w Hw) as Hlast.
  rewrite (word_all b _ e w true He) in Hlast by lia. rewrite Z2Nat.id in Hlast by lia.
  destruct (forallb _ _).
  - eexists. split; [done|]. rewrite Hlast. apply proj1 in Hlead. specialize (Hlead eq_refl).
    split; intros H1 i Hi; [|apply H1; lia].
    destruct (Z.ltb_spec i (64 * (n - 1))); [apply Hlead|apply H1]; lia.
  - eexists. split; [done|]. split; [done|]. intros H1. apply Hlead. intros i Hi. apply H1. lia.
Qed.

Lemma word_zero x : in_u64 x ->
  negb (0 <? x) = true <-> forall j, 0 <= j < 64 -> Z.testbit x j = false.
Proof.
  intros Hx. split.
  - intros H j _. assert (x = 0) as ->; [|apply Z.bits_0].
    destruct Hx. bdestr; simpl in H; [done|lia].
  - intros H. assert (x = 0) as ->; [|done].
    apply word_ext; [done|unfold in_u64, two64; lia|]. intros j Hj. rewrite Z.bits_0. auto.
Qed.

Lemma IsEmpty_spec b : wf b ->
  IsEmpty (Some b) = true <-> forall i, 0 <= i < 64 * zlen (Elems b) -> bit b i = false.
Proof.
  intros Hwf. simpl. rewrite <- (words_all b (fun e => negb (0 <? e)) false (zlen (Elems b)));
    [|done|pose proof (zlen_nonneg (Elems b)); lia|apply word_zero].
  unfold zlen. by rewrite Nat2Z.id, firstn_all.
Qed.

(** ** [PickRandom] *)

Lemma pickBit_Some e width start j n k : 0 < width <= 64 ->
  pickBit e width start j n = Some k -> 0 <= k < width /\ Z.testbit e k = true.
Proof.
  intros Hw. revert j. induction n as [|n IH]; intros j H; simpl in H; [done|].
  pose proof (Z.mod_pos_bound (j + start) width ltac:(lia)).
  rewrite land_shl1 in H by lia. destruct (Z.testbit e ((j + start) mod width)) eqn:E; [inv H; auto|].
  by apply (IH (j + 1)).
Qed.

Lemma pickBit_None e width start j n : 0 < width <= 64 ->
  pickBit e width start j n = None ->
  forall i, j <= i < j + Z.of_nat n -> Z.testbit e ((i + start) mod width) = false.
Proof.
  intros Hw. revert j. induction n as [|n IH]; intros j H i Hi; simpl in *; [lia|].
  pose proof (Z.mod_pos_bound (j + start) width ltac:(lia)).
  rewrite land_shl1 in H by lia.
  destruct (Z.testbit e ((j + start) mod width)) eqn:E; [done|].
  destruct (Z.eqb_spec i j) as [->|]; [done|]. apply (IH (j + 1)); [done|lia].
Qed.

(** A rotated scan over a whole range visits every position. *)
Lemma rotate_covers k start width : 0 <= k < width ->
  exists i, 0 <= i < width /\ (i + start) mod width = k.
Proof.
  intros Hk. exists ((k - start) mod width).
  split; [apply Z.mod_pos_bound; lia|].
  rewrite Zplus_mod_idemp_l. replace (k - start + start) with k by lia. apply Z.mod_small. lia.
Qed.

Lemma pickBit_full_None e width start : 0 < width <= 64 ->
  pickBit e width start 0 (Z.to_nat width) = None ->
  forall k, 0 <= k < width -> Z.testbit e k = false.
Proof.
  intros Hw H k Hk. destruct (rotate_covers k start width Hk) as (i & Hi & <-).
  eapply pickBit_None; eauto; lia.
Qed.

(** Bits of word [k] that count: all of it, or the used part of the last. *)
Definition wordBits (b : t) (k : Z) : Z := Z.min 64 (Bits b - 64 * k).

Lemma wordBits_range b k : wf b -> 0 <= k < zlen (Elems b) ->
  1 <= wordBits b k <= 64 /\ (k < zlen (Elems b) - 1 -> wordBits b k = 64).
Proof.
  intros (HB & Hl & _) Hk. unfold wordBits. rewrite Hl in *.
  pose proof (Z.div_mod (Bits b + 63) 64 ltac:(lia)).
  pose proof (Z.mod_pos_bound (Bits b + 63) 64 ltac:(lia)). lia.
Qed.

Lemma last_wordBits b : wf b ->
  (if Bits b mod 64 =? 0 then 64 else Bits b mod 64) = wordBits b (zlen (Elems b) - 1).
Proof.
  intros (HB & Hl & _). unfold wordBits. rewrite Hl.
  pose proof (Z.div_mod (Bits b) 64 ltac:(lia)).
  pose proof (Z.mod_pos_bound (Bits b) 64 ltac:(lia)).
  replace ((Bits b + 63) / 64) with (if Bits b mod 64 =? 0 then Bits b / 64 else Bits b / 64 + 1).
  - bdestr; lia.
  - bdestr; [apply (Z.div_unique _ _ _ 63)|apply (Z.div_unique _ _ _ (Bits b mod 64 - 1))]; lia.
Qed.

(** The scan of one word never panics; it returns a set bit below [Bits], or
    none when the word has none. *)
Lemma pickElem_spec b intn c w : wf b -> 0 <= w < zlen (Elems b) ->
  exists r c', pickElem b intn c w = Ret (r, c') /\
    match r with
    | Some k => 0 <= k < Bits b /\ bit b k = true
    | None => forall p, 64 * w <= p < 64 * w + wordBits b w -> bit b p = false
    end.
Proof.
  intros Hwf Hw. pose proof Hwf as (HB & Hl & HF). unfold pickElem.
  destruct (slice_get_in (Elems b) w Hw) as (e & -> & He). cbn [obind].
  pose proof (Forall_lookup_1 _ _ _ _ HF He) as He64.
  pose proof (wordBits_range b w Hwf Hw) as [Hwb Hfull].
  assert (forall k, 0 <= k < wordBits b w -> Z.testbit e k = true ->
      0 <= u64 (64 * w + k) < Bits b /\ bit b (u64 (64 * w + k)) = true) as Hhit.
  { intros k Hk Hbit. unfold wordBits in Hk.
    rewrite u64_id by (unfold in_u64, two63, two64 in *; lia). split; [lia|].
    rewrite <- Hbit, <- (bit_word b (Z.to_nat w) k e He) by lia. by rewrite Z2Nat.id by lia. }
  pose proof (word_all b (Z.to_nat w) e (wordBits b w) false He ltac:(lia)) as Hmiss.
  rewrite Z2Nat.id in Hmiss by lia.
  destruct (Z.ltb_spec w (zlen (Elems b) - 1)) as [Hnl|Hnl].
  - rewrite Hfull in Hhit, Hmiss |- * by done. destruct (Z.ltb_spec 0 e).
    + destruct (pickBit e 64 (intn c 64) 0 64) as [k|] eqn:E.
      * apply pickBit_Some in E as [Hk Hbit]; [|lia]. eexists _, _. split; [done|]. by apply Hhit.
      * pose proof (pickBit_full_None e 64 (intn c 64) ltac:(lia) E) as Hz.
        rewrite <- word_zero in Hz by done. bdestr; simpl in Hz; (done || lia).
    + eexists _, _. split; [done|]. cbn. apply Hmiss, word_zero; [done|]. bdestr; (done || lia).
  - assert (w = zlen (Elems b) - 1) as -> by lia. rewrite (last_wordBits b Hwf).
    destruct (pickBit e _ _ _ _) as [k|] eqn:E.
    + apply pickBit_Some in E as [Hk Hbit]; [|lia]. eexists _, _. split; [done|]. by apply Hhit.
    + eexists _, _. split; [done|]. cbn. apply Hmiss. eapply pickBit_full_None; [lia|done].
Qed.

Lemma pickElems_spec b intn c start i n : wf b ->
  exists k r, pickElems b intn c start i n = Ret (k, r) /\
    (r = true -> 0 <= k < Bits b /\ bit b k = true) /\
    (r = false -> forall j, i <= j < i + Z.of_nat n -> forall p,
       64 * ((j + start) mod zlen (Elems b)) <= p
         < 64 * ((j + start) mod zlen (Elems b)) + wordBits b ((j + start) mod zlen (Elems b)) ->
       bit b p = false).
Proof.
  intros Hwf. revert c i. induction n as [|n IH]; intros c i; cbn [pickElems].
  { exists 0, false. split; [done|]. split; [done|]. intros _ j Hj. lia. }
  assert (1 <= zlen (Elems b)) as Hlen.
  { destruct Hwf as (HB & -> & _). apply Z.div_le_lower_bound; lia. }
  destruct (pickElem_spec b intn c ((i + start) mod zlen (Elems b)) Hwf) as ([k|] & c' & -> & H).
  - apply Z.mod_pos_bound. lia.
  - cbn [obind]. exists k, true. done.
  - cbn [obind]. destruct (IH c' (i + 1)) as (k & r & E & Ht & Hf).
    exists k, r. split; [done|]. split; [done|]. intros Hr j Hj p Hp.
    destruct (Z.eqb_spec j i) as [->|]; [by apply H|]. apply (Hf Hr j); [lia|done].
Qed.

(** ** Construction and canonical form *)

Lemma NewBitArray_wf n : 0 < n < two63 ->
  exists b, NewBitArray n = Some b /\ wf b /\ Bits b = n /\ forall i, bit b i = false.
Proof.
  intros Hn. unfold NewBitArray. bdestr; [lia|]. eexists. split; [done|].
  rewrite words_wf by done. assert (0 <= (n + 63) / 64) by (apply Z.div_pos; lia).
  split_and!; simpl; [|done|].
  - split; [done|]. simpl. unfold zlen. rewrite length_replicate. split; [lia|].
    apply Forall_replicate. unfold in_u64, two64. lia.
  - intros i. unfold bit, wbit. simpl.
    destruct (replicate _ 0 !! _) as [x|] eqn:E; simpl; [|apply Z.bits_0].
    apply lookup_replicate in E as [-> _]. apply Z.bits_0.
Qed.

(** Two arrays with no stray bits and the same abstract view are equal. *)
Lemma clean_ext b c : wf b -> wf c -> clean b -> clean c ->
  Bits b = Bits c -> (forall i, 0 <= i < Bits b -> bit b i = bit c i) -> b = c.
Proof.
  intros (Hb1 & Hb2 & HbF) (Hc1 & Hc2 & HcF) Hbc Hcc HB H.
  assert (Elems b = Elems c); [|destruct b, c; simpl in *; congruence].
  apply list_eq_same_length with (n := length (Elems b)); [|done|].
  { unfold zlen in *. rewrite <- HB in Hc2. lia. }
  intros k x y _ Hx Hy. apply word_ext; [by eapply Forall_lookup in Hx|by eapply Forall_lookup in Hy|].
  intros j Hj. rewrite <- (bit_word b k j x Hx), <- (bit_word c k j y Hy) by done.
  destruct (Z.ltb_spec (64 * Z.of_nat k + j) (Bits b)); [apply H; lia|].
  rewrite Hbc, Hcc by lia. done.
Qed.

(** ** JSON *)

Definition jchar (x : bool) : byte := if x then jx else junder.

Lemma MarshalJSON_spec b : wf b ->
  MarshalJSON (Some b) = Ret ([jquote] ++ (jchar <$> to_bits b) ++ [jquote]).
Proof.
  intros Hwf. pose proof Hwf as (HB & _). unfold MarshalJSON.
  rewrite i64_of_small_u64 by lia.
  destruct (for_loop_inv (fun k acc => acc = jchar <$> take (Z.to_nat k) (to_bits b))
    (fun i acc => let! x := getIndex b (u64 i) in Ret (acc ++ [if x then jx else junder]))
    0 (Bits b) []) as (acc & -> & ->).
  - lia.
  - done.
  - intros k acc Hk ->. rewrite u64_id by (unfold in_u64, two63, two64 in *; lia).
    rewrite getIndex_spec by (done || lia). destruct (Z.leb_spec (Bits b) k); [lia|]. simpl.
    eexists. split; [done|]. rewrite Z2Nat.inj_add, Nat.add_1_r by lia.
    rewrite (take_S_r _ _ (bit b k)), fmap_app by (rewrite to_bits_lookup, Z2Nat.id by lia; bdestr; (done || lia)).
    done.
  - simpl. rewrite firstn_all2; [done|]. rewrite length_to_bits. lia.
Qed.

Lemma jsonBits_spec bits : jsonBits ([jquote] ++ (jchar <$> bits) ++ [jquote]) = Some (jchar <$> bits).
Proof.
  unfold jsonBits. simpl. rewrite reverse_app. simpl.
  assert (forallb (fun c => bool_decide (c = jx) || bool_decide (c = junder)) (reverse (jchar <$> bits)) = true) as ->.
  { apply forallb_forall. intros c Hc%list_elem_of_In. rewrite elem_of_reverse in Hc.
    apply list_elem_of_fmap in Hc as ([] & -> & _); done. }
  by rewrite reverse_involutive.
Qed.

(** The reading loop of [UnmarshalJSON] sets exactly the bits written as ['x']. *)
Lemma unmarshal_loop bits b0 : zlen bits < two63 -> wf b0 -> Bits b0 = zlen bits ->
  (forall i, bit b0 i = false) ->
  exists b, for_loop 0 (zlen bits) (fun i bA2 =>
        let! c := slice_get (jchar <$> bits) i in
        if bool_decide (c = jx) then
          let! (_, bA2') := SetIndex bA2 (u64 i) true in Ret bA2'
        else Ret bA2) (Some b0) = Ret (Some b) /\
    wf b /\ Bits b = zlen bits /\ forall i, 0 <= i -> bit b i = default false (bits !! Z.to_nat i).
Proof.
  intros Hlt Hwf HB Hzero.
  destruct (for_loop_inv (fun k o => exists b, o = Some b /\ wf b /\ Bits b = zlen bits /\
      forall i, 0 <= i -> bit b i = if i <? k then default false (bits !! Z.to_nat i) else false)
    (fun i bA2 =>
        let! c := slice_get (jchar <$> bits) i in
        if bool_decide (c = jx) then
          let! (_, bA2') := SetIndex bA2 (u64 i) true in Ret bA2'
        else Ret bA2) 0 (zlen bits) (Some b0)) as (o & -> & b & -> & Hw & HBb & Hbit).
  - apply zlen_nonneg.
  - exists b0. split_and!; try done. intros i Hi. bdestr; [lia|]. apply Hzero.
  - intros k o Hk (b & -> & Hw & HBb & Hbit).
    destruct (lookup_lt_is_Some_2 bits (Z.to_nat k)) as [v Hv]; [unfold zlen in *; lia|].
    assert (slice_get (jchar <$> bits) k = Ret (jchar v)) as ->.
    { apply slice_get_Ret. split; [lia|]. by rewrite list_lookup_fmap, Hv. }
    simpl. rewrite u64_id by (unfold in_u64, two63, two64 in *; lia).
    destruct v; simpl.
    + destruct (setIndex_spec b k true Hw ltac:(lia)) as (b' & -> & Hw' & HB' & _ & Hset).
      simpl. eexists. split; [done|]. exists b'. split_and!; [done|done|lia|].
      intros i Hi. rewrite Hset, Hbit by done. destruct (Z.eqb_spec k i) as [->|].
      * rewrite Hv. bdestr; (done || lia).
      * bdestr; (done || lia).
    + eexists. split; [done|]. exists b. split_and!; try done.
      intros i Hi. rewrite Hbit by done. destruct (Z.eqb_spec k i) as [->|]; bdestr; try done; try lia.
      by rewrite Hv.
  - exists b. split_and!; try done. intros i Hi. rewrite Hbit by done. bdestr; [done|].
    rewrite lookup_ge_None_2; [done|]. unfold zlen in *. lia.
Qed.

(** ** Byte representation *)

Lemma byte_Z_Z_byte z : byte_Z (Z_byte z) = z mod 256.
Proof.
  unfold byte_Z, Z_byte. pose proof (Z.mod_pos_bound z 256 ltac:(lia)).
  destruct (Byte.of_N (Z.to_N (z mod 256))) as [x|] eqn:E.
  - apply Byte.to_of_N in E. rewrite E. lia.
  - apply Byte.of_N_None_iff in E. lia.
Qed.

(** Byte [j] of the little-endian image of the words. *)
Definition leByte (es : list Z) (j : nat) : byte :=
  Z_byte (Z.shiftr (default 0 (es !! (j / 8)%nat)) (8 * Z.of_nat (j mod 8))).

Lemma putUint64_lookup e j : (j < 8)%nat ->
  putUint64 e !! j = Some (Z_byte (Z.shiftr e (8 * Z.of_nat j))).
Proof. intros H. unfold putUint64. by rewrite list_lookup_fmap, lookup_seq_lt by done. Qed.

Lemma copyAt_spec dst off src : (off <= length dst)%nat ->
  exists r, copyAt dst off src = Ret r /\ length r = length dst /\
    forall j, r !! j = if (off <=? j)%nat && (j <? off + length src)%nat && (j <? length dst)%nat
                      then src !! (j - off)%nat else dst !! j.
Proof.
  intros H. unfold copyAt. destruct (Nat.ltb_spec (length dst) off); [lia|].
  eexists. split; [done|]. split.
  { rewrite !length_app, !length_take, length_drop. lia. }
  intros j. destruct (Nat.leb_spec off j); simpl.
  - rewrite lookup_app_r by (rewrite length_take; lia). rewrite length_take, Nat.min_l by lia.
    destruct (Nat.ltb_spec j (off + length src)); simpl.
    + destruct (Nat.ltb_spec j (length dst)).
      * rewrite lookup_app_l by (rewrite length_take; lia). by rewrite lookup_take_lt by lia.
      * rewrite !lookup_ge_None_2; [done|lia|].
        rewrite length_app, length_take, length_drop. lia.
    + rewrite lookup_app_r by (rewrite length_take; lia). rewrite length_take, lookup_drop.
      destruct (Nat.ltb_spec j (length dst)).
      * f_equal. lia.
      * rewrite !lookup_ge_None_2; (done || lia).
  - rewrite lookup_app_l by (rewrite length_take; lia). by rewrite lookup_take_lt by lia.
Qed.

Lemma Bytes_spec b : wf b ->
  exists bz, Bytes b = Ret bz /\ length bz = Z.to_nat ((Bits b + 7) / 8) /\
    forall j, (j < length bz)%nat -> bz !! j = Some (leByte (Elems b) j).
Proof.
  intros Hwf. pose proof Hwf as (HB & Hl & HF). unfold Bytes.
  rewrite u64_id by (unfold in_u64, two63, two64 in *; lia).
  set (n := Z.to_nat ((Bits b + 7) / 8)).
  destruct (for_loop_inv (fun k bz => length bz = n /\
      forall j, (j < n)%nat -> Z.of_nat j < 8 * k -> bz !! j = Some (leByte (Elems b) j))
    (fun i bz => let! e := slice_get (Elems b) i in copyAt bz (Z.to_nat (i * 8)) (putUint64 e))
    0 (zlen (Elems b)) (replicate n Byte.x00)) as (bz & -> & Hlen & Hbz).
  - apply zlen_nonneg.
  - split; [by rewrite length_replicate|]. intros j Hj Hlt. lia.
  - intros k bz Hk (Hlen & Hbz).
    destruct (slice_get_in (Elems b) k Hk) as (e & -> & He). simpl.
    destruct (copyAt_spec bz (Z.to_nat (k * 8)) (putUint64 e)) as (r & -> & Hlr & Hr).
    { rewrite Hlen. unfold n.
      pose proof (Z.div_mod (Bits b + 63) 64 ltac:(lia)). pose proof (Z.mod_pos_bound (Bits b + 63) 64 ltac:(lia)).
      pose proof (Z.div_mod (Bits b + 7) 8 ltac:(lia)). pose proof (Z.mod_pos_bound (Bits b + 7) 8 ltac:(lia)). lia. }
    exists r. split; [done|]. split; [lia|]. intros j Hj Hlt. rewrite Hr, Hlen.
    change (length (putUint64 e)) with 8%nat.
    destruct (Nat.leb_spec (Z.to_nat (k * 8)) j); simpl; [|apply Hbz; lia].
    destruct (Nat.ltb_spec j (Z.to_nat (k * 8) + 8)); simpl; [|lia].
    destruct (Nat.ltb_spec j n); [|lia]. rewrite putUint64_lookup by lia.
    assert (j / 8 = Z.to_nat k)%nat as Hdiv.
    { symmetry. apply (Nat.div_unique _ _ _ (j - Z.to_nat (k * 8))); lia. }
    unfold leByte. rewrite Hdiv, He. do 4 f_equal.
    rewrite Nat.Div0.mod_eq, Hdiv. lia.
  - exists bz. split; [done|]. split; [done|]. intros j Hj. apply Hbz; [lia|].
    pose proof (Z.div_mod (Bits b + 63) 64 ltac:(lia)). pose proof (Z.mod_pos_bound (Bits b + 63) 64 ltac:(lia)).
    pose proof (Z.div_mod (Bits b + 7) 8 ltac:(lia)). pose proof (Z.mod_pos_bound (Bits b + 7) 8 ltac:(lia)). lia.
Qed.

Lemma leByte_bit es i : 0 <= i ->
  Z.testbit (byte_Z (leByte es (Z.to_nat (i / 8)))) (i mod 8) = wbit es i.
Proof.
  intros Hi. unfold leByte, wbit. rewrite byte_Z_Z_byte.
  pose proof (Z.mod_pos_bound i 8 ltac:(lia)).
  replace 256 with (2 ^ 8) by done. rewrite Z.mod_pow2_bits_low by lia.
  rewrite Z.shiftr_spec by lia.
  assert (0 <= i / 8) by (apply Z.div_pos; lia).
  replace (Z.to_nat (i / 8) / 8)%nat with (Z.to_nat (i / 64)).
  2:{ apply Nat2Z.inj. rewrite Nat2Z.inj_div, !Z2Nat.id by (done || (apply Z.div_pos; lia)).
      by rewrite Z.div_div by lia. }
  f_equal. rewrite Nat2Z.inj_mod, Z2Nat.id by done. simpl (Z.of_nat 8).
  replace (i mod 64) with (i mod (8 * 8)) by done. rewrite Z.rem_mul_r by lia. lia.
Qed.

(** ** Properties *)

(** [SetIndex] refines the update of a list of booleans.  On an array in
    canonical shape it never panics, reports whether the index is inside the
    array, writes that position of the abstract list and nothing else, keeps the
    shape (and keeps stray bits out), and [GetIndex] then reads the abstract
    list, with [false] out of range. *)
Theorem SetIndex_refines b i v : wf b -> in_u64 i ->
  exists b', SetIndex (Some b) i v = Ret (i <? Bits b, Some b') /\ wf b' /\
    to_bits b' = <[Z.to_nat i := v]> (to_bits b) /\ (clean b -> clean b') /\
    forall j, in_u64 j -> GetIndex (Some b') j = Ret (default false (to_bits b' !! Z.to_nat j)).
Proof.
  intros Hwf [Hi _]. pose proof Hwf as (HB & _).
  assert (forall b', wf b' -> forall j, in_u64 j ->
    GetIndex (Some b') j = Ret (default false (to_bits b' !! Z.to_nat j))) as Hget.
  { intros b' Hb' j [Hj _]. simpl. rewrite getIndex_spec, to_bits_lookup, Z2Nat.id by done.
    by bdestr; try lia. }
  destruct (Z.ltb_spec i (Bits b)).
  - destruct (setIndex_spec b i v Hwf) as (b' & E & Hwf' & HB' & _ & Hbit); [lia|].
    exists b'. simpl. rewrite E. split; [done|]. split; [done|]. split_and!; [| |by apply Hget].
    + apply to_bits_ext; [lia|by rewrite length_insert, length_to_bits; lia|].
      intros j Hj. rewrite Hbit by lia. destruct (Z.eqb_spec i j) as [->|].
      * apply list_lookup_insert_eq. rewrite length_to_bits. lia.
      * rewrite list_lookup_insert_ne, to_bits_lookup, Z2Nat.id by lia. bdestr; (done || lia).
    + intros Hc j Hj. rewrite Hbit by lia. destruct (Z.eqb_spec i j); [lia|]. apply Hc. lia.
  - exists b. simpl. unfold setIndex. bdestr; [|lia]. split; [done|]. split; [done|].
    split; [|split; [done|by apply Hget]].
    rewrite list_insert_ge; [done|]. rewrite length_to_bits. lia.
Qed.

Lemma SetIndex_refines_witness :
  exists b', SetIndex (Some (mk 70 [5; 0])) 65 true = Ret (true, Some b') /\
    to_bits b' = <[65%nat := true]> (to_bits (mk 70 [5; 0])).
Proof.
  destruct (SetIndex_refines (mk 70 [5; 0]) 65 true) as (b' & E & _ & H & _).
  - by_decide.
  - by_decide.
  - exists b'. split; [exact E|exact H].
Defined.

(** On arrays in canonical shape [And], [Not] and [Sub] (when the receiver is
    not the longer array) are the pointwise operations on the abstract lists,
    cut to the shorter array. *)
Theorem pointwise_ops b o : wf b -> wf o ->
  (exists c, And (Some b) (Some o) = Ret (Some c) /\ wf c /\
     to_bits c = zip_with andb (to_bits b) (to_bits o)) /\
  (wf (not b) /\ to_bits (not b) = negb <$> to_bits b) /\
  (Bits b <= Bits o ->
   exists c, Sub (Some b) (Some o) = Ret (Some c) /\ wf c /\
     to_bits c = zip_with (fun x y => x && negb y) (to_bits b) (to_bits o)).
Proof.
  intros Hb Ho. pose proof Hb as (Hb1 & _). pose proof Ho as (Ho1 & Ho2 & _).
  assert (forall i, 0 <= i < Bits o -> bit (not o) i = negb (bit o i)) as Hnot.
  { intros i Hi. apply not_bit; [done|lia|]. rewrite Ho2. by apply idx_in_words. }
  split; [|split].
  - destruct (and_spec b o Hb Ho) as (c & E & Hw & HB & Hbit).
    exists c. simpl. rewrite E. split; [done|]. split; [done|]. by apply zip_to_bits.
  - split; [by apply not_wf|]. apply to_bits_ext; [simpl; lia| |].
    + by rewrite length_fmap, length_to_bits.
    + intros i Hi. rewrite list_lookup_fmap, to_bits_lookup, Z2Nat.id by lia. simpl in Hi.
      bdestr; [|lia]. simpl. rewrite not_bit; [done|done|lia|].
      destruct Hb as (_ & -> & _). by apply idx_in_words.
  - intros Hle. destruct (and_spec b (not o) Hb (not_wf o Ho)) as (c & E & Hw & HB & Hbit).
    exists c. simpl. destruct (Z.ltb_spec (Bits o) (Bits b)); [lia|]. rewrite E.
    split; [done|]. split; [done|]. apply zip_to_bits; try done. intros i Hi.
    rewrite Hbit by done. simpl in HB. by rewrite Hnot by lia.
Qed.

Lemma pointwise_ops_witness :
  (exists c, And (Some (mk 3 [5])) (Some (mk 3 [6])) = Ret (Some c) /\ wf c /\
     to_bits c = zip_with andb (to_bits (mk 3 [5])) (to_bits (mk 3 [6]))).
Proof.
  apply (pointwise_ops (mk 3 [5]) (mk 3 [6])); by_decide.
Defined.

(** [Or] combines the arrays bit by bit when the argument has as many words
    as the receiver; when the argument has fewer words it panics, where its
    comment promises to pad the shorter array with zeroes. *)
Theorem Or_pads_or_panics b o : wf b -> wf o -> clean b -> clean o ->
  if zlen (Elems b) <=? zlen (Elems o)
  then exists c, Or (Some b) (Some o) = Ret (Some c) /\ wf c /\ Bits c = Z.max (Bits b) (Bits o) /\
         forall i, 0 <= i < Bits c -> bit c i = bit b i || bit o i
  else Or (Some b) (Some o) = Panic "index out of range".
Proof.
  intros Hb Ho Hcb Hco. pose proof Hb as (Hb1 & Hb2 & _). pose proof Ho as (Ho1 & Ho2 & _).
  destruct (Z.leb_spec (zlen (Elems b)) (zlen (Elems o))) as [Hle|Hgt].
  - destruct (zip_copy_spec Z.lor orb b o (Z.max (Bits b) (Bits o))) as (es & E & Hw & Hbit).
    + done.
    + done.
    + lia.
    + destruct (Z.max_spec (Bits b) (Bits o)) as [[_ ->]|[_ ->]]; lia.
    + intros x y. apply lor_range.
    + intros. apply Z.lor_spec.
    + simpl. simpl in E. rewrite E. eexists. split; [done|]. split; [done|]. split; [done|].
      simpl. intros i Hi. apply Hbit; [lia|]. by apply idx_in_words.
  - simpl. assert (Bits o < Bits b) as Hlt.
    { destruct (Z.leb_spec (Bits b) (Bits o)) as [H|H]; [|done].
      apply words_mono in H. lia. }
    rewrite Z.max_l, zipWords_panic; [done| |lia].
    rewrite length_resize, words_wf by done. unfold zlen in *. lia.
Qed.

Lemma Or_pads_or_panics_witness :
  Or (Some (mk 65 [3; 1])) (Some (mk 3 [6])) = Panic "index out of range".
Proof.
  apply (Or_pads_or_panics (mk 65 [3; 1]) (mk 3 [6]));
    [by_decide|by_decide|apply cleanb_clean; by_decide..].
Defined.

(** On a receiver longer than the argument [Sub] returns, and every bit of
    the result is as follows: in the words before the argument's last word it is
    cleared whatever the argument holds, in the last word it is the difference,
    beyond the argument it is the receiver's.  The comment promises
    [bA.And(o.Not())] with the argument padded by zeroes, so a bit that is set in
    the receiver and not in the argument is lost when it lies in those words. *)
Theorem Sub_longer_bits b o : wf b -> wf o -> Bits o < Bits b ->
  exists c, Sub (Some b) (Some o) = Ret (Some c) /\ wf c /\ Bits c = Bits b /\
    forall i, 0 <= i < Bits b -> bit c i =
      if i / 64 <? zlen (Elems o) - 1 then false
      else if i <? Bits o then bit b i && negb (bit o i) else bit b i.
Proof.
  intros Hb Ho Hlt. destruct (subLonger_spec b o Hb Ho Hlt) as (c & E & Hw & HB & Hbit).
  exists c. simpl. destruct (Z.ltb_spec (Bits o) (Bits b)); [|lia]. rewrite E.
  split; [done|]. split; [done|]. split; [done|]. intros i Hi. apply Hbit. lia.
Qed.

Lemma Sub_longer_bits_witness :
  exists c, Sub (Some (mk 130 [3; 3; 1])) (Some (mk 70 [1; 1])) = Ret (Some c) /\
    bit c 1 = false /\ bit (mk 130 [3; 3; 1]) 1 = true /\ bit (mk 70 [1; 1]) 1 = false.
Proof.
  destruct (Sub_longer_bits (mk 130 [3; 3; 1]) (mk 70 [1; 1])) as (c & E & _ & _ & H);
    [by_decide|by_decide|simpl; lia|].
  exists c. split; [exact E|]. split; [|split; reflexivity].
  rewrite H; [reflexivity|simpl; lia].
Defined.

(** [IsFull] never panics on an array in canonical shape and holds exactly
    when every bit is set; [IsEmpty] holds exactly when no bit of the words is
    set, which without stray bits is the emptiness of the abstract list; and the
    result of [Not] is never empty when the size is not a multiple of 64, because
    the complement sets the stray bits. *)
Theorem fullness_tests b : wf b ->
  (exists r, IsFull (Some b) = Ret r /\ (r = true <-> Forall (eq true) (to_bits b))) /\
  (clean b -> IsEmpty (Some b) = true <-> Forall (eq false) (to_bits b)) /\
  (clean b -> Bits b mod 64 <> 0 -> IsEmpty (Not (Some b)) = false).
Proof.
  intros Hwf. pose proof Hwf as (HB & Hl & _).
  assert (forall v, Forall (eq v) (to_bits b) <-> forall i, 0 <= i < Bits b -> bit b i = v) as Hall.
  { intros v. rewrite Forall_lookup. split.
    - intros H i Hi. symmetry. apply (H (Z.to_nat i)). rewrite to_bits_lookup, Z2Nat.id by lia.
      bdestr; (done || lia).
    - intros H k x. rewrite to_bits_lookup. bdestr; [|done]. intros [= <-]. symmetry. apply H. lia. }
  pose proof (Z.div_mod (Bits b + 63) 64 ltac:(lia)) as Hdm.
  pose proof (Z.mod_pos_bound (Bits b + 63) 64 ltac:(lia)) as Hmb.
  split; [|split].
  - destruct (IsFull_spec b Hwf) as (r & E & Hr). exists r. split; [done|]. by rewrite Hr, Hall.
  - intros Hc. rewrite IsEmpty_spec, Hall by done. split; intros H i Hi; [apply H; lia|].
    destruct (Z.ltb_spec i (Bits b)); [apply H; lia|]. apply Hc. lia.
  - intros Hc Hm. destruct (IsEmpty (Not (Some b))) eqn:E; [|done].
    change (Not (Some b)) with (Some (not b)) in E.
    rewrite IsEmpty_spec in E by (by apply not_wf).
    assert (Bits b < 64 * zlen (Elems b)) as Hlt.
    { pose proof (Z.div_mod (Bits b) 64 ltac:(lia)).
      pose proof (Z.mod_pos_bound (Bits b) 64 ltac:(lia)). nia. }
    assert (Bits b / 64 < zlen (Elems b)) by (apply Z.div_lt_upper_bound; lia).
    specialize (E (Bits b)). rewrite not_bit, Hc in E by (done || lia). simpl in E.
    apply E. unfold zlen in *. rewrite length_fmap. lia.
Qed.

Lemma fullness_tests_witness :
  IsFull (Some (mk 3 [7])) = Ret true /\ IsEmpty (Not (Some (mk 3 [7]))) = false.
Proof.
  destruct (fullness_tests (mk 3 [7])) as ((r & E & Hr) & _ & H3); [by_decide|]. split.
  - rewrite E. f_equal. apply Hr. vm_compute. repeat constructor.
  - apply H3; [apply cleanb_clean; by_decide|vm_compute; discriminate].
Defined.

(** JSON round trip.  Marshalling an array in canonical shape and
    unmarshalling the text gives an array with the same abstract list, and the
    same array when it has no stray bits. *)
Theorem JSON_roundtrip b : wf b ->
  exists bz b', MarshalJSON (Some b) = Ret bz /\ UnmarshalJSON bz = Ret (inr b') /\
    to_bits b' = to_bits b /\ (clean b -> b' = b).
Proof.
  intros Hwf. pose proof Hwf as (HB & _).
  eexists. unfold UnmarshalJSON. rewrite (MarshalJSON_spec b Hwf), jsonBits_spec.
  rewrite bool_decide_eq_false_2 by done.
  assert (zlen (to_bits b) = Bits b) as Hz by (unfold zlen; rewrite length_to_bits; lia).
  replace (zlen (jchar <$> to_bits b)) with (zlen (to_bits b)) by (unfold zlen; by rewrite length_fmap).
  destruct (NewBitArray_wf (Bits b) HB) as (b0 & E0 & Hw0 & HB0 & Hbit0).
  assert (NewBitArray (u64 (zlen (to_bits b))) = Some b0) as ->.
  { rewrite Hz, u64_id by (unfold in_u64, two63, two64 in *; lia). done. }
  destruct (unmarshal_loop (to_bits b) b0) as (b' & E & Hw' & HB' & Hbit'); [lia|done|lia|done|].
  rewrite E. simpl. exists (mk (Bits b') (Elems b')). split; [done|]. split; [done|].
  replace (mk (Bits b') (Elems b')) with b' by (by destruct b').
  assert (forall i, 0 <= i -> bit b' i = if i <? Bits b then bit b i else false) as Hb'.
  { intros i Hi. rewrite Hbit', to_bits_lookup, Z2Nat.id by done. by bdestr. }
  split.
  - symmetry. apply to_bits_ext; [lia|rewrite length_to_bits; lia|].
    intros i Hi. rewrite to_bits_lookup, Z2Nat.id, Hb' by lia. bdestr; (done || lia).
  - intros Hc. apply clean_ext; try done; [| |].
    + intros i Hi. rewrite Hb' by lia. bdestr; (done || lia).
    + lia.
    + intros i Hi. rewrite Hb' by lia. bdestr; (done || lia).
Qed.

Lemma JSON_roundtrip_witness :
  exists bz b', MarshalJSON (Some (mk 67 [9; 5])) = Ret bz /\ UnmarshalJSON bz = Ret (inr b') /\
    to_bits b' = to_bits (mk 67 [9; 5]).
Proof.
  destruct (JSON_roundtrip (mk 67 [9; 5])) as (bz & b' & E1 & E2 & E3 & _); [by_decide|].
  exists bz, b'. auto.
Defined.

(** An array of zero bits, which [UnmarshalJSON] builds from [null],
    marshals to the empty quoted string, and unmarshalling that string panics:
    [NewBitArray(0)] is nil and its fields are read. *)
Theorem JSON_zero_bits_panics :
  UnmarshalJSON jnull = Ret (inr (mk 0 [])) /\
  MarshalJSON (Some (mk 0 [])) = Ret [jquote; jquote] /\
  UnmarshalJSON [jquote; jquote] = Panic "nil pointer dereference".
Proof. vm_compute. auto. Qed.

(** [PickRandom] never panics on an array in canonical shape, whatever the
    random draws are; it answers [true] with an index inside the array whose bit
    is set, and [false] only when no bit of the array is set. *)
Theorem PickRandom_sound_complete b intn : wf b ->
  exists k r, PickRandom (Some b) intn = Ret (k, r) /\
    (r = true -> GetIndex (Some b) k = Ret true) /\
    (r = false -> Forall (eq false) (to_bits b)).
Proof.
  intros Hwf. pose proof Hwf as (HB & Hl & _). unfold PickRandom.
  assert (1 <= zlen (Elems b)) by (rewrite Hl; apply Z.div_le_lower_bound; lia).
  destruct (Z.eqb_spec (zlen (Elems b)) 0); [lia|].
  destruct (pickElems_spec b intn 1 (intn 0 (zlen (Elems b))) 0 (Z.to_nat (zlen (Elems b))) Hwf)
    as (k & r & E & Ht & Hf).
  exists k, r. split; [done|]. split.
  - intros Hr. destruct (Ht Hr) as [Hk Hbit]. simpl. rewrite getIndex_spec, Hbit by (done || lia).
    bdestr; (done || lia).
  - intros Hr. apply Forall_lookup. intros j x. rewrite to_bits_lookup.
    destruct (Z.ltb_spec (Z.of_nat j) (Bits b)) as [Hj|]; [|done]. intros [= <-]. symmetry.
    pose proof (idx_split (Z.of_nat j) ltac:(lia)) as (? & ? & ?).
    destruct (rotate_covers (Z.of_nat j / 64) (intn 0 (zlen (Elems b))) (zlen (Elems b))) as (i & Hi & Ei).
    { by apply wf_word; [|lia]. }
    apply (Hf Hr i); [lia|]. rewrite Ei. unfold wordBits. lia.
Qed.

Lemma PickRandom_sound_complete_witness :
  exists k r, PickRandom (Some (mk 70 [0; 4])) (fun _ _ => 1) = Ret (k, r) /\
    (r = true -> GetIndex (Some (mk 70 [0; 4])) k = Ret true).
Proof.
  destruct (PickRandom_sound_complete (mk 70 [0; 4]) (fun _ _ => 1)) as (k & r & E & H & _);
    [by_decide|]. exists k, r. auto.
Defined.

(** [Bytes] never panics on an array in canonical shape and gives
    [(Bits+7)/8] bytes in which bit [i] of the array is bit [i mod 8] of byte
    [i / 8]. *)
Theorem Bytes_bits b : wf b ->
  exists bz, Bytes b = Ret bz /\ length bz = Z.to_nat ((Bits b + 7) / 8) /\
    forall i, 0 <= i < Bits b ->
      exists x, bz !! Z.to_nat (i / 8) = Some x /\ Z.testbit (byte_Z x) (i mod 8) = bit b i.
Proof.
  intros Hwf. pose proof Hwf as (HB & _). destruct (Bytes_spec b Hwf) as (bz & E & Hl & H).
  exists bz. split; [done|]. split; [done|]. intros i Hi. eexists. split; [apply H|].
  - rewrite Hl. apply Z2Nat.inj_lt; [apply Z.div_pos; lia|apply Z.div_pos; lia|].
    apply Z.div_lt_upper_bound; [lia|].
    pose proof (Z.div_mod (Bits b + 7) 8 ltac:(lia)).
    pose proof (Z.mod_pos_bound (Bits b + 7) 8 ltac:(lia)). lia.
  - apply leByte_bit. lia.
Qed.

Lemma Bytes_bits_witness : exists bz, Bytes (mk 70 [513; 4]) = Ret bz /\ length bz = 9%nat.
Proof.
  destruct (Bytes_bits (mk 70 [513; 4])) as (bz & E & H & _); [by_decide|]. exists bz. auto.
Defined.

End BitArray.
