(* ===== verification/Types.v ===== *)
(** * Data types of the consensus engine and the library code they rely on

    Models [consensus/tbft/types/vote.go], [proposal.go], [canonical_json.go],
    [datas.go] (block identifiers, commits), the header part of [part_set.go], and
    [consensus/tbft/crypto] (keys).  Third-party code (amino, RLP, Keccak,
    hexutil, ECDSA) is the class [Lib]: its functions are parameters of every
    definition that calls them, and [LibLaws] lists the documented facts the
    proofs use.  [time.Time] values are integers (nanoseconds). *)

From S2P Require Import Prelude.

(** ** Plain data *)

Module PartSetHeader.
Record t := mk { Total : Z; Hash : bytes }.
Definition IsZero (h : t) : bool := Total h =? 0.
Definition Equals (h other : t) : bool :=
  (Total h =? Total other) && bytes_equal (Hash h) (Hash other).
Definition empty : t := mk 0 [].
#[global] Instance eq_dec : EqDecision t.
Proof. solve_decision. Defined.
End PartSetHeader.

Module BlockID.
Record t := mk { Hash : bytes; PartsHeader : PartSetHeader.t }.
Definition IsZero (b : t) : bool :=
  (zlen (Hash b) =? 0) && PartSetHeader.IsZero (PartsHeader b).
Definition Equals (b other : t) : bool :=
  bytes_equal (Hash b) (Hash other) && PartSetHeader.Equals (PartsHeader b) (PartsHeader other).
Definition empty : t := mk [] PartSetHeader.empty.
#[global] Instance eq_dec : EqDecision t.
Proof. solve_decision. Defined.
End BlockID.

Definition VoteTypePrevote : Z := 1.
Definition VoteTypePrecommit : Z := 2.

Definition IsVoteTypeValid (typeB : Z) : bool :=
  if typeB =? VoteTypePrevote then true
  else if typeB =? VoteTypePrecommit then true
  else false.

(** [VoteAgreeAgainst] and [VoteAgree] of [core/types/committee.go]. *)
Definition VoteAgreeAgainst : Z := 0.
Definition VoteAgree : Z := 1.

Module Vote.
Record t := mk {
  ValidatorAddress : bytes;
  ValidatorIndex : Z;
  Height : Z;
  Round : Z;
  Result : Z;
  Timestamp : Z;
  Type_ : Z;
  BlockID : BlockID.t;
  Signature : bytes;
  ResultSign : bytes
}.
#[global] Instance eq_dec : EqDecision t.
Proof. solve_decision. Defined.
Definition Copy (v : t) : t := v.
Definition set_Signature (v : t) (s : bytes) : t :=
  mk (ValidatorAddress v) (ValidatorIndex v) (Height v) (Round v) (Result v) (Timestamp v)
     (Type_ v) (BlockID v) s (ResultSign v).
Definition set_Timestamp (v : t) (ts : Z) : t :=
  mk (ValidatorAddress v) (ValidatorIndex v) (Height v) (Round v) (Result v) ts
     (Type_ v) (BlockID v) (Signature v) (ResultSign v).
Definition set_Result (v : t) (r : Z) (rs : bytes) : t :=
  mk (ValidatorAddress v) (ValidatorIndex v) (Height v) (Round v) r (Timestamp v)
     (Type_ v) (BlockID v) (Signature v) rs.
End Vote.

(** The errors of [vote.go]; [Wrapped] is [errors.Wrap] around one of them. *)
Inductive vote_error :=
| ErrVoteUnexpectedStep
| ErrVoteInvalidValidatorIndex
| ErrVoteInvalidValidatorAddress
| ErrVoteInvalidSignature
| ErrVoteNonDeterministicSignature
| ErrVoteConflictingVotes
| ErrVoteNil
| ErrorGotVoteFromUnwantedRound
| Wrapped (cause : vote_error).

#[global] Instance vote_error_eq_dec : EqDecision vote_error.
Proof. solve_decision. Defined.

Module Proposal.
Record t := mk {
  Height : Z;
  Round : Z;
  Timestamp : Z;
  BlockPartsHeader : PartSetHeader.t;
  POLRound : Z;
  POLBlockID : BlockID.t;
  Signature : bytes
}.
#[global] Instance eq_dec : EqDecision t.
Proof. solve_decision. Defined.
Definition set_Signature (p : t) (s : bytes) : t :=
  mk (Height p) (Round p) (Timestamp p) (BlockPartsHeader p) (POLRound p) (POLBlockID p) s.
Definition set_Timestamp (p : t) (ts : Z) : t :=
  mk (Height p) (Round p) ts (BlockPartsHeader p) (POLRound p) (POLBlockID p) (Signature p).
End Proposal.

(** [NewProposal], with the clock reading as an argument. *)
Definition NewProposal (now height round : Z) (header : PartSetHeader.t) (polRound : Z)
    (polBlockID : BlockID.t) : Proposal.t :=
  Proposal.mk height (u64 round) now header polRound polBlockID [].

(** ** Canonical forms that are signed *)

Module CanonicalJSONPartSetHeader.
Record t := mk { Hash : bytes; Total : Z }.
#[global] Instance eq_dec : EqDecision t.
Proof. solve_decision. Defined.
End CanonicalJSONPartSetHeader.

Module CanonicalJSONBlockID.
Record t := mk { Hash : bytes; PartsHeader : CanonicalJSONPartSetHeader.t }.
#[global] Instance eq_dec : EqDecision t.
Proof. solve_decision. Defined.
End CanonicalJSONBlockID.

Module CanonicalJSONProposal.
Record t := mk {
  ChainID : string;
  Type_ : string;
  BlockPartsHeader : CanonicalJSONPartSetHeader.t;
  Height : Z;
  POLBlockID : CanonicalJSONBlockID.t;
  POLRound : Z;
  Round : Z;
  Timestamp : string
}.
Definition set_Timestamp (p : t) (ts : string) : t :=
  mk (ChainID p) (Type_ p) (BlockPartsHeader p) (Height p) (POLBlockID p) (POLRound p) (Round p) ts.
End CanonicalJSONProposal.

Module CanonicalJSONVote.
Record t := mk {
  ChainID : string;
  Type_ : string;
  BlockID : CanonicalJSONBlockID.t;
  Height : Z;
  Round : Z;
  Timestamp : string;
  VoteType : Z
}.
Definition set_Timestamp (v : t) (ts : string) : t :=
  mk (ChainID v) (Type_ v) (BlockID v) (Height v) (Round v) ts (VoteType v).
End CanonicalJSONVote.

(** What [help.RlpHash] is applied to: a byte string or a list. *)
Unset Elimination Schemes.
Inductive rlp_item :=
| RBytes (b : bytes)
| RList (l : list rlp_item).
Set Elimination Schemes.

(** ** Library code *)

Class Lib := {
  (** [ecdsa.PublicKey], [ecdsa.PrivateKey] and the functions of the crypto package. *)
  PublicKey : Type;
  PrivateKey : Type;
  PublicKey_eq_dec :: EqDecision PublicKey;
  Public : PrivateKey -> PublicKey;
  PubkeyToAddress : PublicKey -> bytes;
  FromECDSAPub : PublicKey -> option bytes;
  SigToPub : bytes -> bytes -> option PublicKey;
  EcdsaSign : bytes -> PrivateKey -> option bytes;
  (** Keccak-256 of the RLP encoding. *)
  keccakRlp : rlp_item -> bytes;
  (** [hexutil.Encode]. *)
  hexEncode : bytes -> string;
  (** amino; [None] is an error. *)
  aminoPartSetHeader : PartSetHeader.t -> option bytes;
  marshalVote : CanonicalJSONVote.t -> option bytes;
  unmarshalVote : bytes -> option CanonicalJSONVote.t;
  marshalProposal : CanonicalJSONProposal.t -> option bytes;
  unmarshalProposal : bytes -> option CanonicalJSONProposal.t;
  (** [time.Time.Format] and [time.Parse] with the RFC 3339 layout. *)
  formatTime : Z -> string;
  parseTime : string -> option Z
}.

(** Text of a byte string in lower-case hexadecimal, as [encoding/hex] writes it. *)
Definition hexDigit (n : N) : Ascii.ascii :=
  Ascii.ascii_of_N (if (n <? 10)%N then 48 + n else 87 + n)%N.

Fixpoint hexString (b : bytes) : string :=
  match b with
  | [] => EmptyString
  | x :: b' =>
      String (hexDigit (N.div (Byte.to_N x) 16))
        (String (hexDigit (N.modulo (Byte.to_N x) 16)) (hexString b'))
  end.

Class LibLaws (L : Lib) : Prop := {
  (** [Encode encodes b as a hex string with 0x prefix.] *)
  hexEncode_spec b : hexEncode b = String.append "0x" (hexString b);
  (** amino encodes every value of the struct, and decoding gives it back. *)
  amino_total h : is_Some (aminoPartSetHeader h);
  amino_inj h1 h2 : aminoPartSetHeader h1 = aminoPartSetHeader h2 -> h1 = h2;
  (** JSON encoding of the canonical structs succeeds. *)
  marshalVote_total v : is_Some (marshalVote v);
  marshalProposal_total p : is_Some (marshalProposal p);
  (** A signature recovers to the key that made it. *)
  sig_recover msg k sig : EcdsaSign msg k = Some sig -> SigToPub msg sig = Some (Public k);
  (** A Keccak-256 sum is 32 bytes, never empty. *)
  keccak_nonempty x : keccakRlp x <> [];
  (** The encoding of a private key's public key is not nil. *)
  pub_encodes k : is_Some (FromECDSAPub (Public k))
}.

Section WithLib.
Context {L : Lib}.

(** [help.RlpHash]. *)
Definition RlpHash (x : rlp_item) : bytes := keccakRlp x.

(** ** Keys: [consensus/tbft/crypto/truekey.go] *)

Definition PubKeyEquals (pub other : PublicKey) : bool :=
  match FromECDSAPub other, FromECDSAPub pub with
  | Some d0, Some d1 => bytes_equal d0 d1
  | _, _ => false
  end.

Definition PubKeyAddress (pub : PublicKey) : bytes := PubkeyToAddress pub.

Definition VerifyBytes (pub : PublicKey) (msg sig : bytes) : bool :=
  match SigToPub msg sig with
  | Some pub0 => PubKeyEquals pub pub0
  | None => false
  end.

Definition PrivKeySign (priv : PrivateKey) (msg : bytes) : option bytes := EcdsaSign msg priv.

(** ** Block identifiers *)

Definition Key (blockID : BlockID.t) : outcome string :=
  match aminoPartSetHeader (BlockID.PartsHeader blockID) with
  | None => Panic "amino"
  | Some bz => Ret (String.append (hexEncode (BlockID.Hash blockID)) (hexEncode bz))
  end.

(** ** Canonicalisation and signing bytes *)

Definition CanonicalTime (t : Z) : string := formatTime t.

Definition CanonicalPartSetHeader (psh : PartSetHeader.t) : CanonicalJSONPartSetHeader.t :=
  CanonicalJSONPartSetHeader.mk (PartSetHeader.Hash psh) (PartSetHeader.Total psh).

Definition CanonicalBlockID (b : BlockID.t) : CanonicalJSONBlockID.t :=
  CanonicalJSONBlockID.mk (BlockID.Hash b) (CanonicalPartSetHeader (BlockID.PartsHeader b)).

Definition CanonicalProposal (chainID : string) (p : Proposal.t) : CanonicalJSONProposal.t :=
  CanonicalJSONProposal.mk chainID "proposal"
    (CanonicalPartSetHeader (Proposal.BlockPartsHeader p))
    (Proposal.Height p) (CanonicalBlockID (Proposal.POLBlockID p)) (Proposal.POLRound p)
    (Proposal.Round p) (CanonicalTime (Proposal.Timestamp p)).

Definition CanonicalVote (chainID : string) (v : Vote.t) : CanonicalJSONVote.t :=
  CanonicalJSONVote.mk chainID "vote" (CanonicalBlockID (Vote.BlockID v))
    (Vote.Height v) (Vote.Round v) (CanonicalTime (Vote.Timestamp v)) (Vote.Type_ v).

Definition VoteSignBytes (chainID : string) (vote : Vote.t) : outcome bytes :=
  match marshalVote (CanonicalVote chainID vote) with
  | None => Panic "json"
  | Some bz => Ret (RlpHash (RList [RBytes bz]))
  end.

Definition ProposalSignBytes (chainID : string) (p : Proposal.t) : outcome bytes :=
  match marshalProposal (CanonicalProposal chainID p) with
  | None => Panic "json"
  | Some bz => Ret (RlpHash (RList [RBytes bz]))
  end.

(** [Vote.Verify]: [None] is a nil error. *)
Definition VoteVerify (chainID : string) (pubKey : PublicKey) (vote : Vote.t)
    : outcome (option vote_error) :=
  if negb (bytes_equal (PubKeyAddress pubKey) (Vote.ValidatorAddress vote))
  then Ret (Some ErrVoteInvalidValidatorAddress)
  else
    let! sb := VoteSignBytes chainID vote in
    if negb (VerifyBytes pubKey sb (Vote.Signature vote))
    then Ret (Some ErrVoteInvalidSignature)
    else Ret None.

End WithLib.

(** ** The block key is injective *)

Lemma hexDigit_not_x n : (n < 16)%N -> hexDigit n <> Ascii.ascii_of_N 120.
Proof.
  intros H E. unfold hexDigit in E. apply (f_equal Ascii.N_of_ascii) in E.
  destruct (N.ltb_spec n 10); rewrite !Ascii.N_ascii_embedding in E by lia; lia.
Qed.

Lemma hexDigit_inj n m : (n < 16)%N -> (m < 16)%N -> hexDigit n = hexDigit m -> n = m.
Proof.
  intros Hn Hm E. unfold hexDigit in E. apply (f_equal Ascii.N_of_ascii) in E.
  destruct (N.ltb_spec n 10), (N.ltb_spec m 10);
    rewrite !Ascii.N_ascii_embedding in E by lia; lia.
Qed.

Lemma hex_bounds x : (Byte.to_N x / 16 < 16)%N /\ (Byte.to_N x mod 16 < 16)%N.
Proof.
  pose proof (Byte.to_N_bounded x). split; [|by apply N.mod_lt].
  apply N.Div0.div_lt_upper_bound. lia.
Qed.

(** Two hexadecimal texts followed by a [0x] separator split uniquely. *)
Lemma hexString_split a b s t :
  String.append (hexString a) (String.append "0x" s)
  = String.append (hexString b) (String.append "0x" t) -> a = b /\ s = t.
Proof.
  revert b. induction a as [|x a IH]; intros [|y b]; simpl; intros E.
  - by simplify_eq.
  - injection E as _ E _. exfalso. eapply hexDigit_not_x; [|by symmetry]. apply hex_bounds.
  - injection E as _ E _. exfalso. eapply hexDigit_not_x; [|done]. apply hex_bounds.
  - injection E as E1 E2 E3. apply hexDigit_inj in E1, E2; try apply hex_bounds.
    assert (x = y) as ->.
    { apply to_N_inj. rewrite (N.div_mod (Byte.to_N x) 16), (N.div_mod (Byte.to_N y) 16) by done.
      by rewrite E1, E2. }
    destruct (IH b E3) as [-> ->]. done.
Qed.

Lemma hexString_inj a b : hexString a = hexString b -> a = b.
Proof.
  intros E. destruct (hexString_split a b EmptyString EmptyString) as [-> _]; [|done].
  by rewrite E.
Qed.

Section KeyFacts.
Context {L : Lib} {HL : LibLaws L}.

(** The key as a total function. *)
Definition key (b : BlockID.t) : string :=
  match Key b with Ret k => k | Panic _ => EmptyString end.

Lemma Key_key b : Key b = Ret (key b).
Proof. unfold key, Key. destruct (amino_total (BlockID.PartsHeader b)) as [bz ->]. done. Qed.

Lemma string_app_assoc (s t u : string) :
  String.append (String.append s t) u = String.append s (String.append t u).
Proof.
  induction s as [|c s IH]; [done|].
  change (String c (String.append (String.append s t) u)
          = String c (String.append s (String.append t u))). by rewrite IH.
Qed.

Lemma key_inj b1 b2 : key b1 = key b2 -> b1 = b2.
Proof.
  destruct b1 as [h1 p1], b2 as [h2 p2]. unfold key, Key. simpl.
  destruct (amino_total p1) as [z1 E1], (amino_total p2) as [z2 E2]. rewrite E1, E2.
  rewrite !hexEncode_spec, !string_app_assoc. intros E. cbn in E. injection E as E.
  apply hexString_split in E as [-> E]. apply hexString_inj in E as ->.
  f_equal. apply amino_inj. congruence.
Qed.

Lemma PartSetHeader_Equals_spec h1 h2 : PartSetHeader.Equals h1 h2 = true <-> h1 = h2.
Proof.
  destruct h1 as [t1 h1], h2 as [t2 h2]. unfold PartSetHeader.Equals. simpl.
  rewrite andb_true_iff, Z.eqb_eq, bytes_equal_true. split; [by intros [-> ->]|by intros [= -> ->]].
Qed.

Lemma BlockID_Equals_spec b1 b2 : BlockID.Equals b1 b2 = true <-> b1 = b2.
Proof.
  destruct b1 as [h1 p1], b2 as [h2 p2]. unfold BlockID.Equals. simpl.
  rewrite andb_true_iff, bytes_equal_true, PartSetHeader_Equals_spec.
  split; [by intros [-> ->]|by intros [= -> ->]].
Qed.

(** Signing bytes as total functions. *)
Lemma VoteSignBytes_total chainID v : exists sb, VoteSignBytes chainID v = Ret sb.
Proof. unfold VoteSignBytes. destruct (marshalVote_total (CanonicalVote chainID v)) as [z ->]. eauto. Qed.

(** A vote that passes [Verify]. *)
Definition vote_verified (chainID : string) (pub : PublicKey) (v : Vote.t) : Prop :=
  VoteVerify chainID pub v = Ret None.

Lemma vote_verified_sig chainID pub v : vote_verified chainID pub v ->
  exists sb, VoteSignBytes chainID v = Ret sb /\ VerifyBytes pub sb (Vote.Signature v) = true.
Proof.
  unfold vote_verified, VoteVerify. intros H.
  destruct (bytes_equal _ _) eqn:E1 in H; simpl in H; [|done].
  destruct (VoteSignBytes_total chainID v) as [sb Hsb]. rewrite Hsb in H. simpl in H.
  exists sb. split; [done|]. destruct (VerifyBytes _ _ _) eqn:E2 in H; simpl in H; done.
Qed.

(** A key verifies its own signatures. *)
Lemma verify_own_sig k msg sig :
  PrivKeySign k msg = Some sig -> VerifyBytes (Public k) msg sig = true.
Proof.
  intros H. unfold VerifyBytes. rewrite (sig_recover msg k sig H). unfold PubKeyEquals.
  destruct (pub_encodes k) as [d ->]. by apply bytes_equal_true.
Qed.
End KeyFacts.

(** ** A concrete library, for the witnesses

    Keys are single bytes, a signature is the key followed by the message, and
    encodings are self-delimiting byte strings. *)

Fixpoint demoPos (p : positive) : bytes :=
  match p with
  | xH => [Byte.x02]
  | xO p' => Byte.x00 :: demoPos p'
  | xI p' => Byte.x01 :: demoPos p'
  end.

Definition demoZ (z : Z) : bytes :=
  match z with
  | Z0 => [Byte.x00]
  | Zpos p => Byte.x01 :: demoPos p
  | Zneg p => Byte.x02 :: demoPos p
  end.

Definition demoVote (v : CanonicalJSONVote.t) : bytes :=
  demoZ (CanonicalJSONVote.Height v) ++ demoZ (CanonicalJSONVote.Round v)
    ++ demoZ (CanonicalJSONVote.VoteType v)
    ++ CanonicalJSONBlockID.Hash (CanonicalJSONVote.BlockID v).

Definition demoProposal (p : CanonicalJSONProposal.t) : bytes :=
  demoZ (CanonicalJSONProposal.Height p) ++ demoZ (CanonicalJSONProposal.Round p)
    ++ CanonicalJSONPartSetHeader.Hash (CanonicalJSONProposal.BlockPartsHeader p).

Fixpoint demoRlp (x : rlp_item) : bytes :=
  match x with
  | RBytes b => Byte.x03 :: demoZ (zlen b) ++ b
  | RList l => Byte.x04 :: demoZ (zlen l) ++ concat (map demoRlp l)
  end.

#[global] Instance demoLib : Lib := {|
  PublicKey := Byte.byte;
  PrivateKey := Byte.byte;
  Public k := k;
  PubkeyToAddress k := [k];
  FromECDSAPub k := Some [k];
  SigToPub msg sig := match sig with k :: m => if bool_decide (m = msg) then Some k else None | [] => None end;
  EcdsaSign msg k := Some (k :: msg);
  keccakRlp := demoRlp;
  hexEncode b := String.append "0x" (hexString b);
  aminoPartSetHeader h := Some (demoZ (PartSetHeader.Total h) ++ PartSetHeader.Hash h);
  marshalVote v := Some (demoVote v);
  unmarshalVote _ := None;
  marshalProposal p := Some (demoProposal p);
  unmarshalProposal _ := None;
  formatTime _ := "t";
  parseTime _ := Some 0
|}.

Lemma demoPos_prefix p q s t : demoPos p ++ s = demoPos q ++ t -> p = q /\ s = t.
Proof.
  revert q. induction p as [p IH|p IH|]; intros [q|q|]; simpl; intros E; try discriminate;
    injection E as E; try (by subst); destruct (IH q E) as [-> ->]; done.
Qed.

Lemma demoZ_prefix x y s t : demoZ x ++ s = demoZ y ++ t -> x = y /\ s = t.
Proof.
  destruct x, y; simpl; intros E; try discriminate; injection E as E; try (by subst);
    apply demoPos_prefix in E as [-> ->]; done.
Qed.

#[global] Instance demoLaws : LibLaws demoLib.
Proof.
  constructor; simpl; try (by eauto).
  - intros [t1 h1] [t2 h2]. simpl. intros [= E]. apply demoZ_prefix in E as [-> ->]. done.
  - intros msg k sig [= <-]. by rewrite bool_decide_eq_true_2.
  - by intros [b|l].
Qed.
