(* ===== verification/Validator.v ===== *)
(** * Validators and validator sets

    Models [consensus/tbft/types/validator.go] and [validator_set.go], with the
    commits of [datas.go] that [VerifyCommit] checks.  The validator list is
    sorted by address and looked up by binary search; [IncrementAccum] rotates
    the proposer with a heap of pointers, modelled as a heap of indices into the
    list so that the update of an accumulator is seen by the heap.  [Proposer] is
    a snapshot: the code only reads its address and key. *)

From stdpp Require Import sorting.
From S2P Require Import Prelude GoStd Types.

(** ** Saturating arithmetic on [int64] *)

Definition safeMul (a b : Z) : Z * bool :=
  if (a =? 0) || (b =? 0) then (0, false)
  else if a =? 1 then (b, false)
  else if b =? 1 then (a, false)
  else if (a =? min_i64) || (b =? min_i64) then (-1, true)
  else let c := i64 (a * b) in (c, negb (i64 (Z.quot c b) =? a)).

Definition safeAdd (a b : Z) : Z * bool :=
  if (0 <? b) && (i64 (max_i64 - b) <? a) then (-1, true)
  else if (b <? 0) && (a <? i64 (min_i64 - b)) then (-1, true)
  else (i64 (a + b), false).

Definition safeSub (a b : Z) : Z * bool :=
  if (0 <? b) && (a <? i64 (min_i64 + b)) then (-1, true)
  else if (b <? 0) && (i64 (max_i64 + b) <? a) then (-1, true)
  else (i64 (a - b), false).

Definition safeMulClip (a b : Z) : Z :=
  let (c, overflow) := safeMul a b in
  if overflow then
    if ((a <? 0) || (b <? 0)) && negb ((a <? 0) && (b <? 0)) then min_i64 else max_i64
  else c.

Definition safeAddClip (a b : Z) : Z :=
  let (c, overflow) := safeAdd a b in
  if overflow then if b <? 0 then min_i64 else max_i64 else c.

Definition safeSubClip (a b : Z) : Z :=
  let (c, overflow) := safeSub a b in
  if overflow then if 0 <? b then min_i64 else max_i64 else c.

(** ** Validators *)

Module Validator.
Record t {L : Lib} := mk {
  Address : bytes;
  PubKey : PublicKey;
  VotingPower : Z;
  Accum : Z
}.
Arguments t : clear implicits.
Arguments t {L}.

Section Ops.
Context {L : Lib}.

#[global] Instance eq_dec : EqDecision t.
Proof. solve_decision. Defined.

Definition NewValidator (pubKey : PublicKey) (votingPower : Z) : t :=
  mk L (PubKeyAddress pubKey) pubKey votingPower 0.

Definition Copy (v : t) : t := v.

Definition set_Accum (v : t) (a : Z) : t := mk L (Address v) (PubKey v) (VotingPower v) a.

Definition CompareAccum (v : option t) (other : t) : outcome t :=
  match v with
  | None => Ret other
  | Some v =>
      if Accum other <? Accum v then Ret v
      else if Accum v <? Accum other then Ret other
      else match bytes_compare (Address v) (Address other) with
           | Lt => Ret v
           | Gt => Ret other
           | Eq => Panic "Cannot compare identical validators"
           end
  end.
End Ops.
End Validator.

(** ** Commits *)

Module Commit.
Record t := mk { BlockID : BlockID.t; Precommits : list (option Vote.t) }.

(** The vote [&Vote{Type: VoteTypePrecommit}]. *)
Definition emptyPrecommit : Vote.t :=
  Vote.mk [] 0 0 0 0 0 VoteTypePrecommit BlockID.empty [] [].

Fixpoint firstSome (l : list (option Vote.t)) : option Vote.t :=
  match l with
  | [] => None
  | Some v :: _ => Some v
  | None :: l' => firstSome l'
  end.

Definition FirstPrecommit (c : t) : option Vote.t :=
  match Precommits c with
  | [] => None
  | l => match firstSome l with Some v => Some v | None => Some emptyPrecommit end
  end.

Definition Height (c : t) : outcome Z :=
  if zlen (Precommits c) =? 0 then Ret 0
  else match FirstPrecommit c with
       | Some v => Ret (Vote.Height v)
       | None => Panic "nil pointer dereference"
       end.

(** [int(commit.FirstPrecommit().Round)]. *)
Definition Round (c : t) : outcome Z :=
  if zlen (Precommits c) =? 0 then Ret 0
  else match FirstPrecommit c with
       | Some v => Ret (i64 (Vote.Round v))
       | None => Panic "nil pointer dereference"
       end.
End Commit.

(** The errors [VerifyCommit] and [VerifyCommitAny] return. *)
Inductive commit_error :=
| ErrWrongSetSize
| ErrWrongHeight
| ErrWrongRound
| ErrNotPrecommit
| ErrInvalidSignature
| ErrInsufficientPower
| ErrInsufficientOldPower
| ErrInsufficientCurPower.

(** ** Validator sets *)

Module ValidatorSet.
Record t {L : Lib} := mk {
  Validators : list Validator.t;
  Proposer : option Validator.t;
  totalVotingPower : Z
}.
Arguments t : clear implicits.
Arguments t {L}.

Section Ops.
Context {L : Lib}.

(** [sort.Sort(ValidatorsByAddress(validators))]: sorted by address, which is
    unique when the addresses are distinct. *)
Definition addr_le (v w : Validator.t) : Prop :=
  bytes_compare (Validator.Address v) (Validator.Address w) <> Gt.

#[global] Instance addr_le_dec v w : Decision (addr_le v w).
Proof. unfold addr_le. apply _. Defined.

Definition sortByAddress (l : list Validator.t) : list Validator.t := merge_sort addr_le l.

Definition Size (s : t) : Z := zlen (Validators s).

(** [TotalVotingPower]: computed once, then cached in the set. *)
Definition sumPowers (l : list Validator.t) (acc : Z) : Z :=
  foldl (fun acc v => safeAddClip acc (Validator.VotingPower v)) acc l.

Definition TotalVotingPower (s : t) : Z * t :=
  let total :=
    if totalVotingPower s =? 0 then sumPowers (Validators s) (totalVotingPower s)
    else totalVotingPower s in
  (total, mk L (Validators s) (Proposer s) total).

(** [TotalVotingPower()*2/3] on [int64]. *)
Definition twoThirds (total : Z) : Z := Z.quot (i64 (total * 2)) 3.

(** The predicate [bytes.Compare(address, Validators[i].Address) <= 0]. *)
Definition addrAtMost (s : t) (address : bytes) (i : Z) : outcome bool :=
  let! v := slice_get (Validators s) i in
  Ret (match bytes_compare address (Validator.Address v) with Gt => false | _ => true end).

Definition searchAddr (s : t) (address : bytes) : outcome Z :=
  sortSearch (zlen (Validators s)) (addrAtMost s address).

Definition HasAddress (s : t) (address : bytes) : outcome bool :=
  let! idx := searchAddr s address in
  if idx <? zlen (Validators s) then
    let! v := slice_get (Validators s) idx in
    Ret (bytes_equal (Validator.Address v) address)
  else Ret false.

(** [-1] and nil when there is none. *)
Definition GetByAddress (s : t) (address : bytes) : outcome (Z * option Validator.t) :=
  let! idx := searchAddr s address in
  if idx <? zlen (Validators s) then
    let! v := slice_get (Validators s) idx in
    if bytes_equal (Validator.Address v) address
    then Ret (idx, Some (Validator.Copy v)) else Ret (-1, None)
  else Ret (-1, None).

Definition GetByIndex (s : t) (index : Z) : option (bytes * Validator.t) :=
  if (index <? 0) || (zlen (Validators s) <=? index) then None
  else match Validators s !! Z.to_nat index with
       | Some v => Some (Validator.Address v, Validator.Copy v)
       | None => None
       end.

(** The heap order of [accumComparable.Less] on the validators the indices
    point to. *)
Definition accumLess (vals : list Validator.t) (a b : nat) : outcome bool :=
  let! va := slice_get vals (Z.of_nat a) in
  let! vb := slice_get vals (Z.of_nat b) in
  let! larger := Validator.CompareAccum (Some va) vb in
  Ret (bytes_equal (Validator.Address larger) (Validator.Address va)).

(** First loop of [IncrementAccum]: raise each accumulator and push. *)
Definition raisePush (times : Z) (i : Z) (st : list Validator.t * list nat)
    : outcome (list Validator.t * list nat) :=
  let (vals, h) := st in
  let! v := slice_get vals i in
  let v' := Validator.set_Accum v
    (safeAddClip (Validator.Accum v) (safeMulClip (Validator.VotingPower v) (i64 times))) in
  let! vals' := slice_set vals i v' in
  let! h' := heapPush (accumLess vals') h (Z.to_nat i) in
  Ret (vals', h').

(** Second loop: lower the validator at the root by the total power. *)
Definition lowerTop (times : Z) (i : Z) (st : t * list nat) : outcome (t * list nat) :=
  let (s, h) := st in
  match h with
  | [] => Panic "interface conversion: interface is nil"
  | m :: _ =>
      let! mostest := slice_get (Validators s) (Z.of_nat m) in
      let (power, s1) := TotalVotingPower s in
      let mostest' := Validator.set_Accum mostest (safeSubClip (Validator.Accum mostest) power) in
      let! vals' := slice_set (Validators s1) (Z.of_nat m) mostest' in
      if i =? i64 times - 1
      then Ret (mk L vals' (Some mostest') (totalVotingPower s1), h)
      else
        let! h' := heapFix (accumLess vals') h 0 in
        Ret (mk L vals' (Proposer s1) (totalVotingPower s1), h')
  end.

Definition IncrementAccum (s : t) (times : Z) : outcome t :=
  let! (vals, h) := for_loop 0 (zlen (Validators s)) (raisePush times) (Validators s, []) in
  let! (s', _) := for_loop 0 (i64 times) (lowerTop times)
                    (mk L vals (Proposer s) (totalVotingPower s), h) in
  Ret s'.

Definition NewValidatorSet (vals : list Validator.t) : outcome t :=
  let validators := sortByAddress (Validator.Copy <$> vals) in
  let vs := mk L validators None 0 in
  if 0 <? zlen vals then IncrementAccum vs 1 else Ret vs.

(** [FindValidatorSetProposer]: the last proposer's address decides round 0. *)
Fixpoint findByKeyAddress (l : list Validator.t) (address : bytes) : option Validator.t :=
  match l with
  | [] => None
  | v :: l' =>
      if bytes_equal (PubKeyAddress (Validator.PubKey v)) address then Some v
      else findByKeyAddress l' address
  end.

Definition FindValidatorSetProposer (s : t) (address : bytes) : t :=
  match findByKeyAddress (Validators s) address with
  | Some v => mk L (Validators s) (Some v) (totalVotingPower s)
  | None => s
  end.

Definition Copy (s : t) : t :=
  mk L (Validator.Copy <$> Validators s) (Proposer s) (totalVotingPower s).

Definition findProposerStep (acc : outcome (option Validator.t)) (val : Validator.t)
    : outcome (option Validator.t) :=
  let! proposer := acc in
  match proposer with
  | None => let! p := Validator.CompareAccum None val in Ret (Some p)
  | Some p =>
      if negb (bytes_equal (Validator.Address val) (Validator.Address p))
      then let! p' := Validator.CompareAccum (Some p) val in Ret (Some p')
      else Ret (Some p)
  end.

Definition findProposer (s : t) : outcome (option Validator.t) :=
  foldl findProposerStep (Ret None) (Validators s).

(** [GetProposer] fills [Proposer] when it is nil. *)
Definition GetProposer (s : t) : outcome (option Validator.t * t) :=
  if zlen (Validators s) =? 0 then Ret (None, s)
  else match Proposer s with
       | Some p => Ret (Some (Validator.Copy p), s)
       | None =>
           let! p := findProposer s in
           match p with
           | Some p => Ret (Some (Validator.Copy p), mk L (Validators s) (Some p) (totalVotingPower s))
           | None => Panic "nil pointer dereference"
           end
       end.

Definition Add (s : t) (val : option Validator.t) : outcome (bool * t) :=
  match val with
  | None => Ret (false, s)
  | Some val =>
      let val := Validator.Copy val in
      let! idx := searchAddr s (Validator.Address val) in
      if zlen (Validators s) <=? idx then Ret (true, mk L (Validators s ++ [val]) None 0)
      else
        let! v := slice_get (Validators s) idx in
        if bytes_equal (Validator.Address v) (Validator.Address val) then Ret (false, s)
        else Ret (true, mk L (take (Z.to_nat idx) (Validators s) ++ [val]
                              ++ drop (Z.to_nat idx) (Validators s)) None 0)
  end.

Definition Update (s : t) (val : Validator.t) : outcome (bool * t) :=
  let! (index, sameVal) := GetByAddress s (Validator.Address val) in
  match sameVal with
  | None => Ret (false, s)
  | Some _ =>
      let! vals := slice_set (Validators s) index (Validator.Copy val) in
      Ret (true, mk L vals None 0)
  end.

Definition Remove (s : t) (address : bytes) : outcome (option Validator.t * bool * t) :=
  let! idx := searchAddr s address in
  if zlen (Validators s) <=? idx then Ret (None, false, s)
  else
    let! removedVal := slice_get (Validators s) idx in
    if negb (bytes_equal (Validator.Address removedVal) address) then Ret (None, false, s)
    else
      let newValidators := take (Z.to_nat idx) (Validators s) in
      let newValidators :=
        if idx + 1 <? zlen (Validators s)
        then newValidators ++ drop (Z.to_nat (idx + 1)) (Validators s) else newValidators in
      Ret (Some removedVal, true, mk L newValidators None 0).

Definition RemoveForPK (s : t) (pk : PublicKey) : outcome (option Validator.t * bool * t) :=
  Remove s (PubKeyAddress pk).

(** ** Commit verification *)

(** One round of the loop of [VerifyCommit]: the tally goes on or an error is
    returned. *)
Definition verifyPrecommit (s : t) (chainID : string) (blockID : BlockID.t) (height round : Z)
    (idx : Z) (precommit : option Vote.t) (tallied : Z) : outcome (commit_error + Z) :=
  match precommit with
  | None => Ret (inr tallied)
  | Some pc =>
      if negb (Vote.Height pc =? height) then Ret (inl ErrWrongHeight)
      else if negb (i64 (Vote.Round pc) =? round) then Ret (inl ErrWrongRound)
      else if negb (Vote.Type_ pc =? VoteTypePrecommit) then Ret (inl ErrNotPrecommit)
      else match GetByIndex s (u64 idx) with
           | None =>
               let! _ := VoteSignBytes chainID pc in Panic "nil pointer dereference"
           | Some (_, val) =>
               let! sb := VoteSignBytes chainID pc in
               if negb (VerifyBytes (Validator.PubKey val) sb (Vote.Signature pc))
               then Ret (inl ErrInvalidSignature)
               else if negb (BlockID.Equals blockID (Vote.BlockID pc)) then Ret (inr tallied)
               else if Vote.Result pc =? VoteAgree
                    then Ret (inr (i64 (tallied + Validator.VotingPower val)))
                    else Ret (inr tallied)
           end
  end.

(** [VerifyCommit]: [None] is a nil error. *)
Definition VerifyCommit (s : t) (chainID : string) (blockID : BlockID.t) (height : Z)
    (commit : Commit.t) : outcome (option commit_error * t) :=
  if negb (Size s =? zlen (Commit.Precommits commit)) then Ret (Some ErrWrongSetSize, s)
  else
    let! h := Commit.Height commit in
    if negb (height =? h) then Ret (Some ErrWrongHeight, s)
    else
      let! round := Commit.Round commit in
      let! r := rangeM (verifyPrecommit s chainID blockID height round) 0
                  (Commit.Precommits commit) 0 in
      match r with
      | inl e => Ret (Some e, s)
      | inr tallied =>
          let (total, s') := TotalVotingPower s in
          if twoThirds total <? tallied then Ret (None, s')
          else Ret (Some ErrInsufficientPower, s')
      end.

(** The loop state of [VerifyCommitAny]: powers in the old and the new set, and
    the indices already seen. *)
Definition verifyPrecommitAny (s newSet : t) (chainID : string) (blockID : BlockID.t)
    (height round : Z) (idx : Z) (precommit : option Vote.t) (st : Z * Z * list Z)
    : outcome (commit_error + (Z * Z * list Z)) :=
  let '(oldP, newP, seen) := st in
  match precommit with
  | None => Ret (inr st)
  | Some pc =>
      if negb (Vote.Height pc =? height) then Ret (inl ErrWrongHeight)
      else if negb (i64 (Vote.Round pc) =? round) then Ret (inl ErrWrongRound)
      else if negb (Vote.Type_ pc =? VoteTypePrecommit) then Ret (inl ErrNotPrecommit)
      else if negb (BlockID.Equals blockID (Vote.BlockID pc)) then Ret (inr st)
      else
        let! (vi, ov) := GetByAddress s (Vote.ValidatorAddress pc) in
        match ov with
        | None => Ret (inr st)
        | Some ov =>
            if bool_decide (u64 vi ∈ seen) then Ret (inr st)
            else
              let seen' := u64 vi :: seen in
              let! sb := VoteSignBytes chainID pc in
              if negb (VerifyBytes (Validator.PubKey ov) sb (Vote.Signature pc))
              then Ret (inl ErrInvalidSignature)
              else
                let agree := Vote.Result pc =? VoteAgree in
                let oldP' := if agree then i64 (oldP + Validator.VotingPower ov) else oldP in
                match GetByIndex newSet (u64 idx) with
                | None => Panic "nil pointer dereference"
                | Some (_, cv) =>
                    let newP' :=
                      if PubKeyEquals (Validator.PubKey cv) (Validator.PubKey ov) && agree
                      then i64 (newP + Validator.VotingPower cv) else newP in
                    Ret (inr (oldP', newP', seen'))
                end
        end
  end.

Definition VerifyCommitAny (s newSet : t) (chainID : string) (blockID : BlockID.t) (height : Z)
    (commit : Commit.t) : outcome (option commit_error) :=
  if negb (Size newSet =? zlen (Commit.Precommits commit)) then Ret (Some ErrWrongSetSize)
  else
    let! h := Commit.Height commit in
    if negb (height =? h) then Ret (Some ErrWrongHeight)
    else
      let! round := Commit.Round commit in
      let! r := rangeM (verifyPrecommitAny s newSet chainID blockID height round) 0
                  (Commit.Precommits commit) (0, 0, []) in
      match r with
      | inl e => Ret (Some e)
      | inr (oldP, newP, _) =>
          if oldP <=? twoThirds (fst (TotalVotingPower s)) then Ret (Some ErrInsufficientOldPower)
          else if newP <=? twoThirds (fst (TotalVotingPower newSet))
               then Ret (Some ErrInsufficientCurPower)
               else Ret None
      end.

End Ops.
End ValidatorSet.

(** ** Saturating arithmetic is arithmetic clipped to the range *)

Definition clip (z : Z) : Z :=
  if z <? min_i64 then min_i64 else if max_i64 <? z then max_i64 else z.

Lemma clip_range z : in_i64 (clip z).
Proof. unfold in_i64, clip, min_i64, max_i64. bdestr; lia. Qed.

Lemma clip_id z : in_i64 z -> clip z = z.
Proof. unfold in_i64, clip. intros H. bdestr; lia. Qed.

Lemma i64_cong z : exists k, i64 z = z + k * two64.
Proof.
  exists (- ((z + two63) / two64)). unfold i64.
  rewrite Z.mod_eq by (unfold two64; lia). lia.
Qed.

Lemma safeAddClip_spec a b : in_i64 a -> in_i64 b -> safeAddClip a b = clip (a + b).
Proof.
  intros Ha Hb. unfold safeAddClip, safeAdd, clip, in_i64 in *.
  assert (0 < b -> i64 (max_i64 - b) = max_i64 - b) as E1.
  { intros. apply i64_id. unfold in_i64, min_i64, max_i64 in *. lia. }
  assert (b < 0 -> i64 (min_i64 - b) = min_i64 - b) as E2.
  { intros. apply i64_id. unfold in_i64, min_i64, max_i64 in *. lia. }
  assert (min_i64 <= a + b <= max_i64 -> i64 (a + b) = a + b) as E3 by (apply i64_id).
  destruct (Z.ltb_spec 0 b); [rewrite E1 by lia|]; simpl;
    [|destruct (Z.ltb_spec b 0); [rewrite E2 by lia|]; simpl];
    bdestr; simpl; try rewrite E3; lia.
Qed.

Lemma safeSubClip_spec a b : in_i64 a -> in_i64 b -> safeSubClip a b = clip (a - b).
Proof.
  intros Ha Hb. unfold safeSubClip, safeSub, clip, in_i64 in *.
  assert (0 < b -> i64 (min_i64 + b) = min_i64 + b) as E1.
  { intros. apply i64_id. unfold in_i64, min_i64, max_i64 in *. lia. }
  assert (b < 0 -> i64 (max_i64 + b) = max_i64 + b) as E2.
  { intros. apply i64_id. unfold in_i64, min_i64, max_i64 in *. lia. }
  assert (min_i64 <= a - b <= max_i64 -> i64 (a - b) = a - b) as E3 by (apply i64_id).
  destruct (Z.ltb_spec 0 b); [rewrite E1 by lia|]; simpl;
    [|destruct (Z.ltb_spec b 0); [rewrite E2 by lia|]; simpl];
    bdestr; simpl; try rewrite E3; lia.
Qed.

(** The division test of [safeMul] detects exactly the products out of range. *)
Lemma mul_overflow_test a b : in_i64 a -> in_i64 b -> b <> 0 -> a <> min_i64 -> b <> min_i64 ->
  i64 (Z.quot (i64 (a * b)) b) = a <-> in_i64 (a * b).
Proof.
  intros Ha Hb Hb0 Ham Hbm. split; intros H.
  - destruct (i64_cong (a * b)) as [k Ek]. destruct (i64_range (a * b)) as [Hl Hu].
    set (c := i64 (a * b)) in *. clearbody c.
    pose proof (Z.quot_rem' c b) as Eq. pose proof (Z.rem_bound_abs c b Hb0) as Hr.
    assert (c <> min_i64 \/ b <> -1) as Hc.
    { destruct (Z.eq_dec b (-1)) as [->|]; [left|by right]. intros E.
      clear -Ek E Ha Ham. unfold in_i64, min_i64, max_i64, two64 in *. lia. }
    assert (in_i64 (Z.quot c b)) as Hq.
    { unfold in_i64, min_i64, max_i64 in *.
      assert (Z.abs (Z.quot c b) <= Z.abs c) as Habs.
      { rewrite <- Z.quot_abs by done. apply Z.quot_le_upper_bound; [lia|].
        assert (1 <= Z.abs b) by lia. assert (0 <= Z.abs c) by lia. clear -H0 H1. nia. }
      destruct (Z.eq_dec c (- 2 ^ 63)) as [E|]; [|lia].
      destruct (Z.eq_dec (Z.quot c b) (2 ^ 63)) as [E'|]; [|lia].
      assert (2 ^ 63 * b = - 2 ^ 63 - Z.rem c b) as E2 by (rewrite <- E' at 1; lia).
      clear -Hr E2 E Hc Hb. generalize dependent (Z.rem c b). intros r. lia. }
    rewrite i64_id in H by done.
    assert (k = 0) as ->.
    { unfold in_i64, min_i64, max_i64, two64 in *. nia. }
    unfold in_i64. lia.
  - rewrite (i64_id (a * b)) by done. rewrite Z.quot_mul by done. by apply i64_id.
Qed.

Lemma safeMulClip_spec a b : in_i64 a -> in_i64 b -> safeMulClip a b = clip (a * b).
Proof.
  intros Ha Hb. unfold safeMulClip, safeMul.
  destruct (Z.eqb_spec a 0) as [->|Ha0]; [by rewrite Z.mul_0_l|].
  destruct (Z.eqb_spec b 0) as [->|Hb0]; [by rewrite Z.mul_0_r|]. cbn [orb].
  destruct (Z.eqb_spec a 1) as [->|Ha1]; [by rewrite Z.mul_1_l, clip_id|].
  destruct (Z.eqb_spec b 1) as [->|Hb1]; [by rewrite Z.mul_1_r, clip_id|].
  assert (~ in_i64 (a * b) ->
    (if ((a <? 0) || (b <? 0)) && negb ((a <? 0) && (b <? 0)) then min_i64 else max_i64)
    = clip (a * b)) as Hover.
  { intros Hn. unfold clip, in_i64, min_i64, max_i64 in *.
    destruct (Z.ltb_spec a 0), (Z.ltb_spec b 0); simpl; bdestr; nia. }
  assert (a = min_i64 \/ b = min_i64 -> ~ in_i64 (a * b)) as Hmin.
  { unfold in_i64, min_i64, max_i64 in *. intros [->| ->]; nia. }
  destruct (Z.eqb_spec a min_i64); [by apply Hover, Hmin; left|].
  destruct (Z.eqb_spec b min_i64); [by apply Hover, Hmin; right|]. simpl.
  pose proof (mul_overflow_test a b Ha Hb Hb0 n n0) as Ht.
  destruct (Z.eqb_spec (i64 (Z.quot (i64 (a * b)) b)) a) as [E|E]; simpl.
  - assert (in_i64 (a * b)) by (by apply Ht). by rewrite i64_id, clip_id.
  - apply Hover. intros Hin. by apply E, Ht.
Qed.

(** ** The sorted list as a map from addresses to validators *)

Section Sorted.
Context {L : Lib}.
Implicit Types (s : ValidatorSet.t) (a : bytes) (v w : Validator.t) (l : list Validator.t).

Definition addr_lt v w : Prop := bytes_compare (Validator.Address v) (Validator.Address w) = Lt.

(** Addresses strictly increase: sorted, and no address twice. *)
Definition increasing l : Prop :=
  forall i j v w, (i < j)%nat -> l !! i = Some v -> l !! j = Some w -> addr_lt v w.

Definition sorted s : Prop := increasing (ValidatorSet.Validators s).

Fixpoint lookupAddr l a : option Validator.t :=
  match l with
  | [] => None
  | v :: l' => if bytes_equal (Validator.Address v) a then Some v else lookupAddr l' a
  end.

Lemma lookupAddr_None l a :
  lookupAddr l a = None <-> forall v, v ∈ l -> Validator.Address v <> a.
Proof.
  induction l as [|w l IH]; simpl; [set_solver|].
  destruct (bytes_equal _ _) eqn:E; [apply bytes_equal_true in E|apply bytes_equal_false in E].
  - split; [done|]. intros H. exfalso. eapply (H w); [set_solver|done].
  - rewrite IH. split; intros H v Hv; [apply elem_of_cons in Hv as [->|]; auto|set_solver].
Qed.

Lemma lookupAddr_Some_in l a v : lookupAddr l a = Some v -> v ∈ l /\ Validator.Address v = a.
Proof.
  induction l as [|w l IH]; simpl; [done|]. destruct (bytes_equal _ _) eqn:E.
  - apply bytes_equal_true in E. intros [= <-]. set_solver.
  - intros H. destruct (IH H). set_solver.
Qed.

Lemma increasing_NoDup l i j v w : increasing l -> l !! i = Some v -> l !! j = Some w ->
  Validator.Address v = Validator.Address w -> i = j.
Proof.
  intros H Hi Hj E. destruct (lt_eq_lt_dec i j) as [[Hlt|]|Hlt]; [|done|].
  - pose proof (H _ _ _ _ Hlt Hi Hj) as H1. unfold addr_lt in H1. by rewrite E, bytes_compare_refl in H1.
  - pose proof (H _ _ _ _ Hlt Hj Hi) as H1. unfold addr_lt in H1. by rewrite E, bytes_compare_refl in H1.
Qed.

Lemma lookupAddr_Some l i v : increasing l -> l !! i = Some v ->
  lookupAddr l (Validator.Address v) = Some v.
Proof.
  intros Hs Hv. destruct (lookupAddr l (Validator.Address v)) as [w|] eqn:E.
  - apply lookupAddr_Some_in in E as [Hin Ha]. apply list_elem_of_lookup in Hin as [j Hj].
    assert (j = i) as -> by (by eapply increasing_NoDup). congruence.
  - exfalso. rewrite lookupAddr_None in E. eapply E; [by eapply list_elem_of_lookup_2|done].
Qed.

Lemma lookupAddr_app l1 l2 a :
  lookupAddr (l1 ++ l2) a = match lookupAddr l1 a with Some v => Some v | None => lookupAddr l2 a end.
Proof. induction l1 as [|v l1 IH]; simpl; [done|]. by destruct (bytes_equal _ _). Qed.

(** Where an address would go: everything before is smaller, everything from
    there on is at least as large. *)
Lemma searchAddr_spec s a : sorted s -> exists r : nat,
  ValidatorSet.searchAddr s a = Ret (Z.of_nat r) /\ (r <= length (ValidatorSet.Validators s))%nat /\
  (forall k v, (k < r)%nat -> ValidatorSet.Validators s !! k = Some v ->
     bytes_compare (Validator.Address v) a = Lt) /\
  (forall k v, (r <= k)%nat -> ValidatorSet.Validators s !! k = Some v ->
     bytes_compare a (Validator.Address v) <> Gt).
Proof.
  intros Hs. set (l := ValidatorSet.Validators s).
  set (p := fun i => match l !! Z.to_nat i with
    | Some v => match bytes_compare a (Validator.Address v) with Gt => false | _ => true end
    | None => true end).
  destruct (sortSearch_spec (zlen l) (ValidatorSet.addrAtMost s a) p) as (r & E & Hr & Hlo & Hhi).
  - intros i Hi. unfold ValidatorSet.addrAtMost, p. fold l.
    destruct (slice_get_in l i Hi) as (v & Hg & Hv). rewrite Hg, Hv. done.
  - intros i j Hij Hj. unfold p. unfold zlen in Hj.
    destruct (lookup_lt_is_Some_2 l (Z.to_nat i)) as [v Hv]; [lia|].
    destruct (lookup_lt_is_Some_2 l (Z.to_nat j)) as [w Hw]; [lia|]. rewrite Hv, Hw.
    destruct (Z.eq_dec i j) as [->|]; [by simplify_eq|].
    pose proof (Hs (Z.to_nat i) (Z.to_nat j) v w ltac:(lia) Hv Hw) as Hlt. unfold addr_lt in Hlt.
    destruct (bytes_compare a (Validator.Address v)) eqn:Ea; [|..|done]; intros _.
    + apply bytes_compare_eq in Ea as ->. by rewrite Hlt.
    + by rewrite (bytes_compare_lt_trans _ _ _ Ea Hlt).
  - apply zlen_nonneg.
  - exists (Z.to_nat r). rewrite Z2Nat.id by lia. split; [done|]. unfold zlen in Hr.
    split; [lia|]. split; intros k v Hk Hv.
    + specialize (Hlo (Z.of_nat k) ltac:(lia)). unfold p in Hlo. rewrite Nat2Z.id, Hv in Hlo.
      rewrite bytes_compare_antisym. by destruct (bytes_compare a _).
    + apply lookup_lt_Some in Hv as Hlen.
      specialize (Hhi (Z.of_nat k) ltac:(unfold zlen; lia)). unfold p in Hhi. rewrite Nat2Z.id, Hv in Hhi.
      by destruct (bytes_compare a _).
Qed.

(** The search finds the address, or shows it is absent and where it goes. *)
Lemma searchAddr_cases s a : sorted s -> exists r : nat,
  ValidatorSet.searchAddr s a = Ret (Z.of_nat r) /\
  ((exists v, ValidatorSet.Validators s !! r = Some v /\ Validator.Address v = a /\
      lookupAddr (ValidatorSet.Validators s) a = Some v) \/
   ((r <= length (ValidatorSet.Validators s))%nat /\
    lookupAddr (ValidatorSet.Validators s) a = None /\
    (forall k v, (k < r)%nat -> ValidatorSet.Validators s !! k = Some v ->
       bytes_compare (Validator.Address v) a = Lt) /\
    (forall k v, (r <= k)%nat -> ValidatorSet.Validators s !! k = Some v ->
       bytes_compare a (Validator.Address v) = Lt))).
Proof.
  intros Hs. destruct (searchAddr_spec s a Hs) as (r & E & Hr & Hlo & Hhi).
  exists r. split; [done|]. set (l := ValidatorSet.Validators s) in *.
  destruct (lookupAddr l a) as [v|] eqn:El.
  - left. apply lookupAddr_Some_in in El as [Hin Ha].
    apply list_elem_of_lookup in Hin as [i Hi]. exists v. split; [|done].
    destruct (lt_eq_lt_dec i r) as [[Hlt|<-]|Hlt]; [|done|].
    + exfalso. specialize (Hlo i v Hlt Hi). by rewrite Ha, bytes_compare_refl in Hlo.
    + exfalso. destruct (lookup_lt_is_Some_2 l r) as [w Hw]; [apply lookup_lt_Some in Hi; lia|].
      pose proof (Hs _ _ w v Hlt Hw Hi) as H1. unfold addr_lt in H1. rewrite Ha in H1.
      apply (Hhi r w ltac:(lia) Hw). rewrite bytes_compare_antisym. by rewrite H1.
  - right. split; [done|]. split; [done|]. split; [done|]. intros k v Hk Hv.
    specialize (Hhi k v Hk Hv). destruct (bytes_compare a _) eqn:Ec; [|done|done].
    apply bytes_compare_eq in Ec. exfalso. rewrite lookupAddr_None in El.
    eapply El; [by eapply list_elem_of_lookup_2|done].
Qed.

Lemma GetByAddress_spec s a : sorted s ->
  match lookupAddr (ValidatorSet.Validators s) a with
  | Some v => exists i : nat, ValidatorSet.GetByAddress s a = Ret (Z.of_nat i, Some v) /\
                ValidatorSet.Validators s !! i = Some v /\ Validator.Address v = a
  | None => ValidatorSet.GetByAddress s a = Ret (-1, None)
  end.
Proof.
  intros Hs. unfold ValidatorSet.GetByAddress.
  destruct (searchAddr_cases s a Hs) as (r & -> & [(v & Hv & Ha & ->)|(Hr & -> & Hlo & Hhi)]); simpl.
  - exists r. apply lookup_lt_Some in Hv as Hl. unfold zlen.
    destruct (Z.ltb_spec (Z.of_nat r) (Z.of_nat (length (ValidatorSet.Validators s)))); [|lia].
    rewrite (proj2 (slice_get_Ret _ _ v)) by (rewrite Nat2Z.id; split; [lia|done]). simpl.
    by rewrite (proj2 (bytes_equal_true _ _) Ha).
  - unfold zlen. destruct (Z.ltb_spec (Z.of_nat r) (Z.of_nat (length (ValidatorSet.Validators s)))); [|done].
    destruct (lookup_lt_is_Some_2 (ValidatorSet.Validators s) r) as [w Hw]; [lia|].
    rewrite (proj2 (slice_get_Ret _ _ w)) by (rewrite Nat2Z.id; split; [lia|done]). simpl.
    rewrite (proj2 (bytes_equal_false _ _)); [done|]. intros E.
    specialize (Hhi r w ltac:(lia) Hw). by rewrite E, bytes_compare_refl in Hhi.
Qed.
End Sorted.

Section MapOps.
Context {L : Lib}.
Implicit Types (s : ValidatorSet.t) (a : bytes) (v w : Validator.t) (l : list Validator.t).

Lemma increasing_app l1 l2 :
  increasing (l1 ++ l2) <->
  increasing l1 /\ increasing l2 /\ (forall v w, v ∈ l1 -> w ∈ l2 -> addr_lt v w).
Proof.
  split.
  - intros H. split_and!.
    + intros i j v w Hij Hi Hj. apply (H i j); [done|by apply lookup_app_l_Some..].
    + intros i j v w Hij Hi Hj. apply (H (length l1 + i) (length l1 + j))%nat; [lia|..];
        rewrite lookup_app_r by lia; by rewrite Nat.add_comm, Nat.add_sub.
    + intros v w [i Hi]%list_elem_of_lookup [j Hj]%list_elem_of_lookup.
      apply lookup_lt_Some in Hi as Hl. apply (H i (length l1 + j))%nat; [lia|by apply lookup_app_l_Some|].
      rewrite lookup_app_r by lia. by rewrite Nat.add_comm, Nat.add_sub.
  - intros (H1 & H2 & H12) i j v w Hij Hi Hj.
    apply lookup_app_Some in Hi as [Hi|[Hli Hi]]; apply lookup_app_Some in Hj as [Hj|[Hlj Hj]].
    + by apply (H1 i j).
    + apply H12; by eapply list_elem_of_lookup_2.
    + apply lookup_lt_Some in Hj. lia.
    + apply (H2 (i - length l1) (j - length l1))%nat; [lia|done|done].
Qed.

Lemma increasing_singleton v : increasing [v].
Proof. intros [|i] [|j] x y Hij Hi Hj; simpl in *; (lia || done). Qed.

(** Inserting where the search says keeps the order. *)
Lemma increasing_insert l r v : increasing l ->
  (forall k w, (k < r)%nat -> l !! k = Some w -> addr_lt w v) ->
  (forall k w, (r <= k)%nat -> l !! k = Some w -> addr_lt v w) ->
  increasing (take r l ++ [v] ++ drop r l).
Proof.
  intros Hs Hlo Hhi. rewrite <- (take_drop r l) in Hs.
  apply increasing_app in Hs as (H1 & H2 & H12).
  assert (forall w, w ∈ take r l -> addr_lt w v) as Ht.
  { intros w [k [Hk Hlt]%lookup_take_Some]%list_elem_of_lookup. by eapply Hlo. }
  assert (forall w, w ∈ drop r l -> addr_lt v w) as Hd.
  { intros w [k Hk]%list_elem_of_lookup. rewrite lookup_drop in Hk. eapply Hhi; [|done]. lia. }
  apply increasing_app. split_and!; [done| |].
  - apply increasing_app. split_and!; [apply increasing_singleton|done|]. set_solver.
  - intros x y Hx Hy. apply elem_of_app in Hy as [->%list_elem_of_singleton|Hy]; auto.
Qed.

Lemma increasing_delete l r : increasing l -> increasing (take r l ++ drop (S r) l).
Proof.
  intros Hs i j v w Hij. rewrite <- delete_take_drop, !list_lookup_delete.
  repeat case_decide; intros Hi Hj; (eapply Hs; [|exact Hi|exact Hj]; lia).
Qed.

(** [s'] is [s] with the entry of [a] set to [o], caches cleared. *)
Definition map_updated s s' a (o : option Validator.t) : Prop :=
  sorted s' /\ ValidatorSet.Proposer s' = None /\ ValidatorSet.totalVotingPower s' = 0 /\
  forall b, lookupAddr (ValidatorSet.Validators s') b
            = if bytes_equal b a then o else lookupAddr (ValidatorSet.Validators s) b.

Lemma bytes_equal_sym a b : bytes_equal a b = bytes_equal b a.
Proof. unfold bytes_equal. apply bool_decide_ext. split; congruence. Qed.

Lemma lookupAddr_take_None l r a :
  lookupAddr l a = None -> lookupAddr (take r l) a = None /\ lookupAddr (drop r l) a = None.
Proof.
  rewrite <- (take_drop r l) at 1. rewrite lookupAddr_app. by destruct (lookupAddr (take r l) a).
Qed.

Lemma map_updated_insert s r v : sorted s ->
  lookupAddr (ValidatorSet.Validators s) (Validator.Address v) = None ->
  (forall k w, (k < r)%nat -> ValidatorSet.Validators s !! k = Some w -> addr_lt w v) ->
  (forall k w, (r <= k)%nat -> ValidatorSet.Validators s !! k = Some w -> addr_lt v w) ->
  map_updated s (ValidatorSet.mk L (take r (ValidatorSet.Validators s) ++ [v]
      ++ drop r (ValidatorSet.Validators s)) None 0) (Validator.Address v) (Some v).
Proof.
  intros Hs Hn Hlo Hhi. split_and!; [by apply increasing_insert|done|done|]. intros b.
  cbn [ValidatorSet.Validators]. set (l := ValidatorSet.Validators s) in *.
  rewrite <- (take_drop r l) at 3. rewrite !lookupAddr_app. cbn [lookupAddr app].
  destruct (lookupAddr_take_None l r _ Hn) as [Ht Hd].
  rewrite (bytes_equal_sym b). destruct (bytes_equal (Validator.Address v) b) eqn:E.
  - apply bytes_equal_true in E as <-. by rewrite Ht.
  - by destruct (lookupAddr (take r l) b).
Qed.

(** The list split at a validator it holds. *)
Lemma lookupAddr_split l r v b : increasing l -> l !! r = Some v ->
  lookupAddr l b = if bytes_equal b (Validator.Address v) then Some v
                   else lookupAddr (take r l ++ drop (S r) l) b.
Proof.
  intros Hs Hv. destruct (bytes_equal b _) eqn:E.
  - apply bytes_equal_true in E as ->. by eapply lookupAddr_Some.
  - rewrite <- (take_drop_middle l r v Hv) at 1. rewrite !lookupAddr_app. simpl.
    rewrite bytes_equal_sym, E. done.
Qed.

Lemma lookupAddr_hole l r v : increasing l -> l !! r = Some v ->
  lookupAddr (take r l ++ drop (S r) l) (Validator.Address v) = None.
Proof.
  intros Hs Hv. apply lookupAddr_None. intros w [i Hi]%list_elem_of_lookup Ew.
  rewrite <- delete_take_drop, list_lookup_delete in Hi.
  case_decide; pose proof (increasing_NoDup l _ _ _ _ Hs Hi Hv Ew); lia.
Qed.

Lemma map_updated_replace s r v w : sorted s -> ValidatorSet.Validators s !! r = Some w ->
  Validator.Address w = Validator.Address v ->
  map_updated s (ValidatorSet.mk L (<[r := v]> (ValidatorSet.Validators s)) None 0)
    (Validator.Address v) (Some v).
Proof.
  intros Hs Hw Ea. set (l := ValidatorSet.Validators s) in *.
  apply lookup_lt_Some in Hw as Hl.
  assert (increasing (<[r := v]> l)) as Hi.
  { intros i j x y Hij Hx Hy. apply list_lookup_insert_Some in Hx as [(-> & <- & _)|[Hne Hx]];
      apply list_lookup_insert_Some in Hy as [(-> & <- & _)|[Hne' Hy]]; try lia; unfold addr_lt.
    - rewrite <- Ea. by apply (Hs i j).
    - rewrite <- Ea. by apply (Hs i j).
    - by apply (Hs i j). }
  split_and!; [done..|]. intros b. cbn [ValidatorSet.Validators]. fold l.
  rewrite (lookupAddr_split _ r v b Hi) by (by apply list_lookup_insert_eq).
  rewrite (lookupAddr_split l r w b Hs Hw), Ea. destruct (bytes_equal b _); [done|].
  rewrite insert_take_drop by done.
  rewrite take_app_le, take_take, Nat.min_id by (rewrite length_take; lia).
  rewrite drop_app_ge by (rewrite length_take; lia). rewrite length_take.
  replace (S r - r `min` length l)%nat with 1%nat by lia. done.
Qed.

Lemma map_updated_delete s r w : sorted s -> ValidatorSet.Validators s !! r = Some w ->
  map_updated s (ValidatorSet.mk L (take r (ValidatorSet.Validators s)
      ++ drop (S r) (ValidatorSet.Validators s)) None 0) (Validator.Address w) None.
Proof.
  intros Hs Hw. split_and!; [by apply increasing_delete|done|done|]. intros b.
  cbn [ValidatorSet.Validators]. rewrite (lookupAddr_split _ r w b Hs Hw).
  destruct (bytes_equal b _) eqn:E; [|done]. apply bytes_equal_true in E as ->.
  by apply lookupAddr_hole.
Qed.

Lemma Add_spec s v : sorted s ->
  match lookupAddr (ValidatorSet.Validators s) (Validator.Address v) with
  | Some _ => ValidatorSet.Add s (Some v) = Ret (false, s)
  | None => exists s', ValidatorSet.Add s (Some v) = Ret (true, s') /\
              map_updated s s' (Validator.Address v) (Some v)
  end.
Proof.
  intros Hs. unfold ValidatorSet.Add, Validator.Copy.
  destruct (searchAddr_cases s (Validator.Address v) Hs) as (r & -> & [(w & Hw & Ha & El)|(Hr & El & Hlo & Hhi)]);
    rewrite El; cbn [obind]; unfold zlen.
  - apply lookup_lt_Some in Hw as Hl. destruct (Z.leb_spec (Z.of_nat (length (ValidatorSet.Validators s))) (Z.of_nat r)); [lia|].
    rewrite (slice_get_nat _ _ w Hw). cbn [obind]. by rewrite (proj2 (bytes_equal_true _ _) Ha).
  - pose proof (map_updated_insert s r v Hs El Hlo Hhi) as Hu.
    destruct (Z.leb_spec (Z.of_nat (length (ValidatorSet.Validators s))) (Z.of_nat r)).
    + rewrite take_ge, drop_ge, app_nil_r in Hu by lia. eauto.
    + destruct (lookup_lt_is_Some_2 (ValidatorSet.Validators s) r) as [w Hw]; [lia|].
      rewrite (slice_get_nat _ _ w Hw). cbn [obind]. rewrite (proj2 (bytes_equal_false _ _)).
      * rewrite Nat2Z.id. eauto.
      * intros E. rewrite lookupAddr_None in El. eapply El; [by eapply list_elem_of_lookup_2|done].
Qed.

Lemma Update_spec s v : sorted s ->
  match lookupAddr (ValidatorSet.Validators s) (Validator.Address v) with
  | Some _ => exists s', ValidatorSet.Update s v = Ret (true, s') /\
                map_updated s s' (Validator.Address v) (Some v)
  | None => ValidatorSet.Update s v = Ret (false, s)
  end.
Proof.
  intros Hs. pose proof (GetByAddress_spec s (Validator.Address v) Hs) as H.
  unfold ValidatorSet.Update. destruct (lookupAddr _ _) as [w|].
  - destruct H as (i & -> & Hw & Ha). cbn [obind]. apply lookup_lt_Some in Hw as Hl.
    rewrite slice_set_in by (unfold zlen; lia). cbn [obind]. rewrite Nat2Z.id.
    eexists. split; [done|]. by eapply map_updated_replace.
  - by rewrite H.
Qed.

Lemma Remove_spec s a : sorted s ->
  match lookupAddr (ValidatorSet.Validators s) a with
  | Some w => exists s', ValidatorSet.Remove s a = Ret (Some w, true, s') /\ map_updated s s' a None
  | None => ValidatorSet.Remove s a = Ret (None, false, s)
  end.
Proof.
  intros Hs. unfold ValidatorSet.Remove.
  destruct (searchAddr_cases s a Hs) as (r & -> & [(w & Hw & Ha & El)|(Hr & El & Hlo & Hhi)]);
    rewrite El; cbn [obind]; unfold zlen.
  - apply lookup_lt_Some in Hw as Hl.
    destruct (Z.leb_spec (Z.of_nat (length (ValidatorSet.Validators s))) (Z.of_nat r)); [lia|].
    rewrite (slice_get_nat _ _ w Hw). cbn [obind]. rewrite (proj2 (bytes_equal_true _ _) Ha). cbn [negb].
    eexists. split; [done|]. rewrite <- Ha. pose proof (map_updated_delete s r w Hs Hw) as Hu.
    replace (Z.to_nat (Z.of_nat r + 1)) with (S r) by lia. rewrite Nat2Z.id.
    destruct (Z.ltb_spec (Z.of_nat r + 1) (Z.of_nat (length (ValidatorSet.Validators s)))); [done|].
    by rewrite drop_ge, app_nil_r in Hu by lia.
  - destruct (Z.leb_spec (Z.of_nat (length (ValidatorSet.Validators s))) (Z.of_nat r)); [done|].
    destruct (lookup_lt_is_Some_2 (ValidatorSet.Validators s) r) as [w Hw]; [lia|].
    rewrite (slice_get_nat _ _ w Hw). cbn [obind]. rewrite (proj2 (bytes_equal_false _ _)); [done|].
    intros E. rewrite lookupAddr_None in El. eapply El; [by eapply list_elem_of_lookup_2|done].
Qed.

Lemma HasAddress_spec s a : sorted s ->
  ValidatorSet.HasAddress s a = Ret (bool_decide (is_Some (lookupAddr (ValidatorSet.Validators s) a))).
Proof.
  intros Hs. pose proof (GetByAddress_spec s a Hs) as H.
  unfold ValidatorSet.HasAddress, ValidatorSet.GetByAddress in *.
  destruct (ValidatorSet.searchAddr s a) as [r|]; cbn [obind] in *.
  - destruct (r <? _) eqn:Er; [destruct (slice_get _ _) as [v|] eqn:Eg|]; cbn [obind] in *;
      [destruct (bytes_equal _ _) eqn:Eb| |]; destruct (lookupAddr _ _); try done;
      by destruct H as (i & H & _).
  - destruct (lookupAddr _ _); [by destruct H as (i & H & _)|done].
Qed.
End MapOps.

(** ** Proposer rotation *)

Section Rotation.
Context {L : Lib}.
Implicit Types (s : ValidatorSet.t) (v w : Validator.t) (l : list Validator.t) (h : list nat).

(** [v] comes before [w]: a greater accumulator, or an equal one and a smaller
    address.  Least is best, as in the heap. *)
Definition accum_compare v w : comparison :=
  match Validator.Accum w ?= Validator.Accum v with
  | Eq => bytes_compare (Validator.Address v) (Validator.Address w)
  | c => c
  end.

Definition beats v w : bool := match accum_compare v w with Lt => true | _ => false end.

Lemma accum_compare_antisym v w : accum_compare w v = CompOpp (accum_compare v w).
Proof.
  unfold accum_compare. rewrite Z.compare_antisym, (bytes_compare_antisym (Validator.Address v)).
  by destruct (Validator.Accum w ?= Validator.Accum v).
Qed.

Lemma beats_asym v w : beats v w = true -> beats w v = false.
Proof. unfold beats. rewrite (accum_compare_antisym v w). by destruct (accum_compare v w). Qed.

Lemma beats_trans u v w : beats v u = false -> beats w v = false -> beats w u = false.
Proof.
  unfold beats, accum_compare.
  destruct (Z.compare_spec (Validator.Accum u) (Validator.Accum v)) as [E1|E1|E1];
  destruct (Z.compare_spec (Validator.Accum v) (Validator.Accum w)) as [E2|E2|E2];
  destruct (Z.compare_spec (Validator.Accum u) (Validator.Accum w)) as [E3|E3|E3]; try lia; try done.
  intros H1 H2. destruct (bytes_compare (Validator.Address w) (Validator.Address u)) eqn:E; try done.
  destruct (bytes_compare (Validator.Address v) (Validator.Address u)) eqn:Eu; [|done|].
  - apply bytes_compare_eq in Eu. rewrite Eu in H2. by rewrite E in H2.
  - assert (bytes_compare (Validator.Address u) (Validator.Address v) = Lt) as Eu'.
    { by rewrite bytes_compare_antisym, Eu. }
    by rewrite (bytes_compare_lt_trans _ _ _ E Eu') in H2.
Qed.

Lemma CompareAccum_beats v w : Validator.Address v <> Validator.Address w ->
  Validator.CompareAccum (Some v) w = Ret (if beats v w then v else w).
Proof.
  intros Hne. unfold Validator.CompareAccum, beats, accum_compare.
  destruct (Z.compare_spec (Validator.Accum w) (Validator.Accum v)); bdestr; try lia; try done.
  destruct (bytes_compare _ _) eqn:E; [|done|done]. by apply bytes_compare_eq in E.
Qed.

(** Comparison of indices into a list of validators. *)
Definition idx_beats l (i j : nat) : bool :=
  match l !! i, l !! j with Some v, Some w => beats v w | _, _ => false end.

Lemma accumLess_spec l i j : increasing l -> (i < length l)%nat -> (j < length l)%nat -> i <> j ->
  ValidatorSet.accumLess l i j = Ret (idx_beats l i j).
Proof.
  intros Hs Hi Hj Hne. unfold ValidatorSet.accumLess, idx_beats.
  destruct (lookup_lt_is_Some_2 l i Hi) as [v Hv], (lookup_lt_is_Some_2 l j Hj) as [w Hw].
  rewrite (slice_get_nat l i v Hv). cbn [obind]. rewrite (slice_get_nat l j w Hw). cbn [obind].
  assert (Validator.Address v <> Validator.Address w) as Ha.
  { intros E. by apply Hne, (increasing_NoDup l i j v w). }
  rewrite CompareAccum_beats by done. cbn [obind]. rewrite Hv, Hw. f_equal.
  destruct (beats v w); [by apply bytes_equal_true|by apply bytes_equal_false].
Qed.

Lemma idx_beats_asym l i j : idx_beats l i j = true -> idx_beats l j i = false.
Proof. unfold idx_beats. destruct (l !! i), (l !! j); try done. apply beats_asym. Qed.

Lemma idx_beats_trans l i j k : (i < length l)%nat -> (j < length l)%nat -> (k < length l)%nat ->
  idx_beats l j i = false -> idx_beats l k j = false -> idx_beats l k i = false.
Proof.
  intros [u Hu]%lookup_lt_is_Some_2 [v Hv]%lookup_lt_is_Some_2 [w Hw]%lookup_lt_is_Some_2.
  unfold idx_beats. rewrite Hu, Hv, Hw. apply beats_trans.
Qed.

(** The validator every other one loses to. *)
Definition is_top l (m : nat) v : Prop :=
  l !! m = Some v /\ forall j w, l !! j = Some w -> beats w v = false.

Lemma beats_total v w : Validator.Address v <> Validator.Address w -> beats v w = false -> beats w v = true.
Proof.
  unfold beats. intros Ha. rewrite (accum_compare_antisym v w). unfold accum_compare.
  destruct (Validator.Accum w ?= Validator.Accum v); try done.
  destruct (bytes_compare _ _) eqn:E; try done. by apply bytes_compare_eq in E.
Qed.

Lemma is_top_unique l m m' v v' : increasing l -> is_top l m v -> is_top l m' v' -> m = m' /\ v = v'.
Proof.
  intros Hs [H1 H2] [H1' H2']. assert (Validator.Address v = Validator.Address v') as E.
  { destruct (decide (Validator.Address v = Validator.Address v')) as [|Ha]; [done|]. exfalso.
    pose proof (beats_total v v' Ha (H2' m v H1)) as Hb. by rewrite (H2 m' v' H1') in Hb. }
  assert (m = m') as -> by (by eapply increasing_NoDup). by simplify_eq.
Qed.

(** ** What the rotation does, without the heap *)

Definition raise (times : Z) v : Validator.t :=
  Validator.set_Accum v
    (safeAddClip (Validator.Accum v) (safeMulClip (Validator.VotingPower v) times)).

Definition lower (total : Z) v : Validator.t :=
  Validator.set_Accum v (safeSubClip (Validator.Accum v) total).

(** [picks total n l l' p]: [n] times the best validator of the list is lowered
    by [total]; [p] is the last one lowered. *)
Inductive picks (total : Z) : nat -> list Validator.t -> list Validator.t -> option Validator.t -> Prop :=
| picks_0 l : picks total 0 l l None
| picks_S n l l' p m v : picks total n l l' p -> is_top l' m v ->
    picks total (S n) l (<[m := lower total v]> l') (Some (lower total v)).

(** What never changes: addresses, keys and powers. *)
Definition ident v : bytes * PublicKey * Z :=
  (Validator.Address v, Validator.PubKey v, Validator.VotingPower v).
Definition same_ids l l' : Prop := ident <$> l = ident <$> l'.

#[global] Instance same_ids_equiv : Equivalence same_ids.
Proof. split; unfold same_ids; [done|by intros ??|congruence]. Qed.

Lemma same_ids_insert l m v v' : l !! m = Some v -> ident v' = ident v -> same_ids (<[m := v']> l) l.
Proof.
  intros Hv E. unfold same_ids. rewrite list_fmap_insert, E. apply list_insert_id.
  by rewrite list_lookup_fmap, Hv.
Qed.

Lemma same_ids_increasing l l' : same_ids l l' -> increasing l -> increasing l'.
Proof.
  intros E H i j v w Hij Hi Hj.
  assert (forall k x, l' !! k = Some x -> exists y, l !! k = Some y /\ Validator.Address y = Validator.Address x) as Hk.
  { intros k x Hx. assert ((ident <$> l) !! k = Some (ident x)) as Ek by (by rewrite E, list_lookup_fmap, Hx).
    rewrite list_lookup_fmap in Ek. destruct (l !! k) as [y|]; [|done]. simpl in Ek.
    exists y. split; [done|]. unfold ident in Ek. by simplify_eq. }
  destruct (Hk i v Hi) as (v' & Hv' & Ev), (Hk j w Hj) as (w' & Hw' & Ew).
  unfold addr_lt. rewrite <- Ev, <- Ew. by apply (H i j).
Qed.

Lemma same_ids_length l l' : same_ids l l' -> length l = length l'.
Proof. intros E. by rewrite <- (length_fmap ident l), E, length_fmap. Qed.

Lemma same_ids_sumPowers l l' acc : same_ids l l' ->
  ValidatorSet.sumPowers l acc = ValidatorSet.sumPowers l' acc.
Proof.
  revert l' acc. unfold same_ids, ValidatorSet.sumPowers.
  induction l as [|v l IH]; intros [|w l'] acc E; simpl in *; try done.
  injection E as _ _ -> E. by apply IH.
Qed.

Lemma picks_ids total n l l' p : picks total n l l' p -> same_ids l l'.
Proof.
  induction 1 as [|n l l' p m v H IH [Hv _]]; [done|]. etrans; [exact IH|]. symmetry.
  by apply (same_ids_insert l' m v).
Qed.
End Rotation.

(** ** The heap-based rotation does exactly that *)

Section HeapRotation.
Context {L : Lib}.
Implicit Types (s : ValidatorSet.t) (v w : Validator.t) (l : list Validator.t) (h : list nat).

Definition below l (i : nat) : Prop := (i < length l)%nat.

(** The heap facts at the order of indices into an increasing list. *)
Lemma idx_push l h i : increasing l -> heap_ok (below l) (h ++ [i]) -> is_heap (idx_beats l) h ->
  exists h', heapPush (ValidatorSet.accumLess l) h i = Ret h' /\ h' ≡ₚ h ++ [i] /\ is_heap (idx_beats l) h'.
Proof.
  intros Hs. apply (heapPush_spec _ (idx_beats l) (below l)).
  - intros x y Hx Hy. by apply accumLess_spec.
  - intros x y _ _. apply idx_beats_asym.
  - intros x y z. apply idx_beats_trans.
Qed.

Lemma idx_fix l h : increasing l -> heap_ok (below l) h -> (0 < length h)%nat ->
  (forall k, (0 < k)%nat -> parent k <> 0%nat -> heap_at (idx_beats l) h k) ->
  exists h', heapFix (ValidatorSet.accumLess l) h 0 = Ret h' /\ h' ≡ₚ h /\ is_heap (idx_beats l) h'.
Proof.
  intros Hs. apply (heapFix_root_spec _ (idx_beats l) (below l)).
  - intros x y Hx Hy. by apply accumLess_spec.
  - intros x y _ _. apply idx_beats_asym.
  - intros x y z. apply idx_beats_trans.
Qed.

(** Changing a validator that two indices do not name does not change their order. *)
Lemma idx_beats_insert l m v i j : i <> m -> j <> m ->
  idx_beats (<[m := v]> l) i j = idx_beats l i j.
Proof. intros Hi Hj. unfold idx_beats. by rewrite !list_lookup_insert_ne. Qed.

Lemma heap_ok_seq l h n : h ≡ₚ seq 0 n -> (n <= length l)%nat -> heap_ok (below l) h.
Proof.
  intros Ep Hn. split; rewrite Ep; [apply NoDup_seq|]. apply Forall_forall. intros x Hx%elem_of_seq.
  unfold below. lia.
Qed.

Lemma heap_elem h n k x : h ≡ₚ seq 0 n -> h !! k = Some x -> (x < n)%nat.
Proof. intros Ep Hx%list_elem_of_lookup_2. rewrite Ep in Hx. apply elem_of_seq in Hx. lia. Qed.

(** Invariant of the first loop: the first [i] validators are raised and in the heap. *)
Definition raised_inv (times : Z) l (i : Z) (st : list Validator.t * list nat) : Prop :=
  let n := Z.to_nat i in
  st.1 = (raise (i64 times) <$> take n l) ++ drop n l /\
  st.2 ≡ₚ seq 0 n /\ is_heap (idx_beats st.1) st.2.

Lemma raised_ids times l n : same_ids ((raise times <$> take n l) ++ drop n l) l.
Proof.
  unfold same_ids. rewrite fmap_app, <- list_fmap_compose. rewrite <- (take_drop n l) at 3.
  by rewrite fmap_app.
Qed.

Lemma raisePush_step times l i st : increasing l -> 0 <= i < zlen l -> raised_inv times l i st ->
  exists st', ValidatorSet.raisePush times i st = Ret st' /\ raised_inv times l (i + 1) st'.
Proof.
  intros Hs Hi. destruct st as [vals h]. intros (Ev & Ep & Hh). cbn [fst snd] in *.
  unfold zlen in Hi. set (n := Z.to_nat i) in *. assert (n < length l)%nat as Hn by lia.
  destruct (lookup_lt_is_Some_2 l n Hn) as [v Hv].
  assert (vals !! n = Some v) as Hvn.
  { subst vals. rewrite lookup_app_r by (rewrite length_fmap, length_take; lia).
    rewrite length_fmap, length_take, lookup_drop. rewrite <- Hv. f_equal. lia. }
  assert (same_ids vals l) as Hids by (subst vals; apply raised_ids).
  assert (length vals = length l) as Hlen by (by apply same_ids_length).
  unfold ValidatorSet.raisePush. rewrite (proj2 (slice_get_Ret vals i v)) by (split; [lia|done]).
  cbn [obind]. fold (raise (i64 times) v). rewrite slice_set_in by (unfold zlen; lia). cbn [obind]. fold n.
  set (vals' := <[n := raise (i64 times) v]> vals).
  assert (same_ids vals' vals) as Hids' by (by apply (same_ids_insert vals n v)).
  assert (length vals' = length l) as Hlen' by (unfold vals'; by rewrite length_insert).
  destruct (idx_push vals' h n) as (h' & -> & Ep' & Hh').
  - eapply same_ids_increasing; [symmetry; etrans; [exact Hids'|exact Hids]|done].
  - apply (heap_ok_seq _ _ (S n)); [|lia]. by rewrite Ep, seq_S.
  - intros k Hk x y Hx Hy. unfold vals'.
    pose proof (heap_elem h n _ x Ep Hx). pose proof (heap_elem h n _ y Ep Hy).
    rewrite idx_beats_insert by lia. by apply (Hh k Hk).
  - exists (vals', h'). split; [done|]. unfold raised_inv. cbn [fst snd].
    replace (Z.to_nat (i + 1)) with (S n) by lia. split_and!; [|by rewrite Ep', Ep, seq_S|done].
    unfold vals'. subst vals. rewrite (take_S_r l n v Hv), fmap_app, <- app_assoc. cbn.
    rewrite insert_app_r_alt by (rewrite length_fmap, length_take; lia).
    rewrite length_fmap, length_take. replace (n - n `min` length l)%nat with 0%nat by lia.
    f_equal. by rewrite (drop_S l v n Hv).
Qed.
Lemma raise_loop times s : sorted s -> exists h,
  for_loop 0 (zlen (ValidatorSet.Validators s)) (ValidatorSet.raisePush times)
    (ValidatorSet.Validators s, []) = Ret (raise (i64 times) <$> ValidatorSet.Validators s, h) /\
  h ≡ₚ seq 0 (length (ValidatorSet.Validators s)) /\
  is_heap (idx_beats (raise (i64 times) <$> ValidatorSet.Validators s)) h.
Proof.
  intros Hs. set (l := ValidatorSet.Validators s) in *.
  destruct (for_loop_inv (raised_inv times l) (ValidatorSet.raisePush times) 0 (zlen l) (l, []))
    as ([vals h] & E & Ev & Ep & Hh).
  - apply zlen_nonneg.
  - split_and!; [done|done|]. intros k Hk x y Hx. done.
  - intros i st. by apply raisePush_step.
  - cbn [fst snd] in *. unfold zlen in Ev, Ep. rewrite Nat2Z.id in Ev, Ep.
    rewrite take_ge, drop_ge, app_nil_r in Ev by lia. subst vals. eauto.
Qed.

Definition total s : Z := fst (ValidatorSet.TotalVotingPower s).

(** The total does not depend on accumulators, nor on whether it is cached. *)
Lemma total_stable s l p t : same_ids l (ValidatorSet.Validators s) ->
  t = ValidatorSet.totalVotingPower s \/ t = total s -> total (ValidatorSet.mk L l p t) = total s.
Proof.
  intros Hids Ht. unfold total, ValidatorSet.TotalVotingPower in *. cbn [fst ValidatorSet.totalVotingPower ValidatorSet.Validators] in *.
  destruct Ht as [->| ->]; destruct (Z.eqb_spec (ValidatorSet.totalVotingPower s) 0) as [E|E]; try done.
  - by apply same_ids_sumPowers.
  - destruct (Z.eqb_spec (ValidatorSet.sumPowers (ValidatorSet.Validators s) (ValidatorSet.totalVotingPower s)) 0) as [E'|E'];
      [|done].
    rewrite E', <- E' at 1. rewrite E in *. rewrite (same_ids_sumPowers _ _ _ Hids). by rewrite E'.
  - by destruct (Z.eqb_spec (ValidatorSet.totalVotingPower s) 0).
Qed.

(** Invariant of the second loop, [i] picks done. *)
Definition lowered_inv (times : Z) s0 l0 (i : Z) (st : ValidatorSet.t * list nat) : Prop :=
  exists p, picks (total s0) (Z.to_nat i) l0 (ValidatorSet.Validators st.1) p /\
    ValidatorSet.Proposer st.1 = (if (0 <? i) && (i =? times) then p else ValidatorSet.Proposer s0) /\
    total st.1 = total s0 /\
    st.2 ≡ₚ seq 0 (length l0) /\
    (i < times -> is_heap (idx_beats (ValidatorSet.Validators st.1)) st.2).

(** The root of the heap of all indices is the best validator. *)
Lemma heap_is_top l m h : increasing l -> m :: h ≡ₚ seq 0 (length l) ->
  is_heap (idx_beats l) (m :: h) -> exists v, is_top l m v.
Proof.
  intros Hs Ep Hh. pose proof (heap_elem (m :: h) _ 0 m Ep eq_refl) as Hm.
  destruct (lookup_lt_is_Some_2 l m Hm) as [v Hv]. exists v. split; [done|]. intros j w Hw.
  assert (j ∈ m :: h) as Hj. { rewrite Ep. apply elem_of_seq. apply lookup_lt_Some in Hw. lia. }
  apply list_elem_of_lookup in Hj as [k Hk].
  pose proof (heap_root (idx_beats l) (below l) (fun x y _ _ => idx_beats_asym l x y)
    (idx_beats_trans l) (m :: h) m) as Hroot.
  specialize (Hroot (proj2 (heap_ok_seq l _ _ Ep ltac:(lia))) Hh eq_refl k j Hk).
  unfold idx_beats in Hroot. by rewrite Hv, Hw in Hroot.
Qed.

Lemma lowerTop_step times s0 l0 i st : increasing l0 -> same_ids l0 (ValidatorSet.Validators s0) ->
  l0 <> [] -> 0 <= i < i64 times -> lowered_inv (i64 times) s0 l0 i st ->
  exists st', ValidatorSet.lowerTop times i st = Ret st' /\ lowered_inv (i64 times) s0 l0 (i + 1) st'.
Proof.
  intros Hs Hids0 Hne Hi. destruct st as [s h]. intros (p & Hp & Epr & Et & Ep & Hh). cbn [fst snd] in *.
  pose proof (picks_ids _ _ _ _ _ Hp) as Hids.
  pose proof (same_ids_increasing _ _ Hids Hs) as Hsl. pose proof (same_ids_length _ _ Hids) as Hlen.
  destruct h as [|m h].
  { apply Permutation_nil_l in Ep. by destruct l0. }
  unfold ValidatorSet.lowerTop. rewrite Hlen in Ep.
  destruct (heap_is_top _ m h Hsl Ep (Hh ltac:(lia))) as (v & Htop). destruct (Htop) as [Hv Hbest].
  rewrite (slice_get_nat _ m v Hv). cbn [obind].
  assert (ValidatorSet.TotalVotingPower s = (total s0, ValidatorSet.mk L (ValidatorSet.Validators s)
    (ValidatorSet.Proposer s) (total s0))) as -> by (by rewrite <- Et).
  cbn [ValidatorSet.Validators ValidatorSet.Proposer ValidatorSet.totalVotingPower].
  fold (lower (total s0) v). apply lookup_lt_Some in Hv as Hm.
  rewrite slice_set_in by (unfold zlen; lia). cbn [obind]. rewrite Nat2Z.id.
  set (vals' := <[m := lower (total s0) v]> (ValidatorSet.Validators s)).
  assert (picks (total s0) (Z.to_nat (i + 1)) l0 vals' (Some (lower (total s0) v))) as Hp'.
  { replace (Z.to_nat (i + 1)) with (S (Z.to_nat i)) by lia. by eapply picks_S. }
  pose proof (picks_ids _ _ _ _ _ Hp') as Hids'.
  assert (forall pr, total (ValidatorSet.mk L vals' pr (total s0)) = total s0) as Ht'.
  { intros pr. apply total_stable; [|by right]. by rewrite <- Hids'. }
  destruct (Z.eqb_spec i (i64 times - 1)) as [El|El].
  - eexists. split; [done|]. exists (Some (lower (total s0) v)). cbn [fst snd ValidatorSet.Validators ValidatorSet.Proposer].
    split_and!; [done| |done|by rewrite Ep, Hlen|lia].
    by rewrite (proj2 (Z.ltb_lt 0 (i + 1))), (proj2 (Z.eqb_eq (i + 1) (i64 times))) by lia.
  - destruct (idx_fix vals' (m :: h)) as (h' & -> & Ep' & Hh').
    + by eapply same_ids_increasing.
    + apply (heap_ok_seq _ _ _ Ep). unfold vals'. rewrite length_insert. lia.
    + simpl. lia.
    + intros k Hk Hpk x y Hx Hy. unfold vals'.
      assert (NoDup (m :: h)) as Hnd by (rewrite Ep; apply NoDup_seq).
      assert (x <> m) by (intros ->; apply Hpk; by apply (NoDup_lookup (m :: h) (parent k) 0 m)).
      assert (y <> m) by (intros ->; pose proof (NoDup_lookup (m :: h) k 0 m Hnd Hy eq_refl); lia).
      rewrite idx_beats_insert by done. by apply (Hh ltac:(lia) k Hk).
    + cbn [obind]. eexists. split; [done|]. exists (Some (lower (total s0) v)).
      cbn [fst snd ValidatorSet.Validators ValidatorSet.Proposer].
      split_and!; [done| |done|by rewrite Ep', Ep, Hlen|done].
      rewrite (proj2 (Z.eqb_neq (i + 1) (i64 times))), andb_false_r by lia.
      rewrite Epr. by rewrite (proj2 (Z.eqb_neq i (i64 times))), andb_false_r by lia.
Qed.

(** The whole of [IncrementAccum]. *)
Lemma IncrementAccum_picks s times : sorted s -> ValidatorSet.Validators s <> [] ->
  0 <= times < two63 -> exists s' p,
    ValidatorSet.IncrementAccum s times = Ret s' /\
    picks (total s) (Z.to_nat times) (raise times <$> ValidatorSet.Validators s)
      (ValidatorSet.Validators s') p /\
    ValidatorSet.Proposer s' = (if 0 <? times then p else ValidatorSet.Proposer s) /\
    total s' = total s.
Proof.
  intros Hs Hne Ht. unfold ValidatorSet.IncrementAccum.
  destruct (raise_loop times s Hs) as (h & -> & Ep & Hh). cbn [obind].
  rewrite (i64_of_small_u64 times Ht) in *. set (l0 := raise times <$> ValidatorSet.Validators s) in *.
  assert (same_ids l0 (ValidatorSet.Validators s)) as Hids0.
  { unfold same_ids, l0. by rewrite <- list_fmap_compose. }
  assert (length l0 = length (ValidatorSet.Validators s)) as Hlen by apply length_fmap.
  destruct (for_loop_inv (lowered_inv times s l0) (ValidatorSet.lowerTop times) 0 times
    (ValidatorSet.mk L l0 (ValidatorSet.Proposer s) (ValidatorSet.totalVotingPower s), h))
    as ([s' h'] & -> & p & Hp & Epr & Et & _).
  - lia.
  - exists None. cbn [fst snd]. split_and!; [apply picks_0|done| |by rewrite Hlen|done].
    apply total_stable; [done|by left].
  - intros i st Hi. pose proof (lowerTop_step times s l0 i st) as Hstep.
    rewrite (i64_of_small_u64 times Ht) in Hstep. apply Hstep; [|done| |done].
    + eapply same_ids_increasing; [by symmetry|done].
    + intros E. apply Hne. apply (f_equal length) in E. rewrite Hlen in E. by apply nil_length_inv.
  - exists s', p. cbn [fst snd obind] in *. split_and!; try done.
    rewrite Epr. by rewrite Z.eqb_refl, andb_true_r.
Qed.
End HeapRotation.

(** ** [findProposer] finds the same validator *)

Section FindProposer.
Context {L : Lib}.
Implicit Types (s : ValidatorSet.t) (v w : Validator.t) (l : list Validator.t).

Lemma is_top_snoc l m v w : is_top l m v -> Validator.Address w <> Validator.Address v ->
  if beats v w then is_top (l ++ [w]) m v else is_top (l ++ [w]) (length l) w.
Proof.
  intros [Hv Hb] Ha. destruct (beats v w) eqn:E; split.
  - by apply lookup_app_l_Some.
  - intros j x [Hx|[_ Hx]]%lookup_app_Some; [by eapply Hb|].
    apply list_lookup_singleton_Some in Hx as [_ <-]. by apply beats_asym.
  - by rewrite lookup_app_r, Nat.sub_diag by lia.
  - intros j x [Hx|[_ Hx]]%lookup_app_Some.
    + apply (beats_trans w v x); [by rewrite E|by eapply Hb].
    + apply list_lookup_singleton_Some in Hx as [_ <-]. unfold beats, accum_compare.
      by rewrite Z.compare_refl, bytes_compare_refl.
Qed.

Lemma findProposer_fold l : increasing l -> l <> [] -> exists m v,
  foldl ValidatorSet.findProposerStep (Ret None) l = Ret (Some v) /\ is_top l m v.
Proof.
  induction l as [|w l IH] using rev_ind; [done|]. intros Hs _. rewrite foldl_app. cbn [foldl].
  apply increasing_app in Hs as (Hs & _ & Hlt). destruct (decide (l = [])) as [->|Hne].
  - exists 0%nat, w. split; [done|]. split; [done|]. intros j x Hx.
    apply list_lookup_singleton_Some in Hx as [_ <-]. unfold beats, accum_compare.
    by rewrite Z.compare_refl, bytes_compare_refl.
  - destruct (IH Hs Hne) as (m & v & -> & Htop). cbn [ValidatorSet.findProposerStep obind].
    assert (addr_lt v w) as Hvw.
    { apply Hlt; [|set_solver]. destruct Htop as [Hv _]. by eapply list_elem_of_lookup_2. }
    assert (Validator.Address w <> Validator.Address v) as Ha.
    { intros E. unfold addr_lt in Hvw. by rewrite E, bytes_compare_refl in Hvw. }
    rewrite (proj2 (bytes_equal_false _ _) Ha). cbn [negb].
    rewrite CompareAccum_beats by done. cbn [obind]. pose proof (is_top_snoc l m v w Htop Ha) as Hsn.
    destruct (beats v w); eauto.
Qed.
End FindProposer.

(** ** Fairness of the rotation *)

Section Fairness.
Context {L : Lib}.
Implicit Types (s : ValidatorSet.t) (v w : Validator.t) (l : list Validator.t).

Definition powers l : Z := zsum_with Validator.VotingPower l.
Definition accums l : Z := zsum_with Validator.Accum l.

(** Non-negative powers whose total, times the number of validators, fits. *)
Definition sized l : Prop :=
  (forall v, v ∈ l -> 0 <= Validator.VotingPower v) /\ 0 < powers l /\ zlen l * powers l <= max_i64.

(** The accumulators are balanced: they sum to zero and none is at or below
    minus the total. *)
Definition balanced l : Prop :=
  accums l = 0 /\ forall v, v ∈ l -> - powers l < Validator.Accum v.

(** The cached total is absent or right. *)
Definition cache_ok s : Prop :=
  ValidatorSet.totalVotingPower s = 0 \/
  ValidatorSet.totalVotingPower s = powers (ValidatorSet.Validators s).

Lemma powers_cons v l : powers (v :: l) = Validator.VotingPower v + powers l.
Proof. done. Qed.

Lemma sumPowers_exact l acc : (forall v, v ∈ l -> 0 <= Validator.VotingPower v) ->
  0 <= acc -> acc + powers l <= max_i64 -> ValidatorSet.sumPowers l acc = acc + powers l.
Proof.
  revert acc. induction l as [|v l IH]; intros acc Hp Ha Hm; simpl; [unfold powers; simpl; lia|].
  rewrite powers_cons in *. pose proof (Hp v ltac:(set_solver)).
  assert (0 <= powers l) by (apply zsum_nonneg; set_solver).
  assert (in_i64 acc /\ in_i64 (Validator.VotingPower v) /\ in_i64 (acc + Validator.VotingPower v)) as (H1 & H2 & H3).
  { unfold in_i64, min_i64, max_i64 in *. lia. }
  rewrite safeAddClip_spec, clip_id by done.
  change (ValidatorSet.sumPowers l (acc + Validator.VotingPower v)
    = acc + (Validator.VotingPower v + powers l)).
  rewrite IH; [lia|set_solver|lia|lia].
Qed.

Lemma total_powers s : sized (ValidatorSet.Validators s) -> cache_ok s ->
  total s = powers (ValidatorSet.Validators s).
Proof.
  intros (Hp & H0 & Hm) Hc. unfold total, ValidatorSet.TotalVotingPower. cbn [fst].
  assert (powers (ValidatorSet.Validators s) <= max_i64).
  { unfold zlen in Hm. destruct (ValidatorSet.Validators s); [done|]. simpl length in Hm. nia. }
  destruct (Z.eqb_spec (ValidatorSet.totalVotingPower s) 0) as [->|]; [|by destruct Hc].
  rewrite sumPowers_exact by (done || lia). lia.
Qed.

Lemma accums_bound l v : balanced l -> 0 < powers l -> v ∈ l ->
  Validator.Accum v <= (zlen l - 1) * powers l.
Proof.
  intros [Hz Hb] HP [i Hi]%list_elem_of_lookup.
  pose proof (take_drop_middle l i v Hi) as E.
  assert (forall l', (forall w, w ∈ l' -> - powers l < Validator.Accum w) ->
    - (zlen l' * powers l) <= accums l') as Hlow.
  { clear -HP. induction l' as [|w l' IH]; intros H; [done|].
    pose proof (H w ltac:(set_solver)). pose proof (IH ltac:(set_solver)).
    unfold zlen, accums, zsum_with in *. simpl length. simpl foldr. nia. }
  pose proof (Hlow (take i l)) as H1. pose proof (Hlow (drop (S i) l)) as H2.
  assert (accums (take i l) + (Validator.Accum v + accums (drop (S i) l)) = 0) as Hs.
  { rewrite <- Hz. rewrite <- E at 3. unfold accums. rewrite zsum_app. done. }
  assert (zlen (take i l) + zlen (drop (S i) l) = zlen l - 1) as Hlen.
  { rewrite <- E at 3. unfold zlen. rewrite length_app. simpl. lia. }
  specialize (H1 (fun w Hw => Hb w (subseteq_take i l w Hw))).
  specialize (H2 (fun w Hw => Hb w (subseteq_drop (S i) l w Hw))). nia.
Qed.

Definition raised_by v : Validator.t := Validator.set_Accum v (Validator.Accum v + Validator.VotingPower v).

Lemma power_le l v : sized l -> v ∈ l -> 0 <= Validator.VotingPower v <= powers l.
Proof.
  intros (Hp & _ & _) Hv. split; [auto|]. apply list_elem_of_lookup in Hv as [i Hi].
  by eapply (zsum_lookup_le Validator.VotingPower l i v).
Qed.

Lemma accum_fits l v : sized l -> balanced l -> v ∈ l ->
  in_i64 (Validator.VotingPower v) /\ in_i64 (Validator.Accum v) /\ in_i64 (powers l) /\
  - powers l < Validator.Accum v + Validator.VotingPower v <= max_i64.
Proof.
  intros Hsz Hb Hv. pose proof (power_le l v Hsz Hv) as Hp. destruct Hsz as (_ & HP & Hm).
  pose proof (accums_bound l v Hb HP Hv). destruct Hb as [_ Hb]. pose proof (Hb v Hv).
  assert (1 <= zlen l) as Hn by (unfold zlen; destruct l; [set_solver|simpl; lia]).
  assert (powers l <= zlen l * powers l) by nia.
  unfold in_i64, min_i64, max_i64 in *. lia.
Qed.

(** No clipping on a balanced set. *)
Lemma raise_exact l v : sized l -> balanced l -> v ∈ l -> raise 1 v = raised_by v.
Proof.
  intros Hsz Hb Hv. destruct (accum_fits l v Hsz Hb Hv) as (H1 & H2 & H3 & H4). unfold raise, raised_by.
  rewrite safeMulClip_spec, Z.mul_1_r, clip_id by (done || by_decide).
  rewrite safeAddClip_spec, clip_id by (done || (unfold in_i64, min_i64, max_i64 in *; lia)). done.
Qed.

Lemma raise_all_exact l : sized l -> balanced l -> raise 1 <$> l = raised_by <$> l.
Proof. intros Hsz Hb. apply list_fmap_ext. intros i v Hv. eapply raise_exact; [done|done|by eapply list_elem_of_lookup_2]. Qed.

Lemma accums_raised l : accums (raised_by <$> l) = accums l + powers l.
Proof. unfold accums, powers. rewrite zsum_fmap. apply (zsum_add Validator.Accum). Qed.

(** The best of the raised validators has a positive accumulator. *)
Lemma top_positive l m v : sized l -> balanced l -> is_top (raised_by <$> l) m v -> 0 < Validator.Accum v.
Proof.
  intros (_ & HP & _) [Hz _] [Hv Htop]. destruct (Z.ltb_spec 0 (Validator.Accum v)) as [|Hle]; [done|].
  exfalso. assert (accums (raised_by <$> l) <= 0); [|rewrite accums_raised in *; lia].
  unfold accums. transitivity (zsum_with (fun _ : Validator.t => 0) (raised_by <$> l)).
  - apply zsum_mono. intros w [j Hw]%list_elem_of_lookup. specialize (Htop j w Hw).
    unfold beats, accum_compare in Htop.
    destruct (Z.compare_spec (Validator.Accum v) (Validator.Accum w)); (lia || done).
  - by rewrite zsum_zero.
Qed.

Lemma same_ids_powers l l' : same_ids l l' -> powers l = powers l'.
Proof.
  revert l'. unfold same_ids. induction l as [|v l IH]; intros [|w l'] E; try done.
  cbn in E. injection E as _ _ E1 E. rewrite !powers_cons, E1. by rewrite (IH l').
Qed.

Lemma same_ids_sized l l' : same_ids l l' -> sized l -> sized l'.
Proof.
  intros E (Hp & H0 & Hm). pose proof (same_ids_powers _ _ E) as EP. pose proof (same_ids_length _ _ E) as El.
  split_and!; [|lia|unfold zlen in *; by rewrite <- El, <- EP].
  intros v [i Hi]%list_elem_of_lookup.
  assert ((ident <$> l) !! i = Some (ident v)) as Ek by (by rewrite E, list_lookup_fmap, Hi).
  rewrite list_lookup_fmap in Ek. destruct (l !! i) as [w|] eqn:Ew; [|done].
  simpl in Ek. unfold ident in Ek. simplify_eq. assert (0 <= Validator.VotingPower w); [|congruence].
  apply Hp. by eapply list_elem_of_lookup_2.
Qed.

(** Raising everyone and lowering the best keeps the balance. *)
Lemma balanced_step l m v : sized l -> balanced l -> is_top (raised_by <$> l) m v ->
  lower (powers l) v = Validator.set_Accum v (Validator.Accum v - powers l) /\
  balanced (<[m := lower (powers l) v]> (raised_by <$> l)).
Proof.
  intros Hsz Hb Htop. pose proof (top_positive l m v Hsz Hb Htop) as Hpos.
  destruct Htop as [Hv _]. pose proof Hv as Hv0. rewrite list_lookup_fmap in Hv0.
  destruct (l !! m) as [u|] eqn:Hu; [|done]. simpl in Hv0. injection Hv0 as <-.
  apply list_elem_of_lookup_2 in Hu as Hin. destruct (accum_fits l u Hsz Hb Hin) as (H1 & H2 & H3 & H4).
  assert (lower (powers l) (raised_by u) = Validator.set_Accum (raised_by u)
    (Validator.Accum (raised_by u) - powers l)) as El.
  { destruct Hsz as (_ & HP & _). unfold lower. cbn [raised_by Validator.set_Accum Validator.Accum] in *.
    rewrite safeSubClip_spec, clip_id; [done|..]; try done; unfold in_i64, min_i64, max_i64 in *; lia. }
  split; [done|]. rewrite El. set (u' := Validator.set_Accum _ _).
  assert (same_ids (<[m := u']> (raised_by <$> l)) l) as Hids.
  { etrans; [by apply (same_ids_insert _ m (raised_by u))|]. unfold same_ids. by rewrite <- list_fmap_compose. }
  unfold balanced. rewrite (same_ids_powers _ _ Hids). split.
  - unfold accums. rewrite (zsum_insert _ _ _ _ _ Hv). fold (accums (raised_by <$> l)).
    rewrite accums_raised. destruct Hb as [-> _]. unfold u'. cbn. lia.
  - intros w [j Hw]%list_elem_of_lookup. apply list_lookup_insert_Some in Hw as [(_ & <- & _)|[_ Hw]].
    + unfold u'. cbn [Validator.set_Accum Validator.Accum]. lia.
    + rewrite list_lookup_fmap in Hw. destruct (l !! j) as [x|] eqn:Hx; [|done]. injection Hw as <-.
      apply list_elem_of_lookup_2 in Hx. by destruct (accum_fits l x Hsz Hb Hx) as (_ & _ & _ & ? & _).
Qed.
End Fairness.

(** ** Repeated rotation *)

Section Rotations.
Context {L : Lib}.
Implicit Types (s : ValidatorSet.t) (v w : Validator.t) (l : list Validator.t).

Definition rotation_ok s : Prop :=
  sorted s /\ sized (ValidatorSet.Validators s) /\ balanced (ValidatorSet.Validators s) /\ cache_ok s.

(** [k] calls of [IncrementAccum(1)] and the addresses of the proposers they set. *)
Fixpoint rotations (k : nat) s : outcome (ValidatorSet.t * list bytes) :=
  match k with
  | O => Ret (s, [])
  | S k' =>
      let! s1 := ValidatorSet.IncrementAccum s 1 in
      let! (s2, ps) := rotations k' s1 in
      Ret (s2, match ValidatorSet.Proposer s1 with
               | Some p => Validator.Address p :: ps
               | None => ps
               end)
  end.

(** How often an address is among them. *)
Fixpoint times_chosen (a : bytes) (ps : list bytes) : Z :=
  match ps with
  | [] => 0
  | b :: ps' => (if bytes_equal b a then 1 else 0) + times_chosen a ps'
  end.

Lemma rotation_step s : rotation_ok s -> exists s' p,
  ValidatorSet.IncrementAccum s 1 = Ret s' /\ ValidatorSet.Proposer s' = Some p /\ rotation_ok s' /\
  same_ids (ValidatorSet.Validators s) (ValidatorSet.Validators s') /\
  forall i v, ValidatorSet.Validators s !! i = Some v -> exists v',
    ValidatorSet.Validators s' !! i = Some v' /\ ident v' = ident v /\
    Validator.Accum v' = Validator.Accum v + Validator.VotingPower v
      - (if bytes_equal (Validator.Address p) (Validator.Address v)
         then powers (ValidatorSet.Validators s) else 0).
Proof.
  intros (Hs & Hsz & Hb & Hc). set (l := ValidatorSet.Validators s) in *.
  assert (l <> []) as Hne. { intros E. destruct Hsz as (_ & HP & _). rewrite E in HP. unfold powers in HP. simpl in HP. lia. }
  destruct (IncrementAccum_picks s 1 Hs Hne) as (s' & p & E & Hp & Epr & Et); [by_decide|].
  fold l in Hp. rewrite (total_powers s Hsz Hc) in Hp, Et. fold l in Hp, Et. rewrite (raise_all_exact l Hsz Hb) in Hp.
  pose proof (picks_ids _ _ _ _ _ Hp) as Hids0. inv Hp. match goal with H : picks _ 0 _ _ _ |- _ => inv H end.
  match goal with H : is_top _ _ _ |- _ => rename H into Htop end.
  destruct (balanced_step l m v Hsz Hb Htop) as [El Hb'].
  assert (same_ids l (ValidatorSet.Validators s')) as Hids.
  { etrans; [|exact Hids0]. unfold same_ids. by rewrite <- list_fmap_compose. }
  pose proof (same_ids_powers _ _ Hids) as EP.
  exists s', (lower (powers l) v). split_and!; [done|done| |done|].
  - split_and!; [by eapply same_ids_increasing|by eapply same_ids_sized|congruence|].
    unfold cache_ok. rewrite <- EP, <- Et. unfold total, ValidatorSet.TotalVotingPower. cbn [fst].
    destruct (Z.eqb_spec (ValidatorSet.totalVotingPower s') 0); auto.
  - intros i u Hu. destruct Htop as [Hv _]. match goal with H : _ = ValidatorSet.Validators s' |- _ => rewrite <- H end.
    rewrite list_lookup_fmap in Hv. destruct (l !! m) as [x|] eqn:Hx; [|done]. injection Hv as <-.
    rewrite El. cbn [Validator.set_Accum raised_by Validator.Address].
    destruct (decide (i = m)) as [->|Him].
    + simplify_eq. rewrite list_lookup_insert_eq by (rewrite length_fmap; by eapply lookup_lt_Some).
      eexists. split_and!; [done|done|]. cbn. by rewrite (proj2 (bytes_equal_true _ _) eq_refl).
    + rewrite list_lookup_insert_ne, list_lookup_fmap, Hu by done. eexists. split_and!; [done|done|]. cbn.
      rewrite (proj2 (bytes_equal_false _ _)); [lia|]. intros Ea. apply Him.
      by apply (increasing_NoDup l i m u x).
Qed.

Lemma rotations_spec k s : rotation_ok s -> exists s' ps,
  rotations k s = Ret (s', ps) /\ length ps = k /\ rotation_ok s' /\
  same_ids (ValidatorSet.Validators s) (ValidatorSet.Validators s') /\
  forall i v, ValidatorSet.Validators s !! i = Some v -> exists v',
    ValidatorSet.Validators s' !! i = Some v' /\
    Validator.Accum v' = Validator.Accum v + Z.of_nat k * Validator.VotingPower v
      - times_chosen (Validator.Address v) ps * powers (ValidatorSet.Validators s).
Proof.
  revert s. induction k as [|k IH]; intros s Hok.
  - exists s, []. split_and!; try done. intros i v Hv. exists v. split; [done|]. simpl. lia.
  - destruct (rotation_step s Hok) as (s1 & p & E & Epr & Hok1 & Hids & Hacc).
    destruct (IH s1 Hok1) as (s2 & ps & E2 & Hlen & Hok2 & Hids2 & Hacc2).
    exists s2, (Validator.Address p :: ps). split_and!; [|simpl; by rewrite Hlen|done|by etrans|].
    + cbn [rotations]. rewrite E. cbn [obind]. by rewrite E2, Epr.
    + intros i v Hv. destruct (Hacc i v Hv) as (v1 & Hv1 & Ei & Ea).
      destruct (Hacc2 i v1 Hv1) as (v2 & Hv2 & Ea2). exists v2. split; [done|].
      unfold ident in Ei. injection Ei as Ei _ Ep. rewrite Ei, Ep, Ea in Ea2.
      rewrite <- (same_ids_powers _ _ Hids) in Ea2. cbn [times_chosen].
      destruct (bytes_equal (Validator.Address p) (Validator.Address v)); lia.
Qed.
End Rotations.

(** ** Voting weight *)

Section Weight.
Context {L : Lib}.
Implicit Types (s : ValidatorSet.t) (p q : nat -> bool).

Definition powerAt s (i : nat) : Z :=
  match ValidatorSet.Validators s !! i with Some v => Validator.VotingPower v | None => 0 end.

(** Power of the validators whose index satisfies a predicate. *)
Definition weight s p : Z :=
  zsum_with (fun i => if p i then powerAt s i else 0) (seq 0 (length (ValidatorSet.Validators s))).

(** Powers are not negative, twice their total fits in an [int64], and so does
    the number of validators, as Go's [len] does. *)
Definition quorate s : Prop :=
  (forall v, v ∈ ValidatorSet.Validators s -> 0 <= Validator.VotingPower v) /\
  2 * powers (ValidatorSet.Validators s) <= max_i64 /\ cache_ok s /\
  zlen (ValidatorSet.Validators s) <= max_i64.

Lemma powerAt_nonneg s i : quorate s -> 0 <= powerAt s i.
Proof.
  intros (Hp & _). unfold powerAt. destruct (ValidatorSet.Validators s !! i) eqn:E; [|done].
  apply Hp. by eapply list_elem_of_lookup_2.
Qed.

Lemma weight_all s : weight s (fun _ => true) = powers (ValidatorSet.Validators s).
Proof.
  unfold weight, powers, powerAt. induction (ValidatorSet.Validators s) as [|v l IH]; [done|].
  cbn [length seq]. rewrite <- seq_shift. change (List.map S (seq 0 (length l))) with (S <$> seq 0 (length l)).
  unfold zsum_with in *. cbn [foldr]. f_equal. rewrite <- IH.
  exact (zsum_fmap S (fun i => match (v :: l) !! i with Some v => Validator.VotingPower v | None => 0 end) (seq 0 (length l))).
Qed.

Lemma weight_mono s p q : quorate s -> (forall i, p i = true -> q i = true) -> weight s p <= weight s q.
Proof.
  intros Hq H. apply zsum_mono. intros i _. pose proof (powerAt_nonneg s i Hq).
  destruct (p i) eqn:E; [rewrite (H i E); lia|]. destruct (q i); lia.
Qed.

Lemma weight_ext s p q : (forall i, (i < length (ValidatorSet.Validators s))%nat -> p i = q i) ->
  weight s p = weight s q.
Proof. intros H. apply zsum_ext. intros i Hi%elem_of_seq. rewrite H by lia. done. Qed.

Lemma weight_nonneg s p : quorate s -> 0 <= weight s p.
Proof.
  intros Hq. apply zsum_nonneg. intros i _. pose proof (powerAt_nonneg s i Hq). destruct (p i); lia.
Qed.

Lemma weight_le_total s p : quorate s -> weight s p <= powers (ValidatorSet.Validators s).
Proof. intros Hq. rewrite <- weight_all. by apply weight_mono. Qed.

(** Inclusion and exclusion. *)
Lemma weight_union s p q : weight s p + weight s q
  = weight s (fun i => p i || q i) + weight s (fun i => p i && q i).
Proof.
  unfold weight. rewrite <- !zsum_add. apply zsum_ext. intros i _. destruct (p i), (q i); simpl; lia.
Qed.

(** Two sets with more than two thirds share more than a third. *)
Lemma weight_overlap s p q : quorate s ->
  2 * powers (ValidatorSet.Validators s) < 3 * weight s p ->
  2 * powers (ValidatorSet.Validators s) < 3 * weight s q ->
  powers (ValidatorSet.Validators s) < 3 * weight s (fun i => p i && q i).
Proof.
  intros Hq Hp Hq'. pose proof (weight_union s p q). pose proof (weight_le_total s (fun i => p i || q i) Hq). lia.
Qed.

(** One more validator adds its power. *)
Lemma weight_set s p i : p i = false -> (i < length (ValidatorSet.Validators s))%nat ->
  weight s (fun j => p j || (j =? i)%nat) = weight s p + powerAt s i.
Proof.
  intros Hp Hi. unfold weight.
  rewrite (zsum_ext _ (fun j => (if p j then powerAt s j else 0) + (if (j =? i)%nat then powerAt s j else 0))).
  2:{ intros j _. destruct (Nat.eqb_spec j i) as [->|]; [rewrite Hp; simpl; lia|].
      rewrite orb_false_r. lia. }
  rewrite zsum_add. f_equal. generalize (length (ValidatorSet.Validators s)) Hi. clear Hi.
  intros n Hi. induction n as [|n IH]; [lia|].
  rewrite seq_S, zsum_app. unfold zsum_with at 2. simpl.
  destruct (Nat.eqb_spec n i) as [->|Hne]; [|rewrite IH by lia; lia].
  rewrite (zsum_ext _ (fun _ => 0)).
  - rewrite zsum_zero. lia.
  - intros j Hj%elem_of_seq. by destruct (Nat.eqb_spec j i); [lia|].
Qed.

Lemma total_quorate s : quorate s -> total s = powers (ValidatorSet.Validators s).
Proof.
  intros (Hp & Hm & Hc & Hl). unfold total, ValidatorSet.TotalVotingPower. cbn [fst].
  pose proof (zsum_nonneg Validator.VotingPower _ Hp) as H0. fold (powers (ValidatorSet.Validators s)) in H0.
  destruct (Z.eqb_spec (ValidatorSet.totalVotingPower s) 0) as [->|]; [|by destruct Hc].
  rewrite sumPowers_exact; [lia|done|lia|lia].
Qed.

(** Without overflow the threshold is two thirds, rounded down. *)
Lemma twoThirds_spec t x : 0 <= t -> 2 * t <= max_i64 ->
  ValidatorSet.twoThirds t < x <-> 2 * t < 3 * x.
Proof.
  intros H0 Hm. unfold ValidatorSet.twoThirds. rewrite i64_id by (unfold in_i64, min_i64, max_i64 in *; lia).
  rewrite Z.quot_div_nonneg by lia. pose proof (Z.div_mod (t * 2) 3 ltac:(lia)).
  pose proof (Z.mod_pos_bound (t * 2) 3 ltac:(lia)). lia.
Qed.

Lemma TotalVotingPower_quorate s : quorate s -> exists s',
  ValidatorSet.TotalVotingPower s = (powers (ValidatorSet.Validators s), s') /\
  ValidatorSet.Validators s' = ValidatorSet.Validators s /\ quorate s'.
Proof.
  intros Hq. rewrite <- (total_quorate s Hq). eexists. split; [done|]. split; [done|].
  pose proof Hq as (Hp & Hm & Hc & Hl). split_and!; try done. right.
  change (total s = powers (ValidatorSet.Validators s)). by apply total_quorate.
Qed.
End Weight.

(** ** Commit verification *)

Section VerifyCommit.
Context {L : Lib} {HL : LibLaws L}.
Implicit Types (s : ValidatorSet.t) (b : BlockID.t) (c : Commit.t).

(** The precommit of a slot counts for a block. *)
Definition counts b (ov : option Vote.t) : bool :=
  match ov with
  | Some pc => BlockID.Equals b (Vote.BlockID pc) && (Vote.Result pc =? VoteAgree)
  | None => false
  end.

Definition signer b c (i : nat) : bool :=
  match Commit.Precommits c !! i with Some ov => counts b ov | None => false end.

(** A slot is empty or holds a precommit of the height and round signed by the
    validator of that index. *)
Definition precommit_ok s chainID height round (i : nat) (ov : option Vote.t) : Prop :=
  match ov with
  | None => True
  | Some pc =>
      Vote.Height pc = height /\ i64 (Vote.Round pc) = round /\ Vote.Type_ pc = VoteTypePrecommit /\
      exists v sb, ValidatorSet.Validators s !! i = Some v /\ VoteSignBytes chainID pc = Ret sb /\
        VerifyBytes (Validator.PubKey v) sb (Vote.Signature pc) = true
  end.

Definition commit_ok s chainID height round c : Prop :=
  forall i ov, Commit.Precommits c !! i = Some ov -> precommit_ok s chainID height round i ov.

Lemma GetByIndex_nat s (i : nat) v : ValidatorSet.Validators s !! i = Some v ->
  ValidatorSet.GetByIndex s (Z.of_nat i) = Some (Validator.Address v, v).
Proof.
  intros Hv. unfold ValidatorSet.GetByIndex. apply lookup_lt_Some in Hv as Hl. unfold zlen.
  rewrite (proj2 (Z.ltb_ge (Z.of_nat i) 0)), (proj2 (Z.leb_gt _ (Z.of_nat i))) by lia. cbn [orb].
  by rewrite Nat2Z.id, Hv.
Qed.

Lemma powerAt_lookup s i v : ValidatorSet.Validators s !! i = Some v -> powerAt s i = Validator.VotingPower v.
Proof. intros H. unfold powerAt. by rewrite H. Qed.

(** One slot: the tally grows by its power when it counts, and a bad precommit
    ends the loop. *)
Lemma verifyPrecommit_spec s chainID b height round i ov t : quorate s ->
  (i < length (ValidatorSet.Validators s))%nat ->
  0 <= t -> t + powerAt s i <= max_i64 -> exists r,
  ValidatorSet.verifyPrecommit s chainID b height round (Z.of_nat i) ov t = Ret r /\
  forall t', r = inr t' <-> precommit_ok s chainID height round i ov /\
    t' = t + (if counts b ov then powerAt s i else 0).
Proof.
  intros Hq Hi Ht Hm. destruct (lookup_lt_is_Some_2 _ _ Hi) as [v Hv].
  pose proof (powerAt_nonneg s i Hq) as Hp. rewrite (powerAt_lookup s i v Hv) in *.
  assert (u64 (Z.of_nat i) = Z.of_nat i) as Eu.
  { apply u64_id. destruct Hq as (_ & _ & _ & Hl). unfold in_u64, two64, zlen, max_i64 in *. lia. }
  destruct ov as [pc|]; simpl; [|eexists; split; [done|]; intros t'; split; [by intros [= ->]; split; [|lia]|intros [_ ->]; f_equal; lia]].
  destruct (Z.eqb_spec (Vote.Height pc) height); simpl; [|eexists; split; [done|]; naive_solver].
  destruct (Z.eqb_spec (i64 (Vote.Round pc)) round); simpl; [|eexists; split; [done|]; naive_solver].
  destruct (Z.eqb_spec (Vote.Type_ pc) VoteTypePrecommit); simpl; [|eexists; split; [done|]; naive_solver].
  rewrite Eu, (GetByIndex_nat s i v Hv). destruct (VoteSignBytes_total chainID pc) as [sb Hsb]. rewrite Hsb.
  cbn [obind]. destruct (VerifyBytes (Validator.PubKey v) sb (Vote.Signature pc)) eqn:Es; simpl.
  2:{ eexists. split; [done|]. intros t'. split; [done|]. intros [(_ & _ & _ & v' & sb' & Hv' & Hsb' & Es') _]. congruence. }
  destruct (BlockID.Equals b (Vote.BlockID pc)); simpl;
    [destruct (Vote.Result pc =? VoteAgree)|]; (eexists; split; [done|]); intros t';
    [rewrite i64_id by (unfold in_i64, min_i64, max_i64 in *; lia)|rewrite Z.add_0_r..];
    (split; [intros [= <-]; split; [|done]; eauto 10|by intros [_ ->]]).
Qed.

(** Power of the counting slots from [i] on. *)
Definition tallyFrom s b (i : nat) (l : list (option Vote.t)) : Z :=
  zsum_with (fun jo => if counts b (jo.2) then powerAt s (jo.1) else 0) (zip (seq i (length l)) l).

Lemma verify_loop s chainID b height round l i t : quorate s ->
  (i + length l = length (ValidatorSet.Validators s))%nat ->
  0 <= t -> t + zsum_with (powerAt s) (seq i (length l)) <= max_i64 -> exists r,
  rangeM (ValidatorSet.verifyPrecommit s chainID b height round) (Z.of_nat i) l t = Ret r /\
  forall t', r = inr t' <->
    (forall k ov, l !! k = Some ov -> precommit_ok s chainID height round (i + k) ov) /\
    t' = t + tallyFrom s b i l.
Proof.
  intros Hq. revert i t. induction l as [|ov l IH]; intros i t Hlen Ht Hm.
  - eexists. split; [done|]. intros t'. unfold tallyFrom. simpl. rewrite Z.add_0_r.
    split; [intros [= ->]; split; [|done]; by intros k ov|by intros [_ ->]].
  - cbn [rangeM]. cbn [length seq] in *. unfold zsum_with in Hm. simpl foldr in Hm.
    assert (forall j, 0 <= powerAt s j) as Hp by (intros; by apply powerAt_nonneg).
    pose proof (zsum_nonneg (powerAt s) (seq (S i) (length l)) (fun j _ => Hp j)) as Hr. unfold zsum_with in Hr.
    destruct (verifyPrecommit_spec s chainID b height round i ov t Hq) as (r & -> & Hspec); [lia|lia|lia|].
    cbn [obind]. assert (tallyFrom s b i (ov :: l) = (if counts b ov then powerAt s i else 0) + tallyFrom s b (S i) l) as Et by done.
    destruct r as [e|t1].
    + eexists. split; [done|]. intros t'. split; [done|]. intros [Hall _].
      exfalso. specialize (Hall 0%nat ov eq_refl). rewrite Nat.add_0_r in Hall.
      by destruct (Hspec (t + (if counts b ov then powerAt s i else 0))) as [_ H]; specialize (H (conj Hall eq_refl)).
    + destruct (proj1 (Hspec t1) eq_refl) as [Hok Et1].
      replace (Z.of_nat i + 1) with (Z.of_nat (S i)) by lia. specialize (Hp i) as Hpi.
      destruct (IH (S i) t1) as (r & -> & Hr2); [lia|destruct (counts b ov); lia|unfold zsum_with; destruct (counts b ov); lia|].
      eexists. split; [done|]. intros t'. rewrite Hr2, Et, Et1. split.
      * intros [Hall ->]. split; [|lia]. intros [|k] ov'; simpl.
        -- intros [= <-]. by rewrite Nat.add_0_r.
        -- intros Hk. rewrite Nat.add_succ_r. by apply (Hall k).
      * intros [Hall ->]. split; [|lia]. intros k ov' Hk. specialize (Hall (S k) ov' Hk).
        by rewrite Nat.add_succ_r in Hall.
Qed.

Lemma tallyFrom_weight s b c : length (Commit.Precommits c) = length (ValidatorSet.Validators s) ->
  tallyFrom s b 0 (Commit.Precommits c) = weight s (signer b c).
Proof.
  intros Hlen. unfold tallyFrom, weight, signer. rewrite <- Hlen. clear Hlen.
  enough (forall l i, zsum_with (fun jo => if counts b (jo.2) then powerAt s (jo.1) else 0) (zip (seq i (length l)) l)
    = zsum_with (fun j => if match l !! (j - i)%nat with Some ov => counts b ov | None => false end then powerAt s j else 0) (seq i (length l))) as H.
  { rewrite (H _ 0%nat). apply zsum_ext. intros j _. by rewrite Nat.sub_0_r. }
  intros l. induction l as [|ov l IH]; intros i; [done|]. cbn [length seq zip zip_with].
  unfold zsum_with in *. simpl foldr. rewrite IH. rewrite Nat.sub_diag. f_equal.
  apply (zsum_ext (A := nat)). intros j Hj%elem_of_seq. by replace (j - i)%nat with (S (j - S i)) by lia.
Qed.

Lemma Commit_Round_total c : exists h r, Commit.Height c = Ret h /\ Commit.Round c = Ret r.
Proof.
  unfold Commit.Height, Commit.Round, Commit.FirstPrecommit. destruct (Commit.Precommits c) as [|o l]; [eauto|].
  destruct (zlen (o :: l) =? 0); [eauto|]. destruct (Commit.firstSome (o :: l)); eauto.
Qed.

(** [VerifyCommit] on every branch. *)
Lemma VerifyCommit_spec s chainID b height c : quorate s -> exists r s',
  ValidatorSet.VerifyCommit s chainID b height c = Ret (r, s') /\
  (r = None <-> length (Commit.Precommits c) = length (ValidatorSet.Validators s) /\
    exists round, Commit.Height c = Ret height /\ Commit.Round c = Ret round /\
      commit_ok s chainID height round c /\
      2 * powers (ValidatorSet.Validators s) < 3 * weight s (signer b c)).
Proof.
  intros Hq. unfold ValidatorSet.VerifyCommit, ValidatorSet.Size, zlen.
  destruct (Z.eqb_spec (Z.of_nat (length (ValidatorSet.Validators s))) (Z.of_nat (length (Commit.Precommits c)))) as [El|El];
    cbn [negb]; [|eexists _, _; split; [done|]; split; [done|]; lia].
  apply Nat2Z.inj in El. destruct (Commit_Round_total c) as (h & round & -> & ->). cbn [obind].
  destruct (Z.eqb_spec height h) as [<-|Hh]; cbn [negb];
    [|eexists _, _; split; [done|]; split; [done|]; intros (_ & r & [= E] & _); congruence].
  pose proof Hq as (Hp & Hm & _).
  assert (zsum_with (powerAt s) (seq 0 (length (ValidatorSet.Validators s)))
    = powers (ValidatorSet.Validators s)) as Hw by exact (weight_all s).
  pose proof (zsum_nonneg _ _ Hp) as H0. fold (powers (ValidatorSet.Validators s)) in H0.
  destruct (verify_loop s chainID b height round (Commit.Precommits c) 0 0 Hq) as (r & Er & Hr); [lia|lia|rewrite <- El; lia|].
  change (Z.of_nat 0) with 0 in Er. rewrite Er. cbn [obind].
  destruct r as [e|t]; cbn [obind].
  - eexists _, _. split; [done|]. split; [done|]. intros (_ & r & _ & [= <-] & Hok & _).
    exfalso. by specialize (proj2 (Hr (0 + tallyFrom s b 0 (Commit.Precommits c))) (conj Hok eq_refl)).
  - destruct (proj1 (Hr t) eq_refl) as [Hok ->]. rewrite Z.add_0_l, tallyFrom_weight by done.
    destruct (TotalVotingPower_quorate s Hq) as (s' & -> & _ & _).
    pose proof (twoThirds_spec (powers (ValidatorSet.Validators s)) (weight s (signer b c)) H0 Hm) as H23.
    destruct (Z.ltb_spec (ValidatorSet.twoThirds (powers (ValidatorSet.Validators s))) (weight s (signer b c)));
      eexists _, _; (split; [done|]).
    + split; [|done]. intros _. split; [done|]. exists round. split_and!; try done. by apply H23.
    + split; [done|]. intros (_ & r & _ & _ & _ & Hgt). apply H23 in Hgt. lia.
Qed.
End VerifyCommit.

(** ** Properties *)

Section Properties.
Context {L : Lib} {HL : LibLaws L}.

(** The saturating operations on [int64] never wrap around: [safeAddClip],
    [safeSubClip] and [safeMulClip] compute the exact result clipped to the
    range, for every pair of arguments. *)
Theorem clip_arithmetic a b : in_i64 a -> in_i64 b ->
  safeAddClip a b = clip (a + b) /\ safeSubClip a b = clip (a - b) /\ safeMulClip a b = clip (a * b).
Proof.
  intros Ha Hb. split_and!; [by apply safeAddClip_spec|by apply safeSubClip_spec|by apply safeMulClip_spec].
Qed.

(** A sorted validator set behaves as a finite map from addresses to
    validators.  [HasAddress] and [GetByAddress] look it up, [Add] inserts an
    absent address, [Update] replaces a present one and [Remove] deletes one; each
    keeps the set sorted and clears the cached proposer and total, and refuses,
    leaving the set as it is, when the address is in the wrong state. *)
Theorem set_ops_refine_map (s : ValidatorSet.t) (v : Validator.t) (a : bytes) : sorted s ->
  let m := lookupAddr (ValidatorSet.Validators s) in
  ValidatorSet.HasAddress s a = Ret (bool_decide (is_Some (m a))) /\
  match m a with
  | Some w => exists i : nat, ValidatorSet.GetByAddress s a = Ret (Z.of_nat i, Some w) /\
                ValidatorSet.Validators s !! i = Some w /\ Validator.Address w = a
  | None => ValidatorSet.GetByAddress s a = Ret (-1, None)
  end /\
  match m (Validator.Address v) with
  | Some _ => ValidatorSet.Add s (Some v) = Ret (false, s)
  | None => exists s', ValidatorSet.Add s (Some v) = Ret (true, s') /\
              map_updated s s' (Validator.Address v) (Some v)
  end /\
  match m (Validator.Address v) with
  | Some _ => exists s', ValidatorSet.Update s v = Ret (true, s') /\
                map_updated s s' (Validator.Address v) (Some v)
  | None => ValidatorSet.Update s v = Ret (false, s)
  end /\
  match m a with
  | Some w => exists s', ValidatorSet.Remove s a = Ret (Some w, true, s') /\ map_updated s s' a None
  | None => ValidatorSet.Remove s a = Ret (None, false, s)
  end.
Proof.
  intros Hs m. split_and!; [by apply HasAddress_spec|by apply GetByAddress_spec|by apply Add_spec
    |by apply Update_spec|by apply Remove_spec].
Qed.

(** C27: the heap of [IncrementAccum] is equivalent to a search.  On a sorted,
    non-empty set and fewer than 2^63 times, [IncrementAccum] does not panic, and
    its result is that of raising every accumulator and then, [times] times,
    lowering by the total power the validator that no other one beats (greatest
    accumulator, ties to the smaller address); the last one lowered is the new
    proposer.  For one time it is the validator the linear scan of
    [findProposer] returns on the raised list. *)
Theorem IncrementAccum_refines_scan (s : ValidatorSet.t) (times : Z) :
  sorted s -> ValidatorSet.Validators s <> [] -> 0 <= times < two63 ->
  exists s' p, ValidatorSet.IncrementAccum s times = Ret s' /\
    picks (total s) (Z.to_nat times) (raise times <$> ValidatorSet.Validators s)
      (ValidatorSet.Validators s') p /\
    ValidatorSet.Proposer s' = (if 0 <? times then p else ValidatorSet.Proposer s) /\
    (times = 1 -> exists v,
       ValidatorSet.findProposer (ValidatorSet.mk L (raise 1 <$> ValidatorSet.Validators s) None 0) = Ret (Some v) /\
       ValidatorSet.Proposer s' = Some (lower (total s) v)).
Proof.
  intros Hs Hne Ht. destruct (IncrementAccum_picks s times Hs Hne Ht) as (s' & p & E & Hp & Epr & _).
  exists s', p. split_and!; try done. intros ->. cbn [Z.ltb] in Epr.
  set (l0 := raise 1 <$> ValidatorSet.Validators s) in *.
  assert (increasing l0) as Hs0.
  { eapply same_ids_increasing; [|exact Hs]. unfold same_ids, l0. by rewrite <- list_fmap_compose. }
  assert (l0 <> []) as Hne0. { intros E0. apply Hne. by apply fmap_nil_inv in E0. }
  destruct (findProposer_fold l0 Hs0 Hne0) as (m & v & Ef & Htop). exists v. split; [exact Ef|].
  rewrite Epr. inv Hp. match goal with H : picks _ 0 _ _ _ |- _ => inv H end.
  match goal with H : is_top _ _ ?x |- _ = Some (lower _ v) =>
    destruct (is_top_unique _ _ _ _ _ Hs0 H Htop) as [_ ->] end. done.
Qed.


(** C20: [VerifyCommit] is exact.  When the powers are not negative and twice
    their total fits in an [int64], it never panics, and it accepts a commit if
    and only if the commit has a slot per validator, is of the given height,
    every filled slot is a precommit of that height and of one round with a valid
    signature of the validator of that index, and the agreeing precommits for
    the block have more than two thirds of the power. *)
Theorem VerifyCommit_correct (s : ValidatorSet.t) chainID b height c : quorate s ->
  exists r s', ValidatorSet.VerifyCommit s chainID b height c = Ret (r, s') /\
  (r = None <-> length (Commit.Precommits c) = length (ValidatorSet.Validators s) /\
    exists round, Commit.Height c = Ret height /\ Commit.Round c = Ret round /\
      commit_ok s chainID height round c /\
      2 * powers (ValidatorSet.Validators s) < 3 * weight s (signer b c)).
Proof. apply VerifyCommit_spec. Qed.

(** Two commits the same set verifies share more than a third of the power:
    the validators that agree in both have more than a third of the total, and
    each of them signed both precommits.  So commits of different blocks at the
    same height show that more than a third equivocated. *)
Theorem commits_share_third (s s1 s2 : ValidatorSet.t) chainID b1 b2 height c1 c2 : quorate s ->
  ValidatorSet.VerifyCommit s chainID b1 height c1 = Ret (None, s1) ->
  ValidatorSet.VerifyCommit s chainID b2 height c2 = Ret (None, s2) ->
  let both := fun i => signer b1 c1 i && signer b2 c2 i in
  powers (ValidatorSet.Validators s) < 3 * weight s both /\
  forall i, both i = true -> exists v pc1 pc2 sb1 sb2,
    ValidatorSet.Validators s !! i = Some v /\
    Commit.Precommits c1 !! i = Some (Some pc1) /\ Vote.BlockID pc1 = b1 /\ Vote.Height pc1 = height /\
    Commit.Precommits c2 !! i = Some (Some pc2) /\ Vote.BlockID pc2 = b2 /\ Vote.Height pc2 = height /\
    VoteSignBytes chainID pc1 = Ret sb1 /\ VerifyBytes (Validator.PubKey v) sb1 (Vote.Signature pc1) = true /\
    VoteSignBytes chainID pc2 = Ret sb2 /\ VerifyBytes (Validator.PubKey v) sb2 (Vote.Signature pc2) = true.
Proof.
  intros Hq E1 E2 both.
  destruct (VerifyCommit_spec s chainID b1 height c1 Hq) as (r1 & s1' & E1' & [H1 _]).
  destruct (VerifyCommit_spec s chainID b2 height c2 Hq) as (r2 & s2' & E2' & [H2 _]).
  rewrite E1 in E1'. rewrite E2 in E2'. injection E1' as <- _. injection E2' as <- _.
  destruct (H1 eq_refl) as (_ & rd1 & _ & _ & Hok1 & Hw1). destruct (H2 eq_refl) as (_ & rd2 & _ & _ & Hok2 & Hw2).
  split; [by apply weight_overlap|]. unfold both, signer. intros i [Hi1 Hi2]%andb_true_iff.
  destruct (Commit.Precommits c1 !! i) as [[pc1|]|] eqn:Ep1; try done.
  destruct (Commit.Precommits c2 !! i) as [[pc2|]|] eqn:Ep2; try done.
  simpl in Hi1, Hi2. apply andb_true_iff in Hi1 as [Hb1%BlockID_Equals_spec _].
  apply andb_true_iff in Hi2 as [Hb2%BlockID_Equals_spec _].
  destruct (Hok1 i _ Ep1) as (Hh1 & _ & _ & v & sb1 & Hv & Hs1 & Hg1).
  destruct (Hok2 i _ Ep2) as (Hh2 & _ & _ & v' & sb2 & Hv' & Hs2 & Hg2).
  assert (v' = v) as -> by congruence. by exists v, pc1, pc2, sb1, sb2.
Qed.
End Properties.

(** ** Witnesses: three validators of power 1, 2 and 4 *)

Definition demoVal (k : byte) (power accum : Z) : Validator.t := Validator.mk demoLib [k] k power accum.

Definition demoSet : ValidatorSet.t :=
  ValidatorSet.mk demoLib [demoVal Byte.x01 1 0; demoVal Byte.x02 2 0; demoVal Byte.x03 4 0] None 0.

Lemma demoSet_sorted : sorted demoSet.
Proof.
  intros i j v w Hij Hi Hj. unfold demoSet in *. cbn [ValidatorSet.Validators] in *.
  destruct i as [|[|[|i]]], j as [|[|[|j]]]; simpl in *; simplify_eq; try lia; done.
Qed.

Lemma demoSet_nonneg v : v ∈ ValidatorSet.Validators demoSet -> 0 <= Validator.VotingPower v.
Proof.
  cbn. intros Hv. repeat (apply elem_of_cons in Hv as [->|Hv]; [done|]). by apply elem_of_nil in Hv.
Qed.

Lemma demoSet_quorate : quorate demoSet.
Proof. split_and!; [exact demoSet_nonneg|vm_compute; congruence|by left|vm_compute; congruence]. Qed.

Lemma demoSet_rotation_ok : rotation_ok demoSet.
Proof.
  split_and!; [exact demoSet_sorted| | |by left].
  - split_and!; [exact demoSet_nonneg|done|vm_compute; congruence].
  - split; [done|]. cbn. intros v Hv. repeat (apply elem_of_cons in Hv as [->|Hv]; [done|]).
    by apply elem_of_nil in Hv.
Qed.

(** A vote of a demo key, signed. *)
Definition demoVoteFor (k : byte) (index height round typ : Z) (b : BlockID.t) : Vote.t :=
  let v := Vote.mk [k] index height round VoteAgree 0 typ b [] [] in
  match VoteSignBytes (L := demoLib) "chain" v with
  | Ret sb => Vote.set_Signature v (k :: sb)
  | Panic _ => v
  end.

Definition demoBlock (x : byte) : BlockID.t := BlockID.mk [x] (PartSetHeader.mk 1 [x]).

Definition demoCommitFor (b : BlockID.t) : Commit.t :=
  Commit.mk b
    [None; Some (demoVoteFor Byte.x02 1 5 0 VoteTypePrecommit b);
     Some (demoVoteFor Byte.x03 2 5 0 VoteTypePrecommit b)].

Definition demoCommit : Commit.t := demoCommitFor (demoBlock Byte.xaa).

Lemma clip_arithmetic_witness :
  safeAddClip max_i64 1 = max_i64 /\ safeSubClip min_i64 5 = min_i64 /\ safeMulClip (2 ^ 40) (- 2 ^ 40) = min_i64.
Proof.
  split_and!.
  - apply (clip_arithmetic max_i64 1); by_decide.
  - apply (clip_arithmetic min_i64 5); by_decide.
  - apply (clip_arithmetic (2 ^ 40) (- 2 ^ 40)); by_decide.
Defined.

Lemma set_ops_refine_map_witness :
  ValidatorSet.HasAddress demoSet [Byte.x02] = Ret true /\
  exists s', ValidatorSet.Add demoSet (Some (demoVal Byte.x09 3 0)) = Ret (true, s') /\ sorted s'.
Proof.
  destruct (set_ops_refine_map demoSet (demoVal Byte.x09 3 0) [Byte.x02] demoSet_sorted)
    as (H1 & _ & (s' & H2 & H3 & _) & _).
  split; [exact H1|]. exists s'. split; [exact H2|exact H3].
Defined.

(** Projections of the results, evaluated below. *)
Definition accumOf (o : outcome (option (Validator.t (L := demoLib)))) : Z :=
  match o with Ret (Some v) => Validator.Accum v | _ => 0 end.
Definition proposersOf (o : outcome (ValidatorSet.t (L := demoLib) * list bytes)) : list bytes :=
  match o with Ret (_, ps) => ps | Panic _ => [] end.
Definition acceptedBy (o : outcome (option commit_error * ValidatorSet.t (L := demoLib))) : bool :=
  match o with Ret (None, _) => true | _ => false end.

Lemma IncrementAccum_refines_scan_witness : exists s' p,
  ValidatorSet.IncrementAccum demoSet 1 = Ret s' /\
  ValidatorSet.Proposer s' = Some p /\ Validator.Accum p = -3.
Proof.
  destruct (IncrementAccum_refines_scan demoSet 1 demoSet_sorted) as (s' & p & E & _ & _ & H);
    [discriminate|by_decide|].
  destruct (H eq_refl) as (v & Ef & Hp).
  exists s', (lower (total demoSet) v). split; [exact E|]. split; [exact Hp|].
  apply (f_equal accumOf) in Ef. cbn [accumOf] in Ef. unfold lower. cbn [Validator.set_Accum Validator.Accum].
  rewrite <- Ef. vm_compute. reflexivity.
Defined.


Lemma VerifyCommit_correct_witness : exists s',
  ValidatorSet.VerifyCommit demoSet "chain" (demoBlock Byte.xaa) 5 demoCommit = Ret (None, s') /\
  14 < 3 * weight demoSet (signer (demoBlock Byte.xaa) demoCommit).
Proof.
  destruct (VerifyCommit_correct demoSet "chain" (demoBlock Byte.xaa) 5 demoCommit demoSet_quorate)
    as (r & s' & E & H & _).
  exists s'. assert (acceptedBy (Ret (r, s')) = true) as Hr by (rewrite <- E; vm_compute; reflexivity).
  destruct r as [e|]; [discriminate Hr|].
  split; [exact E|]. destruct (H eq_refl) as (_ & round & _ & _ & _ & Hw). exact Hw.
Defined.

Lemma commits_share_third_witness :
  let both := fun i => signer (demoBlock Byte.xaa) demoCommit i
                       && signer (demoBlock Byte.xbb) (demoCommitFor (demoBlock Byte.xbb)) i in
  7 < 3 * weight demoSet both.
Proof.
  exact (proj1 (commits_share_third demoSet _ _ "chain" (demoBlock Byte.xaa) (demoBlock Byte.xbb) 5
    demoCommit (demoCommitFor (demoBlock Byte.xbb)) demoSet_quorate eq_refl eq_refl)).
Defined.
