(* ===== verification/VoteSet.v ===== *)
(** * Vote sets

    Models [consensus/tbft/types/vote_set.go] and the commit checks of
    [datas.go].  A vote set collects the votes of one height, round and type: the
    canonical list [votes], one [blockVotes] per block that is tracked, and
    [maj23], the first block that reached two thirds of the power.  A nil receiver
    is [None].  The validator set is shared by pointer in the code; the vote set
    only reads it and fills its cached total, so a copy behaves the same. *)

From S2P Require Import Prelude BitArray Types Validator.

(** [copy(hash[:], b)] into a zeroed [common.Hash]. *)
Definition toHash (b : bytes) : bytes := take 32 (b ++ replicate 32 Byte.x00).

(** [help.EqualHashes]. *)
Definition EqualHashes (hash1 hash2 : bytes) : bool :=
  if (zlen hash1 =? 0) || (zlen hash2 =? 0) then false else bytes_equal hash1 hash2.

Module PbftSign.
Record t := mk { FastHeight : Z; FastHash : bytes; Result : Z; Sign : bytes }.
End PbftSign.

Module KeepBlockSign.
Record t := mk { Result : Z; Sign : bytes; Hash : bytes }.
End KeepBlockSign.

(** ** Votes for one block *)

Module blockVotes.
Record t := mk {
  peerMaj23 : bool;
  bitArray : option BitArray.t;
  votes : list (option Vote.t);
  sum : Z
}.

(** [make([]*Vote, n)]. *)
Definition emptyVotes (n : Z) : list (option Vote.t) := replicate (Z.to_nat n) None.

Definition newBlockVotes (peerMaj23 : bool) (numValidators : Z) : t :=
  mk peerMaj23 (BitArray.NewBitArray numValidators) (emptyVotes numValidators) 0.

Definition set_peerMaj23 (vs : t) (p : bool) : t := mk p (bitArray vs) (votes vs) (sum vs).

Definition addVerifiedVote (vs : t) (vote : Vote.t) (votingPower : Z) : outcome t :=
  let valIndex := Vote.ValidatorIndex vote in
  let! existing := slice_get (votes vs) valIndex in
  match existing with
  | Some _ => Ret vs
  | None =>
      let! (_, ba) := BitArray.SetIndex (bitArray vs) valIndex true in
      let! vts := slice_set (votes vs) valIndex (Some vote) in
      Ret (mk (peerMaj23 vs) ba vts
             (if Vote.Result vote =? VoteAgree then i64 (sum vs + votingPower) else sum vs))
  end.

Definition getByIndex (vs : option t) (index : Z) : outcome (option Vote.t) :=
  match vs with None => Ret None | Some vs => slice_get (votes vs) index end.
End blockVotes.

(** ** Vote sets *)

Module VoteSet.
Record t {L : Lib} := mk {
  chainID : string;
  height : Z;
  round : Z;
  typeB : Z;
  valSet : ValidatorSet.t;
  votesBitArray : option BitArray.t;
  votes : list (option Vote.t);
  sum : Z;
  vsum : Z;
  maj23 : option BlockID.t;
  votesByBlock : gmap string blockVotes.t;
  peerMaj23s : gmap string BlockID.t
}.
Arguments t : clear implicits.
Arguments t {L}.

Section Ops.
Context {L : Lib}.

Definition NewVoteSet (chainID : string) (height round typeB : Z) (valSet : ValidatorSet.t) : outcome t :=
  if height =? 0 then Panic "Cannot make VoteSet for height == 0, doesn't make sense."
  else Ret (mk L chainID height (u64 round) typeB valSet
              (BitArray.NewBitArray (ValidatorSet.Size valSet))
              (blockVotes.emptyVotes (ValidatorSet.Size valSet)) 0 0 None ∅ ∅).

Definition ChainID (vs : t) : string := chainID vs.
Definition Height (vs : option t) : Z := match vs with None => 0 | Some vs => height vs end.
Definition Round (vs : option t) : Z := match vs with None => -1 | Some vs => i64 (round vs) end.
Definition Type_ (vs : option t) : Z := match vs with None => 0 | Some vs => typeB vs end.
Definition Size (vs : option t) : Z :=
  match vs with None => 0 | Some vs => ValidatorSet.Size (valSet vs) end.

(** Field updates. *)
Definition set_votes (vs : t) (ba : option BitArray.t) (vts : list (option Vote.t)) : t :=
  mk L (chainID vs) (height vs) (round vs) (typeB vs) (valSet vs) ba vts (sum vs) (vsum vs)
     (maj23 vs) (votesByBlock vs) (peerMaj23s vs).
Definition set_sums (vs : t) (s v : Z) : t :=
  mk L (chainID vs) (height vs) (round vs) (typeB vs) (valSet vs) (votesBitArray vs) (votes vs) s v
     (maj23 vs) (votesByBlock vs) (peerMaj23s vs).
Definition set_votesByBlock (vs : t) (m : gmap string blockVotes.t) : t :=
  mk L (chainID vs) (height vs) (round vs) (typeB vs) (valSet vs) (votesBitArray vs) (votes vs)
     (sum vs) (vsum vs) (maj23 vs) m (peerMaj23s vs).
Definition set_valSet (vs : t) (s : ValidatorSet.t) : t :=
  mk L (chainID vs) (height vs) (round vs) (typeB vs) s (votesBitArray vs) (votes vs)
     (sum vs) (vsum vs) (maj23 vs) (votesByBlock vs) (peerMaj23s vs).
Definition set_maj23 (vs : t) (b : BlockID.t) (vts : list (option Vote.t)) : t :=
  mk L (chainID vs) (height vs) (round vs) (typeB vs) (valSet vs) (votesBitArray vs) vts
     (sum vs) (vsum vs) (Some b) (votesByBlock vs) (peerMaj23s vs).
Definition set_peerMaj23s (vs : t) (m : gmap string BlockID.t) : t :=
  mk L (chainID vs) (height vs) (round vs) (typeB vs) (valSet vs) (votesBitArray vs) (votes vs)
     (sum vs) (vsum vs) (maj23 vs) (votesByBlock vs) m.

Definition getVote (vs : t) (valIndex : Z) (blockKey : string) : outcome (option Vote.t) :=
  let! existing := slice_get (votes vs) valIndex in
  let byBlock := blockVotes.getByIndex (votesByBlock vs !! blockKey) valIndex in
  match existing with
  | Some e =>
      let! k := Key (Vote.BlockID e) in
      if bool_decide (k = blockKey) then Ret (Some e) else byBlock
  | None => byBlock
  end.

(** [for i, vote := range votesByBlock.votes { if vote != nil { voteSet.votes[i] = vote } }] *)
Definition copyVote (i : Z) (vote : option Vote.t) (vts : list (option Vote.t))
    : outcome (Empty_set + list (option Vote.t)) :=
  match vote with
  | None => Ret (inr vts)
  | Some v => let! vts' := slice_set vts i (Some v) in Ret (inr vts')
  end.

Definition copyVotes (from to : list (option Vote.t)) : outcome (list (option Vote.t)) :=
  let! r := rangeM copyVote 0 from to in
  match r with inl e => match e with end | inr vts => Ret vts end.

(** First part of [addVerifiedVote]: the canonical list. *)
Definition addCanonical (vs : t) (vote : Vote.t) (blockKey : string) (votingPower : Z)
    : outcome (t * option Vote.t) :=
  let valIndex := Vote.ValidatorIndex vote in
  let! existing := slice_get (votes vs) valIndex in
  match existing with
  | Some e =>
      if BlockID.Equals (Vote.BlockID e) (Vote.BlockID vote)
      then Panic "addVerifiedVote does not expect duplicate votes"
      else
        let! isMaj := match maj23 vs with
                      | Some b => let! k := Key b in Ret (bool_decide (k = blockKey))
                      | None => Ret false
                      end in
        if isMaj : bool then
          let! vts := slice_set (votes vs) valIndex (Some vote) in
          let! (_, ba) := BitArray.SetIndex (votesBitArray vs) valIndex true in
          Ret (set_votes vs ba vts, Some e)
        else Ret (vs, Some e)
  | None =>
      let! vts := slice_set (votes vs) valIndex (Some vote) in
      let! (_, ba) := BitArray.SetIndex (votesBitArray vs) valIndex true in
      let vs := set_votes vs ba vts in
      Ret (set_sums vs (i64 (sum vs + votingPower))
             (if Vote.Result vote =? VoteAgree then i64 (vsum vs + votingPower) else vsum vs), None)
  end.

(** Second part: the votes of the block, and the majority. *)
Definition addToBlock (vs : t) (vote : Vote.t) (blockKey : string) (votingPower : Z)
    (vbb : blockVotes.t) : outcome t :=
  let origSum := blockVotes.sum vbb in
  let (total, valSet') := ValidatorSet.TotalVotingPower (valSet vs) in
  let quorum := i64 (ValidatorSet.twoThirds total + 1) in
  let! vbb' := blockVotes.addVerifiedVote vbb vote votingPower in
  let vs := set_valSet (set_votesByBlock vs (<[blockKey := vbb']> (votesByBlock vs))) valSet' in
  if (origSum <? quorum) && (quorum <=? blockVotes.sum vbb') then
    match maj23 vs with
    | None =>
        let! vts := copyVotes (blockVotes.votes vbb') (votes vs) in
        Ret (set_maj23 vs (Vote.BlockID vote) vts)
    | Some _ => Ret vs
    end
  else Ret vs.

(** [(added, conflicting)] and the new set. *)
Definition addVerifiedVote (vs : t) (vote : Vote.t) (blockKey : string) (votingPower : Z)
    : outcome (bool * option Vote.t * t) :=
  let! (vs, conflicting) := addCanonical vs vote blockKey votingPower in
  match votesByBlock vs !! blockKey, conflicting with
  | Some vbb, Some c =>
      if negb (blockVotes.peerMaj23 vbb) then Ret (false, Some c, vs)
      else let! vs := addToBlock vs vote blockKey votingPower vbb in Ret (true, Some c, vs)
  | Some vbb, None =>
      let! vs := addToBlock vs vote blockKey votingPower vbb in Ret (true, None, vs)
  | None, Some c => Ret (false, Some c, vs)
  | None, None =>
      let vbb := blockVotes.newBlockVotes false (ValidatorSet.Size (valSet vs)) in
      let! vs := addToBlock vs vote blockKey votingPower vbb in Ret (true, None, vs)
  end.

(** [(added, err)] and the new set. *)
Definition addVote (vs : t) (vote : option Vote.t) : outcome (bool * option vote_error * t) :=
  match vote with
  | None => Ret (false, Some ErrVoteNil, vs)
  | Some vote =>
      let valIndex := Vote.ValidatorIndex vote in
      let valAddr := Vote.ValidatorAddress vote in
      let! blockKey := Key (Vote.BlockID vote) in
      if valIndex <? 0 then Ret (false, Some (Wrapped ErrVoteInvalidValidatorIndex), vs)
      else if zlen valAddr =? 0 then Ret (false, Some (Wrapped ErrVoteInvalidValidatorAddress), vs)
      else if negb (Vote.Height vote =? height vs) || negb (Vote.Round vote =? round vs)
              || negb (Vote.Type_ vote =? typeB vs)
      then Ret (false, Some (Wrapped ErrVoteUnexpectedStep), vs)
      else match ValidatorSet.GetByIndex (valSet vs) valIndex with
           | None => Ret (false, Some (Wrapped ErrVoteInvalidValidatorIndex), vs)
           | Some (lookupAddr, val) =>
               if negb (bytes_equal valAddr lookupAddr)
               then Ret (false, Some (Wrapped ErrVoteInvalidValidatorAddress), vs)
               else
                 let! existing := getVote vs valIndex blockKey in
                 match existing with
                 | Some e =>
                     if bytes_equal (Vote.Signature e) (Vote.Signature vote)
                     then Ret (false, None, vs)
                     else Ret (false, Some (Wrapped ErrVoteNonDeterministicSignature), vs)
                 | None =>
                     let! err := VoteVerify (chainID vs) (Validator.PubKey val) vote in
                     match err with
                     | Some e => Ret (false, Some (Wrapped e), vs)
                     | None =>
                         let! (r, vs) := addVerifiedVote vs vote blockKey (Validator.VotingPower val) in
                         let (added, conflicting) := r in
                         match conflicting with
                         | Some _ => Ret (added, Some ErrVoteConflictingVotes, vs)
                         | None =>
                             if negb added then Panic "Expected to add non-conflicting vote"
                             else Ret (added, None, vs)
                         end
                     end
                 end
           end
  end.

Definition AddVote (vs : option t) (vote : option Vote.t) : outcome (bool * option vote_error * option t) :=
  match vs with
  | None => Panic "AddVote() on nil VoteSet"
  | Some vs => let! (r, vs') := addVote vs vote in Ret (r, Some vs')
  end.

(** [true] is the error of a peer that claims a second block. *)
Definition SetPeerMaj23 (vs : option t) (peerID : string) (blockID : BlockID.t) : outcome (bool * option t) :=
  match vs with
  | None => Panic "SetPeerMaj23() on nil VoteSet"
  | Some vs =>
      let! blockKey := Key blockID in
      match peerMaj23s vs !! peerID with
      | Some existing =>
          if BlockID.Equals existing blockID then Ret (false, Some vs) else Ret (true, Some vs)
      | None =>
          let vs := set_peerMaj23s vs (<[peerID := blockID]> (peerMaj23s vs)) in
          match votesByBlock vs !! blockKey with
          | Some vbb =>
              if blockVotes.peerMaj23 vbb then Ret (false, Some vs)
              else Ret (false, Some (set_votesByBlock vs
                     (<[blockKey := blockVotes.set_peerMaj23 vbb true]> (votesByBlock vs))))
          | None =>
              Ret (false, Some (set_votesByBlock vs
                (<[blockKey := blockVotes.newBlockVotes true (ValidatorSet.Size (valSet vs))]> (votesByBlock vs))))
          end
      end
  end.

Definition BitArray_ (vs : option t) : option BitArray.t :=
  match vs with None => None | Some vs => BitArray.Copy (votesBitArray vs) end.

Definition BitArrayByBlockID (vs : option t) (blockID : BlockID.t) : outcome (option BitArray.t) :=
  match vs with
  | None => Ret None
  | Some vs =>
      let! k := Key blockID in
      match votesByBlock vs !! k with
      | Some vbb => Ret (BitArray.Copy (blockVotes.bitArray vbb))
      | None => Ret None
      end
  end.

Definition GetByIndex (vs : option t) (valIndex : Z) : outcome (option Vote.t) :=
  match vs with None => Ret None | Some vs => slice_get (votes vs) valIndex end.

Definition GetByAddress (vs : option t) (address : bytes) : outcome (option Vote.t) :=
  match vs with
  | None => Ret None
  | Some vs =>
      let! (valIndex, val) := ValidatorSet.GetByAddress (valSet vs) address in
      match val with
      | None => Panic "GetByAddress(address) returned nil"
      | Some _ => slice_get (votes vs) valIndex
      end
  end.

Definition HasTwoThirdsMajority (vs : option t) : bool :=
  match vs with None => false | Some vs => bool_decide (is_Some (maj23 vs)) end.

Definition IsCommit (vs : option t) : bool :=
  match vs with
  | None => false
  | Some vs => if negb (typeB vs =? VoteTypePrecommit) then false else bool_decide (is_Some (maj23 vs))
  end.

(** The total may be cached by these reads; [valSet] is otherwise unchanged. *)
Definition HasTwoThirdsAny (vs : option t) : bool :=
  match vs with
  | None => false
  | Some vs => ValidatorSet.twoThirds (fst (ValidatorSet.TotalVotingPower (valSet vs))) <? sum vs
  end.

Definition HasAll (vs : t) : bool := sum vs =? fst (ValidatorSet.TotalVotingPower (valSet vs)).

Definition TwoThirdsMajority (vs : option t) : BlockID.t * bool :=
  match vs with
  | None => (BlockID.empty, false)
  | Some vs => match maj23 vs with Some b => (b, true) | None => (BlockID.empty, false) end
  end.

(** The signatures for the majority block; [inl] is an error. *)
Definition pbftSignAt (vbb : blockVotes.t) (hash : bytes) (i : Z) (vote : option Vote.t)
    (signs : list PbftSign.t) : outcome (Empty_set + list PbftSign.t) :=
  let! res := BitArray.GetIndex (blockVotes.bitArray vbb) (u64 i) in
  if res : bool then
    match vote with
    | None => Panic "nil pointer dereference"
    | Some v => Ret (inr (signs ++ [PbftSign.mk (Vote.Height v) (toHash hash)
                                      (Vote.Result v mod 2 ^ 32) (Vote.ResultSign v)]))
    end
  else Ret (inr signs).

Definition MakePbftSigns (vs : option t) (thash : bytes) : outcome (string + list PbftSign.t) :=
  match vs with
  | None => Ret (inl "no voteset")
  | Some vs =>
      match maj23 vs with
      | None => Ret (inl "there was no pok")
      | Some blockid =>
          if negb (EqualHashes thash (BlockID.Hash blockid)) then Ret (inl "hash,blockid")
          else
            let! k := Key blockid in
            match votesByBlock vs !! k with
            | None => Ret (inl "none blockhash was vote")
            | Some vbb =>
                let! r := rangeM (pbftSignAt vbb (BlockID.Hash blockid)) 0 (blockVotes.votes vbb) [] in
                match r with inl e => match e with end | inr signs => Ret (inr signs) end
            end
      end
  end.

Definition GetSignByAddress (vs : option t) (addr : bytes) : outcome (option KeepBlockSign.t) :=
  let! vote := GetByAddress vs addr in
  match vote with
  | None => Ret None
  | Some v => Ret (Some (KeepBlockSign.mk (Vote.Result v) (Vote.ResultSign v) (toHash (BlockID.Hash (Vote.BlockID v)))))
  end.

Definition MakeCommit (vs : t) : outcome Commit.t :=
  if negb (typeB vs =? VoteTypePrecommit)
  then Panic "Cannot MakeCommit() unless VoteSet.Type is VoteTypePrecommit"
  else match maj23 vs with
       | None => Panic "Cannot MakeCommit() unless a blockhash has +2/3"
       | Some b => Ret (Commit.mk b (votes vs))
       end.

End Ops.
End VoteSet.

(** ** Commits as sets of votes: the rest of [datas.go] *)

Module CommitOps.
Definition Type_ (c : Commit.t) : Z := VoteTypePrecommit.
Definition Size (c : option Commit.t) : Z :=
  match c with None => 0 | Some c => zlen (Commit.Precommits c) end.

(** [BitArray], computed once and cached in the commit. *)
Definition bitOf (i : Z) (precommit : option Vote.t) (ba : option BitArray.t)
    : outcome (Empty_set + option BitArray.t) :=
  let! (_, ba') := BitArray.SetIndex ba (u64 i) (bool_decide (is_Some precommit)) in Ret (inr ba').

Definition BitArray_ (c : Commit.t) : outcome (option BitArray.t) :=
  let! r := rangeM bitOf 0 (Commit.Precommits c) (BitArray.NewBitArray (zlen (Commit.Precommits c))) in
  match r with inl e => match e with end | inr ba => Ret ba end.

Definition GetByIndex (c : Commit.t) (index : Z) : outcome (option Vote.t) :=
  slice_get (Commit.Precommits c) index.

Definition IsCommit (c : Commit.t) : bool := negb (zlen (Commit.Precommits c) =? 0).

Definition validatePrecommit (height round : Z) (i : Z) (precommit : option Vote.t) (u : unit)
    : outcome (string + unit) :=
  match precommit with
  | None => Ret (inr tt)
  | Some pc =>
      if negb (Vote.Type_ pc =? VoteTypePrecommit) then Ret (inl "invalid commit vote")
      else if negb (Vote.Height pc =? height) then Ret (inl "invalid commit precommit height")
      else if negb (i64 (Vote.Round pc) =? round) then Ret (inl "invalid commit precommit round")
      else Ret (inr tt)
  end.

(** [None] is a nil error. *)
Definition ValidateBasic (c : Commit.t) : outcome (option string) :=
  if BlockID.IsZero (Commit.BlockID c) then Ret (Some "commit cannot be for nil block")
  else if zlen (Commit.Precommits c) =? 0 then Ret (Some "no precommits in commit")
  else
    let! height := Commit.Height c in
    let! round := Commit.Round c in
    let! r := rangeM (validatePrecommit height round) 0 (Commit.Precommits c) tt in
    match r with inl e => Ret (Some e) | inr _ => Ret None end.
End CommitOps.

(** ** Lists of votes and the bit array that tracks them *)

Definition has (vts : list (option Vote.t)) (i : nat) : bool :=
  match vts !! i with Some (Some _) => true | _ => false end.

(** Agreeing votes, the ones that count for a block. *)
Definition agrees (vts : list (option Vote.t)) (i : nat) : bool :=
  match vts !! i with Some (Some v) => Vote.Result v =? VoteAgree | _ => false end.

Definition tracks (ba : option BitArray.t) (vts : list (option Vote.t)) : Prop :=
  match ba with
  | None => vts = []
  | Some b => BitArray.wf b /\ BitArray.Bits b = zlen vts /\
      forall i, (i < length vts)%nat -> BitArray.bit b (Z.of_nat i) = has vts i
  end.

Lemma has_insert vts i j v : (i < length vts)%nat ->
  has (<[i := Some v]> vts) j = has vts j || (j =? i)%nat.
Proof.
  intros Hi. unfold has. destruct (Nat.eqb_spec j i) as [->|].
  - by rewrite list_lookup_insert_eq, orb_true_r.
  - by rewrite list_lookup_insert_ne, orb_false_r by done.
Qed.

Lemma agrees_insert vts i j v : (i < length vts)%nat ->
  agrees (<[i := Some v]> vts) j = if (j =? i)%nat then Vote.Result v =? VoteAgree else agrees vts j.
Proof.
  intros Hi. unfold agrees. destruct (Nat.eqb_spec j i) as [->|].
  - by rewrite list_lookup_insert_eq.
  - by rewrite list_lookup_insert_ne by done.
Qed.

Lemma tracks_new n : 0 <= n <= max_i64 -> tracks (BitArray.NewBitArray n) (blockVotes.emptyVotes n).
Proof.
  intros Hn. unfold blockVotes.emptyVotes. destruct (Z.eq_dec n 0) as [->|]; [done|].
  destruct (BitArray.NewBitArray_wf n) as (b & -> & Hwf & HB & Hbit); [unfold two63, max_i64 in *; lia|].
  split_and!; [done|unfold zlen; rewrite length_replicate; lia|]. intros i Hi. rewrite length_replicate in Hi.
  rewrite Hbit by lia. unfold has. by rewrite lookup_replicate_2.
Qed.

Lemma tracks_set ba vts i v : tracks ba vts -> (i < length vts)%nat -> exists r ba',
  BitArray.SetIndex ba (Z.of_nat i) true = Ret (r, ba') /\ tracks ba' (<[i := Some v]> vts).
Proof.
  intros Ht Hi. destruct ba as [b|]; simpl in Ht; [|subst; simpl in Hi; lia].
  destruct Ht as (Hwf & HB & Hbit). unfold zlen in HB.
  destruct (BitArray.setIndex_spec b (Z.of_nat i) true Hwf) as (b' & E & Hwf' & HB' & _ & Hb'); [lia|].
  simpl. rewrite E. eexists _, _. split; [done|]. simpl. split_and!; [done|unfold zlen; rewrite length_insert; lia|].
  intros j Hj. rewrite length_insert in Hj. rewrite Hb', has_insert, Hbit by lia.
  destruct (Z.eqb_spec (Z.of_nat i) (Z.of_nat j)), (Nat.eqb_spec j i); try lia;
    by rewrite ?orb_true_r, ?orb_false_r.
Qed.

Lemma tracks_same ba vts vts' : length vts = length vts' -> (forall i, has vts i = has vts' i) ->
  tracks ba vts -> tracks ba vts'.
Proof.
  intros Hl Hh. destruct ba as [b|]; simpl.
  - intros (Hwf & HB & Hbit). unfold zlen in *. rewrite <- Hl. split_and!; try done. intros i Hi.
    rewrite <- Hh. by apply Hbit.
  - intros ->. by apply symmetry, nil_length_inv in Hl.
Qed.

(** [copyVotes] overwrites where the source is not nil. *)
Definition overlay (from to : list (option Vote.t)) : list (option Vote.t) :=
  zip_with (fun f t => match f with Some v => Some v | None => t end) from to.

Lemma copyVotes_spec from to : length from = length to ->
  VoteSet.copyVotes from to = Ret (overlay from to).
Proof.
  enough (forall from pre to, length from = length to ->
    rangeM VoteSet.copyVote (Z.of_nat (length pre)) from (pre ++ to) = Ret (inr (pre ++ overlay from to))) as H.
  { intros Hl. unfold VoteSet.copyVotes. specialize (H from [] to Hl).
    cbn [length app] in H. change (Z.of_nat 0) with 0 in H. by rewrite H. }
  clear. induction from as [|f from IH]; intros pre [|t to] Hl; simpl in Hl; try lia; [done|].
  cbn [rangeM VoteSet.copyVote overlay zip_with].
  assert (forall x, rangeM VoteSet.copyVote (Z.of_nat (length pre) + 1) from (pre ++ x :: to)
    = Ret (inr (pre ++ x :: overlay from to))) as Hx.
  { intros x. specialize (IH (pre ++ [x]) to ltac:(lia)). rewrite length_app in IH. simpl in IH.
    rewrite <- !app_assoc in IH. simpl in IH. rewrite <- IH. f_equal. lia. }
  destruct f as [v|]; cbn [VoteSet.copyVote obind]; [|apply Hx].
  rewrite slice_set_in by (unfold zlen; rewrite length_app; simpl; lia). cbn [obind].
  rewrite Nat2Z.id, insert_app_r_alt, Nat.sub_diag by lia. apply Hx.
Qed.

Lemma overlay_lookup from to i : length from = length to ->
  overlay from to !! i = match from !! i with Some (Some v) => Some (Some v) | _ => to !! i end.
Proof.
  intros Hl. unfold overlay. rewrite lookup_zip_with.
  destruct (from !! i) as [[v|]|] eqn:Ef; simpl.
  - apply lookup_lt_Some in Ef. destruct (lookup_lt_is_Some_2 to i) as [t ->]; [lia|done].
  - by destruct (to !! i).
  - apply lookup_ge_None in Ef. symmetry. apply lookup_ge_None. lia.
Qed.

Lemma overlay_length from to : length from = length to -> length (overlay from to) = length to.
Proof. intros Hl. unfold overlay. rewrite length_zip_with. lia. Qed.

(** ** The invariant of a vote set *)

Section Invariant.
Context {L : Lib} {HL : LibLaws L}.
Implicit Types (vs : VoteSet.t) (v : Vote.t) (b : BlockID.t) (vbb : blockVotes.t).

(** What identifies the set and never changes. *)
Definition frame vs : string * Z * Z * Z * list Validator.t :=
  (VoteSet.chainID vs, VoteSet.height vs, VoteSet.round vs, VoteSet.typeB vs,
   ValidatorSet.Validators (VoteSet.valSet vs)).

(** A vote that belongs in slot [i]: of this step, of the validator of that
    index, with a valid signature. *)
Definition vote_ok (fr : string * Z * Z * Z * list Validator.t) (i : nat) v : Prop :=
  let '(chainID, height, round, typeB, vals) := fr in
  Vote.ValidatorIndex v = Z.of_nat i /\ Vote.Height v = height /\ Vote.Round v = round /\
  Vote.Type_ v = typeB /\ Vote.ValidatorAddress v <> [] /\
  exists val, vals !! i = Some val /\ Vote.ValidatorAddress v = Validator.Address val /\
    VoteVerify chainID (Validator.PubKey val) v = Ret None.

Definition votes_ok fr (vts : list (option Vote.t)) : Prop :=
  forall i v, vts !! i = Some (Some v) -> vote_ok fr i v.

(** The votes of one block. *)
Record block_wf (vs : VoteSet.t) (k : string) (vbb : blockVotes.t) : Prop := {
  bw_len : length (blockVotes.votes vbb) = length (ValidatorSet.Validators (VoteSet.valSet vs));
  bw_bits : tracks (blockVotes.bitArray vbb) (blockVotes.votes vbb);
  bw_votes : votes_ok (frame vs) (blockVotes.votes vbb);
  bw_key : forall i v, blockVotes.votes vbb !! i = Some (Some v) -> key (Vote.BlockID v) = k;
  bw_sum : blockVotes.sum vbb = weight (VoteSet.valSet vs) (agrees (blockVotes.votes vbb));
  bw_seen : forall i, has (blockVotes.votes vbb) i = true -> has (VoteSet.votes vs) i = true
}.

(** More than two thirds of the power. *)
Definition supermajority vs (x : Z) : Prop :=
  2 * powers (ValidatorSet.Validators (VoteSet.valSet vs)) < 3 * x.

#[global] Instance supermajority_dec vs x : Decision (supermajority vs x).
Proof. unfold supermajority. apply _. Defined.

Record wf (vs : VoteSet.t) : Prop := {
  wf_quorate : quorate (VoteSet.valSet vs);
  wf_len : length (VoteSet.votes vs) = length (ValidatorSet.Validators (VoteSet.valSet vs));
  wf_bits : tracks (VoteSet.votesBitArray vs) (VoteSet.votes vs);
  wf_votes : votes_ok (frame vs) (VoteSet.votes vs);
  wf_sum : VoteSet.sum vs = weight (VoteSet.valSet vs) (has (VoteSet.votes vs));
  wf_blocks : forall k vbb, VoteSet.votesByBlock vs !! k = Some vbb -> block_wf vs k vbb;
  wf_maj : forall b, VoteSet.maj23 vs = Some b -> exists vbb,
    VoteSet.votesByBlock vs !! key b = Some vbb /\ supermajority vs (blockVotes.sum vbb) /\
    forall i v, blockVotes.votes vbb !! i = Some (Some v) -> VoteSet.votes vs !! i = Some (Some v);
  wf_nomaj : VoteSet.maj23 vs = None -> forall k vbb,
    VoteSet.votesByBlock vs !! k = Some vbb -> ~ supermajority vs (blockVotes.sum vbb)
}.

Lemma weight_none s p : (forall i, p i = false) -> weight s p = 0.
Proof.
  intros H. unfold weight. rewrite (zsum_ext _ (fun _ => 0)).
  - apply zsum_zero.
  - intros i _. by rewrite H.
Qed.

Lemma emptyVotes_lookup n i : blockVotes.emptyVotes n !! i = if (i <? Z.to_nat n)%nat then Some None else None.
Proof.
  unfold blockVotes.emptyVotes. destruct (Nat.ltb_spec i (Z.to_nat n)).
  - by rewrite lookup_replicate_2.
  - by apply lookup_ge_None; rewrite length_replicate.
Qed.

Lemma emptyVotes_has n i : has (blockVotes.emptyVotes n) i = false /\ agrees (blockVotes.emptyVotes n) i = false.
Proof. unfold has, agrees. rewrite emptyVotes_lookup. by destruct (_ <? _)%nat. Qed.

Lemma emptyVotes_not n i v : blockVotes.emptyVotes n !! i <> Some (Some v).
Proof. rewrite emptyVotes_lookup. by destruct (_ <? _)%nat. Qed.

Lemma quorate_size s : quorate s -> 0 <= ValidatorSet.Size s <= max_i64.
Proof. intros (_ & _ & _ & Hl). unfold ValidatorSet.Size. split; [apply zlen_nonneg|done]. Qed.

Lemma newBlockVotes_wf vs k p : quorate (VoteSet.valSet vs) ->
  block_wf vs k (blockVotes.newBlockVotes p (ValidatorSet.Size (VoteSet.valSet vs))).
Proof.
  intros Hq. pose proof (quorate_size _ Hq) as Hs. split; simpl.
  - unfold blockVotes.emptyVotes, ValidatorSet.Size, zlen. by rewrite length_replicate, Nat2Z.id.
  - by apply tracks_new.
  - intros i v H. by apply emptyVotes_not in H.
  - intros i v H. by apply emptyVotes_not in H.
  - symmetry. apply weight_none. intros i. apply emptyVotes_has.
  - intros i H. by rewrite (proj1 (emptyVotes_has _ i)) in H.
Qed.

(** A new set is well-formed. *)
Lemma NewVoteSet_wf chainID height round typeB s : height <> 0 -> quorate s -> exists vs,
  VoteSet.NewVoteSet chainID height round typeB s = Ret vs /\ wf vs /\
  frame vs = (chainID, height, u64 round, typeB, ValidatorSet.Validators s) /\
  VoteSet.maj23 vs = None /\ (forall i, has (VoteSet.votes vs) i = false) /\ VoteSet.votesByBlock vs = ∅.
Proof.
  intros Hh Hq. unfold VoteSet.NewVoteSet. rewrite (proj2 (Z.eqb_neq _ _) Hh). eexists. split; [done|].
  pose proof (quorate_size _ Hq) as Hs. split_and!; try done; [|intros i; apply emptyVotes_has].
  split; cbn; try done.
  - unfold blockVotes.emptyVotes, ValidatorSet.Size, zlen. by rewrite length_replicate, Nat2Z.id.
  - by apply tracks_new.
  - intros i v H. by apply emptyVotes_not in H.
  - symmetry. apply weight_none. intros i. apply emptyVotes_has.
Qed.

Lemma weight_same s s' p : ValidatorSet.Validators s = ValidatorSet.Validators s' -> weight s p = weight s' p.
Proof. intros E. unfold weight, powerAt. by rewrite E. Qed.

(** A block stays well-formed when the set around it keeps its frame and loses
    no vote. *)
Lemma block_wf_frame vs vs' k vbb : frame vs' = frame vs ->
  (forall i, has (VoteSet.votes vs) i = true -> has (VoteSet.votes vs') i = true) ->
  block_wf vs k vbb -> block_wf vs' k vbb.
Proof.
  intros Ef Hh [H1 H2 H3 H4 H5 H6]. pose proof Ef as Ef'. unfold frame in Ef'. injection Ef' as _ _ _ _ Ev.
  split; try done; [by rewrite Ev|by rewrite Ef| |auto].
  rewrite H5. by apply weight_same.
Qed.

(** A slot set to a vote where there was none, or replaced. *)
Lemma votes_ok_insert fr vts i v : votes_ok fr vts -> vote_ok fr i v -> votes_ok fr (<[i := Some v]> vts).
Proof.
  intros H Hv j w Hj. apply list_lookup_insert_Some in Hj as [(<- & [= <-] & _)|[_ Hj]]; [done|by apply H].
Qed.

Lemma weight_fits s p : quorate s -> 0 <= weight s p <= max_i64.
Proof.
  intros Hq. pose proof (weight_nonneg s p Hq). pose proof (weight_le_total s p Hq).
  destruct Hq as (Hp & Hm & _). pose proof (zsum_nonneg _ _ Hp) as Hn.
  fold (powers (ValidatorSet.Validators s)) in Hn. lia.
Qed.

Lemma i64_weight s p : quorate s -> i64 (weight s p) = weight s p.
Proof.
  intros Hq. apply i64_id. pose proof (weight_fits s p Hq). unfold in_i64, min_i64, max_i64 in *. lia.
Qed.

(** ** The canonical list *)

Ltac vscbn := cbn [VoteSet.set_votes VoteSet.set_sums VoteSet.set_votesByBlock VoteSet.set_valSet
  VoteSet.set_maj23 VoteSet.set_peerMaj23s VoteSet.chainID VoteSet.height VoteSet.round VoteSet.typeB
  VoteSet.valSet VoteSet.votesBitArray VoteSet.votes VoteSet.sum VoteSet.vsum VoteSet.maj23
  VoteSet.votesByBlock VoteSet.peerMaj23s] in *.

(** [vote] may go into slot [i]: it belongs there, and the set has no vote for
    its block in that slot. *)
Record fresh (vs : VoteSet.t) (v : Vote.t) (i : nat) : Prop := {
  fr_len : (i < length (VoteSet.votes vs))%nat;
  fr_ok : vote_ok (frame vs) i v;
  fr_votes : forall e, VoteSet.votes vs !! i = Some (Some e) -> Vote.BlockID e <> Vote.BlockID v;
  fr_block : forall vbb, VoteSet.votesByBlock vs !! key (Vote.BlockID v) = Some vbb ->
    blockVotes.votes vbb !! i = Some None
}.

Lemma fresh_index vs v i : fresh vs v i -> Vote.ValidatorIndex v = Z.of_nat i.
Proof. intros [_ H _ _]. unfold vote_ok, frame in H. by destruct H as [H _]. Qed.

(** Writing the vote into the canonical list keeps the invariant. *)
Lemma wf_write vs v i ba : wf vs -> fresh vs v i ->
  tracks ba (<[i := Some v]> (VoteSet.votes vs)) ->
  (has (VoteSet.votes vs) i = true -> VoteSet.maj23 vs = Some (Vote.BlockID v)) ->
  forall s, s = weight (VoteSet.valSet vs) (has (<[i := Some v]> (VoteSet.votes vs))) -> forall w,
  wf (VoteSet.set_sums (VoteSet.set_votes vs ba (<[i := Some v]> (VoteSet.votes vs))) s w).
Proof.
  intros [W1 W2 W3 W4 W5 W6 W7 W8] [F1 F2 F3 F4] Hba Hmaj s Hs w. split; vscbn; try done.
  - by rewrite length_insert.
  - by apply votes_ok_insert.
  - intros k vbb Hk. eapply block_wf_frame; [| |by apply W6]; [done|]. vscbn. intros j Hj.
    by rewrite has_insert, Hj.
  - intros b Hb. destruct (W7 b Hb) as (vbb & Hk & Hq & Hsub). exists vbb. split_and!; [done|done|].
    intros j u Hu. destruct (decide (j = i)) as [->|Hne]; [|rewrite list_lookup_insert_ne by done; by apply Hsub].
    exfalso. pose proof (Hsub i u Hu) as Hvi.
    assert (has (VoteSet.votes vs) i = true) as Hhas by (unfold has; by rewrite Hvi).
    pose proof (Hmaj Hhas) as Hm. rewrite Hb in Hm. injection Hm as ->.
    by rewrite (F4 vbb Hk) in Hu.
Qed.

(** The canonical vote of a slot. *)
Definition slot vs (i : nat) : option Vote.t :=
  match VoteSet.votes vs !! i with Some o => o | None => None end.

Lemma slot_has vs i : has (VoteSet.votes vs) i = true <-> is_Some (slot vs i).
Proof. unfold has, slot. destruct (VoteSet.votes vs !! i) as [[?|]|]; split; try done; by intros [? ?]. Qed.

Lemma weight_has_insert s vts i v : (i < length vts)%nat -> length vts = length (ValidatorSet.Validators s) ->
  weight s (has (<[i := Some v]> vts)) = weight s (has vts) + (if has vts i then 0 else powerAt s i).
Proof.
  intros Hi Hl. destruct (has vts i) eqn:E.
  - rewrite Z.add_0_r. apply weight_ext. intros j _. rewrite has_insert by done.
    destruct (Nat.eqb_spec j i) as [->|]; [by rewrite E|by rewrite orb_false_r].
  - rewrite <- weight_set by (done || lia). apply weight_ext. intros j _. by rewrite has_insert.
Qed.

(** What [addCanonical] does on every branch. *)
Lemma addCanonical_spec vs v i : wf vs -> fresh vs v i -> exists vs',
  VoteSet.addCanonical vs v (key (Vote.BlockID v)) (powerAt (VoteSet.valSet vs) i)
    = Ret (vs', slot vs i) /\
  wf vs' /\ frame vs' = frame vs /\ VoteSet.valSet vs' = VoteSet.valSet vs /\
  VoteSet.votesByBlock vs' = VoteSet.votesByBlock vs /\ VoteSet.maj23 vs' = VoteSet.maj23 vs /\
  VoteSet.peerMaj23s vs' = VoteSet.peerMaj23s vs /\
  VoteSet.votes vs' = (if has (VoteSet.votes vs) i && negb (bool_decide (VoteSet.maj23 vs = Some (Vote.BlockID v)))
                       then VoteSet.votes vs else <[i := Some v]> (VoteSet.votes vs)).
Proof.
  intros Hwf Hf. pose proof (fresh_index vs v i Hf) as Ei. pose proof Hwf as [W1 W2 W3 W4 W5 W6 W7 W8].
  pose proof Hf as [F1 F2 F3 F4]. unfold VoteSet.addCanonical. rewrite Ei.
  destruct (lookup_lt_is_Some_2 _ _ F1) as [o Ho]. rewrite (slice_get_nat _ _ _ Ho). cbn [obind].
  assert (slot vs i = o) as -> by (unfold slot; by rewrite Ho).
  destruct (tracks_set (VoteSet.votesBitArray vs) (VoteSet.votes vs) i v W3 F1) as (r & ba & Eb & Hba).
  assert (has (VoteSet.votes vs) i = bool_decide (is_Some o)) as Eh.
  { unfold has. rewrite Ho. by destruct o. }
  assert (slice_set (VoteSet.votes vs) (Z.of_nat i) (Some v) = Ret (<[i := Some v]> (VoteSet.votes vs))) as Ess.
  { rewrite slice_set_in by (unfold zlen; lia). by rewrite Nat2Z.id. }
  pose proof (weight_has_insert (VoteSet.valSet vs) _ i v F1 W2) as Hw.
  destruct o as [e|].
  - destruct (BlockID.Equals (Vote.BlockID e) (Vote.BlockID v)) eqn:Ee.
    { apply BlockID_Equals_spec in Ee. by apply F3 in Ho. }
    rewrite Eh in *. cbn [bool_decide decide] in *. rewrite bool_decide_eq_true_2 in * by done. cbn [andb].
    assert ((match VoteSet.maj23 vs with Some b => let! k := Key b in Ret (bool_decide (k = key (Vote.BlockID v))) | None => Ret false end)
      = Ret (bool_decide (VoteSet.maj23 vs = Some (Vote.BlockID v)))) as ->.
    { destruct (VoteSet.maj23 vs) as [b|]; [|done]. rewrite Key_key. cbn [obind]. f_equal. apply bool_decide_ext.
      split; [intros E; f_equal; by apply key_inj|by intros [= ->]]. }
    cbn [obind]. destruct (bool_decide (VoteSet.maj23 vs = _)) eqn:Em; cbn [negb].
    + rewrite Ess. cbn [obind]. rewrite Eb. cbn [obind]. eexists. split; [done|].
      split; [|by vscbn]. apply bool_decide_eq_true in Em.
      apply (wf_write vs v i ba Hwf Hf Hba (fun _ => Em) (VoteSet.sum vs)). rewrite W5, Hw. lia.
    + by exists vs.
  - rewrite Eh in *. rewrite bool_decide_eq_false_2 in * by (by intros [? ?]). cbn [andb].
    rewrite Ess. cbn [obind]. rewrite Eb. cbn [obind]. eexists. split; [done|]. split; [|by vscbn]. vscbn.
    apply wf_write; [done..| |]; [by rewrite Eh|]. rewrite Hw, W5, <- Hw. by apply i64_weight.
Qed.

(** ** The votes of the block *)

Lemma supermajority_sums vs x : quorate (VoteSet.valSet vs) ->
  let q := i64 (ValidatorSet.twoThirds (powers (ValidatorSet.Validators (VoteSet.valSet vs))) + 1) in
  (q <=? x) = true <-> supermajority vs x.
Proof.
  intros Hq q. destruct Hq as (Hp & Hm & _). pose proof (zsum_nonneg _ _ Hp) as Hn.
  fold (powers (ValidatorSet.Validators (VoteSet.valSet vs))) in Hn.
  pose proof (fun x => twoThirds_spec _ x Hn Hm) as H23. unfold supermajority. rewrite <- H23, Z.leb_le.
  set (P := powers (ValidatorSet.Validators (VoteSet.valSet vs))) in *.
  assert (q = ValidatorSet.twoThirds P + 1) as ->; [|lia].
  unfold q. apply i64_id. unfold ValidatorSet.twoThirds.
  rewrite (i64_id (P * 2)) by (unfold in_i64, min_i64, max_i64 in *; lia).
  rewrite Z.quot_div_nonneg by lia. pose proof (Z.div_pos (P * 2) 3 ltac:(lia) ltac:(lia)).
  pose proof (Z.div_le_upper_bound (P * 2) 3 (P * 2 - 1)). unfold in_i64, min_i64, max_i64 in *.
  destruct (Z.eq_dec P 0) as [->|]; [by vm_compute|]. lia.
Qed.

Lemma weight_agrees_insert s vts i v : (i < length vts)%nat -> length vts = length (ValidatorSet.Validators s) ->
  vts !! i = Some None ->
  weight s (agrees (<[i := Some v]> vts))
  = weight s (agrees vts) + (if Vote.Result v =? VoteAgree then powerAt s i else 0).
Proof.
  intros Hi Hl Hn. destruct (Vote.Result v =? VoteAgree) eqn:E.
  - rewrite <- weight_set; [|unfold agrees; by rewrite Hn|lia]. apply weight_ext. intros j _.
    rewrite agrees_insert, E by done. destruct (Nat.eqb_spec j i) as [->|]; [by rewrite orb_true_r|by rewrite orb_false_r].
  - rewrite Z.add_0_r. apply weight_ext. intros j _. rewrite agrees_insert, E by done.
    destruct (Nat.eqb_spec j i) as [->|]; [|done]. unfold agrees. by rewrite Hn.
Qed.

Lemma blockAdd_spec vs k vbb v i : quorate (VoteSet.valSet vs) -> block_wf vs k vbb ->
  vote_ok (frame vs) i v -> key (Vote.BlockID v) = k -> has (VoteSet.votes vs) i = true ->
  blockVotes.votes vbb !! i = Some None -> exists vbb',
  blockVotes.addVerifiedVote vbb v (powerAt (VoteSet.valSet vs) i) = Ret vbb' /\ block_wf vs k vbb' /\
  blockVotes.peerMaj23 vbb' = blockVotes.peerMaj23 vbb /\
  blockVotes.votes vbb' = <[i := Some v]> (blockVotes.votes vbb) /\ blockVotes.sum vbb <= blockVotes.sum vbb'.
Proof.
  intros Hq [B1 B2 B3 B4 B5 B6] Hok Hk Hhas Hn. apply lookup_lt_Some in Hn as Hi.
  assert (Vote.ValidatorIndex v = Z.of_nat i) as Ei by (unfold vote_ok, frame in Hok; by destruct Hok as [Hok _]).
  unfold blockVotes.addVerifiedVote. rewrite Ei, (slice_get_nat _ _ _ Hn). cbn [obind].
  destruct (tracks_set _ _ i v B2 Hi) as (r & ba & -> & Hba). cbn [obind].
  rewrite slice_set_in by (unfold zlen; lia). cbn [obind]. rewrite Nat2Z.id. eexists. split; [done|].
  pose proof (weight_agrees_insert (VoteSet.valSet vs) _ i v Hi B1 Hn) as Hw.
  assert ((if Vote.Result v =? VoteAgree then i64 (blockVotes.sum vbb + powerAt (VoteSet.valSet vs) i) else blockVotes.sum vbb)
    = weight (VoteSet.valSet vs) (agrees (<[i := Some v]> (blockVotes.votes vbb)))) as Hsum.
  { rewrite <- (i64_weight _ (agrees (<[i := Some v]> _)) Hq), Hw, <- B5.
    destruct (Vote.Result v =? VoteAgree); [done|]. rewrite Z.add_0_r, B5. by rewrite i64_weight. }
  pose proof (powerAt_nonneg (VoteSet.valSet vs) i Hq).
  split_and!; [|done|done|cbn [blockVotes.sum]; rewrite Hsum, Hw, B5; destruct (_ =? _); lia].
  split; cbn [blockVotes.votes blockVotes.bitArray blockVotes.sum]; try done.
  - by rewrite length_insert.
  - by apply votes_ok_insert.
  - intros j w Hj. apply list_lookup_insert_Some in Hj as [(_ & [= <-] & _)|[_ Hj]]; [done|by eapply B4].
  - intros j. rewrite has_insert by done. intros [Hj|Hj]%orb_true_iff; [auto|].
    apply Nat.eqb_eq in Hj as ->. done.
Qed.

(** Recording the block keeps the invariant, while no majority is announced. *)
Lemma wf_record vs vals' k vbb vbb' v i : wf vs ->
  ValidatorSet.Validators vals' = ValidatorSet.Validators (VoteSet.valSet vs) -> quorate vals' ->
  block_wf vs k vbb' -> key (Vote.BlockID v) = k ->
  blockVotes.votes vbb' = <[i := Some v]> (blockVotes.votes vbb) ->
  blockVotes.sum vbb <= blockVotes.sum vbb' ->
  (forall b, VoteSet.maj23 vs = Some b -> key b = k ->
     VoteSet.votesByBlock vs !! k = Some vbb /\ VoteSet.votes vs !! i = Some (Some v)) ->
  (VoteSet.maj23 vs = None -> ~ supermajority vs (blockVotes.sum vbb')) ->
  wf (VoteSet.set_valSet (VoteSet.set_votesByBlock vs (<[k := vbb']> (VoteSet.votesByBlock vs))) vals').
Proof.
  intros [W1 W2 W3 W4 W5 W6 W7 W8] Ev Hq Hb Hk Evt Hle Hmaj Hno.
  set (vs' := VoteSet.set_valSet _ _). assert (frame vs' = frame vs) as Ef by (unfold frame, vs'; vscbn; by rewrite Ev).
  assert (forall x, supermajority vs' x <-> supermajority vs x) as Hsm by (intros x; unfold supermajority, vs'; vscbn; by rewrite Ev).
  split; try done.
  - change (length (VoteSet.votes vs) = length (ValidatorSet.Validators vals')). by rewrite Ev.
  - rewrite Ef. exact W4.
  - change (VoteSet.sum vs = weight vals' (has (VoteSet.votes vs))). rewrite W5. by apply weight_same.
  - unfold vs'. vscbn. intros k' w Hw. apply lookup_insert_Some in Hw as [[<- <-]|[_ Hw]];
      (eapply block_wf_frame; [exact Ef| |]; [done|auto]).
  - intros b Hmb. destruct (W7 b Hmb) as (w & Hw & Hsw & Hsub).
    destruct (decide (key b = k)) as [Ek|Ek].
    + destruct (Hmaj b Hmb Ek) as [Hvbb Hvi]. rewrite Ek in Hw. rewrite Hvbb in Hw. injection Hw as <-.
      exists vbb'. rewrite Ek. split_and!; [apply lookup_insert_eq| |].
      * apply Hsm. unfold supermajority in *. lia.
      * intros j u. rewrite Evt. intros Hj. apply list_lookup_insert_Some in Hj as [(<- & [= <-] & _)|[_ Hj]]; [done|].
        by apply Hsub.
    + exists w. split_and!; [|by apply Hsm|done]. unfold vs'. vscbn. by rewrite lookup_insert_ne.
  - intros Hnm k' w Hw. rewrite Hsm. unfold vs' in Hw. vscbn.
    apply lookup_insert_Some in Hw as [[<- <-]|[_ Hw]]; [auto|by eapply W8].
Qed.

(** Announcing the majority keeps it. *)
Lemma wf_announce vs vals' b vbb' : wf vs ->
  ValidatorSet.Validators vals' = ValidatorSet.Validators (VoteSet.valSet vs) -> quorate vals' ->
  block_wf vs (key b) vbb' -> supermajority vs (blockVotes.sum vbb') ->
  wf (VoteSet.set_maj23 (VoteSet.set_valSet (VoteSet.set_votesByBlock vs
        (<[key b := vbb']> (VoteSet.votesByBlock vs))) vals') b
        (overlay (blockVotes.votes vbb') (VoteSet.votes vs))).
Proof.
  intros [W1 W2 W3 W4 W5 W6 W7 W8] Ev Hq Hb Hsup. set (vts := overlay _ _).
  set (vs' := VoteSet.set_maj23 _ _ _). assert (frame vs' = frame vs) as Ef by (unfold frame, vs'; vscbn; by rewrite Ev).
  pose proof Hb as [B1 B2 B3 B4 B5 B6]. assert (length (blockVotes.votes vbb') = length (VoteSet.votes vs)) as Hl by congruence.
  assert (forall i, has vts i = has (VoteSet.votes vs) i) as Hh.
  { intros i. unfold vts. specialize (B6 i). unfold has in *. rewrite overlay_lookup by done.
    destruct (blockVotes.votes vbb' !! i) as [[u|]|]; [|done|done]. by rewrite B6. }
  split; try done.
  - change (length vts = length (ValidatorSet.Validators vals')). rewrite Ev, <- W2. by apply overlay_length.
  - change (tracks (VoteSet.votesBitArray vs) vts). eapply tracks_same; [| |exact W3]; [|done].
    symmetry. by apply overlay_length.
  - rewrite Ef. change (votes_ok (frame vs) vts). intros i u. unfold vts. rewrite overlay_lookup by done.
    destruct (blockVotes.votes vbb' !! i) as [[w|]|] eqn:Ew; [|by apply W4..]. intros [= <-]. by apply B3.
  - change (VoteSet.sum vs = weight vals' (has vts)). rewrite W5. erewrite weight_same by done.
    apply weight_ext. intros i _. by rewrite Hh.
  - unfold vs'. vscbn. intros k' w Hw. apply lookup_insert_Some in Hw as [[<- <-]|[_ Hw]];
      (eapply block_wf_frame; [exact Ef| |]; [unfold vs'; vscbn; intros i; by rewrite Hh|auto]).
  - unfold vs'. vscbn. intros b' [= <-]. exists vbb'. rewrite lookup_insert_eq. split_and!; [done| |].
    + unfold supermajority in *. vscbn. by rewrite Ev.
    + intros i u Hu. unfold vts. by rewrite overlay_lookup, Hu.
Qed.

Lemma addToBlock_spec vs vbb v i : wf vs -> vote_ok (frame vs) i v ->
  block_wf vs (key (Vote.BlockID v)) vbb -> blockVotes.votes vbb !! i = Some None ->
  has (VoteSet.votes vs) i = true ->
  (VoteSet.votesByBlock vs !! key (Vote.BlockID v) = Some vbb \/
   VoteSet.votesByBlock vs !! key (Vote.BlockID v) = None /\ blockVotes.sum vbb = 0) ->
  (VoteSet.maj23 vs = Some (Vote.BlockID v) -> VoteSet.votes vs !! i = Some (Some v)) ->
  exists vs' vbb',
  VoteSet.addToBlock vs v (key (Vote.BlockID v)) (powerAt (VoteSet.valSet vs) i) vbb = Ret vs' /\
  wf vs' /\ frame vs' = frame vs /\ VoteSet.peerMaj23s vs' = VoteSet.peerMaj23s vs /\
  VoteSet.votesByBlock vs' = <[key (Vote.BlockID v) := vbb']> (VoteSet.votesByBlock vs) /\
  blockVotes.votes vbb' = <[i := Some v]> (blockVotes.votes vbb) /\
  blockVotes.peerMaj23 vbb' = blockVotes.peerMaj23 vbb /\
  (forall b, VoteSet.maj23 vs = Some b -> VoteSet.maj23 vs' = Some b /\ VoteSet.votes vs' = VoteSet.votes vs) /\
  (VoteSet.maj23 vs = None ->
     if bool_decide (supermajority vs (blockVotes.sum vbb'))
     then VoteSet.maj23 vs' = Some (Vote.BlockID v) /\
          VoteSet.votes vs' = overlay (blockVotes.votes vbb') (VoteSet.votes vs)
     else VoteSet.maj23 vs' = None /\ VoteSet.votes vs' = VoteSet.votes vs).
Proof.
  intros Hwf Hok Hb Hn Hhas Hcase Hmaj. pose proof Hwf as [W1 W2 W3 W4 W5 W6 W7 W8].
  destruct (blockAdd_spec vs _ vbb v i W1 Hb Hok eq_refl Hhas Hn) as (vbb' & Eadd & Hb' & Hpm & Evt & Hle).
  unfold VoteSet.addToBlock. destruct (TotalVotingPower_quorate _ W1) as (vals' & -> & Ev & Hq').
  rewrite Eadd. cbn [obind]. pose proof (supermajority_sums vs (blockVotes.sum vbb) W1) as Hs1.
  pose proof (supermajority_sums vs (blockVotes.sum vbb') W1) as Hs2. cbv zeta in Hs1, Hs2.
  set (q := i64 (ValidatorSet.twoThirds _ + 1)) in *.
  assert (frame (VoteSet.set_valSet (VoteSet.set_votesByBlock vs (<[key (Vote.BlockID v) := vbb']> (VoteSet.votesByBlock vs))) vals') = frame vs) as Ef
    by (unfold frame; vscbn; by rewrite Ev).
  assert (VoteSet.maj23 vs = None -> ~ supermajority vs (blockVotes.sum vbb)) as Hold.
  { intros Hm. destruct Hcase as [Hc|[_ Hc]]; [by eapply W8|]. unfold supermajority. rewrite Hc.
    destruct W1 as (Hp & _). pose proof (zsum_nonneg _ _ Hp) as Hn0. unfold powers. lia. }
  assert (forall b, VoteSet.maj23 vs = Some b -> key b = key (Vote.BlockID v) ->
     VoteSet.votesByBlock vs !! key (Vote.BlockID v) = Some vbb /\ VoteSet.votes vs !! i = Some (Some v)) as Hmk.
  { intros b Hm Ek. apply key_inj in Ek as ->. split; [|auto]. destruct (W7 _ Hm) as (w & Hw & _).
    destruct Hcase as [Hc|[Hc _]]; [done|congruence]. }
  destruct (VoteSet.maj23 vs) as [b|] eqn:Em.
  - eexists _, vbb'. split; [vscbn; rewrite Em; by destruct (_ && _)|]. split_and!; try done.
    + eapply wf_record; try done; [by rewrite Em|by rewrite Em].
    + intros b' [= <-]. by vscbn.
  - destruct (decide (supermajority vs (blockVotes.sum vbb'))) as [Hsup|Hsup].
    + apply Hs2 in Hsup as Hq2. rewrite Hq2.
      assert ((blockVotes.sum vbb <? q) = true) as ->.
      { apply Z.ltb_lt. destruct (Z.ltb_spec (blockVotes.sum vbb) q); [done|].
        exfalso. apply (Hold eq_refl), Hs1, Z.leb_le. lia. }
      cbn [andb]. vscbn. rewrite Em. rewrite copyVotes_spec by (destruct Hb'; congruence). cbn [obind].
      eexists _, vbb'. split; [done|]. split_and!; try done; [by apply wf_announce|].
      intros _. by rewrite bool_decide_eq_true_2.
    + assert ((q <=? blockVotes.sum vbb') = false) as ->.
      { destruct (q <=? blockVotes.sum vbb') eqn:E; [|done]. exfalso. by apply Hsup, Hs2. }
      rewrite andb_false_r. eexists _, vbb'. split; [done|]. split_and!; try done.
      * eapply wf_record; try done. by rewrite Em.
      * intros _. by rewrite bool_decide_eq_false_2.
Qed.
End Invariant.

(** ** Adding a vote *)

Section AddVote.
Context {L : Lib} {HL : LibLaws L}.
Implicit Types (vs : VoteSet.t) (v : Vote.t) (b : BlockID.t) (vbb : blockVotes.t).

(** What every operation of a vote set keeps. *)
Record extends (vs vs' : VoteSet.t) : Prop := {
  ext_frame : frame vs' = frame vs;
  ext_maj : forall b, VoteSet.maj23 vs = Some b -> VoteSet.maj23 vs' = Some b;
  ext_has : forall i, has (VoteSet.votes vs) i = true -> has (VoteSet.votes vs') i = true;
  ext_block : forall k vbb, VoteSet.votesByBlock vs !! k = Some vbb -> exists vbb',
    VoteSet.votesByBlock vs' !! k = Some vbb' /\
    forall i v, blockVotes.votes vbb !! i = Some (Some v) -> blockVotes.votes vbb' !! i = Some (Some v)
}.

Lemma extends_refl vs : extends vs vs.
Proof. split; try done. eauto. Qed.

Lemma extends_trans vs1 vs2 vs3 : extends vs1 vs2 -> extends vs2 vs3 -> extends vs1 vs3.
Proof.
  intros [A1 A2 A3 A4] [B1 B2 B3 B4]. split; [congruence|auto|auto|].
  intros k w Hw. destruct (A4 k w Hw) as (w' & Hw' & Hs). destruct (B4 k w' Hw') as (w2 & Hw2 & Hs2). eauto.
Qed.

#[global] Instance extends_preorder : PreOrder extends.
Proof. split; [exact extends_refl|exact extends_trans]. Qed.

Lemma overlay_has from to i : length from = length to -> has to i = true -> has (overlay from to) i = true.
Proof.
  intros Hl H. unfold has in *. rewrite overlay_lookup by done. by destruct (from !! i) as [[?|]|].
Qed.

(** The block of [v] that [addVerifiedVote] adds to. *)
Lemma fresh_tracked vs v i : wf vs -> fresh vs v i -> exists vbb,
  default (blockVotes.newBlockVotes false (ValidatorSet.Size (VoteSet.valSet vs)))
    (VoteSet.votesByBlock vs !! key (Vote.BlockID v)) = vbb /\
  block_wf vs (key (Vote.BlockID v)) vbb /\ blockVotes.votes vbb !! i = Some None /\
  (VoteSet.votesByBlock vs !! key (Vote.BlockID v) = Some vbb \/
   VoteSet.votesByBlock vs !! key (Vote.BlockID v) = None /\ blockVotes.sum vbb = 0).
Proof.
  intros [W1 W2 W3 W4 W5 W6 W7 W8] [F1 F2 F3 F4].
  destruct (VoteSet.votesByBlock vs !! key (Vote.BlockID v)) as [vbb|] eqn:E; simpl.
  - exists vbb. split_and!; [done|by apply W6|by apply F4|by left].
  - eexists. split; [done|]. split_and!; [by apply newBlockVotes_wf| |by right].
    simpl. rewrite emptyVotes_lookup. unfold ValidatorSet.Size, zlen. rewrite Nat2Z.id.
    destruct (Nat.ltb_spec i (length (ValidatorSet.Validators (VoteSet.valSet vs)))); [done|lia].
Qed.

(** The step from the canonical list to the block. *)
Lemma addToBlock_after vs vs1 v i vbb : wf vs -> fresh vs v i ->
  wf vs1 -> frame vs1 = frame vs -> VoteSet.valSet vs1 = VoteSet.valSet vs ->
  VoteSet.votesByBlock vs1 = VoteSet.votesByBlock vs -> VoteSet.maj23 vs1 = VoteSet.maj23 vs ->
  VoteSet.votes vs1 = (if has (VoteSet.votes vs) i && negb (bool_decide (VoteSet.maj23 vs = Some (Vote.BlockID v)))
                       then VoteSet.votes vs else <[i := Some v]> (VoteSet.votes vs)) ->
  default (blockVotes.newBlockVotes false (ValidatorSet.Size (VoteSet.valSet vs)))
    (VoteSet.votesByBlock vs !! key (Vote.BlockID v)) = vbb ->
  exists vs', VoteSet.addToBlock vs1 v (key (Vote.BlockID v)) (powerAt (VoteSet.valSet vs) i) vbb = Ret vs' /\
    wf vs' /\ extends vs vs' /\
    (slot vs i = None -> slot vs' i = Some v) /\
    (exists vbb', VoteSet.votesByBlock vs' = <[key (Vote.BlockID v) := vbb']> (VoteSet.votesByBlock vs) /\
       blockVotes.votes vbb' !! i = Some (Some v)) /\
    (forall b, VoteSet.maj23 vs' = Some b -> VoteSet.maj23 vs = Some b \/ b = Vote.BlockID v) /\
    (forall j, has (VoteSet.votes vs') j = true -> has (VoteSet.votes vs) j = true \/ j = i).
Proof.
  intros Hwf Hf Hwf1 Ef Evs Evb Em Evt Ed.
  destruct (fresh_tracked vs v i Hwf Hf) as (vbb0 & Ed0 & Hb & Hn & Hcase). rewrite Ed in Ed0. subst vbb0.
  pose proof Hf as [F1 F2 F3 F4].
  assert (forall j, has (VoteSet.votes vs) j = true -> has (VoteSet.votes vs1) j = true) as Hmono.
  { intros j Hj. rewrite Evt. destruct (_ && _); [done|]. by rewrite has_insert, Hj. }
  assert (has (VoteSet.votes vs1) i = true) as Hhas.
  { rewrite Evt. destruct (has (VoteSet.votes vs) i) eqn:Eh; simpl; [destruct (negb _)|];
      try done; by rewrite has_insert, Nat.eqb_refl, orb_true_r. }
  assert (slot vs i = None -> VoteSet.votes vs1 = <[i := Some v]> (VoteSet.votes vs)) as Hnone.
  { intros Hs. rewrite Evt. destruct (has (VoteSet.votes vs) i) eqn:Eh; [|done].
    apply slot_has in Eh as [? Eh]. congruence. }
  destruct (addToBlock_spec vs1 vbb v i) as (vs' & vbb' & E & Hwf' & Ef' & _ & Evb' & Evt' & Hpm' & Hm1 & Hm2).
  - done.
  - by rewrite Ef.
  - eapply block_wf_frame; [exact Ef|exact Hmono|done].
  - done.
  - done.
  - by rewrite Evb.
  - rewrite Em. intros Hm. rewrite Evt, (bool_decide_eq_true_2 _ Hm), andb_false_r.
    by apply list_lookup_insert_eq.
  - rewrite Evs in E. exists vs'. split; [done|]. split; [done|].
    apply lookup_lt_Some in Hn as Hi.
    assert (length (blockVotes.votes vbb') = length (VoteSet.votes vs1)) as Hlen.
    { rewrite Evt', length_insert. pose proof (bw_len _ _ _ Hb). pose proof (wf_len _ Hwf1). congruence. }
    assert (VoteSet.votes vs' = VoteSet.votes vs1 \/ VoteSet.votes vs' = overlay (blockVotes.votes vbb') (VoteSet.votes vs1)) as Hvv.
    { destruct (VoteSet.maj23 vs1) as [b|] eqn:Em1; [left; by apply (Hm1 b)|].
      specialize (Hm2 eq_refl). destruct (bool_decide (supermajority vs1 (blockVotes.sum vbb'))); destruct Hm2; auto. }
    split; [split; [congruence| | |]|split_and!].
    + intros b Hmb. rewrite <- Em in Hmb. by apply Hm1.
    + intros j Hj. destruct Hvv as [->| ->]; [auto|]. apply overlay_has; auto.
    + intros k w Hw. rewrite Evb', Evb. destruct (decide (key (Vote.BlockID v) = k)) as [<-|Hne].
      * rewrite lookup_insert_eq. exists vbb'. split; [done|]. rewrite Hw in Ed. simpl in Ed. subst w. rewrite Evt'.
        intros j u Hu. rewrite list_lookup_insert_ne; [done|]. intros ->. congruence.
      * rewrite lookup_insert_ne by done. eauto.
    + intros Hs. unfold slot. destruct Hvv as [->| ->].
      * rewrite (Hnone Hs). by rewrite list_lookup_insert_eq.
      * rewrite overlay_lookup by done. rewrite Evt'. by rewrite list_lookup_insert_eq.
    + exists vbb'. rewrite Evb', Evb. split; [done|]. rewrite Evt'. by apply list_lookup_insert_eq.
    + intros b Hb'. destruct (VoteSet.maj23 vs1) as [b0|] eqn:Em1.
      * destruct (Hm1 b0 eq_refl) as [Hx _]. rewrite Hx in Hb'. left. congruence.
      * specialize (Hm2 eq_refl). destruct (bool_decide (supermajority vs1 (blockVotes.sum vbb'))); destruct Hm2 as [Hx _]; rewrite Hx in Hb'; [right|]; congruence.
    + assert (forall j, has (VoteSet.votes vs1) j = true -> has (VoteSet.votes vs) j = true \/ j = i) as H1.
      { intros j. rewrite Evt. destruct (_ && _); [by left|]. rewrite has_insert by done.
        intros [?|?%Nat.eqb_eq]%orb_true_iff; auto. }
      intros j. destruct Hvv as [->| ->]; [auto|]. unfold has at 1. rewrite overlay_lookup by done.
      destruct (blockVotes.votes vbb' !! j) as [[u|]|] eqn:Eu; [|apply H1..]. intros _.
      rewrite Evt' in Eu. apply list_lookup_insert_Some in Eu as [(-> & _ & _)|[_ Eu]]; [by right|]. left.
      apply (bw_seen _ _ _ Hb). unfold has. by rewrite Eu.
Qed.

Lemma addVerifiedVote_spec vs v i : wf vs -> fresh vs v i -> exists added vs',
  VoteSet.addVerifiedVote vs v (key (Vote.BlockID v)) (powerAt (VoteSet.valSet vs) i)
    = Ret (added, slot vs i, vs') /\
  wf vs' /\ extends vs vs' /\
  (slot vs i = None -> added = true /\ slot vs' i = Some v) /\
  (added = true -> exists vbb', VoteSet.votesByBlock vs' = <[key (Vote.BlockID v) := vbb']> (VoteSet.votesByBlock vs) /\
       blockVotes.votes vbb' !! i = Some (Some v)) /\
  (forall b, VoteSet.maj23 vs' = Some b -> VoteSet.maj23 vs = Some b \/ b = Vote.BlockID v) /\
  (forall j, has (VoteSet.votes vs') j = true -> has (VoteSet.votes vs) j = true \/ j = i).
Proof.
  intros Hwf Hf. destruct (addCanonical_spec vs v i Hwf Hf) as (vs1 & E & Hwf1 & Ef & Evs & Evb & Em & Ep & Evt).
  unfold VoteSet.addVerifiedVote. rewrite E. cbn [obind]. rewrite Evb, Evs.
  assert (forall j, has (VoteSet.votes vs1) j = true -> has (VoteSet.votes vs) j = true \/ j = i) as Hj1.
  { intros j. rewrite Evt. pose proof Hf as [F1 _ _ _]. destruct (_ && _); [by left|]. rewrite has_insert by done.
    intros [?|?%Nat.eqb_eq]%orb_true_iff; auto. }
  assert (extends vs vs1) as Hext.
  { split; [done|by rewrite Em| |rewrite Evb; eauto]. intros j Hj. rewrite Evt. pose proof Hf as [F1 _ _ _].
    destruct (_ && _); [done|]. by rewrite has_insert, Hj. }
  pose proof (addToBlock_after vs vs1 v i _ Hwf Hf Hwf1 Ef Evs Evb Em Evt eq_refl) as Hadd.
  destruct (VoteSet.votesByBlock vs !! key (Vote.BlockID v)) as [vbb|] eqn:Ek; cbn [from_option id] in Hadd;
    destruct (slot vs i) as [c|] eqn:Es.
  - destruct (blockVotes.peerMaj23 vbb); cbn [negb].
    + destruct Hadd as (vs' & -> & Hwf' & Hx & _ & Hb & Hm & Hj). exists true, vs'. by split_and!.
    + exists false, vs1. split_and!; try done. intros b Hb. left. congruence.
  - destruct Hadd as (vs' & -> & Hwf' & Hx & Hs & Hb & Hm & Hj). exists true, vs'. split_and!; auto.
  - exists false, vs1. split_and!; try done. intros b Hb. left. congruence.
  - destruct Hadd as (vs' & -> & Hwf' & Hx & Hs & Hb & Hm & Hj). exists true, vs'. split_and!; auto.
Qed.

(** The vote of a block the set already has in a slot. *)
Definition known vs (i : nat) b : option Vote.t :=
  match slot vs i with
  | Some e => if BlockID.Equals (Vote.BlockID e) b then Some e
              else match VoteSet.votesByBlock vs !! key b with
                   | Some vbb => match blockVotes.votes vbb !! i with Some o => o | None => None end
                   | None => None
                   end
  | None => match VoteSet.votesByBlock vs !! key b with
            | Some vbb => match blockVotes.votes vbb !! i with Some o => o | None => None end
            | None => None
            end
  end.

Lemma getVote_spec vs i b : wf vs -> (i < length (VoteSet.votes vs))%nat ->
  VoteSet.getVote vs (Z.of_nat i) (key b) = Ret (known vs i b).
Proof.
  intros Hwf Hi. destruct (lookup_lt_is_Some_2 _ _ Hi) as [o Ho].
  assert (blockVotes.getByIndex (VoteSet.votesByBlock vs !! key b) (Z.of_nat i) =
    Ret (match VoteSet.votesByBlock vs !! key b with
         | Some vbb => match blockVotes.votes vbb !! i with Some o => o | None => None end | None => None end)) as Eb.
  { destruct (VoteSet.votesByBlock vs !! key b) as [vbb|] eqn:E; [|done]. simpl.
    pose proof (bw_len _ _ _ (wf_blocks _ Hwf _ _ E)). pose proof (wf_len _ Hwf).
    destruct (lookup_lt_is_Some_2 (blockVotes.votes vbb) i) as [u Hu]; [lia|].
    by rewrite (slice_get_nat _ _ _ Hu), Hu. }
  unfold VoteSet.getVote, known, slot. rewrite (slice_get_nat _ _ _ Ho). cbn [obind]. rewrite Ho, Eb.
  destruct o as [e|]; [|done]. rewrite Key_key. cbn [obind].
  destruct (BlockID.Equals (Vote.BlockID e) b) eqn:Ee.
  - apply BlockID_Equals_spec in Ee as ->. by rewrite bool_decide_eq_true_2.
  - rewrite bool_decide_eq_false_2; [done|]. intros Ek%key_inj. apply BlockID_Equals_spec in Ek. congruence.
Qed.

Lemma fresh_known vs v i : wf vs -> (i < length (VoteSet.votes vs))%nat ->
  fresh vs v i <-> vote_ok (frame vs) i v /\ known vs i (Vote.BlockID v) = None.
Proof.
  intros Hwf Hi. unfold known, slot. split.
  - intros [F1 F2 F3 F4]. split; [done|]. destruct (VoteSet.votes vs !! i) as [[e|]|] eqn:Es.
    + destruct (BlockID.Equals _ _) eqn:Ee; [apply BlockID_Equals_spec in Ee; by apply (F3 e) in Ee|].
      destruct (VoteSet.votesByBlock vs !! _) as [vbb|] eqn:Eb; [|done]. by rewrite (F4 vbb).
    + destruct (VoteSet.votesByBlock vs !! _) as [vbb|] eqn:Eb; [|done]. by rewrite (F4 vbb).
    + destruct (VoteSet.votesByBlock vs !! _) as [vbb|] eqn:Eb; [|done]. by rewrite (F4 vbb).
  - intros [Hok Hk]. split; [done|done| |].
    + intros e He. rewrite He in Hk. intros E. apply BlockID_Equals_spec in E. by rewrite E in Hk.
    + intros vbb Eb. rewrite Eb in Hk.
      pose proof (bw_len _ _ _ (wf_blocks _ Hwf _ _ Eb)). pose proof (wf_len _ Hwf).
      destruct (lookup_lt_is_Some_2 (blockVotes.votes vbb) i) as [o Ho]; [lia|]. rewrite Ho in *.
      destruct (VoteSet.votes vs !! i) as [[e|]|]; [|by rewrite Hk..].
      destruct (BlockID.Equals _ _); [done|by rewrite Hk].
Qed.

(** [addVote] on every branch. *)
Definition add_post vs v (r : bool * option vote_error * VoteSet.t) : Prop :=
  let '(added, err, vs') := r in
  wf vs' /\ extends vs vs' /\
  (forall b, VoteSet.maj23 vs' = Some b -> VoteSet.maj23 vs = Some b \/ b = Vote.BlockID v) /\
  (forall j, has (VoteSet.votes vs') j = true ->
     has (VoteSet.votes vs) j = true \/ Vote.ValidatorIndex v = Z.of_nat j) /\
  match err with
  | Some ErrVoteConflictingVotes => exists i e, fresh vs v i /\ slot vs i = Some e
  | Some _ => added = false /\ vs' = vs /\ forall i, ~ fresh vs v i
  | None =>
      if added : bool then
        exists i, fresh vs v i /\ slot vs i = None /\ slot vs' i = Some v /\
          exists vbb, VoteSet.votesByBlock vs' = <[key (Vote.BlockID v) := vbb]> (VoteSet.votesByBlock vs) /\
            blockVotes.votes vbb !! i = Some (Some v)
      else vs' = vs /\ (forall i, ~ fresh vs v i) /\
        exists i e, Vote.ValidatorIndex v = Z.of_nat i /\ known vs i (Vote.BlockID v) = Some e /\
          Vote.Signature e = Vote.Signature v
  end.

Lemma add_reject vs v err : wf vs -> (forall i, ~ fresh vs v i) -> err <> ErrVoteConflictingVotes ->
  add_post vs v (false, Some err, vs).
Proof. intros Hwf Hn Hne. split_and!; try done; [by left|by left|]. by destruct err. Qed.

Lemma fresh_parts vs v i : fresh vs v i ->
  Vote.ValidatorIndex v = Z.of_nat i /\ Vote.Height v = VoteSet.height vs /\
  Vote.Round v = VoteSet.round vs /\ Vote.Type_ v = VoteSet.typeB vs /\ Vote.ValidatorAddress v <> [] /\
  exists val, ValidatorSet.Validators (VoteSet.valSet vs) !! i = Some val /\
    Vote.ValidatorAddress v = Validator.Address val /\
    VoteVerify (VoteSet.chainID vs) (Validator.PubKey val) v = Ret None.
Proof. intros [_ F2 _ _]. exact F2. Qed.

Lemma GetByIndex_cases s z : 0 <= z ->
  match ValidatorSet.GetByIndex s z with
  | Some (a, val) => exists i, z = Z.of_nat i /\ ValidatorSet.Validators s !! i = Some val /\ a = Validator.Address val
  | None => forall i val, z = Z.of_nat i -> ValidatorSet.Validators s !! i = Some val -> False
  end.
Proof.
  intros Hz. unfold ValidatorSet.GetByIndex. rewrite (proj2 (Z.ltb_ge z 0)) by done. cbn [orb].
  destruct (Z.leb_spec (zlen (ValidatorSet.Validators s)) z).
  - intros i val -> Hi%lookup_lt_Some. unfold zlen in *. lia.
  - destruct (ValidatorSet.Validators s !! Z.to_nat z) as [val|] eqn:E.
    + exists (Z.to_nat z). split_and!; [lia|done|done].
    + intros i val -> Hi. rewrite Nat2Z.id in E. congruence.
Qed.

(** The checks passed: what is left is the lookup, the signature and the addition. *)
Lemma addVote_tail vs v i val : wf vs -> Vote.ValidatorIndex v = Z.of_nat i ->
  Vote.Height v = VoteSet.height vs -> Vote.Round v = VoteSet.round vs -> Vote.Type_ v = VoteSet.typeB vs ->
  Vote.ValidatorAddress v <> [] -> ValidatorSet.Validators (VoteSet.valSet vs) !! i = Some val ->
  Vote.ValidatorAddress v = Validator.Address val ->
  exists r, (let! existing := VoteSet.getVote vs (Z.of_nat i) (key (Vote.BlockID v)) in
             match existing with
             | Some e => if bytes_equal (Vote.Signature e) (Vote.Signature v) then Ret (false, None, vs)
                         else Ret (false, Some (Wrapped ErrVoteNonDeterministicSignature), vs)
             | None =>
                 let! err := VoteVerify (VoteSet.chainID vs) (Validator.PubKey val) v in
                 match err with
                 | Some e => Ret (false, Some (Wrapped e), vs)
                 | None =>
                     let! (r, vs) := VoteSet.addVerifiedVote vs v (key (Vote.BlockID v)) (Validator.VotingPower val) in
                     let (added, conflicting) := r in
                     match conflicting with
                     | Some _ => Ret (added, Some ErrVoteConflictingVotes, vs)
                     | None => if negb added then Panic "Expected to add non-conflicting vote" else Ret (added, None, vs)
                     end
                 end
             end) = Ret r /\ add_post vs v r.
Proof.
  intros Hwf Ei Eh Er Et Ea Hv Eaddr. assert (i < length (VoteSet.votes vs))%nat as Hi.
  { rewrite (wf_len _ Hwf). by eapply lookup_lt_Some. }
  rewrite getVote_spec by done. cbn [obind].
  assert (forall j, fresh vs v j -> j = i) as Hj.
  { intros j Hf%fresh_index. lia. }
  destruct (known vs i (Vote.BlockID v)) as [e|] eqn:Ek.
  { assert (forall j, ~ fresh vs v j) as Hno.
    { intros j Hf. pose proof (Hj j Hf) as ->. apply fresh_known in Hf as [_ Hf]; [|done|done]. congruence. }
    destruct (bytes_equal _ _) eqn:Es; (eexists; split; [done|]).
    - split_and!; try done; [by left|by left|]. exists i, e. apply bytes_equal_true in Es. done.
    - by apply add_reject. }
  assert (VoteVerify (VoteSet.chainID vs) (Validator.PubKey val) v = Ret None -> fresh vs v i) as Hfresh.
  { intros Hver. apply fresh_known; [done|done|]. split; [|done]. split_and!; eauto. }
  assert (exists r, VoteVerify (VoteSet.chainID vs) (Validator.PubKey val) v = Ret r) as [err Everr].
  { unfold VoteVerify. destruct (negb _); [eauto|]. destruct (VoteSignBytes_total (VoteSet.chainID vs) v) as [sb ->].
    cbn [obind]. destruct (negb _); eauto. }
  rewrite Everr. cbn [obind]. destruct err as [e|].
  { eexists. split; [done|]. apply add_reject; [done| |done]. intros j Hf. pose proof (Hj j Hf) as ->.
    apply fresh_parts in Hf as (_ & _ & _ & _ & _ & val' & Hv' & _ & Hver). congruence. }
  specialize (Hfresh Everr). rewrite <- (powerAt_lookup _ i val Hv).
  destruct (addVerifiedVote_spec vs v i Hwf Hfresh) as (added & vs' & -> & Hwf' & Hext & Hnone & Hadd & Hm & Hjs). cbn [obind].
  assert (forall j, has (VoteSet.votes vs') j = true ->
    has (VoteSet.votes vs) j = true \/ Vote.ValidatorIndex v = Z.of_nat j) as Hjs'.
  { intros j Hjj. destruct (Hjs j Hjj) as [?| ->]; auto. }
  destruct (slot vs i) as [c|] eqn:Es.
  - eexists. split; [done|]. split_and!; eauto.
  - destruct (Hnone eq_refl) as [-> Hs']. cbn [negb]. eexists. split; [done|]. split_and!; try done. exists i. auto.
Qed.

Lemma addVote_spec vs v : wf vs -> exists r, VoteSet.addVote vs (Some v) = Ret r /\ add_post vs v r.
Proof.
  intros Hwf. unfold VoteSet.addVote. rewrite Key_key. cbn [obind].
  destruct (Z.ltb_spec (Vote.ValidatorIndex v) 0) as [Hneg|Hneg].
  { eexists. split; [done|]. apply add_reject; [done| |done]. intros i (? & _)%fresh_parts. lia. }
  destruct (Z.eqb_spec (zlen (Vote.ValidatorAddress v)) 0) as [Haddr|Haddr].
  { eexists. split; [done|]. apply add_reject; [done| |done]. intros i (_ & _ & _ & _ & Ha & _)%fresh_parts.
    apply Ha, nil_length_inv. unfold zlen in Haddr. lia. }
  destruct (Z.eqb_spec (Vote.Height v) (VoteSet.height vs)) as [Eh|Eh];
    destruct (Z.eqb_spec (Vote.Round v) (VoteSet.round vs)) as [Er|Er];
    destruct (Z.eqb_spec (Vote.Type_ v) (VoteSet.typeB vs)) as [Et|Et]; cbn [negb orb];
    try (eexists; split; [done|]; apply add_reject; [done| |done]; intros i (_ & ? & ? & ? & _)%fresh_parts; congruence).
  pose proof (GetByIndex_cases (VoteSet.valSet vs) (Vote.ValidatorIndex v) Hneg) as Hg.
  destruct (ValidatorSet.GetByIndex _ _) as [[a val]|].
  - destruct Hg as (i & Ei & Hv & ->). destruct (bytes_equal _ _) eqn:Ea; cbn [negb].
    + apply bytes_equal_true in Ea. rewrite Ei. apply addVote_tail; try done.
      intros E. rewrite E in Haddr. by unfold zlen in Haddr.
    + eexists. split; [done|]. apply add_reject; [done| |done].
      intros j (Ej & _ & _ & _ & _ & val' & Hv' & Ha & _)%fresh_parts. apply bytes_equal_false in Ea. apply Ea.
      assert (j = i) as -> by lia. congruence.
  - eexists. split; [done|]. apply add_reject; [done| |done].
    intros j (Ej & _ & _ & _ & _ & val' & Hv' & _)%fresh_parts. by eapply Hg.
Qed.

(** ** A peer's claim *)

(** Tracking a block, with no new vote, keeps the invariant. *)
Lemma wf_track vs m k vbb' : wf vs -> block_wf vs k vbb' ->
  (forall vbb, VoteSet.votesByBlock vs !! k = Some vbb ->
     blockVotes.votes vbb' = blockVotes.votes vbb /\ blockVotes.sum vbb' = blockVotes.sum vbb) ->
  (VoteSet.votesByBlock vs !! k = None -> blockVotes.sum vbb' = 0) ->
  let vs' := VoteSet.set_votesByBlock (VoteSet.set_peerMaj23s vs m) (<[k := vbb']> (VoteSet.votesByBlock vs)) in
  wf vs' /\ extends vs vs'.
Proof.
  intros [W1 W2 W3 W4 W5 W6 W7 W8] Hb Hsome Hnone vs'.
  assert (VoteSet.votesByBlock vs' = <[k := vbb']> (VoteSet.votesByBlock vs)) as Evb by done.
  assert (forall k' w, VoteSet.votesByBlock vs' !! k' = Some w -> block_wf vs k' w) as Hall.
  { intros k' w Hw. rewrite Evb in Hw. apply lookup_insert_Some in Hw as [[<- <-]|[_ Hw]]; [done|by apply W6]. }
  split; split; try done.
  - intros k' w Hw. eapply block_wf_frame; [| |by apply Hall]; done.
  - intros b Hm. destruct (W7 b Hm) as (w & Hw & Hs & Hsub). destruct (decide (k = key b)) as [->|Hne].
    + exists vbb'. destruct (Hsome w Hw) as [Ev Es]. split_and!; [rewrite Evb; apply lookup_insert_eq|by rewrite Es|by rewrite Ev].
    + exists w. split_and!; [|done|done]. rewrite Evb. by rewrite lookup_insert_ne.
  - intros Hm k' w Hw. rewrite Evb in Hw. apply lookup_insert_Some in Hw as [[<- <-]|[_ Hw]]; [|by eapply W8].
    destruct (VoteSet.votesByBlock vs !! k) as [w|] eqn:Ew.
    + destruct (Hsome w eq_refl) as [_ ->]. by eapply W8.
    + rewrite (Hnone eq_refl). destruct W1 as (Hp & _). pose proof (zsum_nonneg _ _ Hp) as Hn.
      unfold supermajority, powers. change (VoteSet.valSet vs') with (VoteSet.valSet vs). lia.
  - intros k' w Hw. destruct (decide (k = k')) as [<-|Hne].
    + exists vbb'. split; [rewrite Evb; apply lookup_insert_eq|]. destruct (Hsome w Hw) as [-> _]. done.
    + exists w. split; [|done]. rewrite Evb. by rewrite lookup_insert_ne.
Qed.

(** What a peer's claim leaves alone and what it records. *)
Definition peer_post vs peerID b (r : bool * VoteSet.t) : Prop :=
  let (err, vs') := r in
  wf vs' /\ extends vs vs' /\ VoteSet.votes vs' = VoteSet.votes vs /\ VoteSet.maj23 vs' = VoteSet.maj23 vs /\
  (err = true <-> exists b', VoteSet.peerMaj23s vs !! peerID = Some b' /\ b' <> b) /\
  (VoteSet.peerMaj23s vs !! peerID = None ->
     VoteSet.peerMaj23s vs' = <[peerID := b]> (VoteSet.peerMaj23s vs) /\
     exists vbb, VoteSet.votesByBlock vs' !! key b = Some vbb /\ blockVotes.peerMaj23 vbb = true).

Lemma SetPeerMaj23_spec vs peerID b : wf vs -> exists err vs',
  VoteSet.SetPeerMaj23 (Some vs) peerID b = Ret (err, Some vs') /\ peer_post vs peerID b (err, vs').
Proof.
  intros Hwf. unfold VoteSet.SetPeerMaj23. rewrite Key_key. cbn [obind].
  destruct (VoteSet.peerMaj23s vs !! peerID) as [b'|] eqn:Ep.
  { destruct (BlockID.Equals b' b) eqn:Ee; eexists _, vs; (split; [done|]); split_and!; try done;
      try (by rewrite Ep); rewrite Ep.
    - apply BlockID_Equals_spec in Ee as ->. split; [done|]. by intros (? & [= <-] & ?).
    - split; [|done]. intros _. exists b'. split; [done|]. intros ->.
      assert (BlockID.Equals b b = true) by (by apply BlockID_Equals_spec). congruence. }
  change (VoteSet.votesByBlock (VoteSet.set_peerMaj23s vs _)) with (VoteSet.votesByBlock vs).
  assert (false = true <-> exists b', @None BlockID.t = Some b' /\ b' <> b) as Hf by (split; [done|by intros (? & ? & _)]).
  destruct (VoteSet.votesByBlock vs !! key b) as [vbb|] eqn:Eb.
  - pose proof (wf_blocks _ Hwf _ _ Eb) as Hb. destruct (blockVotes.peerMaj23 vbb) eqn:Epm; eexists _, _; (split; [done|]).
    + destruct (wf_track vs (<[peerID := b]> (VoteSet.peerMaj23s vs)) (key b) vbb Hwf Hb) as [Hw He]; [naive_solver|naive_solver|].
      cbv zeta in Hw, He. rewrite (insert_id (VoteSet.votesByBlock vs) _ _ Eb) in Hw, He.
      split_and!; try done; [by rewrite Ep|]. intros _. split; [done|]. exists vbb. by rewrite <- Eb.
    + destruct (wf_track vs (<[peerID := b]> (VoteSet.peerMaj23s vs)) (key b) (blockVotes.set_peerMaj23 vbb true) Hwf) as [Hw He];
        [by destruct Hb|naive_solver|naive_solver|].
      split_and!; try done; [by rewrite Ep|]. intros _. split; [done|]. eexists.
      split; [apply lookup_insert_eq|done].
  - eexists _, _. split; [done|].
    destruct (wf_track vs (<[peerID := b]> (VoteSet.peerMaj23s vs)) (key b)
      (blockVotes.newBlockVotes true (ValidatorSet.Size (VoteSet.valSet vs))) Hwf) as [Hw He];
      [by apply newBlockVotes_wf, wf_quorate|naive_solver|done|].
    split_and!; try done; [by rewrite Ep|]. intros _. split; [done|]. eexists.
      split; [apply lookup_insert_eq|done].
Qed.
End AddVote.

(** ** Runs of a vote set *)

Section Runs.
Context {L : Lib} {HL : LibLaws L}.
Implicit Types (vs : VoteSet.t) (v : Vote.t) (b : BlockID.t) (s : ValidatorSet.t).

(** Any vote, or none, from anywhere; any claim of any peer. *)
Inductive step : VoteSet.t -> VoteSet.t -> Prop :=
| step_vote vs vote r vs' : VoteSet.AddVote (Some vs) vote = Ret (r, Some vs') -> step vs vs'
| step_peer vs peerID b r vs' : VoteSet.SetPeerMaj23 (Some vs) peerID b = Ret (r, Some vs') -> step vs vs'.

Definition reachable chainID height round typeB s vs : Prop :=
  exists vs0, VoteSet.NewVoteSet chainID height round typeB s = Ret vs0 /\ rtc step vs0 vs.

Lemma AddVote_Some vs v : wf vs -> exists added err vs',
  VoteSet.AddVote (Some vs) (Some v) = Ret (added, err, Some vs') /\ add_post vs v (added, err, vs').
Proof.
  intros Hwf. destruct (addVote_spec vs v Hwf) as ([[added err] vs'] & E & Hp).
  exists added, err, vs'. split; [|done]. unfold VoteSet.AddVote. by rewrite E.
Qed.

Lemma step_wf vs vs' : wf vs -> step vs vs' -> wf vs' /\ extends vs vs'.
Proof.
  intros Hwf Hs. destruct Hs as [vs vote r vs' E|vs peerID b r vs' E].
  - destruct vote as [v|].
    + destruct (AddVote_Some vs v Hwf) as (added & err & vs2 & E' & Hp). rewrite E in E'. injection E' as _ ->.
      by destruct Hp as (Hw & He & _).
    + injection E as _ <-. split; [done|apply extends_refl].
  - destruct (SetPeerMaj23_spec vs peerID b Hwf) as (err & vs2 & E' & Hp). rewrite E in E'. injection E' as _ ->.
    by destruct Hp as (Hw & He & _).
Qed.

Lemma steps_wf vs vs' : wf vs -> rtc step vs vs' -> wf vs' /\ extends vs vs'.
Proof.
  intros Hwf H. induction H as [vs|vs1 vs2 vs3 H12 H23 IH]; [split; [done|apply extends_refl]|].
  destruct (step_wf _ _ Hwf H12) as [Hw2 He]. destruct (IH Hw2) as [Hw3 He2]. split; [done|by eapply extends_trans].
Qed.

Lemma reachable_wf chainID height round typeB s vs : quorate s -> reachable chainID height round typeB s vs ->
  wf vs /\ frame vs = (chainID, height, u64 round, typeB, ValidatorSet.Validators s).
Proof.
  intros Hq (vs0 & E & Hrun). destruct (Z.eq_dec height 0) as [->|Hh]; [done|].
  destruct (NewVoteSet_wf chainID height round typeB s Hh Hq) as (vs1 & E' & Hwf & Ef & _).
  rewrite E in E'. injection E' as <-. destruct (steps_wf _ _ Hwf Hrun) as [Hw He]. split; [done|].
  by rewrite (ext_frame _ _ He).
Qed.

(** The validators whose agreeing vote for a block is recorded. *)
Definition blockAgree vs b (i : nat) : bool :=
  match VoteSet.votesByBlock vs !! key b with Some vbb => agrees (blockVotes.votes vbb) i | None => false end.

Lemma blockAgree_vote vs b i : wf vs -> blockAgree vs b i = true -> exists v,
  vote_ok (frame vs) i v /\ Vote.BlockID v = b /\ Vote.Result v = VoteAgree.
Proof.
  unfold blockAgree, agrees. intros Hwf H. destruct (VoteSet.votesByBlock vs !! key b) as [vbb|] eqn:E; [|done].
  destruct (wf_blocks _ Hwf _ _ E) as [B1 B2 B3 B4 B5 B6].
  destruct (blockVotes.votes vbb !! i) as [[v|]|] eqn:Ev; try done. exists v.
  split_and!; [by apply B3|apply key_inj; by eapply B4|by apply Z.eqb_eq].
Qed.

Lemma maj23_weight vs b : wf vs -> VoteSet.maj23 vs = Some b ->
  2 * powers (ValidatorSet.Validators (VoteSet.valSet vs)) < 3 * weight (VoteSet.valSet vs) (blockAgree vs b).
Proof.
  intros Hwf Hm. destruct (wf_maj _ Hwf b Hm) as (vbb & Hk & Hs & _). unfold supermajority in Hs.
  rewrite (bw_sum _ _ _ (wf_blocks _ Hwf _ _ Hk)) in Hs. unfold blockAgree. by rewrite Hk.
Qed.

Lemma frame_vals vs f1 f2 f3 f4 f5 : frame vs = (f1, f2, f3, f4, f5) ->
  ValidatorSet.Validators (VoteSet.valSet vs) = f5.
Proof. unfold frame. by intros [= _ _ _ _ E]. Qed.

(** ** Completeness: enough votes make the majority *)

(** The set holds only votes for [b], and nothing in the slots of [l]. *)
Definition collecting vs b (l : list Vote.t) : Prop :=
  wf vs /\ (forall k vbb, VoteSet.votesByBlock vs !! k = Some vbb -> k = key b) /\
  forall i v, v ∈ l -> Vote.ValidatorIndex v = Z.of_nat i -> slot vs i = None.

(** The loop of a node that adds a list of votes. *)
Fixpoint addAll vs (l : list Vote.t) : outcome (list (bool * option vote_error) * VoteSet.t) :=
  match l with
  | [] => Ret ([], vs)
  | v :: l' =>
      let! (r, vs1) := VoteSet.addVote vs (Some v) in
      let! (rs, vs2) := addAll vs1 l' in
      Ret (r :: rs, vs2)
  end.

Lemma collecting_fresh vs b v i l : collecting vs b (v :: l) -> vote_ok (frame vs) i v ->
  Vote.BlockID v = b -> fresh vs v i.
Proof.
  intros (Hwf & Hk & Hs) Hok Hb. assert (Vote.ValidatorIndex v = Z.of_nat i) as Ei.
  { unfold vote_ok, frame in Hok. by destruct Hok as [? _]. }
  assert (slot vs i = None) as Hsl by (by apply (Hs i v); [set_solver|]).
  assert (i < length (VoteSet.votes vs))%nat as Hi.
  { rewrite (wf_len _ Hwf). unfold vote_ok, frame in Hok. destruct Hok as (_ & _ & _ & _ & _ & val & Hv & _).
    by eapply lookup_lt_Some. }
  apply fresh_known; [done|done|]. split; [done|]. unfold known. rewrite Hsl.
  destruct (VoteSet.votesByBlock vs !! _) as [vbb|] eqn:Eb; [|done].
  destruct (blockVotes.votes vbb !! i) as [[u|]|] eqn:Eu; [|done|done]. exfalso.
  assert (has (VoteSet.votes vs) i = true) as Hhas.
  { apply (bw_seen _ _ _ (wf_blocks _ Hwf _ _ Eb)). unfold has. by rewrite Eu. }
  apply slot_has in Hhas as [? Hx]. congruence.
Qed.


Lemma addAll_spec l : forall vs b, collecting vs b l -> NoDup (Vote.ValidatorIndex <$> l) ->
  (forall v, v ∈ l -> Vote.BlockID v = b /\ exists i, vote_ok (frame vs) i v) ->
  exists rs vs', addAll vs l = Ret (rs, vs') /\ Forall (fun r => r = (true, None)) rs /\
    wf vs' /\ extends vs vs' /\
    (forall k vbb, VoteSet.votesByBlock vs' !! k = Some vbb -> k = key b) /\
    forall v i, v ∈ l -> Vote.ValidatorIndex v = Z.of_nat i -> exists vbb,
      VoteSet.votesByBlock vs' !! key b = Some vbb /\ blockVotes.votes vbb !! i = Some (Some v).
Proof.
  induction l as [|v l IH]; intros vs b Hc Hnd Hall.
  { destruct Hc as (Hwf & Hk & _). exists [], vs. split_and!; try done. set_solver. }
  destruct (Hall v ltac:(set_solver)) as [Hb [i Hok]].
  pose proof (collecting_fresh vs b v i l Hc Hok Hb) as Hf. pose proof Hc as (Hwf & Hk & Hs).
  pose proof (fresh_index vs v i Hf) as Ei. apply NoDup_cons in Hnd as [Hnin Hnd].
  destruct (addVote_spec vs v Hwf) as ([[added err] vs1] & E & Hwf1 & Hext & _ & Hj & Hcase).
  assert (slot vs i = None) as Hsl by (by apply (Hs i v); [set_solver|]).
  assert (added = true /\ err = None) as [-> ->].
  { destruct err as [[]|]; try (destruct Hcase as (_ & _ & Hn); by destruct (Hn i)).
    - destruct Hcase as (i' & e & Hf' & He). assert (i' = i) as -> by (apply fresh_index in Hf'; lia). congruence.
    - destruct added; [done|]. destruct Hcase as (_ & Hn & _). by destruct (Hn i). }
  destruct Hcase as (i' & Hf' & _ & _ & vbb1 & Evb & Hv1).
  assert (i' = i) as -> by (apply fresh_index in Hf'; lia).
  destruct (IH vs1 b) as (rs & vs2 & E2 & Hrs & Hwf2 & Hext2 & Hk2 & Hall2).
  - split_and!; [done| |].
    + intros k w. rewrite Evb, Hb. intros Hw. apply lookup_insert_Some in Hw as [[<- _]|[_ Hw]]; eauto.
    + intros j u Hu Ej. destruct (slot vs1 j) as [x|] eqn:Ex; [|done]. exfalso.
      assert (has (VoteSet.votes vs1) j = true) as Hhj by (apply slot_has; eauto).
      destruct (Hj j Hhj) as [Hhv|Hvj].
      * apply slot_has in Hhv as [y Hy]. pose proof (Hs j u ltac:(set_solver) Ej). congruence.
      * apply Hnin. rewrite Hvj, <- Ej. apply list_elem_of_fmap. eauto.
  - done.
  - intros u Hu. rewrite (ext_frame _ _ Hext). apply Hall. set_solver.
  - exists ((true, None) :: rs), vs2. split_and!; try done.
    + cbn [addAll]. rewrite E. cbn [obind]. by rewrite E2.
    + by constructor.
    + by eapply extends_trans.
    + intros u j Hu Ej. apply elem_of_cons in Hu as [->|Hu]; [|by apply Hall2].
      assert (j = i) as -> by lia. rewrite Hb in Evb.
      destruct (ext_block _ _ Hext2 (key b) vbb1) as (vbb2 & Hvbb2 & Hsub); [rewrite Evb; apply lookup_insert_eq|].
      eauto.
Qed.
End Runs.

(** ** Commits made of a vote set *)

Section MakeCommit.
Context {L : Lib} {HL : LibLaws L}.
Implicit Types (vs : VoteSet.t) (v : Vote.t) (b : BlockID.t) (s : ValidatorSet.t).

Lemma weight_pos s p : 0 < weight s p -> exists i, p i = true.
Proof.
  unfold weight. intros H. destruct (existsb p (seq 0 (length (ValidatorSet.Validators s)))) eqn:E.
  - apply existsb_exists in E as (i & _ & Hi). eauto.
  - exfalso. rewrite (zsum_ext _ (fun _ => 0)) in H.
    + by rewrite zsum_zero in H.
    + intros i Hi. destruct (p i) eqn:Ep; [|done]. exfalso.
      assert (existsb p (seq 0 (length (ValidatorSet.Validators s))) = true); [|congruence].
      apply existsb_exists. exists i. split; [by apply list_elem_of_In|done].
Qed.

Lemma firstSome_spec l i v : l !! i = Some (Some v) -> exists j w,
  Commit.firstSome l = Some w /\ l !! j = Some (Some w).
Proof.
  revert i. induction l as [|o l IH]; intros i Hi; [done|]. destruct o as [w|]; [by exists 0%nat, w|].
  destruct i as [|i]; [done|]. destruct (IH i Hi) as (j & w & E & Hj). by exists (S j), w.
Qed.

Lemma signer_of_majority vs b vbb : wf vs -> VoteSet.votesByBlock vs !! key b = Some vbb ->
  (forall i v, blockVotes.votes vbb !! i = Some (Some v) -> VoteSet.votes vs !! i = Some (Some v)) ->
  forall i, agrees (blockVotes.votes vbb) i = true -> signer b (Commit.mk b (VoteSet.votes vs)) i = true.
Proof.
  intros Hwf Hk Hsub i. unfold agrees, signer. cbn [Commit.Precommits].
  destruct (blockVotes.votes vbb !! i) as [[v|]|] eqn:E; try done. intros Ha. rewrite (Hsub i v E). simpl.
  rewrite Ha, andb_true_r. apply BlockID_Equals_spec. symmetry. apply key_inj.
  by apply (bw_key _ _ _ (wf_blocks _ Hwf _ _ Hk) i).
Qed.

Lemma MakeCommit_spec vs b : wf vs -> VoteSet.typeB vs = VoteTypePrecommit -> VoteSet.maj23 vs = Some b ->
  VoteSet.MakeCommit vs = Ret (Commit.mk b (VoteSet.votes vs)) /\
  exists s', ValidatorSet.VerifyCommit (VoteSet.valSet vs) (VoteSet.chainID vs) b (VoteSet.height vs)
               (Commit.mk b (VoteSet.votes vs)) = Ret (None, s').
Proof.
  intros Hwf Ht Hm. split; [unfold VoteSet.MakeCommit; by rewrite Ht, Hm|].
  set (c := Commit.mk b (VoteSet.votes vs)). pose proof (wf_quorate _ Hwf) as Hq.
  destruct (VerifyCommit_spec (VoteSet.valSet vs) (VoteSet.chainID vs) b (VoteSet.height vs) c Hq) as (r & s' & E & Hr).
  exists s'. rewrite E. f_equal. f_equal. apply Hr. split; [exact (wf_len _ Hwf)|].
  destruct (wf_maj _ Hwf b Hm) as (vbb & Hk & Hsup & Hsub). unfold supermajority in Hsup.
  rewrite (bw_sum _ _ _ (wf_blocks _ Hwf _ _ Hk)) in Hsup.
  pose proof (signer_of_majority vs b vbb Hwf Hk Hsub) as Hsig. fold c in Hsig.
  pose proof Hq as (Hp & _). pose proof (zsum_nonneg _ _ Hp) as Hn.
  destruct (weight_pos (VoteSet.valSet vs) (agrees (blockVotes.votes vbb))) as [i Hi]; [unfold powers in Hsup; lia|].
  unfold agrees in Hi. destruct (blockVotes.votes vbb !! i) as [[v|]|] eqn:Ev; try done.
  destruct (firstSome_spec _ i v (Hsub i v Ev)) as (j & w & Ef & Hj).
  pose proof (wf_votes _ Hwf j w Hj) as Hw. unfold vote_ok, frame in Hw. destruct Hw as (_ & Hh & Hrd & _).
  assert (Commit.FirstPrecommit c = Some w) as Hfp.
  { unfold Commit.FirstPrecommit, c. cbn [Commit.Precommits]. destruct (VoteSet.votes vs); [done|]. by rewrite Ef. }
  assert ((zlen (VoteSet.votes vs) =? 0) = false) as Hz.
  { apply Z.eqb_neq. unfold zlen. apply lookup_lt_Some in Hj. lia. }
  exists (i64 (VoteSet.round vs)). split_and!.
  - unfold Commit.Height. cbn [c Commit.Precommits]. fold c. by rewrite Hz, Hfp, Hh.
  - unfold Commit.Round. cbn [c Commit.Precommits]. fold c. by rewrite Hz, Hfp, Hrd.
  - intros k [u|] Hku; [|done]. cbn [c Commit.Precommits] in Hku. pose proof (wf_votes _ Hwf k u Hku) as Hu.
    unfold vote_ok, frame in Hu. destruct Hu as (_ & H1 & H2 & H3 & _ & val & Hv & _ & Hver).
    destruct (vote_verified_sig _ _ _ Hver) as (sb & Hsb & Hsg).
    split_and!; [done|by rewrite H2|by rewrite H3|eauto].
  - pose proof (weight_mono (VoteSet.valSet vs) _ _ Hq Hsig). lia.
Qed.
End MakeCommit.

(** ** Where the votes come from *)

Section Stored.
Context {L : Lib} {HL : LibLaws L}.
Implicit Types (vs : VoteSet.t) (v w : Vote.t).

(** The votes that are counted for some block. *)
Definition stored vs w : Prop :=
  exists k vbb i, VoteSet.votesByBlock vs !! k = Some vbb /\ blockVotes.votes vbb !! i = Some (Some w).

Lemma blockVotes_add_stored vbb v p vbb' i w : blockVotes.addVerifiedVote vbb v p = Ret vbb' ->
  blockVotes.votes vbb' !! i = Some (Some w) -> w = v \/ blockVotes.votes vbb !! i = Some (Some w).
Proof.
  unfold blockVotes.addVerifiedVote. intros Ha Hi. destruct (slice_get _ _) as [[e|]|] eqn:Eg; cbn [obind] in Ha; [|..|done].
  - injection Ha as <-. by right.
  - destruct (BitArray.SetIndex _ _ _) as [[? ba]|]; cbn [obind] in Ha; [|done].
    destruct (slice_set _ _ _) as [vts|] eqn:Es; cbn [obind] in Ha; [|done]. injection Ha as <-. cbn in Hi.
    unfold slice_set in Es. destruct (_ || _); [done|]. injection Es as <-.
    apply list_lookup_insert_Some in Hi as [(_ & [= <-] & _)|[_ Hi]]; [by left|by right].
Qed.

Lemma addToBlock_stored vs v k p vbb vs' w : VoteSet.addToBlock vs v k p vbb = Ret vs' ->
  (forall i u, blockVotes.votes vbb !! i = Some (Some u) -> stored vs u) -> stored vs' w -> w = v \/ stored vs w.
Proof.
  unfold VoteSet.addToBlock. intros Ha Hb. destruct (ValidatorSet.TotalVotingPower _) as [total s'].
  destruct (blockVotes.addVerifiedVote vbb v p) as [vbb'|] eqn:Eb; cbn [obind] in Ha; [|done].
  assert (VoteSet.votesByBlock vs' = <[k := vbb']> (VoteSet.votesByBlock vs)) as Ev.
  { destruct (_ && _); [|by injection Ha as <-]. destruct (VoteSet.maj23 _); [by injection Ha as <-|].
    destruct (VoteSet.copyVotes _ _); cbn [obind] in Ha; [by injection Ha as <-|done]. }
  intros (k' & b & i & Hk & Hi). rewrite Ev in Hk. apply lookup_insert_Some in Hk as [[<- <-]|[_ Hk]].
  - destruct (blockVotes_add_stored _ _ _ _ _ _ Eb Hi) as [->|Hi']; [by left|right; by eapply Hb].
  - right. by exists k', b, i.
Qed.

Lemma addVerifiedVote_stored vs v k p r vs' w : VoteSet.addVerifiedVote vs v k p = Ret (r, vs') -> stored vs' w -> w = v \/ stored vs w.
Proof.
  unfold VoteSet.addVerifiedVote. intros Ha Hw. destruct (VoteSet.addCanonical vs v k p) as [[vs1 c]|] eqn:Ec; cbn [obind] in Ha; [|done].
  assert (VoteSet.votesByBlock vs1 = VoteSet.votesByBlock vs) as E1.
  { unfold VoteSet.addCanonical in Ec. destruct (slice_get _ _) as [[e|]|]; cbn [obind] in Ec; [|..|done].
    - destruct (BlockID.Equals _ _); [done|]. destruct (match VoteSet.maj23 vs with Some _ => _ | None => _ end) as [[|]|]; cbn [obind] in Ec; [| |done].
      + destruct (slice_set _ _ _); cbn [obind] in Ec; [|done]. destruct (BitArray.SetIndex _ _ _) as [[? ?]|]; cbn [obind] in Ec; [|done]. by injection Ec as <- _.
      + by injection Ec as <- _.
    - destruct (slice_set _ _ _); cbn [obind] in Ec; [|done]. destruct (BitArray.SetIndex _ _ _) as [[? ?]|]; cbn [obind] in Ec; [|done]. by injection Ec as <- _. }
  assert (forall u, stored vs1 u <-> stored vs u) as E2 by (intros u; unfold stored; by rewrite E1).
  assert (forall vbb x, VoteSet.votesByBlock vs1 !! k = Some vbb -> (let! y := VoteSet.addToBlock vs1 v k p vbb in Ret (x, y)) = Ret (r, vs') -> w = v \/ stored vs w) as Hold.
  { intros vbb x Hk Hx. destruct (VoteSet.addToBlock vs1 v k p vbb) as [y|] eqn:Ea; cbn [obind] in Hx; [|done]. injection Hx as _ <-.
    rewrite <- E2. eapply addToBlock_stored; [exact Ea| |exact Hw]. intros i u Hi. by exists k, vbb, i. }
  destruct (VoteSet.votesByBlock vs1 !! k) as [vbb|] eqn:Ek, c as [c|].
  - destruct (negb _); [injection Ha as _ <-; right; by apply E2|by eapply Hold].
  - by eapply Hold.
  - injection Ha as _ <-. right. by apply E2.
  - destruct (VoteSet.addToBlock vs1 v k p _) as [y|] eqn:Ea; cbn [obind] in Ha; [|done]. injection Ha as _ <-.
    rewrite <- E2. eapply addToBlock_stored; [exact Ea| |exact Hw]. intros i u Hi. by apply emptyVotes_not in Hi.
Qed.

(** A vote set only gets the votes that were added to it. *)
Lemma addVote_stored vs v r vs' w : VoteSet.addVote vs (Some v) = Ret (r, vs') -> stored vs' w -> w = v \/ stored vs w.
Proof.
  unfold VoteSet.addVote. intros Ha Hw. rewrite Key_key in Ha. cbn [obind] in Ha.
  repeat match type of Ha with (if ?c then _ else _) = _ => destruct c; [injection Ha as _ <-; by right|] end.
  destruct (ValidatorSet.GetByIndex _ _) as [[addr val]|]; [|injection Ha as _ <-; by right].
  destruct (negb _); [injection Ha as _ <-; by right|]. destruct (VoteSet.getVote _ _ _) as [[e|]|]; cbn [obind] in Ha; [| |done].
  - destruct (bytes_equal _ _); injection Ha as _ <-; by right.
  - destruct (VoteVerify _ _ _) as [[e|]|]; cbn [obind] in Ha; [injection Ha as _ <-; by right| |done].
    destruct (VoteSet.addVerifiedVote _ _ _ _) as [[[added c] vs1]|] eqn:Ev; cbn [obind] in Ha; [|done].
    assert (vs1 = vs') as -> by (destruct c as [?|], added; cbn in Ha; congruence).
    by eapply addVerifiedVote_stored.
Qed.
End Stored.

(** ** Properties *)

Section Properties.
Context {L : Lib} {HL : LibLaws L}.

(** A vote set never panics and keeps its invariant.  From [NewVoteSet] at a
    non-zero height, after any sequence of votes (valid, forged, conflicting or
    nil) and peer claims, the set is well-formed: the bit arrays mirror the votes,
    every stored vote belongs to its slot and carries a valid signature, the sums
    are the powers of what is stored, and a majority is announced exactly when a
    tracked block has more than two thirds of the power in agreeing votes.  Every
    further vote or claim is answered without a panic. *)
Theorem VoteSet_safe chainID height round typeB (s : ValidatorSet.t) vs : quorate s ->
  reachable chainID height round typeB s vs ->
  wf vs /\
  (forall vote, exists r vs', VoteSet.AddVote (Some vs) vote = Ret (r, Some vs')) /\
  (forall peerID b, exists r vs', VoteSet.SetPeerMaj23 (Some vs) peerID b = Ret (r, Some vs')).
Proof.
  intros Hq Hr. destruct (reachable_wf _ _ _ _ _ _ Hq Hr) as [Hwf _]. split; [done|]. split.
  - intros [v|]; [|eexists _, _; done].
    destruct (AddVote_Some vs v Hwf) as (added & err & vs' & E & _). eauto.
  - intros peerID b. destruct (SetPeerMaj23_spec vs peerID b Hwf) as (err & vs' & E & _). eauto.
Qed.


(** A majority is final and backed by signatures.  When a reachable set
    announces [b], validators with more than two thirds of the power have a
    verified agreeing vote for [b] of this height, round and type, and every later
    state of the set announces [b] too. *)
Theorem majority_final chainID height round typeB (s : ValidatorSet.t) vs b : quorate s ->
  reachable chainID height round typeB s vs -> VoteSet.maj23 vs = Some b ->
  2 * powers (ValidatorSet.Validators s) < 3 * weight s (blockAgree vs b) /\
  (forall i, blockAgree vs b i = true -> exists v val, ValidatorSet.Validators s !! i = Some val /\
     Vote.BlockID v = b /\ Vote.Height v = height /\ Vote.Round v = u64 round /\ Vote.Type_ v = typeB /\
     Vote.Result v = VoteAgree /\ VoteVerify chainID (Validator.PubKey val) v = Ret None) /\
  (forall vs', rtc step vs vs' -> VoteSet.maj23 vs' = Some b).
Proof.
  intros Hq Hr Hm. destruct (reachable_wf _ _ _ _ _ _ Hq Hr) as [Hwf Ef].
  pose proof (maj23_weight vs b Hwf Hm) as Hw. pose proof (frame_vals _ _ _ _ _ _ Ef) as Ev.
  rewrite Ev, (weight_same _ s _ Ev) in Hw. split_and!; [done| |].
  - intros i Hi. destruct (blockAgree_vote vs b i Hwf Hi) as (v & Hok & Hb & Ha). rewrite Ef in Hok.
    destruct Hok as (_ & H1 & H2 & H3 & _ & val & Hv & _ & Hver). exists v, val. by split_and!.
  - intros vs' Hrun. destruct (steps_wf _ _ Hwf Hrun) as [_ He]. by apply (ext_maj _ _ He).
Qed.

(** C19: agreement.  If two vote sets of the same step, held by two nodes and fed
    independently, announce different blocks, then validators with more than a
    third of the power signed agreeing votes for both: each of them has two valid
    votes of the same height, round and type for different blocks. *)
Theorem majorities_agree chainID height round typeB (s : ValidatorSet.t) vs1 vs2 b1 b2 : quorate s ->
  reachable chainID height round typeB s vs1 -> reachable chainID height round typeB s vs2 ->
  VoteSet.maj23 vs1 = Some b1 -> VoteSet.maj23 vs2 = Some b2 ->
  let both := fun i => blockAgree vs1 b1 i && blockAgree vs2 b2 i in
  powers (ValidatorSet.Validators s) < 3 * weight s both /\
  forall i, both i = true -> exists val v1 v2, ValidatorSet.Validators s !! i = Some val /\
    Vote.BlockID v1 = b1 /\ Vote.BlockID v2 = b2 /\
    Vote.Height v1 = Vote.Height v2 /\ Vote.Round v1 = Vote.Round v2 /\ Vote.Type_ v1 = Vote.Type_ v2 /\
    VoteVerify chainID (Validator.PubKey val) v1 = Ret None /\
    VoteVerify chainID (Validator.PubKey val) v2 = Ret None.
Proof.
  intros Hq Hr1 Hr2 Hm1 Hm2 both.
  destruct (reachable_wf _ _ _ _ _ _ Hq Hr1) as [Hwf1 Ef1]. destruct (reachable_wf _ _ _ _ _ _ Hq Hr2) as [Hwf2 Ef2].
  pose proof (maj23_weight vs1 b1 Hwf1 Hm1) as Hw1. pose proof (maj23_weight vs2 b2 Hwf2 Hm2) as Hw2.
  pose proof (frame_vals _ _ _ _ _ _ Ef1) as Ev1. pose proof (frame_vals _ _ _ _ _ _ Ef2) as Ev2.
  rewrite Ev1, (weight_same _ s _ Ev1) in Hw1. rewrite Ev2, (weight_same _ s _ Ev2) in Hw2.
  split; [by apply weight_overlap|]. intros i [Hi1 Hi2]%andb_true_iff.
  destruct (blockAgree_vote vs1 b1 i Hwf1 Hi1) as (v1 & Hok1 & Hb1 & _).
  destruct (blockAgree_vote vs2 b2 i Hwf2 Hi2) as (v2 & Hok2 & Hb2 & _).
  rewrite Ef1 in Hok1. rewrite Ef2 in Hok2.
  destruct Hok1 as (_ & A1 & A2 & A3 & _ & val & Hv & _ & V1). destruct Hok2 as (_ & B1 & B2 & B3 & _ & val' & Hv' & _ & V2).
  assert (val' = val) as -> by congruence. exists val, v1, v2. split_and!; congruence.
Qed.

(** C22: enough votes make the majority.  A new set that is given, in any order,
    valid agreeing votes of distinct validators for one block with more than two
    thirds of the power answers each of them with [added = true] and no error,
    and announces that block. *)
Theorem votes_make_majority chainID height round typeB (s : ValidatorSet.t) b l : height <> 0 -> quorate s ->
  NoDup (Vote.ValidatorIndex <$> l) ->
  (forall v, v ∈ l -> Vote.BlockID v = b /\ Vote.Result v = VoteAgree /\
     exists i, vote_ok (chainID, height, u64 round, typeB, ValidatorSet.Validators s) i v) ->
  2 * powers (ValidatorSet.Validators s)
    < 3 * weight s (fun i => bool_decide (Z.of_nat i ∈ Vote.ValidatorIndex <$> l)) ->
  exists vs0 rs vs, VoteSet.NewVoteSet chainID height round typeB s = Ret vs0 /\
    addAll vs0 l = Ret (rs, vs) /\ Forall (fun r => r = (true, None)) rs /\ VoteSet.maj23 vs = Some b.
Proof.
  intros Hh Hq Hnd Hall Hw. destruct (NewVoteSet_wf chainID height round typeB s Hh Hq) as (vs0 & E0 & Hwf0 & Ef0 & _ & Hh0 & Hvb0).
  destruct (addAll_spec l vs0 b) as (rs & vs & E & Hrs & Hwf & Hext & Hk & Hin).
  - split_and!; [done|by rewrite Hvb0|]. intros i v _ _. destruct (slot vs0 i) eqn:Es; [|done].
    assert (has (VoteSet.votes vs0) i = true) by (apply slot_has; eauto). by rewrite Hh0 in *.
  - done.
  - intros v Hv. rewrite Ef0. by destruct (Hall v Hv) as (? & _ & ?).
  - exists vs0, rs, vs. split_and!; try done.
    assert (frame vs = (chainID, height, u64 round, typeB, ValidatorSet.Validators s)) as Ef by (by rewrite (ext_frame _ _ Hext)).
    pose proof (frame_vals _ _ _ _ _ _ Ef) as Ev.
    destruct (VoteSet.maj23 vs) as [b'|] eqn:Em.
    + destruct (wf_maj _ Hwf b' Em) as (vbb & Hkb & _). apply Hk, key_inj in Hkb. by rewrite Hkb.
    + exfalso. assert (0 < weight s (fun i => bool_decide (Z.of_nat i ∈ Vote.ValidatorIndex <$> l))) as Hpos.
      { pose proof Hq as (Hp & _). pose proof (zsum_nonneg _ _ Hp). unfold powers in Hw. lia. }
      destruct (weight_pos _ _ Hpos) as [i Hi]. apply bool_decide_eq_true, list_elem_of_fmap in Hi as (v & Ei & Hv).
      destruct (Hin v i Hv ltac:(done)) as (vbb & Hvbb & _).
      apply (wf_nomaj _ Hwf Em _ _ Hvbb). unfold supermajority. rewrite Ev, (bw_sum _ _ _ (wf_blocks _ Hwf _ _ Hvbb)).
      rewrite (weight_same _ s _ Ev). eapply Z.lt_le_trans; [exact Hw|]. apply Z.mul_le_mono_nonneg_l; [lia|].
      apply weight_mono; [done|]. intros j Hj. apply bool_decide_eq_true, list_elem_of_fmap in Hj as (u & Ej & Hu).
      destruct (Hin u j Hu ltac:(done)) as (vbb' & Hvbb' & Huj). assert (vbb' = vbb) as -> by congruence.
      unfold agrees. rewrite Huj. destruct (Hall u Hu) as (_ & -> & _). done.
Qed.

(** The commit of a precommit set verifies.  On a reachable set of
    precommits that announces [b], [MakeCommit] returns a commit for [b], and
    [VerifyCommit] of the validator set accepts it for that block and height. *)
Theorem MakeCommit_verifies chainID height round (s : ValidatorSet.t) vs b : quorate s ->
  reachable chainID height round VoteTypePrecommit s vs -> VoteSet.maj23 vs = Some b ->
  exists c s', VoteSet.MakeCommit vs = Ret c /\ Commit.BlockID c = b /\
    ValidatorSet.VerifyCommit (VoteSet.valSet vs) chainID b height c = Ret (None, s').
Proof.
  intros Hq Hr Hm. destruct (reachable_wf _ _ _ _ _ _ Hq Hr) as [Hwf Ef]. unfold frame in Ef. injection Ef as E1 E2 _ E4 _.
  destruct (MakeCommit_spec vs b Hwf E4 Hm) as [Ec [s' Ev]]. rewrite E1, E2 in Ev. eauto.
Qed.
End Properties.

(** ** Witnesses: precommits of two of the three demo validators *)

Definition demoNew : VoteSet.t :=
  VoteSet.mk demoLib "chain" 5 0 VoteTypePrecommit demoSet (BitArray.NewBitArray 3)
    (blockVotes.emptyVotes 3) 0 0 None ∅ ∅.

Lemma demoNew_new : VoteSet.NewVoteSet "chain" 5 0 VoteTypePrecommit demoSet = Ret demoNew.
Proof. reflexivity. Qed.

(** The set after a vote. *)
Definition after (vs : VoteSet.t (L := demoLib)) (v : Vote.t) : VoteSet.t :=
  match VoteSet.AddVote (Some vs) (Some v) with Ret (_, Some vs') => vs' | _ => vs end.

Lemma after_step vs v : wf vs -> step vs (after vs v).
Proof.
  intros Hwf. destruct (AddVote_Some vs v Hwf) as (added & err & vs' & E & _).
  apply (step_vote vs (Some v) (added, err)). unfold after. by rewrite E.
Qed.

Definition demoVotesFor (b : BlockID.t) : VoteSet.t :=
  after (after demoNew (demoVoteFor Byte.x03 2 5 0 VoteTypePrecommit b))
    (demoVoteFor Byte.x02 1 5 0 VoteTypePrecommit b).

Lemma demoVotes_reachable b : reachable "chain" 5 0 VoteTypePrecommit demoSet (demoVotesFor b).
Proof.
  exists demoNew. split; [exact demoNew_new|].
  assert (wf demoNew) as Hwf.
  { eapply reachable_wf; [exact demoSet_quorate|]. exists demoNew. split; [exact demoNew_new|reflexivity]. }
  pose proof (after_step demoNew (demoVoteFor Byte.x03 2 5 0 VoteTypePrecommit b) Hwf) as H1.
  destruct (step_wf _ _ Hwf H1) as [Hwf1 _].
  eapply rtc_l; [exact H1|]. eapply rtc_once. by apply after_step.
Qed.

Lemma VoteSet_safe_witness : exists r vs',
  VoteSet.AddVote (Some (demoVotesFor (demoBlock Byte.xaa)))
    (Some (demoVoteFor Byte.x02 1 5 0 VoteTypePrecommit (demoBlock Byte.xbb))) = Ret (r, Some vs').
Proof.
  exact (proj1 (proj2 (VoteSet_safe _ _ _ _ _ _ demoSet_quorate (demoVotes_reachable (demoBlock Byte.xaa))))
    (Some (demoVoteFor Byte.x02 1 5 0 VoteTypePrecommit (demoBlock Byte.xbb)))).
Defined.


Lemma majority_final_witness :
  14 < 3 * weight demoSet (blockAgree (demoVotesFor (demoBlock Byte.xaa)) (demoBlock Byte.xaa)).
Proof.
  refine (proj1 (majority_final _ _ _ _ _ _ (demoBlock Byte.xaa) demoSet_quorate
    (demoVotes_reachable (demoBlock Byte.xaa)) _)).
  vm_compute. reflexivity.
Defined.

Lemma majorities_agree_witness :
  7 < 3 * weight demoSet (fun i => blockAgree (demoVotesFor (demoBlock Byte.xaa)) (demoBlock Byte.xaa) i
                                   && blockAgree (demoVotesFor (demoBlock Byte.xbb)) (demoBlock Byte.xbb) i).
Proof.
  refine (proj1 (majorities_agree _ _ _ _ _ _ _ (demoBlock Byte.xaa) (demoBlock Byte.xbb) demoSet_quorate
    (demoVotes_reachable (demoBlock Byte.xaa)) (demoVotes_reachable (demoBlock Byte.xbb)) _ _));
    vm_compute; reflexivity.
Defined.

Lemma votes_make_majority_witness : exists vs0 rs vs,
  VoteSet.NewVoteSet "chain" 5 0 VoteTypePrecommit demoSet = Ret vs0 /\
  addAll vs0 [demoVoteFor Byte.x03 2 5 0 VoteTypePrecommit (demoBlock Byte.xaa);
              demoVoteFor Byte.x02 1 5 0 VoteTypePrecommit (demoBlock Byte.xaa)] = Ret (rs, vs) /\
  VoteSet.maj23 vs = Some (demoBlock Byte.xaa).
Proof.
  destruct (votes_make_majority "chain" 5 0 VoteTypePrecommit demoSet (demoBlock Byte.xaa)
    [demoVoteFor Byte.x03 2 5 0 VoteTypePrecommit (demoBlock Byte.xaa);
     demoVoteFor Byte.x02 1 5 0 VoteTypePrecommit (demoBlock Byte.xaa)]) as (vs0 & rs & vs & E0 & E & _ & Hm).
  - discriminate.
  - exact demoSet_quorate.
  - by_decide.
  - intros v Hv. apply elem_of_cons in Hv as [->|Hv]; [|apply list_elem_of_singleton in Hv as ->].
    + split; [reflexivity|]. split; [reflexivity|]. exists 2%nat.
      split_and!; try reflexivity; [discriminate|]. exists (demoVal Byte.x03 4 0). split_and!; vm_compute; reflexivity.
    + split; [reflexivity|]. split; [reflexivity|]. exists 1%nat.
      split_and!; try reflexivity; [discriminate|]. exists (demoVal Byte.x02 2 0). split_and!; vm_compute; reflexivity.
  - vm_compute. reflexivity.
  - exists vs0, rs, vs. auto.
Defined.

Lemma MakeCommit_verifies_witness : exists c s',
  VoteSet.MakeCommit (demoVotesFor (demoBlock Byte.xaa)) = Ret c /\
  ValidatorSet.VerifyCommit (VoteSet.valSet (demoVotesFor (demoBlock Byte.xaa))) "chain" (demoBlock Byte.xaa) 5 c
    = Ret (None, s').
Proof.
  destruct (MakeCommit_verifies _ _ _ _ _ (demoBlock Byte.xaa) demoSet_quorate
    (demoVotes_reachable (demoBlock Byte.xaa))) as (c & s' & E & _ & Hv).
  - vm_compute. reflexivity.
  - exists c, s'. split; [exact E|exact Hv].
Defined.
