(* ===== verification/HeightVoteSet.v ===== *)
(** * The vote sets of a height

    Models [consensus/tbft/types/height_vote_set.go]: for each round of a height a
    set of prevotes and one of precommits, rounds created in advance by
    [SetRound], and up to two further rounds per peer created by its votes. *)

From S2P Require Import Prelude BitArray Types Validator VoteSet.

Module HeightVoteSet.
Record RoundVoteSet {L : Lib} := mkRound { Prevotes_ : VoteSet.t; Precommits_ : VoteSet.t }.
Arguments RoundVoteSet : clear implicits.
Arguments RoundVoteSet {L}.

Record t {L : Lib} := mk {
  chainID : string;
  height : Z;
  valSet : ValidatorSet.t;
  round : Z;
  roundVoteSets : gmap Z RoundVoteSet;
  peerCatchupRounds : gmap string (list Z)
}.
Arguments t : clear implicits.
Arguments t {L}.

Section Ops.
Context {L : Lib}.

Definition set_rounds (hvs : t) (m : gmap Z RoundVoteSet) : t :=
  mk L (chainID hvs) (height hvs) (valSet hvs) (round hvs) m (peerCatchupRounds hvs).
Definition set_round (hvs : t) (r : Z) : t :=
  mk L (chainID hvs) (height hvs) (valSet hvs) r (roundVoteSets hvs) (peerCatchupRounds hvs).
Definition set_peers (hvs : t) (m : gmap string (list Z)) : t :=
  mk L (chainID hvs) (height hvs) (valSet hvs) (round hvs) (roundVoteSets hvs) m.

Definition addRound (hvs : t) (r : Z) : outcome t :=
  match roundVoteSets hvs !! r with
  | Some _ => Panic "addRound() for an existing round"
  | None =>
      let! prevotes := VoteSet.NewVoteSet (chainID hvs) (height hvs) r VoteTypePrevote (valSet hvs) in
      let! precommits := VoteSet.NewVoteSet (chainID hvs) (height hvs) r VoteTypePrecommit (valSet hvs) in
      Ret (set_rounds hvs (<[r := mkRound L prevotes precommits]> (roundVoteSets hvs)))
  end.

Definition Reset (hvs : t) (h : Z) (vals : ValidatorSet.t) : outcome t :=
  let! hvs := addRound (mk L (chainID hvs) h vals (round hvs) ∅ ∅) 0 in
  Ret (set_round hvs 0).

Definition NewHeightVoteSet (chainID : string) (height : Z) (valSet : ValidatorSet.t) : outcome t :=
  Reset (mk L chainID 0 valSet 0 ∅ ∅) height valSet.

Definition Height (hvs : t) : Z := height hvs.
Definition Round (hvs : t) : Z := round hvs.

(** One turn of the loop of [SetRound]. *)
Definition ensureRound (r : Z) (hvs : t) : outcome t :=
  match roundVoteSets hvs !! r with
  | Some _ => Ret hvs
  | None => addRound hvs r
  end.

Definition SetRound (hvs : t) (r : Z) : outcome t :=
  if negb (round hvs =? 0) && (r <? i64 (round hvs + 1)) then Panic "0"
  else
    let! hvs' := for_loop (i64 (round hvs + 1)) (r + 1) ensureRound hvs in
    Ret (set_round hvs' r).

Definition getVoteSet (hvs : t) (r typeB : Z) : option VoteSet.t :=
  match roundVoteSets hvs !! r with
  | None => None
  | Some rvs =>
      if typeB =? VoteTypePrevote then Some (Prevotes_ rvs)
      else if typeB =? VoteTypePrecommit then Some (Precommits_ rvs)
      else None
  end.

(** The vote set of a round is mutated in place. *)
Definition putVoteSet (hvs : t) (r typeB : Z) (vs : VoteSet.t) : t :=
  match roundVoteSets hvs !! r with
  | None => hvs
  | Some rvs =>
      set_rounds hvs (<[r := if typeB =? VoteTypePrevote then mkRound L vs (Precommits_ rvs)
                             else mkRound L (Prevotes_ rvs) vs]> (roundVoteSets hvs))
  end.

(** [voteSet.AddVote(vote)] on the set found. *)
Definition addTo (hvs : t) (vote : Vote.t) (vs : option VoteSet.t)
    : outcome (bool * option vote_error * t) :=
  let! (r, vs') := VoteSet.AddVote vs (Some vote) in
  match vs' with
  | Some vs' => Ret (r, putVoteSet hvs (i64 (Vote.Round vote)) (Vote.Type_ vote) vs')
  | None => Ret (r, hvs)
  end.

Definition AddVote (hvs : t) (vote : option Vote.t) (peerID : string)
    : outcome (bool * option vote_error * t) :=
  match vote with
  | None => Panic "nil pointer dereference"
  | Some vote =>
      if negb (IsVoteTypeValid (Vote.Type_ vote)) then Ret (false, None, hvs)
      else
        let r := i64 (Vote.Round vote) in
        match getVoteSet hvs r (Vote.Type_ vote) with
        | Some vs => addTo hvs vote (Some vs)
        | None =>
            let rndz := default [] (peerCatchupRounds hvs !! peerID) in
            if zlen rndz <? 2 then
              let! hvs := addRound hvs r in
              let vs := getVoteSet hvs r (Vote.Type_ vote) in
              let hvs := set_peers hvs (<[peerID := rndz ++ [r]]> (peerCatchupRounds hvs)) in
              addTo hvs vote vs
            else Ret (false, Some ErrorGotVoteFromUnwantedRound, hvs)
        end
  end.

Definition Prevotes (hvs : t) (r : Z) : option VoteSet.t := getVoteSet hvs r VoteTypePrevote.
Definition Precommits (hvs : t) (r : Z) : option VoteSet.t := getVoteSet hvs r VoteTypePrecommit.

(** [for r := hvs.round; r >= 0; r--], [n] rounds left. *)
Fixpoint polFrom (hvs : t) (r : Z) (n : nat) : Z * BlockID.t :=
  match n with
  | O => (-1, BlockID.empty)
  | S n' =>
      let (b, ok) := VoteSet.TwoThirdsMajority (getVoteSet hvs r VoteTypePrevote) in
      if ok : bool then (r, b) else polFrom hvs (r - 1) n'
  end.

Definition POLInfo (hvs : t) : Z * BlockID.t := polFrom hvs (round hvs) (Z.to_nat (round hvs + 1)).

(** The error is [true]; an unknown type is an error, an unknown round is not. *)
Definition SetPeerMaj23 (hvs : t) (r typeB : Z) (peerID : string) (blockID : BlockID.t)
    : outcome (bool * t) :=
  if negb (IsVoteTypeValid typeB) then Ret (true, hvs)
  else match getVoteSet hvs r typeB with
       | None => Ret (false, hvs)
       | Some vs =>
           let! (e, vs') := VoteSet.SetPeerMaj23 (Some vs) peerID blockID in
           match vs' with
           | Some vs' => Ret (e, putVoteSet hvs r typeB vs')
           | None => Ret (e, hvs)
           end
       end.

(** The newest prevote of an address for a hash. *)
Fixpoint signsFrom (hvs : t) (hash addr : bytes) (r : Z) (n : nat) : outcome (option KeepBlockSign.t) :=
  match n with
  | O => Ret None
  | S n' =>
      match Prevotes hvs r with
      | None => signsFrom hvs hash addr (r - 1) n'
      | Some prevote =>
          let! keepsign := VoteSet.GetSignByAddress (Some prevote) addr in
          match keepsign with
          | Some k => if bytes_equal hash (KeepBlockSign.Hash k) then Ret (Some k)
                      else signsFrom hvs hash addr (r - 1) n'
          | None => signsFrom hvs hash addr (r - 1) n'
          end
      end
  end.

Definition GetSignsFromVote (hvs : t) (r : Z) (hash addr : bytes) : outcome (option KeepBlockSign.t) :=
  signsFrom hvs hash addr r (Z.to_nat (r + 1)).

End Ops.
End HeightVoteSet.

(** ** The invariant *)

Section Invariant.
Context {L : Lib} {HL : LibLaws L}.
Implicit Types (hvs : HeightVoteSet.t) (v : Vote.t) (s : ValidatorSet.t).

Definition round_ok hvs (r : Z) (rvs : HeightVoteSet.RoundVoteSet) : Prop :=
  let vals := ValidatorSet.Validators (HeightVoteSet.valSet hvs) in
  wf (HeightVoteSet.Prevotes_ rvs) /\ wf (HeightVoteSet.Precommits_ rvs) /\
  frame (HeightVoteSet.Prevotes_ rvs)
    = (HeightVoteSet.chainID hvs, HeightVoteSet.height hvs, u64 r, VoteTypePrevote, vals) /\
  frame (HeightVoteSet.Precommits_ rvs)
    = (HeightVoteSet.chainID hvs, HeightVoteSet.height hvs, u64 r, VoteTypePrecommit, vals).

(** Every round up to [round] is there, every other one is one of at most two
    rounds of some peer, and every set is well-formed and of its round. *)
Record hvs_wf (hvs : HeightVoteSet.t) : Prop := {
  hw_height : HeightVoteSet.height hvs <> 0;
  hw_quorate : quorate (HeightVoteSet.valSet hvs);
  hw_round : 0 <= HeightVoteSet.round hvs < max_i64;
  hw_sets : forall r rvs, HeightVoteSet.roundVoteSets hvs !! r = Some rvs -> round_ok hvs r rvs;
  hw_all : forall r, 0 <= r <= HeightVoteSet.round hvs -> is_Some (HeightVoteSet.roundVoteSets hvs !! r);
  hw_peers : forall p l, HeightVoteSet.peerCatchupRounds hvs !! p = Some l -> zlen l <= 2;
  hw_catchup : forall r, is_Some (HeightVoteSet.roundVoteSets hvs !! r) ->
    0 <= r <= HeightVoteSet.round hvs \/
    exists p l, HeightVoteSet.peerCatchupRounds hvs !! p = Some l /\ r ∈ l
}.

(** [addRound] of a round that is not there. *)
Lemma addRound_spec hvs r : HeightVoteSet.height hvs <> 0 -> quorate (HeightVoteSet.valSet hvs) ->
  HeightVoteSet.roundVoteSets hvs !! r = None -> exists rvs,
  HeightVoteSet.addRound hvs r
    = Ret (HeightVoteSet.set_rounds hvs (<[r := rvs]> (HeightVoteSet.roundVoteSets hvs))) /\ round_ok hvs r rvs.
Proof.
  intros Hh Hq Hn. unfold HeightVoteSet.addRound. rewrite Hn.
  destruct (NewVoteSet_wf (HeightVoteSet.chainID hvs) (HeightVoteSet.height hvs) r VoteTypePrevote _ Hh Hq) as (v1 & -> & W1 & F1 & _).
  destruct (NewVoteSet_wf (HeightVoteSet.chainID hvs) (HeightVoteSet.height hvs) r VoteTypePrecommit _ Hh Hq) as (v2 & -> & W2 & F2 & _).
  cbn [obind]. eexists. split; [done|]. by split_and!.
Qed.
End Invariant.

Section Preservation.
Context {L : Lib} {HL : LibLaws L}.
Implicit Types (hvs : HeightVoteSet.t) (v : Vote.t) (s : ValidatorSet.t).

(** The parts of a height that never change. *)
Definition same_height hvs hvs' : Prop :=
  HeightVoteSet.chainID hvs' = HeightVoteSet.chainID hvs /\ HeightVoteSet.height hvs' = HeightVoteSet.height hvs /\
  HeightVoteSet.valSet hvs' = HeightVoteSet.valSet hvs.

Lemma round_ok_same hvs hvs' r rvs : same_height hvs hvs' -> round_ok hvs r rvs -> round_ok hvs' r rvs.
Proof. intros (E1 & E2 & E3). unfold round_ok. by rewrite E1, E2, E3. Qed.

Lemma NewHeightVoteSet_wf chainID height s : height <> 0 -> quorate s -> exists hvs,
  HeightVoteSet.NewHeightVoteSet chainID height s = Ret hvs /\ hvs_wf hvs /\
  HeightVoteSet.round hvs = 0 /\ HeightVoteSet.peerCatchupRounds hvs = ∅ /\
  HeightVoteSet.chainID hvs = chainID /\ HeightVoteSet.height hvs = height /\ HeightVoteSet.valSet hvs = s.
Proof.
  intros Hh Hq. unfold HeightVoteSet.NewHeightVoteSet, HeightVoteSet.Reset.
  set (h0 := HeightVoteSet.mk L chainID height s 0 ∅ ∅).
  destruct (addRound_spec h0 0 Hh Hq (lookup_empty _)) as (rvs & E & Hok).
  unfold h0 in E. cbn in E. cbn. rewrite E. cbn [obind]. eexists. split; [done|].
  split_and!; try done. split; cbn; try done.
  - intros r rvs' Hr. apply lookup_insert_Some in Hr as [[<- <-]|[_ Hr]]; [|done].
    by eapply (round_ok_same h0).
  - intros r Hr. assert (r = 0) as -> by lia. rewrite lookup_insert_eq. eauto.
  - intros r [rvs' Hr]. apply lookup_insert_Some in Hr as [[<- _]|[_ Hr]]; [left; lia|done].
Qed.

(** Invariant of the loop of [SetRound]: rounds below [i] are there. *)
Definition upto hvs (i : Z) (hvs' : HeightVoteSet.t) : Prop :=
  same_height hvs hvs' /\ HeightVoteSet.round hvs' = HeightVoteSet.round hvs /\
  HeightVoteSet.peerCatchupRounds hvs' = HeightVoteSet.peerCatchupRounds hvs /\
  (forall r rvs, HeightVoteSet.roundVoteSets hvs !! r = Some rvs -> HeightVoteSet.roundVoteSets hvs' !! r = Some rvs) /\
  (forall r rvs, HeightVoteSet.roundVoteSets hvs' !! r = Some rvs -> round_ok hvs r rvs) /\
  (forall r, 0 <= r < i -> is_Some (HeightVoteSet.roundVoteSets hvs' !! r)) /\
  (forall r, is_Some (HeightVoteSet.roundVoteSets hvs' !! r) ->
     is_Some (HeightVoteSet.roundVoteSets hvs !! r) \/ 0 <= r < i).

Lemma ensureRound_step hvs i hvs1 : hvs_wf hvs -> 0 <= i -> upto hvs i hvs1 -> exists hvs2,
  HeightVoteSet.ensureRound i hvs1 = Ret hvs2 /\ upto hvs (i + 1) hvs2.
Proof.
  intros Hwf Hi (Hsame & Hr & Hp & Hold & Hok & Hall & Hnew). unfold HeightVoteSet.ensureRound.
  pose proof Hsame as (E1 & E2 & E3). destruct (HeightVoteSet.roundVoteSets hvs1 !! i) as [rvs|] eqn:Ei.
  - exists hvs1. split; [done|]. split_and!; try done.
    + intros r Hlt. destruct (Z.eq_dec r i) as [->|]; [by eexists|apply Hall; lia].
    + intros r Hs. destruct (Hnew r Hs); [by left|right; lia].
  - destruct (addRound_spec hvs1 i) as (rvs & -> & Hrok); [|by rewrite E3; apply Hwf|done|].
    { rewrite E2. by apply Hwf. }
    eexists. split; [done|]. unfold upto. cbn. split_and!; try done.
    + intros r rvs' Hrv. rewrite lookup_insert_ne; [auto|]. intros <-. apply Hold in Hrv. congruence.
    + intros r rvs' Hrv. apply lookup_insert_Some in Hrv as [[<- <-]|[_ Hrv]]; [|auto].
      eapply round_ok_same; [|done]. unfold same_height. by rewrite E1, E2, E3.
    + intros r Hlt. destruct (decide (i = r)) as [->|]; [rewrite lookup_insert_eq; eauto|].
      rewrite lookup_insert_ne by done. apply Hall. lia.
    + intros r Hs. destruct (decide (i = r)) as [->|]; [right; lia|]. rewrite lookup_insert_ne in Hs by done.
      destruct (Hnew r Hs); [by left|right; lia].
Qed.

(** [SetRound] to a later round creates what is missing and keeps the rest. *)
Lemma SetRound_spec hvs r : hvs_wf hvs -> HeightVoteSet.round hvs < r \/ HeightVoteSet.round hvs = 0 /\ r = 0 ->
  r < max_i64 -> exists hvs', HeightVoteSet.SetRound hvs r = Ret hvs' /\ hvs_wf hvs' /\ same_height hvs hvs' /\
    HeightVoteSet.round hvs' = r /\ HeightVoteSet.peerCatchupRounds hvs' = HeightVoteSet.peerCatchupRounds hvs /\
    forall r0 rvs, HeightVoteSet.roundVoteSets hvs !! r0 = Some rvs -> HeightVoteSet.roundVoteSets hvs' !! r0 = Some rvs.
Proof.
  intros Hwf Hr Hmax. pose proof Hwf as [W1 W2 W3 W4 W5 W6 W7]. unfold HeightVoteSet.SetRound.
  rewrite (i64_id (HeightVoteSet.round hvs + 1)) by (unfold in_i64, min_i64, max_i64 in *; lia).
  assert (negb (HeightVoteSet.round hvs =? 0) && (r <? HeightVoteSet.round hvs + 1) = false) as ->.
  { destruct (Z.eqb_spec (HeightVoteSet.round hvs) 0), (Z.ltb_spec r (HeightVoteSet.round hvs + 1)); simpl; (lia || done). }
  destruct (for_loop_inv (upto hvs) HeightVoteSet.ensureRound (HeightVoteSet.round hvs + 1) (r + 1) hvs) as (h1 & -> & Hup).
  - lia.
  - split_and!; try done; [intros; apply W5; lia|by left].
  - intros i h Hi. by apply ensureRound_step; [|lia].
  - cbn [obind]. destruct Hup as (Hsame & Hrd & Hp & Hold & Hok & Hall & Hnew). pose proof Hsame as (E1 & E2 & E3).
    eexists. split; [done|]. split_and!; try done. split; cbn.
    + by rewrite E2.
    + by rewrite E3.
    + lia.
    + intros r0 rvs Hr0. eapply round_ok_same; [|by apply Hok]. done.
    + intros r0 Hr0. apply Hall. lia.
    + by rewrite Hp.
    + intros r0 Hs. rewrite Hp. destruct (Hnew r0 Hs) as [Hs0|]; [|left; lia].
      destruct (W7 r0 Hs0) as [?|?]; [left; lia|by right].
Qed.

(** Replacing a vote set by a later one of the same step. *)
Lemma putVoteSet_wf hvs r typeB vs vs' : hvs_wf hvs -> IsVoteTypeValid typeB = true ->
  HeightVoteSet.getVoteSet hvs r typeB = Some vs -> wf vs' -> extends vs vs' ->
  hvs_wf (HeightVoteSet.putVoteSet hvs r typeB vs') /\
  HeightVoteSet.getVoteSet (HeightVoteSet.putVoteSet hvs r typeB vs') r typeB = Some vs' /\
  (forall r' t', r' <> r \/ t' <> typeB ->
     HeightVoteSet.getVoteSet (HeightVoteSet.putVoteSet hvs r typeB vs') r' t' = HeightVoteSet.getVoteSet hvs r' t').
Proof.
  intros [W1 W2 W3 W4 W5 W6 W7] Ht Hg Hwf' Hext. unfold HeightVoteSet.putVoteSet.
  unfold HeightVoteSet.getVoteSet in Hg. destruct (HeightVoteSet.roundVoteSets hvs !! r) as [rvs|] eqn:Er; [|done].
  destruct (W4 r rvs Er) as (A1 & A2 & A3 & A4).
  set (rvs' := if typeB =? VoteTypePrevote then _ else _).
  assert (round_ok hvs r rvs') as Hok'.
  { unfold rvs'. destruct (Z.eqb_spec typeB VoteTypePrevote) as [->|Hne]; split_and!; cbn; try done.
    - injection Hg as <-. by rewrite (ext_frame _ _ Hext).
    - destruct (typeB =? VoteTypePrecommit); [|done]. injection Hg as <-. by rewrite (ext_frame _ _ Hext). }
  split_and!.
  - split; cbn; try done.
    + intros r0 rvs0 Hr0. apply lookup_insert_Some in Hr0 as [[<- <-]|[_ Hr0]]; [done|by apply W4].
    + intros r0 Hr0. destruct (decide (r = r0)) as [<-|]; [rewrite lookup_insert_eq; eauto|].
      rewrite lookup_insert_ne by done. by apply W5.
    + intros r0 Hr0. apply W7. destruct (decide (r = r0)) as [<-|]; [by rewrite Er|]. by rewrite lookup_insert_ne in Hr0.
  - unfold HeightVoteSet.getVoteSet. cbn. rewrite lookup_insert_eq. unfold rvs'.
    unfold IsVoteTypeValid in Ht. destruct (typeB =? VoteTypePrevote); [done|]. by destruct (typeB =? VoteTypePrecommit).
  - intros r' t' Hne. unfold HeightVoteSet.getVoteSet. cbn. destruct (decide (r = r')) as [<-|Hr]; [|by rewrite lookup_insert_ne].
    rewrite lookup_insert_eq, Er. unfold rvs'. destruct Hne as [Hne|Hne]; [done|].
    unfold IsVoteTypeValid in Ht.
    destruct (Z.eqb_spec t' VoteTypePrevote), (Z.eqb_spec t' VoteTypePrecommit), (Z.eqb_spec typeB VoteTypePrevote),
      (Z.eqb_spec typeB VoteTypePrecommit); simpl; try done; congruence.
Qed.
End Preservation.

Section AddVote.
Context {L : Lib} {HL : LibLaws L}.
Implicit Types (hvs : HeightVoteSet.t) (v : Vote.t) (s : ValidatorSet.t).

Lemma getVoteSet_wf hvs r typeB vs : hvs_wf hvs -> HeightVoteSet.getVoteSet hvs r typeB = Some vs ->
  wf vs /\ frame vs = (HeightVoteSet.chainID hvs, HeightVoteSet.height hvs, u64 r, typeB,
                       ValidatorSet.Validators (HeightVoteSet.valSet hvs)).
Proof.
  intros Hwf. unfold HeightVoteSet.getVoteSet. destruct (HeightVoteSet.roundVoteSets hvs !! r) as [rvs|] eqn:E; [|done].
  destruct (hw_sets _ Hwf r rvs E) as (A1 & A2 & A3 & A4).
  destruct (Z.eqb_spec typeB VoteTypePrevote) as [->|]; [by intros [= <-]|].
  destruct (Z.eqb_spec typeB VoteTypePrecommit) as [->|]; [by intros [= <-]|done].
Qed.

Lemma getVoteSet_None hvs r typeB : IsVoteTypeValid typeB = true ->
  HeightVoteSet.getVoteSet hvs r typeB = None <-> HeightVoteSet.roundVoteSets hvs !! r = None.
Proof.
  unfold IsVoteTypeValid, HeightVoteSet.getVoteSet. intros Ht.
  destruct (HeightVoteSet.roundVoteSets hvs !! r); [|done].
  destruct (typeB =? VoteTypePrevote); [done|]. by destruct (typeB =? VoteTypePrecommit).
Qed.

(** What [AddVote] of a valid type does: the vote goes to the set of its round
    and type, the other sets are unchanged. *)
Definition routed hvs v (added : bool) (err : option vote_error) hvs' : Prop :=
  hvs_wf hvs' /\ same_height hvs hvs' /\ HeightVoteSet.round hvs' = HeightVoteSet.round hvs /\
  (forall r t vs, HeightVoteSet.getVoteSet hvs r t = Some vs -> r <> i64 (Vote.Round v) \/ t <> Vote.Type_ v ->
     HeightVoteSet.getVoteSet hvs' r t = Some vs) /\
  exists vs vs', VoteSet.addVote vs (Some v) = Ret (added, err, vs') /\ add_post vs v (added, err, vs') /\
    HeightVoteSet.getVoteSet hvs' (i64 (Vote.Round v)) (Vote.Type_ v) = Some vs' /\
    (HeightVoteSet.getVoteSet hvs (i64 (Vote.Round v)) (Vote.Type_ v) = Some vs \/
     HeightVoteSet.getVoteSet hvs (i64 (Vote.Round v)) (Vote.Type_ v) = None /\
     VoteSet.NewVoteSet (HeightVoteSet.chainID hvs) (HeightVoteSet.height hvs) (i64 (Vote.Round v))
       (Vote.Type_ v) (HeightVoteSet.valSet hvs) = Ret vs).

Lemma addTo_spec hvs v vs : hvs_wf hvs -> IsVoteTypeValid (Vote.Type_ v) = true ->
  HeightVoteSet.getVoteSet hvs (i64 (Vote.Round v)) (Vote.Type_ v) = Some vs -> exists added err vs',
  HeightVoteSet.addTo hvs v (Some vs)
    = Ret (added, err, HeightVoteSet.putVoteSet hvs (i64 (Vote.Round v)) (Vote.Type_ v) vs') /\
  VoteSet.addVote vs (Some v) = Ret (added, err, vs') /\ add_post vs v (added, err, vs').
Proof.
  intros Hwf Ht Hg. destruct (getVoteSet_wf _ _ _ _ Hwf Hg) as [Hw _].
  destruct (addVote_spec vs v Hw) as ([[added err] vs'] & E & Hp). exists added, err, vs'. split_and!; try done.
  unfold HeightVoteSet.addTo, VoteSet.AddVote. by rewrite E.
Qed.

Lemma same_height_put hvs r typeB vs : same_height hvs (HeightVoteSet.putVoteSet hvs r typeB vs) /\
  HeightVoteSet.round (HeightVoteSet.putVoteSet hvs r typeB vs) = HeightVoteSet.round hvs /\
  HeightVoteSet.peerCatchupRounds (HeightVoteSet.putVoteSet hvs r typeB vs) = HeightVoteSet.peerCatchupRounds hvs.
Proof. unfold HeightVoteSet.putVoteSet. by destruct (HeightVoteSet.roundVoteSets hvs !! r). Qed.

Lemma AddVote_known hvs v peerID vs : hvs_wf hvs -> IsVoteTypeValid (Vote.Type_ v) = true ->
  HeightVoteSet.getVoteSet hvs (i64 (Vote.Round v)) (Vote.Type_ v) = Some vs -> exists added err hvs',
  HeightVoteSet.AddVote hvs (Some v) peerID = Ret (added, err, hvs') /\ routed hvs v added err hvs' /\
  HeightVoteSet.peerCatchupRounds hvs' = HeightVoteSet.peerCatchupRounds hvs.
Proof.
  intros Hwf Ht Hg. destruct (addTo_spec hvs v vs Hwf Ht Hg) as (added & err & vs' & E & Ea & Hp).
  unfold HeightVoteSet.AddVote. rewrite Ht, Hg. cbn [negb]. rewrite E. eexists _, _, _. split; [done|].
  pose proof Hp as (Hw' & Hext & _).
  destruct (putVoteSet_wf hvs _ _ vs vs' Hwf Ht Hg Hw' Hext) as (P1 & P2 & P3).
  destruct (same_height_put hvs (i64 (Vote.Round v)) (Vote.Type_ v) vs') as (S1 & S2 & S3).
  split; [|done]. split_and!; try done.
  - intros r t w Hw Hne. by rewrite P3.
  - exists vs, vs'. split_and!; try done. by left.
Qed.

(** A round created for a peer. *)
Lemma catchup_wf hvs r peerID : hvs_wf hvs -> HeightVoteSet.roundVoteSets hvs !! r = None ->
  zlen (default [] (HeightVoteSet.peerCatchupRounds hvs !! peerID)) < 2 -> exists rvs,
  let hvs1 := HeightVoteSet.set_peers (HeightVoteSet.set_rounds hvs (<[r := rvs]> (HeightVoteSet.roundVoteSets hvs)))
    (<[peerID := default [] (HeightVoteSet.peerCatchupRounds hvs !! peerID) ++ [r]]> (HeightVoteSet.peerCatchupRounds hvs)) in
  HeightVoteSet.addRound hvs r = Ret (HeightVoteSet.set_rounds hvs (<[r := rvs]> (HeightVoteSet.roundVoteSets hvs))) /\
  hvs_wf hvs1 /\ round_ok hvs r rvs /\
  forall t, IsVoteTypeValid t = true -> exists vs,
    HeightVoteSet.getVoteSet hvs1 r t = Some vs /\
    VoteSet.NewVoteSet (HeightVoteSet.chainID hvs) (HeightVoteSet.height hvs) r t (HeightVoteSet.valSet hvs) = Ret vs.
Proof.
  intros Hwf Hn Hl. pose proof Hwf as [W1 W2 W3 W4 W5 W6 W7].
  destruct (addRound_spec hvs r W1 W2 Hn) as (rvs & E & Hok). exists rvs. cbv zeta. split_and!; [done| |done|].
  - split; cbn; try done.
    + intros r0 rvs0 Hr0. apply lookup_insert_Some in Hr0 as [[<- <-]|[_ Hr0]]; [done|by apply W4].
    + intros r0 Hr0. destruct (decide (r = r0)) as [<-|]; [rewrite lookup_insert_eq; eauto|].
      rewrite lookup_insert_ne by done. by apply W5.
    + intros p l Hp. apply lookup_insert_Some in Hp as [[<- <-]|[_ Hp]]; [|by eapply W6].
      unfold zlen in *. rewrite length_app. simpl. lia.
    + intros r0 Hr0. destruct (decide (r = r0)) as [<-|Hne].
      * right. exists peerID. eexists. split; [apply lookup_insert_eq|set_solver].
      * rewrite lookup_insert_ne in Hr0 by done. destruct (W7 r0 Hr0) as [?|(p & l & Hp & Hin)]; [by left|right].
        destruct (decide (peerID = p)) as [<-|].
        -- exists peerID. eexists. split; [apply lookup_insert_eq|]. rewrite Hp. simpl. set_solver.
        -- exists p, l. by rewrite lookup_insert_ne.
  - intros t Ht. unfold HeightVoteSet.getVoteSet. cbn. rewrite lookup_insert_eq. clear Hok.
    unfold HeightVoteSet.addRound in E. rewrite Hn in E.
    destruct (VoteSet.NewVoteSet _ _ r VoteTypePrevote _) as [v1|] eqn:E1; [|done].
    destruct (VoteSet.NewVoteSet _ _ r VoteTypePrecommit _) as [v2|] eqn:E2; [|done]. cbn [obind] in E.
    assert (rvs = HeightVoteSet.mkRound L v1 v2) as ->.
    { injection E as E. apply (f_equal (fun m : gmap Z HeightVoteSet.RoundVoteSet => m !! r)) in E.
      rewrite !lookup_insert_eq in E. congruence. }
    unfold IsVoteTypeValid in Ht. destruct (Z.eqb_spec t VoteTypePrevote) as [Et|]; [rewrite Et; eauto|].
    destruct (Z.eqb_spec t VoteTypePrecommit) as [Et|]; [rewrite Et; eauto|done].
Qed.

Lemma AddVote_catchup hvs v peerID : hvs_wf hvs -> IsVoteTypeValid (Vote.Type_ v) = true ->
  HeightVoteSet.getVoteSet hvs (i64 (Vote.Round v)) (Vote.Type_ v) = None ->
  zlen (default [] (HeightVoteSet.peerCatchupRounds hvs !! peerID)) < 2 -> exists added err hvs',
  HeightVoteSet.AddVote hvs (Some v) peerID = Ret (added, err, hvs') /\ routed hvs v added err hvs' /\
  HeightVoteSet.peerCatchupRounds hvs'
    = <[peerID := default [] (HeightVoteSet.peerCatchupRounds hvs !! peerID) ++ [i64 (Vote.Round v)]]>
        (HeightVoteSet.peerCatchupRounds hvs).
Proof.
  intros Hwf Ht Hg Hl. pose proof (proj1 (getVoteSet_None hvs _ _ Ht) Hg) as Hn.
  destruct (catchup_wf hvs (i64 (Vote.Round v)) peerID Hwf Hn Hl) as (rvs & E & Hwf1 & Hok & Hget).
  set (r := i64 (Vote.Round v)) in *. cbv zeta in *.
  set (hvs1 := HeightVoteSet.set_peers _ _) in *. destruct (Hget _ Ht) as (vs & Hvs & Hnew).
  destruct (addTo_spec hvs1 v vs Hwf1 Ht Hvs) as (added & err & vs' & Ea & Ev & Hp).
  unfold HeightVoteSet.AddVote. rewrite Ht. fold r. rewrite Hg, (proj2 (Z.ltb_lt _ _) Hl). cbn [negb]. rewrite E. cbn [obind].
  change (HeightVoteSet.getVoteSet (HeightVoteSet.set_rounds hvs (<[r:=rvs]> (HeightVoteSet.roundVoteSets hvs))) r (Vote.Type_ v))
    with (HeightVoteSet.getVoteSet hvs1 r (Vote.Type_ v)). rewrite Hvs.
  change (HeightVoteSet.peerCatchupRounds (HeightVoteSet.set_rounds hvs _)) with (HeightVoteSet.peerCatchupRounds hvs).
  fold hvs1. rewrite Ea. eexists _, _, _. split; [done|]. pose proof Hp as (Hw' & Hext & _).
  destruct (putVoteSet_wf hvs1 _ _ vs vs' Hwf1 Ht Hvs Hw' Hext) as (P1 & P2 & P3).
  destruct (same_height_put hvs1 (i64 (Vote.Round v)) (Vote.Type_ v) vs') as (S1 & S2 & S3).
  split; [|by rewrite S3]. split_and!; try done.
  - intros r0 t w Hw Hne. rewrite P3 by done. unfold HeightVoteSet.getVoteSet in *. unfold hvs1. cbn.
    rewrite lookup_insert_ne; [done|]. intros <-. by rewrite Hn in Hw.
  - exists vs, vs'. split_and!; try done. by right.
Qed.

Lemma SetPeerMaj23_wf hvs r typeB peerID b : hvs_wf hvs -> exists e hvs',
  HeightVoteSet.SetPeerMaj23 hvs r typeB peerID b = Ret (e, hvs') /\ hvs_wf hvs' /\ same_height hvs hvs' /\
  HeightVoteSet.round hvs' = HeightVoteSet.round hvs.
Proof.
  intros Hwf. unfold HeightVoteSet.SetPeerMaj23. destruct (IsVoteTypeValid typeB) eqn:Ht; cbn [negb]; [|by eexists _, _].
  destruct (HeightVoteSet.getVoteSet hvs r typeB) as [vs|] eqn:Hg; [|by eexists _, _].
  destruct (getVoteSet_wf _ _ _ _ Hwf Hg) as [Hw _].
  destruct (SetPeerMaj23_spec vs peerID b Hw) as (e & vs' & -> & Hw' & Hext & _). cbn [obind].
  eexists _, _. split; [done|]. destruct (putVoteSet_wf hvs _ _ vs vs' Hwf Ht Hg Hw' Hext) as (P1 & _).
  destruct (same_height_put hvs r typeB vs') as (S1 & S2 & _). done.
Qed.

(** ** The number of rounds is bounded *)

Lemma rounds_bound hvs : hvs_wf hvs ->
  Z.of_nat (size (HeightVoteSet.roundVoteSets hvs))
    <= HeightVoteSet.round hvs + 1 + 2 * Z.of_nat (size (HeightVoteSet.peerCatchupRounds hvs)).
Proof.
  intros [W1 W2 W3 W4 W5 W6 W7].
  set (rounds := (map_to_list (HeightVoteSet.roundVoteSets hvs)).*1).
  set (peers := map_to_list (HeightVoteSet.peerCatchupRounds hvs)).
  assert (rounds ⊆+ seqZ 0 (HeightVoteSet.round hvs + 1) ++ mjoin (peers.*2)) as Hsub.
  { apply NoDup_submseteq; [apply NoDup_fst_map_to_list|]. intros r Hr. unfold rounds in Hr.
    apply list_elem_of_fmap in Hr as ([r' rvs] & -> & Hr). apply elem_of_map_to_list in Hr. cbn.
    apply elem_of_app. destruct (W7 r') as [Hlt|(p & l & Hp & Hin)]; [by eexists|left; by apply elem_of_seqZ; lia|right].
    apply list_elem_of_join. exists l. split; [done|]. apply list_elem_of_fmap. exists (p, l). split; [done|].
    by apply elem_of_map_to_list. }
  apply submseteq_length in Hsub. unfold rounds in Hsub. rewrite length_fmap, length_app, length_map_to_list in Hsub.
  rewrite length_seqZ in Hsub.
  assert (length (mjoin (peers.*2)) <= 2 * length peers)%nat as Hj.
  { assert (forall p l, (p, l) ∈ peers -> (length l <= 2)%nat) as Hall.
    { intros p l Hpl. apply elem_of_map_to_list in Hpl. apply W6 in Hpl. unfold zlen in Hpl. lia. }
    clear -Hall. induction peers as [|[p l] ps IH]; [done|].
    change (length (l ++ mjoin (ps.*2)) <= 2 * S (length ps))%nat. rewrite length_app.
    pose proof (Hall p l ltac:(set_solver)). specialize (IH ltac:(set_solver)). lia. }
  unfold peers in Hj, Hsub. rewrite length_map_to_list in Hj. lia.
Qed.

(** ** [POLInfo] *)

Lemma polFrom_spec hvs r n r' b : HeightVoteSet.polFrom hvs r n = (r', b) -> Z.of_nat n = r + 1 ->
  (0 <= r' <= r /\ VoteSet.TwoThirdsMajority (HeightVoteSet.Prevotes hvs r') = (b, true) /\
   forall k, r' < k <= r -> VoteSet.HasTwoThirdsMajority (HeightVoteSet.Prevotes hvs k) = false) \/
  (r' = -1 /\ forall k, 0 <= k <= r -> VoteSet.HasTwoThirdsMajority (HeightVoteSet.Prevotes hvs k) = false).
Proof.
  revert r. induction n as [|n IH]; intros r; cbn [HeightVoteSet.polFrom].
  - intros [= <- <-] Hn. right. split; [done|]. intros k Hk. lia.
  - unfold HeightVoteSet.Prevotes.
    destruct (VoteSet.TwoThirdsMajority (HeightVoteSet.getVoteSet hvs r VoteTypePrevote)) as [b0 ok] eqn:E.
    destruct ok.
    + intros [= <- <-] Hn. left. split_and!; [lia|lia|done|lia].
    + intros H Hn. assert (VoteSet.HasTwoThirdsMajority (HeightVoteSet.getVoteSet hvs r VoteTypePrevote) = false) as Hr.
      { unfold VoteSet.TwoThirdsMajority, VoteSet.HasTwoThirdsMajority in *.
        destruct (HeightVoteSet.getVoteSet hvs r VoteTypePrevote) as [vs|]; [|done].
        destruct (VoteSet.maj23 vs); [done|]. by rewrite bool_decide_eq_false_2 by (by intros [? ?]). }
      destruct (IH (r - 1) H ltac:(lia)) as [(H1 & H2 & H3)|[H1 H2]].
      * left. split_and!; [lia|lia|done|]. intros k Hk. destruct (Z.eq_dec k r) as [->|]; [done|apply H3; lia].
      * right. split; [done|]. intros k Hk. destruct (Z.eq_dec k r) as [->|]; [done|apply H2; lia].
Qed.
End AddVote.

(** ** Where the votes come from *)

Section Kept.
Context {L : Lib} {HL : LibLaws L}.
Implicit Types (hvs : HeightVoteSet.t) (v w : Vote.t).

(** The votes that are counted in some round. *)
Definition kept hvs w : Prop := exists r t vs, HeightVoteSet.getVoteSet hvs r t = Some vs /\ stored vs w.

(** The same, by the rounds. *)
Lemma kept_rounds hvs w : kept hvs w <-> exists r rvs, HeightVoteSet.roundVoteSets hvs !! r = Some rvs /\
  (stored (HeightVoteSet.Prevotes_ rvs) w \/ stored (HeightVoteSet.Precommits_ rvs) w).
Proof.
  unfold kept, HeightVoteSet.getVoteSet. split.
  - intros (r & t & vs & Hg & Hs). destruct (HeightVoteSet.roundVoteSets hvs !! r) as [rvs|] eqn:Er; [|done].
    exists r, rvs. split; [done|]. destruct (t =? _); [injection Hg as <-; by left|]. destruct (t =? _); [injection Hg as <-; by right|done].
  - intros (r & rvs & Er & [Hs|Hs]); [exists r, VoteTypePrevote|exists r, VoteTypePrecommit]; rewrite Er; by eexists.
Qed.

Lemma NewVoteSet_stored c h r t s vs w : VoteSet.NewVoteSet c h r t s = Ret vs -> ~ stored vs w.
Proof. unfold VoteSet.NewVoteSet. destruct (h =? 0); [done|]. intros [= <-] (k & vbb & i & Hk & _). exact (lookup_empty_Some _ _ Hk). Qed.

Lemma addRound_kept hvs r hvs' w : HeightVoteSet.addRound hvs r = Ret hvs' -> kept hvs' w -> kept hvs w.
Proof.
  unfold HeightVoteSet.addRound. intros Ha. destruct (_ !! r); [done|].
  destruct (VoteSet.NewVoteSet _ _ _ VoteTypePrevote _) as [v1|] eqn:E1; cbn [obind] in Ha; [|done].
  destruct (VoteSet.NewVoteSet _ _ _ VoteTypePrecommit _) as [v2|] eqn:E2; cbn [obind] in Ha; [|done]. injection Ha as <-.
  rewrite !kept_rounds. intros (r0 & rvs & Hr & Hs). cbn in Hr. apply lookup_insert_Some in Hr as [[<- <-]|[_ Hr]]; [|by exists r0, rvs].
  cbn in Hs. destruct Hs as [Hs|Hs]; exfalso; revert Hs; by eapply NewVoteSet_stored.
Qed.

Lemma SetRound_kept hvs r hvs' w : HeightVoteSet.SetRound hvs r = Ret hvs' -> kept hvs' w -> kept hvs w.
Proof.
  unfold HeightVoteSet.SetRound. destruct (_ && _); [done|]. unfold for_loop. intros Ha.
  destruct (loopM _ _ _ _) as [h1|] eqn:El; cbn [obind] in Ha; [|done]. injection Ha as <-.
  enough (forall n i h, loopM HeightVoteSet.ensureRound i n h = Ret h1 -> kept h1 w -> kept h w) as Hn by (intros Hk; by eapply Hn).
  clear. intros n. induction n as [|n IH]; intros i h Hl Hk; cbn in Hl; [by injection Hl as <-|].
  unfold HeightVoteSet.ensureRound in Hl at 1. destruct (_ !! i); cbn [obind] in Hl; [by eapply IH|].
  destruct (HeightVoteSet.addRound h i) as [h2|] eqn:Ea; cbn [obind] in Hl; [|done]. eapply addRound_kept; [exact Ea|by eapply IH].
Qed.

Lemma addTo_kept hvs v vs r hvs' w : HeightVoteSet.addTo hvs v (Some vs) = Ret (r, hvs') ->
  (forall u, stored vs u -> kept hvs u) -> kept hvs' w -> w = v \/ kept hvs w.
Proof.
  unfold HeightVoteSet.addTo. intros Ha Hvs. cbn [VoteSet.AddVote] in Ha.
  destruct (VoteSet.addVote vs (Some v)) as [[r1 vs1]|] eqn:Ev; cbn [obind] in Ha; [|done]. injection Ha as _ <-.
  unfold HeightVoteSet.putVoteSet. destruct (HeightVoteSet.roundVoteSets hvs !! i64 (Vote.Round v)) as [rvs|] eqn:Er; [|by right].
  assert (stored vs1 w -> w = v \/ kept hvs w) as Hnew.
  { intros Hs. destruct (addVote_stored _ _ _ _ _ Ev Hs) as [->|Hs']; [by left|right; by apply Hvs]. }
  assert (stored (HeightVoteSet.Prevotes_ rvs) w \/ stored (HeightVoteSet.Precommits_ rvs) w -> kept hvs w) as Hold
    by (intros Hs; apply kept_rounds; by exists (i64 (Vote.Round v)), rvs).
  rewrite kept_rounds. intros (r0 & rv & Hr & Hs). cbn in Hr. apply lookup_insert_Some in Hr as [[<- <-]|[_ Hr]].
  - destruct (_ =? VoteTypePrevote); cbn in Hs; destruct Hs as [Hs|Hs]; auto.
  - right. apply kept_rounds. by exists r0, rv.
Qed.

(** The sets of a height only get the votes that were added to them. *)
Lemma AddVote_kept hvs v p r hvs' w : HeightVoteSet.AddVote hvs (Some v) p = Ret (r, hvs') -> kept hvs' w -> w = v \/ kept hvs w.
Proof.
  unfold HeightVoteSet.AddVote. intros Ha Hw. destruct (negb _); [injection Ha as _ <-; by right|].
  destruct (HeightVoteSet.getVoteSet hvs _ _) as [vs|] eqn:Eg.
  { eapply addTo_kept; [exact Ha| |exact Hw]. intros u Hu. by eexists _, _, vs. }
  destruct (_ <? 2); [|injection Ha as _ <-; by right].
  destruct (HeightVoteSet.addRound hvs _) as [h1|] eqn:Er; cbn [obind] in Ha; [|done].
  match type of Ha with HeightVoteSet.addTo ?h v ?o = _ => set (h2 := h) in Ha; destruct o as [vs|] eqn:Eo; [|done] end.
  assert (forall u, kept h2 u -> kept hvs u) as H2 by (intros u Hu; eapply addRound_kept; [exact Er|exact Hu]).
  destruct (addTo_kept h2 v vs r hvs' w Ha) as [->|Hk]; [|done|by left|right; by apply H2].
  intros u Hu. by eexists _, _, vs.
Qed.

Lemma NewHeightVoteSet_kept c h s hvs w : HeightVoteSet.NewHeightVoteSet c h s = Ret hvs -> ~ kept hvs w.
Proof.
  unfold HeightVoteSet.NewHeightVoteSet, HeightVoteSet.Reset. intros Hn Hk.
  match type of Hn with (let! h := HeightVoteSet.addRound ?x _ in _) = _ => set (h0 := x) in Hn end.
  destruct (HeightVoteSet.addRound h0 _) as [h1|] eqn:Er; cbn [obind] in Hn; [|done]. injection Hn as <-.
  assert (kept h0 w) as Hk0 by (eapply addRound_kept; [exact Er|exact Hk]).
  apply kept_rounds in Hk0 as (r & rvs & Hr & _). exact (lookup_empty_Some _ _ Hr).
Qed.
End Kept.

(** ** Properties *)

Section Properties.
Context {L : Lib} {HL : LibLaws L}.

(** Steps of the tracker: a vote of a peer, a claim of a peer, and the next
    round, as the state machine drives it. *)
Inductive hstep : HeightVoteSet.t -> HeightVoteSet.t -> Prop :=
| hstep_vote hvs v peerID r hvs' : HeightVoteSet.AddVote hvs (Some v) peerID = Ret (r, hvs') -> hstep hvs hvs'
| hstep_peer hvs rd typeB peerID b e hvs' :
    HeightVoteSet.SetPeerMaj23 hvs rd typeB peerID b = Ret (e, hvs') -> hstep hvs hvs'
| hstep_round hvs rd hvs' : HeightVoteSet.round hvs < rd < max_i64 ->
    HeightVoteSet.SetRound hvs rd = Ret hvs' -> hstep hvs hvs'.

Lemma AddVote_total hvs v peerID : hvs_wf hvs -> exists added err hvs',
  HeightVoteSet.AddVote hvs (Some v) peerID = Ret (added, err, hvs') /\ hvs_wf hvs' /\ same_height hvs hvs'.
Proof.
  intros Hwf. destruct (IsVoteTypeValid (Vote.Type_ v)) eqn:Ht.
  2:{ eexists _, _, hvs. unfold HeightVoteSet.AddVote. rewrite Ht. by split_and!. }
  destruct (HeightVoteSet.getVoteSet hvs (i64 (Vote.Round v)) (Vote.Type_ v)) as [vs|] eqn:Hg.
  - destruct (AddVote_known hvs v peerID vs Hwf Ht Hg) as (a & e & h & E & (H1 & H2 & _) & _). by exists a, e, h.
  - destruct (Z.ltb_spec (zlen (default [] (HeightVoteSet.peerCatchupRounds hvs !! peerID))) 2) as [Hl|Hl].
    + destruct (AddVote_catchup hvs v peerID Hwf Ht Hg Hl) as (a & e & h & E & (H1 & H2 & _) & _). by exists a, e, h.
    + eexists _, _, hvs. unfold HeightVoteSet.AddVote. rewrite Ht, Hg, (proj2 (Z.ltb_ge _ _) Hl). by split_and!.
Qed.

Lemma hsteps_wf hvs hvs' : hvs_wf hvs -> rtc hstep hvs hvs' -> hvs_wf hvs' /\ same_height hvs hvs'.
Proof.
  intros Hwf H. induction H as [h|h1 h2 h3 H12 H23 IH]; [by split|].
  assert (hvs_wf h2 /\ same_height h1 h2) as [Hw2 S12].
  { destruct H12 as [h v p r h' E|h rd t p b e h' E|h rd h' Hrd E].
    - destruct (AddVote_total h v p Hwf) as (a & er & h2 & E' & Hw & Hs). rewrite E in E'. by inv E'.
    - destruct (SetPeerMaj23_wf h rd t p b Hwf) as (e' & h2 & E' & Hw & Hs & _). rewrite E in E'. by inv E'.
    - destruct (SetRound_spec h rd Hwf) as (h2 & E' & Hw & Hs & _); [lia|lia|]. rewrite E in E'. by inv E'. }
  destruct (IH Hw2) as [Hw3 S23]. split; [done|]. destruct S12 as (? & ? & ?), S23 as (? & ? & ?). unfold same_height. by split_and!; congruence.
Qed.

(** The tracker of a height is safe and bounded.  From [NewHeightVoteSet],
    after any sequence of votes of any peers, peer claims and moves to later
    rounds, every round from 0 to the current one has its two vote sets, each set
    is well-formed and of its own round and type, no peer has made more than two
    catch-up rounds, so the number of rounds is at most [round + 1] plus twice
    the number of peers, and the next vote of any peer is answered without a
    panic. *)
Theorem HeightVoteSet_bounded chainID height (s : ValidatorSet.t) hvs0 hvs : height <> 0 -> quorate s ->
  HeightVoteSet.NewHeightVoteSet chainID height s = Ret hvs0 -> rtc hstep hvs0 hvs ->
  hvs_wf hvs /\
  Z.of_nat (size (HeightVoteSet.roundVoteSets hvs))
    <= HeightVoteSet.round hvs + 1 + 2 * Z.of_nat (size (HeightVoteSet.peerCatchupRounds hvs)) /\
  (forall v peerID, exists r hvs', HeightVoteSet.AddVote hvs (Some v) peerID = Ret (r, hvs')).
Proof.
  intros Hh Hq E Hrun. destruct (NewHeightVoteSet_wf chainID height s Hh Hq) as (h & E' & Hwf0 & _).
  rewrite E in E'. injection E' as <-. destruct (hsteps_wf _ _ Hwf0 Hrun) as [Hwf _].
  split_and!; [done|by apply rounds_bound|]. intros v p.
  destruct (AddVote_total hvs v p Hwf) as (a & e & h & E1 & _). eauto.
Qed.

(** Votes are routed.  A vote of a valid type whose round is tracked, or whose
    peer has a catch-up round left, is added to the set of its round and type,
    made new in the second case, with the answer of that set, and no other set
    changes; a vote of an untracked round from a peer that used its two rounds is
    refused with [ErrorGotVoteFromUnwantedRound] and changes nothing. *)
Theorem AddVote_routes (hvs : HeightVoteSet.t) v peerID : hvs_wf hvs -> IsVoteTypeValid (Vote.Type_ v) = true ->
  exists added err hvs', HeightVoteSet.AddVote hvs (Some v) peerID = Ret (added, err, hvs') /\
  if bool_decide (HeightVoteSet.getVoteSet hvs (i64 (Vote.Round v)) (Vote.Type_ v) = None) &&
     (2 <=? zlen (default [] (HeightVoteSet.peerCatchupRounds hvs !! peerID)))
  then added = false /\ err = Some ErrorGotVoteFromUnwantedRound /\ hvs' = hvs
  else routed hvs v added err hvs'.
Proof.
  intros Hwf Ht. destruct (HeightVoteSet.getVoteSet hvs (i64 (Vote.Round v)) (Vote.Type_ v)) as [vs|] eqn:Hg.
  - destruct (AddVote_known hvs v peerID vs Hwf Ht Hg) as (a & e & h & E & Hr & _). by exists a, e, h.
  - destruct (Z.leb_spec 2 (zlen (default [] (HeightVoteSet.peerCatchupRounds hvs !! peerID)))) as [Hl|Hl].
    + exists false, (Some ErrorGotVoteFromUnwantedRound), hvs. split; [|done].
      unfold HeightVoteSet.AddVote. by rewrite Ht, Hg, (proj2 (Z.ltb_ge _ _) Hl).
    + destruct (AddVote_catchup hvs v peerID Hwf Ht Hg Hl) as (a & e & h & E & Hr & _). by exists a, e, h.
Qed.

(** [POLInfo] returns the latest round, up to the current one, whose prevotes
    have a two-thirds majority, with the block of that majority, and -1 when
    there is no such round. *)
Theorem POLInfo_latest (hvs : HeightVoteSet.t) r b : 0 <= HeightVoteSet.round hvs ->
  HeightVoteSet.POLInfo hvs = (r, b) ->
  (0 <= r <= HeightVoteSet.round hvs /\ VoteSet.TwoThirdsMajority (HeightVoteSet.Prevotes hvs r) = (b, true) /\
   forall k, r < k <= HeightVoteSet.round hvs -> VoteSet.HasTwoThirdsMajority (HeightVoteSet.Prevotes hvs k) = false) \/
  (r = -1 /\ forall k, 0 <= k <= HeightVoteSet.round hvs ->
     VoteSet.HasTwoThirdsMajority (HeightVoteSet.Prevotes hvs k) = false).
Proof. intros Hr E. apply (polFrom_spec hvs _ _ r b E). lia. Qed.
End Properties.

(** ** Witnesses *)

Definition demoHeight : HeightVoteSet.t :=
  HeightVoteSet.mk demoLib "chain" 5 demoSet 0
    {[ 0 := HeightVoteSet.mkRound demoLib
              (VoteSet.mk demoLib "chain" 5 0 VoteTypePrevote demoSet (BitArray.NewBitArray 3)
                 (blockVotes.emptyVotes 3) 0 0 None ∅ ∅)
              (VoteSet.mk demoLib "chain" 5 0 VoteTypePrecommit demoSet (BitArray.NewBitArray 3)
                 (blockVotes.emptyVotes 3) 0 0 None ∅ ∅) ]} ∅.

Lemma demoHeight_new : HeightVoteSet.NewHeightVoteSet "chain" 5 demoSet = Ret demoHeight.
Proof. reflexivity. Qed.

Lemma demoHeight_wf : hvs_wf demoHeight.
Proof.
  destruct (NewHeightVoteSet_wf "chain" 5 demoSet) as (h & E & Hwf & _); [done|exact demoSet_quorate|].
  rewrite demoHeight_new in E. by injection E as <-.
Qed.

Lemma HeightVoteSet_bounded_witness : exists r hvs',
  HeightVoteSet.AddVote demoHeight (Some (demoVoteFor Byte.x02 1 5 3 VoteTypePrecommit (demoBlock Byte.xaa))) "peer" = Ret (r, hvs').
Proof.
  refine (proj2 (proj2 (HeightVoteSet_bounded "chain" 5 demoSet demoHeight demoHeight _ demoSet_quorate demoHeight_new _))
    (demoVoteFor Byte.x02 1 5 3 VoteTypePrecommit (demoBlock Byte.xaa)) "peer"%string).
  - discriminate.
  - apply rtc_refl.
Defined.

(** A precommit of round 3 opens a catch-up round. *)
Lemma AddVote_routes_witness : exists added err hvs',
  HeightVoteSet.AddVote demoHeight (Some (demoVoteFor Byte.x02 1 5 3 VoteTypePrecommit (demoBlock Byte.xaa))) "peer"
    = Ret (added, err, hvs') /\
  routed demoHeight (demoVoteFor Byte.x02 1 5 3 VoteTypePrecommit (demoBlock Byte.xaa)) added err hvs'.
Proof.
  destruct (AddVote_routes demoHeight (demoVoteFor Byte.x02 1 5 3 VoteTypePrecommit (demoBlock Byte.xaa)) "peer"
    demoHeight_wf eq_refl) as (added & err & hvs' & E & H).
  exists added, err, hvs'. split; [exact E|exact H].
Defined.

(** The tracker after two prevotes of round 0 for one block. *)
Definition demoPolka : HeightVoteSet.t :=
  match HeightVoteSet.AddVote demoHeight (Some (demoVoteFor Byte.x03 2 5 0 VoteTypePrevote (demoBlock Byte.xaa))) "p" with
  | Ret (_, h) =>
      match HeightVoteSet.AddVote h (Some (demoVoteFor Byte.x02 1 5 0 VoteTypePrevote (demoBlock Byte.xaa))) "q" with
      | Ret (_, h') => h'
      | Panic _ => h
      end
  | Panic _ => demoHeight
  end.

Lemma POLInfo_latest_witness :
  VoteSet.TwoThirdsMajority (HeightVoteSet.Prevotes demoPolka 0) = (demoBlock Byte.xaa, true).
Proof.
  assert (HeightVoteSet.POLInfo demoPolka = (0, demoBlock Byte.xaa)) as E by (vm_compute; reflexivity).
  assert (0 <= HeightVoteSet.round demoPolka) as Hr by (vm_compute; discriminate).
  destruct (POLInfo_latest demoPolka 0 (demoBlock Byte.xaa) Hr E) as [(_ & H & _)|[H _]]; [exact H|discriminate H].
Defined.
