(* ===== verification/PrivValidator.v ===== *)
(** * The signer of a validator

    Models the [privValidator] of [consensus/tbft/types/priv_validator.go]: the
    height, round and step it signed last, with the message and the signature, and
    the checks that keep it from signing two messages for the same step.  The
    clock reading of [checkVotesOnlyDifferByTimestamp] is an argument. *)

From S2P Require Import Prelude Types.

Definition stepNone : Z := 0.
Definition stepPropose : Z := 1.
Definition stepPrevote : Z := 2.
Definition stepPrecommit : Z := 3.

Module privValidator.
(** A nil byte slice is [None]. *)
Record t {L : Lib} := mk {
  PrivKey : PrivateKey;
  LastHeight : Z;
  LastRound : Z;
  LastStep : Z;
  LastSignature : option bytes;
  LastSignBytes : option bytes
}.
Arguments t : clear implicits.
Arguments t {L}.

Section Ops.
Context {L : Lib}.

Definition voteToStep (vote : Vote.t) : outcome Z :=
  if Vote.Type_ vote =? VoteTypePrevote then Ret stepPrevote
  else if Vote.Type_ vote =? VoteTypePrecommit then Ret stepPrecommit
  else Panic "Unknown vote type".

Definition NewPrivValidator (priv : PrivateKey) : t := mk L priv 0 0 stepNone None None.

Definition Reset (pv : t) : t := mk L (PrivKey pv) 0 0 0 None None.

Definition saveSigned (pv : t) (height round step : Z) (signBytes sig : bytes) : t :=
  mk L (PrivKey pv) height (u64 round) step (Some sig) (Some signBytes).

Definition GetPubKey (pv : t) : PublicKey := Public (PrivKey pv).
Definition GetAddress (pv : t) : bytes := PubKeyAddress (Public (PrivKey pv)).

(** The error, or whether the step is the last one. *)
Definition checkHRS (pv : t) (height round step : Z) : outcome (string + bool) :=
  if height <? LastHeight pv then Ret (inl "height regression")
  else if LastHeight pv =? height then
    if round <? i64 (LastRound pv) then Ret (inl "round regression")
    else if i64 (LastRound pv) =? round then
      if step <? LastStep pv then Ret (inl "step regression")
      else if LastStep pv =? step then
        match LastSignBytes pv with
        | Some _ =>
            match LastSignature pv with
            | None => Panic "Validator: LastSignature is nil but LastSignBytes is not!"
            | Some _ => Ret (inr true)
            end
        | None => Ret (inl "no LastSignature found")
        end
      else Ret (inr false)
    else Ret (inr false)
  else Ret (inr false).

(** [cdc.MarshalJSON] with its error dropped. *)
Definition orNil (o : option bytes) : bytes := match o with Some b => b | None => [] end.

Definition checkVotesOnlyDifferByTimestamp (now : Z) (lastSignBytes newSignBytes : bytes)
    : outcome (Z * bool) :=
  match unmarshalVote lastSignBytes with
  | None => Panic "LastSignBytes cannot be unmarshalled into vote"
  | Some lastVote =>
      match unmarshalVote newSignBytes with
      | None => Panic "signBytes cannot be unmarshalled into vote"
      | Some newVote =>
          match parseTime (CanonicalJSONVote.Timestamp lastVote) with
          | None => Panic "time"
          | Some lastTime =>
              let now := CanonicalTime now in
              let lastVote := CanonicalJSONVote.set_Timestamp lastVote now in
              let newVote := CanonicalJSONVote.set_Timestamp newVote now in
              Ret (lastTime, bytes_equal (orNil (marshalVote newVote)) (orNil (marshalVote lastVote)))
          end
      end
  end.

Definition checkProposalsOnlyDifferByTimestamp (now : Z) (lastSignBytes newSignBytes : bytes)
    : outcome (Z * bool) :=
  match unmarshalProposal lastSignBytes with
  | None => Panic "LastSignBytes cannot be unmarshalled into proposal"
  | Some lastProposal =>
      match unmarshalProposal newSignBytes with
      | None => Panic "signBytes cannot be unmarshalled into proposal"
      | Some newProposal =>
          match parseTime (CanonicalJSONProposal.Timestamp lastProposal) with
          | None => Panic "time"
          | Some lastTime =>
              let now := CanonicalTime now in
              let lastProposal := CanonicalJSONProposal.set_Timestamp lastProposal now in
              let newProposal := CanonicalJSONProposal.set_Timestamp newProposal now in
              Ret (lastTime, bytes_equal (orNil (marshalProposal newProposal)) (orNil (marshalProposal lastProposal)))
          end
      end
  end.

(** The error, the vote as the call leaves it, and the new state. *)
Definition signVote (pv : t) (now : Z) (chainID : string) (vote : Vote.t)
    : outcome (option string * Vote.t * t) :=
  let! step := voteToStep vote in
  let height := Vote.Height vote in
  let round := i64 (Vote.Round vote) in
  let! signBytes := VoteSignBytes chainID vote in
  let! r := checkHRS pv height round step in
  match r with
  | inl err => Ret (Some err, vote, pv)
  | inr true =>
      if bytes_equal signBytes (orNil (LastSignBytes pv))
      then Ret (None, Vote.set_Signature vote (orNil (LastSignature pv)), pv)
      else
        let! (timestamp, ok) := checkVotesOnlyDifferByTimestamp now (orNil (LastSignBytes pv)) signBytes in
        if ok : bool
        then Ret (None, Vote.set_Signature (Vote.set_Timestamp vote timestamp) (orNil (LastSignature pv)), pv)
        else Ret (Some "conflicting data", vote, pv)
  | inr false =>
      match PrivKeySign (PrivKey pv) signBytes with
      | None => Ret (Some "sign", vote, pv)
      | Some sig => Ret (None, Vote.set_Signature vote sig, saveSigned pv height round step signBytes sig)
      end
  end.

Definition SignVote (pv : t) (now : Z) (chainID : string) (vote : Vote.t)
    : outcome (option string * Vote.t * t) :=
  let! (r, pv') := signVote pv now chainID vote in
  let (err, vote') := r in
  match err with
  | Some e => Ret (Some (String.append "error signing vote: " e), vote', pv')
  | None => Ret (None, vote', pv')
  end.

Definition signProposal (pv : t) (now : Z) (chainID : string) (proposal : Proposal.t)
    : outcome (option string * Proposal.t * t) :=
  let height := Proposal.Height proposal in
  let round := i64 (Proposal.Round proposal) in
  let! signBytes := ProposalSignBytes chainID proposal in
  let! r := checkHRS pv height round stepPropose in
  match r with
  | inl err => Ret (Some err, proposal, pv)
  | inr true =>
      if bytes_equal signBytes (orNil (LastSignBytes pv))
      then Ret (None, Proposal.set_Signature proposal (orNil (LastSignature pv)), pv)
      else
        let! (timestamp, ok) := checkProposalsOnlyDifferByTimestamp now (orNil (LastSignBytes pv)) signBytes in
        if ok : bool
        then Ret (None, Proposal.set_Signature (Proposal.set_Timestamp proposal timestamp) (orNil (LastSignature pv)), pv)
        else Ret (Some "conflicting data", proposal, pv)
  | inr false =>
      match PrivKeySign (PrivKey pv) signBytes with
      | None => Ret (Some "sign", proposal, pv)
      | Some sig => Ret (None, Proposal.set_Signature proposal sig, saveSigned pv height round stepPropose signBytes sig)
      end
  end.

Definition SignProposal (pv : t) (now : Z) (chainID : string) (proposal : Proposal.t)
    : outcome (option string * Proposal.t * t) :=
  let! (r, pv') := signProposal pv now chainID proposal in
  let (err, proposal') := r in
  match err with
  | Some e => Ret (Some (String.append "error signing proposal: " e), proposal', pv')
  | None => Ret (None, proposal', pv')
  end.

End Ops.
End privValidator.

(** ** Runs of the signer *)

(** One use of the key: the step it was for, the message and the signature. *)
Module signed.
Record t := mk { Height : Z; Round : Z; Step : Z; Msg : bytes; Sig : bytes }.
#[global] Instance eq_dec : EqDecision t.
Proof. solve_decision. Defined.
End signed.

(** Order of steps: height, then round as an [int], then step. *)
Definition hrs_lt (a b : Z * Z * Z) : Prop :=
  let '(h1, r1, s1) := a in let '(h2, r2, s2) := b in
  h1 < h2 \/ h1 = h2 /\ (r1 < r2 \/ r1 = r2 /\ s1 < s2).

Definition hrs (e : signed.t) : Z * Z * Z := (signed.Height e, signed.Round e, signed.Step e).

Inductive request :=
| ReqVote (v : Vote.t)
| ReqProposal (p : Proposal.t).

Section Runs.
Context {L : Lib}.

(** What a successful reply carries: its step and its signature. *)
Definition reply : Type := (Z * Z * Z) * bytes.

(** A request, answered with or without an error. *)
Definition serve (chainID : string) (pv : privValidator.t) (now : Z) (q : request)
    : outcome (option reply * privValidator.t) :=
  match q with
  | ReqVote v =>
      let! (r, pv') := privValidator.SignVote pv now chainID v in
      match r with
      | (None, v') =>
          let! step := privValidator.voteToStep v in
          Ret (Some ((Vote.Height v, i64 (Vote.Round v), step), Vote.Signature v'), pv')
      | (Some _, _) => Ret (None, pv')
      end
  | ReqProposal p =>
      let! (r, pv') := privValidator.SignProposal pv now chainID p in
      match r with
      | (None, p') => Ret (Some ((Proposal.Height p, i64 (Proposal.Round p), stepPropose), Proposal.Signature p'), pv')
      | (Some _, _) => Ret (None, pv')
      end
  end.

(** The uses of the key in a run, newest first: a use is recorded when the
    state's last step changes. *)
Definition lastUse (pv : privValidator.t) : option signed.t :=
  match privValidator.LastSignBytes pv, privValidator.LastSignature pv with
  | Some m, Some s => Some (signed.mk (privValidator.LastHeight pv) (i64 (privValidator.LastRound pv))
                              (privValidator.LastStep pv) m s)
  | _, _ => None
  end.

Inductive run (chainID : string) (k : PrivateKey) : list signed.t -> list reply -> privValidator.t -> Prop :=
| run_start : run chainID k [] [] (privValidator.NewPrivValidator k)
| run_served log reps pv now q r pv' : run chainID k log reps pv ->
    serve chainID pv now q = Ret (r, pv') ->
    run chainID k (match lastUse pv' with
                   | Some e => if bool_decide (lastUse pv = Some e) then log else e :: log
                   | None => log end)
        (match r with Some x => x :: reps | None => reps end) pv'.
End Runs.

(** ** The invariant of a run *)

Section Safety.
Context {L : Lib}.
Implicit Types (pv : privValidator.t) (log : list signed.t).

Definition newest log pv : Prop :=
  match log with
  | [] => privValidator.LastSignBytes pv = None /\ privValidator.LastSignature pv = None
  | e :: _ => lastUse pv = Some e
  end.

Definition decreasing log : Prop :=
  forall i j a b, (i < j)%nat -> log !! i = Some a -> log !! j = Some b -> hrs_lt (hrs b) (hrs a).

Lemma hrs_lt_trans a b c : hrs_lt a b -> hrs_lt b c -> hrs_lt a c.
Proof. destruct a as [[? ?] ?], b as [[? ?] ?], c as [[? ?] ?]. unfold hrs_lt. lia. Qed.

Lemma decreasing_cons e log : decreasing log ->
  (forall e0, log !! 0%nat = Some e0 -> hrs_lt (hrs e0) (hrs e)) -> decreasing (e :: log).
Proof.
  intros Hd H0 i j a b Hij Ha Hb. destruct j as [|j]; [lia|]. cbn in Hb. destruct i as [|i]; cbn in Ha.
  - injection Ha as <-. destruct j as [|j]; [auto|].
    destruct (lookup_lt_is_Some_2 log 0) as [e0 He0]; [apply lookup_lt_Some in Hb; lia|].
    eapply hrs_lt_trans; [|by apply H0]. apply (Hd 0%nat (S j)); (lia || done).
  - apply (Hd i j); (lia || done).
Qed.

(** [checkHRS] lets through only a later step, or the very last one. *)
Lemma checkHRS_spec pv log h r s : newest log pv -> exists x, privValidator.checkHRS pv h r s = Ret x /\
  match x with
  | inl _ => True
  | inr true => exists e log', log = e :: log' /\ hrs e = (h, r, s) /\
      privValidator.LastSignBytes pv = Some (signed.Msg e) /\ privValidator.LastSignature pv = Some (signed.Sig e)
  | inr false => forall e, log !! 0%nat = Some e -> hrs_lt (hrs e) (h, r, s)
  end.
Proof.
  intros Hn. unfold privValidator.checkHRS.
  assert (forall e, log !! 0%nat = Some e -> hrs e
    = (privValidator.LastHeight pv, i64 (privValidator.LastRound pv), privValidator.LastStep pv)) as Hhrs.
  { intros e He. destruct log as [|e' log]; [done|]. injection He as ->. cbn in Hn. unfold lastUse in Hn.
    destruct (privValidator.LastSignBytes pv), (privValidator.LastSignature pv); try done. by injection Hn as <-. }
  destruct (Z.ltb_spec h (privValidator.LastHeight pv)); [by eexists|].
  destruct (Z.eqb_spec (privValidator.LastHeight pv) h) as [<-|Hh].
  2:{ eexists. split; [done|]. intros e He. rewrite (Hhrs e He). unfold hrs_lt. lia. }
  destruct (Z.ltb_spec r (i64 (privValidator.LastRound pv))); [by eexists|].
  destruct (Z.eqb_spec (i64 (privValidator.LastRound pv)) r) as [Er|Hr].
  2:{ eexists. split; [done|]. intros e He. rewrite (Hhrs e He). unfold hrs_lt. lia. }
  destruct (Z.ltb_spec s (privValidator.LastStep pv)); [by eexists|].
  destruct (Z.eqb_spec (privValidator.LastStep pv) s) as [Es|Hs].
  2:{ eexists. split; [done|]. intros e He. rewrite (Hhrs e He). unfold hrs_lt. lia. }
  destruct log as [|e log].
  { destruct Hn as [-> ->]. by eexists. }
  specialize (Hhrs e eq_refl). cbn in Hn. unfold lastUse in Hn.
  destruct (privValidator.LastSignBytes pv) as [m|] eqn:Em; [|done].
  destruct (privValidator.LastSignature pv) as [sg|] eqn:Es'; [|done].
  eexists. split; [done|]. exists e, log. injection Hn as <-. split_and!; try done. rewrite Hhrs. by rewrite Er, Es.
Qed.

(** What one call leaves: the same state and a reply of the last use, or a new
    use with its reply, or an error. *)
Definition call_ok (k : PrivateKey) log pv (st : Z * Z * Z) (err : option string) (sig : bytes) pv' : Prop :=
  (err <> None /\ pv' = pv) \/
  (err = None /\ pv' = pv /\ exists e log', log = e :: log' /\ hrs e = st /\ signed.Sig e = sig) \/
  (err = None /\ privValidator.PrivKey pv' = privValidator.PrivKey pv /\ exists e,
     lastUse pv' = Some e /\ hrs e = st /\ signed.Sig e = sig /\ PrivKeySign k (signed.Msg e) = Some sig /\
     forall e0, log !! 0%nat = Some e0 -> hrs_lt (hrs e0) (hrs e)).

Lemma saveSigned_use pv h r s m sg : lastUse (privValidator.saveSigned pv h (i64 r) s m sg)
  = Some (signed.mk h (i64 r) s m sg).
Proof. unfold lastUse. cbn. rewrite i64_u64. by rewrite (i64_id (i64 r)) by apply i64_range. Qed.

Lemma signVote_ok chainID k log pv now v err v' pv' : newest log pv -> privValidator.PrivKey pv = k ->
  privValidator.signVote pv now chainID v = Ret (err, v', pv') -> exists step,
  privValidator.voteToStep v = Ret step /\
  call_ok k log pv (Vote.Height v, i64 (Vote.Round v), step) err (Vote.Signature v') pv'.
Proof.
  intros Hn Hk H. unfold privValidator.signVote in H.
  destruct (privValidator.voteToStep v) as [step|]; [|done]. exists step. split; [done|]. cbn [obind] in H.
  destruct (VoteSignBytes chainID v) as [sb|]; [|done]. cbn [obind] in H.
  destruct (checkHRS_spec pv log (Vote.Height v) (i64 (Vote.Round v)) step Hn) as (x & E & Hx). rewrite E in H. cbn [obind] in H.
  destruct x as [e|[|]].
  - inv H. by left.
  - destruct Hx as (e & log' & -> & He & Em & Es). rewrite Em, Es in H. cbn [privValidator.orNil] in H.
    destruct (bytes_equal _ _).
    + inv H. right. left. split_and!; try done. by exists e, log'.
    + destruct (privValidator.checkVotesOnlyDifferByTimestamp now _ sb) as [[ts ok]|]; [|done]. cbn [obind] in H.
      destruct ok; inv H; [right; left|by left]. split_and!; try done. by exists e, log'.
  - destruct (PrivKeySign (privValidator.PrivKey pv) sb) as [sg|] eqn:Eg; inv H; [|by left].
    right. right. split_and!; try done. eexists. split; [apply saveSigned_use|]. by split_and!.
Qed.

Lemma signProposal_ok chainID k log pv now p err p' pv' : newest log pv -> privValidator.PrivKey pv = k ->
  privValidator.signProposal pv now chainID p = Ret (err, p', pv') ->
  call_ok k log pv (Proposal.Height p, i64 (Proposal.Round p), stepPropose) err (Proposal.Signature p') pv'.
Proof.
  intros Hn Hk H. unfold privValidator.signProposal in H.
  destruct (ProposalSignBytes chainID p) as [sb|]; [|done]. cbn [obind] in H.
  destruct (checkHRS_spec pv log (Proposal.Height p) (i64 (Proposal.Round p)) stepPropose Hn) as (x & E & Hx).
  rewrite E in H. cbn [obind] in H. destruct x as [e|[|]].
  - inv H. by left.
  - destruct Hx as (e & log' & -> & He & Em & Es). rewrite Em, Es in H. cbn [privValidator.orNil] in H.
    destruct (bytes_equal _ _).
    + inv H. right. left. split_and!; try done. by exists e, log'.
    + destruct (privValidator.checkProposalsOnlyDifferByTimestamp now _ sb) as [[ts ok]|]; [|done]. cbn [obind] in H.
      destruct ok; inv H; [right; left|by left]. split_and!; try done. by exists e, log'.
  - destruct (PrivKeySign (privValidator.PrivKey pv) sb) as [sg|] eqn:Eg; inv H; [|by left].
    right. right. split_and!; try done. eexists. split; [apply saveSigned_use|]. by split_and!.
Qed.

Lemma serve_ok chainID k log pv now q r pv' : newest log pv -> privValidator.PrivKey pv = k ->
  serve chainID pv now q = Ret (r, pv') -> exists st err sig,
  call_ok k log pv st err sig pv' /\ (match r with Some x => err = None /\ x = (st, sig) | None => err <> None end).
Proof.
  intros Hn Hk H. destruct q as [v|p]; cbn [serve] in H.
  - unfold privValidator.SignVote in H. destruct (privValidator.signVote pv now chainID v) as [[[err v'] pv1]|] eqn:E; [|done].
    cbn [obind] in H. destruct (signVote_ok _ _ _ _ _ _ _ _ _ Hn Hk E) as (step & Es & Hc).
    exists (Vote.Height v, i64 (Vote.Round v), step), err, (Vote.Signature v').
    destruct err as [e|]; cbn [obind] in H; [by inv H|]. rewrite Es in H. cbn [obind] in H. by inv H.
  - unfold privValidator.SignProposal in H.
    destruct (privValidator.signProposal pv now chainID p) as [[[err p'] pv1]|] eqn:E; [|done].
    cbn [obind] in H. pose proof (signProposal_ok _ _ _ _ _ _ _ _ _ Hn Hk E) as Hc.
    exists (Proposal.Height p, i64 (Proposal.Round p), stepPropose), err, (Proposal.Signature p').
    destruct err as [e|]; cbn [obind] in H; by inv H.
Qed.

Lemma run_inv chainID k log reps pv : run chainID k log reps pv ->
  privValidator.PrivKey pv = k /\ newest log pv /\ decreasing log /\
  (forall e, e ∈ log -> PrivKeySign k (signed.Msg e) = Some (signed.Sig e)) /\
  (forall st sig, (st, sig) ∈ reps -> exists e, e ∈ log /\ hrs e = st /\ signed.Sig e = sig).
Proof.
  induction 1 as [|log reps pv now q r pv' Hrun (Hk & Hn & Hd & Hs & Hr) E].
  { split_and!; try done; set_solver. }
  destruct (serve_ok _ _ _ _ _ _ _ _ Hn Hk E) as (st & err & sig & Hc & Hrep).
  destruct Hc as [[Herr ->]|[(-> & -> & e & log' & -> & He & Hsg)|(-> & Hk' & e & Hu & He & Hsg & Hg & Hlt)]].
  - destruct r as [x|]; [by destruct Hrep|]. destruct (lastUse pv) as [e|]; [|by split_and!].
    rewrite bool_decide_eq_true_2 by done. by split_and!.
  - destruct r as [x|]; [|done]. destruct Hrep as [_ ->]. cbn in Hn. rewrite Hn, bool_decide_eq_true_2 by done.
    split_and!; try done. intros st' sg' [[= -> ->]|Hin]%elem_of_cons; [|eauto]. exists e. set_solver.
  - destruct r as [x|]; [|done]. destruct Hrep as [_ ->]. rewrite Hu. rewrite bool_decide_eq_false_2.
    + split_and!; try done; [congruence|by apply decreasing_cons| |].
      * intros e0 [->|Hin]%elem_of_cons; [by rewrite Hg, Hsg|auto].
      * intros st' sg' [[= -> ->]|Hin]%elem_of_cons; [exists e; set_solver|].
        destruct (Hr _ _ Hin) as (e0 & ? & ? & ?). exists e0. set_solver.
    + intros Heq. destruct log as [|e0 log]; cbn in Hn.
      * destruct Hn as [Hn _]. unfold lastUse in Heq. by rewrite Hn in Heq.
      * rewrite Hn in Heq. injection Heq as ->. specialize (Hlt e eq_refl).
        destruct (hrs e) as [[? ?] ?]. unfold hrs_lt in Hlt. lia.
Qed.
End Safety.

(** ** Properties *)

Section Properties.
Context {L : Lib} {HL : LibLaws L}.

(** C25: the signer never signs twice for one step.  In every run from a new
    signer, over any mix of votes and proposals and as long as [Reset] is not
    called, the steps for which the key is used strictly increase in height, round
    and step, every use is a signature of that key, and every signature handed out
    is the one made for its step; so two replies for the same step carry the same
    signature, made for the same message. *)
Theorem no_double_sign chainID k log reps pv : run chainID k log reps pv ->
  (forall i j a b, (i < j)%nat -> log !! i = Some a -> log !! j = Some b -> hrs_lt (hrs b) (hrs a)) /\
  (forall e, e ∈ log -> PrivKeySign k (signed.Msg e) = Some (signed.Sig e)) /\
  (forall st sig, (st, sig) ∈ reps -> exists e, e ∈ log /\ hrs e = st /\ signed.Sig e = sig) /\
  (forall e1 e2, e1 ∈ log -> e2 ∈ log -> hrs e1 = hrs e2 -> e1 = e2).
Proof.
  intros Hrun. destruct (run_inv _ _ _ _ _ Hrun) as (_ & _ & Hd & Hs & Hr). split_and!; try done.
  intros e1 e2 [i Hi]%list_elem_of_lookup [j Hj]%list_elem_of_lookup Eh.
  destruct (lt_eq_lt_dec i j) as [[Hlt|<-]|Hlt]; [|congruence|].
  - pose proof (Hd i j _ _ Hlt Hi Hj) as H. rewrite Eh in H. destruct (hrs e2) as [[? ?] ?]. unfold hrs_lt in H. lia.
  - pose proof (Hd j i _ _ Hlt Hj Hi) as H. rewrite Eh in H. destruct (hrs e2) as [[? ?] ?]. unfold hrs_lt in H. lia.
Qed.

(** Signing a vote gives a signature that verifies, and signing it again is
    idempotent.  A vote of a valid type for a later step than the last one is
    signed when the key signs; the signature verifies under the signer's public
    key over the vote's signing bytes; and the same vote presented again, at any
    time, gets the same signature and leaves the state unchanged. *)
Theorem SignVote_verifies chainID (pv : privValidator.t) now now' v sb sig :
  IsVoteTypeValid (Vote.Type_ v) = true ->
  privValidator.LastHeight pv < Vote.Height v ->
  VoteSignBytes chainID v = Ret sb -> PrivKeySign (privValidator.PrivKey pv) sb = Some sig ->
  exists pv', privValidator.SignVote pv now chainID v = Ret (None, Vote.set_Signature v sig, pv') /\
    VerifyBytes (privValidator.GetPubKey pv) sb sig = true /\
    privValidator.SignVote pv' now' chainID v = Ret (None, Vote.set_Signature v sig, pv').
Proof.
  intros Ht Hh Hsb Hsig. unfold privValidator.SignVote, privValidator.signVote.
  assert (exists step, privValidator.voteToStep v = Ret step) as [step Hstep].
  { unfold privValidator.voteToStep, IsVoteTypeValid in *. destruct (Vote.Type_ v =? VoteTypePrevote); [eauto|].
    destruct (Vote.Type_ v =? VoteTypePrecommit); [eauto|done]. }
  rewrite Hstep. cbn [obind]. rewrite Hsb. cbn [obind].
  assert (privValidator.checkHRS pv (Vote.Height v) (i64 (Vote.Round v)) step = Ret (inr false)) as ->.
  { unfold privValidator.checkHRS. bdestr; (lia || done). }
  cbn [obind]. rewrite Hsig. cbn [obind]. eexists. split; [done|]. split; [by apply verify_own_sig|].
  assert (forall p, privValidator.checkHRS (privValidator.saveSigned p (Vote.Height v) (i64 (Vote.Round v)) step sb sig)
    (Vote.Height v) (i64 (Vote.Round v)) step = Ret (inr true)) as Hc.
  { intros p. unfold privValidator.checkHRS. cbn. rewrite i64_u64, (i64_id (i64 _)) by apply i64_range. bdestr; (lia || done). }
  rewrite Hc. cbn [obind privValidator.saveSigned privValidator.LastSignBytes privValidator.LastSignature privValidator.orNil].
  by rewrite (proj2 (bytes_equal_true sb sb) eq_refl).
Qed.

(** A conflicting request stops the node.  When a vote is presented for the
    step signed last with other signing bytes, and the stored bytes are not the
    JSON text of a vote, [SignVote] panics; it does not return the
    error [conflicting data].  The stored bytes are a Keccak hash, so they are a
    JSON text only by accident. *)
Theorem conflicting_vote_panics chainID (pv : privValidator.t) now v step m sg sb :
  privValidator.voteToStep v = Ret step ->
  privValidator.LastHeight pv = Vote.Height v -> i64 (privValidator.LastRound pv) = i64 (Vote.Round v) ->
  privValidator.LastStep pv = step ->
  privValidator.LastSignBytes pv = Some m -> privValidator.LastSignature pv = Some sg ->
  VoteSignBytes chainID v = Ret sb -> sb <> m -> unmarshalVote m = None ->
  privValidator.SignVote pv now chainID v = Panic "LastSignBytes cannot be unmarshalled into vote".
Proof.
  intros Hstep Hh Hr Hs Hm Hg Hsb Hne Hu. unfold privValidator.SignVote, privValidator.signVote.
  rewrite Hstep. cbn [obind]. rewrite Hsb. cbn [obind].
  assert (privValidator.checkHRS pv (Vote.Height v) (i64 (Vote.Round v)) step = Ret (inr true)) as ->.
  { unfold privValidator.checkHRS. rewrite Hm, Hg, Hh, Hr, Hs. by rewrite !Z.ltb_irrefl, !Z.eqb_refl. }
  cbn [obind]. rewrite Hm. cbn [privValidator.orNil]. rewrite (proj2 (bytes_equal_false sb m) Hne).
  unfold privValidator.checkVotesOnlyDifferByTimestamp. by rewrite Hu.
Qed.
End Properties.

(** ** Witnesses *)

Definition demoPv : privValidator.t := privValidator.NewPrivValidator (L := demoLib) Byte.x07.

Definition demoBallot (x : byte) : Vote.t :=
  Vote.mk [Byte.x07] 0 5 1 VoteAgree 0 VoteTypePrevote (BlockID.mk [x] (PartSetHeader.mk 1 [x])) [] [].

Definition signBytesOf (v : Vote.t) : bytes :=
  match VoteSignBytes (L := demoLib) "chain" v with Ret sb => sb | Panic _ => [] end.

Definition demoSigned : privValidator.t :=
  privValidator.saveSigned demoPv 5 1 stepPrevote (signBytesOf (demoBallot Byte.xaa))
    (Byte.x07 :: signBytesOf (demoBallot Byte.xaa)).

(** A run that signs a vote and refuses an earlier one. *)
Lemma no_double_sign_witness : exists log reps pv,
  run "chain" Byte.x07 log reps pv /\ length log = 1%nat /\ length reps = 1%nat /\
  forall e1 e2, e1 ∈ log -> e2 ∈ log -> hrs e1 = hrs e2 -> e1 = e2.
Proof.
  assert (run "chain" Byte.x07
    [signed.mk 5 1 stepPrevote (signBytesOf (demoBallot Byte.xaa)) (Byte.x07 :: signBytesOf (demoBallot Byte.xaa))]
    [((5, 1, stepPrevote), Byte.x07 :: signBytesOf (demoBallot Byte.xaa))] demoSigned) as Hrun.
  { exact (run_served (L := demoLib) "chain" Byte.x07 [] [] demoPv 0 (ReqVote (demoBallot Byte.xaa)) _ demoSigned
      (run_start "chain" Byte.x07) eq_refl). }
  eexists _, _, _. split; [exact Hrun|]. split; [reflexivity|]. split; [reflexivity|].
  exact (proj2 (proj2 (proj2 (no_double_sign _ _ _ _ _ Hrun)))).
Defined.

Lemma SignVote_verifies_witness : exists pv',
  privValidator.SignVote demoPv 0 "chain" (demoBallot Byte.xaa)
    = Ret (None, Vote.set_Signature (demoBallot Byte.xaa) (Byte.x07 :: signBytesOf (demoBallot Byte.xaa)), pv').
Proof.
  destruct (SignVote_verifies "chain" demoPv 0 9 (demoBallot Byte.xaa) (signBytesOf (demoBallot Byte.xaa))
    (Byte.x07 :: signBytesOf (demoBallot Byte.xaa)) eq_refl eq_refl eq_refl eq_refl) as (pv' & E & _).
  exists pv'. exact E.
Defined.

Lemma conflicting_vote_panics_witness :
  privValidator.SignVote demoSigned 0 "chain" (demoBallot Byte.xbb)
    = Panic "LastSignBytes cannot be unmarshalled into vote".
Proof.
  apply (conflicting_vote_panics "chain" demoSigned 0 (demoBallot Byte.xbb) stepPrevote
    (signBytesOf (demoBallot Byte.xaa)) (Byte.x07 :: signBytesOf (demoBallot Byte.xaa)) (signBytesOf (demoBallot Byte.xbb)));
    try reflexivity; discriminate.
Defined.
