(* ===== verification/PartSet.v ===== *)
(** * Block parts and their Merkle proofs

    Models [consensus/tbft/help/simple_proof.go] and
    [consensus/tbft/types/part_set.go]: a block's bytes are cut into parts, each
    with the proof that it is a leaf of a Merkle tree, and a receiver collects
    them in a [PartSet] made from the header.  A nil hash is [None]. *)

From S2P Require Import Prelude BitArray Types.

(** ** Merkle proofs *)

Module SimpleProof.
Record t := mk {
  Total : Z;
  Index : Z;
  LeafHash : bytes;
  Aunts : list bytes
}.
#[global] Instance eq_dec : EqDecision t.
Proof. solve_decision. Defined.

Section Ops.
Context {L : Lib}.

Definition simpleHashFromTwoHashes (left right : bytes) : bytes :=
  RlpHash (RList [RBytes left; RBytes right]).

(** [innerHashes] is read from its end; the fuel is the number of calls, one per
    inner hash and one for the leaf. *)
Fixpoint computeHashFromAunts (fuel : nat) (index total : Z) (leafHash : bytes) (innerHashes : list bytes)
    : option bytes :=
  match fuel with
  | O => None
  | S fuel' =>
      if (total <=? index) || (index <? 0) || (total <=? 0) then None
      else if total =? 1 then
        match innerHashes with [] => Some leafHash | _ :: _ => None end
      else match last innerHashes with
           | None => None
           | Some aunt =>
               let inner := removelast innerHashes in
               let numLeft := Z.quot (i64 (total + 1)) 2 in
               if index <? numLeft then
                 match computeHashFromAunts fuel' index numLeft leafHash inner with
                 | None => None
                 | Some leftHash => Some (simpleHashFromTwoHashes leftHash aunt)
                 end
               else
                 match computeHashFromAunts fuel' (i64 (index - numLeft)) (i64 (total - numLeft)) leafHash inner with
                 | None => None
                 | Some rightHash => Some (simpleHashFromTwoHashes aunt rightHash)
                 end
           end
  end.

Definition ComputeRootHash (sp : t) : option bytes :=
  computeHashFromAunts (S (length (Aunts sp))) (Index sp) (Total sp) (LeafHash sp) (Aunts sp).

(** [None] is a nil error; a nil hash equals an empty one. *)
Definition Verify (sp : t) (rootHash leafHash : bytes) : option string :=
  if Total sp <? 0 then Some "proof total must be positive"
  else if Index sp <? 0 then Some "proof index cannot be negative"
  else if negb (bytes_equal (LeafHash sp) leafHash) then Some "invalid leaf hash"
  else if negb (bytes_equal (default [] (ComputeRootHash sp)) rootHash) then Some "invalid root hash"
  else None.

(** [trailsFromByteSlices] with [FlattenAunts]: a trail is the hash of a leaf and
    the hashes of the siblings on the way up, which linking two roots extends by
    the root of the other side; the root of no items is nil. *)
Definition trail : Type := bytes * list bytes.
Definition link (sibling : bytes) (tr : trail) : trail := (tr.1, tr.2 ++ [sibling]).

Fixpoint trailsFromByteSlices (fuel : nat) (items : list bytes) : list trail * option bytes :=
  match fuel with
  | O => ([], None)
  | S fuel' =>
      match items with
      | [] => ([], None)
      | [x] => let hash := RlpHash (RBytes x) in ([(hash, [])], Some hash)
      | _ =>
          let k := ((length items + 1) / 2)%nat in
          match trailsFromByteSlices fuel' (take k items), trailsFromByteSlices fuel' (drop k items) with
          | (lefts, Some leftRoot), (rights, Some rightRoot) =>
              ((link rightRoot <$> lefts) ++ (link leftRoot <$> rights),
               Some (simpleHashFromTwoHashes leftRoot rightRoot))
          | (lefts, _), (rights, _) => (lefts ++ rights, None)
          end
      end
  end.

Definition proofOf (n : nat) (i : nat) (tr : trail) : t := mk (Z.of_nat n) (Z.of_nat i) tr.1 tr.2.

(** [rootSPN.Hash] of a nil root panics. *)
Definition SimpleProofsFromByteSlices (items : list bytes) : outcome (bytes * list t) :=
  let (trails, root) := trailsFromByteSlices (length items) items in
  match root with
  | None => Panic "nil pointer dereference"
  | Some rootHash => Ret (rootHash, imap (proofOf (length items)) trails)
  end.

End Ops.
End SimpleProof.

(** ** Part sets *)

Module Part.
Record t := mk { Index : Z; Bytes : bytes; Proof : SimpleProof.t }.
#[global] Instance eq_dec : EqDecision t.
Proof. solve_decision. Defined.

Definition Hash {L : Lib} (p : t) : bytes := RlpHash (RBytes (Bytes p)).
End Part.

Inductive part_error := ErrPartSetUnexpectedIndex | ErrPartSetInvalidProof.

Module PartSet.
Record t := mk {
  total : Z;
  hash : bytes;
  parts : list (option Part.t);
  partsBitArray : option BitArray.t;
  count : Z
}.

Section Ops.
Context {L : Lib}.

(** [data[lo:hi]]. *)
Definition slice_range (data : bytes) (lo hi : Z) : outcome bytes :=
  if (0 <=? lo) && (lo <=? hi) && (hi <=? zlen data)
  then Ret (take (Z.to_nat (hi - lo)) (drop (Z.to_nat lo) data))
  else Panic "slice bounds out of range".

Definition numParts (data : bytes) (partSize : Z) : Z :=
  Z.quot (i64 (zlen data + partSize - 1)) partSize.

(** One turn of the loop that cuts the data. *)
Definition cutPart (data : bytes) (partSize : Z) (i : Z) (st : list bytes * option BitArray.t)
    : outcome (list bytes * option BitArray.t) :=
  let (acc, ba) := st in
  let! b := slice_range data (i64 (i * partSize)) (Z.min (zlen data) (i64 ((i + 1) * partSize))) in
  let! (_, ba') := BitArray.SetIndex ba (u64 i) true in
  Ret (acc ++ [b], ba').

Definition makePart (i : nat) (x : bytes * SimpleProof.t) : option Part.t :=
  Some (Part.mk (Z.of_nat i) x.1 x.2).

Definition NewPartSetFromData (data : bytes) (partSize : Z) : outcome t :=
  if i64 partSize =? 0 then Panic "integer divide by zero"
  else
    let n := numParts data (i64 partSize) in
    if n <? 0 then Panic "makeslice: len out of range"
    else
      let! (partsBytes, ba) := for_loop 0 n (cutPart data (i64 partSize)) ([], BitArray.NewBitArray (u64 n)) in
      let! (root, proofs) := SimpleProof.SimpleProofsFromByteSlices partsBytes in
      Ret (mk (u64 n) root (imap makePart (zip partsBytes proofs)) ba (u64 n)).

(** [make] refuses a length that is not an [int]. *)
Definition NewPartSetFromHeader (header : PartSetHeader.t) : outcome t :=
  if two63 <=? PartSetHeader.Total header then Panic "makeslice: len out of range"
  else
    Ret (mk (PartSetHeader.Total header) (PartSetHeader.Hash header)
            (replicate (Z.to_nat (PartSetHeader.Total header)) None)
            (BitArray.NewBitArray (PartSetHeader.Total header)) 0).

Definition Header (ps : option t) : PartSetHeader.t :=
  match ps with None => PartSetHeader.empty | Some ps => PartSetHeader.mk (total ps) (hash ps) end.

Definition HasHeader (ps : option t) (header : PartSetHeader.t) : bool :=
  match ps with None => false | Some _ => PartSetHeader.Equals (Header ps) header end.

Definition BitArray_ (ps : t) : option BitArray.t := BitArray.Copy (partsBitArray ps).

Definition Hash (ps : option t) : bytes := match ps with None => [] | Some ps => hash ps end.

Definition HashesTo (ps : option t) (h : bytes) : bool :=
  match ps with None => false | Some ps => bytes_equal (hash ps) h end.

Definition Count (ps : option t) : Z := match ps with None => 0 | Some ps => count ps end.
Definition Total (ps : option t) : Z := match ps with None => 0 | Some ps => total ps end.

(** [(added, err)] and the new set. *)
Definition AddPart (ps : t) (part : Part.t) : outcome (bool * option part_error * t) :=
  if total ps <=? Part.Index part then Ret (false, Some ErrPartSetUnexpectedIndex, ps)
  else
    let! existing := slice_get (parts ps) (Part.Index part) in
    match existing with
    | Some _ => Ret (false, None, ps)
    | None =>
        match SimpleProof.Verify (Part.Proof part) (hash ps) (Part.Hash part) with
        | Some _ => Ret (false, Some ErrPartSetInvalidProof, ps)
        | None =>
            let! parts' := slice_set (parts ps) (Part.Index part) (Some part) in
            let! (_, ba) := BitArray.SetIndex (partsBitArray ps) (Part.Index part) true in
            Ret (true, None, mk (total ps) (hash ps) parts' ba (u64 (count ps + 1)))
        end
    end.

Definition GetPart (ps : t) (index : Z) : outcome (option Part.t) := slice_get (parts ps) index.

Definition IsComplete (ps : t) : bool := count ps =? total ps.

(** ** The reader over the parts: its position and what is left of the part. *)
Record reader := mkReader { ri : Z; rparts : list (option Part.t); rest : bytes }.

Definition partBytes (l : list (option Part.t)) (i : Z) : outcome bytes :=
  let! p := slice_get l i in
  match p with Some p => Ret (Part.Bytes p) | None => Panic "nil pointer dereference" end.

Definition NewPartSetReader (l : list (option Part.t)) : outcome reader :=
  let! b := partBytes l 0 in Ret (mkReader 0 l b).

Definition GetReader (ps : t) : outcome reader :=
  if negb (IsComplete ps) then Panic "Cannot GetReader() on incomplete PartSet"
  else NewPartSetReader (parts ps).

(** [bytes.Reader.Read]: at the end it gives EOF, whatever is asked for. *)
Definition bytesRead (r : reader) (n : nat) : bytes * bool * reader :=
  match rest r with
  | [] => ([], true, r)
  | b => (take n b, false, mkReader (ri r) (rparts r) (drop n b))
  end.

(** [Read(p)] with [len(p) = n]: the bytes, whether EOF, and the reader.  Each
    call moves to the next part or splits the buffer once; two calls per part and
    one more are enough. *)
Fixpoint Read (fuel : nat) (r : reader) (n : nat) : outcome (bytes * bool * reader) :=
  match fuel with
  | O => Panic "out of fuel"
  | S fuel' =>
      let readerLen := length (rest r) in
      if (n <=? readerLen)%nat then Ret (bytesRead r n)
      else if (0 <? readerLen)%nat then
        let! (r1, rd) := Read fuel' r readerLen in
        let (b1, eof1) := r1 in
        if eof1 : bool then Ret (b1, true, rd)
        else
          let! (r2, rd2) := Read fuel' rd (n - readerLen)%nat in
          let (b2, eof2) := r2 in
          Ret (b1 ++ b2, eof2, rd2)
      else if zlen (rparts r) <=? ri r + 1 then Ret ([], true, mkReader (ri r + 1) (rparts r) (rest r))
      else
        let! b := partBytes (rparts r) (ri r + 1) in
        Read fuel' (mkReader (ri r + 1) (rparts r) b) n
  end.

End Ops.
End PartSet.

(** ** The tree and its proofs *)

Section Merkle.
Context {L : Lib}.
Implicit Types (items : list bytes).

Lemma half_bounds n : (2 <= n)%nat -> (1 <= (n + 1) / 2 < n)%nat.
Proof.
  intros H. pose proof (Nat.div_mod_eq (n + 1) 2). pose proof (Nat.mod_upper_bound (n + 1) 2 ltac:(lia)). lia.
Qed.

Lemma half_Z n : Z.of_nat n < max_i64 -> Z.quot (i64 (Z.of_nat n + 1)) 2 = Z.of_nat ((n + 1) / 2).
Proof.
  intros H. rewrite i64_id by (unfold in_i64, min_i64, max_i64 in *; lia).
  rewrite Z.quot_div_nonneg by lia. rewrite Nat2Z.inj_div. f_equal. lia.
Qed.

(** Two or more items split at [k] into two non-empty halves. *)
Lemma split_items items (k := ((length items + 1) / 2)%nat) : (2 <= length items)%nat ->
  take k items <> [] /\ drop k items <> [] /\
  length (take k items) = k /\ length (drop k items) = (length items - k)%nat.
Proof.
  intros H. pose proof (half_bounds (length items) H). fold k in H0.
  assert (length (take k items) = k) as Hl by (rewrite length_take; lia).
  assert (length (drop k items) = (length items - k)%nat) as Hr by (rewrite length_drop; lia).
  split_and!; [intros E; rewrite E in Hl; simpl in Hl; lia|intros E; rewrite E in Hr; simpl in Hr; lia|done|done].
Qed.

Lemma trails_unfold fuel items : (2 <= length items)%nat ->
  SimpleProof.trailsFromByteSlices (S fuel) items =
  let k := ((length items + 1) / 2)%nat in
  match SimpleProof.trailsFromByteSlices fuel (take k items), SimpleProof.trailsFromByteSlices fuel (drop k items) with
  | (lefts, Some leftRoot), (rights, Some rightRoot) =>
      ((SimpleProof.link rightRoot <$> lefts) ++ (SimpleProof.link leftRoot <$> rights),
       Some (SimpleProof.simpleHashFromTwoHashes leftRoot rightRoot))
  | (lefts, _), (rights, _) => (lefts ++ rights, None)
  end.
Proof. intros H. destruct items as [|x [|y items]]; simpl in H; try lia. done. Qed.

(** One step of the verification from the top of the aunts. *)
Lemma compute_snoc fuel index total leaf aunts a : 2 <= total -> 0 <= index < total ->
  SimpleProof.computeHashFromAunts (S fuel) index total leaf (aunts ++ [a]) =
  let numLeft := Z.quot (i64 (total + 1)) 2 in
  if index <? numLeft
  then (fun l => SimpleProof.simpleHashFromTwoHashes l a) <$> SimpleProof.computeHashFromAunts fuel index numLeft leaf aunts
  else (fun r => SimpleProof.simpleHashFromTwoHashes a r) <$>
         SimpleProof.computeHashFromAunts fuel (i64 (index - numLeft)) (i64 (total - numLeft)) leaf aunts.
Proof.
  intros Ht Hi. cbn [SimpleProof.computeHashFromAunts].
  rewrite (proj2 (Z.leb_gt total index)), (proj2 (Z.ltb_ge index 0)), (proj2 (Z.leb_gt total 0)) by lia. cbn [orb].
  rewrite (proj2 (Z.eqb_neq total 1)) by lia. rewrite last_snoc, removelast_last. cbv zeta.
  destruct (index <? _).
  - by destruct (SimpleProof.computeHashFromAunts fuel index _ leaf aunts).
  - by destruct (SimpleProof.computeHashFromAunts fuel (i64 (index - _)) _ leaf aunts).
Qed.

(** Every leaf's trail leads to the root. *)
Lemma trails_spec fuel items : items <> [] -> zlen items < max_i64 -> (length items <= fuel)%nat -> exists ts h,
  SimpleProof.trailsFromByteSlices fuel items = (ts, Some h) /\ length ts = length items /\
  forall i x, items !! i = Some x -> exists aunts,
    ts !! i = Some (RlpHash (RBytes x), aunts) /\
    forall fuel', (length aunts < fuel')%nat ->
      SimpleProof.computeHashFromAunts fuel' (Z.of_nat i) (Z.of_nat (length items)) (RlpHash (RBytes x)) aunts = Some h.
Proof.
  revert items. induction fuel as [|fuel IH]; intros items Hne Hm Hf.
  { destruct items; [done|simpl in Hf; lia]. }
  destruct (decide (length items = 1)%nat) as [H1|H1].
  { destruct items as [|x [|y l]]; simpl in H1; try lia. eexists _, _. split; [done|]. split; [done|].
    intros i y Hy. apply list_lookup_singleton_Some in Hy as [-> <-]. eexists. split; [done|].
    intros [|fuel'] Hfu; [lia|]. done. }
  assert (2 <= length items)%nat as H2 by (destruct items; [done|simpl in *; lia]).
  rewrite trails_unfold by done. cbv zeta. set (k := ((length items + 1) / 2)%nat).
  destruct (split_items items H2) as (Hl & Hr & Ll & Lr). fold k in Hl, Hr, Ll, Lr.
  pose proof (half_bounds (length items) H2) as Hk. fold k in Hk.
  destruct (IH (take k items) Hl) as (tl & hl & -> & Tl & Pl); [unfold zlen in *; lia|lia|].
  destruct (IH (drop k items) Hr) as (tr & hr & -> & Tr & Pr); [unfold zlen in *; lia|lia|].
  eexists _, _. split; [done|]. split; [rewrite length_app, !length_fmap; lia|].
  intros i x Hx. apply lookup_lt_Some in Hx as Hi. destruct (decide (i < k)%nat) as [Hik|Hik].
  - destruct (Pl i x) as (aunts & Ha & Hc); [by rewrite lookup_take_lt|]. exists (aunts ++ [hr]). split.
    + rewrite lookup_app_l by (rewrite length_fmap; lia). rewrite list_lookup_fmap. by setoid_rewrite Ha.
    + intros [|fuel'] Hfu; rewrite length_app in Hfu; simpl in Hfu; [lia|].
      rewrite compute_snoc by lia. cbv zeta. rewrite half_Z by (unfold zlen in Hm; lia). fold k. rewrite (proj2 (Z.ltb_lt _ _)) by lia.
      rewrite Ll in Hc. by rewrite Hc by lia.
  - destruct (Pr (i - k)%nat x) as (aunts & Ha & Hc); [rewrite lookup_drop; by replace (k + (i - k))%nat with i by lia|].
    exists (aunts ++ [hl]). split.
    + rewrite lookup_app_r by (rewrite length_fmap; lia). rewrite length_fmap, Tl, Ll, list_lookup_fmap. by setoid_rewrite Ha.
    + intros [|fuel'] Hfu; rewrite length_app in Hfu; simpl in Hfu; [lia|].
      rewrite compute_snoc by lia. cbv zeta. rewrite half_Z by (unfold zlen in Hm; lia). fold k. rewrite (proj2 (Z.ltb_ge _ _)) by lia.
      rewrite Lr in Hc. rewrite !i64_id by (unfold zlen, in_i64, min_i64, max_i64 in *; lia).
      rewrite <- !Nat2Z.inj_sub by lia. by rewrite Hc by lia.
Qed.

(** ** Soundness: what is hashed by the tree and by a verification *)

Definition rootOf (fuel : nat) items : bytes := default [] (SimpleProof.trailsFromByteSlices fuel items).2.

Fixpoint treeInputs (fuel : nat) items : list rlp_item :=
  match fuel with
  | O => []
  | S fuel' =>
      match items with
      | [] => []
      | [x] => [RBytes x]
      | _ =>
          let k := ((length items + 1) / 2)%nat in
          RList [RBytes (rootOf fuel' (take k items)); RBytes (rootOf fuel' (drop k items))]
            :: treeInputs fuel' (take k items) ++ treeInputs fuel' (drop k items)
      end
  end.

(** The pairs hashed on the way from the leaf to the root. *)
Fixpoint proofInputs (fuel : nat) (index total : Z) (leaf : bytes) (aunts : list bytes) : list rlp_item :=
  match fuel with
  | O => []
  | S fuel' =>
      match last aunts with
      | None => []
      | Some aunt =>
          let inner := removelast aunts in
          let numLeft := Z.quot (i64 (total + 1)) 2 in
          if index <? numLeft then
            match SimpleProof.computeHashFromAunts fuel' index numLeft leaf inner with
            | None => []
            | Some l => RList [RBytes l; RBytes aunt] :: proofInputs fuel' index numLeft leaf inner
            end
          else
            match SimpleProof.computeHashFromAunts fuel' (i64 (index - numLeft)) (i64 (total - numLeft)) leaf inner with
            | None => []
            | Some r => RList [RBytes aunt; RBytes r] :: proofInputs fuel' (i64 (index - numLeft)) (i64 (total - numLeft)) leaf inner
            end
      end
  end.

(** Two different inputs with one hash, the first hashed by the verification and
    the second by the tree. *)
Definition collision (checked hashed : list rlp_item) : Prop :=
  exists x y, x ∈ checked /\ y ∈ hashed /\ x <> y /\ RlpHash x = RlpHash y.

Lemma collision_mono c h c' h' : c ⊆ c' -> h ⊆ h' -> collision c h -> collision c' h'.
Proof. intros Hc Hh (x & y & Hx & Hy & Hne & E). exists x, y. auto. Qed.

Lemma compute_cases fuel index total leaf aunts h :
  SimpleProof.computeHashFromAunts fuel index total leaf aunts = Some h -> 0 <= index < total /\
  ((total = 1 /\ aunts = [] /\ h = leaf) \/
   exists fuel' aunts' a, 2 <= total /\ fuel = S fuel' /\ aunts = aunts' ++ [a]).
Proof.
  destruct fuel as [|fuel]; [done|]. intros H. cbn [SimpleProof.computeHashFromAunts] in H.
  destruct (Z.leb_spec total index); [done|]. destruct (Z.ltb_spec index 0); [done|].
  destruct (Z.leb_spec total 0); [done|]. cbn [orb] in H. split; [lia|].
  destruct (Z.eqb_spec total 1) as [->|]; [left; destruct aunts; [by injection H as <-|done]|right].
  destruct (last aunts) as [a|] eqn:El; [|done]. apply last_Some in El as [aunts' ->].
  exists fuel, aunts', a. split_and!; (lia || done).
Qed.

Lemma rootOf_eq fuel items ts h : SimpleProof.trailsFromByteSlices fuel items = (ts, Some h) -> rootOf fuel items = h.
Proof. unfold rootOf. by intros ->. Qed.

Lemma treeInputs_unfold fuel items (k := ((length items + 1) / 2)%nat) : (2 <= length items)%nat ->
  treeInputs (S fuel) items =
  RList [RBytes (rootOf fuel (take k items)); RBytes (rootOf fuel (drop k items))]
    :: treeInputs fuel (take k items) ++ treeInputs fuel (drop k items).
Proof. intros H. destruct items as [|x [|y items]]; simpl in H; try lia. done. Qed.

Lemma rootOf_unfold fuel items (k := ((length items + 1) / 2)%nat) : (2 <= length items)%nat ->
  (length items <= S fuel)%nat -> zlen items < max_i64 ->
  rootOf (S fuel) items =
  RlpHash (RList [RBytes (rootOf fuel (take k items)); RBytes (rootOf fuel (drop k items))]).
Proof.
  intros H2 Hf Hm. destruct (split_items items H2) as (Hl & Hr & Ll & Lr). fold k in Hl, Hr, Ll, Lr.
  pose proof (half_bounds (length items) H2) as Hk. fold k in Hk.
  destruct (trails_spec fuel (take k items) Hl) as (tl & hl & El & _); [unfold zlen in *; lia|lia|].
  destruct (trails_spec fuel (drop k items) Hr) as (tr & hr & Er & _); [unfold zlen in *; lia|lia|].
  unfold rootOf at 1. rewrite trails_unfold by done. cbv zeta. fold k. rewrite El, Er.
  by rewrite (rootOf_eq _ _ _ _ El), (rootOf_eq _ _ _ _ Er).
Qed.

Lemma proofInputs_snoc fuel index total leaf aunts a : 
  proofInputs (S fuel) index total leaf (aunts ++ [a]) =
  let numLeft := Z.quot (i64 (total + 1)) 2 in
  if index <? numLeft
  then match SimpleProof.computeHashFromAunts fuel index numLeft leaf aunts with
       | None => []
       | Some l => RList [RBytes l; RBytes a] :: proofInputs fuel index numLeft leaf aunts
       end
  else match SimpleProof.computeHashFromAunts fuel (i64 (index - numLeft)) (i64 (total - numLeft)) leaf aunts with
       | None => []
       | Some r => RList [RBytes a; RBytes r] :: proofInputs fuel (i64 (index - numLeft)) (i64 (total - numLeft)) leaf aunts
       end.
Proof. cbn [proofInputs]. by rewrite last_snoc, removelast_last. Qed.

(** A verification that ends in a hash did so by hashing a pair whose one side
    is the result for a smaller tree. *)
Lemma compute_pair fuel index total leaf aunts h : 2 <= total ->
  SimpleProof.computeHashFromAunts fuel index total leaf aunts = Some h ->
  let numLeft := Z.quot (i64 (total + 1)) 2 in
  exists fuel' aunts' a c, h = RlpHash (RList (if index <? numLeft then [RBytes c; RBytes a] else [RBytes a; RBytes c])) /\
    let i := if index <? numLeft then index else i64 (index - numLeft) in
    let n := if index <? numLeft then numLeft else i64 (total - numLeft) in
    SimpleProof.computeHashFromAunts fuel' i n leaf aunts' = Some c /\
    proofInputs fuel index total leaf aunts =
      RList (if index <? numLeft then [RBytes c; RBytes a] else [RBytes a; RBytes c]) :: proofInputs fuel' i n leaf aunts'.
Proof.
  intros Ht H. destruct (compute_cases _ _ _ _ _ _ H) as (Hi & [(? & _)|(fuel' & aunts' & a & _ & -> & ->)]); [lia|].
  rewrite compute_snoc in H by lia. rewrite proofInputs_snoc. cbv zeta in H |- *. exists fuel', aunts', a.
  destruct (index <? _).
  - destruct (SimpleProof.computeHashFromAunts fuel' index _ leaf aunts') as [c|]; [|done]. injection H as <-. by exists c.
  - destruct (SimpleProof.computeHashFromAunts fuel' (i64 (index - _)) _ leaf aunts') as [c|]; [|done].
    injection H as <-. by exists c.
Qed.

Lemma pair_dec x y x' y' :
  RlpHash (RList [RBytes x; RBytes y]) = RlpHash (RList [RBytes x'; RBytes y']) ->
  (x = x' /\ y = y') \/ RList [RBytes x; RBytes y] <> RList [RBytes x'; RBytes y'].
Proof. intros _. destruct (decide (x = x')), (decide (y = y')); [by left| | |]; right; congruence. Qed.

(** A proof that verifies against the root of a tree is about one of its leaves,
    the one at its index when it has the tree's size, or exhibits a collision. *)
Lemma verified_leaf fuel items index total b aunts fuel' :
  items <> [] -> (length items <= fuel)%nat -> zlen items < max_i64 ->
  SimpleProof.computeHashFromAunts fuel' index total (RlpHash (RBytes b)) aunts = Some (rootOf fuel items) ->
  (exists i, items !! i = Some b /\ (total = zlen items -> index = Z.of_nat i)) \/
  collision (RBytes b :: proofInputs fuel' index total (RlpHash (RBytes b)) aunts) (treeInputs fuel items).
Proof.
  revert items index total aunts fuel'. induction fuel as [|fuel IH]; intros items index total aunts fuel' Hne Hf Hm Hc.
  { destruct items; [done|simpl in Hf; lia]. }
  destruct (compute_cases _ _ _ _ _ _ Hc) as (Hi & Hcase).
  assert (total = 1 /\ rootOf (S fuel) items = RlpHash (RBytes b) \/ 2 <= total) as Ht by naive_solver lia. clear Hcase.
  destruct (decide (length items = 1)%nat) as [H1|H1].
  { destruct items as [|x [|y l]]; simpl in H1; try lia. destruct Ht as [[-> E]|Ht].
    - destruct (decide (b = x)) as [->|Hb]; [left; exists 0%nat; split; [done|lia]|right].
      exists (RBytes b), (RBytes x). split_and!; [set_solver|set_solver|congruence|done].
    - right. destruct (compute_pair _ _ _ _ _ _ Ht Hc) as (f & au & a & c & E & _ & ->).
      eexists _, (RBytes x). split_and!; [right; left|left|done|symmetry; exact E]. }
  assert (2 <= length items)%nat as H2 by (destruct items; [done|simpl in *; lia]).
  rewrite rootOf_unfold in * by done. rewrite treeInputs_unfold by done.
  set (k := ((length items + 1) / 2)%nat) in *.
  destruct (split_items items H2) as (Hl & Hr & Ll & Lr). fold k in Hl, Hr, Ll, Lr.
  pose proof (half_bounds (length items) H2) as Hk. fold k in Hk.
  destruct Ht as [[-> E]|Ht].
  { right. eexists (RBytes b), _. split_and!; [set_solver|left|done|by symmetry]. }
  assert (total = zlen items -> Z.quot (i64 (total + 1)) 2 = Z.of_nat k) as Hhalf.
  { intros ->. apply half_Z. unfold zlen in Hm. lia. }
  destruct (compute_pair _ _ _ _ _ _ Ht Hc) as (f & au & a & c & E & Hrec & Hin). cbv zeta in Hrec, Hin. rewrite Hin.
  destruct (Z.ltb_spec index (Z.quot (i64 (total + 1)) 2)) as [Hlt|Hge];
    (destruct (pair_dec _ _ _ _ (eq_sym E)) as [(-> & ->)|Nxy];
     [|right; eexists _, _; split_and!; [right; left|left|exact Nxy|by symmetry]]).
  - destruct (IH (take k items) _ _ _ _ Hl ltac:(lia) ltac:(unfold zlen in *; lia) Hrec) as [(i & Hib & Hix)|Hcol].
    + left. exists i. rewrite lookup_take_Some in Hib. split; [tauto|]. intros Etot. apply Hix.
      unfold zlen. rewrite Ll. by apply Hhalf.
    + right. eapply collision_mono; [| |exact Hcol]; set_solver.
  - destruct (IH (drop k items) _ _ _ _ Hr ltac:(lia) ltac:(unfold zlen in *; lia) Hrec) as [(i & Hib & Hix)|Hcol].
    + left. exists (k + i)%nat. rewrite lookup_drop in Hib. split; [done|]. intros Etot. specialize (Hhalf Etot).
      rewrite Hhalf in *. unfold zlen in *. subst total.
      rewrite !i64_id in Hix by (unfold in_i64, min_i64, max_i64 in *; lia). lia.
    + right. eapply collision_mono; [| |exact Hcol]; set_solver.
Qed.
End Merkle.

(** ** The invariant of a part set *)

(** Whether each slot is filled. *)
Definition filled (l : list (option Part.t)) : list bool := (fun p => bool_decide (is_Some p)) <$> l.

(** Built from [header]: as many slots as the header says, [count] of them filled,
    and the bit array says which. *)
Definition ps_wf (header : PartSetHeader.t) (ps : PartSet.t) : Prop :=
  PartSet.total ps = PartSetHeader.Total header /\ PartSet.hash ps = PartSetHeader.Hash header /\
  zlen (PartSet.parts ps) = PartSetHeader.Total header /\
  PartSet.count ps = zlen (omap id (PartSet.parts ps)) /\
  exists b, PartSet.partsBitArray ps = Some b /\ BitArray.wf b /\ BitArray.to_bits b = filled (PartSet.parts ps).

Section Collecting.
Context {L : Lib}.

Lemma omap_insert {A} (l : list (option A)) i x : l !! i = Some None ->
  length (omap id (<[i := Some x]> l)) = S (length (omap id l)).
Proof.
  revert i. induction l as [|[y|] l IH]; intros [|i] H; try discriminate; simpl in *; [by rewrite IH|done|by rewrite IH].
Qed.

Lemma omap_le {A} (l : list (option A)) : (length (omap id l) <= length l)%nat.
Proof. induction l as [|[y|] l IH]; [done|by apply le_n_S|by apply le_S]. Qed.

Lemma omap_full {A} (l : list (option A)) : length (omap id l) = length l <-> Forall is_Some l.
Proof.
  induction l as [|[y|] l IH]; [by split; constructor| |]; rewrite Forall_cons.
  - change (S (length (omap id l)) = S (length l) <-> is_Some (Some y) /\ Forall is_Some l). rewrite <- IH.
    split; [intros [=]; split; [by eexists|done]|intros [_ ->]; done].
  - split; [intros E; pose proof (omap_le l) as Hle|intros [[? ?] _]; done].
    change (length (omap id l) = S (length l)) in E. rewrite E in Hle. by apply Nat.nle_succ_diag_l in Hle.
Qed.

Lemma NewPartSetFromHeader_wf header : 0 < PartSetHeader.Total header < two63 ->
  exists ps, PartSet.NewPartSetFromHeader header = Ret ps /\ ps_wf header ps /\ PartSet.count ps = 0 /\
    Forall (eq None) (PartSet.parts ps).
Proof.
  intros Ht. unfold PartSet.NewPartSetFromHeader. rewrite (proj2 (Z.leb_gt _ _)) by lia. eexists. split; [done|].
  destruct (BitArray.NewBitArray_wf _ Ht) as (b & Eb & Hwf & HB & Hz).
  split_and!; [|done|by apply Forall_replicate]. repeat split; cbn [PartSet.parts PartSet.count PartSet.partsBitArray].
  - unfold zlen. rewrite length_replicate. lia.
  - by induction (Z.to_nat _); simpl.
  - exists b. split_and!; [done|done|]. apply BitArray.to_bits_ext; [lia| |].
    + unfold filled. rewrite length_fmap, length_replicate. lia.
    + intros i Hi. unfold filled. rewrite list_lookup_fmap, lookup_replicate_2 by lia. by rewrite Hz.
Qed.

(** What [AddPart] does to a well-formed set, on every branch. *)
Lemma AddPart_spec header ps part : ps_wf header ps -> PartSetHeader.Total header < two63 -> 0 <= Part.Index part ->
  exists r, PartSet.AddPart ps part = Ret r /\
  let slot := PartSet.parts ps !! Z.to_nat (Part.Index part) in
  let valid := SimpleProof.Verify (Part.Proof part) (PartSet.hash ps) (Part.Hash part) in
  match slot with
  | None => r = (false, Some ErrPartSetUnexpectedIndex, ps)
  | Some (Some _) => r = (false, None, ps)
  | Some None =>
      match valid with
      | Some _ => r = (false, Some ErrPartSetInvalidProof, ps)
      | None => exists ps', r = (true, None, ps') /\ ps_wf header ps' /\
          PartSet.parts ps' = <[Z.to_nat (Part.Index part) := Some part]> (PartSet.parts ps) /\
          PartSet.count ps' = PartSet.count ps + 1
      end
  end.
Proof.
  intros (Ht & Hh & Hl & Hc & b & Eb & Hwf & Hb) Hlt Hi. unfold PartSet.AddPart. rewrite Ht. cbv zeta.
  destruct (Z.leb_spec (PartSetHeader.Total header) (Part.Index part)).
  { eexists. split; [done|]. rewrite lookup_ge_None_2 by (unfold zlen in Hl; lia). done. }
  destruct (slice_get_in (PartSet.parts ps) (Part.Index part)) as (e & -> & He); [lia|]. rewrite He. cbn [obind].
  destruct e as [p|]; [by eexists|]. destruct (SimpleProof.Verify _ _ _); [by eexists|].
  rewrite slice_set_in by lia. cbn [obind]. rewrite Eb.
  assert (length (BitArray.to_bits b) = length (PartSet.parts ps)) as Hlen by (rewrite Hb; apply length_fmap).
  rewrite BitArray.length_to_bits in Hlen. pose proof Hwf as (HB & _).
  assert (BitArray.Bits b = PartSetHeader.Total header) as HBt by (unfold zlen in Hl; lia).
  destruct (BitArray.setIndex_spec b (Part.Index part) true Hwf) as (b' & E & Hwf' & HB' & _ & Hbit); [lia|].
  cbn [BitArray.SetIndex]. rewrite E. cbn [obind]. eexists. split; [done|]. eexists. split; [done|].
  assert (u64 (PartSet.count ps + 1) = PartSet.count ps + 1) as Hu.
  { apply u64_id. pose proof (omap_le (PartSet.parts ps)). rewrite Hc. unfold zlen, in_u64, two64, two63 in *. lia. }
  split_and!; [|done|done]. repeat split; cbn [PartSet.parts PartSet.count PartSet.partsBitArray PartSet.hash PartSet.total].
  - done.
  - unfold zlen in *. by rewrite length_insert.
  - rewrite Hu, Hc. unfold zlen. by rewrite (omap_insert _ _ part He), Nat2Z.inj_succ.
  - exists b'. split_and!; [done|done|]. apply BitArray.to_bits_ext; [lia| |].
    + unfold filled. rewrite length_fmap, length_insert. lia.
    + intros i Hir. rewrite Hbit by lia. unfold filled. rewrite list_fmap_insert. destruct (Z.eqb_spec (Part.Index part) i) as [<-|Hne].
      * rewrite list_lookup_insert_eq by (rewrite length_fmap; lia). done.
      * rewrite list_lookup_insert_ne by lia. fold (filled (PartSet.parts ps)). rewrite <- Hb, BitArray.to_bits_lookup, Z2Nat.id by lia.
        bdestr; (done || lia).
Qed.

(** ** Cutting the data *)

Definition chunks (data : bytes) (s n : nat) : list bytes := (fun i => take s (drop (i * s) data)) <$> seq 0 n.

Lemma length_chunks data s n : length (chunks data s n) = n.
Proof. unfold chunks. by rewrite length_fmap, length_seq. Qed.

Lemma chunks_S data s n : chunks data s (S n) = chunks data s n ++ [take s (drop (n * s) data)].
Proof. unfold chunks. by rewrite seq_S, fmap_app. Qed.

Lemma chunks_join data s n : mjoin (chunks data s n) = take (n * s) data.
Proof.
  induction n as [|n IH]; [done|]. rewrite chunks_S, join_app, IH. simpl. rewrite app_nil_r.
  replace (s + n * s)%nat with (n * s + s)%nat by lia. by rewrite take_take_drop.
Qed.

Lemma chunk_nonempty data s n i c : (0 < s)%nat -> (n * s < length data + s)%nat ->
  chunks data s n !! i = Some c -> c <> [].
Proof.
  intros Hs Hn H. unfold chunks in H. apply list_lookup_fmap_Some in H as (j & -> & Hj).
  apply lookup_seq in Hj as [-> Hj]. intros E. apply (f_equal length) in E. rewrite length_take, length_drop in E. simpl in E. nia.
Qed.

Lemma slice_range_chunk data s i : 0 < s -> 0 <= i -> i * s <= zlen data -> zlen data + s <= max_i64 ->
  PartSet.slice_range data (i64 (i * s)) (Z.min (zlen data) (i64 ((i + 1) * s))) =
  Ret (take (Z.to_nat s) (drop (Z.to_nat i * Z.to_nat s) data)).
Proof.
  intros Hs Hi Hle Hmax. rewrite !i64_id by (unfold in_i64, min_i64, max_i64 in *; nia).
  unfold PartSet.slice_range. rewrite !(proj2 (Z.leb_le _ _)) by nia. cbn [andb]. f_equal.
  replace (Z.to_nat (i * s)) with (Z.to_nat i * Z.to_nat s)%nat by nia.
  destruct (Z.le_gt_cases ((i + 1) * s) (zlen data)).
  - rewrite Z.min_r by done. f_equal. lia.
  - rewrite Z.min_l by lia. unfold zlen in *. rewrite !take_ge; [done| |]; rewrite length_drop; nia.
Qed.

(** The loop cuts the data and sets every bit. *)
Lemma cut_loop data s n : 0 < s -> 0 < n -> (n - 1) * s < zlen data -> zlen data + s <= max_i64 ->
  exists b, for_loop 0 n (PartSet.cutPart data s) ([], BitArray.NewBitArray (u64 n))
    = Ret (chunks data (Z.to_nat s) (Z.to_nat n), Some b) /\
  BitArray.wf b /\ BitArray.Bits b = n /\ forall j, 0 <= j < n -> BitArray.bit b j = true.
Proof.
  intros Hs Hn Hlt Hmax.
  assert (n < two63) as Hn63 by (unfold max_i64, two63 in *; nia).
  assert (forall i, 0 <= i <= n -> u64 i = i) as Hu by (intros i Hi; apply u64_id; unfold in_u64, two64, two63 in *; lia).
  rewrite Hu by lia.
  destruct (BitArray.NewBitArray_wf n) as (b0 & -> & Hwf0 & HB0 & _); [lia|].
  destruct (for_loop_inv (fun i st => exists b, st = (chunks data (Z.to_nat s) (Z.to_nat i), Some b) /\
    BitArray.wf b /\ BitArray.Bits b = n /\ forall j, 0 <= j < i -> BitArray.bit b j = true)
    (PartSet.cutPart data s) 0 n ([], Some b0)) as (st & E & b & -> & Hb); [lia| | |by exists b].
  - exists b0. split_and!; [done|done|done|lia].
  - intros i st Hi (b & -> & Hwf & HB & Hbit). unfold PartSet.cutPart.
    rewrite slice_range_chunk by nia. cbn [obind]. rewrite Hu by lia.
    destruct (BitArray.setIndex_spec b i true Hwf) as (b' & E' & Hwf' & HB' & _ & Hbit'); [lia|].
    cbn [BitArray.SetIndex]. rewrite E'. cbn [obind]. eexists. split; [done|]. exists b'. split_and!; [|done|lia|].
    + rewrite Z2Nat.inj_add by lia. rewrite Nat.add_1_r. by rewrite chunks_S.
    + intros j Hj. rewrite Hbit' by lia. destruct (Z.eqb_spec i j); [done|]. apply Hbit. lia.
Qed.

(** A part in the set built from the data: the chunk at its index, with the
    proof of that leaf. *)
Definition part_of (items : list bytes) (root : bytes) (i : nat) (p : Part.t) : Prop :=
  Part.Index p = Z.of_nat i /\ items !! i = Some (Part.Bytes p) /\
  SimpleProof.Total (Part.Proof p) = zlen items /\ SimpleProof.Index (Part.Proof p) = Z.of_nat i /\
  SimpleProof.Verify (Part.Proof p) root (Part.Hash p) = None.

Definition built (data : bytes) (ps : PartSet.t) (items : list bytes) : Prop :=
  mjoin items = data /\ Forall (fun c => c <> []) items /\ 0 < zlen items < max_i64 /\
  PartSet.total ps = zlen items /\ PartSet.hash ps = rootOf (length items) items /\
  zlen (PartSet.parts ps) = zlen items /\
  forall i p, PartSet.parts ps !! i = Some p -> exists p', p = Some p' /\ part_of items (PartSet.hash ps) i p'.

Lemma bytes_equal_refl b : bytes_equal b b = true.
Proof. by apply bytes_equal_true. Qed.

(** The proofs made for a list of items verify. *)
Lemma proofs_verify items : items <> [] -> zlen items < max_i64 -> exists proofs,
  SimpleProof.SimpleProofsFromByteSlices items = Ret (rootOf (length items) items, proofs) /\
  length proofs = length items /\
  forall i c pr, items !! i = Some c -> proofs !! i = Some pr ->
    SimpleProof.Total pr = zlen items /\ SimpleProof.Index pr = Z.of_nat i /\
    SimpleProof.Verify pr (rootOf (length items) items) (RlpHash (RBytes c)) = None.
Proof.
  intros Hne Hm. destruct (trails_spec (length items) items Hne Hm) as (ts & h & E & Hl & Hspec); [done|].
  unfold SimpleProof.SimpleProofsFromByteSlices, rootOf. rewrite E. eexists. split; [done|].
  split; [by rewrite length_imap|]. intros i c pr Hc Hpr. rewrite list_lookup_imap in Hpr.
  destruct (Hspec i c Hc) as (aunts & Ht & Hcomp). setoid_rewrite Ht in Hpr. injection Hpr as <-.
  split_and!; [done|done|]. unfold SimpleProof.Verify, SimpleProof.ComputeRootHash, SimpleProof.proofOf.
  cbn [SimpleProof.Total SimpleProof.Index SimpleProof.LeafHash SimpleProof.Aunts fst snd].
  rewrite !(proj2 (Z.ltb_ge _ _)) by lia. rewrite bytes_equal_refl. cbn [negb].
  rewrite Hcomp by lia. cbn [default]. by rewrite bytes_equal_refl.
Qed.

(** The number of parts is the length over the part size, rounded up. *)
Lemma numParts_spec data s : 0 < s -> 0 < zlen data -> zlen data + s <= max_i64 ->
  let n := PartSet.numParts data s in 0 < n /\ (n - 1) * s < zlen data <= n * s /\ n < max_i64.
Proof.
  intros Hs Hd Hm. unfold PartSet.numParts. rewrite i64_id by (unfold in_i64, min_i64, max_i64 in *; lia).
  rewrite Z.quot_div_nonneg by lia. cbv zeta.
  pose proof (Z.div_mod (zlen data + s - 1) s ltac:(lia)). pose proof (Z.mod_pos_bound (zlen data + s - 1) s Hs). nia.
Qed.

Lemma NewPartSetFromData_spec data s : 0 < s -> 0 < zlen data -> zlen data + s <= max_i64 ->
  exists ps items, PartSet.NewPartSetFromData data s = Ret ps /\ built data ps items /\
    ps_wf (PartSet.Header (Some ps)) ps /\ PartSet.IsComplete ps = true.
Proof.
  intros Hs Hd Hm. destruct (numParts_spec data s Hs Hd Hm) as (Hn & Hlen & Hmax).
  set (n := PartSet.numParts data s) in *. set (items := chunks data (Z.to_nat s) (Z.to_nat n)).
  assert (length items = Z.to_nat n) as Hli by apply length_chunks.
  assert (items <> []) as Hne by (intros E; rewrite E in Hli; simpl in Hli; lia).
  destruct (cut_loop data s n Hs Hn) as (b & Ecut & Hwf & HB & Hbit); [lia|done|].
  destruct (proofs_verify items Hne) as (proofs & Ep & Hlp & Hv); [unfold zlen; lia|].
  assert (u64 n = n) as Hu by (apply u64_id; unfold in_u64, two64, max_i64 in *; lia).
  unfold PartSet.NewPartSetFromData. rewrite (i64_id s) by (unfold in_i64, min_i64, max_i64, zlen in *; lia).
  rewrite (proj2 (Z.eqb_neq s 0)) by lia. fold n. rewrite (proj2 (Z.ltb_ge n 0)) by lia. cbv zeta.
  rewrite Ecut. cbn [obind]. fold items. rewrite Ep. cbn [obind]. rewrite Hu. eexists _, items. split; [done|].
  assert (length (imap PartSet.makePart (zip items proofs)) = length items) as Hlparts
    by (rewrite length_imap, length_zip_with; lia).
  assert (forall i p, imap PartSet.makePart (zip items proofs) !! i = Some p -> exists p', p = Some p' /\
    part_of items (rootOf (length items) items) i p') as Hparts.
  { intros i p Hp. rewrite list_lookup_imap in Hp. destruct (zip items proofs !! i) as [[c pr]|] eqn:Ez; [|done].
    apply lookup_zip_with_Some in Ez as (c' & pr' & [= <- <-] & Hc & Hpr). injection Hp as <-.
    eexists. split; [done|]. destruct (Hv i c pr Hc Hpr) as (? & ? & ?). by split_and!. }
  split; [|split].
  - split_and!; cbn [PartSet.total PartSet.hash PartSet.parts]; try (unfold zlen; lia).
    + unfold items. rewrite chunks_join. apply take_ge. unfold zlen in *. nia.
    + apply Forall_lookup. intros i c. apply chunk_nonempty; unfold zlen in *; nia.
    + done.
    + done.
  - repeat split; cbn [PartSet.parts PartSet.count PartSet.partsBitArray PartSet.Header PartSetHeader.Total].
    + unfold zlen. rewrite Hlparts. cbn. lia.
    + unfold zlen. rewrite (proj2 (omap_full _)); [rewrite Hlparts; cbn; lia|]. apply Forall_lookup. intros i p Hp.
      destruct (Hparts i p Hp) as (? & -> & _). by eexists.
    + exists b. split_and!; [done|done|]. apply BitArray.to_bits_ext; [lia|unfold filled; rewrite length_fmap; lia|].
      intros i Hi. unfold filled. rewrite list_lookup_fmap, Hbit by lia.
      destruct (lookup_lt_is_Some_2 (imap PartSet.makePart (zip items proofs)) (Z.to_nat i)) as [p Hp]; [lia|].
      rewrite Hp. destruct (Hparts _ _ Hp) as (? & -> & _). done.
  - unfold PartSet.IsComplete. cbn. apply Z.eqb_refl.
Qed.

(** ** Collecting the parts of a set, and reading them back *)

(** Parts arriving one after another. *)
Fixpoint collect (ps : PartSet.t) (l : list Part.t) : outcome PartSet.t :=
  match l with
  | [] => Ret ps
  | p :: l' => let! (_, ps') := PartSet.AddPart ps p in collect ps' l'
  end.

Definition holds (l : list (option Part.t)) (p : Part.t) : Prop := l !! Z.to_nat (Part.Index p) = Some (Some p).

(** Parts of one complete set land in their own slots, in any order and with
    repetitions. *)
Lemma collect_spec header src ps l :
  0 < PartSetHeader.Total header < two63 -> ps_wf header ps -> ps_wf header src ->
  (forall i p, PartSet.parts src !! i = Some (Some p) -> Part.Index p = Z.of_nat i /\
     SimpleProof.Verify (Part.Proof p) (PartSetHeader.Hash header) (Part.Hash p) = None) ->
  (forall i p, PartSet.parts ps !! i = Some (Some p) -> PartSet.parts src !! i = Some (Some p)) ->
  Forall (holds (PartSet.parts src)) l ->
  exists ps', collect ps l = Ret ps' /\ ps_wf header ps' /\
    (forall i p, PartSet.parts ps' !! i = Some (Some p) <->
       PartSet.parts ps !! i = Some (Some p) \/ p ∈ l /\ Part.Index p = Z.of_nat i).
Proof.
  intros Ht Hwf Hsrc Hval. revert ps Hwf. induction l as [|p l IH]; intros ps Hwf Hsub Hl.
  { exists ps. split_and!; [done|done|]. intros. set_solver. }
  apply Forall_cons in Hl as [Hp Hl]. destruct (Hval _ _ Hp) as [Hix Hv].
  destruct (AddPart_spec header ps p Hwf) as (r & E & Hr); [lia|lia|]. cbn [collect]. rewrite E. cbn [obind].
  pose proof Hwf as (H1 & H2 & H3 & H4). pose proof Hsrc as (_ & _ & S3 & _).
  destruct (lookup_lt_is_Some_2 (PartSet.parts ps) (Z.to_nat (Part.Index p))) as [slot Hslot].
  { apply lookup_lt_Some in Hp. unfold zlen in *. lia. }
  cbv zeta in Hr. rewrite Hslot, H2, Hv in Hr. destruct slot as [q|].
  - cbn in Hr. subst r. destruct (IH ps) as (ps' & E' & Hwf' & Hpost); [done|done|done|]. exists ps'. split_and!; [done|done|].
    intros i x. rewrite Hpost. apply Hsub in Hslot as Hq. unfold holds in Hp. rewrite Hp in Hq. injection Hq as <-.
    rewrite elem_of_cons. split; [naive_solver|]. intros [?|[[->|?] Hi]]; [by left| |by right].
    left. rewrite <- Hslot. f_equal. lia.
  - destruct Hr as (ps1 & -> & Hwf1 & Hparts & _). destruct (IH ps1) as (ps' & E' & Hwf' & Hpost); [done| |done|].
    { intros i x Hx. rewrite Hparts in Hx. apply list_lookup_insert_Some in Hx as [(<- & [= <-] & _)|[_ Hx]]; [exact Hp|auto]. }
    exists ps'. split_and!; [done|done|]. intros i x. rewrite Hpost, Hparts, elem_of_cons, list_lookup_insert_Some.
    apply lookup_lt_Some in Hslot as Hlen. split.
    + intros [[(<- & [= <-] & _)|[_ ?]]|[? ?]]; [right; split; [by left|lia]|by left|right; split; [by right|done]].
    + intros [Hx|[[->|Hx] Hi]]; [left; right; split; [intros <-; congruence|done]| |right; done].
      left. left. split_and!; [lia|done|lia].
Qed.

(** What is still to be read. *)
Definition avail (r : PartSet.reader) : bytes :=
  PartSet.rest r ++ mjoin (Part.Bytes <$> omap id (drop (S (Z.to_nat (PartSet.ri r))) (PartSet.rparts r))).

(** A reader over filled slots whose parts are not empty. *)
Definition reader_ok (r : PartSet.reader) : Prop :=
  0 <= PartSet.ri r /\ Forall (fun p => exists x, p = Some x /\ Part.Bytes x <> []) (PartSet.rparts r).

Definition partsLeft (r : PartSet.reader) : nat := (length (PartSet.rparts r) - S (Z.to_nat (PartSet.ri r)))%nat.

Lemma next_part r : reader_ok r -> PartSet.rest r = [] -> avail r <> [] ->
  PartSet.ri r + 1 < zlen (PartSet.rparts r) /\
  exists b, PartSet.partBytes (PartSet.rparts r) (PartSet.ri r + 1) = Ret b /\ b <> [] /\
    let r' := PartSet.mkReader (PartSet.ri r + 1) (PartSet.rparts r) b in
    avail r' = avail r /\ reader_ok r' /\ partsLeft r = S (partsLeft r').
Proof.
  intros (Hi & Hall) Hrest Hne. unfold avail in *. rewrite Hrest in *. cbn [app] in *.
  destruct (decide (S (Z.to_nat (PartSet.ri r)) < length (PartSet.rparts r))%nat) as [Hlt|Hge].
  2: { rewrite drop_ge in Hne by lia. done. }
  destruct (lookup_lt_is_Some_2 (PartSet.rparts r) _ Hlt) as [p Hp].
  destruct (proj1 (Forall_lookup _ _) Hall _ _ Hp) as (x & -> & Hx). split; [unfold zlen; lia|].
  exists (Part.Bytes x). unfold PartSet.partBytes.
  replace (PartSet.ri r + 1) with (Z.of_nat (S (Z.to_nat (PartSet.ri r)))) by lia.
  rewrite (slice_get_nat _ _ _ Hp). split_and!; [done|done| |split; [cbn; lia|done]|unfold partsLeft; cbn; lia].
  cbn [PartSet.rest PartSet.ri PartSet.rparts]. rewrite Nat2Z.id. by rewrite (drop_S _ _ _ Hp).
Qed.

Lemma bytesRead_spec r n : (0 < n <= length (PartSet.rest r))%nat ->
  exists r', PartSet.bytesRead r n = (take n (avail r), false, r') /\ avail r' = drop n (avail r) /\
    PartSet.rest r' = drop n (PartSet.rest r) /\ PartSet.ri r' = PartSet.ri r /\ PartSet.rparts r' = PartSet.rparts r.
Proof.
  intros Hn. unfold PartSet.bytesRead. destruct (PartSet.rest r) as [|x l] eqn:E; [simpl in Hn; lia|].
  eexists. unfold avail. rewrite E. split; [by rewrite (take_app_le _ _ _ (proj2 Hn))|]. cbn [PartSet.rest PartSet.ri PartSet.rparts].
  split_and!; [by rewrite (drop_app_le _ _ _ (proj2 Hn))|done..].
Qed.

(** Two calls per part left and two more are enough to read what there is. *)
Lemma Read_spec fuel r n : reader_ok r -> (0 < n <= length (avail r))%nat ->
  (2 * partsLeft r + (if decide (PartSet.rest r = []) then 1 else 2) <= fuel)%nat ->
  exists r', PartSet.Read fuel r n = Ret (take n (avail r), false, r') /\ reader_ok r' /\ avail r' = drop n (avail r) /\
    PartSet.rparts r' = PartSet.rparts r.
Proof.
  revert r n. induction fuel as [|fuel IH]; intros r n Hok Hn Hf; [destruct (decide _); lia|]. cbn [PartSet.Read].
  destruct (Nat.leb_spec n (length (PartSet.rest r))).
  { destruct (bytesRead_spec r n) as (r' & -> & ? & ? & Hri & Hrp); [lia|]. exists r'. split_and!; [done| |done|done].
    unfold reader_ok in *. by rewrite Hri, Hrp. }
  destruct (Nat.ltb_spec 0 (length (PartSet.rest r))) as [Hpos|Hz].
  - assert (PartSet.rest r <> []) as Hnr by (intros E; rewrite E in Hpos; simpl in Hpos; lia).
    rewrite decide_False in Hf by done. destruct fuel as [|fuel']; [lia|].
    destruct (bytesRead_spec r (length (PartSet.rest r))) as (r1 & E1 & Hav & Hrest & Hri & Hrp); [lia|].
    assert (PartSet.Read (S fuel') r (length (PartSet.rest r)) = Ret (take (length (PartSet.rest r)) (avail r), false, r1)) as ->
      by (cbn [PartSet.Read]; by rewrite Nat.leb_refl, E1).
    cbn [obind]. rewrite drop_all in Hrest.
    destruct (IH r1 (n - length (PartSet.rest r))%nat) as (r2 & -> & Hok2 & Hav2 & Hrp2).
    + unfold reader_ok in *. by rewrite Hri, Hrp.
    + rewrite Hav, length_drop. lia.
    + unfold partsLeft in *. rewrite Hri, Hrp, Hrest. rewrite (decide_True _ _ eq_refl). lia.
    + cbn [obind]. exists r2. rewrite Hav2, Hav, drop_drop, take_take_drop.
      replace (length (PartSet.rest r) + (n - length (PartSet.rest r)))%nat with n by lia. split_and!; try done. congruence.
  - assert (PartSet.rest r = []) as Hrest by (destruct (PartSet.rest r); [done|simpl in Hz; lia]).
    destruct (next_part r Hok Hrest) as (Hlt & b & Eb & Hb & Hav & Hok' & Hleft); [intros E; rewrite E in Hn; simpl in Hn; lia|].
    rewrite (proj2 (Z.leb_gt _ _)) by done. rewrite Eb. cbn [obind].
    destruct (IH (PartSet.mkReader (PartSet.ri r + 1) (PartSet.rparts r) b) n Hok') as (r' & -> & ? & Hav' & Hrp').
    + by rewrite Hav.
    + rewrite decide_True in Hf by done. rewrite Hleft in Hf. destruct (decide _); lia.
    + exists r'. rewrite <- Hav. split_and!; done.
Qed.

(** The whole of a complete set is available to its reader. *)
Lemma GetReader_spec data ps items : built data ps items -> PartSet.IsComplete ps = true ->
  exists r, PartSet.GetReader ps = Ret r /\ reader_ok r /\ avail r = data /\ PartSet.rparts r = PartSet.parts ps.
Proof.
  intros (Hj & Hne & Hlen & _ & _ & Hl & Hp) Hc. unfold PartSet.GetReader. rewrite Hc. cbn [negb].
  assert (Part.Bytes <$> omap id (PartSet.parts ps) = items) as Hitems.
  { assert (exists l, PartSet.parts ps = Some <$> l) as [l El].
    { exists (omap id (PartSet.parts ps)). assert (Forall is_Some (PartSet.parts ps)) as Hs.
      { apply Forall_lookup. intros i p Hi. destruct (Hp i p Hi) as (? & -> & _). by eexists. }
      clear -Hs. induction Hs as [|p l [x ->] _ IH]; [done|]. by rewrite IH at 1. }
    assert (omap id (PartSet.parts ps) = l) as -> by (rewrite El; clear; induction l; csimpl; congruence).
    apply list_eq. intros i. rewrite list_lookup_fmap. destruct (l !! i) as [x|] eqn:Ex.
    - destruct (Hp i (Some x)) as (? & [= <-] & _ & Hi & _); [by rewrite El, list_lookup_fmap, Ex|done].
    - symmetry. apply lookup_ge_None. apply lookup_ge_None in Ex. rewrite El in Hl. unfold zlen in Hl. rewrite length_fmap in Hl. lia. }
  destruct (PartSet.parts ps) as [|p0 l] eqn:Eparts; [simpl in Hl; unfold zlen in *; simpl in *; lia|].
  destruct (Hp 0%nat p0) as (x0 & -> & _); [done|]. eexists. split; [done|]. split_and!; [|by rewrite <- Hj, <- Hitems|done].
  split; [done|]. cbn [PartSet.rparts]. apply Forall_lookup. intros i p Hi. destruct (Hp i p Hi) as (x & -> & _ & Hx & _).
  exists x. split; [done|]. by eapply (proj1 (Forall_lookup _ _) Hne).
Qed.

Lemma complete_iff header ps : ps_wf header ps -> PartSet.IsComplete ps = true <-> Forall is_Some (PartSet.parts ps).
Proof.
  intros (Ht & _ & Hl & Hc & _). unfold PartSet.IsComplete. rewrite Z.eqb_eq, Ht, Hc, <- Hl, <- omap_full.
  unfold zlen. by rewrite Nat2Z.inj_iff.
Qed.

(** A set filled from [src] with the parts of [l] only. *)
Lemma complete_delivered header src ps (l : list Part.t) : ps_wf header ps -> ps_wf header src ->
  Forall is_Some (PartSet.parts src) ->
  (forall i p, PartSet.parts ps !! i = Some (Some p) <-> PartSet.parts src !! i = Some (Some p) /\ p ∈ l) ->
  (PartSet.IsComplete ps = true <-> forall p, Some p ∈ PartSet.parts src -> p ∈ l) /\
  (PartSet.IsComplete ps = true -> PartSet.parts ps = PartSet.parts src).
Proof.
  intros Hps Hsrc Hfull Hiff. pose proof Hps as (_ & _ & Hl & _). pose proof Hsrc as (_ & _ & Hl' & _).
  rewrite (complete_iff _ _ Hps). split.
  - split.
    + intros Hall p Hp. apply list_elem_of_lookup in Hp as [i Hi].
      destruct (lookup_lt_is_Some_2 (PartSet.parts ps) i) as [q Hq]; [apply lookup_lt_Some in Hi; unfold zlen in *; lia|].
      destruct (proj1 (Forall_lookup _ _) Hall _ _ Hq) as [x ->]. apply Hiff in Hq as [Hx Hin]. congruence.
    + intros Hdel. apply Forall_lookup. intros i q Hq.
      destruct (lookup_lt_is_Some_2 (PartSet.parts src) i) as [x Hx]; [apply lookup_lt_Some in Hq; unfold zlen in *; lia|].
      destruct (proj1 (Forall_lookup _ _) Hfull _ _ Hx) as [p ->].
      assert (PartSet.parts ps !! i = Some (Some p)) as Hq'; [|rewrite Hq in Hq'; injection Hq' as ->; by eexists].
      apply Hiff. split; [done|]. apply Hdel. by eapply list_elem_of_lookup_2.
  - intros Hall. apply list_eq_same_length with (n := length (PartSet.parts src)); [done|unfold zlen in *; lia|].
    intros i x y _ Hx Hy. destruct (proj1 (Forall_lookup _ _) Hall _ _ Hx) as [p ->]. apply Hiff in Hx as [Hx _]. congruence.
Qed.
End Collecting.

(** * Properties *)

Section Properties.
Context {L : Lib} {LL : LibLaws L}.

Lemma rootOf_nonempty items : items <> [] -> zlen items < max_i64 -> rootOf (length items) items <> [].
Proof.
  intros Hne Hm. destruct (decide (length items = 1)%nat) as [H1|H1].
  - destruct items as [|x [|y l]]; simpl in H1; try lia. apply keccak_nonempty.
  - destruct (length items) as [|n] eqn:El; [destruct items; [done|simpl in El; lia]|].
    rewrite rootOf_unfold by (lia || done). apply keccak_nonempty.
Qed.

Lemma Verify_None sp root leaf : SimpleProof.Verify sp root leaf = None -> root <> [] ->
  SimpleProof.LeafHash sp = leaf /\ SimpleProof.ComputeRootHash sp = Some root.
Proof.
  unfold SimpleProof.Verify. intros H Hne. destruct (_ <? 0); [done|]. destruct (_ <? 0); [done|].
  destruct (bytes_equal (SimpleProof.LeafHash sp) leaf) eqn:E1; [|done]. apply bytes_equal_true in E1.
  destruct (bytes_equal _ root) eqn:E2; [|done]. apply bytes_equal_true in E2. split; [done|].
  destruct (SimpleProof.ComputeRootHash sp); simpl in E2; congruence.
Qed.

(** C38: a part set made for the Merkle root of some items accepts only their
    bytes.  When [AddPart] adds a part to a set whose hash is the root of the
    items, the part's bytes are one of the items, the one at the proof's index if
    the proof has the tree's total; otherwise the verification and the building
    of the tree hashed two different values to the same hash. *)
Theorem AddPart_sound items proofs ps part ps' : zlen items < max_i64 ->
  SimpleProof.SimpleProofsFromByteSlices items = Ret (PartSet.hash ps, proofs) ->
  PartSet.AddPart ps part = Ret (true, None, ps') ->
  let sp := Part.Proof part in
  (exists i, items !! i = Some (Part.Bytes part) /\ (SimpleProof.Total sp = zlen items -> SimpleProof.Index sp = Z.of_nat i)) \/
  collision
    (RBytes (Part.Bytes part) ::
       proofInputs (S (length (SimpleProof.Aunts sp))) (SimpleProof.Index sp) (SimpleProof.Total sp)
                   (Part.Hash part) (SimpleProof.Aunts sp))
    (treeInputs (length items) items).
Proof.
  intros Hm Hroot Hadd sp.
  destruct (decide (items = [])) as [->|Hne]; [done|].
  destruct (proofs_verify items Hne Hm) as (? & E & _). rewrite E in Hroot. injection Hroot as Hh _.
  unfold PartSet.AddPart in Hadd. destruct (_ <=? _); [done|]. ounfold Hadd. destruct a; [done|].
  destruct (SimpleProof.Verify _ _ _) eqn:Ev; [done|].
  apply Verify_None in Ev as [Hleaf Hc]; [|rewrite <- Hh; by apply rootOf_nonempty].
  apply (verified_leaf (length items) items); [done|done|done|].
  rewrite Hh. unfold SimpleProof.ComputeRootHash in Hc. rewrite Hleaf in Hc. exact Hc.
Qed.

(** [AddPart] does not compare the index of a part with the index of its
    proof.  In a set made from the header of data with at least two parts, the
    bytes and the proof of part [i] under index [j] are accepted into slot [j], so
    that a set can become complete without holding the data. *)
Theorem AddPart_misplaces data s src i j p : 0 < s -> 0 < zlen data -> zlen data + s <= max_i64 ->
  PartSet.NewPartSetFromData data s = Ret src ->
  PartSet.parts src !! i = Some (Some p) -> (j < length (PartSet.parts src))%nat ->
  exists ps ps', PartSet.NewPartSetFromHeader (PartSet.Header (Some src)) = Ret ps /\
    PartSet.AddPart ps (Part.mk (Z.of_nat j) (Part.Bytes p) (Part.Proof p)) = Ret (true, None, ps') /\
    PartSet.parts ps' !! j = Some (Some (Part.mk (Z.of_nat j) (Part.Bytes p) (Part.Proof p))).
Proof.
  intros Hs Hd Hm Hsrc Hi Hj.
  destruct (NewPartSetFromData_spec data s Hs Hd Hm) as (? & items & E & Hb & Hwf & _). rewrite Hsrc in E. injection E as <-.
  destruct Hb as (_ & _ & Hlen & Htot & _ & _ & Hparts). destruct (Hparts i _ Hi) as (? & [= <-] & _ & _ & _ & _ & Hv).
  destruct (NewPartSetFromHeader_wf (PartSet.Header (Some src))) as (ps & -> & Hps & _ & Hempty);
    [cbn; rewrite Htot; unfold max_i64, two63 in *; lia|].
  exists ps. pose proof Hps as (_ & Hh & Hl & _). pose proof Hwf as (_ & _ & Hl' & _).
  destruct (lookup_lt_is_Some_2 (PartSet.parts ps) j) as [slot Hslot]; [unfold zlen in *; lia|].
  pose proof (proj1 (Forall_lookup _ _) Hempty _ _ Hslot) as <-.
  destruct (AddPart_spec _ _ (Part.mk (Z.of_nat j) (Part.Bytes p) (Part.Proof p)) Hps) as (r & -> & Hr);
    [cbn; rewrite Htot; unfold max_i64, two63 in *; lia|cbn; lia|].
  cbn [Part.Index Part.Proof] in Hr. cbv zeta in Hr. rewrite Nat2Z.id, Hslot, Hh in Hr. unfold Part.Hash in *.
  cbn [Part.Bytes] in Hr. cbn [PartSet.Header PartSetHeader.Hash] in Hr. rewrite Hv in Hr.
  destruct Hr as (ps' & -> & _ & Hp & _). exists ps'. split_and!; [done|done|].
  rewrite Hp. apply list_lookup_insert_eq. unfold zlen in *. lia.
Qed.

End Properties.

(** ** Two one-byte parts *)

Definition demoData : bytes := [Byte.x07; Byte.x09].
Definition demoParts : PartSet.t :=
  match PartSet.NewPartSetFromData (L := demoLib) demoData 1 with Ret ps => ps | Panic _ => PartSet.mk 0 [] [] None 0 end.
Definition demoPart (i : nat) : Part.t :=
  match PartSet.parts demoParts !! i with Some (Some p) => p | _ => Part.mk 0 [] (SimpleProof.mk 0 0 [] []) end.
Definition demoFresh : PartSet.t :=
  match PartSet.NewPartSetFromHeader (PartSet.Header (Some demoParts)) with Ret ps => ps | Panic _ => demoParts end.
Definition addedTo (ps : PartSet.t) (p : Part.t) : PartSet.t :=
  match PartSet.AddPart (L := demoLib) ps p with Ret (_, _, ps') => ps' | Panic _ => ps end.

Lemma AddPart_sound_witness : exists i,
  [[Byte.x07]; [Byte.x09]] !! i = Some (Part.Bytes (demoPart 1)) \/
  collision (L := demoLib)
    (RBytes (Part.Bytes (demoPart 1)) ::
       proofInputs (S (length (SimpleProof.Aunts (Part.Proof (demoPart 1))))) 1 2
         (Part.Hash (L := demoLib) (demoPart 1)) (SimpleProof.Aunts (Part.Proof (demoPart 1))))
    (treeInputs (L := demoLib) 2 [[Byte.x07]; [Byte.x09]]).
Proof.
  destruct (AddPart_sound (LL := demoLaws) [[Byte.x07]; [Byte.x09]]
    (match SimpleProof.SimpleProofsFromByteSlices (L := demoLib) [[Byte.x07]; [Byte.x09]] with Ret (_, prs) => prs | Panic _ => [] end)
    demoFresh (demoPart 1) (addedTo demoFresh (demoPart 1))) as [(i & Hi & _)|Hc].
  - by_decide.
  - vm_compute. reflexivity.
  - vm_compute. reflexivity.
  - exists i. left. exact Hi.
  - exists 0%nat. right. exact Hc.
Defined.

Lemma AddPart_misplaces_witness : exists ps ps',
  PartSet.NewPartSetFromHeader (PartSet.Header (Some demoParts)) = Ret ps /\
  PartSet.AddPart (L := demoLib) ps (Part.mk 0 (Part.Bytes (demoPart 1)) (Part.Proof (demoPart 1))) = Ret (true, None, ps').
Proof.
  destruct (AddPart_misplaces (L := demoLib) demoData 1 demoParts 1 0 (demoPart 1)) as (ps & ps' & E & Ea & _).
  - by_decide.
  - by_decide.
  - by_decide.
  - vm_compute. reflexivity.
  - vm_compute. reflexivity.
  - vm_compute. lia.
  - exists ps, ps'. split; [exact E|exact Ea].
Defined.

