(* ===== verification/Health.v ===== *)
(** * The health of the committee members

    Models [consensus/tbft/types/health.go] and the [CommitteeMember] of
    [core/types/committee.go].  The manager keeps three groups of members (the
    working ones, the backups and the seeds), counts the ticks since each was heard
    of, and proposes to switch a silent member for a backup.  The members and the
    proposals are shared by pointer with the consensus state: both live in a heap,
    and a pointer is an index into it.  The working group is a Go map; the list
    stands for the order of one iteration over it.  The channel to the consensus
    state is the list of the proposals sent on it. *)

From S2P Require Import Prelude Types Validator.

Definition HealthOut : Z := 1800.
Definition BlackDoorCount : Z := 4.
Definition SwitchPartWork : Z := 0.
Definition SwitchPartBack : Z := 1.
Definition SwitchPartSeed : Z := 2.

Definition StateUnusedFlag : Z := 160.
Definition StateUsedFlag : Z := 161.
Definition StateSwitchingFlag : Z := 162.
Definition StateRemovedFlag : Z := 163.
Definition StateAppendFlag : Z := 164.
Definition TypeFixed : Z := 161.
Definition TypeWorked : Z := 162.
Definition TypeBack : Z := 163.

(** Wrap-around of [int32]. *)
Definition i32 (z : Z) : Z := (z + 2 ^ 31) mod 2 ^ 32 - 2 ^ 31.

(** [common.BytesToAddress]: the last twenty bytes, padded on the left. *)
Definition BytesToAddress (b : bytes) : bytes :=
  let b := drop (length b - 20) b in replicate (20 - length b) Byte.x00 ++ b.
Definition zeroAddress : bytes := replicate 20 Byte.x00.

Module CommitteeMember.
Record t := mk {
  Coinbase : bytes;
  CommitteeBase : bytes;
  Publickey : bytes;
  Flag : Z;
  MType : Z
}.

Definition Compared (c d : t) : bool :=
  (MType c =? MType d) && bytes_equal (Coinbase c) (Coinbase d) &&
  bytes_equal (CommitteeBase c) (CommitteeBase d) && bytes_equal (Publickey c) (Publickey d).
End CommitteeMember.

Module Health.
Record t {L : Lib} := mk {
  ID : string;
  IP : string;
  Port : Z;
  Tick : Z;
  State : Z;
  HType : Z;
  Val : Validator.t;
  Self : bool
}.
Arguments t : clear implicits.
Arguments t {L}.

Section Ops.
Context {L : Lib}.

Definition NewHealth (id : string) (ty state : Z) (val : Validator.t) (self : bool) : t :=
  mk L id "" 0 0 state ty val self.

Definition set_Tick (h : t) (x : Z) : t := mk L (ID h) (IP h) (Port h) x (State h) (HType h) (Val h) (Self h).
Definition set_State (h : t) (x : Z) : t := mk L (ID h) (IP h) (Port h) (Tick h) x (HType h) (Val h) (Self h).
Definition set_addr (h : t) (id ip : string) (port : Z) : t :=
  mk L id ip port (Tick h) (State h) (HType h) (Val h) (Self h).

(** Both nil, or the same identifier and key. *)
Definition Equal (h other : option t) : bool :=
  match h, other with
  | None, None => true
  | Some h, Some o =>
      bool_decide (ID h = ID o) &&
      bytes_equal (default [] (FromECDSAPub (Validator.PubKey (Val h))))
                  (default [] (FromECDSAPub (Validator.PubKey (Val o))))
  | _, _ => false
  end.
End Ops.
End Health.

(** A proposed switch; [Remove] and [Add] are pointers to members, a nil slice
    of infos is [None]. *)
Module SwitchValidator.
Record t := mk {
  Remove : option nat;
  Add : option nat;
  Infos : option (list CommitteeMember.t);
  Resion : string;
  From : Z;
  DoorCount : Z;
  Round : Z;
  ID : Z
}.
Definition set_From (s : t) (x : Z) : t :=
  mk (Remove s) (Add s) (Infos s) (Resion s) x (DoorCount s) (Round s) (ID s).
Definition set_DoorCount (s : t) (x : Z) : t :=
  mk (Remove s) (Add s) (Infos s) (Resion s) (From s) x (Round s) (ID s).
Definition set_Round (s : t) (x : Z) : t :=
  mk (Remove s) (Add s) (Infos s) (Resion s) (From s) (DoorCount s) x (ID s).
End SwitchValidator.

(** Every element of [a] has an equal one in [b]. *)
Definition EqualCommitteeMemberArray (a b : option (list CommitteeMember.t)) : bool :=
  match a, b with
  | None, None => true
  | Some a, Some b => forallb (fun v => existsb (CommitteeMember.Compared v) b) a
  | _, _ => false
  end.

Module HealthMgr.
Record t {L : Lib} := mk {
  healths : list Health.t;
  switches : list SwitchValidator.t;
  Work : list (string * nat);
  Back : list nat;
  seed : list nat;
  curSwitch : list nat;
  sent : list nat;
  cid : Z;
  uid : Z;
  ticking : bool;
  EnableHealthMgr : bool
}.
Arguments t : clear implicits.
Arguments t {L}.

Section Ops.
Context {L : Lib}.

Definition set_healths (h : t) (x : list Health.t) : t :=
  mk L x (switches h) (Work h) (Back h) (seed h) (curSwitch h) (sent h) (cid h) (uid h) (ticking h) (EnableHealthMgr h).
Definition set_switches (h : t) (x : list SwitchValidator.t) : t :=
  mk L (healths h) x (Work h) (Back h) (seed h) (curSwitch h) (sent h) (cid h) (uid h) (ticking h) (EnableHealthMgr h).
Definition set_groups (h : t) (w : list (string * nat)) (b s : list nat) : t :=
  mk L (healths h) (switches h) w b s (curSwitch h) (sent h) (cid h) (uid h) (ticking h) (EnableHealthMgr h).
Definition set_cur (h : t) (x : list nat) : t :=
  mk L (healths h) (switches h) (Work h) (Back h) (seed h) x (sent h) (cid h) (uid h) (ticking h) (EnableHealthMgr h).
Definition set_sent (h : t) (x : list nat) : t :=
  mk L (healths h) (switches h) (Work h) (Back h) (seed h) (curSwitch h) x (cid h) (uid h) (ticking h) (EnableHealthMgr h).
Definition set_uid (h : t) (x : Z) : t :=
  mk L (healths h) (switches h) (Work h) (Back h) (seed h) (curSwitch h) (sent h) (cid h) x (ticking h) (EnableHealthMgr h).
Definition set_enable (h : t) (tk e : bool) : t :=
  mk L (healths h) (switches h) (Work h) (Back h) (seed h) (curSwitch h) (sent h) (cid h) (uid h) tk e.

(** ** Pointers *)

Definition getH (h : t) (p : nat) : outcome Health.t :=
  match healths h !! p with Some x => Ret x | None => Panic "nil pointer dereference" end.
Definition getS (h : t) (p : nat) : outcome SwitchValidator.t :=
  match switches h !! p with Some x => Ret x | None => Panic "nil pointer dereference" end.
Definition deref (h : t) (p : option nat) : option Health.t := p ≫= fun p => healths h !! p.
Definition putH (h : t) (p : nat) (x : Health.t) : t := set_healths h (<[p := x]> (healths h)).
Definition putS (h : t) (p : nat) (x : SwitchValidator.t) : t := set_switches h (<[p := x]> (switches h)).
Definition newS (h : t) (x : SwitchValidator.t) : nat * t := (length (switches h), set_switches h (switches h ++ [x])).

(** ** Equality of proposals *)

Definition EqualWithRemove (h : t) (s other : SwitchValidator.t) : bool :=
  Health.Equal (deref h (SwitchValidator.Remove s)) (deref h (SwitchValidator.Remove other)).

Definition EqualWithoutID (h : t) (s other : SwitchValidator.t) : bool :=
  Health.Equal (deref h (SwitchValidator.Remove s)) (deref h (SwitchValidator.Remove other)) &&
  Health.Equal (deref h (SwitchValidator.Add s)) (deref h (SwitchValidator.Add other)) &&
  EqualCommitteeMemberArray (SwitchValidator.Infos s) (SwitchValidator.Infos other).

Definition Equal (h : t) (s other : SwitchValidator.t) : bool :=
  (SwitchValidator.ID s =? SwitchValidator.ID other) && EqualWithoutID h s other.

(** ** Building the manager *)

Definition NewHealthMgr (cid : Z) : t :=
  mk L [] [] [] [] [] [] [] cid (Z.lor (u64 (Z.shiftl cid 32)) 100) false true.

Definition Sum (h : t) : Z := zlen (Work h) + zlen (Back h) + zlen (seed h).

(** [h.Work[he.ID] = he]. *)
Definition assocPut (l : list (string * nat)) (k : string) (p : nat) : list (string * nat) :=
  if existsb (fun x => bool_decide (x.1 = k)) l
  then (fun x => if bool_decide (x.1 = k) then (k, p) else x) <$> l
  else l ++ [(k, p)].

Definition PutWorkHealth (h : t) (he : nat) : outcome t :=
  let! x := getH h he in
  Ret (set_groups h (assocPut (Work h) (Health.ID x) he) (Back h) (seed h)).

Definition PutBackHealth (h : t) (he : option nat) : outcome t :=
  match he with
  | None => Ret h
  | Some he =>
      let! x := getH h he in
      if Health.HType x =? TypeFixed
      then Ret (set_groups h (Work h) (Back h) (seed h ++ [he]))
      else Ret (set_groups h (Work h) (Back h ++ [he]) (seed h))
  end.

(** The first pointer whose member satisfies [f]. *)
Fixpoint findH (h : t) (f : Health.t -> bool) (l : list nat) : outcome (option nat) :=
  match l with
  | [] => Ret None
  | p :: l' => let! x := getH h p in if f x then Ret (Some p) else findH h f l'
  end.

Definition GetHealthTick (h : t) (pid : string) : outcome Z :=
  let same (x : Health.t) := bool_decide (Health.ID x = pid) in
  let! r := findH h same ((Work h).*2 ++ Back h ++ seed h) in
  match r with Some p => let! x := getH h p in Ret (Health.Tick x) | None => Ret (-1) end.

Definition getHealthFromPart (h : t) (address : bytes) (part : Z) : outcome (option nat) :=
  let same (x : Health.t) := bytes_equal address (Validator.Address (Health.Val x)) in
  if part =? SwitchPartBack then findH h same (Back h)
  else if part =? SwitchPartWork then findH h same ((Work h).*2)
  else if part =? SwitchPartSeed then findH h same (seed h)
  else Ret None.

Definition GetHealth (h : t) (address : bytes) : outcome (option nat) :=
  let! enter := getHealthFromPart h address SwitchPartWork in
  match enter with
  | Some p => Ret (Some p)
  | None =>
      let! enter := getHealthFromPart h address SwitchPartBack in
      match enter with
      | Some p => Ret (Some p)
      | None => getHealthFromPart h address SwitchPartSeed
      end
  end.

Definition UpdataHealthInfo (h : t) (id ip : string) (port : Z) (pk : bytes) : outcome t :=
  let! enter := GetHealth h pk in
  match enter with
  | None => Ret h
  | Some p =>
      let! x := getH h p in
      if negb (bool_decide (Health.ID x = ""%string)) then Ret (putH h p (Health.set_addr x id ip port)) else Ret h
  end.

(** ** Starting and stopping *)

Definition OnStart (h : t) : t :=
  let h := set_enable h (ticking h) false in
  if negb (ticking h) && EnableHealthMgr h then set_enable h true (EnableHealthMgr h) else h.

Definition OnStop (h : t) : t := set_enable h (ticking h) false.

(** ** The current proposal *)

Definition getCurSV (h : t) : option nat := head (curSwitch h).
Definition setCurSV (h : t) (sv : nat) : t :=
  match curSwitch h with [] => set_cur h [sv] | _ => h end.
Definition removeCurSV (h : t) : t := set_cur h (tail (curSwitch h)).

(** [go h.Switch(s)]. *)
Definition Switch (h : t) (s : nat) : t := set_sent h (sent h ++ [s]).

Definition makeSwitchValidators (h : t) (remove : nat) (add : option nat) (resion : string) (from : Z)
    : outcome (nat * t) :=
  let! vals := match add with
               | None => Ret []
               | Some a =>
                   let! x := getH h a in
                   Ret [CommitteeMember.mk zeroAddress (BytesToAddress (Validator.Address (Health.Val x))) [] StateAppendFlag 0]
               end in
  let! r := getH h remove in
  let vals := vals ++ [CommitteeMember.mk zeroAddress (BytesToAddress (Validator.Address (Health.Val r))) [] StateRemovedFlag 0] in
  Ret (newS (set_uid h (u64 (uid h + 1)))
         (SwitchValidator.mk (Some remove) add (Some vals) resion from 0 (-1) (uid h))).

(** [CompareAndSwapUint32(&v.State, StateUnusedFlag, StateSwitchingFlag)]. *)
Fixpoint pickFrom (h : t) (l : list nat) : outcome (option nat * t) :=
  match l with
  | [] => Ret (None, h)
  | p :: l' =>
      let! x := getH h p in
      if Health.State x =? StateUnusedFlag
      then Ret (Some p, putH h p (Health.set_State x StateSwitchingFlag))
      else pickFrom h l'
  end.

Definition pickUnuseValidator (h : t) : outcome (option nat * t) :=
  let! (r, h) := pickFrom h (Back h) in
  match r with Some p => Ret (Some p, h) | None => pickFrom h (seed h) end.

(** ** The ticks *)

Fixpoint countUsed (h : t) (l : list nat) : outcome Z :=
  match l with
  | [] => Ret 0
  | p :: l' =>
      let! x := getH h p in
      let! n := countUsed h l' in
      Ret ((if Health.State x =? StateUsedFlag then 1 else 0) + n)
  end.

(** [params.MinimumCommitteeNumber] is an argument. *)
Definition isShiftSV (minimum : Z) (h : t) : outcome (bool * Z) :=
  let! cnt := countUsed h ((Work h).*2 ++ Back h ++ seed h) in Ret (minimum <? cnt, cnt).

(** The first half of [checkSwitchValidator]: count a tick of a used member and
    propose its removal when it has been silent for too long. *)
Definition tickOne (h : t) (v : nat) (sshift : bool) : outcome t :=
  let! x := getH h v in
  if (Health.State x =? StateUsedFlag) && negb (Health.HType x =? TypeFixed) && negb (Health.Self x) then
    let val := i32 (Health.Tick x + 1) in
    let h := putH h v (Health.set_Tick x val) in
    if sshift && (HealthOut + 60 <? val) then
      match getCurSV h with
      | Some _ => Ret h
      | None =>
          let! (back, h) := pickUnuseValidator h in
          let! (cur, h) := makeSwitchValidators h v back "Switch" 0 in
          let! x := getH h v in
          let h := putH h v (Health.set_State x StateSwitchingFlag) in
          Ret (Switch (setCurSV h cur) cur)
      end
    else Ret h
  else Ret h.

(** The second half: take the proposal back when its member was heard of. *)
Definition restoreOne (h : t) : outcome t :=
  match getCurSV h with
  | None => Ret h
  | Some sv0 =>
      let! s := getS h sv0 in
      match SwitchValidator.Remove s with
      | None => Panic "nil pointer dereference"
      | Some r =>
          let! x := getH h r in
          if (Health.Tick x <? HealthOut) && (SwitchValidator.From s =? 0) then
            let (sv1, h) := newS h (SwitchValidator.set_From s 1) in Ret (Switch h sv1)
          else Ret h
      end
  end.

Definition checkSwitchValidator (h : t) (v : nat) (sshift : bool) : outcome t :=
  let! h := tickOne h v sshift in restoreOne h.

Fixpoint checkAll (h : t) (l : list nat) (sshift : bool) : outcome t :=
  match l with
  | [] => Ret h
  | v :: l' => let! h := checkSwitchValidator h v sshift in checkAll h l' sshift
  end.

Definition work (h : t) (sshift : bool) : outcome t :=
  if negb (EnableHealthMgr h) then Ret h else checkAll h ((Work h).*2 ++ Back h) sshift.

(** A message was received from [id]. *)
Definition Update (h : t) (id : string) : outcome t :=
  let same (x : Health.t) := bool_decide (Health.ID x = id) in
  let back (h : t) : outcome t :=
    let! r := findH h same (Back h) in
    match r with
    | None => Ret h
    | Some p =>
        let! x := getH h p in
        if negb (Health.HType x =? TypeFixed) then Ret (putH h p (Health.set_Tick x 0)) else Ret h
    end in
  match snd <$> list_find (fun x => x.1 = id) (Work h) with
  | Some (_, p) =>
      let! x := getH h p in
      if negb (Health.HType x =? TypeFixed) then Ret (putH h p (Health.set_Tick x 0)) else back h
  | None => back h
  end.

(** ** The result of a switch *)

Definition store (h : t) (p : option nat) (f : Health.t -> Health.t) : outcome t :=
  match p with None => Ret h | Some p => let! x := getH h p in Ret (putH h p (f x)) end.

(** The members named by the one or two infos of a result: the one to add and
    the one to remove. *)
Definition namedMembers (h : t) (infos : list CommitteeMember.t) : outcome (option nat * option nat) :=
  match infos with
  | enter1 :: rest =>
      if CommitteeMember.Flag enter1 =? StateAppendFlag then
        let! add := GetHealth h (CommitteeMember.CommitteeBase enter1) in
        match rest with
        | [] => Panic "nil pointer dereference"
        | enter2 :: _ =>
            if CommitteeMember.Flag enter2 =? StateRemovedFlag then
              let! remove := GetHealth h (CommitteeMember.CommitteeBase enter2) in Ret (add, remove)
            else Ret (add, None)
        end
      else if CommitteeMember.Flag enter1 =? StateRemovedFlag then
        let! remove := GetHealth h (CommitteeMember.CommitteeBase enter1) in Ret (None, remove)
      else Ret (None, None)
  | [] => Ret (None, None)
  end.

Definition switchResult (h : t) (res : nat) : outcome t :=
  if negb (EnableHealthMgr h) then Ret h
  else
    let! r := getS h res in
    let! h := match getCurSV h with
              | None => Ret h
              | Some cur =>
                  let! c := getS h cur in
                  if ((SwitchValidator.From r =? 1) && Equal h c r) || EqualWithoutID h c r || EqualWithRemove h c r
                  then Ret (removeCurSV h) else Ret h
              end in
    if SwitchValidator.From r =? 0 then
      let infos := default [] (SwitchValidator.Infos r) in
      if (0 <? zlen infos) && (zlen infos <? 3) then
        let! (add, remove) := namedMembers h infos in
        let! h := store h remove (fun x => Health.set_Tick (Health.set_State x StateRemovedFlag) 0) in
        store h add (fun x => Health.set_Tick (Health.set_State x StateUsedFlag) 0)
      else Ret h
    else Ret h.

(** ** Verifying a proposal; [true] is a nil error *)

Definition verifySwitchEnter (h : t) (remove add : option nat) : outcome bool :=
  match remove with
  | None => Ret false
  | Some r =>
      let! x := getH h r in
      let rRes := (StateUsedFlag <=? Health.State x) && (Health.State x <=? StateSwitchingFlag)
                  && (HealthOut <=? Health.Tick x) in
      let! aRes := match add with
                   | None => Ret true
                   | Some a =>
                       let! y := getH h a in
                       Ret (negb (Health.State y =? StateRemovedFlag) && negb (Health.State y =? StateUsedFlag))
                   end in
      Ret (rRes && aRes)
  end.

Definition VerifySwitch (h : t) (sv : SwitchValidator.t) : outcome bool :=
  if negb (EnableHealthMgr h) then Ret false
  else
    let! same := match getCurSV h with
                 | None => Ret false
                 | Some sv0 => let! s := getS h sv0 in Ret (Equal h s sv)
                 end in
    if same : bool then Ret true
    else verifySwitchEnter h (SwitchValidator.Remove sv) (SwitchValidator.Add sv).

(** ** Updates from the committee *)

Definition setFlag (l : t -> list nat) (m : CommitteeMember.t) (h : t) : outcome t :=
  let! r := findH h (fun x => bytes_equal (CommitteeMember.CommitteeBase m) (Validator.Address (Health.Val x))) (l h) in
  store h r (fun x => Health.set_State x (CommitteeMember.Flag m)).

Fixpoint setFlags (f : CommitteeMember.t -> t -> outcome t) (ms : list CommitteeMember.t) (h : t) : outcome t :=
  match ms with [] => Ret h | m :: ms' => let! h := f m h in setFlags f ms' h end.

(** Whether the committee still has the member in use and the backup unused. *)
Definition stillWanted (h : t) (members : list CommitteeMember.t) (p : nat) : outcome bool :=
  let! s := getS h p in
  match deref h (SwitchValidator.Remove s) with
  | None => Ret true
  | Some r =>
      let hasFlag (x : Health.t) flag (v : CommitteeMember.t) :=
        bytes_equal (CommitteeMember.CommitteeBase v) (Validator.Address (Health.Val x)) && (CommitteeMember.Flag v =? flag) in
      let rOK := existsb (hasFlag r StateUsedFlag) members in
      let aOk := existsb (fun v => match deref h (SwitchValidator.Add s) with
                                   | None => true
                                   | Some a => hasFlag a StateUnusedFlag v
                                   end) members in
      Ret (rOK && aOk)
  end.

Fixpoint keepWanted (h : t) (members : list CommitteeMember.t) (l : list nat) : outcome (list nat) :=
  match l with
  | [] => Ret []
  | p :: l' =>
      let! keep := keepWanted h members l' in
      let! ok := stillWanted h members p in
      Ret (if ok : bool then p :: keep else keep)
  end.

Definition checkSaveSwitchValidator (h : t) (members : list CommitteeMember.t) : outcome t :=
  let! keep := keepWanted h members (curSwitch h) in Ret (set_cur h keep).

Definition UpdateFromCommittee (h : t) (member backMember : list CommitteeMember.t) : outcome t :=
  let! h := setFlags (setFlag (fun h => (Work h).*2)) member h in
  let! h := setFlags (fun m h =>
    if CommitteeMember.MType m =? TypeBack then setFlag Back m h
    else if CommitteeMember.MType m =? TypeFixed then setFlag seed m h
    else Ret h) backMember h in
  checkSaveSwitchValidator h (member ++ backMember).

End Ops.
End HealthMgr.

(** * What a tick may propose *)

Section Ticks.
Context {L : Lib}.
Implicit Types (h : HealthMgr.t) (x y : Health.t).
Import HealthMgr.

(** All pointers are to members and proposals that are there, and a proposal
    names a member to remove. *)
Definition switch_ok h (s : SwitchValidator.t) : Prop :=
  (exists r, SwitchValidator.Remove s = Some r /\ is_Some (healths h !! r)) /\
  forall a, SwitchValidator.Add s = Some a -> is_Some (healths h !! a).

Record hm_ok h : Prop := {
  hm_members : forall p, p ∈ (Work h).*2 ++ Back h ++ seed h -> is_Some (healths h !! p);
  hm_cur : forall p, p ∈ curSwitch h -> is_Some (switches h !! p);
  hm_switches : forall p s, switches h !! p = Some s -> switch_ok h s
}.

(** A member that is counted. *)
Definition watched x : bool :=
  (Health.State x =? StateUsedFlag) && negb (Health.HType x =? TypeFixed) && negb (Health.Self x).

Definition same_person x y : Prop :=
  Health.ID y = Health.ID x /\ Health.HType y = Health.HType x /\ Health.Val y = Health.Val x /\ Health.Self y = Health.Self x.

(** Only ticks of watched members changed. *)
Definition quiet h h' : Prop :=
  curSwitch h' = curSwitch h /\ length (healths h') = length (healths h) /\
  forall p x, healths h !! p = Some x -> exists y, healths h' !! p = Some y /\ same_person x y /\
    Health.State y = Health.State x /\ (watched x = false -> y = x).

(** A proposal was made: to remove a watched member that has been silent for too
    long, and to add an unused backup if there is one. *)
Definition proposed (sshift : bool) h h' : Prop :=
  sshift = true /\ curSwitch h = [] /\ exists sv s r x y, curSwitch h' = [sv] /\ switches h' !! sv = Some s /\
    SwitchValidator.Remove s = Some r /\ r ∈ (Work h).*2 ++ Back h /\
    healths h !! r = Some x /\ watched x = true /\
    healths h' !! r = Some y /\ same_person x y /\ Health.State y = StateSwitchingFlag /\ HealthOut + 60 < Health.Tick y /\
    forall a, SwitchValidator.Add s = Some a -> a ∈ Back h ++ seed h /\
      exists z, healths h !! a = Some z /\ Health.State z = StateUnusedFlag.

Definition same_groups h h' : Prop :=
  Work h' = Work h /\ Back h' = Back h /\ seed h' = seed h /\ EnableHealthMgr h' = EnableHealthMgr h /\
  forall p s, switches h !! p = Some s -> switches h' !! p = Some s.

Definition ticked sshift h h' : Prop := hm_ok h' /\ same_groups h h' /\ (quiet h h' \/ proposed sshift h h').

Lemma same_person_trans x y z : same_person x y -> same_person y z -> same_person x z.
Proof. unfold same_person. intuition congruence. Qed.

Lemma quiet_same h h' : curSwitch h' = curSwitch h -> healths h' = healths h -> quiet h h'.
Proof. intros H1 H2. split_and!; [done|by rewrite H2|]. intros p x Hx. exists x. rewrite H2. by split_and!. Qed.

Lemma quiet_back h h' p y : quiet h h' -> healths h' !! p = Some y -> exists x,
  healths h !! p = Some x /\ same_person x y /\ Health.State y = Health.State x.
Proof.
  intros (_ & Hl & Hq) Hy. destruct (lookup_lt_is_Some_2 (healths h) p) as [x Hx].
  { rewrite <- Hl. by eapply lookup_lt_Some. }
  destruct (Hq p x Hx) as (y' & Hy' & ? & ? & _). exists x. rewrite Hy in Hy'. injection Hy' as <-. done.
Qed.

Lemma watched_same x y : same_person x y -> Health.State y = Health.State x -> watched y = watched x.
Proof. unfold same_person, watched. by intros (_ & -> & _ & ->) ->. Qed.

Lemma quiet_trans h1 h2 h3 : quiet h1 h2 -> quiet h2 h3 -> quiet h1 h3.
Proof.
  intros (A1 & L1 & A2) (B1 & L2 & B2). split_and!; [congruence|congruence|]. intros p x Hx. destruct (A2 p x Hx) as (y & Hy & S1 & T1 & W1).
  destruct (B2 p y Hy) as (z & Hz & S2 & T2 & W2). exists z. split_and!; [done|by eapply same_person_trans|congruence|].
  intros Hw. rewrite (W1 Hw) in *. by apply W2.
Qed.

Lemma ticked_trans sshift h1 h2 h3 : ticked sshift h1 h2 -> ticked sshift h2 h3 -> ticked sshift h1 h3.
Proof.
  intros (_ & (A1 & A2 & A3 & A4 & A5) & A) (O3 & (B1 & B2 & B3 & B4 & B5) & B). split; [done|]. split.
  { split_and!; try congruence. auto. }
  destruct A as [A|(E1 & E2 & sv & s & r & x & y & H1 & H2 & H3 & H4 & H5 & H6 & H7 & H8 & H9 & H10 & H11)],
    B as [B|(E1' & E2' & sv' & s' & r' & x' & y' & H1' & H2' & H3' & H4' & H5' & H6' & H7' & H8' & H9' & H10' & H11')].
  - left. by eapply quiet_trans.
  - right. pose proof A as (C1 & _). destruct (quiet_back _ _ _ _ A H5') as (x0 & X1 & X2 & X3). rewrite C1 in E2'. rewrite A1, A2 in H4'.
    rewrite A2, A3 in H11'. split_and!; [done|done|]. exists sv', s', r', x0, y'. split_and!; try done.
    + by rewrite <- (watched_same x0 x').
    + by eapply same_person_trans.
    + intros a Ha. destruct (H11' a Ha) as (Hin & z & Hz & Hs). split; [done|].
      destruct (quiet_back _ _ _ _ A Hz) as (z0 & Z1 & _ & Z3). exists z0. split; [done|congruence].
  - right. destruct B as (C1 & _ & C2). split_and!; [done|done|]. destruct (C2 r y H7) as (y1 & Y1 & _ & _ & Y4).
    rewrite (Y4 ltac:(unfold watched; by rewrite H9)) in Y1. exists sv, s, r, x, y. split_and!; try done; [by rewrite C1|by apply B5].
  - exfalso. rewrite H1 in E2'. discriminate E2'.
Qed.

Lemma switch_ok_len h h' s : length (healths h') = length (healths h) -> switch_ok h s -> switch_ok h' s.
Proof.
  intros Hl [(r & Hr & H1) H2]. assert (forall p, is_Some (healths h !! p) -> is_Some (healths h' !! p)) as Hp.
  { intros p. rewrite !lookup_lt_is_Some. lia. }
  split; [exists r; auto|auto].
Qed.

(** Changing members leaves the references valid. *)
Lemma putH_ok h p x : hm_ok h -> hm_ok (putH h p x).
Proof.
  intros [O1 O2 O3]. assert (length (healths (putH h p x)) = length (healths h)) as Hl by apply length_insert.
  split; cbn -[putH].
  - intros q Hq. destruct (O1 q Hq) as [z Hz]. apply lookup_lt_is_Some. rewrite Hl. by eapply lookup_lt_Some.
  - done.
  - intros q s Hs. eapply switch_ok_len; [exact Hl|]. by eapply O3.
Qed.

(** A new proposal that is not yet current. *)
Lemma newS_ok h s : hm_ok h -> switch_ok h s -> hm_ok (newS h s).2 /\ switches (newS h s).2 !! (newS h s).1 = Some s.
Proof.
  intros [O1 O2 O3] Hs. cbn. split; [|by apply list_lookup_middle]. split; cbn; [done| |].
  - intros p Hp. destruct (O2 p Hp) as [z Hz]. exists z. by apply lookup_app_l_Some.
  - intros p s' Hp. apply lookup_app_Some in Hp as [Hp|[_ Hp]]; [by eapply O3|].
    apply list_lookup_singleton_Some in Hp as [_ <-]. done.
Qed.

Lemma sent_ok h p : hm_ok h -> hm_ok (Switch h p).
Proof. by intros [O1 O2 O3]. Qed.

Lemma getH_ok h p : is_Some (healths h !! p) -> exists x, healths h !! p = Some x /\ getH h p = Ret x.
Proof. intros [x Hx]. exists x. unfold getH. by rewrite Hx. Qed.

(** The second half of a check changes no member and no current proposal. *)
Lemma restoreOne_ok sshift h : hm_ok h -> exists h', restoreOne h = Ret h' /\ ticked sshift h h'.
Proof.
  intros O. unfold restoreOne. assert (ticked sshift h h) as Hr by (split_and!; [done|done..|left; by apply quiet_same]).
  destruct (getCurSV h) as [sv|] eqn:Ec; [|by eexists].
  assert (is_Some (switches h !! sv)) as [s Hs].
  { apply (hm_cur _ O). unfold getCurSV in Ec. destruct (curSwitch h) as [|c l]; [done|]. injection Ec as ->. set_solver. }
  unfold getS. rewrite Hs. cbn [obind]. destruct (hm_switches _ O _ _ Hs) as [(r & -> & Hr') Ha].
  destruct (getH_ok h r Hr') as (x & Hx & ->). cbn [obind]. destruct (_ && _); [|by eexists]. cbn [newS].
  eexists. split; [done|]. destruct (newS_ok h (SwitchValidator.set_From s 1) O) as [O' _]; [exact (hm_switches _ O _ _ Hs)|].
  split; [by apply sent_ok|]. split; [split_and!; try done|left; by apply quiet_same].
  cbn. intros p s' Hp. by apply lookup_app_l_Some.
Qed.

(** [pickFrom] marks the first unused member. *)
Lemma pickFrom_ok h l : (forall p, p ∈ l -> is_Some (healths h !! p)) -> exists r h', pickFrom h l = Ret (r, h') /\
  match r with
  | None => h' = h
  | Some a => a ∈ l /\ exists z, healths h !! a = Some z /\ Health.State z = StateUnusedFlag /\
      h' = putH h a (Health.set_State z StateSwitchingFlag)
  end.
Proof.
  induction l as [|p l IH]; intros Hl; cbn; [by eexists _, _|].
  destruct (getH_ok h p (Hl p ltac:(set_solver))) as (x & Hx & ->). cbn [obind].
  destruct (Z.eqb_spec (Health.State x) StateUnusedFlag) as [Hs|_].
  - eexists _, _. split; [done|]. split; [set_solver|]. by exists x.
  - destruct IH as (r & h' & -> & Hr); [set_solver|]. eexists _, _. split; [done|]. destruct r as [a|]; [|done].
    destruct Hr as (? & Hr). split; [set_solver|done].
Qed.

Lemma pickUnuse_ok h : hm_ok h -> exists r h', pickUnuseValidator h = Ret (r, h') /\
  match r with
  | None => h' = h
  | Some a => a ∈ Back h ++ seed h /\ exists z, healths h !! a = Some z /\ Health.State z = StateUnusedFlag /\
      h' = putH h a (Health.set_State z StateSwitchingFlag)
  end.
Proof.
  intros O. unfold pickUnuseValidator. destruct (pickFrom_ok h (Back h)) as (r & h' & -> & Hr).
  { intros p Hp. apply (hm_members _ O). set_solver. }
  cbn [obind]. destruct r as [a|].
  - eexists _, _. split; [done|]. destruct Hr as [? Hr]. split; [set_solver|done].
  - subst h'. destruct (pickFrom_ok h (seed h)) as (r & h' & -> & Hr).
    { intros p Hp. apply (hm_members _ O). set_solver. }
    eexists _, _. split; [done|]. destruct r as [a|]; [|done]. destruct Hr as [? Hr]. split; [set_solver|done].
Qed.

(** The proposal for the silent member [v]. *)
Lemma make_ok h v back : hm_ok h -> is_Some (healths h !! v) -> (forall a, back = Some a -> is_Some (healths h !! a)) ->
  exists sv s h', makeSwitchValidators h v back "Switch" 0 = Ret (sv, h') /\ hm_ok h' /\ switches h' !! sv = Some s /\
    SwitchValidator.Remove s = Some v /\ SwitchValidator.Add s = back /\ same_groups h h' /\
    healths h' = healths h /\ curSwitch h' = curSwitch h.
Proof.
  intros O Hv Hb. unfold makeSwitchValidators. destruct (getH_ok h v Hv) as (x & _ & Ex).
  assert (exists vals, match back with
    | None => Ret []
    | Some a => let! x := getH h a in
        Ret [CommitteeMember.mk zeroAddress (BytesToAddress (Validator.Address (Health.Val x))) [] StateAppendFlag 0]
    end = Ret vals) as [vals ->].
  { destruct back as [a|]; [|by eexists]. destruct (getH_ok h a (Hb a eq_refl)) as (y & _ & ->). by eexists. }
  cbn [obind]. rewrite Ex. cbn [obind].
  match goal with |- context [newS ?h0 ?s0] => set (h1 := h0); set (s := s0) end.
  assert (hm_ok h1) as O1 by by destruct O.
  destruct (newS_ok h1 s O1) as [O2 Hs]; [split; [by exists v|done]|].
  exists (newS h1 s).1, s, (newS h1 s).2. split_and!; try done.
  unfold same_groups. split_and!; try done. cbn. intros p s' Hp. by apply lookup_app_l_Some.
Qed.

Lemma putH_groups h p x : same_groups h (putH h p x).
Proof. by unfold same_groups. Qed.

Lemma tick_quiet h v x n : healths h !! v = Some x -> watched x = true -> quiet h (putH h v (Health.set_Tick x n)).
Proof.
  intros Hx Hw. split_and!; [done|apply length_insert|]. intros p z Hz. cbn. destruct (decide (v = p)) as [<-|Hne].
  - rewrite Hx in Hz. injection Hz as <-. eexists. rewrite list_lookup_insert_eq by (by eapply lookup_lt_Some).
    split_and!; [done|done|done|]. congruence.
  - exists z. rewrite list_lookup_insert_ne by done. by split_and!.
Qed.

(** A proposal after the tick of [v]. *)
Lemma propose_ok h v y : hm_ok h -> v ∈ (Work h).*2 ++ Back h -> healths h !! v = Some y -> watched y = true ->
  HealthOut + 60 < Health.Tick y -> curSwitch h = [] -> exists h', (
    let! (back, h) := pickUnuseValidator h in
    let! (cur, h) := makeSwitchValidators h v back "Switch" 0 in
    let! x := getH h v in
    let h := putH h v (Health.set_State x StateSwitchingFlag) in
    Ret (Switch (setCurSV h cur) cur)) = Ret h' /\ ticked true h h'.
Proof.
  intros O Hin Hy Hw Ht Hcur. destruct (pickUnuse_ok h O) as (back & h1 & -> & Hback). cbn [obind].
  assert (hm_ok h1 /\ same_groups h h1 /\ healths h1 !! v = Some y /\ curSwitch h1 = [] /\
    length (healths h1) = length (healths h) /\ (forall a, back = Some a -> is_Some (healths h1 !! a))) as (O1 & G1 & V1 & C1 & L1 & B1).
  { destruct back as [a|]; [|subst h1; by split_and!]. destruct Hback as (Ha & z & Hz & Hs & ->).
    split_and!; [by apply putH_ok|apply putH_groups| |done|apply length_insert|].
    - cbn. rewrite list_lookup_insert_ne; [done|]. intros ->. rewrite Hy in Hz. injection Hz as <-. unfold watched in Hw. by rewrite Hs in Hw.
    - intros a' [= <-]. cbn. rewrite list_lookup_insert_eq by (by eapply lookup_lt_Some). by eexists. }
  destruct (make_ok h1 v back O1 ltac:(by eexists) B1) as (sv & s & h2 & -> & O2 & S2 & R2 & A2 & G2 & E2 & C2). cbn [obind].
  unfold getH. rewrite E2, V1. cbn [obind]. rewrite C1 in C2. unfold setCurSV. cbn [putH set_healths curSwitch]. rewrite C2.
  eexists. split; [done|]. destruct G1 as (g1 & g2 & g3 & g4 & g5), G2 as (k1 & k2 & k3 & k4 & k5). split_and!.
  - apply sent_ok. destruct (putH_ok h2 v (Health.set_State y StateSwitchingFlag) O2) as [P1 P2 P3]. split; cbn in *; [done| |done].
    intros p Hp. apply list_elem_of_singleton in Hp as ->. by eexists.
  - unfold same_groups. cbn. split_and!; try congruence. auto.
  - right. split_and!; [done|done|]. exists sv, s, v, y, (Health.set_State y StateSwitchingFlag). cbn. split_and!; try done.
    + rewrite E2, list_lookup_insert_eq; [done|]. by eapply lookup_lt_Some.
    + intros a Ha. rewrite A2 in Ha. rewrite Ha in Hback. destruct Hback as (? & z & ? & ? & _). split; [done|]. by exists z.
Qed.

Lemma tickOne_ok h v sshift : hm_ok h -> v ∈ (Work h).*2 ++ Back h -> exists h', tickOne h v sshift = Ret h' /\ ticked sshift h h'.
Proof.
  intros O Hin. unfold tickOne. destruct (getH_ok h v) as (x & Hx & ->); [apply (hm_members _ O); set_solver|]. cbn [obind].
  fold (watched x). assert (ticked sshift h h) as Hr by (split_and!; [done|done..|left; by apply quiet_same]).
  destruct (watched x) eqn:Hw; [|by eexists]. cbv zeta. set (y := Health.set_Tick x (i32 (Health.Tick x + 1))).
  assert (ticked sshift h (putH h v y)) as H1.
  { split_and!; [by apply putH_ok|apply putH_groups|left]. by apply tick_quiet. }
  destruct (sshift && (HealthOut + 60 <? i32 (Health.Tick x + 1))) eqn:Ec; [|by eexists].
  apply andb_true_iff in Ec as [-> Ht]. apply Z.ltb_lt in Ht.
  destruct (getCurSV (putH h v y)) as [c|] eqn:Ecur; [by eexists|].
  destruct (propose_ok (putH h v y) v y) as (h' & Eh & H2); [by apply putH_ok|done| |done|done| |].
  - cbn. rewrite list_lookup_insert_eq; [done|]. by eapply lookup_lt_Some.
  - unfold getCurSV in Ecur. cbn in Ecur. cbn. by destruct (curSwitch h).
  - exists h'. split; [exact Eh|]. by eapply ticked_trans.
Qed.

Lemma checkAll_ok l sshift h : hm_ok h -> l ⊆ (Work h).*2 ++ Back h -> exists h', checkAll h l sshift = Ret h' /\ ticked sshift h h'.
Proof.
  revert h. induction l as [|v l IH]; intros h O Hl; cbn.
  - eexists. split; [done|]. split_and!; [done|done..|left; by apply quiet_same].
  - unfold checkSwitchValidator. destruct (tickOne_ok h v sshift O) as (h1 & -> & T1); [set_solver|]. cbn [obind].
    pose proof T1 as (O1 & _). destruct (restoreOne_ok sshift h1 O1) as (h2 & -> & T2). cbn [obind].
    pose proof (ticked_trans _ _ _ _ T1 T2) as T12. pose proof T12 as (O2 & (G1 & G2 & _) & _).
    destruct (IH h2 O2) as (h3 & -> & T3); [rewrite G1, G2; set_solver|]. eexists. split; [done|]. by eapply ticked_trans.
Qed.

(** What a tick may do.  With valid references the ticks of the health manager
    never panic and leave the references valid; at most one proposal is made, only
    when there is none, shifts are allowed and the manager is enabled: it removes a
    member in use, neither fixed nor the node itself, that was silent for more than
    the limit, and adds a member that was unused, if any; all other members keep
    their state, and those that are not watched their ticks. *)
Theorem work_proposes h sshift : hm_ok h -> exists h', work h sshift = Ret h' /\ hm_ok h' /\
  Work h' = Work h /\ Back h' = Back h /\ seed h' = seed h /\
  (quiet h h' \/ EnableHealthMgr h = true /\ proposed sshift h h').
Proof.
  intros O. unfold work. destruct (EnableHealthMgr h); cbn [negb].
  - destruct (checkAll_ok ((Work h).*2 ++ Back h) sshift h O) as (h' & -> & O' & (G1 & G2 & G3 & _) & [T|T]); [done|..]; exists h'; split_and!; auto.
  - exists h. split_and!; try done. left. by apply quiet_same.
Qed.

(** A started manager does nothing.  [OnStart] clears the enabling flag before
    it tests it: a manager that was started does not tick, makes no proposal,
    ignores the results of switches and refuses every proposed switch. *)
Theorem OnStart_disables h : EnableHealthMgr (OnStart h) = false /\ ticking (OnStart h) = ticking h /\
  (forall sshift, work (OnStart h) sshift = Ret (OnStart h)) /\
  (forall res, switchResult (OnStart h) res = Ret (OnStart h)) /\
  forall sv, VerifySwitch (OnStart h) sv = Ret false.
Proof.
  unfold OnStart. cbn [set_enable EnableHealthMgr ticking]. rewrite andb_false_r. by split_and!.
Qed.
End Ticks.

(** A member that has been silent for long, and an unused backup. *)
Definition demoMember (k : byte) (state tick : Z) : Health.t :=
  Health.mk demoLib "n" "" 0 tick state TypeWorked (Validator.mk demoLib [k] k 10 0) false.
Definition demoMgr : HealthMgr.t :=
  HealthMgr.mk demoLib [demoMember Byte.x01 StateUsedFlag 5000; demoMember Byte.x02 StateUnusedFlag 0] [] [("n"%string, 0%nat)] [1%nat] []
    [] [] 1 1 true true.

Lemma demoWork : match HealthMgr.work demoMgr true with Ret h => HealthMgr.curSwitch h = [0%nat] | Panic _ => False end.
Proof. vm_compute. reflexivity. Qed.

Lemma work_proposes_witness : exists h', HealthMgr.work demoMgr true = Ret h' /\ HealthMgr.curSwitch h' = [0%nat] /\
  proposed true demoMgr h'.
Proof.
  destruct (work_proposes demoMgr true) as (h' & Hw & _ & _ & _ & _ & Hp).
  - split.
    + intros p Hp. change (p ∈ [0%nat; 1%nat]) in Hp. apply elem_of_cons in Hp as [->|Hp]; [by eexists|].
      apply list_elem_of_singleton in Hp as ->. by eexists.
    + intros p Hp. by apply elem_of_nil in Hp.
    + intros p s Hs. change ([] !! p = Some s) in Hs. discriminate Hs.
  - pose proof demoWork as Hd. rewrite Hw in Hd. exists h'. split; [exact Hw|]. split; [exact Hd|].
    destruct Hp as [[Hq _]|[_ Hp]]; [rewrite Hd in Hq; discriminate Hq|exact Hp].
Defined.
