(* ===== verification/StateAgent.v ===== *)
(** * The state agent and the block store

    Models the [StateAgentImpl] of [consensus/tbft/types/priv_validator.go] and the
    [BlockStore] of [datas.go].  The agent that makes, verifies and broadcasts
    blocks ([PbftAgentProxy]), the block type it hands out and the clock are the
    class [Env]: a call may change the world behind it.  A block is a pointer; its
    header does not change, the signatures that [SetSign] stores in it are part of
    the world.  Part sets are shared by pointer too, as indices into a heap. *)

From stdpp Require Import sorting.
From S2P Require Import Prelude BitArray Types Validator VoteSet PrivValidator PartSet Health.

Class Env := {
  (** The agent, the contents of the blocks and the clock. *)
  world : Type;
  (** [*ctypes.Block] and its methods. *)
  Block : Type;
  BlockHash : Block -> bytes;
  NumberU64 : Block -> Z;
  numTransactions : Block -> Z;
  IsProposal : Block -> bool;
  SwitchInfos : Block -> option (list CommitteeMember.t);
  SetSign : Block -> list PbftSign.t -> world -> world;
  (** RLP of a block, and amino with a length prefix. *)
  EncodeToBytes : Block -> world -> option bytes;
  DecodeBytes : bytes -> world -> (string + Block) * world;
  MarshalBinary : bytes -> string + bytes;
  UnmarshalBinaryReader : bytes -> Z -> string + bytes;
  (** [PbftAgentProxy]. *)
  FetchFastBlock : Z -> option (list CommitteeMember.t) -> world -> option Block * option string * world;
  VerifyFastBlock : Block -> bool -> world -> option PbftSign.t * option string * world;
  BroadcastConsensus : Block -> world -> option string * world;
  GetCurrentHeight : world -> Z * world;
  GetFastLastProposer : world -> bytes * world;
  (** [time.Now]. *)
  Now : world -> Z * world
}.

(** The height of the chain behind the agent. *)
Definition chainHeight {E : Env} (w : world) : Z := (GetCurrentHeight w).1.

(** What the machine relies on: the chain behind the agent never gets shorter and
    grows with a block that was broadcast as committed; the agent signs the hash of
    the block it was asked about; the hash of a header fixes the block number in
    it. *)
Class EnvLaws (E : Env) : Prop := {
  height_nonneg w : 0 <= chainHeight w;
  SetSign_height b l w : chainHeight w <= chainHeight (SetSign b l w);
  DecodeBytes_height x w : chainHeight w <= chainHeight (DecodeBytes x w).2;
  FetchFastBlock_height c l w : chainHeight w <= chainHeight (FetchFastBlock c l w).2;
  VerifyFastBlock_height b r w : chainHeight w <= chainHeight (VerifyFastBlock b r w).2;
  GetCurrentHeight_height w : chainHeight w <= chainHeight (GetCurrentHeight w).2;
  GetFastLastProposer_height w : chainHeight w <= chainHeight (GetFastLastProposer w).2;
  Now_height w : chainHeight w <= chainHeight (Now w).2;
  BroadcastConsensus_height b w : chainHeight w <= chainHeight (BroadcastConsensus b w).2;
  BroadcastConsensus_grows b w w' : BroadcastConsensus b w = (None, w') -> chainHeight w < chainHeight w';
  VerifyFastBlock_signs b r w sg err w' : VerifyFastBlock b r w = (Some sg, err, w') -> PbftSign.FastHash sg = BlockHash b;
  BlockHash_number b1 b2 : BlockHash b1 = BlockHash b2 -> NumberU64 b1 = NumberU64 b2
}.

Definition MaxLimitBlockStore : Z := 200.
Definition MaxBlockBytes : Z := 1048510.
Definition BlockPartSizeBytes : Z := 65536.

(** ** Blocks and their parts *)

Section BlockParts.
Context {L : Lib} {E : Env}.

Definition MakePartSet (partSize : Z) (block : Block) (w : world) : outcome (string + PartSet.t) :=
  match EncodeToBytes block w with
  | None => Panic "rlp"
  | Some bzs =>
      match MarshalBinary bzs with
      | inl err => Ret (inl err)
      | inr bz => let! ps := PartSet.NewPartSetFromData bz partSize in Ret (inr ps)
      end
  end.

(** The bytes the reader over the parts gives; it panics on a missing part. *)
Fixpoint readParts (l : list (option Part.t)) : outcome bytes :=
  match l with
  | [] => Ret []
  | None :: _ => Panic "nil pointer dereference"
  | Some p :: l' => let! b := readParts l' in Ret (Part.Bytes p ++ b)
  end.

Definition MakeBlockFromPartSet (ps : PartSet.t) (w : world) : outcome ((string + Block) * world) :=
  if PartSet.IsComplete ps then
    let! _ := PartSet.GetReader ps in
    let! data := readParts (PartSet.parts ps) in
    match UnmarshalBinaryReader data MaxBlockBytes with
    | inl err => Ret (inl err, w)
    | inr b => Ret (DecodeBytes b w)
    end
  else Ret (inl "not complete", w).
End BlockParts.

(** ** The agent *)

Module StateAgentImpl.
Record t {L : Lib} {E : Env} := mk {
  Agent : world;
  Validators : ValidatorSet.t;
  ids : option (list string);
  ChainID : string;
  LastHeight : Z;
  BeginHeight : Z;
  EndHeight : Z;
  CID : Z
}.
Arguments t : clear implicits.
Arguments t {L E}.

Section Ops.
Context {L : Lib} {E : Env}.

(** The keys of [MakeIDs]: the addresses in hexadecimal. *)
Definition MakeIDs (vals : ValidatorSet.t) : option (list string) :=
  match ValidatorSet.Validators vals with
  | [] => None
  | l => Some ((fun v => hexString (Validator.Address v)) <$> l)
  end.

Definition set_Agent (s : t) (w : world) : t :=
  mk L E w (Validators s) (ids s) (ChainID s) (LastHeight s) (BeginHeight s) (EndHeight s) (CID s).
Definition set_Validators (s : t) (v : ValidatorSet.t) : t :=
  mk L E (Agent s) v (ids s) (ChainID s) (LastHeight s) (BeginHeight s) (EndHeight s) (CID s).
Definition set_ids (s : t) (x : option (list string)) : t :=
  mk L E (Agent s) (Validators s) x (ChainID s) (LastHeight s) (BeginHeight s) (EndHeight s) (CID s).
Definition set_heights (s : t) (last begin end_ : Z) : t :=
  mk L E (Agent s) (Validators s) (ids s) (ChainID s) last begin end_ (CID s).

Definition NewStateAgent (agent : world) (chainID : string) (vals : ValidatorSet.t) (height cid : Z) : t :=
  let (lh, w) := GetCurrentHeight agent in
  mk L E w vals (MakeIDs vals) chainID (u64 lh) height 0 cid.

(** [None] is a nil error. *)
Definition HasPeerID (s : t) (id : string) : option string :=
  match ids s with
  | None => Some "validators is nil"
  | Some l => if existsb (fun x => bool_decide (x = id)) l then None else Some "the peerid is not in validators"
  end.

Definition GetLastBlockHeight (s : t) : Z * t :=
  let (lh, w) := GetCurrentHeight (Agent s) in
  (u64 lh, set_heights (set_Agent s w) (u64 lh) (BeginHeight s) (EndHeight s)).

Definition SetEndHeight (s : t) (h : Z) : t :=
  let (_, w) := GetCurrentHeight (Agent s) in
  set_heights (set_Agent s w) (LastHeight s) (BeginHeight s) h.

Definition SetBeginHeight (s : t) (h : Z) : t :=
  if (0 <? EndHeight s) && (h <? EndHeight s) then
    let (_, w) := GetCurrentHeight (Agent s) in
    set_heights (set_Agent s w) (LastHeight s) h (EndHeight s)
  else s.

Definition UpdateValidator (s : t) (vset : ValidatorSet.t) (makeids : bool) : t :=
  let s := set_Validators s vset in
  if makeids then set_ids s (MakeIDs vset) else s.

Definition GetLastValidatorAddress (s : t) : bytes * t :=
  let (a, w) := GetFastLastProposer (Agent s) in (a, set_Agent s w).

(** Whether the block's height is in the range of the committee. *)
Definition outOfRange (s : t) (block : Block) : option string :=
  if (0 <? EndHeight s) && (EndHeight s <? NumberU64 block) then Some "over height range"
  else if NumberU64 block <? BeginHeight s then Some "no more height"
  else None.

Definition MakeBlock (s : t) (infos : option (list CommitteeMember.t))
    : outcome (option Block * option string * t) :=
  let '(block, err, w) := FetchFastBlock (CID s) infos (Agent s) in
  let s := set_Agent s w in
  match err with
  | Some e => Ret (None, Some e, s)
  | None =>
      match block with
      | None => Panic "nil pointer dereference"
      | Some b =>
          match outOfRange s b with
          | Some e => Ret (None, Some e, s)
          | None => Ret (Some b, None, s)
          end
      end
  end.

Definition ConsensusCommit (s : t) (block : option Block) : option string * t :=
  match block with
  | None => (Some "error param", s)
  | Some b => let (err, w) := BroadcastConsensus b (Agent s) in (err, set_Agent s w)
  end.

(** The log line reads the signature before it is known not to be nil. *)
Definition ValidateBlock (s : t) (block : option Block) (result : bool)
    : outcome (option KeepBlockSign.t * option string * t) :=
  match block with
  | None => Ret (None, Some "block not have", s)
  | Some b =>
      match outOfRange s b with
      | Some e => Ret (None, Some e, s)
      | None =>
          let '(sign, err, w) := VerifyFastBlock b result (Agent s) in
          match sign with
          | None => Panic "nil pointer dereference"
          | Some sg => Ret (Some (KeepBlockSign.mk (PbftSign.Result sg) (PbftSign.Sign sg) (PbftSign.FastHash sg)), err, set_Agent s w)
          end
      end
  end.
End Ops.
End StateAgentImpl.

(** ** The block store *)

Module BlockMeta.
Record t {E : Env} := mk {
  Block_ : Block;
  BlockID : BlockID.t;
  BlockPacks : option nat;
  SeenCommit : Commit.t;
  Proposal : option Proposal.t
}.
Arguments t : clear implicits.
Arguments t {E}.
End BlockMeta.

Module BlockStore.
Record t {E : Env} := mk { blocks : gmap Z BlockMeta.t }.
Arguments t : clear implicits.
Arguments t {E}.

Section Ops.
Context {L : Lib} {E : Env}.

Definition NewBlockStore : t := mk E ∅.

Definition LoadBlockMeta (b : t) (height : Z) : option BlockMeta.t := blocks b !! height.

(** A part of a stored block; [heap] holds the part sets. *)
Definition LoadBlockPart (heap : list PartSet.t) (b : t) (height index : Z) : outcome (option Part.t) :=
  match blocks b !! height with
  | None => Ret None
  | Some v =>
      match BlockMeta.BlockPacks v ≫= (heap !!.) with
      | None => Panic "nil pointer dereference"
      | Some ps => PartSet.GetPart ps index
      end
  end.

(** [for k := range b.blocks], in the order of one iteration. *)
Definition keys (b : t) : list Z := (map_to_list (blocks b)).*1.

Definition maxStep (cur k : Z) : Z :=
  let cur := if cur =? 0 then k else cur in if cur <? k then k else cur.
Definition minStep (cur k : Z) : Z :=
  let cur := if cur =? 0 then k else cur in if k <? cur then k else cur.

Definition MaxBlockHeight (b : t) : Z := foldl maxStep 0 (keys b).
Definition MinBlockHeight (b : t) : Z := foldl minStep 0 (keys b).

Definition LoadBlockCommit (b : t) (height : Z) : option Commit.t := BlockMeta.SeenCommit <$> blocks b !! height.

Definition SaveBlock (b : t) (block : Block) (blockParts : option nat) (seenCommit : Commit.t)
    (proposal : option Proposal.t) : outcome t :=
  let! b := if MaxLimitBlockStore <=? Z.of_nat (size (blocks b)) then
              let k := MinBlockHeight b in
              if k <=? 0 then Panic "block height is 0" else Ret (mk E (delete k (blocks b)))
            else Ret b in
  match blocks b !! NumberU64 block with
  | Some _ => Ret b
  | None =>
      Ret (mk E (<[NumberU64 block :=
             BlockMeta.mk E block (Commit.BlockID seenCommit) blockParts seenCommit proposal]> (blocks b)))
  end.
End Ops.
End BlockStore.

(** * The store keeps the latest blocks *)

Section Store.
Context {L : Lib} {E : Env}.
Implicit Types (b : BlockStore.t).

(** [least m l]: [m] is the least element of [l]. *)
Definition least (m : Z) (l : list Z) : Prop := m ∈ l /\ forall k, k ∈ l -> m <= k.

Lemma foldl_minStep l cur : 0 < cur -> Forall (Z.lt 0) l -> least (foldl BlockStore.minStep cur l) (cur :: l).
Proof.
  revert cur. induction l as [|k l IH]; intros cur Hc Hl; cbn [foldl].
  { split; [set_solver|]. intros k Hk. apply list_elem_of_singleton in Hk as ->. lia. }
  apply Forall_cons in Hl as [Hk Hl]. assert (BlockStore.minStep cur k = Z.min cur k) as ->.
  { unfold BlockStore.minStep. destruct (Z.eqb_spec cur 0); [lia|]. destruct (Z.ltb_spec k cur); lia. }
  destruct (IH (Z.min cur k)) as [H1 H2]; [lia|done|]. split.
  - apply elem_of_cons in H1 as [->|H1]; [|set_solver]. destruct (Z.min_spec cur k) as [[_ ->]|[_ ->]]; set_solver.
  - intros j Hj. assert (foldl BlockStore.minStep (Z.min cur k) l <= Z.min cur k) by (apply H2; set_solver).
    apply elem_of_cons in Hj as [->|Hj]; [lia|]. apply elem_of_cons in Hj as [->|Hj]; [lia|]. apply H2. set_solver.
Qed.

(** In whatever order the map is iterated. *)
Lemma minStep_least l : l <> [] -> Forall (Z.lt 0) l -> least (foldl BlockStore.minStep 0 l) l.
Proof.
  destruct l as [|k l]; [done|]. intros _ Hl. apply Forall_cons in Hl as [Hk Hl]. cbn [foldl]. unfold BlockStore.minStep at 2. cbn.
  rewrite Z.ltb_irrefl. by apply foldl_minStep.
Qed.

Lemma least_unique m m' l l' : least m l -> least m' l' -> l ≡ₚ l' -> m = m'.
Proof.
  intros [H1 H2] [H3 H4] Hp. apply Z.le_antisymm; [apply H2; by rewrite Hp|apply H4; by rewrite <- Hp].
Qed.

(** One save. *)
Definition entry : Type := Block * option nat * Commit.t * option Proposal.t.
Definition numberOf (e : entry) : Z := NumberU64 e.1.1.1.
Definition metaOf (e : entry) : Z * BlockMeta.t :=
  let '(blk, parts, commit, proposal) := e in
  (NumberU64 blk, BlockMeta.mk E blk (Commit.BlockID commit) parts commit proposal).
Definition save b (e : entry) : outcome BlockStore.t :=
  let '(blk, parts, commit, proposal) := e in BlockStore.SaveBlock b blk parts commit proposal.
Fixpoint saveAll b (l : list entry) : outcome BlockStore.t :=
  match l with [] => Ret b | e :: l' => let! b := save b e in saveAll b l' end.

(** A store that holds the entries of [w], in the order of their numbers. *)
Definition holds b (w : list entry) : Prop :=
  BlockStore.blocks b = list_to_map (metaOf <$> w) /\ StronglySorted Z.lt (numberOf <$> w) /\ Forall (Z.lt 0) (numberOf <$> w).

Lemma metaOf_fst w : (metaOf <$> w).*1 = numberOf <$> w.
Proof. induction w as [|[[[? ?] ?] ?] w IH]; [done|]. cbn. by rewrite IH. Qed.

Lemma sorted_NoDup (l : list Z) : StronglySorted Z.lt l -> NoDup l.
Proof. induction 1 as [|a l _ IH Ha]; constructor; [|done]. intros Hin. rewrite Forall_forall in Ha. apply Ha in Hin. lia. Qed.

Lemma holds_keys b w : holds b w -> BlockStore.keys b ≡ₚ numberOf <$> w.
Proof.
  intros (H1 & H2 & _). unfold BlockStore.keys. rewrite H1, map_to_list_to_map; [by rewrite metaOf_fst|].
  rewrite metaOf_fst. by apply sorted_NoDup.
Qed.

Lemma holds_size b w : holds b w -> size (BlockStore.blocks b) = length w.
Proof.
  intros Hb. pose proof (Permutation_length (holds_keys b w Hb)) as Hl. unfold BlockStore.keys in Hl.
  by rewrite !length_fmap, length_map_to_list in Hl.
Qed.

Lemma holds_min b e w : holds b (e :: w) -> BlockStore.MinBlockHeight b = numberOf e.
Proof.
  intros Hb. pose proof (holds_keys _ _ Hb) as Hk. destruct Hb as (_ & H2 & H3).
  assert (Forall (Z.lt 0) (BlockStore.keys b)) as Hpos by by rewrite Hk.
  eapply least_unique; [apply minStep_least; [|done]| |exact Hk].
  - intros H0. rewrite H0 in Hk. by apply Permutation_nil in Hk.
  - split; [set_solver|]. cbn in H2. apply StronglySorted_inv in H2 as [_ H2]. intros k Hk'. cbn in Hk'.
    apply elem_of_cons in Hk' as [->|Hk']; [lia|]. rewrite Forall_forall in H2. specialize (H2 k Hk'). lia.
Qed.

(** A block with a number after the others is added to what is left. *)
Lemma holds_snoc b w e : holds b w -> 0 < numberOf e -> Forall (fun n => n < numberOf e) (numberOf <$> w) ->
  BlockStore.blocks b !! numberOf e = None /\ holds (BlockStore.mk E (<[numberOf e := (metaOf e).2]> (BlockStore.blocks b))) (w ++ [e]).
Proof.
  intros (H1 & H2 & H3) Hpos Hlast. assert (numberOf e ∉ numberOf <$> w) as Hnot.
  { intros Hin. rewrite Forall_forall in Hlast. apply Hlast in Hin. lia. }
  assert (BlockStore.blocks b !! numberOf e = None) as Hn.
  { rewrite H1. apply not_elem_of_list_to_map_1. by rewrite metaOf_fst. }
  split; [done|]. split_and!; cbn.
  - rewrite fmap_app. cbn. rewrite H1. destruct e as [[[blk parts] c] pr]. cbn in *. symmetry. apply list_to_map_snoc. by rewrite metaOf_fst.
  - rewrite fmap_app. apply StronglySorted_app. split_and!; [|done|repeat constructor]. intros x1 x2 Hx1 Hx2. apply list_elem_of_singleton in Hx2 as ->.
    rewrite Forall_forall in Hlast. by apply Hlast.
  - rewrite fmap_app, Forall_app. split; [done|]. by apply Forall_singleton.
Qed.

(** The last [MaxLimitBlockStore] entries. *)
Definition window (l : list entry) : list entry := drop (length l - Z.to_nat MaxLimitBlockStore) l.

Lemma save_window b w e : holds b w -> (length w <= Z.to_nat MaxLimitBlockStore)%nat -> 0 < numberOf e ->
  Forall (fun n => n < numberOf e) (numberOf <$> w) -> exists b', save b e = Ret b' /\ holds b' (window (w ++ [e])).
Proof.
  intros Hb Hlen Hpos Hlast. destruct e as [[[blk parts] c] pr] eqn:Ee. cbn [save]. unfold BlockStore.SaveBlock.
  rewrite (holds_size _ _ Hb). change (NumberU64 blk) with (numberOf (blk, parts, c, pr)).
  unfold window. rewrite length_app. cbn [length].
  destruct (Z.leb_spec MaxLimitBlockStore (Z.of_nat (length w))) as [Hfull|Hfull].
  - destruct w as [|e0 w]; [done|]. rewrite (holds_min _ _ _ Hb). destruct Hb as (H1 & H2 & H3). cbn in H2, H3, Hlast, Hlen, Hfull.
    apply Forall_cons in H3 as [Hp0 H3]. apply StronglySorted_inv in H2 as [H2 Hlt]. apply Forall_cons in Hlast as [_ Hlast].
    destruct (Z.leb_spec (numberOf e0) 0); [lia|]. cbn [obind].
    assert (holds (BlockStore.mk E (delete (numberOf e0) (BlockStore.blocks b))) w) as Hb'.
    { split_and!; [|done|done]. cbn. rewrite H1. destruct e0 as [[[blk0 parts0] c0] pr0]. cbn. apply delete_insert_id.
      apply not_elem_of_list_to_map_1. rewrite metaOf_fst. intros Hin. rewrite Forall_forall in Hlt. apply Hlt in Hin. exact (Z.lt_irrefl _ Hin). }
    destruct (holds_snoc _ _ _ Hb' Hpos Hlast) as [Hnone Hsn]. rewrite Hnone. eexists. split; [done|].
    replace (length (e0 :: w) + 1 - Z.to_nat MaxLimitBlockStore)%nat with 1%nat by (cbn; lia). exact Hsn.
  - cbn [obind]. destruct (holds_snoc _ _ _ Hb Hpos Hlast) as [Hnone Hsn]. rewrite Hnone. eexists. split; [done|].
    replace (length w + 1 - Z.to_nat MaxLimitBlockStore)%nat with 0%nat by lia. exact Hsn.
Qed.

Lemma window_snoc l e : window (window l ++ [e]) = window (l ++ [e]).
Proof.
  unfold window. rewrite !length_app, length_drop. cbn [length]. set (n := Z.to_nat MaxLimitBlockStore). assert (0 < n)%nat by (subst n; unfold MaxLimitBlockStore; lia).
  rewrite !drop_app_le by (rewrite ?length_drop; lia). rewrite drop_drop. f_equal. f_equal. lia.
Qed.

Lemma saveAll_snoc b l e : saveAll b (l ++ [e]) = obind (saveAll b l) (fun b => save b e).
Proof.
  revert b. induction l as [|e0 l IH]; intros b; cbn; [by destruct (save b e)|].
  destruct (save b e0); cbn; [apply IH|done].
Qed.

Lemma saveAll_window l : StronglySorted Z.lt (numberOf <$> l) -> Forall (Z.lt 0) (numberOf <$> l) ->
  exists b, saveAll BlockStore.NewBlockStore l = Ret b /\ holds b (window l).
Proof.
  induction l as [|e l IH] using rev_ind; intros Hs Hp.
  { eexists. split; [done|]. split_and!; [done|constructor|done]. }
  rewrite fmap_app in Hs, Hp. apply StronglySorted_app in Hs as (Hlt & Hs & _). apply Forall_app in Hp as [Hp He].
  destruct (IH Hs Hp) as (b & Eb & Hb). rewrite saveAll_snoc, Eb. cbn [obind]. rewrite <- window_snoc.
  apply save_window; [done| | |].
  - unfold window. rewrite length_drop. lia.
  - by apply Forall_cons in He as [? _].
  - apply Forall_forall. intros n Hn. apply Hlt; [|set_solver]. unfold window in Hn.
    apply list_elem_of_fmap in Hn as (x & -> & Hx). apply list_elem_of_fmap. exists x. split; [done|].
    apply list_elem_of_lookup in Hx as [i Hi]. rewrite lookup_drop in Hi. by eapply list_elem_of_lookup_2.
Qed.

(** The store keeps the latest blocks.  Blocks saved with increasing positive
    numbers are never refused with a panic, and the store then holds exactly the
    last 200 of them, each with its commit; in whatever order the map is iterated,
    the block that makes room is the one with the least number. *)
Theorem BlockStore_keeps_latest l : StronglySorted Z.lt (numberOf <$> l) -> Forall (Z.lt 0) (numberOf <$> l) ->
  exists b, saveAll BlockStore.NewBlockStore l = Ret b /\
    BlockStore.blocks b = list_to_map (metaOf <$> drop (length l - 200) l) /\
    (size (BlockStore.blocks b) <= 200)%nat /\
    (l <> [] -> forall ks, ks ≡ₚ BlockStore.keys b -> foldl BlockStore.minStep 0 ks = BlockStore.MinBlockHeight b /\
       least (BlockStore.MinBlockHeight b) (BlockStore.keys b)).
Proof.
  intros Hs Hp. destruct (saveAll_window l Hs Hp) as (b & Eb & Hb). exists b. pose proof (holds_size _ _ Hb) as Hsz.
  pose proof (holds_keys _ _ Hb) as Hk. split_and!; [done|apply Hb| |].
  - rewrite Hsz. unfold window, MaxLimitBlockStore. rewrite length_drop. lia.
  - intros Hne ks Hks. assert (Forall (Z.lt 0) (BlockStore.keys b)) as Hpos by (rewrite Hk; apply Hb).
    assert (BlockStore.keys b <> []) as Hn.
    { intros H0. rewrite H0 in Hk. apply Permutation_nil, fmap_nil_inv in Hk. unfold window in Hk.
      apply (f_equal length) in Hk. rewrite length_drop in Hk. unfold MaxLimitBlockStore in Hk. destruct l; [done|cbn [length] in Hk; lia]. }
    assert (ks <> []) as Hn' by (intros ->; by apply Permutation_nil_l in Hks).
    pose proof (minStep_least _ Hn Hpos) as Hl. split; [|done].
    eapply least_unique; [apply minStep_least; [done|by rewrite Hks]|exact Hl|done].
Qed.
End Store.

(** A chain of numbered blocks, made and accepted by the agent. *)
#[global] Instance demoEnv : Env := {|
  world := N * Z;
  Block := Byte.byte;
  BlockHash b := [b];
  NumberU64 b := Z.of_N (Byte.to_N b);
  numTransactions _ := 1;
  IsProposal _ := true;
  SwitchInfos _ := None;
  SetSign _ _ w := w;
  EncodeToBytes b _ := Some [b];
  DecodeBytes l w := (match l with [b] => inr b | _ => inl "rlp" end, w);
  MarshalBinary l := inr l;
  UnmarshalBinaryReader l _ := inr l;
  FetchFastBlock _ _ w := (Byte.of_N (w.1 + 1), None, w);
  VerifyFastBlock b _ w := (Some (PbftSign.mk (Z.of_N (Byte.to_N b)) [b] 1 [b]), None, w);
  BroadcastConsensus b w := (None, ((w.1 + 1)%N, w.2));
  GetCurrentHeight w := (Z.of_N w.1, w);
  GetFastLastProposer w := ([], w);
  Now w := (w.2, (w.1, w.2 + 1))
|}.

#[global] Instance demoEnvLaws : EnvLaws demoEnv.
Proof.
  split; unfold chainHeight; cbn; intros; try lia.
  - simplify_eq. cbn. lia.
  - by simplify_eq.
  - by simplify_eq.
Qed.

Definition demoEntry (x : Byte.byte) : entry :=
  (x, None, demoCommitFor (BlockID.mk [x] (PartSetHeader.mk 1 [x])), None).

Lemma BlockStore_keeps_latest_witness : exists b,
  saveAll BlockStore.NewBlockStore [demoEntry Byte.x03; demoEntry Byte.x05] = Ret b /\
  BlockStore.blocks b = list_to_map (metaOf <$> [demoEntry Byte.x03; demoEntry Byte.x05]) /\
  foldl BlockStore.minStep 0 (reverse (BlockStore.keys b)) = BlockStore.MinBlockHeight b.
Proof.
  destruct (BlockStore_keeps_latest [demoEntry Byte.x03; demoEntry Byte.x05]) as (b & H1 & H2 & _ & H4).
  - cbn. repeat constructor.
  - cbn. repeat constructor.
  - exists b. split; [exact H1|]. split; [exact H2|]. apply H4; [discriminate|]. apply reverse_Permutation.
Defined.
