(* ===== verification/RoundState.v ===== *)
(** * The state of the consensus machine

    Models the data of [consensus/tbft/types/round_state.go] and of the
    [ConsensusState] in [consensus/tbft/state.go]: the state of a round, the
    messages and timeouts it reacts to, and the machine's fields.  What the code
    sends to a channel, to the timers or to the event switch is appended to a
    list.  The handlers of [Consensus] are written in the monad [M] of the
    machine, in which a panic stops the run as it stops [receiveRoutine]. *)

From S2P Require Import Prelude Effects BitArray Types Validator VoteSet HeightVoteSet PrivValidator PartSet Health StateAgent.

Definition RoundStepNewHeight : Z := 1.
Definition RoundStepNewRound : Z := 2.
Definition RoundStepPropose : Z := 3.
Definition RoundStepPrevote : Z := 4.
Definition RoundStepPrevoteWait : Z := 5.
Definition RoundStepPrecommit : Z := 6.
Definition RoundStepPrecommitWait : Z := 7.
Definition RoundStepCommit : Z := 8.
Definition RoundStepBlockSync : Z := 238.

(** ** Messages and timeouts *)

(** A nil pointer in a message is [None]. *)
Inductive ConsensusMessage {L : Lib} :=
| ProposalMessage (p : option Proposal.t)
| BlockPartMessage (height round : Z) (part : option Part.t)
| VoteMessage (v : option Vote.t)
| ValidatorUpdateMessage (vset : ValidatorSet.t) (uHeight eHeight : Z).

Module msgInfo.
Record t {L : Lib} := mk { Msg : ConsensusMessage; PeerID : string }.
Arguments t : clear implicits.
Arguments t {L}.
End msgInfo.

Module timeoutInfo.
Record t := mk { Duration : Z; Height : Z; Round : Z; Step : Z; Wait : Z }.
End timeoutInfo.

Module CommitteeInfo.
Record t := mk { StartHeight : Z; Members : list CommitteeMember.t; BackMembers : list CommitteeMember.t }.
End CommitteeInfo.

(** [params.ConsensusConfig]. *)
Module Config.
Record t := mk {
  Propose : Z -> Z;
  Prevote : Z -> Z;
  Precommit : Z -> Z;
  Commit : Z -> Z;
  CatchupTime : Z -> Z;
  SkipTimeoutCommit : bool;
  CreateEmptyBlocks : bool;
  WaitForEmptyBlocks : Z -> bool;
  EmptyBlocksIntervalForPer : Z -> Z
}.
End Config.

(** ** The state of a round *)

(** [cs.Validators]: nil, the very set the state agent holds, or a copy. *)
Inductive valptr {L : Lib} := VNil | VAgent | VOwn (v : ValidatorSet.t).

(** Part sets are pointers into the heap of the machine; a zero [CommitTime] is
    [None]. *)
Module RoundState.
Record t {L : Lib} {E : Env} := mk {
  Height : Z;
  Round : Z;
  Step : Z;
  StartTime : Z;
  CommitTime : option Z;
  Validators : valptr;
  Proposal : option Proposal.t;
  ProposalBlock : option Block;
  ProposalBlockParts : option nat;
  LockedRound : Z;
  LockedBlock : option Block;
  LockedBlockParts : option nat;
  ValidRound : Z;
  ValidBlock : option Block;
  ValidBlockParts : option nat;
  Votes : option HeightVoteSet.t;
  CommitRound : Z;
  LastCommit : option VoteSet.t
}.
Arguments t : clear implicits.
Arguments t {L E}.

Section Setters.
Context {L : Lib} {E : Env}.
Definition set_Height (s : t) (x : Z) : t :=
  mk L E x (Round s) (Step s) (StartTime s) (CommitTime s) (Validators s) (Proposal s) (ProposalBlock s)
     (ProposalBlockParts s) (LockedRound s) (LockedBlock s) (LockedBlockParts s) (ValidRound s) (ValidBlock s)
     (ValidBlockParts s) (Votes s) (CommitRound s) (LastCommit s).
Definition set_Round (s : t) (x : Z) : t :=
  mk L E (Height s) x (Step s) (StartTime s) (CommitTime s) (Validators s) (Proposal s) (ProposalBlock s)
     (ProposalBlockParts s) (LockedRound s) (LockedBlock s) (LockedBlockParts s) (ValidRound s) (ValidBlock s)
     (ValidBlockParts s) (Votes s) (CommitRound s) (LastCommit s).
Definition set_Step (s : t) (x : Z) : t :=
  mk L E (Height s) (Round s) x (StartTime s) (CommitTime s) (Validators s) (Proposal s) (ProposalBlock s)
     (ProposalBlockParts s) (LockedRound s) (LockedBlock s) (LockedBlockParts s) (ValidRound s) (ValidBlock s)
     (ValidBlockParts s) (Votes s) (CommitRound s) (LastCommit s).
Definition set_StartTime (s : t) (x : Z) : t :=
  mk L E (Height s) (Round s) (Step s) x (CommitTime s) (Validators s) (Proposal s) (ProposalBlock s)
     (ProposalBlockParts s) (LockedRound s) (LockedBlock s) (LockedBlockParts s) (ValidRound s) (ValidBlock s)
     (ValidBlockParts s) (Votes s) (CommitRound s) (LastCommit s).
Definition set_CommitTime (s : t) (x : option Z) : t :=
  mk L E (Height s) (Round s) (Step s) (StartTime s) x (Validators s) (Proposal s) (ProposalBlock s)
     (ProposalBlockParts s) (LockedRound s) (LockedBlock s) (LockedBlockParts s) (ValidRound s) (ValidBlock s)
     (ValidBlockParts s) (Votes s) (CommitRound s) (LastCommit s).
Definition set_Validators (s : t) (x : valptr) : t :=
  mk L E (Height s) (Round s) (Step s) (StartTime s) (CommitTime s) x (Proposal s) (ProposalBlock s)
     (ProposalBlockParts s) (LockedRound s) (LockedBlock s) (LockedBlockParts s) (ValidRound s) (ValidBlock s)
     (ValidBlockParts s) (Votes s) (CommitRound s) (LastCommit s).
Definition set_Proposal (s : t) (x : option Proposal.t) : t :=
  mk L E (Height s) (Round s) (Step s) (StartTime s) (CommitTime s) (Validators s) x (ProposalBlock s)
     (ProposalBlockParts s) (LockedRound s) (LockedBlock s) (LockedBlockParts s) (ValidRound s) (ValidBlock s)
     (ValidBlockParts s) (Votes s) (CommitRound s) (LastCommit s).
Definition set_ProposalBlock (s : t) (x : option Block) : t :=
  mk L E (Height s) (Round s) (Step s) (StartTime s) (CommitTime s) (Validators s) (Proposal s) x
     (ProposalBlockParts s) (LockedRound s) (LockedBlock s) (LockedBlockParts s) (ValidRound s) (ValidBlock s)
     (ValidBlockParts s) (Votes s) (CommitRound s) (LastCommit s).
Definition set_ProposalBlockParts (s : t) (x : option nat) : t :=
  mk L E (Height s) (Round s) (Step s) (StartTime s) (CommitTime s) (Validators s) (Proposal s) (ProposalBlock
     s) x (LockedRound s) (LockedBlock s) (LockedBlockParts s) (ValidRound s) (ValidBlock s) (ValidBlockParts
     s) (Votes s) (CommitRound s) (LastCommit s).
Definition set_LockedRound (s : t) (x : Z) : t :=
  mk L E (Height s) (Round s) (Step s) (StartTime s) (CommitTime s) (Validators s) (Proposal s) (ProposalBlock
     s) (ProposalBlockParts s) x (LockedBlock s) (LockedBlockParts s) (ValidRound s) (ValidBlock s)
     (ValidBlockParts s) (Votes s) (CommitRound s) (LastCommit s).
Definition set_LockedBlock (s : t) (x : option Block) : t :=
  mk L E (Height s) (Round s) (Step s) (StartTime s) (CommitTime s) (Validators s) (Proposal s) (ProposalBlock
     s) (ProposalBlockParts s) (LockedRound s) x (LockedBlockParts s) (ValidRound s) (ValidBlock s)
     (ValidBlockParts s) (Votes s) (CommitRound s) (LastCommit s).
Definition set_LockedBlockParts (s : t) (x : option nat) : t :=
  mk L E (Height s) (Round s) (Step s) (StartTime s) (CommitTime s) (Validators s) (Proposal s) (ProposalBlock
     s) (ProposalBlockParts s) (LockedRound s) (LockedBlock s) x (ValidRound s) (ValidBlock s)
     (ValidBlockParts s) (Votes s) (CommitRound s) (LastCommit s).
Definition set_ValidRound (s : t) (x : Z) : t :=
  mk L E (Height s) (Round s) (Step s) (StartTime s) (CommitTime s) (Validators s) (Proposal s) (ProposalBlock
     s) (ProposalBlockParts s) (LockedRound s) (LockedBlock s) (LockedBlockParts s) x (ValidBlock s)
     (ValidBlockParts s) (Votes s) (CommitRound s) (LastCommit s).
Definition set_ValidBlock (s : t) (x : option Block) : t :=
  mk L E (Height s) (Round s) (Step s) (StartTime s) (CommitTime s) (Validators s) (Proposal s) (ProposalBlock
     s) (ProposalBlockParts s) (LockedRound s) (LockedBlock s) (LockedBlockParts s) (ValidRound s) x
     (ValidBlockParts s) (Votes s) (CommitRound s) (LastCommit s).
Definition set_ValidBlockParts (s : t) (x : option nat) : t :=
  mk L E (Height s) (Round s) (Step s) (StartTime s) (CommitTime s) (Validators s) (Proposal s) (ProposalBlock
     s) (ProposalBlockParts s) (LockedRound s) (LockedBlock s) (LockedBlockParts s) (ValidRound s) (ValidBlock
     s) x (Votes s) (CommitRound s) (LastCommit s).
Definition set_Votes (s : t) (x : option HeightVoteSet.t) : t :=
  mk L E (Height s) (Round s) (Step s) (StartTime s) (CommitTime s) (Validators s) (Proposal s) (ProposalBlock
     s) (ProposalBlockParts s) (LockedRound s) (LockedBlock s) (LockedBlockParts s) (ValidRound s) (ValidBlock
     s) (ValidBlockParts s) x (CommitRound s) (LastCommit s).
Definition set_CommitRound (s : t) (x : Z) : t :=
  mk L E (Height s) (Round s) (Step s) (StartTime s) (CommitTime s) (Validators s) (Proposal s) (ProposalBlock
     s) (ProposalBlockParts s) (LockedRound s) (LockedBlock s) (LockedBlockParts s) (ValidRound s) (ValidBlock
     s) (ValidBlockParts s) (Votes s) x (LastCommit s).
Definition set_LastCommit (s : t) (x : option VoteSet.t) : t :=
  mk L E (Height s) (Round s) (Step s) (StartTime s) (CommitTime s) (Validators s) (Proposal s) (ProposalBlock
     s) (ProposalBlockParts s) (LockedRound s) (LockedBlock s) (LockedBlockParts s) (ValidRound s) (ValidBlock
     s) (ValidBlockParts s) (Votes s) (CommitRound s) x.
End Setters.
End RoundState.

Inductive event {L : Lib} {E : Env} := EventNewRoundStep (rs : RoundState.t) | EventVote (v : Vote.t).

(** ** The machine *)

(** [privValidator] is the signer, which the machine and its state agent share;
    [timeoutTicker] and [timeoutTask] list the timeouts scheduled, [evsw] the
    events fired, [notified] the proposals offered to the health manager, whose
    switches [svs] points to; [partSets] is the heap of part sets. *)
Module ConsensusState.
Record t {L : Lib} {E : Env} := mk {
  rs : RoundState.t;
  privValidator : option privValidator.t;
  state : StateAgentImpl.t;
  blockStore : BlockStore.t;
  proposalForCatchup : option Proposal.t;
  internalMsgQueue : list msgInfo.t;
  timeoutTicker : list timeoutInfo.t;
  timeoutTask : list timeoutInfo.t;
  taskTimeOut : Z;
  nSteps : Z;
  evsw : list event;
  svs : list nat;
  notified : list nat;
  hm : option HealthMgr.t;
  cm : option CommitteeInfo.t;
  partSets : list PartSet.t
}.
Arguments t : clear implicits.
Arguments t {L E}.

Section Setters.
Context {L : Lib} {E : Env}.
Definition set_rs (s : t) (x : RoundState.t) : t :=
  mk L E x (privValidator s) (state s) (blockStore s) (proposalForCatchup s) (internalMsgQueue s)
     (timeoutTicker s) (timeoutTask s) (taskTimeOut s) (nSteps s) (evsw s) (svs s) (notified s) (hm s) (cm s)
     (partSets s).
Definition set_privValidator (s : t) (x : option privValidator.t) : t :=
  mk L E (rs s) x (state s) (blockStore s) (proposalForCatchup s) (internalMsgQueue s) (timeoutTicker s)
     (timeoutTask s) (taskTimeOut s) (nSteps s) (evsw s) (svs s) (notified s) (hm s) (cm s) (partSets s).
Definition set_state (s : t) (x : StateAgentImpl.t) : t :=
  mk L E (rs s) (privValidator s) x (blockStore s) (proposalForCatchup s) (internalMsgQueue s) (timeoutTicker
     s) (timeoutTask s) (taskTimeOut s) (nSteps s) (evsw s) (svs s) (notified s) (hm s) (cm s) (partSets s).
Definition set_blockStore (s : t) (x : BlockStore.t) : t :=
  mk L E (rs s) (privValidator s) (state s) x (proposalForCatchup s) (internalMsgQueue s) (timeoutTicker s)
     (timeoutTask s) (taskTimeOut s) (nSteps s) (evsw s) (svs s) (notified s) (hm s) (cm s) (partSets s).
Definition set_proposalForCatchup (s : t) (x : option Proposal.t) : t :=
  mk L E (rs s) (privValidator s) (state s) (blockStore s) x (internalMsgQueue s) (timeoutTicker s)
     (timeoutTask s) (taskTimeOut s) (nSteps s) (evsw s) (svs s) (notified s) (hm s) (cm s) (partSets s).
Definition set_internalMsgQueue (s : t) (x : list msgInfo.t) : t :=
  mk L E (rs s) (privValidator s) (state s) (blockStore s) (proposalForCatchup s) x (timeoutTicker s)
     (timeoutTask s) (taskTimeOut s) (nSteps s) (evsw s) (svs s) (notified s) (hm s) (cm s) (partSets s).
Definition set_timeoutTicker (s : t) (x : list timeoutInfo.t) : t :=
  mk L E (rs s) (privValidator s) (state s) (blockStore s) (proposalForCatchup s) (internalMsgQueue s) x
     (timeoutTask s) (taskTimeOut s) (nSteps s) (evsw s) (svs s) (notified s) (hm s) (cm s) (partSets s).
Definition set_timeoutTask (s : t) (x : list timeoutInfo.t) : t :=
  mk L E (rs s) (privValidator s) (state s) (blockStore s) (proposalForCatchup s) (internalMsgQueue s)
     (timeoutTicker s) x (taskTimeOut s) (nSteps s) (evsw s) (svs s) (notified s) (hm s) (cm s) (partSets s).
Definition set_taskTimeOut (s : t) (x : Z) : t :=
  mk L E (rs s) (privValidator s) (state s) (blockStore s) (proposalForCatchup s) (internalMsgQueue s)
     (timeoutTicker s) (timeoutTask s) x (nSteps s) (evsw s) (svs s) (notified s) (hm s) (cm s) (partSets s).
Definition set_nSteps (s : t) (x : Z) : t :=
  mk L E (rs s) (privValidator s) (state s) (blockStore s) (proposalForCatchup s) (internalMsgQueue s)
     (timeoutTicker s) (timeoutTask s) (taskTimeOut s) x (evsw s) (svs s) (notified s) (hm s) (cm s) (partSets
     s).
Definition set_evsw (s : t) (x : list event) : t :=
  mk L E (rs s) (privValidator s) (state s) (blockStore s) (proposalForCatchup s) (internalMsgQueue s)
     (timeoutTicker s) (timeoutTask s) (taskTimeOut s) (nSteps s) x (svs s) (notified s) (hm s) (cm s)
     (partSets s).
Definition set_svs (s : t) (x : list nat) : t :=
  mk L E (rs s) (privValidator s) (state s) (blockStore s) (proposalForCatchup s) (internalMsgQueue s)
     (timeoutTicker s) (timeoutTask s) (taskTimeOut s) (nSteps s) (evsw s) x (notified s) (hm s) (cm s)
     (partSets s).
Definition set_notified (s : t) (x : list nat) : t :=
  mk L E (rs s) (privValidator s) (state s) (blockStore s) (proposalForCatchup s) (internalMsgQueue s)
     (timeoutTicker s) (timeoutTask s) (taskTimeOut s) (nSteps s) (evsw s) (svs s) x (hm s) (cm s) (partSets
     s).
Definition set_hm (s : t) (x : option HealthMgr.t) : t :=
  mk L E (rs s) (privValidator s) (state s) (blockStore s) (proposalForCatchup s) (internalMsgQueue s)
     (timeoutTicker s) (timeoutTask s) (taskTimeOut s) (nSteps s) (evsw s) (svs s) (notified s) x (cm s)
     (partSets s).
Definition set_cm (s : t) (x : option CommitteeInfo.t) : t :=
  mk L E (rs s) (privValidator s) (state s) (blockStore s) (proposalForCatchup s) (internalMsgQueue s)
     (timeoutTicker s) (timeoutTask s) (taskTimeOut s) (nSteps s) (evsw s) (svs s) (notified s) (hm s) x
     (partSets s).
Definition set_partSets (s : t) (x : list PartSet.t) : t :=
  mk L E (rs s) (privValidator s) (state s) (blockStore s) (proposalForCatchup s) (internalMsgQueue s)
     (timeoutTicker s) (timeoutTask s) (taskTimeOut s) (nSteps s) (evsw s) (svs s) (notified s) (hm s) (cm s)
     x.
End Setters.
End ConsensusState.

(** ** The monad of the handlers *)

Abbreviation M := (ST ConsensusState.t).

Section Monad.
Context {L : Lib} {E : Env}.

(** A field of the round state, and its update. *)
Definition getr {A} (f : RoundState.t -> A) : M A := gets (fun s => f (ConsensusState.rs s)).
Definition modr (f : RoundState.t -> RoundState.t) : M unit :=
  modify (fun s => ConsensusState.set_rs s (f (ConsensusState.rs s))).

(** A call of the state agent. *)
Definition agent {A} (f : StateAgentImpl.t -> A * StateAgentImpl.t) : M A := fun s =>
  let (a, st) := f (ConsensusState.state s) in Ret (a, ConsensusState.set_state s st).

Lemma wp_agent {A} (f : StateAgentImpl.t -> A * StateAgentImpl.t) Q s :
  (forall a st, f (ConsensusState.state s) = (a, st) -> Q a (ConsensusState.set_state s st)) -> wp (agent f) Q s.
Proof. unfold wp, agent. destruct (f _) as [a st] eqn:Ef. auto. Qed.
End Monad.
