(* ===== verification/Consensus.v ===== *)
(** * The consensus state machine

    Models [consensus/tbft/state.go]: the transitions between the steps of a
    round, the votes and proposals the machine signs on the way, the lock, the
    commit of a block and the handlers of messages and timeouts.  Functions are in
    the order of their calls, which have no cycle.  [config] is the consensus
    configuration.  The log, the metrics and the locks of the code, and a
    deferred call after a panic, are left out: a panic stops the machine. *)

From S2P Require Import Prelude Effects BitArray Types Validator VoteSet HeightVoteSet PrivValidator PartSet Health StateAgent RoundState.

Inductive cs_error :=
| ErrInvalidProposalSignature
| ErrInvalidProposalPOLRound
| ErrAddingVote
| ErrVoteHeightMismatch
| ErrVote (e : vote_error)
| ErrPart (e : part_error)
| ErrBlock (why : string).

Module Consensus.
Section Ops.
Context {L : Lib} {E : Env} (config : Config.t).

(** ** Small steps *)

Definition updateHeight (height : Z) : M unit := modr (fun r => RoundState.set_Height r height).

Definition updateRoundStep (round step : Z) : M unit :=
  modr (fun r => RoundState.set_Step (RoundState.set_Round r (u64 round)) step).

Definition fire (e : event) : M unit :=
  modify (fun s => ConsensusState.set_evsw s (ConsensusState.evsw s ++ [e])).

Definition newStep : M unit :=
  modify (fun s => ConsensusState.set_nSteps s (i64 (ConsensusState.nSteps s + 1)));;
  r ← getr id;
  fire (EventNewRoundStep r).

(** [timeoutTicker.ScheduleTimeout]. *)
Definition scheduleTimeoutWithWait (ti : timeoutInfo.t) : M unit :=
  modify (fun s => ConsensusState.set_timeoutTicker s (ConsensusState.timeoutTicker s ++ [ti])).

Definition scheduleTimeout (duration height round step : Z) : M unit :=
  scheduleTimeoutWithWait (timeoutInfo.mk duration height (u64 round) step 1).

(** [timeoutTask.ScheduleTimeout]. *)
Definition scheduleTask (height round : Z) : M unit :=
  modify (fun s => ConsensusState.set_timeoutTask s
    (ConsensusState.timeoutTask s ++
     [timeoutInfo.mk (ConsensusState.taskTimeOut s) height round RoundStepBlockSync 0])).

Definition sendInternalMessage (m : ConsensusMessage) : M unit :=
  modify (fun s => ConsensusState.set_internalMsgQueue s
    (ConsensusState.internalMsgQueue s ++ [msgInfo.mk L m ""])).

Definition clock : M Z := agent (fun st =>
  let (t, w) := Now (StateAgentImpl.Agent st) in (t, StateAgentImpl.set_Agent st w)).

Definition lastBlockHeight : M Z := agent StateAgentImpl.GetLastBlockHeight.

Definition chainID : M string := gets (fun s => StateAgentImpl.ChainID (ConsensusState.state s)).

(** [cs.Votes], which is not nil. *)
Definition votes : M HeightVoteSet.t := v ← getr RoundState.Votes; nonNil v.
Definition putVotes (v : HeightVoteSet.t) : M unit := modr (fun r => RoundState.set_Votes r (Some v)).

(** [cs.Validators], which is not nil, and a change of the set it points to. *)
Definition validators : M ValidatorSet.t :=
  p ← getr RoundState.Validators;
  match p with
  | VNil => panic "nil pointer dereference"
  | VAgent => gets (fun s => StateAgentImpl.Validators (ConsensusState.state s))
  | VOwn v => mret v
  end.

Definition putValidators (v : ValidatorSet.t) : M unit :=
  p ← getr RoundState.Validators;
  match p with
  | VNil => panic "nil pointer dereference"
  | VAgent => modify (fun s => ConsensusState.set_state s (StateAgentImpl.set_Validators (ConsensusState.state s) v))
  | VOwn _ => modr (fun r => RoundState.set_Validators r (VOwn v))
  end.

(** [cs.Validators.GetProposer()]. *)
Definition getProposer : M (option Validator.t) :=
  vals ← validators;
  r ← lift (ValidatorSet.GetProposer vals);
  putValidators r.2;;
  mret r.1.

(** ** Part sets *)

Definition newPartSet (ps : PartSet.t) : M nat :=
  p ← gets (fun s => length (ConsensusState.partSets s));
  modify (fun s => ConsensusState.set_partSets s (ConsensusState.partSets s ++ [ps]));;
  mret p.

(** The part set behind a pointer; nil is [None]. *)
Definition partSet (p : option nat) : M (option PartSet.t) :=
  gets (fun s => p ≫= (ConsensusState.partSets s !!.)).

Definition putPartSet (p : nat) (ps : PartSet.t) : M unit :=
  modify (fun s => ConsensusState.set_partSets s (<[p := ps]> (ConsensusState.partSets s))).

(** [cs.ProposalBlock = nil; cs.ProposalBlockParts = NewPartSetFromHeader(header)]. *)
Definition resetProposalParts (header : PartSetHeader.t) : M unit :=
  modr (fun r => RoundState.set_ProposalBlock r None);;
  ps ← lift (PartSet.NewPartSetFromHeader header);
  p ← newPartSet ps;
  modr (fun r => RoundState.set_ProposalBlockParts r (Some p)).

(** Whether the block is there and hashes to the hash. *)
Definition hashesTo (b : option Block) (hash : bytes) : bool :=
  match b with None => false | Some b => EqualHashes (BlockHash b) hash end.

(** ** Switching members *)

Definition healthMgr : M HealthMgr.t := h ← gets ConsensusState.hm; nonNil h.
Definition putHealthMgr (h : HealthMgr.t) : M unit := modify (fun s => ConsensusState.set_hm s (Some h)).
Definition committee : M CommitteeInfo.t := c ← gets ConsensusState.cm; nonNil c.

Definition allMembers (c : CommitteeInfo.t) : list CommitteeMember.t :=
  CommitteeInfo.Members c ++ CommitteeInfo.BackMembers c.

(** Every member of [sw] is a member of the committee. *)
Definition knownMembers (sw mem : list CommitteeMember.t) : bool :=
  forallb (fun v => existsb (fun vm =>
    bytes_equal (CommitteeMember.CommitteeBase v) (CommitteeMember.CommitteeBase vm)) mem) sw.

Definition newSwitch (sw : list CommitteeMember.t) (remove add : option nat) : SwitchValidator.t :=
  SwitchValidator.mk remove add (Some sw) "" 0 0 0 0.

(** [cs.hm.GetHealth] of a member that has the flag. *)
Definition healthOf (m : option CommitteeMember.t) (flag : Z) : M (option nat) :=
  match m with
  | Some m =>
      if CommitteeMember.Flag m =? flag
      then h ← healthMgr; lift (HealthMgr.GetHealth h (CommitteeMember.CommitteeBase m))
      else mret None
  | None => mret None
  end.

Definition switchVerify (block : Block) : M bool :=
  match SwitchInfos block with
  | None | Some [] => mret false
  | Some sw =>
      if 2 <? zlen sw then
        c ← committee;
        mret (knownMembers sw (allMembers c))
      else
        let '(aEnter, rEnter) := match sw with [r] => (None, Some r) | a :: rest => (Some a, head rest) | [] => (None, None) end in
        add ← healthOf aEnter StateAppendFlag;
        remove ← healthOf rEnter StateRemovedFlag;
        match remove with
        | None => mret false
        | Some _ => h ← healthMgr; lift (HealthMgr.VerifySwitch h (newSwitch sw remove add))
        end
  end.

(** [(ksign, err)]. *)
Definition validateBlock (block : option Block) : M (option KeepBlockSign.t * option string) :=
  match block with
  | None => mret (None, Some "block is nil")
  | Some b =>
      res ← switchVerify b;
      let res := if zlen (default [] (SwitchInfos b)) =? 0 then true else res in
      st ← gets ConsensusState.state;
      r ← lift (StateAgentImpl.ValidateBlock st (Some b) res);
      modify (fun s => ConsensusState.set_state s r.2);;
      mret r.1
  end.

(** The first proposed switch if it is the given one; it is taken off the list. *)
Definition pickSwitchValidator (sv : nat) (byID : bool) : M nat :=
  l ← gets ConsensusState.svs;
  match l with
  | [] => mret sv
  | tmp :: rest =>
      h ← healthMgr;
      x ← lift (HealthMgr.getS h tmp);
      y ← lift (HealthMgr.getS h sv);
      if (byID && HealthMgr.Equal h x y) || (negb byID && HealthMgr.EqualWithRemove h x y)
      then modify (fun s => ConsensusState.set_svs s rest);; mret tmp
      else mret sv
  end.

Definition notifyHealthMgr (sv : nat) : M unit :=
  modify (fun s => ConsensusState.set_notified s (ConsensusState.notified s ++ [sv])).

Definition switchHandle (sv : option nat) : M unit :=
  match sv with
  | None => mret tt
  | Some p =>
      h ← healthMgr;
      x ← lift (HealthMgr.getS h p);
      if SwitchValidator.From x =? 0 then
        l ← gets ConsensusState.svs;
        when (zlen l =? 0) (modify (fun s => ConsensusState.set_svs s [p]))
      else if SwitchValidator.From x =? 1 then
        v ← pickSwitchValidator p true;
        h ← healthMgr;
        y ← lift (HealthMgr.getS h v);
        putHealthMgr (HealthMgr.putS h v (SwitchValidator.set_From y 1));;
        notifyHealthMgr v
      else mret tt
  end.

Definition swithResult (block : Block) : M unit :=
  let sw := SwitchInfos block in
  lh ← lastBlockHeight;
  c ← committee;
  if (u64 (lh + 1) =? u64 (CommitteeInfo.StartHeight c)) || (2 <? zlen (default [] sw)) then mret tt
  else match sw with
       | Some [aEnter; rEnter] =>
           modify (fun s => ConsensusState.set_state s
             (StateAgentImpl.SetEndHeight (ConsensusState.state s) (NumberU64 block)));;
           h ← healthMgr;
           r ← (if CommitteeMember.Flag aEnter =? StateAppendFlag then
                  add ← lift (HealthMgr.GetHealth h (CommitteeMember.CommitteeBase aEnter));
                  remove ← healthOf (Some rEnter) StateRemovedFlag;
                  mret (add, remove)
                else
                  remove ← healthOf (Some aEnter) StateRemovedFlag;
                  mret (None, remove));
           let '(add, remove) := r in
           match remove with
           | None => mret tt
           | Some _ =>
               let '(sv, h') := HealthMgr.newS h (newSwitch [aEnter; rEnter] remove add) in
               putHealthMgr h';;
               v ← pickSwitchValidator sv false;
               notifyHealthMgr v
           end
       | _ => mret tt
       end.

(** ** Signing votes *)

(** A missing signer panics. *)
Definition signer : M privValidator.t := pv ← gets ConsensusState.privValidator; nonNil pv.

(** [(vote, err)]; the clock is read for the vote and for the signer. *)
Definition signVote (typeB : Z) (hash : option bytes) (header : PartSetHeader.t) : M (Vote.t * option string) :=
  pv ← signer;
  vals ← validators;
  ix ← lift (ValidatorSet.GetByAddress vals (privValidator.GetAddress pv));
  height ← getr RoundState.Height;
  round ← getr RoundState.Round;
  ts ← clock;
  now ← clock;
  chain ← chainID;
  let vote := Vote.mk (privValidator.GetAddress pv) (u64 ix.1) height round VoteAgree ts typeB
                      (BlockID.mk (default [] hash) header) [] [] in
  r ← lift (privValidator.SignVote pv now chain vote);
  let '(err, vote, pv') := r in
  modify (fun s => ConsensusState.set_privValidator s (Some pv'));;
  mret (vote, err).

(** The signature the machine kept for a block: the one given, or the one of
    its own latest prevote for the hash. *)
Definition keptSign (hash : option bytes) (keepsign : option KeepBlockSign.t) : M (option KeepBlockSign.t) :=
  match hash, keepsign with
  | Some h, None =>
      v ← votes;
      round ← getr RoundState.Round;
      pv ← signer;
      lift (HeightVoteSet.GetSignsFromVote v (i64 round) h (privValidator.GetAddress pv))
  | _, _ => mret keepsign
  end.

Definition withResult (vote : Vote.t) (hash : option bytes) (keepsign : option KeepBlockSign.t) : Vote.t :=
  match hash, keepsign with
  | Some h, Some k =>
      if bytes_equal h (KeepBlockSign.Hash k)
      then Vote.set_Result vote (KeepBlockSign.Result k) (KeepBlockSign.Sign k) else vote
  | _, _ => vote
  end.

(** [hash] is nil for a vote for no block. *)
Definition signAddVote (typeB : Z) (hash : option bytes) (header : PartSetHeader.t)
    (keepsign : option KeepBlockSign.t) : M unit :=
  pv ← gets ConsensusState.privValidator;
  match pv with
  | None => mret tt
  | Some pv =>
      vals ← validators;
      has ← lift (ValidatorSet.HasAddress vals (privValidator.GetAddress pv));
      if negb has then mret tt
      else
        r ← signVote typeB hash header;
        match r.2 with
        | Some _ => mret tt
        | None =>
            k ← keptSign hash keepsign;
            sendInternalMessage (VoteMessage (Some (withResult r.1 hash k)))
        end
  end.

Definition voteNil (typeB : Z) : M unit := signAddVote typeB None PartSetHeader.empty None.

(** ** Prevote *)

Definition isProposalComplete : M bool :=
  p ← getr RoundState.Proposal;
  b ← getr RoundState.ProposalBlock;
  match p, b with
  | Some p, Some _ =>
      if i64 (Proposal.POLRound p) <? 0 then mret true
      else
        v ← votes;
        mret (VoteSet.HasTwoThirdsMajority (HeightVoteSet.Prevotes v (i64 (Proposal.POLRound p))))
  | _, _ => mret false
  end.

(** The prevote for a block and its parts, or for nil if it is not valid. *)
Definition prevoteFor (block : Block) (parts : option nat) : M unit :=
  k ← validateBlock (Some block);
  match k.1 with
  | None => voteNil VoteTypePrevote
  | Some ksign =>
      ps ← partSet parts;
      signAddVote VoteTypePrevote (Some (BlockHash block)) (PartSet.Header ps) (Some ksign)
  end.

Definition defaultDoPrevote (height round : Z) : M unit :=
  lockedBlock ← getr RoundState.LockedBlock;
  match lockedBlock with
  | Some b => parts ← getr RoundState.LockedBlockParts; prevoteFor b parts
  | None =>
      proposalBlock ← getr RoundState.ProposalBlock;
      match proposalBlock with
      | None => voteNil VoteTypePrevote
      | Some b => parts ← getr RoundState.ProposalBlockParts; prevoteFor b parts
      end
  end.

(** The guard of the transitions: the machine is at the height and before the
    step of the round. *)
Definition before (height round step : Z) (r : RoundState.t) : bool :=
  negb (negb (RoundState.Height r =? height) || (round <? i64 (RoundState.Round r)) ||
        ((i64 (RoundState.Round r) =? round) && (step <=? RoundState.Step r))).

Definition enterPrevote (height round : Z) : M unit :=
  ok ← getr (before height round RoundStepPrevote);
  when ok (
    _ ← isProposalComplete;
    defaultDoPrevote height round;;
    updateRoundStep round RoundStepPrevote;;
    newStep).

(** ** Propose *)

Definition isProposer : M bool :=
  p ← getr RoundState.Validators;
  match p with
  | VNil => mret false
  | _ =>
      proposer ← getProposer;
      pv ← gets ConsensusState.privValidator;
      mret (match proposer, pv with
            | Some p, Some pv => bytes_equal (Validator.Address p) (privValidator.GetAddress pv)
            | _, _ => false
            end)
  end.

(** The parts of a set, sent one by one. *)
Fixpoint sendParts (ps : PartSet.t) (i : Z) (n : nat) : M unit :=
  match n with
  | O => mret tt
  | S n' =>
      part ← lift (PartSet.GetPart ps i);
      height ← getr RoundState.Height;
      round ← getr RoundState.Round;
      sendInternalMessage (BlockPartMessage height round part);;
      sendParts ps (i + 1) n'
  end.

(** Sign and send the proposal of a block with its parts. *)
Definition proposeParts (height round : Z) (parts : option nat) : M unit :=
  v ← votes;
  let '(polRound, polBlockID) := HeightVoteSet.POLInfo v in
  ps ← partSet parts;
  ts ← clock;
  now ← clock;
  chain ← chainID;
  pv ← signer;
  r ← lift (privValidator.SignProposal pv now chain
              (NewProposal ts height round (PartSet.Header ps) (u64 polRound) polBlockID));
  let '(err, proposal, pv') := r in
  modify (fun s => ConsensusState.set_privValidator s (Some pv'));;
  match err with
  | Some _ => mret tt
  | None =>
      sendInternalMessage (ProposalMessage (Some proposal));;
      match ps with
      | None => mret tt
      | Some ps => sendParts ps 0 (Z.to_nat (i64 (PartSet.total ps)))
      end
  end.

Definition defaultDecideProposal (height round : Z) (blk : option Block) (bparts : option nat) : M unit :=
  lockedBlock ← getr RoundState.LockedBlock;
  validBlock ← getr RoundState.ValidBlock;
  match lockedBlock, validBlock with
  | Some _, _ => parts ← getr RoundState.LockedBlockParts; proposeParts height round parts
  | None, Some _ => parts ← getr RoundState.ValidBlockParts; proposeParts height round parts
  | None, None =>
      match blk, bparts with
      | Some _, Some parts => proposeParts height round (Some parts)
      | _, _ => mret tt
      end
  end.

(** The end of both ways into the propose step. *)
Definition proposeDone (height round : Z) : M unit :=
  updateRoundStep round RoundStepPropose;;
  newStep;;
  complete ← isProposalComplete;
  when complete (r ← getr RoundState.Round; enterPrevote height (i64 r)).

Definition enterPropose (height round : Z) (blk : option Block) (bparts : option nat) : M unit :=
  ok ← getr (before height round RoundStepPropose);
  when ok (
    scheduleTimeout (Config.Propose config round) height round RoundStepPropose;;
    mine ← isProposer;
    when mine (defaultDecideProposal height round blk bparts);;
    proposeDone height round).

(** The switch to propose with the next block: the whole committee at its first
    height, else the first of the list when its door is open. *)
Definition proposedSwitch (round : Z) : M (option (list CommitteeMember.t)) :=
  lh ← lastBlockHeight;
  c ← committee;
  if u64 (lh + 1) =? u64 (CommitteeInfo.StartHeight c) then mret (Some (allMembers c))
  else
    l ← gets ConsensusState.svs;
    match l with
    | [] => mret None
    | p :: _ =>
        h ← healthMgr;
        tmp ← lift (HealthMgr.getS h p);
        let open := (SwitchValidator.DoorCount tmp =? 0) || (BlackDoorCount <=? SwitchValidator.DoorCount tmp) in
        let tmp1 := if open && (SwitchValidator.Round tmp =? -1) then SwitchValidator.set_Round tmp round else tmp in
        let door := if BlackDoorCount <=? SwitchValidator.DoorCount tmp then 1
                    else i64 (SwitchValidator.DoorCount tmp + 1) in
        putHealthMgr (HealthMgr.putS h p (SwitchValidator.set_DoorCount tmp1 door));;
        mret (if open then Some (default [] (SwitchValidator.Infos tmp)) else None)
    end.

(** [(block, blockParts, err)]. *)
Definition createProposalBlock (round : Z) : M (option Block * option nat * option string) :=
  infos ← proposedSwitch round;
  st ← gets ConsensusState.state;
  r ← lift (StateAgentImpl.MakeBlock st infos);
  let '(block, err, st') := r in
  modify (fun s => ConsensusState.set_state s st');;
  match block, err with
  | Some b, None =>
      w ← gets (fun s => StateAgentImpl.Agent (ConsensusState.state s));
      parts ← lift (MakePartSet BlockPartSizeBytes b w);
      match parts with
      | inl e => mret (Some b, None, Some e)
      | inr ps => p ← newPartSet ps; mret (Some b, Some p, None)
      end
  | _, _ => mret (block, None, err)
  end.

(** Whether this node may propose: it is in the set and it is its turn. *)
Definition mayPropose : M bool :=
  pv ← gets ConsensusState.privValidator;
  match pv with
  | None => mret false
  | Some pv =>
      vals ← validators;
      has ← lift (ValidatorSet.HasAddress vals (privValidator.GetAddress pv));
      if negb has then mret false else isProposer
  end.

Definition tryEnterProposal (height round wait : Z) : M unit :=
  ok ← getr (before height round RoundStepPropose);
  when ok (
    mine ← mayPropose;
    made ← (if mine : bool then
              r ← createProposalBlock round;
              let '(block, parts, err) := r in
              mret (match block, err with
                    | Some b, None => if height =? NumberU64 b then Some (b, parts) else None
                    | _, _ => None
                    end)
            else mret None);
    match made with
    | None =>
        scheduleTimeout (Config.Propose config round) height round RoundStepPropose;;
        proposeDone height round
    | Some (b, parts) =>
        if (numTransactions b =? 0) && Config.CreateEmptyBlocks config && (round =? 0)
           && Config.WaitForEmptyBlocks config (i64 wait) && negb (IsProposal b)
        then scheduleTimeoutWithWait
               (timeoutInfo.mk (Config.EmptyBlocksIntervalForPer config (i64 wait)) height (u64 round)
                  RoundStepNewRound (u64 (wait + 1)))
        else enterPropose height round (Some b) parts
    end).

(** ** New round *)

Definition enterNewRound (height round : Z) : M unit :=
  r ← getr id;
  if negb (RoundState.Height r =? height) || (round <? i64 (RoundState.Round r)) ||
     ((i64 (RoundState.Round r) =? round) && negb (RoundState.Step r =? RoundStepNewHeight))
  then mret tt
  else
    _ ← clock;
    when (i64 (RoundState.Round r) <? round) (
      vals ← validators;
      vals' ← lift (ValidatorSet.IncrementAccum (ValidatorSet.Copy vals) (u64 (round - i64 (RoundState.Round r))));
      modr (fun r => RoundState.set_Validators r (VOwn vals')));;
    updateRoundStep round RoundStepNewRound;;
    (if round =? 0 then
       addr ← agent StateAgentImpl.GetLastValidatorAddress;
       vals ← validators;
       putValidators (ValidatorSet.FindValidatorSetProposer vals addr)
     else
       modr (fun r => RoundState.set_ProposalBlockParts
         (RoundState.set_ProposalBlock (RoundState.set_Proposal r None) None) None));;
    v ← votes;
    v' ← lift (HeightVoteSet.SetRound v (i64 (round + 1)));
    putVotes v';;
    tryEnterProposal height round 1.

(** ** Precommit *)

Definition enterPrevoteWait (height round : Z) : M unit :=
  ok ← getr (before height round RoundStepPrevoteWait);
  when ok (
    v ← votes;
    if negb (VoteSet.HasTwoThirdsAny (HeightVoteSet.Prevotes v round))
    then panic "enterPrevoteWait, but Prevotes does not have any +2/3 votes"
    else
      scheduleTimeout (Config.Prevote config round) height round RoundStepPrevoteWait;;
      updateRoundStep round RoundStepPrevoteWait;;
      newStep).

Definition lock (round : Z) (block : option Block) (parts : option nat) (proposal : option Proposal.t) : M unit :=
  modr (fun r => RoundState.set_LockedBlockParts
    (RoundState.set_LockedBlock (RoundState.set_LockedRound r round) block) parts);;
  modify (fun s => ConsensusState.set_proposalForCatchup s proposal).

Definition unlock : M unit := lock 0 None None None.

(** The polka is for the block the machine is locked on. *)
Definition relock (round : Z) (blockID : BlockID.t) (lockedBlock : Block) : M unit :=
  modr (fun r => RoundState.set_LockedRound r (u64 round));;
  k ← validateBlock (Some lockedBlock);
  match k.1 with
  | None => voteNil VoteTypePrecommit
  | Some ksign => signAddVote VoteTypePrecommit (Some (BlockID.Hash blockID)) (BlockID.PartsHeader blockID) (Some ksign)
  end.

(** The polka is for the proposal's block: lock it if it is agreed to. *)
Definition lockProposal (round : Z) (blockID : BlockID.t) (proposalBlock : Block) : M unit :=
  k ← validateBlock (Some proposalBlock);
  match k.1 with
  | None => voteNil VoteTypePrecommit
  | Some ksign =>
      r ← getr id;
      when (KeepBlockSign.Result ksign =? VoteAgree)
        (lock (u64 round) (Some proposalBlock) (RoundState.ProposalBlockParts r) (RoundState.Proposal r));;
      signAddVote VoteTypePrecommit (Some (BlockID.Hash blockID)) (BlockID.PartsHeader blockID) (Some ksign)
  end.

(** The polka is for a block the machine does not have. *)
Definition unlockForUnknown (blockID : BlockID.t) : M unit :=
  unlock;;
  p ← getr RoundState.ProposalBlockParts;
  ps ← partSet p;
  when (negb (PartSet.HasHeader ps (BlockID.PartsHeader blockID)))
    (resetProposalParts (BlockID.PartsHeader blockID));;
  voteNil VoteTypePrecommit.

(** What to precommit after two thirds prevoted [blockID]. *)
Definition precommitPolka (round : Z) (blockID : BlockID.t) : M unit :=
  v ← votes;
  if (HeightVoteSet.POLInfo v).1 <? round then panic "This POLRound should be"
  else
    r ← getr id;
    if zlen (BlockID.Hash blockID) =? 0 then
      when (bool_decide (is_Some (RoundState.LockedBlock r))) unlock;;
      voteNil VoteTypePrecommit
    else match RoundState.LockedBlock r, RoundState.ProposalBlock r with
         | Some b, pb =>
             if EqualHashes (BlockHash b) (BlockID.Hash blockID) then relock round blockID b
             else match pb with
                  | Some p => if EqualHashes (BlockHash p) (BlockID.Hash blockID)
                              then lockProposal round blockID p else unlockForUnknown blockID
                  | None => unlockForUnknown blockID
                  end
         | None, Some p =>
             if EqualHashes (BlockHash p) (BlockID.Hash blockID)
             then lockProposal round blockID p else unlockForUnknown blockID
         | None, None => unlockForUnknown blockID
         end.

Definition enterPrecommit (height round : Z) : M unit :=
  ok ← getr (before height round RoundStepPrecommit);
  when ok (
    v ← votes;
    let '(blockID, ok) := VoteSet.TwoThirdsMajority (HeightVoteSet.Prevotes v round) in
    (if ok : bool then precommitPolka round blockID else voteNil VoteTypePrecommit);;
    updateRoundStep round RoundStepPrecommit;;
    newStep).

Definition enterPrecommitWait (height round : Z) : M unit :=
  ok ← getr (before height round RoundStepPrecommitWait);
  when ok (
    v ← votes;
    if negb (VoteSet.HasTwoThirdsAny (HeightVoteSet.Precommits v round))
    then panic "enterPrecommitWait, but Precommits does not have any +2/3 votes"
    else
      scheduleTimeout (Config.Precommit config round) height round RoundStepPrecommitWait;;
      updateRoundStep round RoundStepPrecommitWait;;
      newStep).

(** ** Commit *)

(** The precommits of the round that committed, kept as the last commit. *)
Definition lastPrecommits : M (option VoteSet.t) :=
  r ← getr id;
  match RoundState.Votes r with
  | Some v =>
      if -1 <? i64 (RoundState.CommitRound r) then
        let vs := HeightVoteSet.Precommits v (i64 (RoundState.CommitRound r)) in
        if VoteSet.HasTwoThirdsMajority vs then mret vs
        else panic "updateToState(state) called but last Precommit round didn't have +2/3"
      else mret None
  | None => mret None
  end.

(** Times are in nanoseconds; the proposal's is cut to the second. *)
Definition nextStartTime : M Z :=
  r ← getr id;
  match RoundState.CommitTime r, RoundState.Proposal r with
  | Some ct, Some p =>
      if Config.CatchupTime config (Proposal.Timestamp p / 10 ^ 9 * 10 ^ 9) <? RoundState.StartTime r then clock
      else mret (Config.Commit config ct)
  | _, _ => now ← clock; mret (Config.Commit config now)
  end.

(** The round state at the start of a height. *)
Definition freshRound (r : RoundState.t) (height startTime : Z) (v : HeightVoteSet.t) (last : option VoteSet.t) : RoundState.t :=
  RoundState.mk L E height 0 RoundStepNewHeight startTime (RoundState.CommitTime r) VAgent None None None 0 None None 0 None None
    (Some v) (two64 - 1) last.

Definition updateToState : M unit :=
  lh ← lastBlockHeight;
  last ← lastPrecommits;
  let height := u64 (lh + 1) in
  startTime ← nextStartTime;
  chain ← chainID;
  vals ← gets (fun s => StateAgentImpl.Validators (ConsensusState.state s));
  v ← lift (HeightVoteSet.NewHeightVoteSet chain height vals);
  modify (fun s => ConsensusState.set_proposalForCatchup s None);;
  modr (fun r => freshRound r height startTime v last);;
  newStep.

Definition scheduleRound0 : M unit :=
  now ← clock;
  r ← getr id;
  scheduleTimeout (i64 (RoundState.StartTime r - now)) (RoundState.Height r) 0 RoundStepNewHeight;;
  scheduleTask (RoundState.Height r) (RoundState.Round r).

(** The checks of [finalizeCommit] before the block is committed. *)
Definition checkCommit (r : RoundState.t) : M (Block * list PbftSign.t) :=
  v ← votes;
  let voteset := HeightVoteSet.Precommits v (i64 (RoundState.CommitRound r)) in
  let '(blockID, ok) := VoteSet.TwoThirdsMajority voteset in
  block ← nonNil (RoundState.ProposalBlock r);
  signs ← lift (VoteSet.MakePbftSigns voteset (BlockHash block));
  ps ← partSet (RoundState.ProposalBlockParts r);
  if negb ok then panic "Cannot finalizeCommit, commit does not have two thirds majority"
  else if negb (PartSet.HasHeader ps (BlockID.PartsHeader blockID))
  then panic "Expected ProposalBlockParts header to be commit header"
  else match signs with
       | inl _ => panic "Cannot finalizeCommit, make signs error"
       | inr signs =>
           if negb (EqualHashes (BlockHash block) (BlockID.Hash blockID))
           then panic "Cannot finalizeCommit, ProposalBlock does not hash to commit hash"
           else mret (block, signs)
       end.

(** Keep the block with the commit that was seen for it. *)
Definition storeBlock (block : Block) : M unit :=
  store ← gets ConsensusState.blockStore;
  when (BlockStore.MaxBlockHeight store <? NumberU64 block) (
    v ← votes;
    r ← getr id;
    precommits ← nonNil (HeightVoteSet.Precommits v (i64 (RoundState.CommitRound r)));
    seenCommit ← lift (VoteSet.MakeCommit precommits);
    store' ← lift (BlockStore.SaveBlock store block (RoundState.ProposalBlockParts r) seenCommit (RoundState.Proposal r));
    modify (fun s => ConsensusState.set_blockStore s store')).

Definition finalizeCommit (height : Z) : M unit :=
  r ← getr id;
  if negb (RoundState.Height r =? height) || negb (RoundState.Step r =? RoundStepCommit) then mret tt
  else
    bs ← checkCommit r;
    let '(block, signs) := bs in
    modify (fun s => ConsensusState.set_state s (StateAgentImpl.set_Agent (ConsensusState.state s)
      (SetSign block signs (StateAgentImpl.Agent (ConsensusState.state s)))));;
    swithResult block;;
    err ← agent (fun st => StateAgentImpl.ConsensusCommit st (Some block));
    match err with
    | Some _ => mret tt
    | None => storeBlock block;; updateToState;; scheduleRound0
    end.

Definition tryFinalizeCommit (height : Z) : M unit :=
  r ← getr id;
  if negb (RoundState.Height r =? height) then panic "tryFinalizeCommit() cs.Height vs height"
  else
    v ← votes;
    let '(blockID, ok) := VoteSet.TwoThirdsMajority (HeightVoteSet.Precommits v (i64 (RoundState.CommitRound r))) in
    if negb ok || (zlen (BlockID.Hash blockID) =? 0) || negb (hashesTo (RoundState.ProposalBlock r) (BlockID.Hash blockID))
    then mret tt
    else finalizeCommit height.

Definition enterCommit (height commitRound : Z) : M unit :=
  r ← getr id;
  if negb (RoundState.Height r =? height) || (RoundStepCommit <=? RoundState.Step r) then mret tt
  else
    v ← votes;
    let '(blockID, ok) := VoteSet.TwoThirdsMajority (HeightVoteSet.Precommits v commitRound) in
    if negb ok then panic "RunActionCommit() expects +2/3 precommits"
    else
      when (hashesTo (RoundState.LockedBlock r) (BlockID.Hash blockID))
        (modr (fun r => RoundState.set_ProposalBlockParts
           (RoundState.set_ProposalBlock r (RoundState.LockedBlock r)) (RoundState.LockedBlockParts r)));;
      r ← getr id;
      ps ← partSet (RoundState.ProposalBlockParts r);
      when (bool_decide (is_Some (RoundState.ProposalBlock r))
            && negb (hashesTo (RoundState.ProposalBlock r) (BlockID.Hash blockID))
            && negb (PartSet.HasHeader ps (BlockID.PartsHeader blockID)))
        (resetProposalParts (BlockID.PartsHeader blockID));;
      round ← getr RoundState.Round;
      updateRoundStep (i64 round) RoundStepCommit;;
      modr (fun r => RoundState.set_CommitRound r (u64 commitRound));;
      now ← clock;
      modr (fun r => RoundState.set_CommitTime r (Some now));;
      newStep;;
      tryFinalizeCommit height.

(** ** Messages *)

(** [None] is a nil error. *)
Definition defaultSetProposal (proposal : option Proposal.t) : M (option cs_error) :=
  r ← getr id;
  match RoundState.Proposal r, proposal with
  | None, Some p =>
      if negb (Proposal.Height p =? RoundState.Height r) || negb (Proposal.Round p =? RoundState.Round r)
      then mret None
      else if RoundStepCommit <=? RoundState.Step r then mret None
      else if negb (i64 (Proposal.POLRound p) =? -1)
              && ((i64 (Proposal.POLRound p) <? 0) || (Proposal.Round p <=? Proposal.POLRound p))
      then mret (Some ErrInvalidProposalPOLRound)
      else
        proposer ← getProposer;
        proposer ← nonNil proposer;
        chain ← chainID;
        sb ← lift (ProposalSignBytes chain p);
        if negb (VerifyBytes (Validator.PubKey proposer) sb (Proposal.Signature p))
        then mret (Some ErrInvalidProposalSignature)
        else
          modr (fun r => RoundState.set_Proposal r (Some p));;
          ps ← lift (PartSet.NewPartSetFromHeader (Proposal.BlockPartsHeader p));
          q ← newPartSet ps;
          modr (fun r => RoundState.set_ProposalBlockParts r (Some q));;
          mret None
  | _, _ => mret None
  end.

(** The valid block becomes the proposal's if the polka of [round] is for it. *)
Definition updateValid (blockID : BlockID.t) (round : Z) : M unit :=
  r ← getr id;
  when (negb (BlockID.IsZero blockID) && (RoundState.ValidRound r <? round) && (round <=? RoundState.Round r)
        && hashesTo (RoundState.ProposalBlock r) (BlockID.Hash blockID))
    (modr (fun r => RoundState.set_ValidBlockParts (RoundState.set_ValidBlock (RoundState.set_ValidRound r round)
       (RoundState.ProposalBlock r)) (RoundState.ProposalBlockParts r))).

(** The last part arrived and the block was decoded. *)
Definition proposalCompleted (height : Z) : M unit :=
  r ← getr id;
  v ← votes;
  let '(blockID, ok) := VoteSet.TwoThirdsMajority (HeightVoteSet.Prevotes v (i64 (RoundState.Round r))) in
  when ok (updateValid blockID (RoundState.Round r));;
  complete ← isProposalComplete;
  if (RoundState.Step r <=? RoundStepPropose) && complete then enterPrevote height (i64 (RoundState.Round r))
  else when (RoundState.Step r =? RoundStepCommit) (tryFinalizeCommit height).

(** [(added, err)]. *)
Definition addProposalBlockPart (height round : Z) (part : option Part.t) : M (bool * option cs_error) :=
  r ← getr id;
  if negb (RoundState.Height r =? height) then mret (false, None)
  else match RoundState.ProposalBlockParts r with
       | None => _ ← nonNil part; mret (false, None)
       | Some p =>
           part ← nonNil part;
           ps ← gets (fun s => ConsensusState.partSets s !! p);
           ps ← nonNil ps;
           res ← lift (PartSet.AddPart ps part);
           let '(added, err, ps') := res in
           putPartSet p ps';;
           match err with
           | Some e => mret (added, Some (ErrPart e))
           | None =>
               if added && PartSet.IsComplete ps' then
                 w ← gets (fun s => StateAgentImpl.Agent (ConsensusState.state s));
                 br ← lift (MakeBlockFromPartSet ps' w);
                 modify (fun s => ConsensusState.set_state s (StateAgentImpl.set_Agent (ConsensusState.state s) br.2));;
                 match br.1 with
                 | inl e => modr (fun r => RoundState.set_ProposalBlock r None);; mret (true, Some (ErrBlock e))
                 | inr b =>
                     modr (fun r => RoundState.set_ProposalBlock r (Some b));;
                     proposalCompleted height;;
                     mret (true, None)
                 end
               else mret (added, None)
           end
       end.

(** A prevote was added to the round of the vote. *)
Definition addedPrevote (height : Z) (vote : Vote.t) : M unit :=
  v ← votes;
  let prevotes := HeightVoteSet.Prevotes v (i64 (Vote.Round vote)) in
  let '(blockID, ok) := VoteSet.TwoThirdsMajority prevotes in
  when ok (
    r ← getr id;
    when (bool_decide (is_Some (RoundState.LockedBlock r)) && (RoundState.LockedRound r <? Vote.Round vote)
          && (Vote.Round vote <=? RoundState.Round r)
          && negb (hashesTo (RoundState.LockedBlock r) (BlockID.Hash blockID)))
      unlock;;
    updateValid blockID (Vote.Round vote));;
  r ← getr id;
  if (RoundState.Round r <=? Vote.Round vote) && VoteSet.HasTwoThirdsAny prevotes then
    enterNewRound height (i64 (Vote.Round vote));;
    if VoteSet.HasTwoThirdsMajority prevotes then enterPrecommit height (i64 (Vote.Round vote))
    else enterPrevote height (i64 (Vote.Round vote));; enterPrevoteWait height (i64 (Vote.Round vote))
  else match RoundState.Proposal r with
       | Some p =>
           when ((0 <=? i64 (Proposal.POLRound p)) && (Proposal.POLRound p =? Vote.Round vote)) (
             complete ← isProposalComplete;
             when complete (enterPrevote height (i64 (RoundState.Round r))))
       | None => mret tt
       end.

(** A precommit was. *)
Definition addedPrecommit (height : Z) (vote : Vote.t) : M unit :=
  v ← votes;
  let precommits := HeightVoteSet.Precommits v (i64 (Vote.Round vote)) in
  let '(blockID, ok) := VoteSet.TwoThirdsMajority precommits in
  r ← getr id;
  if ok : bool then
    if zlen (BlockID.Hash blockID) =? 0 then enterNewRound height (i64 (i64 (Vote.Round vote) + 1))
    else
      enterNewRound height (i64 (Vote.Round vote));;
      enterPrecommit height (i64 (Vote.Round vote));;
      enterCommit height (i64 (Vote.Round vote));;
      all ← (if Config.SkipTimeoutCommit config then pcs ← nonNil precommits; mret (VoteSet.HasAll pcs) else mret false);
      when all (h ← getr RoundState.Height; enterNewRound h 0)
  else
    pcs ← nonNil precommits;
    if VoteSet.HasAll pcs then enterNewRound height (i64 (u64 (RoundState.Round r + 1)))
    else when ((RoundState.Round r <=? Vote.Round vote) && VoteSet.HasTwoThirdsAny precommits) (
      enterNewRound height (i64 (Vote.Round vote));;
      enterPrecommit height (i64 (Vote.Round vote));;
      enterPrecommitWait height (i64 (Vote.Round vote))).

(** A precommit of the last height. *)
Definition addLastPrecommit (vote : Vote.t) : M (bool * option cs_error) :=
  r ← getr id;
  if negb ((RoundState.Step r =? RoundStepNewHeight) && (Vote.Type_ vote =? VoteTypePrecommit))
  then mret (false, Some ErrVoteHeightMismatch)
  else
    let finish (added : bool) (err : option cs_error) : M (bool * option cs_error) :=
      fire (EventVote vote);;
      last ← getr RoundState.LastCommit;
      when (Config.SkipTimeoutCommit config && match last with Some vs => VoteSet.HasAll vs | None => false end)
        (h ← getr RoundState.Height; enterNewRound h 0);;
      mret (added, err) in
    match RoundState.LastCommit r with
    | None => finish false None
    | Some vs =>
        res ← lift (VoteSet.AddVote (Some vs) (Some vote));
        let '(added, err, vs') := res in
        modr (fun r => RoundState.set_LastCommit r vs');;
        let err := ErrVote <$> err in
        if negb added then mret (added, err) else finish added err
    end.

(** [(added, err)]. *)
Definition addVote (vote : Vote.t) (peerID : string) : M (bool * option cs_error) :=
  r ← getr id;
  if u64 (Vote.Height vote + 1) =? RoundState.Height r then addLastPrecommit vote
  else if negb (Vote.Height vote =? RoundState.Height r) then mret (false, Some ErrVoteHeightMismatch)
  else
    v ← votes;
    res ← lift (HeightVoteSet.AddVote v (Some vote) peerID);
    let '(added, err, v') := res in
    putVotes v';;
    let err := ErrVote <$> err in
    if negb added then mret (added, err)
    else
      fire (EventVote vote);;
      (if Vote.Type_ vote =? VoteTypePrevote then addedPrevote (RoundState.Height r) vote
       else if Vote.Type_ vote =? VoteTypePrecommit then addedPrecommit (RoundState.Height r) vote
       else panic "Unexpected vote type");;
      mret (added, err).

(** [None] is a nil error; the address of the signer is read for a conflict. *)
Definition tryAddVote (vote : Vote.t) (peerID : string) : M (option cs_error) :=
  res ← addVote vote peerID;
  match res.2 with
  | None => mret None
  | Some ErrVoteHeightMismatch => mret (Some ErrVoteHeightMismatch)
  | Some (ErrVote ErrVoteConflictingVotes) => _ ← signer; mret (Some (ErrVote ErrVoteConflictingVotes))
  | Some _ => mret (Some ErrAddingVote)
  end.

(** [PrivReset]. *)
Definition privReset : M unit :=
  pv ← signer;
  modify (fun s => ConsensusState.set_privValidator s (Some (privValidator.Reset pv))).

Definition validatorUpdate (vset : ValidatorSet.t) (uHeight eHeight : Z) : M unit :=
  r ← getr id;
  modify (fun s => ConsensusState.set_svs s (tail (ConsensusState.svs s)));;
  modify (fun s => ConsensusState.set_state s (StateAgentImpl.UpdateValidator (ConsensusState.state s) vset true));;
  updateToState;;
  privReset;;
  modify (fun s => ConsensusState.set_state s (StateAgentImpl.SetEndHeight (ConsensusState.state s) eHeight));;
  modify (fun s => ConsensusState.set_state s (StateAgentImpl.SetBeginHeight (ConsensusState.state s) uHeight));;
  newHeight ← getr RoundState.Height;
  let round := if (newHeight =? RoundState.Height r) && (0 <? RoundState.Round r) then u64 (RoundState.Round r + 1) else 0 in
  scheduleTask newHeight round;;
  enterNewRound newHeight (i64 round).

Definition updateStateForSync : M unit :=
  oldH ← getr RoundState.Height;
  lh ← lastBlockHeight;
  when (negb (oldH =? u64 (lh + 1))) (
    updateToState;;
    privReset;;
    h ← getr RoundState.Height;
    scheduleTimeoutWithWait (timeoutInfo.mk (10 ^ 6) h 0 RoundStepNewHeight 1));;
  r ← getr id;
  scheduleTask (RoundState.Height r) (RoundState.Round r).

(** ** The handlers *)

Definition handleMsg (mi : msgInfo.t) : M unit :=
  match msgInfo.Msg mi with
  | ProposalMessage p => _ ← defaultSetProposal p; mret tt
  | BlockPartMessage height round part => _ ← addProposalBlockPart height round part; mret tt
  | VoteMessage v => vote ← nonNil v; _ ← tryAddVote vote (msgInfo.PeerID mi); mret tt
  | ValidatorUpdateMessage vset uHeight eHeight => validatorUpdate vset uHeight eHeight
  end.

Definition handleTimeout (ti : timeoutInfo.t) : M unit :=
  r ← getr id;
  if negb (timeoutInfo.Height ti =? RoundState.Height r) || (timeoutInfo.Round ti <? RoundState.Round r)
     || ((timeoutInfo.Round ti =? RoundState.Round r) && (timeoutInfo.Step ti <? RoundState.Step r))
  then mret tt
  else
    let height := timeoutInfo.Height ti in
    let round := i64 (timeoutInfo.Round ti) in
    let step := timeoutInfo.Step ti in
    if step =? RoundStepNewHeight then enterNewRound height 0
    else if step =? RoundStepNewRound then tryEnterProposal height 0 (timeoutInfo.Wait ti)
    else if step =? RoundStepPropose then enterPrevote height round
    else if step =? RoundStepPrevoteWait then enterPrecommit height round
    else if step =? RoundStepPrecommitWait then enterNewRound height (i64 (round + 1))
    else panic "Invalid timeout step".

Definition handleTimeoutForTask (ti : timeoutInfo.t) : M unit := updateStateForSync.

(** One turn of [receiveRoutine]: a message of a peer, a message of the machine
    itself, a timeout of either timer, or a proposal of the health manager.  The
    messages of the machine are read in order unless its queue was full, when they
    wait in goroutines: any of them may be next. *)
Inductive input :=
| IPeer (mi : msgInfo.t)
| IInternal (n : nat)
| ITimeout (ti : timeoutInfo.t)
| ITask (ti : timeoutInfo.t)
| ISwitch (sv : option nat).

Definition handle (i : input) : M unit :=
  match i with
  | IPeer mi => handleMsg mi
  | IInternal n =>
      q ← gets ConsensusState.internalMsgQueue;
      match q !! n with
      | None => mret tt
      | Some mi => modify (fun s => ConsensusState.set_internalMsgQueue s (delete n q));; handleMsg mi
      end
  | ITimeout ti => handleTimeout ti
  | ITask ti => handleTimeoutForTask ti
  | ISwitch sv => switchHandle sv
  end.

(** ** Starting *)

Definition addSeen (vs : VoteSet.t) (precommit : option Vote.t) : outcome VoteSet.t :=
  match precommit with
  | None => Ret vs
  | Some pc =>
      let! (r, vs') := VoteSet.AddVote (Some vs) (Some pc) in
      let (added, err) := r in
      match added, err, vs' with
      | true, None, Some vs' => Ret vs'
      | _, _, _ => Panic "Failed to reconstruct LastCommit"
      end
  end.

Fixpoint addAllSeen (vs : VoteSet.t) (l : list (option Vote.t)) : outcome VoteSet.t :=
  match l with [] => Ret vs | pc :: l' => let! vs := addSeen vs pc in addAllSeen vs l' end.

Definition reconstructLastCommit : M unit :=
  lh ← lastBlockHeight;
  store ← gets ConsensusState.blockStore;
  match BlockStore.LoadBlockCommit store lh with
  | Some seenCommit =>
      if lh =? 0 then mret tt
      else
        chain ← chainID;
        vals ← gets (fun s => StateAgentImpl.Validators (ConsensusState.state s));
        round ← lift (Commit.Round seenCommit);
        vs ← lift (VoteSet.NewVoteSet chain lh round VoteTypePrecommit vals);
        vs' ← lift (addAllSeen vs (Commit.Precommits seenCommit));
        if negb (VoteSet.HasTwoThirdsMajority (Some vs')) then panic "Failed to reconstruct LastCommit: Does not have +2/3 maj"
        else modr (fun r => RoundState.set_LastCommit r (Some vs'))
  | None => mret tt
  end.

(** The zero value of the fields that [NewConsensusState] does not set. *)
Definition zeroState (state : StateAgentImpl.t) (store : BlockStore.t) : ConsensusState.t :=
  ConsensusState.mk L E
    (RoundState.mk L E 0 0 0 0 None VNil None None None 0 None None 0 None None None 0 None)
    None state store None [] [] [] (Config.Propose config 0) 0 [] [] [] None None [].

Definition NewConsensusState (state : StateAgentImpl.t) (store : BlockStore.t) : outcome ConsensusState.t :=
  let! (_, s) := (updateToState;; reconstructLastCommit) (zeroState state store) in Ret s.

Definition OnStart : M unit :=
  h ← gets ConsensusState.hm;
  match h with
  | None => mret tt
  | Some _ => updateToState;; scheduleRound0
  end.

Definition SetPrivValidator (priv : privValidator.t) : M unit :=
  modify (fun s => ConsensusState.set_privValidator s (Some priv)).

Definition SetHealthMgr (h : HealthMgr.t) : M unit := modify (fun s => ConsensusState.set_hm s (Some h)).

Definition SetCommitteeInfo (c : CommitteeInfo.t) : M unit := modify (fun s => ConsensusState.set_cm s (Some c)).

End Ops.
End Consensus.

(** [CompareHRS]. *)
Definition CompareHRS (h1 r1 s1 h2 r2 s2 : Z) : Z :=
  if h1 <? h2 then -1 else if h2 <? h1 then 1
  else if r1 <? r2 then -1 else if r2 <? r1 then 1
  else if s1 <? s2 then -1 else if s2 <? s1 then 1
  else 0.
