(* ===== verification/ConsensusSafety.v ===== *)
(** * Safety of the consensus state machine

    What the handlers of [Consensus] do to the part of the state that the safety
    of the protocol rests on: the height, round and step, the lock, the votes
    collected, the votes signed and the blocks stored.  [frame_of] is what the
    auxiliary functions keep; [within] is what a transition inside a height may do;
    [committed] and [restarted] are the two ways to a new one. *)

From stdpp Require Import sorting.
From S2P Require Import Prelude Effects BitArray Types Validator VoteSet HeightVoteSet PrivValidator PartSet Health StateAgent RoundState Consensus.
Import Consensus.

Section Frame.
Context {L : Lib} {E : Env} {HE : EnvLaws E}.
Implicit Types (s : ConsensusState.t) (r : RoundState.t).

(** The fields of the round state that matter here. *)
Definition coreOf r : Z * Z * Z * Z * option Block * option HeightVoteSet.t * Z :=
  (RoundState.Height r, RoundState.Round r, RoundState.Step r, RoundState.LockedRound r, RoundState.LockedBlock r,
   RoundState.Votes r, RoundState.CommitRound r).
Definition core s := coreOf (ConsensusState.rs s).

(** The address the machine signs for. *)
Definition addrOf s : option bytes := privValidator.GetAddress <$> ConsensusState.privValidator s.

(** The chain, the validators of the state agent without the proposer, the range
    of heights of the committee, and the own address. *)
Definition agentCore s : string * list Validator.t * Z * Z * Z * option bytes :=
  let st := ConsensusState.state s in
  (StateAgentImpl.ChainID st, ValidatorSet.Validators (StateAgentImpl.Validators st),
   ValidatorSet.totalVotingPower (StateAgentImpl.Validators st),
   StateAgentImpl.BeginHeight st, StateAgentImpl.EndHeight st, addrOf s).

(** The height of the chain behind the agent. *)
Definition heightOf s : Z := chainHeight (StateAgentImpl.Agent (ConsensusState.state s)).

(** [s'] has more messages, all satisfying [P], and more timeouts, all satisfying
    [Q], and is otherwise like [s]. *)
Definition frame_of (P : ConsensusMessage -> Prop) (Q : timeoutInfo.t -> Prop) s s' : Prop :=
  core s' = core s /\ agentCore s' = agentCore s /\
  (ConsensusState.blockStore s' = ConsensusState.blockStore s /\ heightOf s <= heightOf s') /\
  (exists l, ConsensusState.internalMsgQueue s' = ConsensusState.internalMsgQueue s ++ l /\
     Forall (fun m => P (msgInfo.Msg m)) l) /\
  (exists l, ConsensusState.timeoutTicker s' = ConsensusState.timeoutTicker s ++ l /\ Forall Q l).

Lemma frame_of_refl P Q s : frame_of P Q s s.
Proof. split_and!; try done; [exists []; by rewrite app_nil_r..]. Qed.

Lemma frame_of_trans P Q s1 s2 s3 : frame_of P Q s1 s2 -> frame_of P Q s2 s3 -> frame_of P Q s1 s3.
Proof.
  intros (A1 & A2 & [A3 A6] & (l1 & A4 & F1) & (k1 & A5 & G1)) (B1 & B2 & [B3 B6] & (l2 & B4 & F2) & (k2 & B5 & G2)).
  split_and!; [congruence|congruence|congruence|lia|exists (l1 ++ l2)|exists (k1 ++ k2)].
  - by rewrite B4, A4, app_assoc, Forall_app.
  - by rewrite B5, A5, app_assoc, Forall_app.
Qed.

Lemma frame_of_mono P Q P' Q' s s' : (forall m, P m -> P' m) -> (forall ti, Q ti -> Q' ti) ->
  frame_of P Q s s' -> frame_of P' Q' s s'.
Proof.
  intros HP HQ (A1 & A2 & [A3 A6] & (l & A4 & F) & (k & A5 & G)). split_and!; try done.
  - exists l. split; [done|]. eapply Forall_impl; [exact F|]. auto.
  - exists k. split; [done|]. eapply Forall_impl; [exact G|]. auto.
Qed.

(** Computations that keep the frame. *)
Definition keeps {A} (P : ConsensusMessage -> Prop) (Q : timeoutInfo.t -> Prop) (m : M A) : Prop :=
  forall s, wp m (fun _ s' => frame_of P Q s s') s.

Variables (P : ConsensusMessage -> Prop) (Q : timeoutInfo.t -> Prop).

Lemma keeps_ret {A} (a : A) : keeps P Q (mret a).
Proof. intros s. apply wp_ret, frame_of_refl. Qed.

Lemma keeps_bind {A B} (m : M A) (f : A -> M B) : keeps P Q m -> (forall a, keeps P Q (f a)) -> keeps P Q (m ≫= f).
Proof.
  intros Hm Hf s. apply wp_bind. eapply wp_mono; [apply Hm|]. intros a s1 H1. cbv beta.
  eapply wp_mono; [apply Hf|]. intros b s2 H2. exact (frame_of_trans _ _ _ _ _ H1 H2).
Qed.

Lemma keeps_panic {A} why : keeps P Q (panic (A := A) why).
Proof. done. Qed.

Lemma keeps_lift {A} (o : outcome A) : keeps P Q (lift o).
Proof. intros s. apply wp_lift. intros. apply frame_of_refl. Qed.

Lemma keeps_gets {A} (f : ConsensusState.t -> A) : keeps P Q (gets f).
Proof. intros s. apply wp_gets, frame_of_refl. Qed.

Lemma keeps_getr {A} (f : RoundState.t -> A) : keeps P Q (getr f).
Proof. apply keeps_gets. Qed.

Lemma keeps_nonNil {A} (o : option A) : keeps P Q (nonNil o).
Proof. destruct o; [apply keeps_ret|done]. Qed.

Lemma keeps_when (b : bool) m : (b = true -> keeps P Q m) -> keeps P Q (when b m).
Proof. destruct b; [auto|intros; apply keeps_ret]. Qed.

(** A change of fields outside the frame. *)
Lemma keeps_modify f : (forall s, core (f s) = core s) -> (forall s, agentCore (f s) = agentCore s) ->
  (forall s, ConsensusState.blockStore (f s) = ConsensusState.blockStore s) ->
  (forall s, ConsensusState.internalMsgQueue (f s) = ConsensusState.internalMsgQueue s) ->
  (forall s, ConsensusState.timeoutTicker (f s) = ConsensusState.timeoutTicker s) ->
  (forall s, heightOf (f s) = heightOf s) -> keeps P Q (modify f).
Proof.
  intros H1 H2 H3 H4 H5 H6 s. apply wp_modify. split_and!; auto; [rewrite H6; lia|exists []; by rewrite app_nil_r..].
Qed.

Lemma keeps_modr f : (forall r, coreOf (f r) = coreOf r) -> keeps P Q (modr f).
Proof. intros H. apply keeps_modify; intros s; try done. apply H. Qed.

(** What a call of the agent leaves. *)
Definition same_agent (st st' : StateAgentImpl.t) : Prop :=
  StateAgentImpl.ChainID st' = StateAgentImpl.ChainID st /\ StateAgentImpl.Validators st' = StateAgentImpl.Validators st /\
  StateAgentImpl.BeginHeight st' = StateAgentImpl.BeginHeight st /\ StateAgentImpl.EndHeight st' = StateAgentImpl.EndHeight st /\
  chainHeight (StateAgentImpl.Agent st) <= chainHeight (StateAgentImpl.Agent st').

Lemma frame_of_state s st : same_agent (ConsensusState.state s) st -> frame_of P Q s (ConsensusState.set_state s st).
Proof.
  intros (H1 & H2 & H3 & H4 & H5). split_and!; try done; [|exists []; by rewrite app_nil_r..].
  unfold agentCore. cbn. by rewrite H1, H2, H3, H4.
Qed.

Lemma keeps_agent {A} (f : StateAgentImpl.t -> A * StateAgentImpl.t) :
  (forall st, same_agent st (f st).2) -> keeps P Q (agent f).
Proof.
  intros H s. apply wp_agent. intros a st Ef. apply frame_of_state. specialize (H (ConsensusState.state s)). by rewrite Ef in H.
Qed.

Lemma keeps_send m : P m -> keeps P Q (sendInternalMessage m).
Proof.
  intros Hm s. apply wp_modify. split_and!; try done; [eexists; split; [done|]; by repeat constructor|exists []; by rewrite app_nil_r].
Qed.

Lemma keeps_schedule ti : Q ti -> keeps P Q (scheduleTimeoutWithWait ti).
Proof.
  intros Hm s. apply wp_modify. split_and!; try done; [exists []; by rewrite app_nil_r|eexists; split; [done|]; by repeat constructor].
Qed.
End Frame.

(** Solve [keeps] goals structurally. *)
Ltac keep :=
  repeat first
    [ apply keeps_ret | apply keeps_panic | apply keeps_lift | apply keeps_gets | apply keeps_getr | apply keeps_nonNil
    | solve [auto with keepdb]
    | apply keeps_bind; [|intros ?]
    | apply keeps_when; intros ?
    | apply keeps_modr; intros ?; reflexivity
    | apply keeps_modify; intros ?; reflexivity
    | match goal with
      | |- keeps _ _ (match ?x with _ => _ end) => destruct x
      | |- keeps _ _ ((match ?x with _ => _ end) _) => destruct x
      end ].

Create HintDb keepdb.

Section Keeps.
Context {L : Lib} {E : Env} {HE : EnvLaws E} (config : Config.t) (P : ConsensusMessage -> Prop) (Q : timeoutInfo.t -> Prop).
Implicit Types (s : ConsensusState.t) (r : RoundState.t).

Lemma keeps_fire e : keeps P Q (fire e).
Proof. unfold fire. keep. Qed.

Lemma keeps_newStep : keeps P Q newStep.
Proof. unfold newStep, fire. keep. Qed.

Lemma keeps_clock : keeps P Q clock.
Proof.
  apply keeps_agent. intros st. pose proof (Now_height (StateAgentImpl.Agent st)) as H. by destruct (Now _).
Qed.

Lemma keeps_lastBlockHeight : keeps P Q lastBlockHeight.
Proof.
  apply keeps_agent. intros st. unfold StateAgentImpl.GetLastBlockHeight.
  pose proof (GetCurrentHeight_height (StateAgentImpl.Agent st)) as H. by destruct (GetCurrentHeight _).
Qed.

Lemma keeps_chainID : keeps P Q chainID.
Proof. apply keeps_gets. Qed.

Lemma keeps_votes : keeps P Q votes.
Proof. unfold votes. keep. Qed.

Lemma keeps_validators : keeps P Q validators.
Proof. unfold validators. keep. Qed.

(** Writing back a set with the same validators. *)
Lemma putValidators_frame s vals vals' : wp validators (fun v s' => v = vals /\ s' = s) s ->
  ValidatorSet.Validators vals' = ValidatorSet.Validators vals ->
  ValidatorSet.totalVotingPower vals' = ValidatorSet.totalVotingPower vals ->
  wp (putValidators vals') (fun _ s' => frame_of P Q s s') s.
Proof.
  unfold validators, putValidators. intros Hv H1 H2. apply wp_bind, wp_gets.
  destruct (RoundState.Validators (ConsensusState.rs s)) eqn:Ev; [done| |].
  - apply wp_modify. unfold wp, mbind, ST_bind, getr, gets in Hv. cbn in Hv. rewrite Ev in Hv. destruct Hv as [<- _].
    split_and!; try done; [|exists []; by rewrite app_nil_r..]. unfold agentCore. cbn. by rewrite H1, H2.
  - apply wp_modify. split_and!; try done; exists []; by rewrite app_nil_r.
Qed.

Lemma validators_pure s : wp validators (fun _ s' => s' = s) s.
Proof.
  unfold validators. apply wp_bind, wp_gets. destruct (RoundState.Validators _); [done|by apply wp_gets|by apply wp_ret].
Qed.

Lemma validators_wp s (K : ValidatorSet.t -> ConsensusState.t -> Prop) :
  (forall vals, wp validators (fun v s' => v = vals /\ s' = s) s -> K vals s) -> wp validators K s.
Proof.
  intros H. pose proof (validators_pure s) as Hp. unfold wp in *. destruct (validators s) as [[v s']|] eqn:Ev; [|done].
  subst s'. by apply H.
Qed.

Lemma GetProposer_same vals (r : option Validator.t * ValidatorSet.t) : ValidatorSet.GetProposer vals = Ret r ->
  ValidatorSet.Validators r.2 = ValidatorSet.Validators vals /\
  ValidatorSet.totalVotingPower r.2 = ValidatorSet.totalVotingPower vals.
Proof.
  unfold ValidatorSet.GetProposer. intros H. destruct (zlen _ =? 0); [by injection H as <-|].
  destruct (ValidatorSet.Proposer vals); [by injection H as <-|]. ounfold H. destruct a; [|done]. by injection H as <-.
Qed.

Lemma keeps_getProposer : keeps P Q getProposer.
Proof.
  intros s. unfold getProposer. apply wp_bind, validators_wp. intros vals Hv. apply wp_bind, wp_lift. intros r Hr.
  apply GetProposer_same in Hr as [H1 H2]. apply wp_bind. eapply wp_mono; [by eapply putValidators_frame|].
  intros ? s' Hs. by apply wp_ret.
Qed.

Lemma keeps_isProposer : keeps P Q isProposer.
Proof. unfold isProposer. pose proof keeps_getProposer. keep. Qed.

Lemma keeps_findProposer addr : keeps P Q (vals ← validators; putValidators (ValidatorSet.FindValidatorSetProposer vals addr)).
Proof.
  intros s. apply wp_bind, validators_wp. intros vals Hv. eapply putValidators_frame; [exact Hv|..];
    unfold ValidatorSet.FindValidatorSetProposer; by destruct (ValidatorSet.findByKeyAddress _ _).
Qed.

Lemma keeps_newPartSet ps : keeps P Q (newPartSet ps).
Proof. unfold newPartSet. keep. Qed.

Lemma keeps_partSet p : keeps P Q (partSet p).
Proof. apply keeps_gets. Qed.

Lemma keeps_resetProposalParts h : keeps P Q (resetProposalParts h).
Proof. unfold resetProposalParts. pose proof keeps_newPartSet. keep. Qed.

(** ** Switches *)

Lemma keeps_healthMgr : keeps P Q healthMgr.
Proof. unfold healthMgr. keep. Qed.

Lemma keeps_committee : keeps P Q committee.
Proof. unfold committee. keep. Qed.

Lemma keeps_putHealthMgr h : keeps P Q (putHealthMgr h).
Proof. unfold putHealthMgr. keep. Qed.
End Keeps.
#[export] Hint Resolve keeps_fire keeps_newStep keeps_clock keeps_lastBlockHeight keeps_chainID keeps_votes
  keeps_validators keeps_getProposer keeps_isProposer keeps_findProposer keeps_newPartSet keeps_partSet
  keeps_resetProposalParts keeps_healthMgr keeps_committee keeps_putHealthMgr : keepdb.

Section Voting.
Context {L : Lib} {E : Env} {HE : EnvLaws E} (config : Config.t) (P : ConsensusMessage -> Prop) (Q : timeoutInfo.t -> Prop).
Implicit Types (s : ConsensusState.t) (r : RoundState.t) (v : Vote.t).

(** Going on after a computation that keeps the frame. *)
Lemma wp_keep {A B} (m : M A) (f : A -> M B) s : keeps P Q m ->
  (forall a s', frame_of P Q s s' -> wp (f a) (fun _ s'' => frame_of P Q s' s'') s') ->
  wp (m ≫= f) (fun _ s' => frame_of P Q s s') s.
Proof.
  intros Hm Hf. apply wp_bind. eapply wp_mono; [apply Hm|]. intros a s1 H1. cbv beta.
  eapply wp_mono; [by apply Hf|]. intros b s2 H2. exact (frame_of_trans _ _ _ _ _ H1 H2).
Qed.

Lemma keeps_healthOf m flag : keeps P Q (healthOf m flag).
Proof. unfold healthOf. keep. Qed.

Lemma keeps_switchVerify b : keeps P Q (switchVerify b).
Proof. unfold switchVerify. pose proof keeps_healthOf. keep. Qed.

(** The block is in the range of heights of the committee. *)
Definition in_range s (b : Block) : Prop := StateAgentImpl.outOfRange (ConsensusState.state s) b = None.

Lemma in_range_same s s' b : agentCore s' = agentCore s -> in_range s' b <-> in_range s b.
Proof.
  unfold agentCore, in_range, StateAgentImpl.outOfRange. intros H. injection H as _ _ _ Hb He _. by rewrite Hb, He.
Qed.

Lemma ValidateBlock_spec st b res x : StateAgentImpl.ValidateBlock st (Some b) res = Ret x ->
  same_agent st x.2 /\
  match x.1.1 with
  | None => StateAgentImpl.outOfRange st b <> None
  | Some ks => StateAgentImpl.outOfRange st b = None /\ KeepBlockSign.Hash ks = BlockHash b
  end.
Proof.
  unfold StateAgentImpl.ValidateBlock. intros H. destruct (StateAgentImpl.outOfRange st b); [injection H as <-; by split_and!|].
  pose proof (VerifyFastBlock_height b res (StateAgentImpl.Agent st)) as Hh.
  destruct (VerifyFastBlock b res _) as [[[sg|] err] w] eqn:Ev; [|done]. injection H as <-. split; [by split_and!|].
  split; [done|]. exact (VerifyFastBlock_signs _ _ _ _ _ _ Ev).
Qed.

Lemma MakeBlock_same st infos x : StateAgentImpl.MakeBlock st infos = Ret x -> same_agent st x.2.
Proof.
  unfold StateAgentImpl.MakeBlock. intros H. pose proof (FetchFastBlock_height (StateAgentImpl.CID st) infos (StateAgentImpl.Agent st)) as Hh.
  destruct (FetchFastBlock _ _ _) as [[b err] w].
  destruct err; [injection H as <-; by split_and!|]. destruct b as [b|]; [|done].
  destruct (StateAgentImpl.outOfRange _ b); injection H as <-; by split_and!.
Qed.

(** The agent accepts the block exactly if it is in range, and signs its hash. *)
Lemma validateBlock_wp s b : wp (validateBlock (Some b)) (fun k s' => frame_of P Q s s' /\
  match k.1 with None => ~ in_range s b | Some ks => in_range s b /\ KeepBlockSign.Hash ks = BlockHash b end) s.
Proof.
  unfold validateBlock. apply wp_bind. eapply wp_mono; [apply keeps_switchVerify|]. intros res s1 F1.
  cbv zeta. apply wp_bind, wp_gets, wp_bind, wp_lift. intros x Hx. apply ValidateBlock_spec in Hx as [H1 H2].
  apply wp_bind, wp_modify, wp_ret. pose proof (in_range_same _ _ b (proj1 (proj2 F1))) as Hr. split.
  - eapply frame_of_trans; [exact F1|]. by apply frame_of_state.
  - destruct x.1.1; by rewrite <- Hr.
Qed.

Lemma keeps_validateBlock b : keeps P Q (validateBlock b).
Proof.
  destruct b as [b|]; [|unfold validateBlock; keep]. intros s. eapply wp_mono; [apply validateBlock_wp|]. by intros k s' [? _].
Qed.

Lemma keeps_signer : keeps P Q signer.
Proof. unfold signer. keep. Qed.

Lemma keeps_keptSign hash k : keeps P Q (keptSign hash k).
Proof. unfold keptSign. pose proof keeps_signer. keep. Qed.

Lemma keeps_pickSwitchValidator sv byID : keeps P Q (pickSwitchValidator sv byID).
Proof. unfold pickSwitchValidator. keep. Qed.

Lemma keeps_notifyHealthMgr sv : keeps P Q (notifyHealthMgr sv).
Proof. unfold notifyHealthMgr. keep. Qed.

Lemma keeps_switchHandle sv : keeps P Q (switchHandle sv).
Proof. unfold switchHandle. pose proof keeps_pickSwitchValidator. pose proof keeps_notifyHealthMgr. keep. Qed.

(** [s] with another end of the committee's range. *)
Definition withEnd s (e : Z) : ConsensusState.t :=
  ConsensusState.set_state s (StateAgentImpl.set_heights (ConsensusState.state s)
    (StateAgentImpl.LastHeight (ConsensusState.state s)) (StateAgentImpl.BeginHeight (ConsensusState.state s)) e).

Lemma SetEndHeight_frame s h :
  frame_of P Q (withEnd s h) (ConsensusState.set_state s (StateAgentImpl.SetEndHeight (ConsensusState.state s) h)).
Proof.
  unfold StateAgentImpl.SetEndHeight. pose proof (GetCurrentHeight_height (StateAgentImpl.Agent (ConsensusState.state s))) as H.
  destruct (GetCurrentHeight _) as [x w]. split_and!; try done; exists []; by rewrite app_nil_r.
Qed.

Lemma withEnd_frame s s' e : frame_of P Q s s' -> frame_of P Q (withEnd s e) (withEnd s' e).
Proof.
  intros (A1 & A2 & A3 & A4 & A5). split_and!; try done; [|apply A3..]. unfold agentCore, addrOf in *. cbn.
  injection A2 as ? ? ? ? ? ?. congruence.
Qed.

(** The end of the range may become the number of the block, with the frame kept
    otherwise. *)
Definition may_end (b : Block) s s' : Prop :=
  frame_of P Q s s' \/ frame_of P Q (withEnd s (NumberU64 b)) s'.

Lemma swithResult_wp s b : wp (swithResult b) (fun _ s' => may_end b s s') s.
Proof.
  unfold swithResult. apply wp_bind. eapply wp_mono; [apply keeps_lastBlockHeight|]. intros lh s1 F1.
  apply wp_bind. eapply wp_mono; [apply keeps_committee|]. intros c s2 F2. pose proof (frame_of_trans _ _ _ _ _ F1 F2) as F.
  destruct (_ || _); [apply wp_ret; by left|]. destruct (SwitchInfos b) as [[|aEnter [|rEnter [|]]]|]; try (apply wp_ret; by left).
  apply wp_bind, wp_modify.
  match goal with |- wp ?m _ _ => assert (keeps P Q m) as Hk
    by (pose proof keeps_healthOf; pose proof keeps_pickSwitchValidator; pose proof keeps_notifyHealthMgr; keep) end.
  eapply wp_mono; [apply Hk|]. intros ? s3 F3. right. eapply frame_of_trans; [by apply withEnd_frame|].
  eapply frame_of_trans; [apply SetEndHeight_frame|exact F3].
Qed.

Lemma keeps_isProposalComplete : keeps P Q isProposalComplete.
Proof. unfold isProposalComplete. keep. Qed.

(** What the signer leaves of a vote. *)
Definition ballot v : Z * Z * Z * BlockID.t * bytes :=
  (Vote.Type_ v, Vote.Height v, Vote.Round v, Vote.BlockID v, Vote.ValidatorAddress v).

Lemma SignVote_ballot pv now chain v x : privValidator.SignVote pv now chain v = Ret x ->
  ballot x.1.2 = ballot v /\ Vote.Result x.1.2 = Vote.Result v /\ privValidator.GetAddress x.2 = privValidator.GetAddress pv.
Proof.
  unfold privValidator.SignVote. intros H. destruct (privValidator.signVote pv now chain v) as [[[err v'] pv']|] eqn:Es; [|done].
  assert (ballot v' = ballot v /\ Vote.Result v' = Vote.Result v /\ privValidator.GetAddress pv' = privValidator.GetAddress pv) as Hb.
  { clear H. unfold privValidator.signVote in Es. destruct (privValidator.voteToStep v); [|done]. cbn [obind] in Es.
    destruct (VoteSignBytes chain v) as [sb|]; [|done]. cbn [obind] in Es. destruct (privValidator.checkHRS _ _ _ _) as [c|]; [|done].
    cbn [obind] in Es. destruct c as [e|[]]; [by inv Es| |].
    - destruct (bytes_equal _ _); [by inv Es|].
      destruct (privValidator.checkVotesOnlyDifferByTimestamp _ _ _) as [[ts []]|]; [by inv Es|by inv Es|done].
    - destruct (PrivKeySign _ _); by inv Es. }
  cbn [obind] in H. destruct err; injection H as <-; exact Hb.
Qed.

(** A vote of this machine for the block [bid], with a result in [R]. *)
Definition own_vote s (typeB : Z) (bid : BlockID.t) (R : Z -> Prop) (m : ConsensusMessage) : Prop :=
  exists v addr, m = VoteMessage (Some v) /\ addrOf s = Some addr /\
    ballot v = (typeB, RoundState.Height (ConsensusState.rs s), RoundState.Round (ConsensusState.rs s), bid, addr) /\
    R (Vote.Result v).

Definition no_timeout (ti : timeoutInfo.t) : Prop := False.

Lemma withResult_ballot v hash k : ballot (withResult v hash k) = ballot v.
Proof. unfold withResult. destruct hash, k; try done. by destruct (bytes_equal _ _). Qed.
End Voting.

#[export] Hint Resolve keeps_healthOf keeps_switchVerify keeps_validateBlock keeps_signer keeps_keptSign
  keeps_pickSwitchValidator keeps_notifyHealthMgr keeps_switchHandle keeps_isProposalComplete : keepdb.

Section Signing.
Context {L : Lib} {E : Env} {HE : EnvLaws E} (config : Config.t).
Implicit Types (s : ConsensusState.t) (r : RoundState.t) (v : Vote.t).

(** The result that the agent's signature [k] for the block [hash] gives a vote. *)
Definition result_of (hash : option bytes) (k : option KeepBlockSign.t) (res : Z) : Prop :=
  forall h ks, hash = Some h -> k = Some ks -> h = KeepBlockSign.Hash ks -> res = KeepBlockSign.Result ks.

Lemma signVote_frame s typeB hash header P Q :
  wp (signVote typeB hash header) (fun a s' => frame_of P Q s s' /\
    exists addr, addrOf s = Some addr /\
      ballot a.1 = (typeB, RoundState.Height (ConsensusState.rs s), RoundState.Round (ConsensusState.rs s),
                    BlockID.mk (default [] hash) header, addr)) s.
Proof.
  unfold signVote, signer. apply wp_bind, wp_bind, wp_gets, wp_nonNil. intros pv Hpv.
  apply wp_bind, validators_wp. intros vals _. apply wp_bind, wp_lift. intros ix _.
  apply wp_bind, wp_gets, wp_bind, wp_gets, wp_bind. eapply wp_mono; [apply (keeps_clock P Q)|]. intros ts s1 H1. cbv beta.
  apply wp_bind. eapply wp_mono; [apply (keeps_clock P Q)|]. intros now s2 H2. cbv beta.
  apply wp_bind, wp_gets. cbv zeta. apply wp_bind, wp_lift. intros [[err v] pv'] Hx. cbv beta iota.
  apply SignVote_ballot in Hx as (Hb & _ & Hpv'). apply wp_bind, wp_modify, wp_ret. cbn [fst snd] in *.
  pose proof (frame_of_trans _ _ _ _ _ H1 H2) as H12. assert (addrOf s = Some (privValidator.GetAddress pv)) as Ha by (unfold addrOf; by rewrite Hpv).
  split; [|by exists (privValidator.GetAddress pv)].
  eapply frame_of_trans; [exact H12|]. split_and!; try done; [|exists []; by rewrite app_nil_r..].
  destruct H12 as (_ & H12 & _). unfold agentCore in *. cbn. injection H12 as _ _ _ _ _ ->. by rewrite Ha, <- Hpv'.
Qed.

Lemma signAddVote_frame s typeB hash header k :
  wp (signAddVote typeB hash header k)
    (fun _ s' => frame_of (own_vote s typeB (BlockID.mk (default [] hash) header) (result_of hash k)) no_timeout s s') s.
Proof.
  set (R := result_of hash k).
  unfold signAddVote. apply wp_bind, wp_gets. destruct (ConsensusState.privValidator s) as [pv|]; [|apply wp_ret, frame_of_refl].
  apply wp_bind, validators_wp. intros vals _. apply wp_bind, wp_lift. intros has _.
  destruct (negb has); [apply wp_ret, frame_of_refl|].
  apply wp_bind. eapply wp_mono; [apply signVote_frame|]. intros [v err] s1 (H1 & addr & Ha & Hb). cbn [fst snd] in *.
  destruct err; [apply wp_ret; exact H1|]. unfold keptSign. apply wp_bind.
  apply (wp_mono _ (fun k' s' => frame_of (own_vote s typeB (BlockID.mk (default [] hash) header) R) no_timeout s1 s' /\ (is_Some k -> k' = k))).
  { destruct k as [ks|].
    - replace (match hash with Some _ | _ => _ end) with (mret (M := M) (Some ks)) by (by destruct hash). apply wp_ret. split; [apply frame_of_refl|done].
    - pose proof (keeps_keptSign (own_vote s typeB (BlockID.mk (default [] hash) header) R) no_timeout hash None s1) as Hk.
      eapply wp_mono; [exact Hk|]. intros k' s' F. split; [exact F|]. by intros [? ?]. }
  intros k' s2 [H2 Hk]. cbv beta.
  eapply wp_mono; [apply (keeps_send (own_vote s typeB (BlockID.mk (default [] hash) header) R) no_timeout)|].
  - exists (withResult v hash k'), addr. split_and!; [done|done|by rewrite withResult_ballot|]. intros h ks -> -> ->.
    rewrite Hk by done. unfold withResult, bytes_equal. by rewrite bool_decide_true.
  - intros ? s3 H3. eapply frame_of_trans; [exact H1|]. eapply frame_of_trans; [exact H2|exact H3].
Qed.

Lemma voteNil_frame s typeB :
  wp (voteNil typeB) (fun _ s' => frame_of (own_vote s typeB BlockID.empty (fun _ => True)) no_timeout s s') s.
Proof.
  eapply wp_mono; [apply signAddVote_frame|]. intros ? s' F. eapply frame_of_mono; [|done|exact F].
  intros m (v & addr & H1 & H2 & H3 & _). by exists v, addr.
Qed.
End Signing.

(** ** Locks, polkas and what may be signed *)

Section Relations.
Context {L : Lib} {HL : LibLaws L} {E : Env} {HE : EnvLaws E}.
Implicit Types (s : ConsensusState.t) (v : HeightVoteSet.t) (b : Block) (w : Vote.t).

Definition ht s : Z := RoundState.Height (ConsensusState.rs s).
Definition rd s : Z := RoundState.Round (ConsensusState.rs s).
Definition stp s : Z := RoundState.Step (ConsensusState.rs s).
Definition lockRound s : Z := RoundState.LockedRound (ConsensusState.rs s).
Definition lockBlock s : option Block := RoundState.LockedBlock (ConsensusState.rs s).
Definition vts s : option HeightVoteSet.t := RoundState.Votes (ConsensusState.rs s).
Definition commitRound s : Z := RoundState.CommitRound (ConsensusState.rs s).

Lemma EqualHashes_spec h1 h2 : EqualHashes h1 h2 = true <-> h1 = h2 /\ h1 <> [].
Proof.
  unfold EqualHashes, bytes_equal, zlen. destruct h1 as [|x1 h1], h2 as [|x2 h2]; cbn [length]; try (split; [done|by intros [??]]).
  rewrite !(proj2 (Z.eqb_neq _ _)) by lia. cbn [orb]. rewrite bool_decide_eq_true. naive_solver.
Qed.

(** The votes of a height only grow, by votes in [X]. *)
Definition hvs_ext (X : Vote.t -> Prop) v v' : Prop :=
  same_height v v' /\
  (forall r t vs, HeightVoteSet.getVoteSet v r t = Some vs -> exists vs', HeightVoteSet.getVoteSet v' r t = Some vs' /\ extends vs vs') /\
  forall w, kept v' w -> X w \/ kept v w.

Lemma hvs_ext_refl X v : hvs_ext X v v.
Proof. split_and!; [done| |by right]. intros r t vs H. exists vs. split; [done|apply extends_refl]. Qed.

Lemma hvs_ext_trans X v1 v2 v3 : hvs_ext X v1 v2 -> hvs_ext X v2 v3 -> hvs_ext X v1 v3.
Proof.
  intros ((A1 & A2 & A3) & A4 & A5) ((B1 & B2 & B3) & B4 & B5). split_and!; [unfold same_height; split_and!; congruence| |].
  - intros r t vs H. destruct (A4 r t vs H) as (vs1 & H1 & E1). destruct (B4 r t vs1 H1) as (vs2 & H2 & E2).
    exists vs2. split; [done|by eapply extends_trans].
  - intros w Hw. destruct (B5 w Hw) as [?|H]; [by left|by apply A5].
Qed.

(** Two thirds prevoted [bid] in round [r]. *)
Definition polka v (r : Z) (bid : BlockID.t) : Prop :=
  exists vs, HeightVoteSet.Prevotes v r = Some vs /\ VoteSet.maj23 vs = Some bid.

(** Two thirds precommitted [bid] in round [r]. *)
Definition commit v (r : Z) (bid : BlockID.t) : Prop :=
  exists vs, HeightVoteSet.Precommits v r = Some vs /\ VoteSet.maj23 vs = Some bid.

Lemma polka_ext X v v' r bid : hvs_ext X v v' -> polka v r bid -> polka v' r bid.
Proof.
  intros (_ & He & _) (vs & Hv & Hm). destruct (He _ _ _ Hv) as (vs' & Hv' & Hx). exists vs'. split; [done|by apply (ext_maj _ _ Hx)].
Qed.

Lemma commit_ext X v v' r bid : hvs_ext X v v' -> commit v r bid -> commit v' r bid.
Proof.
  intros (_ & He & _) (vs & Hv & Hm). destruct (He _ _ _ Hv) as (vs' & Hv' & Hx). exists vs'. split; [done|by apply (ext_maj _ _ Hx)].
Qed.

(** A polka after round [r], up to round [r1], for something else than [hash]. *)
Definition polka_after v (r : Z) (hash : bytes) (r1 : Z) : Prop :=
  exists r' bid, r < r' <= r1 /\ polka v r' bid /\ EqualHashes hash (BlockID.Hash bid) = false.

(** Another block was committed. *)
Definition other_commit v (hash : bytes) : Prop :=
  exists r bid, commit v r bid /\ BlockID.Hash bid <> [] /\ BlockID.Hash bid <> hash.

(** A reason not to prevote [hash] after a lock in round [r]. *)
Definition excuse v (r : Z) (hash : bytes) (r1 : Z) : Prop := polka_after v r hash r1 \/ other_commit v hash.

Lemma polka_after_ext X v v' r r0 hash r1 r1' : hvs_ext X v v' -> r0 <= r -> r1 <= r1' -> polka_after v r hash r1 -> polka_after v' r0 hash r1'.
Proof. intros He H0 H1 (r' & bid & Hr & Hp & Hn). exists r', bid. split_and!; [lia|lia|by eapply polka_ext|done]. Qed.

Lemma other_commit_ext X v v' hash : hvs_ext X v v' -> other_commit v hash -> other_commit v' hash.
Proof. intros He (r & bid & Hc & Hn). exists r, bid. split; [by eapply commit_ext|done]. Qed.

Lemma excuse_ext X v v' r r0 hash r1 r1' : hvs_ext X v v' -> r0 <= r -> r1 <= r1' -> excuse v r hash r1 -> excuse v' r0 hash r1'.
Proof. intros He H0 H1 [H|H]; [left; by eapply polka_after_ext|right; by eapply other_commit_ext]. Qed.

(** The lock is on a block with a polka in the round of the lock, which the
    machine has precommitted in, and the agent accepts the block unless another
    one was committed. *)
Definition locked_ok (accepts : Block -> Prop) (r stp lr : Z) (lb : option Block) v : Prop :=
  forall b, lb = Some b -> (lr < r \/ lr = r /\ RoundStepPrecommit <= stp) /\ 0 <= lr /\
    (exists bid, polka v lr bid /\ EqualHashes (BlockHash b) (BlockID.Hash bid) = true) /\
    (accepts b \/ other_commit v (BlockHash b)).

(** A stored block hashes to the block of its commit, which verifies. *)
Definition stored_ok (chain : string) (n : Z) (meta : BlockMeta.t) : Prop :=
  NumberU64 (BlockMeta.Block_ meta) = n /\
  EqualHashes (BlockHash (BlockMeta.Block_ meta)) (BlockID.Hash (BlockMeta.BlockID meta)) = true /\
  exists (vals vals' : ValidatorSet.t) height, quorate vals /\
    ValidatorSet.VerifyCommit vals chain (BlockMeta.BlockID meta) height (BlockMeta.SeenCommit meta) = Ret (None, vals').

Definition store_ok (chain : string) (store : BlockStore.t) : Prop :=
  forall n meta, BlockStore.blocks store !! n = Some meta -> stored_ok chain n meta.

Definition chainOf s : string := StateAgentImpl.ChainID (ConsensusState.state s).

Record Inv s v : Prop := {
  inv_votes : vts s = Some v;
  inv_wf : hvs_wf v;
  inv_height : HeightVoteSet.height v = ht s;
  inv_chain : HeightVoteSet.chainID v = chainOf s;
  inv_round : 0 <= rd s < max_i64;
  inv_step : 1 <= stp s;
  inv_lock : locked_ok (in_range s) (rd s) (stp s) (lockRound s) (lockBlock s) v;
  inv_vals : quorate (StateAgentImpl.Validators (ConsensusState.state s));
  inv_store : store_ok (chainOf s) (ConsensusState.blockStore s);
  inv_tall : heightOf s < 2 ^ 62 -> ht s <= heightOf s + 1
}.

(** A lock is kept, possibly for a later round, or a later polka justifies
    giving it up. *)
Definition lock_change s s' v' : Prop :=
  forall b, lockBlock s = Some b ->
    (lockBlock s' = Some b /\ lockRound s <= lockRound s') \/ polka_after v' (lockRound s) (BlockHash b) (rd s').

(** The step in which a vote is cast, and the order of the votes of a height. *)
Definition voteStep w : Z := if Vote.Type_ w =? VoteTypePrevote then RoundStepPrevote else RoundStepPrecommit.
Definition after (r st : Z) w : Prop := r < Vote.Round w \/ r = Vote.Round w /\ st < voteStep w.
Definition upto (r st : Z) w : Prop := Vote.Round w < r \/ Vote.Round w = r /\ voteStep w <= st.

(** A precommit that counts for a block. *)
Definition commits_to w : Prop :=
  Vote.Type_ w = VoteTypePrecommit /\ BlockID.Hash (Vote.BlockID w) <> [] /\ Vote.Result w = VoteAgree.

(** The machine is bound to [hash] since round [r]. *)
Definition held s v (r : Z) (hash : bytes) : Prop :=
  (exists b, lockBlock s = Some b /\ BlockHash b = hash /\ r <= lockRound s) \/ polka_after v r hash (rd s).

(** What may be voted on the way from [s] to [s'], where the votes are [v']: a
    vote of this machine for the current height and a step in between; a prevote
    of a locked machine only for the locked block or with an excuse; a precommit
    for a block only with its polka in the same round. *)
Definition sends_ok s s' v' w : Prop :=
  Vote.Height w = ht s /\ addrOf s = Some (Vote.ValidatorAddress w) /\
  after (rd s) (stp s) w /\ upto (rd s') (stp s') w /\
  (Vote.Type_ w = VoteTypePrevote /\
     (forall b, lockBlock s = Some b -> BlockID.Hash (Vote.BlockID w) = BlockHash b \/
        excuse v' (lockRound s) (BlockHash b) (rd s')) \/
   Vote.Type_ w = VoteTypePrecommit /\
     (BlockID.Hash (Vote.BlockID w) = [] \/ polka v' (Vote.Round w) (Vote.BlockID w))).

(** A precommit that counts for a block binds the machine to it. *)
Definition vow s' v' w : Prop := commits_to w -> held s' v' (Vote.Round w) (BlockID.Hash (Vote.BlockID w)).

(** The votes are in the order of their steps, and a prevote after a precommit
    that counts for a block is for that block or excused. *)
Definition follows (r1 : Z) v' w1 w2 : Prop :=
  after (Vote.Round w1) (voteStep w1) w2 /\
  (commits_to w1 -> Vote.Type_ w2 = VoteTypePrevote ->
     BlockID.Hash (Vote.BlockID w2) = BlockID.Hash (Vote.BlockID w1) \/
     excuse v' (Vote.Round w1) (BlockID.Hash (Vote.BlockID w1)) r1).

(** The votes among messages. *)
Definition voteOf (m : ConsensusMessage) : option Vote.t := match m with VoteMessage v => v | _ => None end.
Definition votesOf (l : list msgInfo.t) : list Vote.t := omap (fun mi => voteOf (msgInfo.Msg mi)) l.

(** Timeouts are scheduled for rounds the machine has reached. *)
Definition reached s' (ti : timeoutInfo.t) : Prop := timeoutInfo.Height ti = ht s' /\ timeoutInfo.Round ti <= rd s'.

(** Who the machine is: its chain, committee and address. *)
Definition identity s : string * list Validator.t * option bytes :=
  (chainOf s, ValidatorSet.Validators (StateAgentImpl.Validators (ConsensusState.state s)), addrOf s).

Record sends s s' v' (l : list Vote.t) : Prop := {
  se_each : Forall (sends_ok s s' v') l;
  se_order : StronglySorted (follows (rd s') v') l;
  se_vows : Forall (vow s' v') l
}.

(** What a transition inside a height may do, where the votes in [X] may be
    added. *)
Record within (X : Vote.t -> Prop) s s' : Prop := {
  wi_height : ht s' = ht s;
  wi_round : rd s < rd s' \/ rd s = rd s' /\ stp s <= stp s';
  wi_votes : exists v v', vts s = Some v /\ vts s' = Some v' /\ hvs_ext X v v' /\ lock_change s s' v' /\
    (exists l, ConsensusState.internalMsgQueue s' = ConsensusState.internalMsgQueue s ++ l /\ sends s s' v' (votesOf l)) /\
    (exists l, ConsensusState.timeoutTicker s' = ConsensusState.timeoutTicker s ++ l /\ Forall (reached s') l);
  wi_identity : identity s' = identity s;
  wi_store : ConsensusState.blockStore s' = ConsensusState.blockStore s;
  wi_tall : heightOf s <= heightOf s'
}.

Lemma held_within X s s' v v' r hash : vts s = Some v -> vts s' = Some v' -> within X s s' -> held s v r hash -> held s' v' r hash.
Proof.
  intros V V' [_ W2 (x & y & X1 & X2 & X3 & Hl & _) _ _ _]. assert (x = v) as -> by congruence. assert (y = v') as -> by congruence.
  intros [(b & Hb & Hh & Hr)|Hp].
  - destruct (Hl b Hb) as [[Hb' Hlr]|Ha]; [left; exists b; split_and!; [done|done|lia]|right]. rewrite <- Hh.
    eapply polka_after_ext; [apply (hvs_ext_refl X)|exact Hr|apply Z.le_refl|exact Ha].
  - right. eapply polka_after_ext; [exact X3|apply Z.le_refl| |exact Hp]. lia.
Qed.

Lemma sends_ok_right X s1 s2 s3 v2 v3 w : vts s2 = Some v2 -> vts s3 = Some v3 -> within X s2 s3 ->
  sends_ok s1 s2 v2 w -> sends_ok s1 s3 v3 w.
Proof.
  intros V2 V3 [W1 W2 (x & y & X1 & X2 & X3 & _) _ _ _]. assert (x = v2) as -> by congruence. assert (y = v3) as -> by congruence.
  unfold sends_ok, after, upto. intros (H1 & Ha & H2 & H2' & H3). split_and!; [done|done|done|lia|].
  destruct H3 as [(Ht & Hp)|(Ht & [Hn|Hp])]; [|by right; split; [|left]|].
  - left. split; [done|]. intros b Hb. destruct (Hp b Hb) as [?|He]; [by left|right].
    eapply excuse_ext; [exact X3|apply Z.le_refl| |exact He]. lia.
  - right. split; [done|]. right. by eapply polka_ext.
Qed.

Lemma identity_addr s s' : identity s' = identity s -> addrOf s' = addrOf s.
Proof. unfold identity. intros H. by injection H. Qed.

Lemma sends_ok_left X s1 s2 s3 v2 v3 w : vts s2 = Some v2 -> vts s3 = Some v3 -> within X s1 s2 -> within X s2 s3 ->
  sends_ok s2 s3 v3 w -> sends_ok s1 s3 v3 w.
Proof.
  intros V2 V3 [W1 W2 (x & y & X1 & X2 & X3 & Hlock & _) W4 _ _] [U1 U2 (x' & y' & Y1 & Y2 & Y3 & _) _ _ _].
  assert (y = v2) as -> by congruence. assert (x' = v2) as -> by congruence. assert (y' = v3) as -> by congruence.
  unfold sends_ok, after. rewrite W1, (identity_addr _ _ W4). intros (H1 & Ha & H2 & H2' & H3). split_and!; [done|done|lia|done|].
  destruct H3 as [(Ht & Hp)|H3]; [|by right].
  left. split; [done|]. intros b Hb. destruct (Hlock b Hb) as [[Hb2 Hlr]|Hpa].
  - destruct (Hp b Hb2) as [?|He]; [by left|right]. eapply excuse_ext; [apply (hvs_ext_refl X)|exact Hlr|apply Z.le_refl|exact He].
  - right. left. eapply polka_after_ext; [exact Y3|apply Z.le_refl| |exact Hpa]. lia.
Qed.

(** A vote after one that bound the machine. *)
Lemma vow_follows X s2 s3 v2 v3 w1 w2 : vts s2 = Some v2 -> vts s3 = Some v3 -> within X s2 s3 ->
  upto (rd s2) (stp s2) w1 -> vow s2 v2 w1 -> sends_ok s2 s3 v3 w2 -> follows (rd s3) v3 w1 w2.
Proof.
  intros V2 V3 [_ U2 (x & y & X1 & X2 & X3 & _) _ _ _] Hu Hv (_ & _ & Ha & _ & Hs).
  assert (x = v2) as -> by congruence. assert (y = v3) as -> by congruence. split; [unfold after, upto in *; lia|].
  intros Hc Ht. destruct Hs as [[_ Hs]|[Ht' _]]; [|by rewrite Ht in Ht'].
  destruct (Hv Hc) as [(b & Hb & Hh & Hr)|Hp].
  - destruct (Hs b Hb) as [He|He]; [left; congruence|right]. rewrite <- Hh.
    eapply excuse_ext; [apply (hvs_ext_refl X)|exact Hr|apply Z.le_refl|exact He].
  - right. left. eapply polka_after_ext; [exact X3|apply Z.le_refl| |exact Hp]. lia.
Qed.

Lemma follows_mono X v v' r r' w1 w2 : hvs_ext X v v' -> r <= r' -> follows r v w1 w2 -> follows r' v' w1 w2.
Proof.
  intros He Hr [H1 H2]. split; [done|]. intros Hc Ht. destruct (H2 Hc Ht) as [?|H]; [by left|right].
  eapply excuse_ext; [exact He|apply Z.le_refl|exact Hr|exact H].
Qed.

Lemma sorted_mono {A} (R R' : A -> A -> Prop) l : (forall x y, R x y -> R' x y) -> StronglySorted R l -> StronglySorted R' l.
Proof.
  intros HR. induction 1 as [|x l Hs IH Hx]; constructor; [done|]. eapply Forall_impl; [exact Hx|]. apply HR.
Qed.

Lemma sends_trans X s1 s2 s3 v2 v3 l1 l2 : vts s2 = Some v2 -> vts s3 = Some v3 -> within X s1 s2 -> within X s2 s3 ->
  sends s1 s2 v2 l1 -> sends s2 s3 v3 l2 -> sends s1 s3 v3 (l1 ++ l2).
Proof.
  intros V2 V3 W12 W23 [A1 A2 A3] [B1 B2 B3]. pose proof W23 as [_ U2 (x & y & X1 & X2 & X3 & _) _ _ _].
  assert (x = v2) as -> by congruence. assert (y = v3) as -> by congruence. split.
  - apply Forall_app. split.
    + eapply Forall_impl; [exact A1|]. intros w. by apply (sends_ok_right X).
    + eapply Forall_impl; [exact B1|]. intros w. by apply (sends_ok_left X _ s2 _ v2).
  - apply StronglySorted_app. split_and!; [|eapply sorted_mono; [|exact A2]; intros w1 w2; apply (follows_mono X v2 v3); [exact X3|lia]|exact B2].
    intros w1 w2 H1 H2. rewrite Forall_forall in A1, A3, B1. destruct (A1 w1 H1) as (_ & _ & _ & Hu & _).
    by apply (vow_follows X s2 s3 v2 v3); auto.
  - apply Forall_app. split; [|done]. eapply Forall_impl; [exact A3|]. intros w Hv Hc. by eapply (held_within X s2 s3); auto.
Qed.

Lemma sends_nil s s' v' : sends s s' v' [].
Proof. split; constructor. Qed.

Lemma within_refl X s v : vts s = Some v -> within X s s.
Proof.
  intros V. split; [done|right; lia| |done|done|lia]. exists v, v. split_and!; try done; [apply hvs_ext_refl| | |].
  - intros b Hb. left. split; [done|lia].
  - exists []. rewrite app_nil_r. split; [done|apply sends_nil].
  - exists []. by rewrite app_nil_r.
Qed.

Lemma votesOf_app l1 l2 : votesOf (l1 ++ l2) = votesOf l1 ++ votesOf l2.
Proof. apply omap_app. Qed.

Lemma within_trans X s1 s2 s3 : within X s1 s2 -> within X s2 s3 -> within X s1 s3.
Proof.
  intros W12 W23. pose proof W12 as [A1 A2 (v1 & v2 & V1 & V2 & X12 & L12 & (l12 & Q12 & F12) & (k12 & T12 & G12)) A4 A5 A6].
  pose proof W23 as [B1 B2 (v2' & v3 & V2' & V3 & X23 & L23 & (l23 & Q23 & F23) & (k23 & T23 & G23)) B4 B5 B6].
  assert (v2' = v2) as -> by congruence. split; [congruence|lia| |congruence|congruence|lia].
  exists v1, v3. split_and!; [done|done|by eapply hvs_ext_trans| | |].
  - intros b Hb. destruct (L12 b Hb) as [[Hb2 Hlr]|Ha].
    + destruct (L23 b Hb2) as [[Hb3 Hlr3]|Ha]; [left; split; [done|lia]|right].
      eapply polka_after_ext; [apply (hvs_ext_refl X)|exact Hlr|apply Z.le_refl|exact Ha].
    + right. eapply polka_after_ext; [exact X23|apply Z.le_refl| |exact Ha]. lia.
  - exists (l12 ++ l23). split; [by rewrite Q23, Q12, app_assoc|]. rewrite votesOf_app. by eapply (sends_trans X s1 s2 s3).
  - exists (k12 ++ k23). split; [by rewrite T23, T12, app_assoc|]. apply Forall_app. split; [|done].
    eapply Forall_impl; [exact G12|]. intros ti [? ?]. split; [congruence|lia].
Qed.

(** [s'] has the core [c] and is otherwise like [s], with more messages and
    timeouts. *)
Definition shifted (P : ConsensusMessage -> Prop) (Q : timeoutInfo.t -> Prop) s
    (c : Z * Z * Z * Z * option Block * option HeightVoteSet.t * Z) s' : Prop :=
  core s' = c /\ agentCore s' = agentCore s /\
  (ConsensusState.blockStore s' = ConsensusState.blockStore s /\ heightOf s <= heightOf s') /\
  (exists l, ConsensusState.internalMsgQueue s' = ConsensusState.internalMsgQueue s ++ l /\
     Forall (fun m => P (msgInfo.Msg m)) l) /\
  (exists l, ConsensusState.timeoutTicker s' = ConsensusState.timeoutTicker s ++ l /\ Forall Q l).

Lemma shifted_trans P Q s1 s2 s3 c c' : shifted P Q s1 c s2 -> shifted P Q s2 c' s3 -> shifted P Q s1 c' s3.
Proof.
  intros (A1 & A2 & [A3 A6] & (l1 & A4 & F1) & (k1 & A5 & G1)) (B1 & B2 & [B3 B6] & (l2 & B4 & F2) & (k2 & B5 & G2)).
  split_and!; [done|congruence|congruence|lia|exists (l1 ++ l2)|exists (k1 ++ k2)].
  - by rewrite B4, A4, app_assoc, Forall_app.
  - by rewrite B5, A5, app_assoc, Forall_app.
Qed.

Lemma shifted_frame P Q s1 s2 s3 c : frame_of P Q s1 s2 -> shifted P Q s2 c s3 -> shifted P Q s1 c s3.
Proof. intros HF. apply (shifted_trans P Q s1 s2 s3 (core s1)). exact HF. Qed.

Lemma frame_shifted P Q s1 s2 s3 c : shifted P Q s1 c s2 -> frame_of P Q s2 s3 -> shifted P Q s1 c s3.
Proof.
  intros HS HF. pose proof HS as (C & _). subst c. exact (shifted_trans P Q s1 s2 s3 _ _ HS HF).
Qed.

Lemma agentCore_quorate s s' : agentCore s' = agentCore s ->
  identity s' = identity s /\ chainOf s' = chainOf s /\
  (quorate (StateAgentImpl.Validators (ConsensusState.state s)) -> quorate (StateAgentImpl.Validators (ConsensusState.state s'))).
Proof.
  unfold agentCore, identity, chainOf. intros H. injection H as H1 H2 H3 _ _ H4. split_and!; [congruence|done|].
  unfold quorate, cache_ok. by rewrite H2, H3.
Qed.

(** The number of votes in the queue. *)
Definition nvotes s : Z := zlen (votesOf (ConsensusState.internalMsgQueue s)).

Lemma votesOf_elem w l : w ∈ votesOf l <-> exists mi, mi ∈ l /\ msgInfo.Msg mi = VoteMessage (Some w).
Proof.
  unfold votesOf. rewrite list_elem_of_omap. split; intros (mi & Hin & Hm); exists mi; (split; [done|]).
  - unfold voteOf in Hm. by destruct (msgInfo.Msg mi) as [|?? ?|o|]; subst.
  - by rewrite Hm.
Qed.

(** A single vote. *)
Lemma sends_one s s' v' l : zlen (votesOf l) <= 1 ->
  (forall mi w, mi ∈ l -> msgInfo.Msg mi = VoteMessage (Some w) -> sends_ok s s' v' w /\ vow s' v' w) -> sends s s' v' (votesOf l).
Proof.
  intros Hl H. assert (forall w, w ∈ votesOf l -> sends_ok s s' v' w /\ vow s' v' w) as Hw.
  { intros w (mi & Hin & Hm)%votesOf_elem. by eapply H. }
  split; [apply Forall_forall; intros w Hin; by apply Hw| |apply Forall_forall; intros w Hin; by apply Hw].
  unfold zlen in Hl. destruct (votesOf l) as [|w [|w' l']]; [constructor|by repeat constructor|cbn in Hl; lia].
Qed.

(** The general transition inside a height. *)
Lemma shifted_within X P Q s v s' r' st' lr' lb' v' cr' : Inv s v ->
  shifted P Q s (ht s, r', st', lr', lb', Some v', cr') s' ->
  hvs_wf v' -> hvs_ext X v v' -> 0 <= r' < max_i64 -> 1 <= st' -> rd s < r' \/ rd s = r' /\ stp s <= st' ->
  locked_ok (in_range s) r' st' lr' lb' v' -> lock_change s s' v' -> nvotes s' <= nvotes s + 1 ->
  (forall w, P (VoteMessage (Some w)) -> sends_ok s s' v' w /\ vow s' v' w) -> (forall ti, Q ti -> reached s' ti) ->
  Inv s' v' /\ within X s s'.
Proof.
  intros [I1 I2 I3 I4 I5 I6 I7 I8 I9 I10] (C & A & [B B'] & (l & Q1 & F1) & (k & T1 & G1)) Hwf Hext Hr Hst Hrs Hlock Hlc Hn HP HQ.
  unfold core, coreOf in C. injection C as C1 C2 C3 C4 C5 C6 C7.
  destruct (agentCore_quorate s s' A) as (Hid & Hchain & Hq). split.
  - destruct Hext as ((E1 & E2 & E3) & _). split; try done.
    + by rewrite E2, I3.
    + by rewrite E1, I4, Hchain.
    + unfold rd. by rewrite C2.
    + unfold stp. by rewrite C3.
    + unfold rd, stp, lockRound, lockBlock. rewrite C2, C3, C4, C5. intros b Hb. destruct (Hlock b Hb) as (H1 & H2 & H3 & H4).
      split_and!; [done|done|done|]. by rewrite (in_range_same s s').
    + by apply Hq.
    + by rewrite Hchain, B.
    + intros Ht. unfold ht in *. rewrite C1. lia.
  - split; [done|unfold rd, stp in *; by rewrite C2, C3| |done|done|done].
    exists v, v'. split_and!; try done.
    + exists l. split; [done|]. apply sends_one.
      * unfold nvotes in Hn. rewrite Q1, votesOf_app in Hn. unfold zlen in *. rewrite length_app in Hn. lia.
      * intros mi w Hin Hm. apply HP. rewrite Forall_forall in F1. rewrite <- Hm. by apply F1.
    + exists k. split; [done|]. eapply Forall_impl; [exact G1|]. exact HQ.
Qed.

(** No vote among the messages. *)
Definition not_vote (m : ConsensusMessage) : Prop := match m with VoteMessage _ => False | _ => True end.

Lemma frame_nvotes P Q s s' : (forall m, P m -> not_vote m) -> frame_of P Q s s' -> nvotes s' = nvotes s.
Proof.
  intros HP (_ & _ & _ & (l & Q1 & F1) & _). unfold nvotes. rewrite Q1, votesOf_app. enough (votesOf l = []) as -> by (by rewrite app_nil_r).
  clear Q1. induction F1 as [|mi l Hm _ IH]; [done|]. apply HP in Hm. unfold votesOf, voteOf, not_vote in *. cbn. by destruct (msgInfo.Msg mi).
Qed.

(** No change of the core and no vote. *)
Lemma frame_within X P Q s v s' : Inv s v -> frame_of P Q s s' ->
  (forall m, P m -> not_vote m) -> (forall ti, Q ti -> reached s' ti) -> Inv s' v /\ within X s s'.
Proof.
  intros HI HF HP HQ. pose proof HI as [I1 I2 I3 I4 I5 I6 I7 I8 I9 I10]. pose proof (frame_nvotes P Q s s' HP HF) as Hn.
  eapply (shifted_within X P Q s v s' (rd s) (stp s) (lockRound s) (lockBlock s) v (commitRound s)); try done.
  - destruct HF as (C & HF). split; [|done]. rewrite C. unfold core, coreOf. by rewrite <- I1.
  - apply hvs_ext_refl.
  - right. lia.
  - destruct HF as (C & _). unfold core, coreOf in C. injection C as _ _ _ C4 C5 _ _. intros b Hb. left.
    unfold lockBlock, lockRound in *. rewrite C4, C5. split; [done|lia].
  - lia.
  - intros w Hw. by destruct (HP _ Hw).
Qed.
End Relations.

(** ** The transitions of a round *)

Section Casting.
Context {L : Lib} {HL : LibLaws L} {E : Env} {HE : EnvLaws E} (config : Config.t) (X : Vote.t -> Prop).
Implicit Types (s : ConsensusState.t) (v : HeightVoteSet.t) (b : Block).

Definition nothing {A} (x : A) : Prop := False.

Lemma shifted_mono P Q (P' : ConsensusMessage -> Prop) (Q' : timeoutInfo.t -> Prop) s c s' :
  (forall m, P m -> P' m) -> (forall ti, Q ti -> Q' ti) -> shifted P Q s c s' -> shifted P' Q' s c s'.
Proof.
  intros HP HQ (A1 & A2 & A3 & (l & A4 & F) & (k & A5 & G)). split; [done|]. split; [done|]. split; [done|]. split.
  - exists l. split; [done|]. eapply Forall_impl; [exact F|]. auto.
  - exists k. split; [done|]. eapply Forall_impl; [exact G|]. auto.
Qed.

Lemma frame_core P Q s s' : frame_of P Q s s' ->
  ht s' = ht s /\ rd s' = rd s /\ stp s' = stp s /\ lockRound s' = lockRound s /\ lockBlock s' = lockBlock s /\
  vts s' = vts s /\ commitRound s' = commitRound s.
Proof. intros (C & _). unfold core, coreOf in C. injection C as ???????. by split_and!. Qed.

Lemma frame_addr P Q s s' : frame_of P Q s s' -> addrOf s' = addrOf s.
Proof. intros (_ & A & _). unfold agentCore in A. by injection A. Qed.

Lemma shifted_core P Q s s' h r st lr lb vs cr : shifted P Q s (h, r, st, lr, lb, vs, cr) s' ->
  ht s' = h /\ rd s' = r /\ stp s' = st /\ lockRound s' = lr /\ lockBlock s' = lb /\ vts s' = vs /\ commitRound s' = cr.
Proof. intros (C & _). unfold core, coreOf in C. injection C as ???????. by split_and!. Qed.

Lemma shifted_addr P Q s c s' : shifted P Q s c s' -> addrOf s' = addrOf s.
Proof. intros (_ & A & _). unfold agentCore in A. by injection A. Qed.

(** [updateRoundStep] and [newStep]. *)
Lemma advance_wp s round step :
  wp (updateRoundStep round step;; newStep)
    (fun _ s' => shifted nothing nothing s (ht s, u64 round, step, lockRound s, lockBlock s, vts s, commitRound s) s') s.
Proof.
  apply wp_bind, wp_modify. eapply wp_mono; [apply (keeps_newStep nothing nothing)|]. intros ? s' HF. cbv beta.
  eapply frame_shifted; [|exact HF]. split_and!; try done; exists []; by rewrite app_nil_r.
Qed.

Lemma own_vote_core s s1 t bid R m : ht s1 = ht s -> rd s1 = rd s -> addrOf s1 = addrOf s -> own_vote s1 t bid R m -> own_vote s t bid R m.
Proof.
  unfold own_vote, ht, rd. intros E1 E2 E3 (vote & addr & Hm & Ha & Hb & HR). exists vote, addr. split_and!; [done|congruence| |done].
  by rewrite <- E1, <- E2.
Qed.

(** ** How many votes are cast *)

(** At most [n] votes are queued. *)
Definition casts {A} (n : Z) (m : M A) : Prop := forall s, wp m (fun _ s' => nvotes s' <= nvotes s + n) s.

Lemma casts_keeps {A} n (m : M A) : 0 <= n -> keeps not_vote nothing m -> casts n m.
Proof.
  intros Hn Hm s. eapply wp_mono; [apply Hm|]. intros a s' F. rewrite (frame_nvotes not_vote nothing s s'); [lia|done|exact F].
Qed.

Lemma casts_bind {A B} n (m : M A) (f : A -> M B) : casts 0 m -> (forall a, casts n (f a)) -> casts n (m ≫= f).
Proof.
  intros Hm Hf s. apply wp_bind. eapply wp_mono; [apply Hm|]. intros a s1 H1. cbv beta.
  eapply wp_mono; [apply Hf|]. intros b s2 H2. cbv beta in *. lia.
Qed.

Lemma casts_modify n f : 0 <= n -> (forall s, ConsensusState.internalMsgQueue (f s) = ConsensusState.internalMsgQueue s) -> casts n (modify f).
Proof. intros Hn Hf s. apply wp_modify. unfold nvotes. rewrite Hf. lia. Qed.

Lemma casts_when n (b : bool) m : 0 <= n -> casts n m -> casts n (when b m).
Proof. intros Hn Hm. destruct b; [done|]. intros s. apply wp_ret. lia. Qed.

Lemma casts_panic {A} n why : casts n (panic (A := A) why).
Proof. done. Qed.

Lemma casts_sign typeB hash header k : casts 1 (signAddVote typeB hash header k).
Proof.
  intros s. unfold signAddVote. apply wp_bind, wp_gets. destruct (ConsensusState.privValidator s) as [pv|]; [|apply wp_ret; lia].
  apply wp_bind, validators_wp. intros vals _. apply wp_bind, wp_lift. intros has _.
  destruct (negb has); [apply wp_ret; lia|].
  apply wp_bind. eapply wp_mono; [apply (signVote_frame s _ _ _ not_vote nothing)|]. intros [v err] s1 (H1 & _). cbn [fst snd] in *.
  apply frame_nvotes in H1; [|done]. destruct err; [apply wp_ret; lia|].
  apply wp_bind. eapply wp_mono; [apply (keeps_keptSign not_vote nothing)|]. intros k' s2 H2. apply frame_nvotes in H2; [|done].
  apply wp_modify. unfold nvotes. cbn -[votesOf]. rewrite votesOf_app. unfold zlen. rewrite length_app. cbn.
  unfold nvotes, zlen in H1, H2. lia.
Qed.
End Casting.

(** Solve [casts] goals structurally. *)
Ltac cast :=
  repeat lazymatch goal with
    | |- casts _ (signAddVote _ _ _ _) => apply casts_sign
    | |- casts _ (panic _) => apply casts_panic
    | |- casts _ (mbind _ _) => apply casts_bind; [|intros ?]
    | |- casts _ (when _ _) => apply casts_when; [lia|]
    | |- casts _ (modify _) => apply casts_modify; [lia|intros ?; reflexivity]
    | |- casts _ (modr _) => apply casts_modify; [lia|intros ?; reflexivity]
    | |- casts _ (match ?x with _ => _ end) => destruct x
    | |- casts _ (mret _) => apply casts_keeps; [lia|apply keeps_ret]
    | |- casts _ (gets _) => apply casts_keeps; [lia|apply keeps_gets]
    | |- casts _ (getr _) => apply casts_keeps; [lia|apply keeps_getr]
    | |- casts _ _ => apply casts_keeps; [lia|solve [auto with keepdb nocore]]
    end.

Section Transitions.
Context {L : Lib} {HL : LibLaws L} {E : Env} {HE : EnvLaws E} (config : Config.t) (X : Vote.t -> Prop).
Implicit Types (s : ConsensusState.t) (v : HeightVoteSet.t) (b : Block).

Lemma casts_doPrevote height round : casts 1 (defaultDoPrevote height round).
Proof. unfold defaultDoPrevote, prevoteFor, voteNil. cast. Qed.

Lemma casts_precommitPolka round bid : casts 1 (precommitPolka round bid).
Proof. unfold precommitPolka, relock, lockProposal, unlockForUnknown, unlock, lock, voteNil. cast. Qed.

(** A prevote for [b], or nil if the agent does not accept it. *)
Definition prevote_for s b (m : ConsensusMessage) : Prop :=
  exists bid, own_vote s VoteTypePrevote bid (fun _ => True) m /\ (BlockID.Hash bid = BlockHash b \/ ~ in_range s b).

Lemma own_vote_any s t bid R m : own_vote s t bid R m -> own_vote s t bid (fun _ => True) m.
Proof. intros (w & addr & H1 & H2 & H3 & _). by exists w, addr. Qed.

Lemma prevoteFor_frame s b parts : wp (prevoteFor b parts) (fun _ s' => frame_of (prevote_for s b) no_timeout s s') s.
Proof.
  unfold prevoteFor. apply wp_bind. eapply wp_mono; [apply (validateBlock_wp (prevote_for s b) no_timeout)|].
  intros k s1 [F1 Hk]. cbv beta. pose proof (frame_core _ _ _ _ F1) as (C1 & C2 & _). pose proof (frame_addr _ _ _ _ F1) as A1. destruct (k.1) as [ks|].
  - apply wp_bind. eapply wp_mono; [apply (keeps_partSet (prevote_for s b) no_timeout)|]. intros ps s2 F2. cbv beta.
    pose proof (frame_core _ _ _ _ F2) as (D1 & D2 & _). pose proof (frame_addr _ _ _ _ F2) as A2.
    eapply wp_mono; [apply signAddVote_frame|]. intros ? s3 F3. cbv beta.
    eapply frame_of_trans; [exact F1|]. eapply frame_of_trans; [exact F2|]. eapply frame_of_mono; [|done|exact F3].
    intros m Hm. eexists. split; [eapply own_vote_core; [| | |eapply own_vote_any, Hm]; congruence|by left].
  - eapply wp_mono; [apply voteNil_frame|]. intros ? s3 F3. cbv beta. eapply frame_of_trans; [exact F1|].
    eapply frame_of_mono; [|done|exact F3]. intros m Hm. eexists. split; [eapply own_vote_core; [| | |exact Hm]; congruence|by right].
Qed.

(** A prevote that respects the lock. *)
Definition free_prevote s (m : ConsensusMessage) : Prop :=
  exists bid, own_vote s VoteTypePrevote bid (fun _ => True) m /\
    forall b, lockBlock s = Some b -> BlockID.Hash bid = BlockHash b \/ ~ in_range s b.

Lemma doPrevote_frame s height round :
  wp (defaultDoPrevote height round) (fun _ s' => frame_of (free_prevote s) no_timeout s s') s.
Proof.
  unfold defaultDoPrevote. apply wp_bind, wp_gets. fold (lockBlock s). destruct (lockBlock s) as [b|] eqn:Hb.
  - apply wp_bind, wp_gets. eapply wp_mono; [apply prevoteFor_frame|]. intros ? s1 F1. eapply frame_of_mono; [|done|exact F1].
    intros m (bid & Hm & Hr); exists bid; (split; [done|]). intros b' Hb'. by assert (b' = b) as -> by congruence.
  - assert (forall bid m, own_vote s VoteTypePrevote bid (fun _ => True) m -> free_prevote s m) as Hfree.
    { intros bid m Hm. exists bid. split; [done|]. intros b' Hb'. congruence. }
    apply wp_bind, wp_gets. destruct (RoundState.ProposalBlock _) as [b|].
    + apply wp_bind, wp_gets. eapply wp_mono; [apply prevoteFor_frame|]. intros ? s1 F1. eapply frame_of_mono; [|done|exact F1].
      intros m (bid & Hm & _). by apply (Hfree bid).
    + eapply wp_mono; [apply voteNil_frame|]. intros ? s1 F1. eapply frame_of_mono; [|done|exact F1]. apply Hfree.
Qed.

Lemma voteStep_prevote w : Vote.Type_ w = VoteTypePrevote -> voteStep w = RoundStepPrevote.
Proof. unfold voteStep. by intros ->. Qed.

Lemma voteStep_precommit w : Vote.Type_ w = VoteTypePrecommit -> voteStep w = RoundStepPrecommit.
Proof. unfold voteStep. by intros ->. Qed.

Lemma free_prevote_sends s v s' w : Inv s v -> rd s' = rd s -> stp s < RoundStepPrevote <= stp s' ->
  free_prevote s (VoteMessage (Some w)) -> sends_ok s s' v w /\ vow s' v w.
Proof.
  intros HI E2 E3 (bid & (vote & addr & [= <-] & Ha & Hb & _) & Hlock). unfold ballot in Hb. injection Hb as B1 B2 B3 B4 B5.
  assert (vow s' v w) as Hv by (intros (Ht & _); rewrite B1 in Ht; discriminate Ht). split; [|exact Hv].
  unfold sends_ok, after, upto. rewrite (voteStep_prevote _ B1), B3, B4, B5. fold (rd s). split_and!; [done|done|right; lia|right; lia|].
  left. split; [done|]. intros b Hlb. destruct (Hlock b Hlb) as [?|Hn]; [by left|right; right].
  destruct (inv_lock _ _ HI b Hlb) as (_ & _ & _ & [?|?]); [by destruct Hn|done].
Qed.

Lemma before_spec s height round step : in_i64 round -> 0 <= rd s < max_i64 ->
  before height round step (ConsensusState.rs s) = true ->
  ht s = height /\ (rd s < round \/ rd s = round /\ stp s < step) /\ u64 round = round.
Proof.
  intros Hr Hrd. unfold before. fold (rd s) (ht s) (stp s).
  rewrite (i64_id (rd s)) by (unfold in_i64, min_i64, max_i64 in *; lia).
  destruct (Z.eqb_spec (ht s) height), (Z.ltb_spec round (rd s)), (Z.eqb_spec (rd s) round), (Z.leb_spec step (stp s));
    simpl; try done; intros _; (split; [done|split; [lia|]]);
    apply u64_id; unfold in_u64, two64, in_i64, max_i64 in *; lia.
Qed.

Lemma locked_ok_later acc r st r' st' lr lb v : r < r' \/ r = r' /\ st <= st' -> locked_ok acc r st lr lb v -> locked_ok acc r' st' lr lb v.
Proof. intros Hle H b Hb. destruct (H b Hb) as ([H1|[H1 H2]] & H3 & H4); split_and!; (lia || apply H4 || done). Qed.

(** A lock with more votes, in a later round or at a step that counts. *)
Lemma locked_ok_ext acc r st r' st' lr lb v v' : hvs_ext X v v' ->
  r < r' \/ r = r' /\ (st <= st' \/ st < RoundStepPrecommit) -> locked_ok acc r st lr lb v -> locked_ok acc r' st' lr lb v'.
Proof.
  intros He Hle H b Hb. destruct (H b Hb) as ([H1|[H1 H2]] & H3 & (bid & Hp & Hq) & H4); (split; [lia|]; split; [done|]; split;
    [exists bid; split; [by eapply polka_ext|done]|destruct H4 as [?|?]; [by left|right; by eapply other_commit_ext]]).
Qed.

Lemma shifted_nvotes P Q s c s' : (forall m, P m -> not_vote m) -> shifted P Q s c s' -> nvotes s' = nvotes s.
Proof.
  intros HP (_ & _ & _ & (l & Q1 & F1) & _). unfold nvotes. rewrite Q1, votesOf_app. enough (votesOf l = []) as -> by (by rewrite app_nil_r).
  clear Q1. induction F1 as [|mi l Hm _ IH]; [done|]. apply HP in Hm. unfold votesOf, voteOf, not_vote in *. cbn. by destruct (msgInfo.Msg mi).
Qed.

(** Steps of the same lock and votes. *)
Lemma step_within P Q s v s' r' st' cr' : Inv s v ->
  shifted P Q s (ht s, r', st', lockRound s, lockBlock s, vts s, cr') s' ->
  r' < max_i64 -> 1 <= st' -> rd s < r' \/ rd s = r' /\ stp s <= st' -> nvotes s' <= nvotes s + 1 ->
  (forall w, P (VoteMessage (Some w)) -> sends_ok s s' v w /\ vow s' v w) -> (forall ti, Q ti -> reached s' ti) -> Inv s' v /\ within X s s'.
Proof.
  intros HI HS Hr Hst Hrs Hn HP HQ. pose proof HI as [I1 I2 I3 I4 I5 I6 I7 I8 I9 I10]. rewrite I1 in HS.
  pose proof (shifted_core _ _ _ _ _ _ _ _ _ _ _ HS) as (_ & _ & _ & C4 & C5 & _).
  eapply (shifted_within X P Q); try done.
  - apply hvs_ext_refl.
  - lia.
  - by eapply locked_ok_later.
  - intros b Hb. left. rewrite C4, C5. split; [done|lia].
Qed.

(** A transition keeps the invariant and stays within the height; the votes are
    given because later transitions read them. *)
Definition goes (s0 : ConsensusState.t) v s' : Prop := Inv s' v /\ within X s0 s'.

Lemma enterPrevote_wp s v height round : Inv s v -> in_i64 round -> round <= rd s ->
  wp (enterPrevote height round) (fun _ s' => goes s v s') s.
Proof.
  intros HI Hr Hm. unfold enterPrevote. apply wp_bind, wp_gets. apply wp_when.
  2:{ intros _. split; [done|]. eapply within_refl, HI. }
  intros Hb. apply before_spec in Hb as (Hh & Hrs & Hu); [|done|apply HI]. pose proof (inv_round _ _ HI) as Hbnd.
  apply wp_bind. eapply wp_mono; [apply (keeps_isProposalComplete not_vote no_timeout)|]. intros c s1 F1. cbv beta.
  pose proof (frame_core _ _ _ _ F1) as (C1 & C2 & C3 & C4 & C5 & C6 & C7).
  apply wp_bind. eapply wp_mono; [apply wp_and; [apply doPrevote_frame|apply (casts_doPrevote height round)]|]. intros ? s2 [F2 N2]. cbv beta.
  pose proof (frame_core _ _ _ _ F2) as (D1 & D2 & D3 & D4 & D5 & D6 & D7).
  eapply wp_mono; [apply advance_wp|]. intros ? s3 S3. cbv beta.
  rewrite D1, D4, D5, D6, D7, C1, C4, C5, C6, C7, Hu in S3. pose proof (shifted_core _ _ _ _ _ _ _ _ _ _ _ S3) as (G1 & G2 & G3 & _).
  pose proof (frame_nvotes _ _ _ _ (fun m H => H) F1) as N1. pose proof (shifted_nvotes _ _ _ _ _ (fun m (H : nothing m) => False_ind _ H) S3) as N3.
  assert (frame_of (free_prevote s) no_timeout s1 s2) as F2'.
  { eapply frame_of_mono; [|done|exact F2]. intros m (bid & Hm' & Hl). exists bid. split; [exact (own_vote_core s s1 _ _ _ _ C1 C2 (frame_addr _ _ _ _ F1) Hm')|].
    intros b Hb. rewrite <- (in_range_same s s1) by apply F1. apply Hl. congruence. }
  eapply (step_within (fun m => not_vote m \/ free_prevote s m) no_timeout s v s3 round RoundStepPrevote (commitRound s)); [done| |lia|done| | | |done].
  - eapply shifted_frame; [eapply frame_of_mono; [| |exact F1]; [by left|done]|].
    eapply shifted_frame; [eapply frame_of_mono; [| |exact F2']; [by right|done]|]. eapply shifted_mono; [| |exact S3]; done.
  - unfold RoundStepPrevote in *. lia.
  - lia.
  - intros w [[]|Hw]. apply free_prevote_sends; [done|lia|rewrite G3; lia|done].
Qed.

(** Steps without a vote. *)
Lemma quiet_step P Q s v s' r' st' cr' : Inv s v ->
  shifted P Q s (ht s, r', st', lockRound s, lockBlock s, vts s, cr') s' ->
  r' < max_i64 -> 1 <= st' -> rd s < r' \/ rd s = r' /\ stp s <= st' ->
  (forall m, P m -> not_vote m) -> (forall ti, Q ti -> reached s' ti) -> Inv s' v /\ within X s s'.
Proof.
  intros HI HS Hr Hst Hrs HP HQ. eapply (step_within P Q); try done.
  - rewrite (shifted_nvotes _ _ _ _ _ HP HS). lia.
  - intros w Hw. by destruct (HP _ Hw).
Qed.

(** The wait steps. *)
Lemma wait_wp s v height round step dur (m : HeightVoteSet.t -> bool) why : Inv s v -> in_i64 round -> round < max_i64 ->
  1 <= step -> ht s = height -> rd s < round \/ rd s = round /\ stp s < step -> u64 round = round ->
  wp (v ← votes;
      if m v then panic why
      else scheduleTimeout dur height round step;; updateRoundStep round step;; newStep) (fun _ s' => goes s v s') s.
Proof.
  intros HI Hr Hm Hst Hh Hrs Hu. unfold votes. apply wp_bind, wp_bind, wp_gets, wp_nonNil. intros v' _.
  destruct (m v'); [apply wp_panic|].
  apply wp_bind. eapply wp_mono; [apply (keeps_schedule nothing (fun ti => timeoutInfo.Height ti = height /\ timeoutInfo.Round ti = round))|].
  { cbn. split; [done|done]. }
  intros ? s1 F1. cbv beta. pose proof (frame_core _ _ _ _ F1) as (C1 & C2 & C3 & C4 & C5 & C6 & C7).
  eapply wp_mono; [apply advance_wp|]. intros ? s2 S2. cbv beta. rewrite C1, C4, C5, C6, C7, Hu in S2.
  pose proof (shifted_core _ _ _ _ _ _ _ _ _ _ _ S2) as (G1 & G2 & _).
  eapply (quiet_step nothing (fun ti => timeoutInfo.Height ti = height /\ timeoutInfo.Round ti = round) s v s2 round step (commitRound s));
    [done| |done|done|lia|done|].
  - eapply shifted_frame; [exact F1|]. eapply shifted_mono; [| |exact S2]; done.
  - intros ti [T1 T2]. unfold reached. rewrite T1, T2. split; [congruence|lia].
Qed.

Lemma enterPrevoteWait_wp s v height round : Inv s v -> in_i64 round -> round < max_i64 ->
  wp (enterPrevoteWait config height round) (fun _ s' => goes s v s') s.
Proof.
  intros HI Hr Hm. unfold enterPrevoteWait. apply wp_bind, wp_gets. apply wp_when.
  - intros Hb. apply before_spec in Hb as (Hh & Hrs & Hu); [|done|apply HI].
    by apply (wait_wp _ _ _ _ _ _ (fun v => negb (VoteSet.HasTwoThirdsAny (HeightVoteSet.Prevotes v round)))).
  - intros _. split; [done|]. eapply within_refl, HI.
Qed.

Lemma enterPrecommitWait_wp s v height round : Inv s v -> in_i64 round -> round < max_i64 ->
  wp (enterPrecommitWait config height round) (fun _ s' => goes s v s') s.
Proof.
  intros HI Hr Hm. unfold enterPrecommitWait. apply wp_bind, wp_gets. apply wp_when.
  - intros Hb. apply before_spec in Hb as (Hh & Hrs & Hu); [|done|apply HI].
    by apply (wait_wp _ _ _ _ _ _ (fun v => negb (VoteSet.HasTwoThirdsAny (HeightVoteSet.Precommits v round)))).
  - intros _. split; [done|]. eapply within_refl, HI.
Qed.

(** ** Precommit and the lock *)

Lemma lock_wp s r (b : option Block) p pr : wp (lock r b p pr)
  (fun _ s' => shifted nothing nothing s (ht s, rd s, stp s, r, b, vts s, commitRound s) s') s.
Proof. apply wp_bind, wp_modify, wp_modify. split_and!; try done; exists []; by rewrite app_nil_r. Qed.

(** A precommit for nil, or for [bid] with a result that only counts if [ok]. *)
Definition precommit_for s (bid : BlockID.t) (ok : Prop) (m : ConsensusMessage) : Prop :=
  own_vote s VoteTypePrecommit BlockID.empty (fun _ => True) m \/
  own_vote s VoteTypePrecommit bid (fun res => res = VoteAgree -> ok) m.

(** The lock is on the block of [bid]. *)
Definition bound (round : Z) (bid : BlockID.t) (lr : Z) (lb : option Block) : Prop :=
  exists b, lb = Some b /\ lr = round /\ EqualHashes (BlockHash b) (BlockID.Hash bid) = true.

(** What a polka for [bid] in [round] may do to the lock. *)
Definition lock_step s (round : Z) (bid : BlockID.t) (lr : Z) (lb : option Block) : Prop :=
  lb = lockBlock s /\ lr = lockRound s \/
  lb = None /\ (forall b, lockBlock s = Some b -> EqualHashes (BlockHash b) (BlockID.Hash bid) = false) \/
  exists b, lb = Some b /\ lr = round /\ EqualHashes (BlockHash b) (BlockID.Hash bid) = true /\
    (lockBlock s = Some b \/ in_range s b /\ forall b0, lockBlock s = Some b0 -> EqualHashes (BlockHash b0) (BlockID.Hash bid) = false).

Definition polka_post s (round : Z) (bid : BlockID.t) s' : Prop :=
  exists lr lb, shifted (precommit_for s bid (bound round bid lr lb)) no_timeout s (ht s, rd s, stp s, lr, lb, vts s, commitRound s) s' /\
    lock_step s round bid lr lb.

(** Signing after the lock was set in [s1]. *)
Lemma sign_after s s1 bid ok lr lb hash header k :
  shifted nothing nothing s (ht s, rd s, stp s, lr, lb, vts s, commitRound s) s1 ->
  (hash = None /\ header = PartSetHeader.empty) \/
  (BlockID.mk (default [] hash) header = bid /\ forall res, result_of hash k res -> res = VoteAgree -> ok) ->
  wp (signAddVote VoteTypePrecommit hash header k)
    (fun _ s' => shifted (precommit_for s bid ok) no_timeout s (ht s, rd s, stp s, lr, lb, vts s, commitRound s) s') s1.
Proof.
  intros S1 Hv. pose proof (shifted_core _ _ _ _ _ _ _ _ _ _ _ S1) as (C1 & C2 & _). pose proof (shifted_addr _ _ _ _ _ S1) as A1.
  eapply wp_mono; [apply signAddVote_frame|]. intros ? s2 F2. cbv beta. eapply frame_shifted; [eapply shifted_mono; [| |exact S1]; done|].
  eapply frame_of_mono; [|done|exact F2]. intros m Hm. apply (own_vote_core s s1) in Hm; [|done|done|done].
  destruct Hv as [[-> ->]|[<- Hok]]; [left; by eapply own_vote_any|right].
  destruct Hm as (w & addr & H1 & H2 & H3 & H4). exists w, addr. split_and!; [done|done|done|by apply Hok].
Qed.

Lemma shifted_refl s : shifted nothing nothing s (ht s, rd s, stp s, lockRound s, lockBlock s, vts s, commitRound s) s.
Proof. split_and!; try done; exists []; by rewrite app_nil_r. Qed.

Lemma quiet_nvotes Q s c s' : shifted nothing Q s c s' -> nvotes s' <= nvotes s + 1.
Proof. intros H. rewrite (shifted_nvotes _ _ _ _ _ (fun m (H : nothing m) => False_ind _ H) H). lia. Qed.

(** Signing nil after the lock was set in [s1]. *)
Lemma nil_after s s1 round bid lr lb k : shifted nothing nothing s (ht s, rd s, stp s, lr, lb, vts s, commitRound s) s1 ->
  lock_step s round bid lr lb ->
  wp (signAddVote VoteTypePrecommit None PartSetHeader.empty k) (fun _ s' => polka_post s round bid s') s1.
Proof.
  intros S1 Hl. eapply wp_mono; [eapply (sign_after s s1 bid (bound round bid lr lb)); [exact S1|by left]|].
  intros ? s2 S2. by exists lr, lb.
Qed.

Lemma relock_wp s round bid b : lockBlock s = Some b -> u64 round = round -> EqualHashes (BlockHash b) (BlockID.Hash bid) = true ->
  wp (relock round bid b) (fun _ s' => polka_post s round bid s') s.
Proof.
  intros Hb Hu He. unfold relock. apply wp_bind, wp_modify. rewrite Hu.
  match goal with |- wp _ _ ?x => set (s1 := x) end.
  assert (shifted nothing nothing s (ht s, rd s, stp s, round, lockBlock s, vts s, commitRound s) s1) as S1
    by (split_and!; try done; exists []; by rewrite app_nil_r).
  assert (lock_step s round bid round (lockBlock s)) as Hl by (right; right; exists b; split_and!; try done; by left).
  apply wp_bind. eapply wp_mono; [apply (keeps_validateBlock nothing nothing)|]. intros k s2 F2. cbv beta.
  pose proof (frame_shifted _ _ _ _ _ _ S1 F2) as S2. destruct k.1; [|by eapply nil_after].
  eapply wp_mono; [eapply (sign_after s s2 bid (bound round bid round (lockBlock s))); [exact S2|]|].
  - right. split; [by destruct bid|]. intros _ _ _. by exists b.
  - intros ? s3 S3. by exists round, (lockBlock s).
Qed.

Lemma lockProposal_wp s round bid b : u64 round = round -> EqualHashes (BlockHash b) (BlockID.Hash bid) = true ->
  (forall b0, lockBlock s = Some b0 -> EqualHashes (BlockHash b0) (BlockID.Hash bid) = false) ->
  wp (lockProposal round bid b) (fun _ s' => polka_post s round bid s') s.
Proof.
  intros Hu He Hl. unfold lockProposal.
  apply wp_bind. eapply wp_mono; [apply (validateBlock_wp nothing nothing)|]. intros k s1 [F1 Hk]. cbv beta.
  pose proof (frame_shifted _ _ _ _ _ _ (shifted_refl s) F1) as S1. pose proof (frame_core _ _ _ _ F1) as (C1 & C2 & C3 & C4 & C5 & C6 & C7).
  assert (lock_step s round bid (lockRound s) (lockBlock s)) as Hsame by by left.
  destruct k.1 as [ks|]; [|by eapply nil_after]. destruct Hk as [Hr Hk].
  apply wp_bind, wp_gets, wp_bind. apply wp_when; intros Ha.
  - eapply wp_mono; [apply lock_wp|]. intros ? s2 S2. cbv beta. rewrite Hu, C1, C2, C3, C6, C7 in S2.
    assert (shifted nothing nothing s (ht s, rd s, stp s, round, Some b, vts s, commitRound s) s2) as S2'
      by (eapply shifted_frame; [exact F1|exact S2]).
    eapply wp_mono; [eapply (sign_after s s2 bid (bound round bid round (Some b))); [exact S2'|]|].
    + right. split; [by destruct bid|]. intros _ _ _. by exists b.
    + intros ? s3 S3. exists round, (Some b). split; [done|]. right. right. exists b. split_and!; try done. by right.
  - eapply wp_mono; [eapply (sign_after s s1 bid (bound round bid (lockRound s) (lockBlock s))); [exact S1|]|].
    + right. split; [by destruct bid|]. intros res Hres ->. exfalso. apply EqualHashes_spec in He as [He _].
      specialize (Hres _ ks eq_refl eq_refl). rewrite Hk, He in Hres. rewrite <- (Hres eq_refl) in Ha. discriminate Ha.
    + intros ? s3 S3. by exists (lockRound s), (lockBlock s).
Qed.

Lemma unlock_wp s : wp unlock (fun _ s' => shifted nothing nothing s (ht s, rd s, stp s, 0, None, vts s, commitRound s) s') s.
Proof. apply lock_wp. Qed.

Lemma unlockForUnknown_wp s round bid :
  (forall b0, lockBlock s = Some b0 -> EqualHashes (BlockHash b0) (BlockID.Hash bid) = false) ->
  wp (unlockForUnknown bid) (fun _ s' => polka_post s round bid s') s.
Proof.
  intros Hl. unfold unlockForUnknown. apply wp_bind. eapply wp_mono; [apply unlock_wp|]. intros ? s1 S1. cbv beta.
  apply wp_bind, wp_gets, wp_bind. eapply wp_mono; [apply (keeps_partSet nothing nothing)|]. intros ps s2 F2. cbv beta.
  apply wp_bind. eapply wp_mono; [apply (keeps_when nothing nothing); intros _; apply keeps_resetProposalParts|]. intros ? s3 F3. cbv beta.
  pose proof (frame_shifted _ _ _ _ _ _ (frame_shifted _ _ _ _ _ _ S1 F2) F3) as S3.
  eapply nil_after; [exact S3|]. right. by left.
Qed.

Lemma precommitPolka_wp s round bid : u64 round = round ->
  wp (precommitPolka round bid) (fun _ s' => polka_post s round bid s') s.
Proof.
  intros Hu. unfold precommitPolka, votes. apply wp_bind, wp_bind, wp_gets, wp_nonNil. intros v _.
  destruct (_ <? round); [apply wp_panic|]. apply wp_bind, wp_gets. cbv [id].
  change (RoundState.LockedBlock (ConsensusState.rs s)) with (lockBlock s).
  destruct (zlen (BlockID.Hash bid) =? 0) eqn:Hz.
  - assert (forall h, EqualHashes h (BlockID.Hash bid) = false) as Hn by (intros h; unfold EqualHashes; by rewrite Hz, orb_true_r).
    apply wp_bind, wp_when; intros Hl.
    + eapply wp_mono; [apply unlock_wp|]. intros ? s1 S1. cbv beta. eapply nil_after; [exact S1|]. right. by left.
    + eapply nil_after; [apply shifted_refl|by left].
  - destruct (lockBlock s) as [b|] eqn:Hb.
    + destruct (EqualHashes (BlockHash b) (BlockID.Hash bid)) eqn:He; [by apply relock_wp|].
      assert (forall b0, lockBlock s = Some b0 -> EqualHashes (BlockHash b0) (BlockID.Hash bid) = false) as Hl by (intros; congruence).
      destruct (RoundState.ProposalBlock _) as [p|]; [|by apply unlockForUnknown_wp].
      destruct (EqualHashes (BlockHash p) _) eqn:Hp; [by apply lockProposal_wp|by apply unlockForUnknown_wp].
    + assert (forall b0, lockBlock s = Some b0 -> EqualHashes (BlockHash b0) (BlockID.Hash bid) = false) as Hl by (intros; congruence).
      destruct (RoundState.ProposalBlock _) as [p|]; [|by apply unlockForUnknown_wp].
      destruct (EqualHashes (BlockHash p) _) eqn:Hp; [by apply lockProposal_wp|by apply unlockForUnknown_wp].
Qed.

(** Precommits after the lock was set. *)
Lemma precommit_for_sends s s' v' bid w : rd s' = rd s -> stp s < RoundStepPrecommit <= stp s' -> polka v' (rd s) bid ->
  precommit_for s bid (bound (rd s) bid (lockRound s') (lockBlock s')) (VoteMessage (Some w)) -> sends_ok s s' v' w /\ vow s' v' w.
Proof.
  intros E2 E3 Hp [Hw|Hw]; destruct Hw as (vote & addr & [= <-] & Ha & Hb & HR); unfold ballot in Hb; injection Hb as B1 B2 B3 B4 B5;
    fold (ht s) in B2; fold (rd s) in B3; unfold sends_ok, vow, after, upto, commits_to; rewrite (voteStep_precommit _ B1), B2, B3, B4, B5.
  - split; [|by intros (_ & ? & _)]. split_and!; [done|done|right; lia|right; lia|]. right. split; [done|by left].
  - split; [split_and!; [done|done|right; lia|right; lia|]; right; split; [done|by right]|].
    intros (_ & _ & Hr). destruct (HR Hr) as (b & Hb & Hlr & He). left. exists b. apply EqualHashes_spec in He as [He _]. split_and!; [done|done|lia].
Qed.

(** The lock after a polka in the current round. *)
Lemma polka_lock s v s' round bid lr lb : Inv s v -> rd s = round -> stp s < RoundStepPrecommit -> polka v round bid ->
  rd s' = round -> lockRound s' = lr -> lockBlock s' = lb -> lock_step s round bid lr lb ->
  locked_ok (in_range s) round RoundStepPrecommit lr lb v /\ lock_change s s' v.
Proof.
  intros HI Hr Hst Hp Hr' Hlr Hlb Hs. pose proof (inv_lock _ _ HI) as Hok.
  assert (forall b, lockBlock s = Some b -> 0 <= lockRound s < round) as Hlow.
  { intros b Hb. destruct (Hok b Hb) as ([?|[? ?]] & ? & _); lia. }
  assert (forall b, lockBlock s = Some b -> EqualHashes (BlockHash b) (BlockID.Hash bid) = false ->
    polka_after v (lockRound s) (BlockHash b) (rd s')) as Hafter.
  { intros b Hb Hn. exists round, bid. specialize (Hlow b Hb). split_and!; [lia|lia|done|done]. }
  destruct Hs as [[-> ->]|[[-> Hn]|(b & -> & -> & He & Hn)]]; split.
  - intros b Hb. destruct (Hok b Hb) as (_ & H0 & H1). specialize (Hlow b Hb). split; [lia|by split].
  - intros b Hb. left. rewrite Hlb. split; [done|lia].
  - done.
  - intros b Hb. right. apply Hafter; [done|]. by apply Hn.
  - intros b' [= <-]. split; [by right|]. split; [pose proof (inv_round _ _ HI); lia|]. split; [by exists bid|].
    destruct Hn as [Hb|[Hin _]]; [|by left]. by destruct (Hok b Hb) as (_ & _ & _ & ?).
  - intros b0 Hb0. destruct Hn as [Hb|[_ Hn]]; [left|right; by apply Hafter, Hn].
    assert (b0 = b) as -> by congruence. split; [done|specialize (Hlow b Hb); lia].
Qed.

Lemma TwoThirds_polka v r bid : VoteSet.TwoThirdsMajority (HeightVoteSet.Prevotes v r) = (bid, true) -> polka v r bid.
Proof.
  unfold VoteSet.TwoThirdsMajority, polka. destruct (HeightVoteSet.Prevotes v r) as [vs|]; [|done].
  destruct (VoteSet.maj23 vs) eqn:Em; [|done]. intros [= <-]. by exists vs.
Qed.

(** A nil precommit. *)
Lemma nil_precommit_sends s s' v' w : rd s' = rd s -> stp s < RoundStepPrecommit <= stp s' ->
  own_vote s VoteTypePrecommit BlockID.empty (fun _ => True) (VoteMessage (Some w)) -> sends_ok s s' v' w /\ vow s' v' w.
Proof.
  intros E2 E3 (vote & addr & [= <-] & Ha & Hb & _). unfold ballot in Hb; injection Hb as B1 B2 B3 B4 B5.
  fold (ht s) in B2; fold (rd s) in B3; unfold sends_ok, vow, after, upto, commits_to; rewrite (voteStep_precommit _ B1), B2, B3, B4, B5.
  split; [|by intros (_ & ? & _)]. split_and!; [done|done|right; lia|right; lia|]. right. split; [done|by left].
Qed.

Lemma enterPrecommit_wp s v height round : Inv s v -> in_i64 round -> round <= rd s ->
  wp (enterPrecommit height round) (fun _ s' => goes s v s') s.
Proof.
  intros HI Hr Hle. unfold enterPrecommit. apply wp_bind, wp_gets. apply wp_when.
  2:{ intros _. split; [done|]. eapply within_refl, HI. }
  intros Hb. apply before_spec in Hb as (Hh & Hrs & Hu); [|done|apply HI]. assert (rd s = round /\ stp s < RoundStepPrecommit) as [Hrd Hst] by lia.
  pose proof (inv_round _ _ HI) as Hbnd. pose proof (inv_votes _ _ HI) as Hv.
  unfold votes. apply wp_bind, wp_bind, wp_gets, wp_nonNil. intros v' Hv'. assert (v' = v) as -> by (unfold vts in Hv; congruence).
  destruct (VoteSet.TwoThirdsMajority _) as [bid ok] eqn:Emaj. destruct ok.
  - apply TwoThirds_polka in Emaj as Hp.
    apply wp_bind. eapply wp_mono; [apply wp_and; [by apply precommitPolka_wp|apply casts_precommitPolka]|]. intros ? s1 [(lr & lb & S1 & Hls) N1]. cbv beta.
    pose proof (shifted_core _ _ _ _ _ _ _ _ _ _ _ S1) as (C1 & C2 & C3 & C4 & C5 & C6 & C7).
    eapply wp_mono; [apply advance_wp|]. intros ? s2 S2. cbv beta. rewrite C1, C4, C5, C6, C7, Hu, Hv in S2.
    pose proof (shifted_core _ _ _ _ _ _ _ _ _ _ _ S2) as (G1 & G2 & G3 & G4 & G5 & _).
    pose proof (shifted_nvotes _ _ _ _ _ (fun m (H : nothing m) => False_ind _ H) S2) as N2.
    destruct (polka_lock s v s2 round bid lr lb HI Hrd Hst Hp G2 G4 G5 Hls) as [Hok Hlc].
    eapply (shifted_within X (precommit_for s bid (bound round bid lr lb)) no_timeout s v s2 round RoundStepPrecommit lr lb v (commitRound s)); try done.
    + eapply shifted_trans; [exact S1|]. eapply shifted_mono; [| |exact S2]; done.
    + apply (inv_wf _ _ HI).
    + apply hvs_ext_refl.
    + lia.
    + right. lia.
    + lia.
    + intros w Hw. apply (precommit_for_sends s s2 v bid); [lia|rewrite G3; lia|by rewrite Hrd|]. by rewrite Hrd, G4, G5.
  - apply wp_bind. eapply wp_mono; [apply wp_and; [apply voteNil_frame|apply casts_sign]|]. intros ? s1 [F1 N1]. cbv beta.
    pose proof (frame_core _ _ _ _ F1) as (C1 & C2 & C3 & C4 & C5 & C6 & C7).
    eapply wp_mono; [apply advance_wp|]. intros ? s2 S2. cbv beta. rewrite C1, C4, C5, C6, C7, Hu in S2.
    pose proof (shifted_core _ _ _ _ _ _ _ _ _ _ _ S2) as (G1 & G2 & G3 & _).
    pose proof (shifted_nvotes _ _ _ _ _ (fun m (H : nothing m) => False_ind _ H) S2) as N2.
    eapply (step_within (own_vote s VoteTypePrecommit BlockID.empty (fun _ => True)) no_timeout s v s2 round RoundStepPrecommit (commitRound s));
      [done| |lia|done|lia|lia| |done].
    + eapply shifted_frame; [exact F1|]. eapply shifted_mono; [| |exact S2]; done.
    + intros w Hw. apply nil_precommit_sends; [lia|rewrite G3; lia|done].
Qed.

(** ** Propose and new round *)

Lemma keeps_sendParts Q ps i n : keeps not_vote Q (sendParts ps i n).
Proof.
  revert i. induction n as [|n IH]; intros i; cbn [sendParts]; [keep|]. pose proof (fun m => keeps_send not_vote Q m). keep.
  by apply H.
Qed.

Lemma SignProposal_addr pv now chain p x : privValidator.SignProposal pv now chain p = Ret x ->
  privValidator.GetAddress x.2 = privValidator.GetAddress pv.
Proof.
  unfold privValidator.SignProposal. intros H. destruct (privValidator.signProposal pv now chain p) as [[[err p'] pv']|] eqn:Es; [|done].
  assert (privValidator.GetAddress pv' = privValidator.GetAddress pv) as Ha.
  { clear H. unfold privValidator.signProposal in Es. destruct (ProposalSignBytes chain p) as [sb|]; [|done]. cbn [obind] in Es.
    destruct (privValidator.checkHRS _ _ _ _) as [c|]; [|done]. cbn [obind] in Es. destruct c as [e|[]]; [by inv Es| |].
    - destruct (bytes_equal _ _); [by inv Es|].
      destruct (privValidator.checkProposalsOnlyDifferByTimestamp _ _ _) as [[ts []]|]; [by inv Es|by inv Es|done].
    - destruct (PrivKeySign _ _); by inv Es. }
  cbn [obind] in H. destruct err; injection H as <-; exact Ha.
Qed.

Lemma keeps_signProposal P Q now chain p (k : option string -> Proposal.t -> M unit) : (forall err p', keeps P Q (k err p')) ->
  keeps P Q (pv ← signer; r ← lift (privValidator.SignProposal pv now chain p);
    let '(err, proposal, pv') := r in modify (fun s => ConsensusState.set_privValidator s (Some pv'));; k err proposal).
Proof.
  intros Hk s. unfold signer. apply wp_bind, wp_bind, wp_gets, wp_nonNil. intros pv Hpv. apply wp_bind, wp_lift. intros [[err p'] pv'] Hx.
  apply SignProposal_addr in Hx. apply wp_bind, wp_modify. eapply wp_mono; [apply Hk|]. intros ? s' F. eapply frame_of_trans; [|exact F].
  split_and!; try done; [|exists []; by rewrite app_nil_r..]. unfold agentCore, addrOf. cbn. rewrite Hpv. cbn. by rewrite <- Hx.
Qed.

Lemma keeps_proposeParts Q height round parts : keeps not_vote Q (proposeParts height round parts).
Proof.
  unfold proposeParts. pose proof (keeps_sendParts Q) as Hparts. apply keeps_bind; [apply keeps_votes|]. intros v.
  destruct (HeightVoteSet.POLInfo v) as [polRound polBlockID].
  do 4 (apply keeps_bind; [solve [auto with keepdb nocore]|intros ?]).
  apply (keeps_signProposal not_vote Q _ _ _ (fun err proposal => match err with
    | Some _ => mret tt
    | None => sendInternalMessage (ProposalMessage (Some proposal));;
        match a with None => mret tt | Some ps => sendParts ps 0 (Z.to_nat (i64 (PartSet.total ps))) end
    end)). intros [e|] p'; [apply keeps_ret|]. apply keeps_bind; [by apply keeps_send|]. intros ?. destruct a; [apply Hparts|apply keeps_ret].
Qed.

Lemma keeps_decideProposal Q height round blk bparts : keeps not_vote Q (defaultDecideProposal height round blk bparts).
Proof. unfold defaultDecideProposal. pose proof (keeps_proposeParts Q). keep. Qed.

Lemma keeps_proposedSwitch P Q round : keeps P Q (proposedSwitch round).
Proof. unfold proposedSwitch. keep. Qed.

Lemma keeps_createProposalBlock P Q round : keeps P Q (createProposalBlock round).
Proof.
  unfold createProposalBlock. apply keeps_bind; [apply keeps_proposedSwitch|]. intros infos s.
  apply wp_bind, wp_gets, wp_bind, wp_lift. intros [[block err] st'] Hx. apply MakeBlock_same in Hx.
  apply wp_bind, wp_modify. eapply wp_mono; [instantiate (1 := fun _ s' => frame_of P Q (ConsensusState.set_state s st') s')|].
  - match goal with |- wp ?m _ _ => assert (keeps P Q m) as Hk by keep end. apply Hk.
  - intros ? s' F. eapply frame_of_trans; [|exact F]. by apply frame_of_state.
Qed.

(** [updateRoundStep] and [newStep] on the way to something else. *)
Lemma advance_then {A} s round step (k : M A) R :
  (forall s', shifted nothing nothing s (ht s, u64 round, step, lockRound s, lockBlock s, vts s, commitRound s) s' -> wp k R s') ->
  wp (updateRoundStep round step;; newStep;; k) R s.
Proof.
  intros H. pose proof (advance_wp s round step) as Ha. unfold wp, mbind, ST_bind in *.
  destruct (updateRoundStep round step s) as [[a s1]|]; cbn [obind] in *; [|done].
  destruct (newStep s1) as [[b s2]|]; cbn [obind] in *; [|done]. by apply H.
Qed.

Lemma keeps_mayPropose P Q : keeps P Q mayPropose.
Proof. unfold mayPropose. keep. Qed.

(** Timeouts of one round. *)
Definition for_round (height round : Z) (ti : timeoutInfo.t) : Prop :=
  timeoutInfo.Height ti = height /\ timeoutInfo.Round ti = round.

Lemma for_round_reached s' height round ti : ht s' = height -> round <= rd s' -> for_round height round ti -> reached s' ti.
Proof. intros <- Hr [H1 H2]. split; [done|lia]. Qed.

(** The end of the propose step, after messages and timeouts were added to [s0]. *)
Lemma proposeDone_wp s0 s v height round : Inv s0 v -> frame_of not_vote (for_round (ht s0) round) s0 s ->
  in_i64 round -> round < max_i64 -> rd s0 < round \/ rd s0 = round /\ stp s0 < RoundStepPropose -> u64 round = round ->
  wp (proposeDone height round) (fun _ s' => goes s0 v s' /\ round <= rd s') s.
Proof.
  intros HI F0 Hr Hm Hrs Hu. pose proof (frame_core _ _ _ _ F0) as (C1 & C2 & C3 & C4 & C5 & C6 & C7). unfold proposeDone.
  apply advance_then. rewrite C1, C4, C5, C6, C7, Hu. intros s1 S1.
  pose proof (shifted_core _ _ _ _ _ _ _ _ _ _ _ S1) as (G1 & G2 & _).
  assert (goes s0 v s1) as [HI1 W1].
  { eapply (quiet_step not_vote (for_round (ht s0) round) s0 v s1 round RoundStepPropose (commitRound s0)); [done| |done|done|lia|done|].
    - eapply shifted_frame; [exact F0|]. eapply shifted_mono; [| |exact S1]; done.
    - intros ti. apply for_round_reached; [done|lia]. }
  apply wp_bind. eapply wp_mono; [apply (keeps_isProposalComplete nothing nothing)|]. intros c s2 F2. cbv beta.
  destruct (frame_within X nothing nothing s1 v s2 HI1 F2) as [HI2 W2]; [done|done|].
  assert (within X s0 s2) as W02 by (by eapply within_trans). pose proof (frame_core _ _ _ _ F2) as (_ & D2 & _).
  apply wp_when; intros _; [|split; [done|lia]].
  apply wp_bind, wp_gets. pose proof (inv_round _ _ HI2) as Hb. fold (rd s2).
  eapply wp_mono; [apply (enterPrevote_wp s2 v); [done|apply i64_range|]|].
  - rewrite i64_id by (unfold in_i64, min_i64, max_i64 in *; lia). lia.
  - intros ? s3 [HI3 W3]. split; [split; [done|by eapply within_trans]|]. pose proof (wi_round _ _ _ W3). lia.
Qed.

Lemma keep_then {A B} P Q s0 s (m : M A) (f : A -> M B) R : frame_of P Q s0 s -> keeps P Q m ->
  (forall a s', frame_of P Q s0 s' -> wp (f a) R s') -> wp (m ≫= f) R s.
Proof.
  intros F0 Hm Hf. apply wp_bind. eapply wp_mono; [apply Hm|]. intros a s' F. apply Hf. by eapply frame_of_trans.
Qed.

Lemma enterPropose_wp s0 s v height round blk bparts : Inv s0 v -> frame_of not_vote nothing s0 s ->
  in_i64 round -> round < max_i64 ->
  wp (enterPropose config height round blk bparts) (fun _ s' => goes s0 v s') s.
Proof.
  intros HI F0 Hr Hm. unfold enterPropose. pose proof (frame_core _ _ _ _ F0) as (C1 & C2 & C3 & _).
  apply wp_bind, wp_gets. apply wp_when.
  - intros Hb. apply before_spec in Hb as (Hh & Hrs & Hu); [|done|rewrite C2; apply HI]. rewrite C2, C3 in Hrs.
    apply (frame_of_mono _ _ not_vote (for_round (ht s0) round)) in F0; [|done|done].
    eapply keep_then; [exact F0|apply keeps_schedule; split; cbn; congruence|]. intros ? s1 F1.
    eapply keep_then; [exact F1|apply keeps_isProposer|]. intros mine s2 F2.
    eapply keep_then; [exact F2|apply keeps_when; intros _; apply keeps_decideProposal|]. intros ? s3 F3.
    eapply wp_mono; [by apply (proposeDone_wp s0)|]. by intros ? s' [? _].
  - intros _. by eapply frame_within; [exact HI|exact F0|..].
Qed.

Lemma keeps_makeProposal P Q mine height round : keeps P Q
  (if mine : bool then
     r ← createProposalBlock round;
     let '(block, parts, err) := r in
     mret (match block, err with
           | Some b, None => if height =? NumberU64 b then Some (b, parts) else None
           | _, _ => None
           end)
   else mret None).
Proof. pose proof (keeps_createProposalBlock P Q). destruct mine; keep. Qed.

Lemma tryEnterProposal_wp s v height round wait : Inv s v -> in_i64 round -> round < max_i64 ->
  wp (tryEnterProposal config height round wait) (fun _ s' => goes s v s') s.
Proof.
  intros HI Hr Hm. unfold tryEnterProposal. apply wp_bind, wp_gets. apply wp_when.
  2:{ intros _. split; [done|]. eapply within_refl, HI. }
  intros Hb. apply before_spec in Hb as (Hh & Hrs & Hu); [|done|apply HI].
  eapply keep_then; [apply (frame_of_refl not_vote nothing)|apply keeps_mayPropose|]. intros mine s1 F1.
  eapply keep_then; [exact F1|apply keeps_makeProposal|]. intros made s2 F2. clear s1 F1.
  pose proof (frame_core _ _ _ _ F2) as (C1 & C2 & C3 & _).
  pose proof (frame_of_mono _ _ not_vote (for_round (ht s) round) _ _ (fun m H => H) (fun ti (H : nothing ti) => False_ind _ H) F2) as F2'.
  destruct made as [[b parts]|].
  - destruct (_ && negb (IsProposal b)) eqn:Ewait.
    + assert (round = 0) as -> by (repeat (apply andb_prop in Ewait as [Ewait ?]); by apply Z.eqb_eq).
      eapply wp_mono; [apply keeps_schedule; instantiate (1 := for_round (ht s) 0); split; cbn; congruence|].
      intros ? s3 F3. cbv beta. eapply frame_within; [exact HI|eapply frame_of_trans; [exact F2'|exact F3]|done|].
      pose proof (frame_core _ _ _ _ F3) as (D1 & D2 & _). pose proof (inv_round _ _ HI).
      intros ti. apply for_round_reached; [congruence|lia].
    + by apply enterPropose_wp.
  - eapply keep_then; [exact F2'|apply keeps_schedule; split; cbn; congruence|]. intros ? s3 F3.
    eapply wp_mono; [by apply (proposeDone_wp s)|]. by intros ? s' [? _].
Qed.

(** [SetRound] as the machine calls it. *)
Lemma SetRound_ext v r v' : hvs_wf v -> 0 < r < max_i64 -> HeightVoteSet.SetRound v r = Ret v' -> hvs_wf v' /\ hvs_ext X v v'.
Proof.
  intros Hwf Hr Hs. assert (HeightVoteSet.round v < r) as Hlt.
  { unfold HeightVoteSet.SetRound in Hs. pose proof (hw_round _ Hwf) as Hb.
    rewrite (i64_id (_ + 1)) in Hs by (unfold in_i64, min_i64, max_i64 in *; lia).
    destruct (Z.eqb_spec (HeightVoteSet.round v) 0), (Z.ltb_spec r (HeightVoteSet.round v + 1)); simpl in Hs; (done || lia). }
  pose proof (SetRound_kept v r v') as Hk.
  destruct (SetRound_spec v r Hwf) as (h & E' & Hw & Hsame & _ & _ & Hold); [by left|lia|]. rewrite Hs in E'. injection E' as <-.
  split; [done|split_and!; [done| |]].
  - intros r0 t vs Hg. exists vs. split; [|apply extends_refl].
    unfold HeightVoteSet.getVoteSet in *. destruct (HeightVoteSet.roundVoteSets v !! r0) as [rvs|] eqn:Er; [|done]. by rewrite (Hold _ _ Er).
  - intros w Hw'. right. by apply (Hk w).
Qed.

(** The invariant for some votes, and a transition within the height. *)
Definition moves (s0 : ConsensusState.t) s' : Prop := exists v, goes s0 v s'.

Lemma goes_trans s0 s1 s2 v1 v2 : goes s0 v1 s1 -> goes s1 v2 s2 -> goes s0 v2 s2.
Proof. intros [_ W1] [I2 W2]. split; [done|by eapply within_trans]. Qed.

Lemma newRound_guard s height round :
  if negb (ht s =? height) || (round <? rd s) || ((rd s =? round) && negb (stp s =? RoundStepNewHeight))
  then ht s = height -> round <= rd s
  else ht s = height /\ (rd s < round \/ rd s = round /\ stp s <= RoundStepNewRound).
Proof.
  unfold RoundStepNewHeight, RoundStepNewRound.
  destruct (Z.eqb_spec (ht s) height), (Z.ltb_spec round (rd s)), (Z.eqb_spec (rd s) round), (Z.eqb_spec (stp s) 1); simpl; lia.
Qed.

Lemma keeps_startRound P Q round : keeps P Q
  (if round =? 0 then
     addr ← agent StateAgentImpl.GetLastValidatorAddress;
     vals ← validators;
     putValidators (ValidatorSet.FindValidatorSetProposer vals addr)
   else
     modr (fun r => RoundState.set_ProposalBlockParts
       (RoundState.set_ProposalBlock (RoundState.set_Proposal r None) None) None)).
Proof.
  destruct (round =? 0); [|keep]. apply keeps_bind; [|intros addr; apply keeps_findProposer].
  apply keeps_agent. intros st. unfold StateAgentImpl.GetLastValidatorAddress.
  pose proof (GetFastLastProposer_height (StateAgentImpl.Agent st)). by destruct (GetFastLastProposer _).
Qed.

Lemma newRound_shifted s s4 round v' :
  frame_of nothing nothing (ConsensusState.set_rs s (RoundState.set_Step (RoundState.set_Round (ConsensusState.rs s) (u64 round)) RoundStepNewRound)) s4 ->
  shifted nothing nothing s (ht s, u64 round, RoundStepNewRound, lockRound s, lockBlock s, Some v', commitRound s)
    (ConsensusState.set_rs s4 (RoundState.set_Votes (ConsensusState.rs s4) (Some v'))).
Proof.
  intros (C & HF). split; [|exact HF]. unfold core, coreOf in C. cbn in C. injection C as C1 C2 C3 C4 C5 C6 C7.
  unfold core, coreOf. cbn. by rewrite C1, C2, C3, C4, C5, C7.
Qed.

Lemma enterNewRound_wp s v height round : Inv s v -> in_i64 round -> round < max_i64 - 1 ->
  wp (enterNewRound config height round) (fun _ s' => moves s s' /\ (ht s = height -> round <= rd s')) s.
Proof.
  intros HI Hr Hm. pose proof (inv_round _ _ HI) as Hb. unfold enterNewRound. apply wp_bind, wp_gets. cbv [id].
  change (RoundState.Height (ConsensusState.rs s)) with (ht s). change (RoundState.Round (ConsensusState.rs s)) with (rd s).
  change (RoundState.Step (ConsensusState.rs s)) with (stp s). rewrite (i64_id (rd s)) by (unfold in_i64, min_i64, max_i64 in *; lia).
  pose proof (newRound_guard s height round) as Hguard. destruct (_ || _ && _).
  { apply wp_ret. split; [exists v; split; [done|eapply within_refl, HI]|done]. }
  destruct Hguard as [Hh Hrs].
  assert (u64 round = round) as Hu by (apply u64_id; unfold in_u64, two64, max_i64 in *; lia).
  eapply keep_then; [apply (frame_of_refl nothing nothing)|apply keeps_clock|]. intros ? s1 F1.
  eapply keep_then; [exact F1|keep|]. intros ? s2 F2. clear s1 F1.
  pose proof (frame_core _ _ _ _ F2) as (C1 & C2 & C3 & C4 & C5 & C6 & C7).
  apply wp_bind, wp_modify. match goal with |- wp _ _ ?x => set (s3 := x) end.
  eapply (keep_then nothing nothing s3); [apply frame_of_refl|apply keeps_startRound|]. intros ? s4 F4.
  pose proof (frame_core _ _ _ _ F4) as (D1 & D2 & D3 & D4 & D5 & D6 & D7).
  unfold votes. apply wp_bind, wp_bind, wp_gets, wp_nonNil. intros v0 Hv0.
  assert (v0 = v) as ->.
  { change (vts s4 = Some v0) in Hv0. rewrite D6 in Hv0. change (vts s2 = Some v0) in Hv0. rewrite C6, (inv_votes _ _ HI) in Hv0. congruence. }
  apply wp_bind, wp_lift. intros v' Hv'. rewrite (i64_id (round + 1)) in Hv' by (unfold in_i64, min_i64, max_i64 in *; lia).
  destruct (SetRound_ext v (round + 1) v' (inv_wf _ _ HI)) as [Hwf' Hext]; [lia|done|].
  apply wp_bind, wp_modify. match goal with |- wp _ _ ?x => set (s5 := x) end.
  assert (shifted nothing nothing s (ht s, round, RoundStepNewRound, lockRound s, lockBlock s, Some v', commitRound s) s5) as S5.
  { rewrite <- C1, <- C4, <- C5, <- C7, <- Hu. eapply shifted_frame; [exact F2|]. apply (newRound_shifted s2 s4); [exact F4]. }
  pose proof (shifted_core _ _ _ _ _ _ _ _ _ _ _ S5) as (G1 & G2 & G3 & G4 & G5 & _).
  assert (goes s v' s5) as Hgo.
  { eapply (shifted_within X nothing nothing s v s5 round RoundStepNewRound (lockRound s) (lockBlock s) v' (commitRound s)); try done.
    - lia.
    - by apply (locked_ok_ext (in_range s) (rd s) (stp s) _ _ _ _ v); [exact Hext|unfold RoundStepPrecommit, RoundStepNewRound in *; lia|apply HI].
    - intros b Hlb. left. rewrite G4, G5. split; [done|lia].
    - exact (quiet_nvotes _ _ _ _ S5). }
  eapply wp_mono; [eapply (tryEnterProposal_wp s5 v'); [apply Hgo|done|lia]|]. intros ? s6 H6. split.
  - exists v'. eapply goes_trans; [exact Hgo|exact H6].
  - intros _. destruct H6 as [_ W6]. pose proof (wi_round _ _ _ W6). lia.
Qed.

(** ** Commit *)

(** The start of a height. *)
Definition fresh_height s v : Prop :=
  Inv s v /\ rd s = 0 /\ stp s = RoundStepNewHeight /\ lockBlock s = None /\
  exists vals, ValidatorSet.Validators vals = ValidatorSet.Validators (StateAgentImpl.Validators (ConsensusState.state s)) /\
    HeightVoteSet.NewHeightVoteSet (chainOf s) (ht s) vals = Ret v.

(** [b] has two thirds of the precommits of the commit round. *)
Definition decided s v b : Prop :=
  exists bid, commit v (i64 (commitRound s)) bid /\ EqualHashes (BlockHash b) (BlockID.Hash bid) = true.

(** The block [b] is committed in [s], and [s'] is the start of the next height. *)
Record commits b s s' : Prop := {
  co_before : exists v, Inv s v /\ stp s = RoundStepCommit /\ decided s v b;
  co_after : exists v', fresh_height s' v';
  co_queue : ConsensusState.internalMsgQueue s' = ConsensusState.internalMsgQueue s;
  co_identity : identity s' = identity s;
  co_tall : heightOf s <= heightOf s';
  co_height : heightOf s' < 2 ^ 62 -> ht s < ht s';
  co_store : forall n meta, BlockStore.blocks (ConsensusState.blockStore s') !! n = Some meta ->
    BlockStore.blocks (ConsensusState.blockStore s) !! n = Some meta \/ BlockMeta.Block_ meta = b
}.

(** A transition within the height, and one through a commit. *)
Inductive moved s s' : Prop :=
| moved_within : moves s s' -> moved s s'
| moved_commit b s1 s2 : moves s s1 -> commits b s1 s2 -> moves s2 s' -> moved s s'.

(** A restart of the machine at the height of its agent, not before [h]. *)
Definition restarted (h : Z) s s' : Prop :=
  exists s1 v1, fresh_height s1 v1 /\ ConsensusState.blockStore s1 = ConsensusState.blockStore s /\
    ConsensusState.internalMsgQueue s1 = ConsensusState.internalMsgQueue s /\ addrOf s1 = addrOf s /\
    heightOf s <= heightOf s1 /\ (heightOf s1 < 2 ^ 62 -> h <= ht s1) /\ moves s1 s'.

Lemma keeps_lastPrecommits P Q : keeps P Q lastPrecommits.
Proof. unfold lastPrecommits. keep. Qed.

Lemma keeps_nextStartTime P Q : keeps P Q (nextStartTime config).
Proof. unfold nextStartTime. keep. Qed.

Lemma lastBlockHeight_wp s : wp lastBlockHeight (fun lh s' => lh = u64 (heightOf s) /\ frame_of nothing nothing s s') s.
Proof.
  eapply wp_mono; [apply wp_and; [|apply keeps_lastBlockHeight]|]; [|by intros lh s' H; exact H].
  apply wp_agent. intros lh st. unfold StateAgentImpl.GetLastBlockHeight, heightOf, chainHeight. destruct (GetCurrentHeight _). by intros [= <- _].
Qed.

Lemma nothing_queue Q s s' : frame_of nothing Q s s' -> ConsensusState.internalMsgQueue s' = ConsensusState.internalMsgQueue s.
Proof. intros (_ & _ & _ & (l & Hq & Hl) & _). destruct l; [by rewrite app_nil_r in Hq|by inversion Hl]. Qed.

(** What [updateToState] needs and does. *)
Lemma updateToState_wp s : quorate (StateAgentImpl.Validators (ConsensusState.state s)) ->
  store_ok (chainOf s) (ConsensusState.blockStore s) ->
  wp (updateToState config) (fun _ s' => exists v', fresh_height s' v' /\ agentCore s' = agentCore s /\
    ConsensusState.blockStore s' = ConsensusState.blockStore s /\
    ConsensusState.internalMsgQueue s' = ConsensusState.internalMsgQueue s /\
    heightOf s <= heightOf s' /\ (heightOf s' < 2 ^ 62 -> ht s' = heightOf s + 1)) s.
Proof.
  intros Hq Hst. unfold updateToState. apply wp_bind. eapply wp_mono; [apply lastBlockHeight_wp|]. intros lh s1 [Hlh F1].
  eapply keep_then; [exact F1|apply keeps_lastPrecommits|]. intros last s2 F2. cbv zeta. clear s1 F1.
  eapply keep_then; [exact F2|apply keeps_nextStartTime|]. intros start s3 F3. clear s2 F2.
  pose proof F3 as (_ & A3 & [B3 T3] & _). pose proof (nothing_queue _ _ _ F3) as Q3.
  apply wp_bind, wp_gets, wp_bind, wp_gets, wp_bind, wp_lift. intros v Hv. apply wp_bind, wp_modify, wp_bind, wp_modify.
  match goal with |- wp _ _ ?x => set (s4 := x) end.
  eapply wp_mono; [apply (keeps_newStep nothing nothing)|]. intros ? s5 F5. cbv beta.
  pose proof F5 as (_ & A5 & [B5 T5] & _). pose proof (nothing_queue _ _ _ F5) as Q5.
  pose proof (frame_core _ _ _ _ F5) as (D1 & D2 & D3 & D4 & D5 & D6 & D7).
  destruct (agentCore_quorate s s3 A3) as (_ & Hc3 & Hq3). destruct (agentCore_quorate s4 s5 A5) as (_ & Hc5 & Hq5).
  destruct (Z.eq_dec (u64 (lh + 1)) 0) as [H0|H0]; [by rewrite H0 in Hv|].
  destruct (NewHeightVoteSet_wf (chainOf s3) (u64 (lh + 1)) _ H0 (Hq3 Hq)) as (v0 & Hv0 & Hwf & Hr0 & _ & Hch & Hht & Hvs).
  change (chainOf s3) with (StateAgentImpl.ChainID (ConsensusState.state s3)) in Hv0. rewrite Hv in Hv0. injection Hv0 as <-.
  assert (heightOf s <= heightOf s5) as Htall by (change (heightOf s4) with (heightOf s3) in T5; lia).
  assert (heightOf s5 < 2 ^ 62 -> ht s5 = heightOf s + 1) as Hheight.
  { intros Hlt. rewrite D1. change (ht s4) with (u64 (lh + 1)). pose proof (height_nonneg (StateAgentImpl.Agent (ConsensusState.state s))) as Hn.
    fold (heightOf s) in Hn. rewrite Hlh, (u64_id (heightOf s)), u64_id; [done|..]; unfold in_u64, two64; lia. }
  exists v. split_and!; [|rewrite A5; exact A3|rewrite B5; exact B3|rewrite Q5; exact Q3|exact Htall|exact Hheight].
  split_and!.
  - split.
    + exact D6.
    + done.
    + by rewrite Hht, D1.
    + by rewrite Hch, Hc5.
    + rewrite D2. cbn. unfold max_i64. lia.
    + rewrite D3. cbn. unfold RoundStepNewHeight. lia.
    + rewrite D5. done.
    + by apply Hq5, Hq3.
    + rewrite Hc5, B5. change (chainOf s4) with (chainOf s3). rewrite Hc3. cbn. by rewrite B3.
    + intros Hlt. specialize (Hheight Hlt). lia.
  - exact D2.
  - exact D3.
  - exact D5.
  - rewrite Hc5, D1. exists (StateAgentImpl.Validators (ConsensusState.state s3)). split; [|exact Hv].
    unfold agentCore in A5. by injection A5 as _ A5 _.
Qed.

(** [scheduleRound0] at a fresh height. *)
Lemma scheduleRound0_wp s v : Inv s v -> wp scheduleRound0 (fun _ s' => moves s s') s.
Proof.
  intros HI. unfold scheduleRound0. pose proof (inv_round _ _ HI) as Hb.
  eapply keep_then; [apply (frame_of_refl nothing (for_round (ht s) 0))|apply keeps_clock|]. intros now s1 F1.
  pose proof (frame_core _ _ _ _ F1) as (C1 & C2 & _).
  apply wp_bind, wp_gets. cbv [id]. change (RoundState.Height (ConsensusState.rs s1)) with (ht s1). rewrite C1.
  eapply keep_then; [exact F1|apply keeps_schedule; by split|]. intros ? s2 F2. clear F1 C1 C2.
  eapply wp_mono; [unfold scheduleTask; apply (keeps_modify nothing (for_round (ht s) 0)); done|]. intros ? s3 F3.
  exists v. pose proof (frame_of_trans _ _ _ _ _ F2 F3) as F. pose proof (frame_core _ _ _ _ F) as (C1 & C2 & _).
  eapply frame_within; [exact HI|exact F|done|]. intros ti. apply for_round_reached; [done|lia].
Qed.

Lemma TwoThirds_maj (vs : option VoteSet.t) bid : VoteSet.TwoThirdsMajority vs = (bid, true) ->
  exists x, vs = Some x /\ VoteSet.maj23 x = Some bid.
Proof.
  destruct vs as [x|]; [|done]. simpl. destruct (VoteSet.maj23 x) eqn:Em; [|done]. intros [= <-]. eauto.
Qed.

Lemma checkCommit_wp s v : vts s = Some v ->
  wp (checkCommit (ConsensusState.rs s)) (fun bs s' => s' = s /\ decided s v bs.1) s.
Proof.
  intros Hv. unfold checkCommit, votes. apply wp_bind, wp_bind, wp_gets, wp_nonNil. intros v' Hv'.
  assert (v' = v) as -> by (unfold vts in Hv; congruence). cbv zeta.
  destruct (VoteSet.TwoThirdsMajority _) as [bid ok] eqn:Em. apply wp_bind, wp_nonNil. intros b _.
  apply wp_bind, wp_lift. intros signs _. apply wp_bind, wp_gets. destruct ok; [|done]. cbn [negb].
  destruct (negb _); [done|]. destruct signs as [e|signs]; [done|].
  destruct (EqualHashes _ _) eqn:He; [|done]. cbn [negb]. apply wp_ret. split; [done|].
  destruct (TwoThirds_maj _ _ Em) as (x & Hx & Hm). exists bid. split; [by exists x|done].
Qed.

(** The store after a block was saved. *)
Lemma SaveBlock_ok chain store b parts c pr store' : store_ok chain store ->
  stored_ok chain (NumberU64 b) (BlockMeta.mk E b (Commit.BlockID c) parts c pr) ->
  BlockStore.SaveBlock store b parts c pr = Ret store' -> store_ok chain store'.
Proof.
  intros Hs Hn. unfold BlockStore.SaveBlock. intros H.
  assert (forall st : BlockStore.t, store_ok chain st ->
    match BlockStore.blocks st !! NumberU64 b with
    | Some _ => Ret st
    | None => Ret (BlockStore.mk E (<[NumberU64 b := BlockMeta.mk E b (Commit.BlockID c) parts c pr]> (BlockStore.blocks st)))
    end = Ret store' -> store_ok chain store') as Hins.
  { intros st Hst Hx. destruct (BlockStore.blocks st !! NumberU64 b); [by injection Hx as <-|]. injection Hx as <-.
    intros n meta Hm. cbn in Hm. apply lookup_insert_Some in Hm as [[<- <-]|[_ Hm]]; [done|by apply Hst]. }
  destruct (MaxLimitBlockStore <=? _).
  - destruct (_ <=? 0); [done|]. cbn [obind] in H. eapply Hins; [|exact H].
    intros n meta Hm. cbn in Hm. apply lookup_delete_Some in Hm as [_ Hm]. by apply Hs.
  - cbn [obind] in H. by eapply Hins.
Qed.

Lemma SaveBlock_new store b parts c pr store' n meta : BlockStore.SaveBlock store b parts c pr = Ret store' ->
  BlockStore.blocks store' !! n = Some meta -> BlockStore.blocks store !! n = Some meta \/ BlockMeta.Block_ meta = b.
Proof.
  unfold BlockStore.SaveBlock. intros H Hm.
  assert (forall st : BlockStore.t, (forall n meta, BlockStore.blocks st !! n = Some meta -> BlockStore.blocks store !! n = Some meta) ->
    match BlockStore.blocks st !! NumberU64 b with
    | Some _ => Ret st
    | None => Ret (BlockStore.mk E (<[NumberU64 b := BlockMeta.mk E b (Commit.BlockID c) parts c pr]> (BlockStore.blocks st)))
    end = Ret store' -> BlockStore.blocks store !! n = Some meta \/ BlockMeta.Block_ meta = b) as Hins.
  { intros st Hst Hx. destruct (BlockStore.blocks st !! NumberU64 b); injection Hx as <-; [left; by apply Hst|].
    cbn in Hm. apply lookup_insert_Some in Hm as [[_ <-]|[_ Hm]]; [by right|left; by apply Hst]. }
  destruct (MaxLimitBlockStore <=? _).
  - destruct (_ <=? 0); [done|]. cbn [obind] in H. eapply Hins; [|exact H].
    intros k x Hx. cbn in Hx. by apply lookup_delete_Some in Hx as [_ Hx].
  - cbn [obind] in H. by eapply Hins.
Qed.

Lemma storeBlock_wp s v b : Inv s v -> decided s v b ->
  wp (storeBlock b) (fun _ s' => core s' = core s /\ agentCore s' = agentCore s /\
    ConsensusState.state s' = ConsensusState.state s /\
    ConsensusState.internalMsgQueue s' = ConsensusState.internalMsgQueue s /\
    store_ok (chainOf s) (ConsensusState.blockStore s') /\
    forall n meta, BlockStore.blocks (ConsensusState.blockStore s') !! n = Some meta ->
      BlockStore.blocks (ConsensusState.blockStore s) !! n = Some meta \/ BlockMeta.Block_ meta = b) s.
Proof.
  intros HI (bid & (vs & Hvs & Hm) & He). unfold storeBlock. apply wp_bind, wp_gets. apply wp_when.
  2:{ intros _. split_and!; try done; [apply HI|by left]. }
  intros _. unfold votes. apply wp_bind, wp_bind, wp_gets, wp_nonNil. intros v' Hv'.
  assert (v' = v) as -> by (pose proof (inv_votes _ _ HI) as Hvo; unfold vts in Hvo; congruence).
  apply wp_bind, wp_gets. cbv [id]. change (RoundState.CommitRound (ConsensusState.rs s)) with (commitRound s). rewrite Hvs.
  apply wp_bind, wp_nonNil. intros x [= <-]. apply wp_bind, wp_lift. intros c Hc.
  apply wp_bind, wp_lift. intros store' Hsave. apply wp_modify. split_and!; try done; cbn; [|intros n meta; exact (SaveBlock_new _ _ _ _ _ _ n meta Hsave)].
  eapply SaveBlock_ok; [apply HI| |exact Hsave].
  destruct (getVoteSet_wf _ _ _ _ (inv_wf _ _ HI) Hvs) as [Hwf Hframe].
  unfold frame in Hframe. injection Hframe as X1 X2 X3 X4 X5.
  destruct (MakeCommit_spec vs bid Hwf X4 Hm) as [Ec [vals' Ev]]. rewrite Hc in Ec. injection Ec as ->.
  split_and!; [done|done|]. exists (VoteSet.valSet vs), vals', (VoteSet.height vs). split; [apply (wf_quorate _ Hwf)|].
  rewrite <- (inv_chain _ _ HI), <- X1. exact Ev.
Qed.

Lemma moves_refl s v : Inv s v -> moves s s.
Proof. intros HI. exists v. split; [done|eapply within_refl, HI]. Qed.

Lemma moves_trans s1 s2 s3 : moves s1 s2 -> moves s2 s3 -> moves s1 s3.
Proof. intros [v1 H1] [v2 H2]. exists v2. by eapply goes_trans. Qed.

Lemma moves_inv s s' : moves s s' -> exists v, Inv s' v.
Proof. intros [v [HI _]]. by exists v. Qed.

Lemma moved_moves s1 s2 s3 : moved s1 s2 -> moves s2 s3 -> moved s1 s3.
Proof.
  intros [H|b t1 t2 H1 H2 H3] H'.
  - apply moved_within. by eapply moves_trans.
  - eapply moved_commit; [exact H1|exact H2|by eapply moves_trans].
Qed.

Lemma moves_moved s1 s2 s3 : moves s1 s2 -> moved s2 s3 -> moved s1 s3.
Proof.
  intros H' [H|b t1 t2 H1 H2 H3].
  - apply moved_within. by eapply moves_trans.
  - eapply moved_commit; [by eapply moves_trans|exact H2|exact H3].
Qed.

Lemma moved_inv s s' : moved s s' -> exists v, Inv s' v.
Proof. intros [H|b t1 t2 _ _ H]; by eapply moves_inv. Qed.

Lemma quiet_moves s v s' : Inv s v -> frame_of nothing nothing s s' -> goes s v s'.
Proof. intros HI F. by eapply frame_within. Qed.

(** A committed block makes the chain of the agent longer. *)
Lemma commitAgent_wp s b : wp (agent (fun st => StateAgentImpl.ConsensusCommit st (Some b)))
  (fun err s' => frame_of nothing nothing s s' /\ (err = None -> heightOf s < heightOf s')) s.
Proof.
  apply wp_agent. intros err st. unfold StateAgentImpl.ConsensusCommit. pose proof (BroadcastConsensus_height b (StateAgentImpl.Agent (ConsensusState.state s))) as H1.
  destruct (BroadcastConsensus b _) as [e w] eqn:Eb. intros [= <- <-]. split; [by apply frame_of_state|]. intros ->. by eapply BroadcastConsensus_grows.
Qed.

(** Setting the end of the committee's range to a block that was decided. *)
Lemma withEnd_goes s v b : Inv s v -> decided s v b -> goes s v (withEnd s (NumberU64 b)).
Proof.
  intros HI (bid & Hc & He). pose proof HI as [I1 I2 I3 I4 I5 I6 I7 I8 I9 I10]. split.
  - split; try done. intros x Hx. destruct (I7 x Hx) as (H1 & H2 & H3 & H4). split_and!; [done|done|done|].
    destruct H4 as [Hr|]; [|by right]. apply EqualHashes_spec in He as [He Hne].
    destruct (decide (BlockHash x = BlockHash b)) as [Eh|Hn]; [left|right; exists (i64 (commitRound s)), bid; split_and!; [done|congruence|congruence]].
    apply BlockHash_number in Eh. revert Hr. unfold in_range, StateAgentImpl.outOfRange. cbn. rewrite Eh.
    rewrite (Z.ltb_irrefl (NumberU64 b)), andb_false_r. by destruct (_ && _).
  - split; [done|right; split; [done|apply Z.le_refl]| |done|done|apply Z.le_refl]. exists v, v. split_and!; try done; [apply hvs_ext_refl| | |].
    + intros x Hx. left. split; [done|apply Z.le_refl].
    + exists []. split; [by rewrite app_nil_r|apply sends_nil].
    + exists []. split; [by rewrite app_nil_r|constructor].
Qed.

(** The new height after the block was stored. *)
Lemma commitDone_wp s v b : Inv s v -> stp s = RoundStepCommit -> decided s v b -> (heightOf s < 2 ^ 62 -> ht s <= heightOf s) ->
  wp (storeBlock b;; updateToState config;; scheduleRound0) (fun _ s' => moved s s') s.
Proof.
  intros HI Hst Hd Hh. apply wp_bind. eapply wp_mono; [by apply (storeBlock_wp s v)|]. intros ? s1 (_ & C2 & C3 & C4 & C5 & C6). cbv beta.
  assert (heightOf s1 = heightOf s) as C7 by (unfold heightOf; by rewrite C3).
  apply wp_bind. eapply wp_mono; [apply updateToState_wp|].
  - rewrite C3. apply HI.
  - unfold chainOf. rewrite C3. exact C5.
  - intros ? s2 (v2 & Hf & A2 & B2 & Hq & T2 & H2). cbv beta. eapply wp_mono; [eapply scheduleRound0_wp, Hf|]. intros ? s3 H3.
    destruct (agentCore_quorate s s2) as (Hid & _ & _); [congruence|].
    eapply (moved_commit _ _ b s s2); [by eapply moves_refl| |exact H3]. rewrite C7 in T2, H2.
    split; [by exists v|by exists v2|congruence|done|done|lia|]. by rewrite B2.
Qed.

(** The agent was told of the block. *)
Lemma finalize_wp s v b s0 : Inv s0 v -> frame_of nothing nothing s0 s -> stp s0 = RoundStepCommit -> decided s0 v b ->
  wp (err ← agent (fun st => StateAgentImpl.ConsensusCommit st (Some b));
      match err with Some _ => mret tt | None => storeBlock b;; updateToState config;; scheduleRound0 end)
    (fun _ s' => moved s0 s') s.
Proof.
  intros HI F Hst Hd. apply wp_bind. eapply wp_mono; [apply commitAgent_wp|]. intros err s3 [F3 H3]. cbv beta.
  assert (heightOf s0 <= heightOf s) as T by apply F. pose proof (frame_of_trans _ _ _ _ _ F F3) as F03.
  destruct (quiet_moves s0 v s3 HI F03) as [HI3 W3]. assert (moves s0 s3) as M3 by (by exists v).
  destruct err as [e|]; [by apply wp_ret, moved_within|].
  pose proof (frame_core _ _ _ _ F03) as (D1 & _ & D3 & _ & _ & _ & D7).
  eapply wp_mono; [apply (commitDone_wp s3 v b HI3)|].
  - congruence.
  - unfold decided. rewrite D7. exact Hd.
  - intros Hlt. specialize (H3 eq_refl). rewrite D1. pose proof (inv_tall _ _ HI). lia.
  - intros ? s4 H4. eapply moves_moved; [exact M3|exact H4].
Qed.

Lemma finalizeCommit_wp s v height : Inv s v -> wp (finalizeCommit config height) (fun _ s' => moved s s') s.
Proof.
  intros HI. unfold finalizeCommit. apply wp_bind, wp_gets. cbv [id].
  change (RoundState.Height (ConsensusState.rs s)) with (ht s). change (RoundState.Step (ConsensusState.rs s)) with (stp s).
  destruct (Z.eqb_spec (ht s) height) as [<-|]; [|apply wp_ret, moved_within; by eapply moves_refl].
  destruct (Z.eqb_spec (stp s) RoundStepCommit) as [Hst|]; [|apply wp_ret, moved_within; by eapply moves_refl]. cbn [negb orb].
  apply wp_bind. eapply wp_mono; [apply checkCommit_wp, HI|]. intros [b signs] s0 [-> Hd]. cbn [fst] in Hd.
  apply wp_bind, wp_modify. match goal with |- wp _ _ ?x => set (s1 := x) end.
  assert (frame_of nothing nothing s s1) as F1 by (apply frame_of_state; split_and!; try done; apply SetSign_height).
  apply wp_bind. eapply wp_mono; [apply (swithResult_wp nothing nothing s1 b)|]. intros ? s2 H2. cbv beta.
  destruct H2 as [F2|F2]; [apply (finalize_wp s2 v b s); [done|by eapply frame_of_trans|done|done]|].
  pose proof (withEnd_goes s v b HI Hd) as [HIe We].
  eapply wp_mono; [apply (finalize_wp s2 v b (withEnd s (NumberU64 b))); [done| |done|done]|].
  - eapply frame_of_trans; [|exact F2]. by apply withEnd_frame.
  - intros ? s3 H3. eapply moves_moved; [by exists v|exact H3].
Qed.

Lemma tryFinalizeCommit_wp s v height : Inv s v -> wp (tryFinalizeCommit config height) (fun _ s' => moved s s') s.
Proof.
  intros HI. unfold tryFinalizeCommit, votes. apply wp_bind, wp_gets. destruct (negb _); [done|].
  apply wp_bind, wp_bind, wp_gets, wp_nonNil. intros v' _. destruct (VoteSet.TwoThirdsMajority _) as [bid ok].
  destruct (_ || _); [apply wp_ret, moved_within; by eapply moves_refl|by eapply finalizeCommit_wp].
Qed.

Lemma enterCommit_wp s v height round : Inv s v -> wp (enterCommit config height round) (fun _ s' => moved s s') s.
Proof.
  intros HI. unfold enterCommit, votes. pose proof (inv_round _ _ HI) as Hb. apply wp_bind, wp_gets. cbv [id].
  change (RoundState.Step (ConsensusState.rs s)) with (stp s).
  destruct (_ || _) eqn:Eg; [apply wp_ret, moved_within; by eapply moves_refl|]. apply orb_false_iff in Eg as [_ Hst].
  apply Z.leb_gt in Hst. apply wp_bind, wp_bind, wp_gets, wp_nonNil. intros v' _.
  destruct (VoteSet.TwoThirdsMajority _) as [bid [|]]; [|done]. cbn [negb].
  eapply keep_then; [apply (frame_of_refl nothing nothing)|keep|]. intros ? s1 F1.
  apply wp_bind, wp_gets.
  eapply keep_then; [exact F1|apply keeps_partSet|]. intros ps s2 F2.
  eapply keep_then; [exact F2|keep|]. intros ? s3 F3. clear s1 F1 s2 F2 ps.
  pose proof (frame_core _ _ _ _ F3) as (C1 & C2 & C3 & C4 & C5 & C6 & C7).
  apply wp_bind, wp_gets, wp_bind, wp_modify, wp_bind, wp_modify.
  match goal with |- wp _ _ ?x => set (s4 := x) end.
  assert (shifted nothing nothing s (ht s, rd s, RoundStepCommit, lockRound s, lockBlock s, vts s, u64 round) s4) as S4.
  { rewrite <- C1, <- C2, <- C4, <- C5, <- C6. eapply shifted_frame; [exact F3|]. unfold s4.
    split_and!; [|done|done|done|exists []; by rewrite app_nil_r..]. unfold core, coreOf, rd. cbn. rewrite (i64_id (RoundState.Round _)), u64_id; [done| |];
      change (RoundState.Round (ConsensusState.rs s3)) with (rd s3); unfold in_u64, in_i64, two64, min_i64, max_i64 in *; lia. }
  eapply (keep_then nothing nothing s4); [apply frame_of_refl|apply keeps_clock|]. intros now s5 F5.
  eapply keep_then; [exact F5|apply keeps_modr; done|]. intros ? s6 F6.
  eapply keep_then; [exact F6|apply keeps_newStep|]. intros ? s7 F7. clear s5 F5 s6 F6.
  destruct (quiet_step nothing nothing s v s7 (rd s) RoundStepCommit (u64 round) HI) as [HI7 W7];
    [by eapply frame_shifted|lia|by cbv|right; lia|done|done|].
  eapply wp_mono; [by apply (tryFinalizeCommit_wp s7 v)|]. intros ? s8 H8.
  eapply moves_moved; [by exists v|exact H8].
Qed.

Lemma keeps_defaultSetProposal P Q p : keeps P Q (defaultSetProposal p).
Proof. unfold defaultSetProposal. keep. Qed.

Lemma keeps_updateValid P Q bid round : keeps P Q (updateValid bid round).
Proof. unfold updateValid. keep. Qed.

Lemma proposalCompleted_wp s v height : Inv s v -> wp (proposalCompleted config height) (fun _ s' => moved s s') s.
Proof.
  intros HI. unfold proposalCompleted, votes. pose proof (inv_round _ _ HI) as Hb.
  apply wp_bind, wp_gets, wp_bind, wp_bind, wp_gets, wp_nonNil. cbv [id]. intros v' _.
  change (RoundState.Round (ConsensusState.rs s)) with (rd s).
  destruct (VoteSet.TwoThirdsMajority _) as [bid ok].
  eapply keep_then; [apply (frame_of_refl nothing nothing)|apply keeps_when; intros _; apply keeps_updateValid|]. intros ? s1 F1.
  eapply keep_then; [exact F1|apply keeps_isProposalComplete|]. intros c s2 F2. clear s1 F1.
  pose proof (quiet_moves s v s2 HI F2) as G2. pose proof (frame_core _ _ _ _ F2) as (_ & C2 & _). destruct (_ && c).
  - eapply wp_mono; [apply (enterPrevote_wp s2 v); [apply G2|apply i64_range|]|].
    + rewrite i64_id; [lia|unfold in_i64, min_i64, max_i64 in *; lia].
    + intros ? s3 G3. apply moved_within. exists v. by eapply goes_trans.
  - apply wp_when; intros _; [|apply moved_within; by exists v].
    eapply wp_mono; [apply (tryFinalizeCommit_wp s2 v), G2|]. intros ? s3 H3.
    eapply moves_moved; [by exists v|exact H3].
Qed.

Lemma MakeBlock_height ps w x : MakeBlockFromPartSet ps w = Ret x -> chainHeight w <= chainHeight x.2.
Proof.
  unfold MakeBlockFromPartSet. destruct (PartSet.IsComplete ps); [|intros [= <-]; apply Z.le_refl].
  destruct (PartSet.GetReader ps); cbn [obind]; [|done]. destruct (readParts _); cbn [obind]; [|done].
  destruct (UnmarshalBinaryReader _ _); intros [= <-]; [apply Z.le_refl|apply DecodeBytes_height].
Qed.

Lemma addProposalBlockPart_wp s v height round part : Inv s v ->
  wp (addProposalBlockPart config height round part) (fun _ s' => moved s s') s.
Proof.
  intros HI. unfold addProposalBlockPart. apply wp_bind, wp_gets. cbv [id].
  assert (forall s', frame_of nothing nothing s s' -> moved s s') as Hdone.
  { intros s' F. apply moved_within. exists v. by apply quiet_moves. }
  pose proof (frame_of_refl nothing nothing s) as F0.
  destruct (negb _); [by apply wp_ret, Hdone|]. destruct (RoundState.ProposalBlockParts _) as [p|].
  2:{ apply wp_bind, wp_nonNil. intros ? _. by apply wp_ret, Hdone. }
  apply wp_bind, wp_nonNil. intros pt _. apply wp_bind, wp_gets, wp_bind, wp_nonNil. intros ps _.
  apply wp_bind, wp_lift. intros [[added err] ps'] _.
  eapply keep_then; [exact F0|apply keeps_modify; done|]. intros ? s1 F1. destruct err as [e|]; [by apply wp_ret, Hdone|].
  destruct (added && _); [|by apply wp_ret, Hdone].
  apply wp_bind, wp_gets, wp_bind, wp_lift. intros [br w] Hw. apply wp_bind, wp_modify. cbn [fst snd].
  match goal with |- wp _ _ ?x => set (s2 := x) end. assert (frame_of nothing nothing s s2) as F2.
  { eapply frame_of_trans; [exact F1|]. apply frame_of_state. split_and!; try done. exact (MakeBlock_height _ _ _ Hw). }
  destruct br as [e|b].
  - eapply keep_then; [exact F2|apply keeps_modr; done|]. intros ? s3 F3. by apply wp_ret, Hdone.
  - eapply keep_then; [exact F2|apply keeps_modr; done|]. intros ? s3 F3.
    pose proof (quiet_moves s v s3 HI F3) as G3. apply wp_bind. eapply wp_mono; [apply (proposalCompleted_wp s3 v), G3|].
    intros ? s4 H4. apply wp_ret. eapply moves_moved; [by exists v|exact H4].
Qed.

(** ** Votes *)

(** A lock is given up for the polka of a later round. *)
Lemma unlockFor_wp s v round bid : Inv s v -> polka v round bid -> round <= rd s ->
  wp (when (bool_decide (is_Some (RoundState.LockedBlock (ConsensusState.rs s)))
            && (RoundState.LockedRound (ConsensusState.rs s) <? round)
            && (round <=? RoundState.Round (ConsensusState.rs s))
            && negb (hashesTo (RoundState.LockedBlock (ConsensusState.rs s)) (BlockID.Hash bid))) unlock)
    (fun _ s' => goes s v s') s.
Proof.
  intros HI Hp Hr. pose proof (inv_round _ _ HI) as Hb. apply wp_when; intros Hc.
  2:{ split; [done|eapply within_refl, HI]. }
  eapply wp_mono; [apply unlock_wp|]. intros ? s1 S1. rewrite (inv_votes _ _ HI) in S1.
  rewrite !andb_true_iff in Hc. destruct Hc as (((_ & Hlr) & _) & Hh). apply Z.ltb_lt in Hlr.
  pose proof (shifted_core _ _ _ _ _ _ _ _ _ _ _ S1) as (_ & C2 & _).
  eapply (shifted_within X nothing nothing s v s1); [exact HI|exact S1|apply HI|apply hvs_ext_refl|lia|apply HI|right; lia|done| | |done|done].
  2:{ exact (quiet_nvotes _ _ _ _ S1). }
  intros b Hl. right. exists round, bid. split_and!; [exact Hlr|lia|done|].
  unfold lockBlock in Hl. rewrite Hl in Hh. cbn in Hh. by apply negb_true_iff in Hh.
Qed.

Lemma addedPrevote_wp s v vote : Inv s v -> 0 <= Vote.Round vote < max_i64 - 1 ->
  wp (addedPrevote config (ht s) vote) (fun _ s' => moves s s') s.
Proof.
  intros HI Hr. unfold addedPrevote, votes. apply wp_bind, wp_bind, wp_gets, wp_nonNil. intros v' Hv'.
  assert (v' = v) as -> by (pose proof (inv_votes _ _ HI) as Hvo; unfold vts in Hvo; congruence). cbv zeta.
  rewrite (i64_id (Vote.Round vote)) by (unfold in_i64, min_i64, max_i64 in *; lia).
  destruct (VoteSet.TwoThirdsMajority _) as [bid ok] eqn:Em. apply wp_bind.
  apply (wp_mono _ (fun _ s' => goes s v s')).
  { apply wp_when; intros Hok; [|split; [done|eapply within_refl, HI]]. subst ok. apply TwoThirds_polka in Em.
    apply wp_bind, wp_gets, wp_bind. cbv [id].
    destruct (Z.leb_spec (Vote.Round vote) (RoundState.Round (ConsensusState.rs s))) as [Hle|Hgt].
    - pose proof (unlockFor_wp s v _ bid HI Em Hle) as Hu. rewrite (proj2 (Z.leb_le _ _) Hle) in Hu.
      eapply wp_mono; [exact Hu|]. intros ? s1 G1. cbv beta. eapply wp_mono; [apply (keeps_updateValid nothing nothing)|]. intros ? s2 F2.
      eapply goes_trans; [exact G1|]. apply quiet_moves; [apply G1|exact F2].
    - rewrite andb_false_r. cbn [andb]. apply wp_ret. eapply wp_mono; [apply (keeps_updateValid nothing nothing)|]. intros ? s2 F2.
      by apply quiet_moves. }
  intros ? s1 G1. pose proof G1 as [HI1 W1]. pose proof (wi_height _ _ _ W1) as Hh. pose proof (inv_round _ _ HI1) as Hb1.
  assert (in_i64 (Vote.Round vote)) as Hin by (unfold in_i64, min_i64, max_i64 in *; lia).
  assert (moves s s1) as M1 by (by exists v).
  apply wp_bind, wp_gets. cbv [id]. destruct (_ && _).
  - apply wp_bind. eapply wp_mono; [apply (enterNewRound_wp s1 v); [done|done|lia]|]. intros ? s2 [M2 Hle]. specialize (Hle Hh).
    pose proof (moves_trans _ _ _ M1 M2) as M12. destruct M2 as [v2 [HI2 W2]]. destruct (VoteSet.HasTwoThirdsMajority _).
    + eapply wp_mono; [apply (enterPrecommit_wp s2 v2); done|]. intros ? s3 G3. eapply moves_trans; [exact M12|by exists v2].
    + apply wp_bind. eapply wp_mono; [apply (enterPrevote_wp s2 v2); [done|done|lia]|]. intros ? s3 G3.
      eapply wp_mono; [apply (enterPrevoteWait_wp s3 v2); [apply G3|done|lia]|]. intros ? s4 G4.
      eapply moves_trans; [exact M12|]. exists v2. exact (goes_trans _ _ _ _ _ G3 G4).
  - destruct (RoundState.Proposal _) as [p|]; [|by apply wp_ret]. apply wp_when; intros _; [|done].
    eapply (keep_then nothing nothing s1); [apply frame_of_refl|apply keeps_isProposalComplete|]. intros c s2 F2.
    pose proof (quiet_moves s1 v s2 HI1 F2) as G2. pose proof (frame_core _ _ _ _ F2) as (_ & C2 & _). assert (moves s s2) as M2 by (eapply moves_trans; [exact M1|by exists v]).
    apply wp_when; intros _; [|done]. change (RoundState.Round (ConsensusState.rs s1)) with (rd s1).
    eapply wp_mono; [apply (enterPrevote_wp s2 v); [apply G2|apply i64_range|]|].
    + rewrite i64_id; [lia|unfold in_i64, min_i64, max_i64 in *; lia].
    + intros ? s3 G3. eapply moves_trans; [exact M2|by exists v].
Qed.

(** Skipping to round 0 of the height the machine is at. *)
Lemma skipCommit_wp s0 s (b : bool) : moved s0 s ->
  wp (when b (h ← getr RoundState.Height; enterNewRound config h 0)) (fun _ s' => moved s0 s') s.
Proof.
  intros HM. destruct (moved_inv _ _ HM) as [v HI]. apply wp_when; intros _; [|done]. apply wp_bind, wp_gets.
  eapply wp_mono; [apply (enterNewRound_wp s v); [done|by cbv|by cbv]|]. intros ? s' [H _]. by eapply moved_moves.
Qed.

(** To the precommit step of a round, if not past it. *)
Lemma joinPrecommit_wp s v round : Inv s v -> 0 <= round < max_i64 - 1 ->
  wp (enterNewRound config (ht s) round;; enterPrecommit (ht s) round) (fun _ s' => moves s s') s.
Proof.
  intros HI Hr. assert (in_i64 round) as Hin by (unfold in_i64, min_i64, max_i64 in *; lia). apply wp_bind.
  eapply wp_mono; [apply (enterNewRound_wp s v); [done|done|lia]|]. intros ? s2 [M2 Hle]. specialize (Hle eq_refl). pose proof M2 as [v2 [HI2 W2]].
  eapply wp_mono; [apply (enterPrecommit_wp s2 v2); done|]. intros ? s3 G3. eapply moves_trans; [exact M2|by exists v2].
Qed.

Lemma wp_assoc {A B C} (m : M A) (f : A -> M B) (g : B -> M C) R s :
  wp ((x ← m; f x) ≫= g) R s -> wp (x ← m; y ← f x; g y) R s.
Proof.
  unfold wp, mbind, ST_bind. destruct (m s) as [[a s1]|]; [|done]. cbn [obind]. by destruct (f a s1) as [[b s2]|].
Qed.

Lemma addedPrecommit_wp s v vote : Inv s v -> 0 <= Vote.Round vote < max_i64 - 2 -> rd s < max_i64 - 2 ->
  wp (addedPrecommit config (ht s) vote) (fun _ s' => moved s s') s.
Proof.
  intros HI Hr Hrd. pose proof (inv_round _ _ HI) as Hb. unfold addedPrecommit, votes. apply wp_bind, wp_bind, wp_gets, wp_nonNil. intros v' _. cbv zeta.
  assert (in_i64 (Vote.Round vote)) as Hin by (unfold in_i64, min_i64, max_i64 in *; lia).
  rewrite (i64_id (Vote.Round vote)) by done. destruct (VoteSet.TwoThirdsMajority _) as [bid ok].
  apply wp_bind, wp_gets. cbv [id]. change (RoundState.Round (ConsensusState.rs s)) with (rd s). destruct ok.
  - destruct (_ =? 0).
    + rewrite (i64_id (_ + 1)) by (unfold in_i64, min_i64, max_i64 in *; lia).
      eapply wp_mono; [apply (enterNewRound_wp s v); [done|unfold in_i64, min_i64, max_i64 in *; lia|lia]|].
      intros ? s1 [H1 _]. by apply moved_within.
    + apply wp_assoc. apply wp_bind. eapply wp_mono; [apply (joinPrecommit_wp s v); [done|lia]|]. intros ? s1 M1. cbv beta.
      pose proof M1 as [v1 [HI1 W1]]. apply wp_bind. eapply wp_mono; [apply (enterCommit_wp s1 v1); done|]. intros ? s2 H2.
      assert (moved s s2) as H02 by (eapply moves_moved; [exact M1|exact H2]).
      destruct (Config.SkipTimeoutCommit config).
      * apply wp_bind, wp_bind, wp_nonNil. intros pcs _. apply wp_ret. by apply skipCommit_wp.
      * by apply wp_bind, wp_ret, skipCommit_wp.
  - apply wp_bind, wp_nonNil. intros pcs _. destruct (VoteSet.HasAll pcs).
    + rewrite u64_id, i64_id by (unfold in_u64, in_i64, two64, min_i64, max_i64 in *; lia).
      eapply wp_mono; [apply (enterNewRound_wp s v); [done|unfold in_i64, min_i64, max_i64 in *; lia|lia]|].
      intros ? s1 [H1 _]. by apply moved_within.
    + apply wp_when; intros _; [|apply moved_within; by eapply moves_refl].
      apply wp_assoc. apply wp_bind. eapply wp_mono; [apply (joinPrecommit_wp s v); [done|lia]|]. intros ? s1 M1. cbv beta.
      pose proof M1 as [v1 [HI1 W1]]. eapply wp_mono; [apply (enterPrecommitWait_wp s1 v1); [done|done|lia]|]. intros ? s2 G2.
      apply moved_within. eapply moves_trans; [exact M1|by exists v1].
Qed.

Lemma addLastPrecommit_wp s v vote : Inv s v -> wp (addLastPrecommit config vote) (fun _ s' => moved s s') s.
Proof.
  intros HI. unfold addLastPrecommit. apply wp_bind, wp_gets. cbv [id]. cbv zeta.
  assert (forall s', frame_of nothing nothing s s' -> moved s s') as Hdone.
  { intros s' F. apply moved_within. exists v. by apply quiet_moves. }
  pose proof (frame_of_refl nothing nothing s) as F0. destruct (negb _); [by apply wp_ret, Hdone|].
  assert (forall (b : bool) (e : option cs_error) s1, frame_of nothing nothing s s1 ->
    wp (fire (EventVote vote);; last ← getr RoundState.LastCommit;
        when (Config.SkipTimeoutCommit config && match last with Some vs => VoteSet.HasAll vs | None => false end)
          (h ← getr RoundState.Height; enterNewRound config h 0);; mret (b, e)) (fun _ s' => moved s s') s1) as Hfin.
  { intros b e s1 F1. eapply keep_then; [exact F1|apply keeps_fire|]. intros ? s2 F2. apply wp_bind, wp_gets, wp_bind.
    eapply wp_mono; [apply skipCommit_wp, Hdone, F2|]. intros ? s3 H3. by apply wp_ret. }
  destruct (RoundState.LastCommit _) as [vs|]; [|by apply Hfin].
  apply wp_bind, wp_lift. intros [[added err] vs'] _. eapply keep_then; [exact F0|apply keeps_modr; done|]. intros ? s1 F1.
  destruct (negb added); [by apply wp_ret, Hdone|by apply Hfin].
Qed.

Lemma AddVote_ext v vote p added err v' : hvs_wf v -> X vote -> HeightVoteSet.AddVote v (Some vote) p = Ret (added, err, v') ->
  hvs_wf v' /\ hvs_ext X v v'.
Proof.
  intros Hwf HX Ea. assert (forall w, kept v' w -> X w \/ kept v w) as Hkept.
  { intros w Hw. destruct (AddVote_kept _ _ _ _ _ _ Ea Hw) as [->|?]; [by left|by right]. }
  destruct (IsVoteTypeValid (Vote.Type_ vote)) eqn:Ht.
  2:{ unfold HeightVoteSet.AddVote in Ea. rewrite Ht in Ea. cbn [negb] in Ea. injection Ea as _ _ <-. split; [done|apply hvs_ext_refl]. }
  assert (routed v vote added err v' -> hvs_wf v' /\ hvs_ext X v v') as Hrouted.
  { intros (H1 & H2 & _ & H4 & vs & vs' & _ & (_ & Hx & _) & Hg' & Hg). split; [done|split_and!; [done| |done]]. intros r t w Hw.
    destruct (decide (r = i64 (Vote.Round vote) /\ t = Vote.Type_ vote)) as [[-> ->]|Hne].
    - exists vs'. split; [done|]. destruct Hg as [Hg|[Hg _]]; rewrite Hw in Hg; [by injection Hg as <-|done].
    - exists w. split; [|apply extends_refl]. apply H4; [done|].
      destruct (decide (r = i64 (Vote.Round vote))) as [->|]; [right|by left]. intros ->. by apply Hne. }
  destruct (HeightVoteSet.getVoteSet v (i64 (Vote.Round vote)) (Vote.Type_ vote)) as [vs|] eqn:Hg.
  - destruct (AddVote_known v vote p vs Hwf Ht Hg) as (a & e & h & E' & Hr & _). rewrite Ea in E'. injection E' as <- <- <-. auto.
  - destruct (Z.ltb_spec (zlen (default [] (HeightVoteSet.peerCatchupRounds v !! p))) 2) as [Hl|Hl].
    + destruct (AddVote_catchup v vote p Hwf Ht Hg Hl) as (a & e & h & E' & Hr & _). rewrite Ea in E'. injection E' as <- <- <-. auto.
    + unfold HeightVoteSet.AddVote in Ea. rewrite Ht, Hg, (proj2 (Z.ltb_ge _ _) Hl) in Ea. cbn [negb] in Ea.
      injection Ea as _ _ <-. split; [done|apply hvs_ext_refl].
Qed.

Lemma putVotes_goes s v v' : Inv s v -> hvs_wf v' -> hvs_ext X v v' ->
  wp (putVotes v') (fun _ s' => goes s v' s') s.
Proof.
  intros HI Hwf Hx. apply wp_modify. pose proof (inv_round _ _ HI) as Hb.
  match goal with |- goes _ _ ?x => assert (shifted nothing nothing s (ht s, rd s, stp s, lockRound s, lockBlock s, Some v', commitRound s) x) as S1
    by (split_and!; try done; exists []; by rewrite app_nil_r) end.
  eapply (shifted_within X nothing nothing s v _ (rd s) (stp s) (lockRound s) (lockBlock s) v' (commitRound s)); try done.
  - apply HI.
  - right. lia.
  - apply (locked_ok_ext _ (rd s) (stp s) _ _ _ _ v); [done|lia|apply HI].
  - intros b Hb'. left. split; [done|apply Z.le_refl].
  - exact (quiet_nvotes _ _ _ _ S1).
Qed.

Lemma addVote_wp s v vote p : Inv s v -> X vote -> 0 <= Vote.Round vote < max_i64 - 2 -> rd s < max_i64 - 2 ->
  wp (addVote config vote p) (fun _ s' => moved s s') s.
Proof.
  intros HI HX Hr Hrd. unfold addVote, votes. apply wp_bind, wp_gets. cbv [id]. destruct (_ =? _); [by eapply addLastPrecommit_wp|].
  destruct (negb _); [apply wp_ret, moved_within; by eapply moves_refl|].
  apply wp_bind, wp_bind, wp_gets, wp_nonNil. intros v0 Hv0.
  assert (v0 = v) as -> by (pose proof (inv_votes _ _ HI) as Hvo; unfold vts in Hvo; congruence).
  apply wp_bind, wp_lift. intros [[added err] v'] Ea. destruct (AddVote_ext _ _ _ _ _ _ (inv_wf _ _ HI) HX Ea) as [Hwf Hx].
  apply wp_bind. pose proof (putVotes_goes s v v' HI Hwf Hx) as Hput. apply (wp_mono _ (fun _ s' => goes s v' s' /\ rd s' = rd s)).
  { revert Hput. unfold putVotes, modr, modify, wp. cbn. by split. }
  clear Hput. intros ? s1 [G1 Er1]. cbv beta zeta.
  destruct (negb added); [apply wp_ret, moved_within; by exists v'|].
  eapply (keep_then nothing nothing s1); [apply frame_of_refl|apply keeps_fire|]. intros ? s2 F2.
  pose proof (goes_trans _ _ _ _ _ G1 (quiet_moves _ _ _ (proj1 G1) F2)) as [HI2 W2]. pose proof (frame_core _ _ _ _ F2) as (_ & C2 & _).
  pose proof (wi_height _ _ _ W2) as Hh. change (RoundState.Height (ConsensusState.rs s)) with (ht s). rewrite <- Hh.
  apply wp_bind. apply (wp_mono _ (fun _ s' => moved s2 s')).
  - destruct (_ =? VoteTypePrevote).
    + eapply wp_mono; [apply (addedPrevote_wp s2 v'); [done|lia]|]. intros ? s3 H3. by apply moved_within.
    + destruct (_ =? VoteTypePrecommit); [|done]. apply (addedPrecommit_wp s2 v'); [done|done|lia].
  - intros ? s3 H3. apply wp_ret. apply (moves_moved s s2 s3); [by exists v'|exact H3].
Qed.

Lemma tryAddVote_wp s v vote p : Inv s v -> X vote -> 0 <= Vote.Round vote < max_i64 - 2 -> rd s < max_i64 - 2 ->
  wp (tryAddVote config vote p) (fun _ s' => moved s s') s.
Proof.
  intros HI HX Hr Hrd. unfold tryAddVote. apply wp_bind. eapply wp_mono; [by apply (addVote_wp s v)|]. intros [added err] s1 H1. cbn [snd].
  destruct err as [[]|]; try by apply wp_ret.
  destruct e; try by apply wp_ret. apply wp_bind, wp_bind, wp_gets, wp_nonNil. intros ? _. by apply wp_ret.
Qed.

(** ** Restarts *)

Lemma keeps_privReset P Q : keeps P Q privReset.
Proof.
  intros s. unfold privReset, signer. apply wp_bind, wp_bind, wp_gets, wp_nonNil. intros pv Hpv. apply wp_modify.
  split_and!; try done; [|exists []; by rewrite app_nil_r..]. unfold agentCore, addrOf. cbn. by rewrite Hpv.
Qed.

Lemma fresh_frame s v s' : fresh_height s v -> frame_of nothing nothing s s' -> fresh_height s' v.
Proof.
  intros (HI & H1 & H2 & H3 & vals & H4 & H5) F. pose proof (frame_core _ _ _ _ F) as (C1 & C2 & C3 & _ & C5 & _).
  pose proof F as (_ & A & _). destruct (agentCore_quorate _ _ A) as (_ & Hc & _). unfold agentCore in A. injection A as _ A _.
  split_and!; [by apply (quiet_moves s v s')|congruence|congruence|congruence|]. exists vals. rewrite Hc, C1. split; congruence.
Qed.

(** Another range of heights while there is no lock. *)
Lemma unlocked_goes s v st : Inv s v -> lockBlock s = None ->
  StateAgentImpl.ChainID st = StateAgentImpl.ChainID (ConsensusState.state s) ->
  StateAgentImpl.Validators st = StateAgentImpl.Validators (ConsensusState.state s) ->
  heightOf s <= chainHeight (StateAgentImpl.Agent st) -> goes s v (ConsensusState.set_state s st).
Proof.
  intros [I1 I2 I3 I4 I5 I6 I7 I8 I9 I10] Hl H1 H2 H3. split.
  - split; try done.
    + by rewrite I4; unfold chainOf; cbn.
    + intros b Hb. change (lockBlock s = Some b) in Hb. congruence.
    + cbn. by rewrite H2.
    + unfold chainOf. cbn. by rewrite H1.
    + change (chainHeight (StateAgentImpl.Agent st) < 2 ^ 62 -> ht s <= chainHeight (StateAgentImpl.Agent st) + 1). lia.
  - split; [done|right; split; [done|apply Z.le_refl]| |unfold identity, chainOf; cbn; by rewrite H1, H2|done|done].
    exists v, v. split_and!; try done; [apply hvs_ext_refl| | |].
    + intros x Hx. congruence.
    + exists []. split; [by rewrite app_nil_r|apply sends_nil].
    + exists []. split; [by rewrite app_nil_r|constructor].
Qed.

(** A fresh height with a signer that has no memory of what it signed. *)
Definition forgotten s : Prop :=
  exists pv v, ConsensusState.privValidator s = Some (privValidator.Reset pv) /\ fresh_height s v.

(** The new range of the committee. *)
Lemma setRange_wp {A} s v (k : M A) R eHeight uHeight : Inv s v -> lockBlock s = None ->
  (forall s', goes s v s' -> wp k R s') ->
  wp (modify (fun s => ConsensusState.set_state s (StateAgentImpl.SetEndHeight (ConsensusState.state s) eHeight));;
      modify (fun s => ConsensusState.set_state s (StateAgentImpl.SetBeginHeight (ConsensusState.state s) uHeight));; k) R s.
Proof.
  intros HI Hl Hk. apply wp_bind, wp_modify. pose proof (fun w => GetCurrentHeight_height w) as Hh.
  match goal with |- wp _ _ ?x => assert (goes s v x) as G1; [|set (s1 := x) in *] end.
  { unfold StateAgentImpl.SetEndHeight. specialize (Hh (StateAgentImpl.Agent (ConsensusState.state s))).
    destruct (GetCurrentHeight _). by apply unlocked_goes. }
  assert (lockBlock s1 = None) as Hl1 by done. clearbody s1. apply wp_bind, wp_modify. apply Hk.
  eapply goes_trans; [exact G1|]. unfold StateAgentImpl.SetBeginHeight. specialize (Hh (StateAgentImpl.Agent (ConsensusState.state s1))).
  destruct (GetCurrentHeight _), (_ && _); apply unlocked_goes; try done; apply G1 || apply Z.le_refl.
Qed.

Lemma validatorUpdate_wp s v vset uHeight eHeight : Inv s v -> quorate vset -> rd s < max_i64 - 2 ->
  wp (validatorUpdate config vset uHeight eHeight)
    (fun _ s' => restarted (ht s) s s' /\ exists s2, forgotten s2 /\ moves s2 s') s.
Proof.
  intros HI Hq Hrd. pose proof (inv_round _ _ HI) as Hb. unfold validatorUpdate.
  apply wp_bind, wp_gets, wp_bind, wp_modify, wp_bind, wp_modify, wp_bind. cbv [id].
  eapply wp_mono; [apply updateToState_wp; [exact Hq|apply HI]|]. intros ? s1 (v1 & Hf & Ha & Hst & Hqu & Ht & Hh). cbv beta.
  match type of Hh with _ -> _ = heightOf ?x + 1 => change (heightOf x) with (heightOf s) in Hh, Ht end.
  assert (addrOf s1 = addrOf s) as Haddr by (unfold agentCore in Ha; by injection Ha). cbn in Hst, Hqu.
  unfold privReset. apply wp_bind, wp_bind, wp_bind, wp_gets, wp_nonNil. intros pv Hpv. apply wp_modify.
  match goal with |- wp _ _ ?x => set (s2 := x) end.
  assert (frame_of nothing nothing s1 s2) as F12.
  { split_and!; try done; [|exists []; by rewrite app_nil_r..]. unfold agentCore, addrOf. cbn. by rewrite Hpv. }
  pose proof (fresh_frame _ _ _ Hf F12) as Hf2. apply (setRange_wp s2 v1); [apply Hf2|apply Hf2|]. intros s4 G4.
  apply wp_bind, wp_gets. cbv zeta.
  eapply (keep_then nothing nothing s4); [apply frame_of_refl|apply keeps_modify; done|]. intros ? s5 F5.
  pose proof (goes_trans _ _ _ _ _ G4 (quiet_moves s4 v1 s5 (proj1 G4) F5)) as G5. change (RoundState.Round (ConsensusState.rs s)) with (rd s).
  match goal with |- wp (enterNewRound config _ (i64 ?x)) _ _ => set (round := x) end.
  assert (0 <= round < max_i64 - 1) as Hround.
  { unfold round. destruct (_ && _); [|by cbv]. rewrite u64_id; [lia|unfold in_u64, two64, max_i64 in *; lia]. }
  eapply wp_mono; [apply (enterNewRound_wp s5 v1); [apply G5|apply i64_range|]|].
  - rewrite i64_id; [lia|unfold in_i64, min_i64, max_i64 in *; lia].
  - intros ? s6 [M6 _]. assert (moves s2 s6) as M26 by (eapply moves_trans; [by exists v1|exact M6]). split.
    + exists s1, v1. pose proof (inv_tall _ _ HI). split_and!; [done|done|done|done|done|lia|].
      eapply moves_trans; [|exact M26]. exists v1. by apply (quiet_moves s1 v1 s2 (proj1 Hf)).
    + exists s2. split; [|done]. by exists pv, v1.
Qed.

(** The sync task restarts the machine only at a later height. *)
Lemma updateStateForSync_wp s v : Inv s v ->
  wp (updateStateForSync config) (fun _ s' => moved s s' \/ restarted (ht s + 1) s s') s.
Proof.
  intros HI. unfold updateStateForSync. apply wp_bind, wp_gets. change (RoundState.Height (ConsensusState.rs s)) with (ht s).
  apply wp_bind. eapply wp_mono; [apply lastBlockHeight_wp|]. intros lh s1 [Hlh F1].
  pose proof (quiet_moves s v s1 HI F1) as G1. apply wp_bind.
  apply (wp_mono _ (fun _ s' => moved s s' \/ restarted (ht s + 1) s s')).
  - apply wp_when; intros Hne; [|left; apply moved_within; by exists v]. apply wp_bind.
    eapply wp_mono; [apply updateToState_wp; apply G1|]. intros ? s2 (v2 & Hf & Ha & Hst & Hqu & Ht & Hh). cbv beta.
    eapply (keep_then nothing (for_round (ht s2) 0) s2); [apply frame_of_refl|apply keeps_privReset|]. intros ? s3 F3.
    apply wp_bind, wp_gets. pose proof (frame_core _ _ _ _ F3) as (C1 & _). change (RoundState.Height (ConsensusState.rs s3)) with (ht s3). rewrite C1.
    eapply wp_mono; [apply (keeps_schedule nothing (for_round (ht s2) 0)); by split|]. intros ? s4 F4. right.
    pose proof F1 as (_ & _ & [Es Et] & _). pose proof (nothing_queue _ _ _ F1) as El. pose proof (frame_addr _ _ _ _ F1) as A1.
    assert (addrOf s2 = addrOf s1) as A2 by (unfold agentCore in Ha; by injection Ha).
    exists s2, v2. split_and!; [done|by rewrite Hst|by rewrite Hqu|congruence|lia| |].
    + intros Hlt. specialize (Hh Hlt). pose proof (inv_tall _ _ HI) as Htall. pose proof (height_nonneg (StateAgentImpl.Agent (ConsensusState.state s))) as Hn.
      fold (heightOf s) in Hn. apply negb_true_iff, Z.eqb_neq in Hne.
      rewrite Hlh, (u64_id (heightOf s)), u64_id in Hne by (unfold in_u64, two64; lia). lia.
    + exists v2. pose proof (frame_of_trans _ _ _ _ _ F3 F4) as F. pose proof (frame_core _ _ _ _ F) as (D1 & D2 & _).
      eapply frame_within; [apply Hf|exact F|done|]. intros ti. apply for_round_reached; [done|]. rewrite D2. destruct Hf as (_ & -> & _). lia.
  - intros ? s2 H2. apply wp_bind, wp_gets. eapply wp_mono; [unfold scheduleTask; apply (keeps_modify nothing nothing); done|].
    intros ? s3 F3. assert (exists v2, Inv s2 v2) as [v2 HI2].
    { destruct H2 as [H2|(? & ? & _ & _ & _ & _ & _ & _ & H2)]; [by eapply moved_inv|by eapply moves_inv]. }
    assert (moves s2 s3) as M3 by (exists v2; by apply quiet_moves).
    destruct H2 as [H2|(t & w & H3 & H4 & H5 & H6 & H7 & H8 & H9)]; [left; by eapply moved_moves|right].
    exists t, w. split_and!; [done..|by eapply moves_trans].
Qed.

(** ** The handlers *)

(** What the receive loop relies on: rounds far from the end of the integers, a
    timeout of the current height only for a round the machine reached, and a
    new committee with a quorum. *)
Definition calm_msg (m : ConsensusMessage) : Prop :=
  match m with
  | VoteMessage (Some vote) => 0 <= Vote.Round vote < 2 ^ 62
  | ValidatorUpdateMessage vset _ _ => quorate vset
  | _ => True
  end.

Definition calm (i : input) s : Prop :=
  rd s < 2 ^ 62 /\
  match i with
  | IPeer mi => calm_msg (msgInfo.Msg mi)
  | IInternal n => forall mi, ConsensusState.internalMsgQueue s !! n = Some mi -> calm_msg (msgInfo.Msg mi)
  | ITimeout ti => 0 <= timeoutInfo.Round ti /\ (timeoutInfo.Height ti = ht s -> timeoutInfo.Round ti <= rd s)
  | _ => True
  end.

(** The inputs that restart the machine in the middle of a height. *)
Definition restarts (i : input) s : Prop :=
  match i with
  | IPeer mi => exists vset u e, msgInfo.Msg mi = ValidatorUpdateMessage vset u e
  | IInternal n => exists mi vset u e,
      ConsensusState.internalMsgQueue s !! n = Some mi /\ msgInfo.Msg mi = ValidatorUpdateMessage vset u e
  | _ => False
  end.

(** The vote that the input delivers. *)
Definition delivers (i : input) s (w : Vote.t) : Prop :=
  match i with
  | IPeer mi => msgInfo.Msg mi = VoteMessage (Some w)
  | IInternal n => exists mi, ConsensusState.internalMsgQueue s !! n = Some mi /\ msgInfo.Msg mi = VoteMessage (Some w)
  | _ => False
  end.

(** The state after the message was taken from the queue. *)
Definition taken (i : input) s : ConsensusState.t :=
  match i with
  | IInternal n =>
      match ConsensusState.internalMsgQueue s !! n with
      | Some _ => ConsensusState.set_internalMsgQueue s (delete n (ConsensusState.internalMsgQueue s))
      | None => s
      end
  | _ => s
  end.

Lemma handleMsg_wp s v mi : Inv s v -> rd s < 2 ^ 62 -> calm_msg (msgInfo.Msg mi) ->
  (forall w, msgInfo.Msg mi = VoteMessage (Some w) -> X w) ->
  wp (handleMsg config mi) (fun _ s' => moved s s' \/
    (exists vset u e, msgInfo.Msg mi = ValidatorUpdateMessage vset u e) /\ restarted (ht s) s s') s.
Proof.
  intros HI Hrd Hc HX. unfold handleMsg. assert (2 ^ 62 < max_i64 - 2) as H62 by by cbv. destruct (msgInfo.Msg mi) as [p|h r part|[vote|]|vset u e]; cbn in Hc.
  - apply wp_bind. eapply wp_mono; [apply (keeps_defaultSetProposal nothing nothing)|]. intros ? s1 F1. apply wp_ret.
    left. apply moved_within. exists v. by apply quiet_moves.
  - apply wp_bind. eapply wp_mono; [by apply (addProposalBlockPart_wp s v)|]. intros ? s1 H1. apply wp_ret. by left.
  - apply wp_bind, wp_ret, wp_bind. eapply wp_mono; [apply (tryAddVote_wp s v); [done|by apply HX|lia|lia]|]. intros ? s1 H1. apply wp_ret. by left.
  - done.
  - eapply wp_mono; [apply (validatorUpdate_wp s v); [done|done|lia]|]. intros ? s1 [H1 _]. right. split; [by eexists _, _, _|done].
Qed.

Lemma handleTimeout_wp s v ti : Inv s v -> rd s < 2 ^ 62 -> 0 <= timeoutInfo.Round ti ->
  (timeoutInfo.Height ti = ht s -> timeoutInfo.Round ti <= rd s) ->
  wp (handleTimeout config ti) (fun _ s' => moves s s') s.
Proof.
  intros HI Hrd Hpos Hle. unfold handleTimeout. assert (2 ^ 62 < max_i64 - 2) as H62 by by cbv. apply wp_bind, wp_gets. cbv [id].
  change (RoundState.Height (ConsensusState.rs s)) with (ht s).
  destruct (Z.eqb_spec (timeoutInfo.Height ti) (ht s)) as [Eh|]; [|apply wp_ret; by eapply moves_refl]. specialize (Hle Eh). cbn [negb orb].
  destruct (_ || _); [apply wp_ret; by eapply moves_refl|]. cbv zeta. rewrite Eh.
  assert (in_i64 (timeoutInfo.Round ti)) as Hin by (unfold in_i64, min_i64, max_i64 in *; lia). rewrite (i64_id (timeoutInfo.Round ti)) by done.
  destruct (_ =? RoundStepNewHeight).
  { eapply wp_mono; [apply (enterNewRound_wp s v); [done|by cbv|by cbv]|]. by intros ? s1 [H1 _]. }
  destruct (_ =? RoundStepNewRound).
  { eapply wp_mono; [apply (tryEnterProposal_wp s v); [done|by cbv|by cbv]|]. intros ? s1 G1. by exists v. }
  destruct (_ =? RoundStepPropose).
  { eapply wp_mono; [apply (enterPrevote_wp s v); [done|done|lia]|]. intros ? s1 G1. by exists v. }
  destruct (_ =? RoundStepPrevoteWait).
  { eapply wp_mono; [by apply (enterPrecommit_wp s v)|]. intros ? s1 G1. by exists v. }
  destruct (_ =? RoundStepPrecommitWait); [|done]. rewrite i64_id by (unfold in_i64, min_i64, max_i64 in *; lia).
  eapply wp_mono; [apply (enterNewRound_wp s v); [done|unfold in_i64, min_i64, max_i64 in *; lia|lia]|]. by intros ? s1 [H1 _].
Qed.

Lemma handle_wp s v i : Inv s v -> calm i s -> (forall w, delivers i s w -> X w) ->
  wp (handle config i) (fun _ s' => moved (taken i s) s' \/
    (exists ti, i = ITask ti) /\ restarted (ht s + 1) s s' \/ restarts i s /\ restarted (ht s) (taken i s) s') s.
Proof.
  intros HI [Hrd Hc] HX. destruct i as [mi|n|ti|ti|sv]; cbn [handle taken restarts].
  - eapply wp_mono; [by eapply handleMsg_wp|]. intros ? s1 [H1|H1]; [by left|by right; right].
  - apply wp_bind, wp_gets. destruct (ConsensusState.internalMsgQueue s !! n) as [mi|] eqn:Eq.
    2:{ apply wp_ret. left. apply moved_within. by eapply moves_refl. }
    apply wp_bind, wp_modify. eapply wp_mono; [apply (handleMsg_wp _ v)|].
    + by destruct HI.
    + done.
    + by apply Hc.
    + intros w Hw. apply HX. by exists mi.
    + intros ? s1 [H1|[(x1 & x2 & x3 & H1) H2]]; [by left|right; right]. split; [|done]. by eexists _, _, _, _.
  - destruct Hc. eapply wp_mono; [by apply (handleTimeout_wp s v)|]. intros ? s1 H1. left. by apply moved_within.
  - eapply wp_mono; [by apply (updateStateForSync_wp s v)|]. intros ? s1 [H1|H1]; [by left|right; left]. split; [by exists ti|done].
  - eapply wp_mono; [apply (keeps_switchHandle nothing nothing)|]. intros ? s1 F1. left. apply moved_within. exists v. by apply quiet_moves.
Qed.
End Transitions.

(** ** Runs *)

Section Runs.
Context {L : Lib} {HL : LibLaws L} {E : Env} {HE : EnvLaws E} (config : Config.t).
Implicit Types (s : ConsensusState.t) (v : HeightVoteSet.t) (b : Block).

Lemma moves_from_frame s v s' : Inv s v -> frame_of nothing nothing s s' -> exists v', Inv s' v'.
Proof. intros HI F. exists v. by apply (quiet_moves (fun _ => True) s v s'). Qed.

Lemma keeps_reconstruct P Q : keeps P Q reconstructLastCommit.
Proof. unfold reconstructLastCommit. keep. Qed.

(** The states of a machine that was set up, started and fed with inputs. *)
Inductive reach : ConsensusState.t -> Prop :=
| reach_new state store s : quorate (StateAgentImpl.Validators state) -> store_ok (StateAgentImpl.ChainID state) store ->
    NewConsensusState config state store = Ret s -> reach s
| reach_priv s pv s' : reach s -> SetPrivValidator pv s = Ret (tt, s') -> reach s'
| reach_health s h s' : reach s -> SetHealthMgr h s = Ret (tt, s') -> reach s'
| reach_committee s c s' : reach s -> SetCommitteeInfo c s = Ret (tt, s') -> reach s'
| reach_start s s' : reach s -> OnStart config s = Ret (tt, s') -> reach s'
| reach_handle s i s' : reach s -> calm i s -> handle config i s = Ret (tt, s') -> reach s'.

Lemma OnStart_wp s v : Inv s v -> wp (OnStart config) (fun _ s' => exists v', Inv s' v') s.
Proof.
  intros HI. unfold OnStart. apply wp_bind, wp_gets. destruct (ConsensusState.hm s); [|apply wp_ret; by exists v].
  apply wp_bind. eapply wp_mono; [apply updateToState_wp; apply HI|]. intros ? s1 (v1 & Hf & _). cbv beta.
  eapply wp_mono; [eapply (scheduleRound0_wp (fun _ => True)), Hf|]. intros ? s2 H2. exact (moves_inv _ _ _ H2).
Qed.

Lemma reach_inv s : reach s -> exists v, Inv s v.
Proof.
  induction 1 as [state store s Hq Hst Hn|s pv s' _ [v HI] Hr|s h s' _ [v HI] Hr|s c s' _ [v HI] Hr|s s' _ [v HI] Hr|s i s' _ [v HI] Hc Hr].
  - unfold NewConsensusState in Hn. destruct ((updateToState config;; reconstructLastCommit) (zeroState config state store)) as [[[] s1]|] eqn:Hr; [|done].
    cbn [obind] in Hn. injection Hn as <-.
    eapply (wp_run _ (fun _ s' => exists v, Inv s' v)); [|exact Hr]. apply wp_bind.
    eapply wp_mono; [by apply updateToState_wp|]. intros ? s2 (v2 & [HI2 _] & _). cbv beta.
    eapply wp_mono; [apply (keeps_reconstruct nothing nothing)|]. intros ? s3 F3. by eapply moves_from_frame.
  - exists v. cbn in Hr. injection Hr as <-. by destruct HI.
  - eapply moves_from_frame; [exact HI|]. eapply (wp_run _ (fun _ s' => frame_of nothing nothing s s')); [|exact Hr]. apply keeps_modify; done.
  - eapply moves_from_frame; [exact HI|]. eapply (wp_run _ (fun _ s' => frame_of nothing nothing s s')); [|exact Hr]. apply keeps_modify; done.
  - eapply (wp_run _ (fun _ s' => exists v, Inv s' v)); [|exact Hr]. by eapply OnStart_wp.
  - destruct (wp_run _ _ _ _ _ (handle_wp config (fun _ => True) s v i HI Hc (fun _ _ => I)) Hr) as [H1|[H1|H1]]; [exact (moved_inv _ _ _ H1)|..];
      destruct H1 as (_ & ? & ? & _ & _ & _ & _ & _ & _ & H1); exact (moves_inv _ _ _ H1).
Qed.
End Runs.

(** ** Properties *)

Section Properties.
Context {L : Lib} {HL : LibLaws L} {E : Env} {HE : EnvLaws E}.
Variable (config : Config.t).
Implicit Types (s : ConsensusState.t) (b : Block).

(** The votes that a transition within a height queued. *)
Lemma within_votes X s s' : within X s s' -> exists v' l, vts s' = Some v' /\
  ConsensusState.internalMsgQueue s' = ConsensusState.internalMsgQueue s ++ l /\
  lock_change s s' v' /\ sends s s' v' (votesOf l).
Proof. intros [_ _ (v & v' & _ & V & _ & HL' & (l & Q & F) & _) _ _ _]. by exists v', l. Qed.

(** A queued precommit for a block has a polka in votes of its height. *)
Definition backed (mi : msgInfo.t) : Prop :=
  match msgInfo.Msg mi with
  | VoteMessage (Some vote) => Vote.Type_ vote = VoteTypePrecommit -> BlockID.Hash (Vote.BlockID vote) <> [] ->
      exists v vs, hvs_wf v /\ HeightVoteSet.height v = Vote.Height vote /\
        HeightVoteSet.Prevotes v (Vote.Round vote) = Some vs /\ VoteSet.maj23 vs = Some (Vote.BlockID vote)
  | _ => True
  end.

Lemma moves_backed X s s' : moves X s s' -> exists l,
  ConsensusState.internalMsgQueue s' = ConsensusState.internalMsgQueue s ++ l /\ Forall backed l.
Proof.
  intros [v [HI W]]. destruct (within_votes X s s' W) as (v' & l & V & Q & _ & [F _ _]). exists l. split; [done|].
  assert (v' = v) as -> by (pose proof (inv_votes _ _ HI); congruence).
  apply Forall_forall. intros mi Hin. unfold backed. destruct (msgInfo.Msg mi) as [|?? ?|[vote|]|] eqn:Em; try done. intros Ht Hn.
  rewrite Forall_forall in F. destruct (F vote) as (Hh & _ & _ & _ & [[Ht' _]|[_ [?|(vs & Hv & Hm)]]]);
    [apply votesOf_elem; by exists mi|rewrite Ht in Ht'; discriminate Ht'|done|].
  exists v, vs. split_and!; [apply HI| |done|done]. by rewrite (inv_height _ _ HI), (wi_height _ _ _ W), Hh.
Qed.

Lemma queue_trans (P : msgInfo.t -> Prop) s1 s2 s3 :
  (exists l, ConsensusState.internalMsgQueue s2 = ConsensusState.internalMsgQueue s1 ++ l /\ Forall P l) ->
  (exists l, ConsensusState.internalMsgQueue s3 = ConsensusState.internalMsgQueue s2 ++ l /\ Forall P l) ->
  exists l, ConsensusState.internalMsgQueue s3 = ConsensusState.internalMsgQueue s1 ++ l /\ Forall P l.
Proof. intros (l1 & E1 & F1) (l2 & E2 & F2). exists (l1 ++ l2). by rewrite E2, E1, app_assoc, Forall_app. Qed.

(** One input, with the vote it delivers. *)
Lemma handle_moved s v i s' : Inv s v -> calm i s -> handle config i s = Ret (tt, s') ->
  moved (delivers i s) (taken i s) s' \/
  (exists ti, i = ITask ti) /\ restarted (delivers i s) (ht s + 1) s s' \/
  restarts i s /\ restarted (delivers i s) (ht s) (taken i s) s'.
Proof. intros HI Hc Hr. exact (wp_run _ _ _ _ _ (handle_wp config (delivers i s) s v i HI Hc (fun w H => H)) Hr). Qed.

Lemma taken_same i s : lockBlock (taken i s) = lockBlock s /\ lockRound (taken i s) = lockRound s /\ ht (taken i s) = ht s /\
  rd (taken i s) = rd s /\ stp (taken i s) = stp s /\ vts (taken i s) = vts s /\ addrOf (taken i s) = addrOf s /\
  ConsensusState.blockStore (taken i s) = ConsensusState.blockStore s /\ identity (taken i s) = identity s.
Proof. destruct i as [|n| | |]; cbn; try done. by destruct (_ !! n). Qed.

Lemma moves_tall X s s' : moves X s s' -> ht s' = ht s /\ heightOf s <= heightOf s' /\ ConsensusState.blockStore s' = ConsensusState.blockStore s.
Proof. intros [v [_ W]]. by destruct W. Qed.

(** An input after which the height is the same, and which does not restart the
    machine, moves it within the height. *)
Lemma handle_stays s v i s' : Inv s v -> calm i s -> handle config i s = Ret (tt, s') -> ~ restarts i s ->
  heightOf s' < 2 ^ 62 -> ht s' = ht s -> moves (delivers i s) (taken i s) s'.
Proof.
  intros HI Hc Hr Hn Hlt Hh. destruct (taken_same i s) as (_ & _ & T & _).
  destruct (handle_moved s v i s' HI Hc Hr) as [[H|b s1 s2 H1 H2 H3]|[(_ & s1 & v1 & _ & _ & _ & _ & _ & H1 & H2)|[? _]]]; [done|exfalso..|done].
  - apply moves_tall in H1 as (A1 & _), H3 as (A3 & B3 & _). pose proof (co_height _ _ _ H2). lia.
  - apply moves_tall in H2 as (A2 & B2 & _). lia.
Qed.


(** The lock has a polka.  In every reachable state in which the machine is
    locked on a block, two thirds of the power prevoted a block with that hash in
    the round of the lock, which is not later than the current round, and the
    machine has taken the precommit step of that round. *)
Theorem locks_have_polka s b : reach config s -> lockBlock s = Some b -> exists v vs bid,
  vts s = Some v /\ HeightVoteSet.height v = ht s /\ HeightVoteSet.Prevotes v (lockRound s) = Some vs /\
  VoteSet.maj23 vs = Some bid /\ EqualHashes (BlockHash b) (BlockID.Hash bid) = true /\
  0 <= lockRound s <= rd s /\ (lockRound s = rd s -> RoundStepPrecommit <= stp s).
Proof.
  intros HR Hb. destruct (reach_inv config s HR) as [v HI]. destruct (inv_lock _ _ HI b Hb) as (H1 & H2 & (bid & (vs & Hv & Hm) & He) & _).
  exists v, vs, bid. split_and!; try done; try apply HI; lia.
Qed.

(** C14: the lock rule.  As long as it stays in its height and is not restarted by
    a committee change, a locked machine keeps its block locked, possibly for a
    later round, or there is a polka for something else in a later round that the
    machine has reached; and the prevotes it queues meanwhile, nil ones included,
    are for the locked block, or there is such a polka, or two thirds precommitted
    another block. *)
Theorem lock_rule s i s' b : reach config s -> calm i s -> handle config i s = Ret (tt, s') -> ~ restarts i s ->
  heightOf s' < 2 ^ 62 -> ht s' = ht s -> lockBlock s = Some b ->
  exists v' l, vts s' = Some v' /\ ConsensusState.internalMsgQueue s' = ConsensusState.internalMsgQueue (taken i s) ++ l /\
    (lockBlock s' = Some b /\ lockRound s <= lockRound s' \/ polka_after v' (lockRound s) (BlockHash b) (rd s')) /\
    forall mi vote, mi ∈ l -> msgInfo.Msg mi = VoteMessage (Some vote) -> Vote.Type_ vote = VoteTypePrevote ->
      BlockID.Hash (Vote.BlockID vote) = BlockHash b \/ polka_after v' (lockRound s) (BlockHash b) (rd s') \/
      other_commit v' (BlockHash b).
Proof.
  intros HR Hc Hr Hn Hlt Hh Hb. destruct (reach_inv config s HR) as [v HI]. destruct (taken_same i s) as (T1 & T2 & _).
  destruct (handle_stays s v i s' HI Hc Hr Hn Hlt Hh) as [w [_ W]].
  destruct (within_votes _ _ _ W) as (v' & l & V & Q & Hlc & [F _ _]). exists v', l. split_and!; [done|done| |].
  - rewrite <- T2. apply Hlc. by rewrite T1.
  - intros mi vote Hin Hm Ht. rewrite Forall_forall in F.
    destruct (F vote) as (_ & _ & _ & _ & [[_ Hp]|[Ht' _]]); [apply votesOf_elem; by exists mi| |rewrite Ht in Ht'; discriminate Ht'].
    rewrite <- T2. apply Hp. by rewrite T1.
Qed.


(** C12: the machine follows the protocol.  Every input that a running machine
    handles moves it along the protocol: forward in the rounds and steps of its
    height, with only the delivered vote added, the store and the committee
    untouched, at most one vote cast per step and timeouts only scheduled for
    rounds it reached; or through the commit of a block with two thirds of the
    precommits to the first round of a fresh height; or, for the sync task only,
    to a fresh height that is later; or, for a committee change only, through a
    restart at a fresh height. *)
Theorem handle_follows_protocol s i s' : reach config s -> calm i s -> handle config i s = Ret (tt, s') ->
  moves (delivers i s) (taken i s) s' \/
  (exists b s1 s2, moves (delivers i s) (taken i s) s1 /\ commits b s1 s2 /\ moves (delivers i s) s2 s') \/
  (exists ti, i = ITask ti) /\ restarted (delivers i s) (ht s + 1) s s' \/
  restarts i s /\ restarted (delivers i s) (ht s) (taken i s) s'.
Proof.
  intros HR Hc Hr. destruct (reach_inv config s HR) as [v HI].
  destruct (handle_moved s v i s' HI Hc Hr) as [[H|b s1 s2 H1 H2 H3]|[H|H]]; [by left| |by right; right; left|by right; right; right].
  right. left. by exists b, s1, s2.
Qed.

(** Heights never drop.  No input takes a running machine to an earlier
    height, and one that adds a block to its store takes it to a later one; the
    chain behind the agent is assumed to stay below 2^62 blocks. *)
Theorem heights_never_drop s i s' : reach config s -> calm i s -> handle config i s = Ret (tt, s') -> heightOf s' < 2 ^ 62 ->
  ht s <= ht s' /\
  forall n meta, BlockStore.blocks (ConsensusState.blockStore s') !! n = Some meta ->
    BlockStore.blocks (ConsensusState.blockStore s) !! n = Some meta \/ ht s < ht s'.
Proof.
  intros HR Hc Hr Hlt. destruct (reach_inv config s HR) as [v HI]. destruct (taken_same i s) as (_ & _ & T1 & _ & _ & _ & _ & T2 & _).
  destruct (handle_moved s v i s' HI Hc Hr) as [[H|b s1 s2 H1 H2 H3]|[([ti ->] & s1 & v1 & _ & H1 & _ & _ & _ & H2 & H3)|(_ & s1 & v1 & _ & H1 & _ & _ & _ & H2 & H3)]].
  - apply moves_tall in H as (A & _ & ->). split; [lia|]. rewrite T2. by left.
  - apply moves_tall in H1 as (A1 & _), H3 as (A3 & B3 & _). pose proof (co_height _ _ _ H2). split; [lia|]. intros n meta _. right. lia.
  - apply moves_tall in H3 as (A3 & B3 & _). split; [lia|]. intros n meta _. right. lia.
  - apply moves_tall in H3 as (A3 & B3 & ->). split; [lia|]. rewrite H1, T2. by left.
Qed.

End Properties.

(** ** A run *)

Definition demoConfig : Config.t :=
  Config.mk (fun r => 3000 + r) (fun r => 1000 + r) (fun r => 1000 + r) (fun t => t + 1000) (fun _ => 30) false true
    (fun _ => false) (fun _ => 1).

Definition demoAgent : StateAgentImpl.t :=
  StateAgentImpl.NewStateAgent (0%N, 100) "chain" (ValidatorSet.mk demoLib [demoVal Byte.x07 10 0] None 0) 1 1.

Section Feed.
Context {L : Lib} {HL : LibLaws L} {E : Env} {HE : EnvLaws E}.
Variable (config : Config.t).

(** A list of inputs, one after the other. *)
Fixpoint feed (l : list input) : M unit :=
  match l with [] => mret tt | i :: l' => handle config i;; feed l' end.

Definition calm_msgb (m : ConsensusMessage) : bool :=
  match m with
  | VoteMessage (Some vote) => (0 <=? Vote.Round vote) && (Vote.Round vote <? 2 ^ 62)
  | ValidatorUpdateMessage _ _ _ => false
  | _ => true
  end.

Definition calmb (i : input) (s : ConsensusState.t) : bool :=
  (rd s <? 2 ^ 62) &&
  match i with
  | IPeer mi => calm_msgb (msgInfo.Msg mi)
  | IInternal n => match ConsensusState.internalMsgQueue s !! n with Some mi => calm_msgb (msgInfo.Msg mi) | None => true end
  | ITimeout ti => (0 <=? timeoutInfo.Round ti) && (negb (timeoutInfo.Height ti =? ht s) || (timeoutInfo.Round ti <=? rd s))
  | _ => true
  end.

Fixpoint all_calm (l : list input) (s : ConsensusState.t) : bool :=
  match l with
  | [] => true
  | i :: l' => calmb i s && match handle config i s with Ret (_, s') => all_calm l' s' | Panic _ => true end
  end.

Lemma calm_msgb_spec m : calm_msgb m = true -> calm_msg m.
Proof. destruct m as [|?? ?|[vote|]|]; try done. cbn. lia. Qed.

Lemma calmb_spec i s : calmb i s = true -> calm i s.
Proof.
  unfold calmb. rewrite andb_true_iff. intros [H1 H2]. split; [by apply Z.ltb_lt|]. destruct i as [mi|n|ti| |]; [| | |done|done].
  - by apply calm_msgb_spec.
  - intros mi Hm. rewrite Hm in H2. by apply calm_msgb_spec.
  - rewrite andb_true_iff, orb_true_iff, negb_true_iff in H2. split; [lia|]. intros Hh. destruct H2 as [_ [H2|H2]]; lia.
Qed.

Lemma feed_reach l s s' : reach config s -> all_calm l s = true -> feed l s = Ret (tt, s') -> reach config s'.
Proof.
  revert s. induction l as [|i l IH]; intros s HR Hc Hf; cbn in Hc, Hf.
  - by injection Hf as <-.
  - apply andb_true_iff in Hc as [Hi Hc]. unfold mbind, ST_bind in Hf. destruct (handle config i s) as [[[] s1]|] eqn:Eh; [|done]. cbn [obind] in Hf.
    apply (IH s1); [|done|done]. eapply reach_handle; [exact HR|by apply calmb_spec|exact Eh].
Qed.

(** A machine that was made, set up and started. *)
Definition setup (pv : privValidator.t) (h : HealthMgr.t) (c : CommitteeInfo.t) : M unit :=
  SetPrivValidator pv;; SetHealthMgr h;; SetCommitteeInfo c;; OnStart config.

Definition run (state : StateAgentImpl.t) (store : BlockStore.t) pv h c (l : list input) : outcome ConsensusState.t :=
  let! s := NewConsensusState config state store in
  let! (_, s) := setup pv h c s in
  if negb (all_calm l s) then Panic "not calm"
  else let! (_, s) := feed l s in Ret s.

Lemma run_reach state store pv h c l s : quorate (StateAgentImpl.Validators state) -> store_ok (StateAgentImpl.ChainID state) store ->
  run state store pv h c l = Ret s -> reach config s.
Proof.
  intros Hq Hs. unfold run. destruct (NewConsensusState config state store) as [s0|] eqn:E0; [|done]. cbn [obind].
  destruct (setup pv h c s0) as [[[] s1]|] eqn:E1; [|done]. cbn [obind].
  destruct (all_calm l s1) eqn:Ec; [|done]. cbn [negb]. destruct (feed l s1) as [[[] s2]|] eqn:E2; [|done]. cbn [obind]. intros [= <-].
  eapply feed_reach; [|exact Ec|exact E2]. unfold setup, mbind, ST_bind in E1. cbn in E1.
  eapply reach_start; [|exact E1]. eapply reach_committee; [|done]. eapply reach_health; [|done]. eapply reach_priv; [|done].
  by eapply reach_new.
Qed.
End Feed.

(** The machine of a lone validator after the start of the first height and [n]
    of its own messages. *)
Definition demoRun (n : nat) : outcome ConsensusState.t :=
  run demoConfig demoAgent BlockStore.NewBlockStore demoPv (HealthMgr.NewHealthMgr 1) (CommitteeInfo.mk 0 [] [])
    (ITimeout (timeoutInfo.mk 0 1 0 RoundStepNewHeight 1) :: repeat (IInternal 0) n).

Definition demoState (n : nat) : ConsensusState.t :=
  match demoRun n with Ret s => s | Panic _ => zeroState demoConfig demoAgent BlockStore.NewBlockStore end.

Lemma demoVals_quorate : quorate (StateAgentImpl.Validators demoAgent).
Proof.
  split_and!; [|vm_compute; congruence|by left|vm_compute; congruence]. cbn. intros v Hv.
  apply elem_of_cons in Hv as [->|Hv]; [done|by apply elem_of_nil in Hv].
Qed.

Lemma demo_reach n : match demoRun n with Ret _ => true | Panic _ => false end = true -> reach demoConfig (demoState n).
Proof.
  unfold demoState. destruct (demoRun n) as [s|] eqn:Er; [|done]. intros _.
  eapply run_reach; [| |exact Er]; [apply demoVals_quorate|done].
Qed.

(** The lone validator commits the first block and starts the second height. *)
Lemma demo_commits : ht (demoState 4) = 2 /\ BlockStore.MaxBlockHeight (ConsensusState.blockStore (demoState 4)) = 1.
Proof. split; vm_compute; reflexivity. Qed.

(** The state after one more input. *)
Definition demoNext (i : input) (s : ConsensusState.t) : ConsensusState.t :=
  match handle demoConfig i s with Ret (_, s') => s' | Panic _ => s end.

Definition ran (i : input) (s : ConsensusState.t) : bool :=
  match handle demoConfig i s with Ret _ => true | Panic _ => false end.

Lemma demoNext_spec i s : ran i s = true -> handle demoConfig i s = Ret (tt, demoNext i s).
Proof. unfold ran, demoNext. by destruct (handle demoConfig i s) as [[[] s']|]. Qed.


Lemma locks_have_polka_witness : exists v vs bid,
  vts (demoState 3) = Some v /\ HeightVoteSet.height v = ht (demoState 3) /\
  HeightVoteSet.Prevotes v (lockRound (demoState 3)) = Some vs /\ VoteSet.maj23 vs = Some bid /\
  EqualHashes [Byte.x01] (BlockID.Hash bid) = true /\ 0 <= lockRound (demoState 3) <= rd (demoState 3) /\
  (lockRound (demoState 3) = rd (demoState 3) -> RoundStepPrecommit <= stp (demoState 3)).
Proof.
  apply (locks_have_polka demoConfig (demoState 3) Byte.x01).
  - apply demo_reach. vm_compute. reflexivity.
  - vm_compute. reflexivity.
Defined.

(** The timeout of the precommit step of the first round. *)
Definition demoTimeout : input := ITimeout (timeoutInfo.mk 0 1 0 RoundStepPrecommitWait 1).

Lemma lock_rule_witness : lockBlock (demoState 3) = Some Byte.x01 /\
  exists v' l, vts (demoNext demoTimeout (demoState 3)) = Some v' /\
    ConsensusState.internalMsgQueue (demoNext demoTimeout (demoState 3))
      = ConsensusState.internalMsgQueue (taken demoTimeout (demoState 3)) ++ l /\
    (lockBlock (demoNext demoTimeout (demoState 3)) = Some Byte.x01 /\
       lockRound (demoState 3) <= lockRound (demoNext demoTimeout (demoState 3)) \/
     polka_after v' (lockRound (demoState 3)) [Byte.x01] (rd (demoNext demoTimeout (demoState 3)))) /\
    forall mi vote, mi ∈ l -> msgInfo.Msg mi = VoteMessage (Some vote) -> Vote.Type_ vote = VoteTypePrevote ->
      BlockID.Hash (Vote.BlockID vote) = [Byte.x01] \/
      polka_after v' (lockRound (demoState 3)) [Byte.x01] (rd (demoNext demoTimeout (demoState 3))) \/
      other_commit v' [Byte.x01].
Proof.
  split; [vm_compute; reflexivity|].
  apply (lock_rule demoConfig (demoState 3) demoTimeout (demoNext demoTimeout (demoState 3)) Byte.x01).
  - apply demo_reach. vm_compute. reflexivity.
  - apply calmb_spec. vm_compute. reflexivity.
  - apply demoNext_spec. vm_compute. reflexivity.
  - exact (fun H => H).
  - vm_compute. reflexivity.
  - vm_compute. reflexivity.
  - vm_compute. reflexivity.
Defined.


Lemma handle_follows_protocol_witness :
  let i := IInternal 0 in let s := demoState 3 in let s' := demoNext i s in
  moves (delivers i s) (taken i s) s' \/
  (exists b s1 s2, moves (delivers i s) (taken i s) s1 /\ commits b s1 s2 /\ moves (delivers i s) s2 s') \/
  (exists ti, i = ITask ti) /\ restarted (delivers i s) (ht s + 1) s s' \/
  restarts i s /\ restarted (delivers i s) (ht s) (taken i s) s'.
Proof.
  apply (handle_follows_protocol demoConfig (demoState 3) (IInternal 0) (demoNext (IInternal 0) (demoState 3))).
  - apply demo_reach. vm_compute. reflexivity.
  - apply calmb_spec. vm_compute. reflexivity.
  - apply demoNext_spec. vm_compute. reflexivity.
Defined.

Lemma heights_never_drop_witness : ht (demoState 3) <= ht (demoNext (IInternal 0) (demoState 3)).
Proof.
  apply (heights_never_drop demoConfig (demoState 3) (IInternal 0) (demoNext (IInternal 0) (demoState 3))).
  - apply demo_reach. vm_compute. reflexivity.
  - apply calmb_spec. vm_compute. reflexivity.
  - apply demoNext_spec. vm_compute. reflexivity.
  - vm_compute. reflexivity.
Defined.

(** The same committee again. *)
Definition demoUpdate : msgInfo.t :=
  msgInfo.mk demoLib (ValidatorUpdateMessage (StateAgentImpl.Validators demoAgent) 1 10) "".

