(* ===== verification/Agreement.v ===== *)
(** * Agreement

    A net is a number of machines that follow [state.go] at one height, each with
    its own signing key, among validators of which less than a third of the power
    may do anything.  The machines take inputs in any order.  The log is the list
    of the votes that the machines cast for the height, in the order of time.

    The first part is about logs alone: if every vote in a log is justified by the
    votes before it ([lawful]), then all decisions in the log are for one block.
    The second part shows that the steps of the machines keep the log lawful, from
    what [ConsensusSafety] says of a single machine, and concludes that the blocks
    the machines store while they leave the height have the same hash.

    What is assumed of a run: a vote in the name of one of the machines that passes
    the check of its signature was cast by that machine with the same content
    ([authentic]; the content includes [Result], which the signature does not
    cover), and no machine is restarted by a committee change during the height. *)

From stdpp Require Import sorting relations.
From S2P Require Import Prelude Effects BitArray Types Validator VoteSet HeightVoteSet PrivValidator PartSet Health StateAgent RoundState Consensus ConsensusSafety.
Import Consensus.

(** ** Logs of votes *)

Section Logs.
Context {L : Lib} (vals : ValidatorSet.t) (honest : list bytes).
Implicit Types (l pre post : list Vote.t) (w : Vote.t) (bid : BlockID.t).

(** The validators that may do anything. *)
Definition faulty (i : nat) : bool :=
  match ValidatorSet.Validators vals !! i with Some v => bool_decide (Validator.Address v ∉ honest) | None => false end.

(** What a vote says, without its time and signature. *)
Definition essence w : Z * Z * Z * BlockID.t * bytes * Z := (ballot w, Vote.Result w).

(** More than two thirds of the power, in which the honest validators cast a vote
    of type [t] in round [r] that counts for [bid]. *)
Definition quorum l (t r : Z) bid : Prop :=
  exists p, 2 * powers (ValidatorSet.Validators vals) < 3 * weight vals p /\
    forall i v, p i = true -> ValidatorSet.Validators vals !! i = Some v -> Validator.Address v ∈ honest ->
      exists w, w ∈ l /\ Vote.ValidatorAddress w = Validator.Address v /\ Vote.Type_ w = t /\ Vote.Round w = r /\
        Vote.BlockID w = bid /\ Vote.Result w = VoteAgree.

(** A reason in the log not to prevote [hash] after round [r]. *)
Definition excused l (r : Z) (hash : bytes) : Prop :=
  (exists r' bid, r < r' /\ quorum l VoteTypePrevote r' bid /\ BlockID.Hash bid <> hash) \/
  (exists r' bid, quorum l VoteTypePrecommit r' bid /\ BlockID.Hash bid <> [] /\ BlockID.Hash bid <> hash).

(** The vote [w] may follow the votes [pre]. *)
Record justified pre w : Prop := {
  ju_order : forall w0, w0 ∈ pre -> Vote.ValidatorAddress w0 = Vote.ValidatorAddress w -> after (Vote.Round w0) (voteStep w0) w;
  ju_polka : commits_to w -> quorum pre VoteTypePrevote (Vote.Round w) (Vote.BlockID w);
  ju_lock : Vote.Type_ w = VoteTypePrevote -> forall w0, w0 ∈ pre -> Vote.ValidatorAddress w0 = Vote.ValidatorAddress w ->
    commits_to w0 -> BlockID.Hash (Vote.BlockID w) = BlockID.Hash (Vote.BlockID w0) \/
      excused pre (Vote.Round w0) (BlockID.Hash (Vote.BlockID w0))
}.

Definition lawful l : Prop := forall pre w post, l = pre ++ w :: post -> justified pre w.

(** A block hash with the precommits of two thirds. *)
Definition decision l (hash : bytes) : Prop :=
  exists r bid, quorum l VoteTypePrecommit r bid /\ BlockID.Hash bid = hash /\ hash <> [].

Lemma quorum_mono l l' t r bid : l ⊆ l' -> quorum l t r bid -> quorum l' t r bid.
Proof.
  intros Hl (p & Hp & H). exists p. split; [done|]. intros i v Hi Hv Ha. destruct (H i v Hi Hv Ha) as (w & Hw & H').
  exists w. split; [by apply Hl|done].
Qed.

Lemma excused_mono l l' r hash : l ⊆ l' -> excused l r hash -> excused l' r hash.
Proof.
  intros Hl [(r' & bid & H1 & H2 & H3)|(r' & bid & H1 & H2)]; [left|right]; exists r', bid.
  - split_and!; [done|by eapply quorum_mono|done].
  - split; [by eapply quorum_mono|done].
Qed.

Lemma decision_mono l l' hash : l ⊆ l' -> decision l hash -> decision l' hash.
Proof. intros Hl (r & bid & Hq & Hh). exists r, bid. split; [by eapply quorum_mono|done]. Qed.

Lemma lawful_app l1 l2 : lawful l1 -> (forall pre w post, l2 = pre ++ w :: post -> justified (l1 ++ pre) w) -> lawful (l1 ++ l2).
Proof.
  intros H1 H2 pre w post He. apply app_eq_app in He as (k & [[-> He]|[-> He]]).
  - destruct k as [|w' k]; cbn in He.
    + specialize (H2 [] w post (eq_sym He)). by rewrite !app_nil_r in H2.
    + injection He as -> ->. by eapply H1.
  - by eapply H2.
Qed.

Lemma lawful_prefix pre post : lawful (pre ++ post) -> lawful pre.
Proof. intros H p w q ->. apply (H p w (q ++ post)). by rewrite <- app_assoc. Qed.

Hypothesis (Hq : quorate vals) (Hf : 3 * weight vals faulty < powers (ValidatorSet.Validators vals)).

(** Two sets of two thirds share an honest validator. *)
Lemma honest_overlap p q : 2 * powers (ValidatorSet.Validators vals) < 3 * weight vals p ->
  2 * powers (ValidatorSet.Validators vals) < 3 * weight vals q ->
  exists i v, p i = true /\ q i = true /\ ValidatorSet.Validators vals !! i = Some v /\ Validator.Address v ∈ honest.
Proof.
  intros Hp Hq'. pose proof (weight_overlap vals p q Hq Hp Hq') as Ho.
  destruct (decide (Exists (fun i => p i && q i && negb (faulty i) = true) (seq 0 (length (ValidatorSet.Validators vals))))) as [He|Hn].
  - apply Exists_exists in He as (i & Hi%elem_of_seq & Ht). rewrite !andb_true_iff, negb_true_iff in Ht. destruct Ht as [[H1 H2] H3].
    destruct (lookup_lt_is_Some_2 (ValidatorSet.Validators vals) i) as [v Hv]; [lia|]. exists i, v. split_and!; try done.
    unfold faulty in H3. rewrite Hv in H3. apply bool_decide_eq_false in H3. by apply dec_stable.
  - exfalso. assert (weight vals (fun i => p i && q i) <= weight vals faulty) as Hw; [|lia].
    rewrite (weight_ext vals (fun i => p i && q i) (fun i => p i && q i && faulty i)).
    + apply weight_mono; [done|]. intros i. rewrite andb_true_iff. by intros [_ ?].
    + intros i Hi. destruct (p i && q i) eqn:E1; [|done]. destruct (faulty i) eqn:E2; [done|]. exfalso. apply Hn, Exists_exists.
      exists i. split; [apply elem_of_seq; lia|]. by rewrite E1, E2.
Qed.

Lemma quorum_overlap l1 l2 t1 t2 r1 r2 b1 b2 : quorum l1 t1 r1 b1 -> quorum l2 t2 r2 b2 ->
  exists w1 w2, w1 ∈ l1 /\ w2 ∈ l2 /\ Vote.ValidatorAddress w1 = Vote.ValidatorAddress w2 /\
    (Vote.Type_ w1 = t1 /\ Vote.Round w1 = r1 /\ Vote.BlockID w1 = b1 /\ Vote.Result w1 = VoteAgree) /\
    (Vote.Type_ w2 = t2 /\ Vote.Round w2 = r2 /\ Vote.BlockID w2 = b2 /\ Vote.Result w2 = VoteAgree).
Proof.
  intros (p & Hp & H1) (q & Hq' & H2). destruct (honest_overlap p q Hp Hq') as (i & v & Hi & Hj & Hv & Ha).
  destruct (H1 i v Hi Hv Ha) as (w1 & ? & ? & ?). destruct (H2 i v Hj Hv Ha) as (w2 & ? & ? & ?).
  exists w1, w2. split_and!; try done; try congruence; naive_solver.
Qed.

(** The votes of a validator are in the order of their steps. *)
Lemma lawful_before l pre w2 post w1 : lawful l -> l = pre ++ w2 :: post -> w1 ∈ l ->
  Vote.ValidatorAddress w1 = Vote.ValidatorAddress w2 -> after (Vote.Round w1) (voteStep w1) w2 -> w1 ∈ pre.
Proof.
  intros Hl -> Hin Ha Hk. apply elem_of_app in Hin as [?|Hin]; [done|exfalso].
  apply elem_of_cons in Hin as [->|Hin]; [unfold after in Hk; lia|].
  apply list_elem_of_split in Hin as (p1 & p2 & ->).
  destruct (Hl (pre ++ w2 :: p1) w1 p2) as [Ho _ _]; [by rewrite <- app_assoc|].
  specialize (Ho w2 ltac:(set_solver) (eq_sym Ha)). unfold after in *. lia.
Qed.

(** A validator casts one vote per step. *)
Lemma lawful_once l w1 w2 : lawful l -> w1 ∈ l -> w2 ∈ l -> Vote.ValidatorAddress w1 = Vote.ValidatorAddress w2 ->
  Vote.Round w1 = Vote.Round w2 -> Vote.Type_ w1 = Vote.Type_ w2 -> w1 = w2.
Proof.
  intros Hl H1 H2 Ha Hr Ht. assert (voteStep w1 = voteStep w2) as Hs by (unfold voteStep; by rewrite Ht).
  apply list_elem_of_split in H2 as (pre & post & El). rewrite El in H1. apply elem_of_app in H1 as [H1|[->|H1]%elem_of_cons]; [exfalso|done|exfalso].
  - destruct (Hl pre w2 post El) as [Ho _ _]. specialize (Ho w1 H1 Ha). unfold after in Ho. lia.
  - apply list_elem_of_split in H1 as (p1 & p2 & ->). destruct (Hl (pre ++ w2 :: p1) w1 p2) as [Ho _ _]; [by rewrite <- app_assoc|].
    specialize (Ho w2 ltac:(set_solver) (eq_sym Ha)). unfold after in Ho. lia.
Qed.

(** No vote against a decision by a validator that took part in it. *)
Lemma decision_respected l : lawful l -> forall pre w post, l = pre ++ w :: post -> Vote.Type_ w = VoteTypePrevote ->
  forall r bid w0, quorum l VoteTypePrecommit r bid -> BlockID.Hash bid <> [] -> w0 ∈ pre ->
    Vote.ValidatorAddress w0 = Vote.ValidatorAddress w -> Vote.Type_ w0 = VoteTypePrecommit -> Vote.Round w0 = r ->
    Vote.BlockID w0 = bid -> Vote.Result w0 = VoteAgree -> BlockID.Hash (Vote.BlockID w) = BlockID.Hash bid.
Proof.
  intros Hl pre. induction pre as [pre IH] using (well_founded_induction (well_founded_ltof _ length)).
  intros w post El Ht r bid w0 Hd Hn Hin Ha H1 H2 H3 H4.
  assert (pre ⊆ l) as Hpre by (rewrite El; set_solver). destruct (Hl pre w post El) as [_ _ Hlock].
  (* an earlier prevote of round [r'] against a quorum of a round before it *)
  assert (forall q r1 b1 r' b', quorum l VoteTypePrecommit r1 b1 -> BlockID.Hash b1 <> [] -> r1 < r' ->
    (exists post', pre = q ++ post') -> quorum q VoteTypePrevote r' b' -> BlockID.Hash b' = BlockID.Hash b1) as Hearlier.
  { intros q r1 b1 r' b' Hd1 Hn1 Hr [post' ->] Hp. destruct (quorum_overlap _ _ _ _ _ _ _ _ Hd1 Hp) as (w1 & w2 & Hw1 & Hw2 & Ha' & (A1 & A2 & A3 & A4) & (B1 & B2 & B3 & B4)).
    apply list_elem_of_split in Hw2 as (p1 & p2 & ->).
    assert (l = p1 ++ w2 :: (p2 ++ post' ++ w :: post)) as El2 by (rewrite El; by rewrite <- !app_assoc).
    rewrite <- B3. eapply (IH p1); [|exact El2|exact B1|exact Hd1|done| |exact Ha'|done|done|done|done].
    - unfold ltof. rewrite !length_app. cbn. lia.
    - eapply (lawful_before l p1 w2); [done|exact El2|done|done|]. unfold after. lia. }
  destruct (Hlock Ht w0 Hin Ha) as [He|[(r' & b' & Hr & Hp & Hne)|(c & b' & Hc & Hn' & Hne)]]; [by split_and!; rewrite ?H3|by rewrite He, H3|exfalso..].
  - rewrite H2, H3 in *. apply Hne, (Hearlier pre r bid r' b'); [done|done|lia|exists []; by rewrite app_nil_r|done].
  - rewrite H3 in *. assert (quorum l VoteTypePrecommit c b') as Hcl by (by eapply quorum_mono).
    destruct (Z.lt_trichotomy c r) as [Hlt|[->|Hgt]].
    + apply list_elem_of_split in Hin as (p1 & p2 & ->).
      destruct (Hl p1 w0 (p2 ++ w :: post)) as [_ Hj _]; [rewrite El; by rewrite <- app_assoc|].
      apply Hne. symmetry. apply (Hearlier p1 c b' r bid); [done|done|done|by exists (w0 :: p2)|].
      rewrite <- H2, <- H3. apply Hj. by split_and!; rewrite ?H3.
    + destruct (quorum_overlap _ _ _ _ _ _ _ _ Hd Hcl) as (w1 & w2 & Hw1 & Hw2 & Ha' & (A1 & A2 & A3 & A4) & (B1 & B2 & B3 & B4)).
      assert (w1 = w2) as -> by (apply (lawful_once l); (done || congruence)). congruence.
    + destruct (quorum_overlap _ _ _ _ _ _ _ _ Hc Hc) as (w1 & _ & Hw1 & _ & _ & (A1 & A2 & A3 & A4) & _).
      apply list_elem_of_split in Hw1 as (p1 & p2 & ->).
      destruct (Hl p1 w1 (p2 ++ w :: post)) as [_ Hj _]; [rewrite El; by rewrite <- app_assoc|].
      apply Hne, (Hearlier p1 r bid c b'); [done|done|lia|by exists (w1 :: p2)|]. rewrite <- A2, <- A3. apply Hj. by split_and!; rewrite ?A3.
Qed.

(** All decisions of a lawful log are for one block. *)
Lemma log_agreement l h1 h2 : lawful l -> decision l h1 -> decision l h2 -> h1 = h2.
Proof.
  intros Hl. enough (forall r1 b1 r2 b2, quorum l VoteTypePrecommit r1 b1 -> quorum l VoteTypePrecommit r2 b2 -> BlockID.Hash b1 <> [] ->
    BlockID.Hash b2 <> [] -> r1 <= r2 -> BlockID.Hash b1 = BlockID.Hash b2) as H.
  { intros (r1 & b1 & Q1 & <- & N1) (r2 & b2 & Q2 & <- & N2). destruct (Z.le_ge_cases r1 r2); [by apply (H r1 b1 r2 b2)|].
    symmetry. by apply (H r2 b2 r1 b1). }
  intros r1 b1 r2 b2 Q1 Q2 N1 N2 [Hlt| ->]%Z.lt_eq_cases.
  - destruct (quorum_overlap _ _ _ _ _ _ _ _ Q2 Q2) as (w & _ & Hw & _ & _ & (A1 & A2 & A3 & A4) & _).
    apply list_elem_of_split in Hw as (pre & post & El). destruct (Hl pre w post El) as [_ Hj _].
    assert (quorum pre VoteTypePrevote r2 b2) as Hp by (rewrite <- A2, <- A3; apply Hj; by split_and!; rewrite ?A3).
    destruct (quorum_overlap _ _ _ _ _ _ _ _ Q1 Hp) as (w1 & w2 & Hw1 & Hw2 & Ha & (B1 & B2 & B3 & B4) & (C1 & C2 & C3 & C4)).
    apply list_elem_of_split in Hw2 as (p1 & p2 & ->). assert (l = p1 ++ w2 :: (p2 ++ w :: post)) as El2 by (rewrite El; by rewrite <- app_assoc).
    rewrite <- C3. symmetry. eapply (decision_respected l Hl p1 w2); [exact El2|done|exact Q1|done| |exact Ha|done|done|done|done].
    eapply (lawful_before l p1 w2); [done|exact El2|done|done|]. unfold after. lia.
  - destruct (quorum_overlap _ _ _ _ _ _ _ _ Q1 Q2) as (w1 & w2 & Hw1 & Hw2 & Ha & (B1 & B2 & B3 & B4) & (C1 & C2 & C3 & C4)).
    assert (w1 = w2) as -> by (apply (lawful_once l); (done || congruence)). congruence.
Qed.
End Logs.

(** ** Nets of machines *)

Section Net.
Context {L : Lib} {HL : LibLaws L} {E : Env} {HE : EnvLaws E}.
Variables (cfg : bytes -> Config.t) (H : Z) (chain : string) (vals : ValidatorSet.t).
Implicit Types (s : ConsensusState.t) (v : HeightVoteSet.t) (w : Vote.t) (i : input).

(** The machines by the address they sign for, the votes they cast for the height,
    and the blocks they stored while they were at the height. *)
Record net := mkNet {
  machines : list (bytes * ConsensusState.t);
  log : list Vote.t;
  adopted : bytes -> Block -> Prop
}.

Definition honest (n : net) : list bytes := (machines n).*1.

(** The votes for the height that were queued on the way from [s] to [s']. *)
Definition castVotes i s s' : list Vote.t :=
  filter (fun w => Vote.Height w = H)
    (votesOf (drop (length (ConsensusState.internalMsgQueue (taken i s))) (ConsensusState.internalMsgQueue s'))).

(** The signature of the vote is the one of the validator it names. *)
Definition verified w : Prop :=
  exists x, x ∈ ValidatorSet.Validators vals /\ Validator.Address x = Vote.ValidatorAddress w /\
    VoteVerify chain (Validator.PubKey x) w = Ret None.

(** Peers may send anything, but a vote for the height in the name of one of the
    machines that verifies was cast by that machine. *)
Definition authentic (n : net) i : Prop :=
  match i with
  | IPeer mi => forall w, msgInfo.Msg mi = VoteMessage (Some w) -> Vote.Height w = H -> Vote.ValidatorAddress w ∈ honest n ->
      verified w -> exists w', w' ∈ log n /\ essence w' = essence w
  | _ => True
  end.

(** A block in the store of [s'] that was not in the store of [s]. *)
Definition newBlock s s' (b : Block) : Prop :=
  exists n meta, BlockStore.blocks (ConsensusState.blockStore s') !! n = Some meta /\ BlockMeta.Block_ meta = b /\
    BlockStore.blocks (ConsensusState.blockStore s) !! n <> Some meta.

(** One machine takes an input. *)
Inductive netStep : net -> net -> Prop :=
| netStep_handle n k a s i s' : machines n !! k = Some (a, s) -> calm i s -> authentic n i ->
    (ht s = H -> ~ restarts i s) -> handle (cfg a) i s = Ret (tt, s') -> heightOf s' < 2 ^ 62 ->
    netStep n (mkNet (<[k := (a, s')]> (machines n)) (log n ++ castVotes i s s')
      (fun a' b => adopted n a' b \/ a' = a /\ ht s = H /\ newBlock s s' b)).

(** A machine at the start of the height: no lock, no votes, none queued. *)
Definition ready (a : bytes) s : Prop :=
  exists v, Inv s v /\ ht s = H /\ addrOf s = Some a /\ chainOf s = chain /\ lockBlock s = None /\
    ValidatorSet.Validators (HeightVoteSet.valSet v) = ValidatorSet.Validators vals /\ (forall w, ~ kept v w) /\
    forall w, w ∈ votesOf (ConsensusState.internalMsgQueue s) -> Vote.Height w <> H.

Definition netStart (n : net) : Prop :=
  NoDup (honest n) /\ Forall (fun m => ready m.1 m.2) (machines n) /\ log n = [] /\ forall a b, ~ adopted n a b.

(** What a machine at the height knows is in the log, and what it cast binds it. *)
Record atHeight (n : net) (a : bytes) s v : Prop := {
  ah_vals : ValidatorSet.Validators (HeightVoteSet.valSet v) = ValidatorSet.Validators vals;
  ah_chain : chainOf s = chain;
  ah_cast : forall w, w ∈ log n -> Vote.ValidatorAddress w = a -> upto (rd s) (stp s) w /\ vow s v w;
  ah_kept : forall w, kept v w -> Vote.ValidatorAddress w ∈ honest n -> exists w', w' ∈ log n /\ essence w' = essence w
}.

Definition machineOk (n : net) (a : bytes) s : Prop :=
  exists v, Inv s v /\ addrOf s = Some a /\ H <= ht s /\ (ht s = H -> atHeight n a s v) /\
    forall w, w ∈ votesOf (ConsensusState.internalMsgQueue s) -> Vote.Height w = H -> w ∈ log n.

Record netOk (n : net) : Prop := {
  no_machines : Forall (fun m => machineOk n m.1 m.2) (machines n);
  no_keys : NoDup (honest n);
  no_log : lawful vals (honest n) (log n);
  no_own : forall w, w ∈ log n -> Vote.ValidatorAddress w ∈ honest n /\ 0 <= Vote.Round w;
  no_adopted : forall a b, adopted n a b -> decision vals (honest n) (log n) (BlockHash b)
}.

Lemma netStart_ok n : netStart n -> netOk n.
Proof.
  intros (Hk & Hr & Hl & Ha). split; [|done| | |].
  - eapply Forall_impl; [exact Hr|]. intros [a s] (v & HI & Hh & Had & Hc & _ & Hv & Hn & Hq). exists v. split_and!; try done; [lia| |].
    + intros _. split; try done.
      * intros w Hw. rewrite Hl in Hw. by apply elem_of_nil in Hw.
      * intros w Hw. by destruct (Hn w).
    + intros w Hw Hw'. by destruct (Hq w Hw).
  - intros pre w post He. rewrite Hl in He. by destruct pre.
  - intros w Hw. rewrite Hl in Hw. by apply elem_of_nil in Hw.
  - intros a b Hab. by destruct (Ha a b).
Qed.

(** ** One step of a machine *)

(** A majority in the votes of a machine, whose honest votes are in [l]. *)
Lemma maj_quorum v hs l t r vs bid : hvs_wf v -> ValidatorSet.Validators (HeightVoteSet.valSet v) = ValidatorSet.Validators vals ->
  (forall w, kept v w -> Vote.ValidatorAddress w ∈ hs -> exists w', w' ∈ l /\ essence w' = essence w) ->
  HeightVoteSet.getVoteSet v r t = Some vs -> VoteSet.maj23 vs = Some bid -> quorum vals hs l t (u64 r) bid.
Proof.
  intros Hwf Hv Hk Hg Hm. destruct (getVoteSet_wf _ _ _ _ Hwf Hg) as [Hw Hf]. destruct (wf_maj _ Hw bid Hm) as (vbb & Hb & Hs & _).
  pose proof Hf as Hf'. unfold frame in Hf'. injection Hf' as _ _ _ _ Hvals. rewrite Hv in Hvals.
  destruct (wf_blocks _ Hw _ _ Hb) as [_ _ Hok Hkey Hsum _]. exists (agrees (blockVotes.votes vbb)). split.
  - unfold supermajority in Hs. rewrite Hsum, Hvals in Hs. by rewrite (weight_same vals (VoteSet.valSet vs)).
  - intros j x Hj Hx Ha. unfold agrees in Hj. destruct (blockVotes.votes vbb !! j) as [[w|]|] eqn:Ew; try done. apply Z.eqb_eq in Hj.
    pose proof (Hok j w Ew) as Hw'. rewrite Hf in Hw'. destruct Hw' as (_ & W2 & W3 & W4 & _ & x' & Hx' & W6 & _).
    rewrite Hv, Hx in Hx'. injection Hx' as <-. destruct (Hk w) as (w' & Hin & He).
    + exists r, t, vs. split; [done|]. by exists (key bid), vbb, j.
    + by rewrite W6.
    + unfold essence, ballot in He. injection He as E1 E2 E3 E4 E5 E6. pose proof (key_inj _ _ (Hkey j w Ew)) as Hb'. exists w'. split_and!; congruence.
Qed.

(** A counted vote is for the height and verifies. *)
Lemma kept_ok v w : hvs_wf v -> kept v w -> Vote.Height w = HeightVoteSet.height v /\
  exists x, x ∈ ValidatorSet.Validators (HeightVoteSet.valSet v) /\ Validator.Address x = Vote.ValidatorAddress w /\
    VoteVerify (HeightVoteSet.chainID v) (Validator.PubKey x) w = Ret None.
Proof.
  intros Hwf (r & t & vs & Hg & k & vbb & j & Hk & Hj). destruct (getVoteSet_wf _ _ _ _ Hwf Hg) as [Hw Hf].
  destruct (wf_blocks _ Hw _ _ Hk) as [_ _ Hok _ _ _]. pose proof (Hok j w Hj) as Hv. rewrite Hf in Hv.
  destruct Hv as (_ & H1 & _ & _ & _ & x & Hx & H2 & H3). split; [done|]. exists x. split_and!; [by eapply list_elem_of_lookup_2|done|done].
Qed.

(** What an input does: a transition within the height, in which votes [l1] are
    cast, and possibly the way to another height. *)
Record path i s s' s1 v1 (l1 l2 : list msgInfo.t) : Prop := {
  pa_inv : Inv s1 v1;
  pa_within : within (delivers i s) (taken i s) s1;
  pa_sends : sends (taken i s) s1 v1 (votesOf l1);
  pa_queue : ConsensusState.internalMsgQueue s' = ConsensusState.internalMsgQueue (taken i s) ++ l1 ++ l2;
  pa_next : exists v', Inv s' v';
  pa_addr : addrOf s' = addrOf s;
  pa_end : s1 = s' /\ l2 = [] /\ ConsensusState.blockStore s' = ConsensusState.blockStore s \/
    (ht s < ht s' \/ restarts i s /\ ht s <= ht s') /\ (forall w, w ∈ votesOf l2 -> Vote.Height w = ht s') /\
    forall b, newBlock s s' b -> decided s1 v1 b
}.

Lemma moves_parts X s s' : moves X s s' -> exists v' l, Inv s' v' /\ within X s s' /\ sends s s' v' (votesOf l) /\
  ConsensusState.internalMsgQueue s' = ConsensusState.internalMsgQueue s ++ l.
Proof.
  intros [v' [HI W]]. destruct (within_votes X s s' W) as (v & l & V & Q & _ & F).
  assert (v = v') as -> by (pose proof (inv_votes _ _ HI); congruence). by exists v', l.
Qed.

Lemma sends_height s s' v' l w : sends s s' v' l -> w ∈ l -> Vote.Height w = ht s.
Proof. intros [F _ _] Hw. rewrite Forall_forall in F. by destruct (F w Hw). Qed.

Lemma taken_Inv i s v : Inv s v -> Inv (taken i s) v.
Proof. destruct i as [|k| | |]; cbn; try done. destruct (_ !! k); [|done]. by intros []. Qed.

(** A fresh height reached from [s], through [s1]. *)
Lemma restart_path X i s s' s1 v v2 : Inv s v -> moves X s1 s' -> Inv s1 v2 ->
  ConsensusState.internalMsgQueue s1 = ConsensusState.internalMsgQueue (taken i s) -> addrOf s1 = addrOf s ->
  ConsensusState.blockStore s1 = ConsensusState.blockStore s -> ht s < ht s1 \/ restarts i s /\ ht s <= ht s1 ->
  exists l2, path i s s' (taken i s) v [] l2.
Proof.
  intros HI M HI1 Hq Ha Hs Hh. destruct (moves_parts _ _ _ M) as (v' & l & HI' & W & F & Q). exists l. split.
  - by apply taken_Inv.
  - eapply within_refl. destruct (taken_same i s) as (_ & _ & _ & _ & _ & -> & _). apply HI.
  - apply sends_nil.
  - by rewrite Q, Hq.
  - by exists v'.
  - rewrite (identity_addr _ _ (wi_identity _ _ _ W)). done.
  - right. rewrite (wi_height _ _ _ W). split_and!; [done|intros w Hw; by eapply sends_height|].
    intros b (k & meta & Hk & _ & Hn). rewrite (wi_store _ _ _ W), Hs in Hk. done.
Qed.

Lemma handle_path config s v i s' : Inv s v -> calm i s -> handle config i s = Ret (tt, s') -> heightOf s' < 2 ^ 62 ->
  exists s1 v1 l1 l2, path i s s' s1 v1 l1 l2.
Proof.
  intros HI Hc Hr Hlt. destruct (taken_same i s) as (_ & _ & T3 & _ & _ & T6 & T7 & T8 & _).
  destruct (handle_moved config s v i s' HI Hc Hr) as [[M|b s1 s2 M1 C M2]|[([ti ->] & s1 & v1 & Hf & H1 & H2 & H3 & H4 & H5 & M)|(Hre & s1 & v1 & Hf & H1 & H2 & H3 & H4 & H5 & M)]].
  - destruct (moves_parts _ _ _ M) as (v' & l & HI' & W & F & Q). exists s', v', l, []. split; try done.
    + by rewrite app_nil_r.
    + by exists v'.
    + by rewrite (identity_addr _ _ (wi_identity _ _ _ W)).
    + left. split_and!; [done|done|]. by rewrite (wi_store _ _ _ W).
  - destruct (moves_parts _ _ _ M1) as (v1 & l1 & HI1 & W1 & F1 & Q1). destruct (moves_parts _ _ _ M2) as (v' & l2 & HI' & W2 & F2 & Q2).
    exists s1, v1, l1, l2. split; try done.
    + by rewrite Q2, (co_queue _ _ _ C), Q1, app_assoc.
    + by exists v'.
    + by rewrite (identity_addr _ _ (wi_identity _ _ _ W2)), (identity_addr _ _ (co_identity _ _ _ C)), (identity_addr _ _ (wi_identity _ _ _ W1)).
    + right. split_and!.
      * left. pose proof (wi_tall _ _ _ W2). pose proof (co_height _ _ _ C). rewrite (wi_height _ _ _ W2), <- T3, <- (wi_height _ _ _ W1). lia.
      * intros w Hw. rewrite (wi_height _ _ _ W2). by eapply sends_height.
      * intros b' (k & meta & Hk & <- & Hn). rewrite (wi_store _ _ _ W2) in Hk. destruct (co_store _ _ _ C _ _ Hk) as [Hk'| ->].
        -- rewrite (wi_store _ _ _ W1), T8 in Hk'. done.
        -- destruct (co_before _ _ _ C) as (v1' & HI1' & _ & Hd). by assert (v1' = v1) as -> by (pose proof (inv_votes _ _ HI1); pose proof (inv_votes _ _ HI1'); congruence).
  - pose proof (moves_tall _ _ _ M) as (A1 & A2 & _).
    destruct (restart_path _ (ITask ti) s s' s1 v v1 HI M (proj1 Hf) H2 H3 H1) as [l2 Hp]; [left; lia|]. by exists (taken (ITask ti) s), v, [], l2.
  - pose proof (moves_tall _ _ _ M) as (A1 & A2 & _).
    destruct (restart_path _ i s s' s1 v v1 HI M (proj1 Hf)) as [l2 Hp]; [done|congruence|congruence|right; split; [done|lia]|]. by exists (taken i s), v, [], l2.
Qed.

(** The votes a machine at the height knows after the input are in the log. *)
Lemma path_kept n a s v i s' s1 v1 l1 l2 : Inv s v -> ht s = H -> atHeight n a s v -> authentic n i ->
  (forall w, w ∈ votesOf (ConsensusState.internalMsgQueue s) -> Vote.Height w = H -> w ∈ log n) ->
  path i s s' s1 v1 l1 l2 ->
  ValidatorSet.Validators (HeightVoteSet.valSet v1) = ValidatorSet.Validators vals /\ chainOf s1 = chain /\
  forall w, kept v1 w -> Vote.ValidatorAddress w ∈ honest n -> exists w', w' ∈ log n /\ essence w' = essence w.
Proof.
  intros HI Hh [A1 A2 A3 A4] Hau Hqu [P1 P2 _ _ _ _ _]. destruct (taken_same i s) as (_ & _ & T3 & _ & _ & T6 & _ & _ & T9).
  pose proof P2 as [W1 _ (x & y & X1 & X2 & ((Y1 & Y2 & Y3) & _ & Hk) & _) W4 _ _].
  assert (x = v) as -> by (pose proof (inv_votes _ _ HI); congruence). assert (y = v1) as -> by (pose proof (inv_votes _ _ P1); congruence).
  assert (chainOf s1 = chain) as Hc by (rewrite <- A2; unfold identity in W4, T9; congruence).
  split_and!; [by rewrite Y3|done|]. intros w Hw Ha. destruct (Hk w Hw) as [Hd|Hold]; [|by apply A4].
  destruct (kept_ok v1 w (inv_wf _ _ P1) Hw) as [Hwh (z & Z1 & Z2 & Z3)].
  assert (Vote.Height w = H) as Hwh' by (rewrite Hwh, (inv_height _ _ P1), W1, T3; done).
  destruct i as [mi|k| | |]; try done.
  - apply (Hau w Hd Hwh' Ha). exists z. split_and!; [by rewrite <- A1, <- Y3|done|]. by rewrite <- Hc, <- (inv_chain _ _ P1).
  - destruct Hd as (mi & Hmi & Hm). exists w. split; [|done]. apply Hqu; [|done]. apply votesOf_elem. exists mi.
    split; [by eapply list_elem_of_lookup_2|done].
Qed.

Lemma excuse_excused v hs l r hash r1 : hvs_wf v -> ValidatorSet.Validators (HeightVoteSet.valSet v) = ValidatorSet.Validators vals ->
  (forall w, kept v w -> Vote.ValidatorAddress w ∈ hs -> exists w', w' ∈ l /\ essence w' = essence w) ->
  0 <= r -> r1 < max_i64 -> hash <> [] -> excuse v r hash r1 -> excused vals hs l r hash.
Proof.
  intros Hwf Hv Hk H0 Hm Hn [(r' & bid & Hr & (vs & Hg & Hb) & He)|(c & bid & (vs & Hg & Hb) & Hne & Hne')].
  - left. exists r', bid. split_and!; [lia| |].
    + rewrite <- (u64_id r') by (unfold in_u64, two64, max_i64 in *; lia). by eapply maj_quorum.
    + intros Heq. rewrite (proj2 (EqualHashes_spec _ _)) in He; [done|]. by split.
  - right. exists (u64 c), bid. split_and!; [by eapply maj_quorum|done|done].
Qed.

(** The votes cast at the height are justified by the log. *)
Lemma path_lawful n a s v i s' s1 v1 l1 l2 : netOk n -> Inv s v -> ht s = H -> addrOf s = Some a -> atHeight n a s v -> authentic n i ->
  (forall w, w ∈ votesOf (ConsensusState.internalMsgQueue s) -> Vote.Height w = H -> w ∈ log n) ->
  path i s s' s1 v1 l1 l2 -> lawful vals (honest n) (log n ++ votesOf l1) /\
  (forall w, w ∈ votesOf l1 -> Vote.ValidatorAddress w = a) /\
  forall w, w ∈ log n ++ votesOf l1 -> Vote.ValidatorAddress w = a -> upto (rd s1) (stp s1) w /\ vow s1 v1 w.
Proof.
  intros [_ _ Hlaw Hown _] HI Hh Had Hah Hau Hqu Hp. destruct (path_kept n a s v i s' s1 v1 l1 l2 HI Hh Hah Hau Hqu Hp) as (Hv & Hc & Hk).
  destruct Hp as [P1 P2 [F1 F2 F3] _ _ _ _]. destruct (taken_same i s) as (T1 & T2 & T3 & T4 & T5 & T6 & T7 & _).
  assert (vts (taken i s) = Some v) as V by (rewrite T6; apply HI). pose proof (inv_votes _ _ P1) as V1. pose proof (inv_round _ _ P1) as Hb.
  assert (forall w, w ∈ log n -> Vote.ValidatorAddress w = a -> upto (rd (taken i s)) (stp (taken i s)) w /\ vow (taken i s) v w) as Hcast.
  { intros w Hw Ha. destruct (ah_cast _ _ _ _ Hah w Hw Ha) as [H1 H2]. unfold vow, held in *. by rewrite T1, T2, T4, T5. }
  rewrite Forall_forall in F1, F3. assert (forall w, w ∈ votesOf l1 -> Vote.ValidatorAddress w = a) as Haddr.
  { intros w Hw. destruct (F1 w Hw) as (_ & Ha & _). rewrite T7, Had in Ha. congruence. }
  split_and!; [|done|].
  - apply lawful_app; [done|]. intros pre w post El. assert (w ∈ votesOf l1) as Hw by (rewrite El; set_solver).
    assert (forall w0, w0 ∈ log n ++ pre -> Vote.ValidatorAddress w0 = Vote.ValidatorAddress w -> follows (rd s1) v1 w0 w) as Hfol.
    { intros w0 [Hw0|Hw0]%elem_of_app Ha.
      - rewrite (Haddr w Hw) in Ha. destruct (Hcast w0 Hw0 Ha). by eapply (vow_follows (delivers i s) (taken i s) s1 v v1); auto.
      - rewrite El in F2. apply StronglySorted_app in F2 as (F2 & _). apply F2; [done|set_solver]. }
    destruct (F1 w Hw) as (_ & _ & Hafter & Hu & Hs). split.
    + intros w0 Hw0 Ha. by apply Hfol.
    + intros (Ht & Hn & _). destruct Hs as [[Ht' _]|[_ [?|(vs & Hg & Hm)]]]; [by rewrite Ht in Ht'|done|].
      assert (0 <= Vote.Round w < max_i64) as Hrw by (pose proof (inv_round _ _ (taken_Inv i s v HI)); unfold after, upto in *; lia).
      apply (quorum_mono vals (honest n) (log n)); [set_solver|]. rewrite <- (u64_id (Vote.Round w)) by (unfold in_u64, two64, max_i64 in *; lia).
      by eapply (maj_quorum v1); [apply P1|..].
    + intros Ht w0 Hw0 Ha Hc0. destruct (proj2 (Hfol w0 Hw0 Ha) Hc0 Ht) as [?|Hex]; [by left|right].
      apply (excused_mono vals (honest n) (log n)); [set_solver|]. apply (excuse_excused v1 _ _ _ _ (rd s1)); [apply P1|done|done| |apply Hb|apply Hc0|exact Hex].
      apply elem_of_app in Hw0 as [Hw0|Hw0]; [by apply Hown|].
      assert (w0 ∈ votesOf l1) as Hin by (rewrite El; set_solver). destruct (F1 w0 Hin) as (_ & _ & Hw0' & _).
      pose proof (inv_round _ _ (taken_Inv i s v HI)). unfold after in Hw0'. lia.
  - intros w [Hw|Hw]%elem_of_app Ha.
    + destruct (Hcast w Hw Ha) as [H1 H2]. pose proof (wi_round _ _ _ P2). split; [unfold upto in *; lia|].
      intros Hc0. by eapply (held_within (delivers i s) (taken i s) s1 v v1); auto.
    + split; [|by apply F3]. by destruct (F1 w Hw) as (_ & _ & _ & Hu & _).
Qed.

(** The votes of a path that are for the height. *)
Lemma path_cast s i s' s1 v1 l1 l2 : path i s s' s1 v1 l1 l2 -> H <= ht s -> (ht s = H -> ~ restarts i s) ->
  castVotes i s s' = if decide (ht s = H) then votesOf l1 else [].
Proof.
  intros [_ P2 P3 P4 _ _ P7] Hh Hre. unfold castVotes. rewrite P4, drop_app_length, votesOf_app, filter_app.
  destruct (taken_same i s) as (_ & _ & T3 & _).
  assert (forall w, w ∈ votesOf l1 -> Vote.Height w = ht s) as H1 by (intros w Hw; rewrite <- T3; by eapply sends_height).
  assert (filter (fun w => Vote.Height w = H) (votesOf l2) = []) as ->.
  { destruct P7 as [(_ & -> & _)|(Hn & H2 & _)]; [done|]. apply filter_none. intros w Hw. rewrite (H2 w Hw).
    destruct Hn as [Hn|[Hn ?]]; [lia|]. intros Heq. destruct (decide (ht s = H)) as [He|]; [by destruct (Hre He)|lia]. }
  rewrite app_nil_r. destruct (decide (ht s = H)) as [He|Hne].
  - apply filter_all. intros w Hw. by rewrite (H1 w Hw).
  - apply filter_none. intros w Hw. by rewrite (H1 w Hw).
Qed.

(** The other machines do not notice. *)
Lemma machineOk_other n n' a b s l : honest n' = honest n -> log n' = log n ++ l ->
  (forall w, w ∈ l -> Vote.ValidatorAddress w = a) -> b <> a -> machineOk n b s -> machineOk n' b s.
Proof.
  intros Hh Hl Ha Hne (v & HI & Had & Hht & Hah & Hqu). exists v. split_and!; try done.
  - intros He. destruct (Hah He) as [A1 A2 A3 A4]. split; [done|done| |].
    + rewrite Hl. intros w [Hw|Hw]%elem_of_app Hb; [by apply A3|]. rewrite (Ha w Hw) in Hb. by destruct Hne.
    + rewrite Hh, Hl. intros w Hw Hb. destruct (A4 w Hw Hb) as (w' & ? & ?). exists w'. split; [set_solver|done].
  - intros w Hw Hwh. rewrite Hl. apply elem_of_app. left. by apply Hqu.
Qed.

Lemma taken_queue i s : ConsensusState.internalMsgQueue (taken i s) ⊆ ConsensusState.internalMsgQueue s.
Proof.
  destruct i as [|k| | |]; cbn; try done. destruct (_ !! k); [|done]. cbn. intros x Hx.
  rewrite list_elem_of_lookup in *. destruct Hx as [j Hj]. rewrite list_lookup_delete in Hj. case_decide; eauto.
Qed.

(** The machine that took the input. *)
Lemma machineOk_self n n' a s v i s' s1 v1 l1 l2 : netOk n -> Inv s v -> addrOf s = Some a -> H <= ht s ->
  (ht s = H -> atHeight n a s v) -> authentic n i -> (ht s = H -> ~ restarts i s) ->
  (forall w, w ∈ votesOf (ConsensusState.internalMsgQueue s) -> Vote.Height w = H -> w ∈ log n) ->
  path i s s' s1 v1 l1 l2 -> honest n' = honest n -> log n' = log n ++ castVotes i s s' -> machineOk n' a s'.
Proof.
  intros Hn HI Had Hh Hah Hau Hre Hqu Hp Hho Hlo. rewrite (path_cast s i s' s1 v1 l1 l2 Hp Hh Hre) in Hlo.
  pose proof Hp as [P1 P2 P3 P4 [v' P5] P6 P7]. destruct (taken_same i s) as (_ & _ & T3 & _). pose proof (wi_height _ _ _ P2) as W1.
  assert (ht s <= ht s') as Hle by (destruct P7 as [(<- & _)|([?|[_ ?]] & _)]; lia).
  exists v'. split_and!; [done|congruence|lia| |].
  - intros He. assert (ht s = H) as Hsh by lia. destruct P7 as [(<- & _)|([?|[Hr _]] & _)]; [|lia|by destruct (Hre Hsh)].
    assert (v' = v1) as -> by (pose proof (inv_votes _ _ P1); pose proof (inv_votes _ _ P5); congruence).
    destruct (path_kept n a s v i s1 s1 v1 l1 l2 HI Hsh (Hah Hsh) Hau Hqu Hp) as (K1 & K2 & K3).
    destruct (path_lawful n a s v i s1 s1 v1 l1 l2 Hn HI Hsh Had (Hah Hsh) Hau Hqu Hp) as (_ & _ & K5).
    rewrite decide_True in Hlo by done. split; [done|done|by rewrite Hlo|].
    rewrite Hho, Hlo. intros w Hw Ha. destruct (K3 w Hw Ha) as (w' & ? & ?). exists w'. split; [set_solver|done].
  - intros w Hw Hwh. rewrite Hlo. rewrite P4, !votesOf_app in Hw. apply elem_of_app in Hw as [Hw|[Hw|Hw]%elem_of_app].
    + apply elem_of_app. left. apply Hqu; [|done]. apply votesOf_elem in Hw as (mi & Hmi & Hm). apply votesOf_elem. exists mi. split; [by apply taken_queue in Hmi|done].
    + assert (Vote.Height w = ht s) as Hx by (rewrite <- T3; by eapply sends_height). rewrite decide_True by congruence. apply elem_of_app. by right.
    + destruct P7 as [(_ & -> & _)|([?|[Hr ?]] & H2 & _)]; [by apply elem_of_nil in Hw|specialize (H2 w Hw); lia|].
      specialize (H2 w Hw). assert (ht s = H) as Hsh by lia. by destruct (Hre Hsh).
Qed.

Lemma netStep_ok n n' : netOk n -> netStep n n' -> netOk n'.
Proof.
  intros Hn Hs. destruct Hs as [n k a s i s' Hk Hc Hau Hre Hr Hlt]. pose proof Hn as [N1 N2 N3 N4 N5]. set (n' := mkNet _ _ _).
  pose proof (proj1 (Forall_lookup _ _) N1 k (a, s) Hk) as (v & HI & Had & Hh & Hah & Hqu). cbn [fst snd] in *.
  destruct (handle_path (cfg a) s v i s' HI Hc Hr Hlt) as (s1 & v1 & l1 & l2 & Hp).
  assert (honest n' = honest n) as Hho.
  { unfold honest, n'. cbn. rewrite list_fmap_insert. cbn. apply list_insert_id. by rewrite list_lookup_fmap, Hk. }
  assert (log n' = log n ++ castVotes i s s') as Hlo by done.
  pose proof (path_cast s i s' s1 v1 l1 l2 Hp Hh Hre) as Hcast.
  assert (forall w, w ∈ castVotes i s s' -> Vote.ValidatorAddress w = a /\ 0 <= Vote.Round w) as Hown.
  { rewrite Hcast. case_decide as He; [|by intros w Hw; apply elem_of_nil in Hw]. intros w Hw. destruct (pa_sends _ _ _ _ _ _ _ Hp) as [F _ _].
    rewrite Forall_forall in F. destruct (F w Hw) as (_ & Ha & Hb & _). destruct (taken_same i s) as (_ & _ & _ & _ & _ & _ & T7 & _).
    rewrite T7, Had in Ha. pose proof (inv_round _ _ (taken_Inv i s v HI)). split; [congruence|unfold after in Hb; lia]. }
  split.
  - apply Forall_lookup. intros j [b sb] Hj. unfold n' in Hj. cbn [machines] in Hj. apply list_lookup_insert_Some in Hj as [(<- & [= <- <-] & _)|[Hne Hj]].
    + by apply (machineOk_self n n' a s v i s' s1 v1 l1 l2).
    + apply (machineOk_other n n' a b sb (castVotes i s s')); [done|done|intros w Hw; by apply Hown| |by apply (proj1 (Forall_lookup _ _) N1 j (b, sb))].
      intros ->. apply Hne. apply (NoDup_lookup (honest n) k j a N2); unfold honest; rewrite list_lookup_fmap; [by rewrite Hk|by rewrite Hj].
  - by rewrite Hho.
  - rewrite Hho, Hlo, Hcast. case_decide as He; [|by rewrite app_nil_r].
    by destruct (path_lawful n a s v i s' s1 v1 l1 l2 Hn HI He Had (Hah He) Hau Hqu Hp).
  - rewrite Hho, Hlo. intros w [Hw|Hw]%elem_of_app; [by apply N4|]. destruct (Hown w Hw) as [-> ?]. split; [|done].
    unfold honest. apply list_elem_of_lookup. exists k. by rewrite list_lookup_fmap, Hk.
  - rewrite Hho, Hlo. intros a' b [Hb|(-> & He & Hb)].
    + eapply decision_mono; [|by eapply N5]. set_solver.
    + destruct (path_kept n a s v i s' s1 v1 l1 l2 HI He (Hah He) Hau Hqu Hp) as (K1 & K2 & K3).
      destruct Hp as [P1 _ _ _ _ _ [(_ & _ & P7)|(_ & _ & P7)]].
      { destruct Hb as (x & meta & Hx & _ & Hne). rewrite P7 in Hx. done. }
      destruct (P7 b Hb) as (bid & (vs & Hg & Hm) & Heq). apply EqualHashes_spec in Heq as [Heq Hne].
      eapply decision_mono; [|exists (u64 (i64 (commitRound s1))), bid; split_and!; [by eapply (maj_quorum v1); [apply P1|..]|done|done]]. set_solver.
Qed.

(** C1: agreement.  In a net in which validators with less than a third of the
    voting power are not machines of the net, any two blocks that machines of the
    net store while they are at the height have the same hash, whatever the order
    of inputs, the messages of the others and the timeouts, as long as nobody
    forges the votes of a machine and none is restarted at the height. *)
Theorem agreement n0 n a1 b1 a2 b2 : quorate vals ->
  3 * weight vals (faulty vals (honest n0)) < powers (ValidatorSet.Validators vals) ->
  netStart n0 -> rtc netStep n0 n -> adopted n a1 b1 -> adopted n a2 b2 -> BlockHash b1 = BlockHash b2.
Proof.
  intros Hq Hf Hs Hr H1 H2. assert (netOk n /\ honest n = honest n0) as [Hn Hh].
  { apply (rtc_ind_r (fun n => netOk n /\ honest n = honest n0) n0) in Hr; [done|split; [by apply netStart_ok|done]|].
    intros x y _ Hxy [Hx Ex]. split; [by eapply netStep_ok|]. rewrite <- Ex. destruct Hxy as [x k a s i s' Hk].
    unfold honest. cbn. rewrite list_fmap_insert. cbn. apply list_insert_id. by rewrite list_lookup_fmap, Hk. }
  rewrite <- Hh in Hf. eapply (log_agreement vals (honest n) Hq Hf (log n)); [apply Hn|by eapply no_adopted..].
Qed.
End Net.

(** ** A run of two machines *)

Section Play.
Context {L : Lib} {HL : LibLaws L} {E : Env} {HE : EnvLaws E}.
Variables (cfg : bytes -> Config.t) (H : Z) (chain : string) (vals : ValidatorSet.t).

(** Take the own message at a place of the queue, hand the message at a place of
    a machine's queue to another machine, or let a timeout expire. *)
Inductive command :=
| Own (k j : nat)
| Send (from j to : nat)
| Expire (k : nat) (ti : timeoutInfo.t).

Definition commandInput (n : net) (c : command) : option (nat * input) :=
  match c with
  | Own k j => Some (k, IInternal j)
  | Send from j to =>
      match machines n !! from with
      | Some (_, s) =>
          match ConsensusState.internalMsgQueue s !! j with
          | Some mi => Some (to, IPeer (msgInfo.mk L (msgInfo.Msg mi) "peer"))
          | None => None
          end
      | None => None
      end
  | Expire k ti => Some (k, ITimeout ti)
  end.

Definition sameEssence (w w' : Vote.t) : bool :=
  (Vote.Type_ w =? Vote.Type_ w') && (Vote.Height w =? Vote.Height w') && (Vote.Round w =? Vote.Round w') &&
  BlockID.Equals (Vote.BlockID w) (Vote.BlockID w') && bytes_equal (Vote.ValidatorAddress w) (Vote.ValidatorAddress w') &&
  (Vote.Result w =? Vote.Result w').

Definition authenticb (n : net) (i : input) : bool :=
  match i with
  | IPeer mi => match voteOf (msgInfo.Msg mi) with Some w => existsb (fun w' => sameEssence w' w) (log n) | None => true end
  | _ => true
  end.

Definition play1 (n : net) (c : command) : option net :=
  match commandInput n c with
  | Some (k, i) =>
      match machines n !! k with
      | Some (a, s) =>
          match handle (cfg a) i s with
          | Ret (_, s') =>
              if calmb i s && authenticb n i && (heightOf s' <? 2 ^ 62) then
                Some (mkNet (<[k := (a, s')]> (machines n)) (log n ++ castVotes H i s s')
                  (fun a' b => adopted n a' b \/ a' = a /\ ht s = H /\ newBlock s s' b))
              else None
          | Panic _ => None
          end
      | None => None
      end
  | None => None
  end.

Fixpoint play (n : net) (l : list command) : option net :=
  match l with
  | [] => Some n
  | c :: l' => match play1 n c with Some n' => play n' l' | None => None end
  end.
End Play.


Section PlayFacts.
Context {L : Lib} {HL : LibLaws L} {E : Env} {HE : EnvLaws E}.
Variables (cfg : bytes -> Config.t) (H : Z) (chain : string) (vals : ValidatorSet.t).

Lemma sameEssence_spec w w' : sameEssence w w' = true -> essence w = essence w'.
Proof.
  unfold sameEssence, essence, ballot. rewrite !andb_true_iff. intros [[[[[H1 H2] H3] H4] H5] H6].
  apply Z.eqb_eq in H1, H2, H3, H6. apply BlockID_Equals_spec in H4. apply bool_decide_eq_true in H5. congruence.
Qed.

Lemma authenticb_spec n i : authenticb n i = true -> authentic H chain vals n i.
Proof.
  destruct i as [mi| | | |]; try done. cbn. intros Ha w Hm _ _ _. rewrite Hm in Ha. cbn in Ha.
  apply existsb_exists in Ha as (w' & Hin & He). exists w'. split; [by apply list_elem_of_In|by apply sameEssence_spec].
Qed.

Lemma calmb_no_restart i s : calmb i s = true -> ~ restarts i s.
Proof.
  unfold calmb. rewrite andb_true_iff. intros [_ Hc]. destruct i as [mi|k| | |]; cbn; [| |by intros []..].
  - intros (vset & u & e & Hm). by rewrite Hm in Hc.
  - intros (mi & vset & u & e & Hk & Hm). rewrite Hk in Hc. by rewrite Hm in Hc.
Qed.

Lemma play1_step n c n' : play1 cfg H n c = Some n' -> netStep cfg H chain vals n n' /\ forall a b, adopted n a b -> adopted n' a b.
Proof.
  unfold play1. destruct (commandInput n c) as [[k i]|]; [|done]. destruct (machines n !! k) as [[a s]|] eqn:Ek; [|done].
  destruct (handle (cfg a) i s) as [[[] s']|] eqn:Eh; [|done]. destruct (_ && _) eqn:Ec; [|done]. intros [= <-].
  rewrite !andb_true_iff in Ec. destruct Ec as [[H1 H2] H3]. split; [|intros a' b Hab; by left].
  apply (netStep_handle cfg H chain vals n k a s i s'); [done|by apply calmb_spec|by apply authenticb_spec| |done|by apply Z.ltb_lt].
  intros _. by apply calmb_no_restart.
Qed.

Lemma play_rtc n l n' : play cfg H n l = Some n' -> rtc (netStep cfg H chain vals) n n'.
Proof.
  revert n. induction l as [|c l IH]; intros n Hp; cbn in Hp; [injection Hp as <-; apply rtc_refl|].
  destruct (play1 cfg H n c) as [n1|] eqn:E1; [|done]. destruct (play1_step _ _ _ E1). eapply rtc_l; [done|by apply IH].
Qed.

(** No votes at all. *)
Definition noVotes (v : HeightVoteSet.t) : bool :=
  forallb (fun rv => (size (VoteSet.votesByBlock (HeightVoteSet.Prevotes_ rv.2)) =? 0)%nat &&
                     (size (VoteSet.votesByBlock (HeightVoteSet.Precommits_ rv.2)) =? 0)%nat) (map_to_list (HeightVoteSet.roundVoteSets v)).

Lemma noVotes_spec v w : noVotes v = true -> ~ kept v w.
Proof.
  unfold noVotes. rewrite forallb_forall. intros Hv (r & rvs & Hr & Hs)%kept_rounds.
  specialize (Hv (r, rvs)). rewrite <- list_elem_of_In, elem_of_map_to_list in Hv. specialize (Hv Hr).
  rewrite andb_true_iff, !Nat.eqb_eq, !map_size_empty_iff in Hv. destruct Hv as [H1 H2]. cbn in H1, H2.
  destruct Hs as [(k & vbb & i & Hk & _)|(k & vbb & i & Hk & _)]; [rewrite H1 in Hk|rewrite H2 in Hk]; exact (lookup_empty_Some _ _ Hk).
Qed.

Definition readyb (a : bytes) (s : ConsensusState.t) : bool :=
  (ht s =? H) && bool_decide (addrOf s = Some a) && bool_decide (chainOf s = chain) &&
  match lockBlock s with None => true | Some _ => false end &&
  match votesOf (ConsensusState.internalMsgQueue s) with [] => true | _ => false end &&
  match vts s with Some v => noVotes v | None => false end.

Lemma readyb_spec a s : reach (cfg a) s -> readyb a s = true ->
  (forall v, vts s = Some v -> ValidatorSet.Validators (HeightVoteSet.valSet v) = ValidatorSet.Validators vals) -> ready H chain vals a s.
Proof.
  intros HR Hb Hv. destruct (reach_inv (cfg a) s HR) as [v HI]. unfold readyb in Hb. rewrite (inv_votes _ _ HI), !andb_true_iff in Hb.
  destruct Hb as [[[[[H1 H2] H3] H4] H5] H6]. exists v. split_and!; try done.
  - by apply Z.eqb_eq.
  - by apply bool_decide_eq_true in H2.
  - by apply bool_decide_eq_true in H3.
  - by destruct (lockBlock s).
  - by apply Hv, HI.
  - intros w. by apply noVotes_spec.
  - intros w Hw. destruct (votesOf _); [by apply elem_of_nil in Hw|done].
Qed.
End PlayFacts.
Definition duoVals : ValidatorSet.t := ValidatorSet.mk demoLib [demoVal Byte.x01 10 0; demoVal Byte.x02 10 0; demoVal Byte.x03 5 0] None 0.

Definition duoAgent : StateAgentImpl.t := StateAgentImpl.NewStateAgent (0%N, 100) "chain" duoVals 1 1.

Definition duoMachine (k : byte) : ConsensusState.t :=
  match run demoConfig duoAgent BlockStore.NewBlockStore (privValidator.NewPrivValidator (L := demoLib) k) (HealthMgr.NewHealthMgr 1)
          (CommitteeInfo.mk 0 [] []) [] with
  | Ret s => s
  | Panic _ => zeroState demoConfig duoAgent BlockStore.NewBlockStore
  end.

Definition duoStart : net := mkNet [([Byte.x01], duoMachine Byte.x01); ([Byte.x02], duoMachine Byte.x02)] [] (fun _ _ => False).
Definition newHeight : timeoutInfo.t := timeoutInfo.mk 0 1 0 RoundStepNewHeight 1.

(** Both are in the first round and hold a precommit of the other. *)
Definition duoVotes : list command :=
  [Expire 0 newHeight; Expire 1 newHeight; Send 0 0 1; Send 0 1 1; Own 0 0; Own 0 0; Send 0 0 1; Send 1 0 0; Own 0 0; Own 1 0; Send 0 0 1; Send 1 0 0].

Definition playDuo (l : list command) : net :=
  match play (fun _ => demoConfig) 1 duoStart l with Some n => n | None => duoStart end.

Definition played (l : list command) : bool :=
  match play (fun _ => demoConfig) 1 duoStart l with Some _ => true | None => false end.

(** The machine [k] moves to the next height with the block [b]. *)
Definition storesb (n : net) (k : nat) (a : bytes) (b : byte) : bool :=
  match machines n !! k, play1 (fun _ => demoConfig) 1 n (Own k 0) with
  | Some (a', s), Some n' =>
      bool_decide (a' = a) && (ht s =? 1) && match machines n' !! k with
      | Some (_, s') =>
          match BlockStore.blocks (ConsensusState.blockStore s') !! 1, BlockStore.blocks (ConsensusState.blockStore s) !! 1 with
          | Some meta, None => bool_decide (BlockMeta.Block_ meta = b)
          | _, _ => false
          end
      | None => false
      end
  | _, _ => false
  end.

Lemma storesb_spec n k a b : storesb n k a b = true -> exists n',
  play1 (fun _ => demoConfig) 1 n (Own k 0) = Some n' /\ adopted n' a b.
Proof.
  unfold storesb. destruct (machines n !! k) as [[a' s]|] eqn:Ek; [|done]. destruct (play1 _ 1 n (Own k 0)) as [n'|] eqn:Ep; [|done].
  rewrite !andb_true_iff. intros [[Ha Hh] Hs]. apply bool_decide_eq_true in Ha as ->. apply Z.eqb_eq in Hh. exists n'. split; [done|].
  unfold play1, commandInput in Ep. rewrite Ek in Ep. destruct (handle _ _ s) as [[[] s']|]; [|done]. destruct (_ && _); [|done]. injection Ep as <-.
  cbn [machines adopted] in *. rewrite list_lookup_insert_eq in Hs by (by eapply lookup_lt_Some). right. split_and!; [done|done|].
  destruct (BlockStore.blocks (ConsensusState.blockStore s') !! 1) as [meta|] eqn:E1; [|done].
  destruct (BlockStore.blocks (ConsensusState.blockStore s) !! 1) eqn:E2; [done|]. apply bool_decide_eq_true in Hs.
  exists 1, meta. split_and!; [done|done|]. by rewrite E2.
Qed.

Lemma duoVals_quorate : quorate duoVals.
Proof.
  split_and!; [|vm_compute; congruence|by left|vm_compute; congruence]. cbn. intros v Hv.
  repeat (apply elem_of_cons in Hv as [->|Hv]; [done|]). by apply elem_of_nil in Hv.
Qed.

Lemma duoMachine_reach k : match run demoConfig duoAgent BlockStore.NewBlockStore (privValidator.NewPrivValidator (L := demoLib) k)
    (HealthMgr.NewHealthMgr 1) (CommitteeInfo.mk 0 [] []) [] with Ret _ => true | Panic _ => false end = true -> reach demoConfig (duoMachine k).
Proof.
  unfold duoMachine. destruct (run _ _ _ _ _ _ _) as [s|] eqn:Er; [|done]. intros _.
  eapply run_reach; [| |exact Er]; [apply duoVals_quorate|done].
Qed.

Lemma duo_starts : netStart 1 "chain" duoVals duoStart.
Proof.
  split_and!; [| |done|by intros ? ? []].
  - cbn. repeat constructor; [|set_solver]. rewrite list_elem_of_singleton. discriminate.
  - assert (forall k, reach demoConfig (duoMachine k) -> readyb 1 "chain" [k] (duoMachine k) = true ->
      (fun v => ValidatorSet.Validators (HeightVoteSet.valSet v)) <$> vts (duoMachine k) = Some (ValidatorSet.Validators duoVals) ->
      ready 1 "chain" duoVals [k] (duoMachine k)) as Hk.
    { intros k HR Hb Hv. apply (readyb_spec (fun _ => demoConfig)); [done|done|]. intros v Ev. rewrite Ev in Hv. by injection Hv. }
    unfold duoStart. cbn [machines]. apply Forall_cons. split; [|apply Forall_cons; split; [|by apply Forall_nil]]; cbn [fst snd]; apply Hk.
    + apply duoMachine_reach. vm_compute. reflexivity.
    + vm_compute. reflexivity.
    + vm_compute. reflexivity.
    + apply duoMachine_reach. vm_compute. reflexivity.
    + vm_compute. reflexivity.
    + vm_compute. reflexivity.
Qed.

Lemma playDuo_snoc l c n' : play (fun _ => demoConfig) 1 duoStart l = Some (playDuo l) ->
  play1 (fun _ => demoConfig) 1 (playDuo l) c = Some n' -> play (fun _ => demoConfig) 1 duoStart (l ++ [c]) = Some n'.
Proof.
  generalize (playDuo l) duoStart. induction l as [|d l IH]; intros n n0 Hp Hc; cbn in *.
  - injection Hp as ->. by rewrite Hc.
  - destruct (play1 _ 1 n0 d); [|done]. by apply (IH n).
Qed.

Lemma played_spec l : played l = true -> play (fun _ => demoConfig) 1 duoStart l = Some (playDuo l).
Proof. unfold played, playDuo. by destruct (play _ 1 duoStart l). Qed.

(** Two machines that move on one after the other. *)
Lemma playDuo_adopts l k1 a1 b1 k2 a2 b2 : played l = true -> storesb (playDuo l) k1 a1 b1 = true ->
  storesb (playDuo (l ++ [Own k1 0])) k2 a2 b2 = true ->
  exists n, rtc (netStep (fun _ => demoConfig) 1 "chain" duoVals) duoStart n /\ adopted n a1 b1 /\ adopted n a2 b2.
Proof.
  intros Hp (n1 & P1 & A1)%storesb_spec (n2 & P2 & A2)%storesb_spec.
  pose proof (playDuo_snoc l (Own k1 0) n1 (played_spec l Hp) P1) as R1.
  assert (playDuo (l ++ [Own k1 0]) = n1) as E1 by (unfold playDuo; by rewrite R1). rewrite E1 in P2.
  destruct (play1_step (fun _ => demoConfig) 1 "chain" duoVals n1 (Own k2 0) n2 P2) as [S2 K2].
  exists n2. split; [|split; [by apply K2|done]]. eapply rtc_r; [by eapply play_rtc|exact S2].
Qed.

Lemma duo_adopts : exists n, rtc (netStep (fun _ => demoConfig) 1 "chain" duoVals) duoStart n /\
  adopted n [Byte.x01] Byte.x01 /\ adopted n [Byte.x02] Byte.x01.
Proof. apply (playDuo_adopts duoVotes 0 _ _ 1); vm_compute; reflexivity. Qed.

Lemma agreement_witness : exists n b1 b2, rtc (netStep (fun _ => demoConfig) 1 "chain" duoVals) duoStart n /\
  adopted n [Byte.x01] b1 /\ adopted n [Byte.x02] b2 /\ BlockHash b1 = BlockHash b2.
Proof.
  destruct duo_adopts as (n & R & A1 & A2). exists n, Byte.x01, Byte.x01. split; [exact R|]. split; [exact A1|]. split; [exact A2|].
  apply (agreement (fun _ => demoConfig) 1 "chain" duoVals duoStart n [Byte.x01] Byte.x01 [Byte.x02] Byte.x01).
  - apply duoVals_quorate.
  - vm_compute. reflexivity.
  - apply duo_starts.
  - exact R.
  - exact A1.
  - exact A2.
Defined.
