(* ===== verification/Ticker.v ===== *)
(** The timeout ticker ([consensus/tbft/ticker.go]).

    [timeoutTicker.t] is the ticker with the state of its routine: the timer, the
    buffered channels on which timeouts are scheduled and delivered, the last
    timeout the routine took, and the goroutines that wait to deliver one.
    [tstep] is the interleaving of the callers of [ScheduleTimeout], the routine,
    the clock and the receiver; [run] records what was scheduled, taken, fired and
    received.  The theorem says that timeouts fire in the order of their height,
    round and step, each at most once and only if scheduled. *)

From stdpp Require Import sorting relations.
From S2P Require Import Prelude RoundState.
Open Scope Z_scope.

(** A [time.Timer]: stopped or drained, running, or with a value in its channel. *)
Inductive timer := Idle | Armed | Fired.

Definition tickTockBufferSize : Z := 10.

Module timeoutTicker.
Record t := mk {
  timer_ : timer;
  tickChan : list timeoutInfo.t;
  tockChan : list timeoutInfo.t;
  ti : timeoutInfo.t;
  sending : list timeoutInfo.t
}.

Definition zeroInfo : timeoutInfo.t := timeoutInfo.mk 0 0 0 0 0.

(** [Stop] is true if it stops a running timer; a value in the channel is drained. *)
Definition Stop (x : timer) : bool * timer :=
  match x with Armed => (true, Idle) | _ => (false, x) end.

Definition stopTimer (x : timer) : timer :=
  let (ok, x) := Stop x in
  if negb ok then match x with Fired => Idle | _ => x end else x.

(** [Reset] of a timer; a value that was not drained stays in the channel. *)
Definition Reset (x : timer) : timer := match x with Fired => Fired | _ => Armed end.

(** [time.NewTimer(0)] runs or has fired when it is stopped. *)
Definition NewTimeoutTicker (started : timer) : t := mk (stopTimer started) [] [] zeroInfo [].

Definition ScheduleTimeout (x : t) (ti0 : timeoutInfo.t) : t :=
  if zlen (tickChan x) <? tickTockBufferSize then mk (timer_ x) (tickChan x ++ [ti0]) (tockChan x) (ti x) (sending x)
  else x.

(** Whether [timeoutRoutine] skips the tick [newti]. *)
Definition ignored (ti0 newti : timeoutInfo.t) : bool :=
  if timeoutInfo.Wait newti =? 1 then
    if timeoutInfo.Height newti <? timeoutInfo.Height ti0 then true
    else if timeoutInfo.Height newti =? timeoutInfo.Height ti0 then
      if timeoutInfo.Round newti <? timeoutInfo.Round ti0 then true
      else if timeoutInfo.Round newti =? timeoutInfo.Round ti0 then
        (0 <? timeoutInfo.Step ti0) && (timeoutInfo.Step newti <=? timeoutInfo.Step ti0)
      else false
    else false
  else false.

(** The case of a tick; the timer is stopped and runs for the new timeout. *)
Definition onTick (x : t) (newti : timeoutInfo.t) (rest : list timeoutInfo.t) : t :=
  if ignored (ti x) newti then mk (timer_ x) rest (tockChan x) (ti x) (sending x)
  else mk (Reset (stopTimer (timer_ x))) rest (tockChan x) newti (sending x).

(** The case of the timer's channel; a goroutine sends the timeout. *)
Definition onTimer (x : t) : t := mk Idle (tickChan x) (tockChan x) (ti x) (sending x ++ [ti x]).

Definition expire (x : t) : t := mk Fired (tickChan x) (tockChan x) (ti x) (sending x).
Definition deliver (x : t) (ti0 : timeoutInfo.t) (rest : list timeoutInfo.t) : t :=
  mk (timer_ x) (tickChan x) (tockChan x ++ [ti0]) (ti x) rest.
Definition receive (x : t) (rest : list timeoutInfo.t) : t := mk (timer_ x) (tickChan x) rest (ti x) (sending x).
Definition OnStop (x : t) : t := mk (stopTimer (timer_ x)) (tickChan x) (tockChan x) (ti x) (sending x).
End timeoutTicker.
Import timeoutTicker.

(** What happened to a ticker. *)
Module History.
Record t := mk {
  scheduled : list timeoutInfo.t;
  took : list timeoutInfo.t;
  fired : list timeoutInfo.t;
  received : list timeoutInfo.t;
  stopped : bool
}.
End History.
Import History.

(** One step of the ticker and its users. *)
Inductive tstep : timeoutTicker.t * History.t -> timeoutTicker.t * History.t -> Prop :=
| step_schedule x h ti0 :
    tstep (x, h) (ScheduleTimeout x ti0, History.mk (scheduled h ++ [ti0]) (took h) (fired h) (received h) (stopped h))
| step_tick x h newti rest : tickChan x = newti :: rest ->
    tstep (x, h) (onTick x newti rest,
      History.mk (scheduled h) (took h ++ [newti]) (fired h) (received h) (stopped h))
| step_expire x h : timer_ x = Armed -> tstep (x, h) (expire x, h)
| step_fire x h : timer_ x = Fired ->
    tstep (x, h) (onTimer x, History.mk (scheduled h) (took h) (fired h ++ [ti x]) (received h) (stopped h))
| step_deliver x h l1 ti0 l2 : sending x = l1 ++ ti0 :: l2 -> zlen (tockChan x) < tickTockBufferSize ->
    tstep (x, h) (deliver x ti0 (l1 ++ l2), h)
| step_receive x h ti0 rest : tockChan x = ti0 :: rest ->
    tstep (x, h) (receive x rest, History.mk (scheduled h) (took h) (fired h) (received h ++ [ti0]) (stopped h))
| step_stop x h : tstep (x, h) (OnStop x, History.mk (scheduled h) (took h) (fired h) (received h) true).

(** The order of [ignored]. *)
Definition earlier (a b : timeoutInfo.t) : Prop :=
  timeoutInfo.Height a < timeoutInfo.Height b \/ timeoutInfo.Height a = timeoutInfo.Height b /\
  (timeoutInfo.Round a < timeoutInfo.Round b \/ timeoutInfo.Round a = timeoutInfo.Round b /\
   timeoutInfo.Step a < timeoutInfo.Step b).

Lemma earlier_trans a b c : earlier a b -> earlier b c -> earlier a c.
Proof. unfold earlier. lia. Qed.

Lemma earlier_irrefl a : ~ earlier a a.
Proof. unfold earlier. lia. Qed.

(** What is scheduled by the machine: a wait of one, and a step. *)
Definition regular (ti0 : timeoutInfo.t) : Prop :=
  timeoutInfo.Wait ti0 = 1 /\ 0 < timeoutInfo.Step ti0 /\ 0 <= timeoutInfo.Height ti0 /\ 0 <= timeoutInfo.Round ti0.

(** The zero timeout is before every regular one. *)
Lemma not_ignored ti0 newti : regular newti -> ti0 = zeroInfo \/ regular ti0 ->
  ignored ti0 newti = false <-> earlier ti0 newti.
Proof.
  intros (W & S1 & H1 & R1) H0. unfold ignored, earlier. rewrite W, Z.eqb_refl.
  assert (0 <= timeoutInfo.Height ti0 /\ 0 <= timeoutInfo.Round ti0 /\ 0 <= timeoutInfo.Step ti0 /\
    (timeoutInfo.Step ti0 = 0 -> timeoutInfo.Height ti0 = 0 /\ timeoutInfo.Round ti0 = 0)) as (A1 & A2 & A3 & A4).
  { destruct H0 as [->|(? & ? & ? & ?)]; [done|]. lia. }
  destruct (Z.ltb_spec (timeoutInfo.Height newti) (timeoutInfo.Height ti0)); [split; [done|lia]|].
  destruct (Z.eqb_spec (timeoutInfo.Height newti) (timeoutInfo.Height ti0)); [|split; [lia|done]].
  destruct (Z.ltb_spec (timeoutInfo.Round newti) (timeoutInfo.Round ti0)); [split; [done|lia]|].
  destruct (Z.eqb_spec (timeoutInfo.Round newti) (timeoutInfo.Round ti0)); [|split; [lia|done]].
  destruct (Z.ltb_spec 0 (timeoutInfo.Step ti0)), (Z.leb_spec (timeoutInfo.Step newti) (timeoutInfo.Step ti0)); cbn; split; (done || lia).
Qed.

Definition newHistory : History.t := History.mk [] [] [] [] false.

(** The invariant of a ticker that is only given regular timeouts. *)
Record ticker_ok (x : timeoutTicker.t) (h : History.t) : Prop := {
  tk_taken : took h ++ tickChan x ⊆ scheduled h;
  tk_zero : took h = [] -> ti x = zeroInfo /\ timer_ x = Idle;
  tk_last : took h <> [] -> ti x ∈ took h;
  tk_latest : forall a, a ∈ took h -> ~ earlier (ti x) a;
  tk_sorted : StronglySorted earlier (fired h);
  tk_fired : forall a, a ∈ fired h -> a ∈ took h /\ (earlier a (ti x) \/ a = ti x /\ timer_ x = Idle);
  tk_kept : took h <> [] -> stopped h = false -> timer_ x <> Idle \/ ti x ∈ fired h;
  tk_sent : fired h ≡ₚ received h ++ tockChan x ++ sending x
}.

Lemma sorted_snoc (l : list timeoutInfo.t) a : StronglySorted earlier l -> (forall b, b ∈ l -> earlier b a) ->
  StronglySorted earlier (l ++ [a]).
Proof.
  induction 1 as [|b l Hs IH Hb]; intros Ha; cbn; [repeat constructor|]. constructor.
  - apply IH. intros c Hc. apply Ha. set_solver.
  - rewrite Forall_app. split; [done|]. apply Forall_singleton, Ha. set_solver.
Qed.

Lemma Stop_Idle x : stopTimer x = Idle.
Proof. by destruct x. Qed.

Lemma new_ok x : ticker_ok (NewTimeoutTicker x) newHistory.
Proof. split; cbn; rewrite ?Stop_Idle; first [done|apply SSorted_nil|intros a Ha; by apply elem_of_nil in Ha]. Qed.

Lemma ok_regular x h : ticker_ok x h -> Forall regular (scheduled h) -> ti x = zeroInfo \/ regular (ti x).
Proof.
  intros Hok Hr. rewrite Forall_forall in Hr. destruct (decide (took h = [])) as [H0|H0]; [left; by apply (tk_zero _ _ Hok)|right].
  apply Hr, (tk_taken _ _ Hok), elem_of_app. left. by apply (tk_last _ _ Hok).
Qed.

Lemma tick_ok x h newti rest : ticker_ok x h -> Forall regular (scheduled h) -> tickChan x = newti :: rest ->
  ticker_ok (onTick x newti rest) (History.mk (scheduled h) (took h ++ [newti]) (fired h) (received h) (stopped h)).
Proof.
  intros Hok Hr Hc. pose proof (ok_regular _ _ Hok Hr) as H0. destruct Hok as [A1 A2 A3 A4 A5 A6 A7 A8]. rewrite Hc in A1.
  assert (regular newti) as Hn by (rewrite Forall_forall in Hr; apply Hr, A1; set_solver).
  pose proof (not_ignored (ti x) newti Hn H0) as Hig. unfold onTick. destruct (ignored (ti x) newti) eqn:Ei.
  - assert (~ earlier (ti x) newti) as Hne by (intros ?%Hig; done).
    assert (took h <> []) as Ht. { intros Ht. destruct (A2 Ht) as [Hz _]. rewrite Hz in Hne. apply Hne. destruct Hn as (? & ? & ? & ?). unfold earlier. cbn. lia. }
    split; cbn; try done.
    + set_solver.
    + by destruct (took h).
    + intros _. set_solver.
    + intros a Ha. apply elem_of_app in Ha as [Ha|Ha]; [by apply A4|]. by apply list_elem_of_singleton in Ha as ->.
    + intros a Ha. destruct (A6 a Ha). split; [set_solver|done].
    + intros _ Hs. by apply A7.
  - assert (earlier (ti x) newti) as Hlt by (by apply Hig). rewrite Stop_Idle. split; cbn; try done.
    + set_solver.
    + by destruct (took h).
    + intros _. set_solver.
    + intros a Ha He. apply elem_of_app in Ha as [Ha|Ha].
      * apply (A4 a Ha). by eapply earlier_trans.
      * apply list_elem_of_singleton in Ha as ->. by apply earlier_irrefl in He.
    + intros a Ha. destruct (A6 a Ha) as [Ht Hf]. split; [set_solver|left]. destruct Hf as [Hf|[-> _]]; [by eapply earlier_trans|done].
    + intros _ _. by left.
Qed.

Lemma tstep_ok x h x' h' : tstep (x, h) (x', h') -> Forall regular (scheduled h') -> ticker_ok x h ->
  ticker_ok x' h' /\ (Forall regular (scheduled h') -> Forall regular (scheduled h)).
Proof.
  intros Hs Hr Hok. inv Hs; (split; [|cbn; try done; by intros [? _]%Forall_app]).
  - destruct Hok as [A1 A2 A3 A4 A5 A6 A7 A8]. unfold ScheduleTimeout. destruct (_ <? _); split; cbn; try done; set_solver.
  - by apply tick_ok.
  - destruct Hok as [A1 A2 A3 A4 A5 A6 A7 A8]. split; cbn; try done.
    + intros Hz. destruct (A2 Hz). congruence.
    + intros a Ha. destruct (A6 a Ha) as [? [?|[_ ?]]]; [by split; [|left]|congruence].
    + intros _ _. by left.
  - destruct Hok as [A1 A2 A3 A4 A5 A6 A7 A8].
    assert (took h <> []) as Ht by (intros Hz; destruct (A2 Hz); congruence).
    assert (forall a, a ∈ fired h -> earlier a (ti x)) as Hall.
    { intros a Ha. destruct (A6 a Ha) as [_ [?|[_ ?]]]; [done|congruence]. }
    split; cbn; try done.
    + by apply sorted_snoc.
    + intros a Ha. apply elem_of_app in Ha as [Ha|Ha]; [split; [by apply A6|left; by apply Hall]|].
      apply list_elem_of_singleton in Ha as ->. split; [by apply A3|by right].
    + intros _ _. right. set_solver.
    + by rewrite A8, !app_assoc.
  - destruct Hok as [A1 A2 A3 A4 A5 A6 A7 A8]. split; cbn; try done. match goal with H : sending x = _ |- _ => rewrite A8, H, <- app_assoc end. cbn. by rewrite Permutation_middle.
  - destruct Hok as [A1 A2 A3 A4 A5 A6 A7 A8]. split; cbn; try done. match goal with H : tockChan x = _ |- _ => rewrite A8, H end. by rewrite <- app_assoc.
  - destruct Hok as [A1 A2 A3 A4 A5 A6 A7 A8]. split; cbn; try done; rewrite ?Stop_Idle.
    + intros Hz. by destruct (A2 Hz).
    + intros a Ha. destruct (A6 a Ha) as [? [?|[? _]]]; (split; [done|]); [by left|by right].
Qed.

Lemma run_ok t0 x h : rtc tstep (NewTimeoutTicker t0, newHistory) (x, h) -> Forall regular (scheduled h) -> ticker_ok x h.
Proof.
  intros Hrun. refine (rtc_ind_r (fun st => Forall regular (scheduled st.2) -> ticker_ok st.1 st.2)
    (NewTimeoutTicker t0, newHistory) _ _ _ Hrun); [by intros _; apply new_ok|]. clear.
  intros [x1 h1] [x2 h2] _ Hs IH Hr. cbn in *. assert (Forall regular (scheduled h1)) as Hr1.
  { inv Hs; cbn in Hr; try done. by apply Forall_app in Hr as [? _]. }
  by apply (tstep_ok x1 h1 x2 h2 Hs Hr), IH.
Qed.

(** Timeouts fire in order.  However the callers, the routine, the clock and
    the receiver interleave, a ticker that is given timeouts with a wait of one
    fires them in increasing order of height, round and step, each at most once
    and only after it was scheduled; what it fired is what was received and what
    is on its way; its current timeout is the latest of those it took, and unless
    the ticker is stopped that one still runs or was fired. *)
Theorem timeouts_fire_in_order t0 x h : rtc tstep (NewTimeoutTicker t0, newHistory) (x, h) -> Forall regular (scheduled h) ->
  StronglySorted earlier (fired h) /\ NoDup (received h) /\ received h ⊆ scheduled h /\
  fired h ≡ₚ received h ++ tockChan x ++ sending x /\
  (forall a, a ∈ took h -> ~ earlier (ti x) a) /\
  (took h <> [] -> stopped h = false -> timer_ x <> Idle \/ ti x ∈ fired h).
Proof.
  intros Hrun Hr. destruct (run_ok _ _ _ Hrun Hr) as [A1 A2 A3 A4 A5 A6 A7 A8]. split_and!; try done.
  - assert (NoDup (fired h)) as Hnd.
    { clear -A5. induction A5 as [|a l _ IH Ha]; constructor; [|done]. intros Hin. rewrite Forall_forall in Ha.
      by apply (earlier_irrefl a), Ha. }
    rewrite A8 in Hnd. by apply NoDup_app in Hnd as [? _].
  - intros a Ha. apply A1, elem_of_app. left. apply A6. rewrite A8. set_solver.
Qed.

(** Two timeouts of one round: the earlier is fired and received, the later runs. *)
Definition demoTick (step : Z) : timeoutInfo.t := timeoutInfo.mk 10 5 0 step 1.

Lemma timeouts_fire_in_order_witness : exists x h, rtc tstep (NewTimeoutTicker Armed, newHistory) (x, h) /\
  received h = [demoTick 3] /\ StronglySorted earlier (fired h) /\ timer_ x = Armed /\ ti x = demoTick 5.
Proof.
  set (h := History.mk [demoTick 3; demoTick 5] [demoTick 3; demoTick 5] [demoTick 3] [demoTick 3] false).
  set (x := timeoutTicker.mk Armed [] [] (demoTick 5) []). exists x, h.
  assert (rtc tstep (NewTimeoutTicker Armed, newHistory) (x, h)) as Hrun.
  { eapply rtc_l; [apply (step_schedule _ _ (demoTick 3))|]. eapply rtc_l; [by eapply step_tick|].
    eapply rtc_l; [by apply step_expire|]. eapply rtc_l; [by apply step_fire|].
    eapply rtc_l; [by apply (step_deliver _ _ [] (demoTick 3) [])|]. eapply rtc_l; [by eapply step_receive|].
    eapply rtc_l; [apply (step_schedule _ _ (demoTick 5))|]. eapply rtc_l; [by eapply step_tick|]. apply rtc_refl. }
  split_and!; [exact Hrun|reflexivity| |reflexivity|reflexivity].
  apply (timeouts_fire_in_order Armed x h Hrun). repeat constructor; cbn; discriminate.
Defined.
