(* ===== verification/StateDB.v ===== *)
(** * The state database

    [core/state]: accounts as objects that are loaded from the trie on first use,
    changed in place and journalled, so that [RevertToSnapshot] can undo changes.

    Objects are shared by pointer: [StateDB.objects] is the heap, a pointer is an
    index into it, [stateObjects] maps addresses to pointers, and a journal entry
    for an overwritten account keeps the pointer to the old object.  Tries, the
    database behind them, the snapshot tree, RLP and Keccak are the class
    [StateLib].  Metrics and the log are left out; [for range] over a map goes
    through the elements of the map in some order. *)

From S2P Require Import Prelude GoStd Effects.

#[global] Instance byte_countable : Countable byte := inj_countable Byte.to_N Byte.of_N Byte.of_to_N.

(** [common.Hash{}]. *)
Definition zeroHash : bytes := replicate 32 Byte.x00.

Definition emptyRoot : bytes :=
  Z_byte <$> [0x56; 0xe8; 0x1f; 0x17; 0x1b; 0xcc; 0x55; 0xa6; 0xff; 0x83; 0x45; 0xe6; 0x92; 0xc0; 0xf8; 0x6e;
              0x5b; 0x48; 0xe0; 0x1b; 0x99; 0x6c; 0xad; 0xc0; 0x01; 0x62; 0x2f; 0xb5; 0xe3; 0x63; 0xb4; 0x21].

Definition ripemd : bytes := replicate 19 Byte.x00 ++ [Byte.x03].

(** A nil [[]byte] is empty for [bytes.Equal], [len] and conversions. *)
Definition goBytes (b : option bytes) : bytes := default [] b.

(** ** Data *)

(** A nil [Balance] is zero: [newObject], the only constructor of objects, says so. *)
Module Account.
Record t  := mk {
  Nonce : Z;
  Balance : Z;
  Root : bytes;
  CodeHash : option bytes
}.

Section Setters.
Definition set_Nonce (s : t) (x : Z) : t :=
  mk x (Balance s) (Root s) (CodeHash s).
Definition set_Balance (s : t) (x : Z) : t :=
  mk (Nonce s) x (Root s) (CodeHash s).
Definition set_Root (s : t) (x : bytes) : t :=
  mk (Nonce s) (Balance s) x (CodeHash s).
Definition set_CodeHash (s : t) (x : option bytes) : t :=
  mk (Nonce s) (Balance s) (Root s) x.
End Setters.
End Account.

(** [snapshot.Account]. *)
Module SnapAccount.
Record t := mk { Nonce : Z; Balance : Z; Root : bytes; CodeHash : bytes }.
End SnapAccount.

(** [types.Log]. *)
Module Log.
Record t  := mk {
  Address : bytes;
  Topics : list bytes;
  Data : bytes;
  BlockNumber : Z;
  TxHash : bytes;
  TxIndex : Z;
  BlockHash : bytes;
  Index : Z;
  Removed : bool
}.

Section Setters.
Definition set_Address (s : t) (x : bytes) : t :=
  mk x (Topics s) (Data s) (BlockNumber s) (TxHash s) (TxIndex s) (BlockHash s) (Index s) (Removed s).
Definition set_Topics (s : t) (x : list bytes) : t :=
  mk (Address s) x (Data s) (BlockNumber s) (TxHash s) (TxIndex s) (BlockHash s) (Index s) (Removed s).
Definition set_Data (s : t) (x : bytes) : t :=
  mk (Address s) (Topics s) x (BlockNumber s) (TxHash s) (TxIndex s) (BlockHash s) (Index s) (Removed s).
Definition set_BlockNumber (s : t) (x : Z) : t :=
  mk (Address s) (Topics s) (Data s) x (TxHash s) (TxIndex s) (BlockHash s) (Index s) (Removed s).
Definition set_TxHash (s : t) (x : bytes) : t :=
  mk (Address s) (Topics s) (Data s) (BlockNumber s) x (TxIndex s) (BlockHash s) (Index s) (Removed s).
Definition set_TxIndex (s : t) (x : Z) : t :=
  mk (Address s) (Topics s) (Data s) (BlockNumber s) (TxHash s) x (BlockHash s) (Index s) (Removed s).
Definition set_BlockHash (s : t) (x : bytes) : t :=
  mk (Address s) (Topics s) (Data s) (BlockNumber s) (TxHash s) (TxIndex s) x (Index s) (Removed s).
Definition set_Index (s : t) (x : Z) : t :=
  mk (Address s) (Topics s) (Data s) (BlockNumber s) (TxHash s) (TxIndex s) (BlockHash s) x (Removed s).
Definition set_Removed (s : t) (x : bool) : t :=
  mk (Address s) (Topics s) (Data s) (BlockNumber s) (TxHash s) (TxIndex s) (BlockHash s) (Index s) x.
End Setters.
End Log.

(** ** What the package calls

    Errors of the database are values.  A trie is a value: [TryUpdate] and
    [TryDelete] return the changed one; reading does not change what a trie holds. *)
Class StateLib := {
  Keccak256Hash : bytes -> bytes;
  BytesToHash : bytes -> bytes;
  rlpSplit : bytes -> bytes * option string;
  encodeSlot : bytes -> bytes;
  encodeAccount : Account.t -> bytes + string;
  decodeAccount : bytes -> Account.t + string;
  encodeSlim : SnapAccount.t -> bytes;
  Trie : Type;
  TryGet : Trie -> bytes -> bytes + string;
  TryUpdate : Trie -> bytes -> bytes -> Trie * option string;
  TryDelete : Trie -> bytes -> Trie * option string;
  TrieHash : Trie -> bytes;
  Database : Type;
  OpenTrie : Database -> bytes -> Trie + string;
  OpenStorageTrie : Database -> bytes -> bytes -> Trie + string;
  ContractCode : Database -> bytes -> bytes -> option bytes * option string;
  ContractCodeSize : Database -> bytes -> bytes -> Z * option string;
  WriteCode : Database -> bytes -> bytes -> Database;
  TrieCommit : Database -> Trie -> Database * (bytes + string);
  SnapLayer : Type;
  SnapAccountOf : SnapLayer -> bytes -> option SnapAccount.t + string;
  SnapStorageOf : SnapLayer -> bytes -> bytes -> bytes + string;
  SnapRoot : SnapLayer -> bytes;
  SnapTree : Type;
  SnapOf : SnapTree -> bytes -> option SnapLayer;
  SnapUpdate : SnapTree -> bytes -> bytes -> gset bytes -> gmap bytes bytes ->
    gmap bytes (gmap bytes (option bytes)) -> SnapTree
}.

Definition emptyCodeHash {L : StateLib} : bytes := Keccak256Hash [].

Module stateObject.
Record t {L : StateLib} := mk {
  address : bytes;
  addrHash : bytes;
  data : Account.t;
  dbErr : option string;
  trie : option Trie;
  code : option bytes;
  originStorage : gmap bytes bytes;
  pendingStorage : gmap bytes bytes;
  dirtyStorage : gmap bytes bytes;
  fakeStorage : option (gmap bytes bytes);
  dirtyCode : bool;
  suicided : bool;
  deleted : bool
}.
Arguments t : clear implicits.
Arguments t {L}.

Section Setters.
Context {L : StateLib}.
Definition set_address (s : t) (x : bytes) : t :=
  mk L x (addrHash s) (data s) (dbErr s) (trie s) (code s) (originStorage s) (pendingStorage s)
     (dirtyStorage s) (fakeStorage s) (dirtyCode s) (suicided s) (deleted s).
Definition set_addrHash (s : t) (x : bytes) : t :=
  mk L (address s) x (data s) (dbErr s) (trie s) (code s) (originStorage s) (pendingStorage s)
     (dirtyStorage s) (fakeStorage s) (dirtyCode s) (suicided s) (deleted s).
Definition set_data (s : t) (x : Account.t) : t :=
  mk L (address s) (addrHash s) x (dbErr s) (trie s) (code s) (originStorage s) (pendingStorage s)
     (dirtyStorage s) (fakeStorage s) (dirtyCode s) (suicided s) (deleted s).
Definition set_dbErr (s : t) (x : option string) : t :=
  mk L (address s) (addrHash s) (data s) x (trie s) (code s) (originStorage s) (pendingStorage s)
     (dirtyStorage s) (fakeStorage s) (dirtyCode s) (suicided s) (deleted s).
Definition set_trie (s : t) (x : option Trie) : t :=
  mk L (address s) (addrHash s) (data s) (dbErr s) x (code s) (originStorage s) (pendingStorage s)
     (dirtyStorage s) (fakeStorage s) (dirtyCode s) (suicided s) (deleted s).
Definition set_code (s : t) (x : option bytes) : t :=
  mk L (address s) (addrHash s) (data s) (dbErr s) (trie s) x (originStorage s) (pendingStorage s)
     (dirtyStorage s) (fakeStorage s) (dirtyCode s) (suicided s) (deleted s).
Definition set_originStorage (s : t) (x : gmap bytes bytes) : t :=
  mk L (address s) (addrHash s) (data s) (dbErr s) (trie s) (code s) x (pendingStorage s) (dirtyStorage s)
     (fakeStorage s) (dirtyCode s) (suicided s) (deleted s).
Definition set_pendingStorage (s : t) (x : gmap bytes bytes) : t :=
  mk L (address s) (addrHash s) (data s) (dbErr s) (trie s) (code s) (originStorage s) x (dirtyStorage s)
     (fakeStorage s) (dirtyCode s) (suicided s) (deleted s).
Definition set_dirtyStorage (s : t) (x : gmap bytes bytes) : t :=
  mk L (address s) (addrHash s) (data s) (dbErr s) (trie s) (code s) (originStorage s) (pendingStorage s) x
     (fakeStorage s) (dirtyCode s) (suicided s) (deleted s).
Definition set_fakeStorage (s : t) (x : option (gmap bytes bytes)) : t :=
  mk L (address s) (addrHash s) (data s) (dbErr s) (trie s) (code s) (originStorage s) (pendingStorage s)
     (dirtyStorage s) x (dirtyCode s) (suicided s) (deleted s).
Definition set_dirtyCode (s : t) (x : bool) : t :=
  mk L (address s) (addrHash s) (data s) (dbErr s) (trie s) (code s) (originStorage s) (pendingStorage s)
     (dirtyStorage s) (fakeStorage s) x (suicided s) (deleted s).
Definition set_suicided (s : t) (x : bool) : t :=
  mk L (address s) (addrHash s) (data s) (dbErr s) (trie s) (code s) (originStorage s) (pendingStorage s)
     (dirtyStorage s) (fakeStorage s) (dirtyCode s) x (deleted s).
Definition set_deleted (s : t) (x : bool) : t :=
  mk L (address s) (addrHash s) (data s) (dbErr s) (trie s) (code s) (originStorage s) (pendingStorage s)
     (dirtyStorage s) (fakeStorage s) (dirtyCode s) (suicided s) x.
End Setters.
End stateObject.

(** The entries of the journal; [prev] of [resetObjectChange] is a pointer. *)
Inductive journalEntry :=
| createObjectChange (account : bytes)
| resetObjectChange (prev : nat) (prevdestruct : bool)
| suicideChange (account : bytes) (prev : bool) (prevbalance : Z)
| balanceChange (account : bytes) (prev : Z)
| nonceChange (account : bytes) (prev : Z)
| storageChange (account key prevalue : bytes)
| codeChange (account : bytes) (prevcode prevhash : option bytes)
| refundChange (prev : Z)
| addLogChange (txhash : bytes)
| addPreimageChange (hash : bytes)
| touchChange (account : bytes).

Definition dirtied (e : journalEntry) : option bytes :=
  match e with
  | createObjectChange a | suicideChange a _ _ | touchChange a | balanceChange a _ | nonceChange a _
  | codeChange a _ _ | storageChange a _ _ => Some a
  | resetObjectChange _ _ | refundChange _ | addLogChange _ | addPreimageChange _ => None
  end.

Module journal.
Record t := mk { entries : list journalEntry; dirties : gmap bytes Z }.
Definition newJournal : t := mk [] ∅.
Definition length (j : t) : nat := List.length (entries j).
End journal.

Module revision.
Record t := mk { id : Z; journalIndex : nat }.
End revision.

Module StateDB.
Record t {L : StateLib} := mk {
  db : Database;
  trie : Trie;
  snaps : option SnapTree;
  snap : option SnapLayer;
  snapDestructs : gset bytes;
  snapAccounts : gmap bytes bytes;
  snapStorage : gmap bytes (gmap bytes (option bytes));
  objects : list stateObject.t;
  stateObjects : gmap bytes nat;
  stateObjectsPending : gset bytes;
  stateObjectsDirty : gset bytes;
  dbErr : option string;
  refund : Z;
  thash : bytes;
  bhash : bytes;
  txIndex : Z;
  logs : gmap bytes (list Log.t);
  logSize : Z;
  preimages : gmap bytes bytes;
  journal : journal.t;
  validRevisions : list revision.t;
  nextRevisionId : Z
}.
Arguments t : clear implicits.
Arguments t {L}.

Section Setters.
Context {L : StateLib}.
Definition set_db (s : t) (x : Database) : t :=
  mk L x (trie s) (snaps s) (snap s) (snapDestructs s) (snapAccounts s) (snapStorage s) (objects s)
     (stateObjects s) (stateObjectsPending s) (stateObjectsDirty s) (dbErr s) (refund s) (thash s) (bhash s)
     (txIndex s) (logs s) (logSize s) (preimages s) (journal s) (validRevisions s) (nextRevisionId s).
Definition set_trie (s : t) (x : Trie) : t :=
  mk L (db s) x (snaps s) (snap s) (snapDestructs s) (snapAccounts s) (snapStorage s) (objects s)
     (stateObjects s) (stateObjectsPending s) (stateObjectsDirty s) (dbErr s) (refund s) (thash s) (bhash s)
     (txIndex s) (logs s) (logSize s) (preimages s) (journal s) (validRevisions s) (nextRevisionId s).
Definition set_snaps (s : t) (x : option SnapTree) : t :=
  mk L (db s) (trie s) x (snap s) (snapDestructs s) (snapAccounts s) (snapStorage s) (objects s)
     (stateObjects s) (stateObjectsPending s) (stateObjectsDirty s) (dbErr s) (refund s) (thash s) (bhash s)
     (txIndex s) (logs s) (logSize s) (preimages s) (journal s) (validRevisions s) (nextRevisionId s).
Definition set_snap (s : t) (x : option SnapLayer) : t :=
  mk L (db s) (trie s) (snaps s) x (snapDestructs s) (snapAccounts s) (snapStorage s) (objects s)
     (stateObjects s) (stateObjectsPending s) (stateObjectsDirty s) (dbErr s) (refund s) (thash s) (bhash s)
     (txIndex s) (logs s) (logSize s) (preimages s) (journal s) (validRevisions s) (nextRevisionId s).
Definition set_snapDestructs (s : t) (x : gset bytes) : t :=
  mk L (db s) (trie s) (snaps s) (snap s) x (snapAccounts s) (snapStorage s) (objects s) (stateObjects s)
     (stateObjectsPending s) (stateObjectsDirty s) (dbErr s) (refund s) (thash s) (bhash s) (txIndex s)
     (logs s) (logSize s) (preimages s) (journal s) (validRevisions s) (nextRevisionId s).
Definition set_snapAccounts (s : t) (x : gmap bytes bytes) : t :=
  mk L (db s) (trie s) (snaps s) (snap s) (snapDestructs s) x (snapStorage s) (objects s) (stateObjects s)
     (stateObjectsPending s) (stateObjectsDirty s) (dbErr s) (refund s) (thash s) (bhash s) (txIndex s)
     (logs s) (logSize s) (preimages s) (journal s) (validRevisions s) (nextRevisionId s).
Definition set_snapStorage (s : t) (x : gmap bytes (gmap bytes (option bytes))) : t :=
  mk L (db s) (trie s) (snaps s) (snap s) (snapDestructs s) (snapAccounts s) x (objects s) (stateObjects s)
     (stateObjectsPending s) (stateObjectsDirty s) (dbErr s) (refund s) (thash s) (bhash s) (txIndex s)
     (logs s) (logSize s) (preimages s) (journal s) (validRevisions s) (nextRevisionId s).
Definition set_objects (s : t) (x : list stateObject.t) : t :=
  mk L (db s) (trie s) (snaps s) (snap s) (snapDestructs s) (snapAccounts s) (snapStorage s) x
     (stateObjects s) (stateObjectsPending s) (stateObjectsDirty s) (dbErr s) (refund s) (thash s) (bhash s)
     (txIndex s) (logs s) (logSize s) (preimages s) (journal s) (validRevisions s) (nextRevisionId s).
Definition set_stateObjects (s : t) (x : gmap bytes nat) : t :=
  mk L (db s) (trie s) (snaps s) (snap s) (snapDestructs s) (snapAccounts s) (snapStorage s) (objects s) x
     (stateObjectsPending s) (stateObjectsDirty s) (dbErr s) (refund s) (thash s) (bhash s) (txIndex s)
     (logs s) (logSize s) (preimages s) (journal s) (validRevisions s) (nextRevisionId s).
Definition set_stateObjectsPending (s : t) (x : gset bytes) : t :=
  mk L (db s) (trie s) (snaps s) (snap s) (snapDestructs s) (snapAccounts s) (snapStorage s) (objects s)
     (stateObjects s) x (stateObjectsDirty s) (dbErr s) (refund s) (thash s) (bhash s) (txIndex s) (logs s)
     (logSize s) (preimages s) (journal s) (validRevisions s) (nextRevisionId s).
Definition set_stateObjectsDirty (s : t) (x : gset bytes) : t :=
  mk L (db s) (trie s) (snaps s) (snap s) (snapDestructs s) (snapAccounts s) (snapStorage s) (objects s)
     (stateObjects s) (stateObjectsPending s) x (dbErr s) (refund s) (thash s) (bhash s) (txIndex s)
     (logs s) (logSize s) (preimages s) (journal s) (validRevisions s) (nextRevisionId s).
Definition set_dbErr (s : t) (x : option string) : t :=
  mk L (db s) (trie s) (snaps s) (snap s) (snapDestructs s) (snapAccounts s) (snapStorage s) (objects s)
     (stateObjects s) (stateObjectsPending s) (stateObjectsDirty s) x (refund s) (thash s) (bhash s)
     (txIndex s) (logs s) (logSize s) (preimages s) (journal s) (validRevisions s) (nextRevisionId s).
Definition set_refund (s : t) (x : Z) : t :=
  mk L (db s) (trie s) (snaps s) (snap s) (snapDestructs s) (snapAccounts s) (snapStorage s) (objects s)
     (stateObjects s) (stateObjectsPending s) (stateObjectsDirty s) (dbErr s) x (thash s) (bhash s)
     (txIndex s) (logs s) (logSize s) (preimages s) (journal s) (validRevisions s) (nextRevisionId s).
Definition set_thash (s : t) (x : bytes) : t :=
  mk L (db s) (trie s) (snaps s) (snap s) (snapDestructs s) (snapAccounts s) (snapStorage s) (objects s)
     (stateObjects s) (stateObjectsPending s) (stateObjectsDirty s) (dbErr s) (refund s) x (bhash s)
     (txIndex s) (logs s) (logSize s) (preimages s) (journal s) (validRevisions s) (nextRevisionId s).
Definition set_bhash (s : t) (x : bytes) : t :=
  mk L (db s) (trie s) (snaps s) (snap s) (snapDestructs s) (snapAccounts s) (snapStorage s) (objects s)
     (stateObjects s) (stateObjectsPending s) (stateObjectsDirty s) (dbErr s) (refund s) (thash s) x
     (txIndex s) (logs s) (logSize s) (preimages s) (journal s) (validRevisions s) (nextRevisionId s).
Definition set_txIndex (s : t) (x : Z) : t :=
  mk L (db s) (trie s) (snaps s) (snap s) (snapDestructs s) (snapAccounts s) (snapStorage s) (objects s)
     (stateObjects s) (stateObjectsPending s) (stateObjectsDirty s) (dbErr s) (refund s) (thash s) (bhash s)
     x (logs s) (logSize s) (preimages s) (journal s) (validRevisions s) (nextRevisionId s).
Definition set_logs (s : t) (x : gmap bytes (list Log.t)) : t :=
  mk L (db s) (trie s) (snaps s) (snap s) (snapDestructs s) (snapAccounts s) (snapStorage s) (objects s)
     (stateObjects s) (stateObjectsPending s) (stateObjectsDirty s) (dbErr s) (refund s) (thash s) (bhash s)
     (txIndex s) x (logSize s) (preimages s) (journal s) (validRevisions s) (nextRevisionId s).
Definition set_logSize (s : t) (x : Z) : t :=
  mk L (db s) (trie s) (snaps s) (snap s) (snapDestructs s) (snapAccounts s) (snapStorage s) (objects s)
     (stateObjects s) (stateObjectsPending s) (stateObjectsDirty s) (dbErr s) (refund s) (thash s) (bhash s)
     (txIndex s) (logs s) x (preimages s) (journal s) (validRevisions s) (nextRevisionId s).
Definition set_preimages (s : t) (x : gmap bytes bytes) : t :=
  mk L (db s) (trie s) (snaps s) (snap s) (snapDestructs s) (snapAccounts s) (snapStorage s) (objects s)
     (stateObjects s) (stateObjectsPending s) (stateObjectsDirty s) (dbErr s) (refund s) (thash s) (bhash s)
     (txIndex s) (logs s) (logSize s) x (journal s) (validRevisions s) (nextRevisionId s).
Definition set_journal (s : t) (x : journal.t) : t :=
  mk L (db s) (trie s) (snaps s) (snap s) (snapDestructs s) (snapAccounts s) (snapStorage s) (objects s)
     (stateObjects s) (stateObjectsPending s) (stateObjectsDirty s) (dbErr s) (refund s) (thash s) (bhash s)
     (txIndex s) (logs s) (logSize s) (preimages s) x (validRevisions s) (nextRevisionId s).
Definition set_validRevisions (s : t) (x : list revision.t) : t :=
  mk L (db s) (trie s) (snaps s) (snap s) (snapDestructs s) (snapAccounts s) (snapStorage s) (objects s)
     (stateObjects s) (stateObjectsPending s) (stateObjectsDirty s) (dbErr s) (refund s) (thash s) (bhash s)
     (txIndex s) (logs s) (logSize s) (preimages s) (journal s) x (nextRevisionId s).
Definition set_nextRevisionId (s : t) (x : Z) : t :=
  mk L (db s) (trie s) (snaps s) (snap s) (snapDestructs s) (snapAccounts s) (snapStorage s) (objects s)
     (stateObjects s) (stateObjectsPending s) (stateObjectsDirty s) (dbErr s) (refund s) (thash s) (bhash s)
     (txIndex s) (logs s) (logSize s) (preimages s) (journal s) (validRevisions s) x.
End Setters.
End StateDB.

(** ** The operations *)

Module state.
Abbreviation M := (ST StateDB.t).

Section Ops.
Context {L : StateLib}.
Implicit Types (a key value : bytes) (p : nat) (o : stateObject.t).

(** *** Objects in the heap *)

Definition deref p : M stateObject.t := o ← gets (fun s => StateDB.objects s !! p); nonNil o.

Definition update p (f : stateObject.t -> stateObject.t) : M unit :=
  modify (fun s => StateDB.set_objects s (alter f p (StateDB.objects s))).

Definition alloc o : M nat :=
  p ← gets (fun s => length (StateDB.objects s));
  modify (fun s => StateDB.set_objects s (StateDB.objects s ++ [o]));;
  mret p.

Definition newObject a (data : Account.t) : stateObject.t :=
  let data := match Account.CodeHash data with None => Account.set_CodeHash data (Some emptyCodeHash) | Some _ => data end in
  let data := if bool_decide (Account.Root data = zeroHash) then Account.set_Root data emptyRoot else data in
  stateObject.mk L a (Keccak256Hash a) data None None None ∅ ∅ ∅ None false false false.

(** [empty] of an object. *)
Definition objEmpty o : bool :=
  (Account.Nonce (stateObject.data o) =? 0) && (Account.Balance (stateObject.data o) =? 0) &&
  bytes_equal (goBytes (Account.CodeHash (stateObject.data o))) emptyCodeHash.

(** *** The journal *)

Definition bump a (m : gmap bytes Z) : gmap bytes Z := <[a := default 0 (m !! a) + 1]> m.

Definition journalAppend (e : journalEntry) : M unit :=
  modify (fun s => let j := StateDB.journal s in
    StateDB.set_journal s (journal.mk (journal.entries j ++ [e])
      (match dirtied e with Some a => bump a (journal.dirties j) | None => journal.dirties j end))).

Definition journalDirty a : M unit :=
  modify (fun s => let j := StateDB.journal s in
    StateDB.set_journal s (journal.mk (journal.entries j) (bump a (journal.dirties j)))).

(** [j.dirties[*addr]--], and the entry goes when it reaches zero. *)
Definition undirty (e : journalEntry) : M unit :=
  match dirtied e with
  | None => mret tt
  | Some a =>
      modify (fun s => let j := StateDB.journal s in
        let n := default 0 (journal.dirties j !! a) - 1 in
        StateDB.set_journal s (journal.mk (journal.entries j)
          (if n =? 0 then delete a (journal.dirties j) else <[a := n]> (journal.dirties j))))
  end.

(** *** Errors of the database, the first one is kept *)

Definition firstErr (old new : option string) : option string :=
  match old with None => new | Some _ => old end.

Definition setError (err : option string) : M unit :=
  modify (fun s => StateDB.set_dbErr s (firstErr (StateDB.dbErr s) err)).

Definition objSetError p (err : option string) : M unit :=
  update p (fun o => stateObject.set_dbErr o (firstErr (stateObject.dbErr o) err)).

(** *** Loading objects *)

(** The account as the trie has it, and the error to remember. *)
Definition trieAccount (s : StateDB.t) a : option Account.t * option string :=
  match TryGet (StateDB.trie s) a with
  | inr err => (None, Some ("getDeleteStateObject error: " +:+ err))
  | inl enc =>
      if bool_decide (enc = []) then (None, None)
      else match decodeAccount enc with
           | inl acc => (Some acc, None)
           | inr _ => (None, None)
           end
  end.

Definition fromSnap (acc : SnapAccount.t) : Account.t :=
  let hash := SnapAccount.CodeHash acc in
  let root := BytesToHash (SnapAccount.Root acc) in
  Account.mk (SnapAccount.Nonce acc) (SnapAccount.Balance acc)
    (if bool_decide (root = zeroHash) then emptyRoot else root)
    (Some (if bool_decide (hash = []) then emptyCodeHash else hash)).

(** The data of an account without a live object. *)
Definition loadAccount (s : StateDB.t) a : option Account.t * option string :=
  match StateDB.snap s with
  | None => trieAccount s a
  | Some layer =>
      match SnapAccountOf layer (Keccak256Hash a) with
      | inl None => (None, None)
      | inl (Some acc) => (Some (fromSnap acc), None)
      | inr _ => trieAccount s a
      end
  end.

Definition setStateObject p : M unit :=
  o ← deref p;
  modify (fun s => StateDB.set_stateObjects s (<[stateObject.address o := p]> (StateDB.stateObjects s))).

Definition getDeletedStateObject a : M (option nat) :=
  live ← gets (fun s => StateDB.stateObjects s !! a);
  match live with
  | Some p => mret (Some p)
  | None =>
      r ← gets (fun s => loadAccount s a);
      match r with
      | (Some data, _) =>
          p ← alloc (newObject a data);
          setStateObject p;;
          mret (Some p)
      | (None, err) => setError err;; mret None
      end
  end.

Definition getStateObject a : M (option nat) :=
  r ← getDeletedStateObject a;
  match r with
  | None => mret None
  | Some p => o ← deref p; mret (if stateObject.deleted o then None else Some p)
  end.

(** The new object, and the old one if there was one that is not deleted. *)
Definition createObject a : M (nat * option nat) :=
  prev ← getDeletedStateObject a;
  hash ← match prev with None => mret None | Some p => o ← deref p; mret (Some (stateObject.addrHash o)) end;
  snap ← gets StateDB.snap;
  prevdestruct ← match snap, hash with
    | Some _, Some h =>
        d ← gets (fun s => bool_decide (h ∈ StateDB.snapDestructs s));
        when (negb d) (modify (fun s => StateDB.set_snapDestructs s ({[h]} ∪ StateDB.snapDestructs s)));;
        mret d
    | _, _ => mret false
    end;
  p ← alloc (newObject a (Account.mk 0 0 zeroHash None));
  match prev with
  | None => journalAppend (createObjectChange a)
  | Some q => journalAppend (resetObjectChange q prevdestruct)
  end;;
  setStateObject p;;
  match prev with
  | None => mret (p, None)
  | Some q => o ← deref q; mret (p, if stateObject.deleted o then None else Some q)
  end.

Definition GetOrNewStateObject a : M nat :=
  r ← getStateObject a;
  match r with
  | Some p => mret p
  | None => x ← createObject a; mret x.1
  end.

Definition setBalance p (amount : Z) : M unit :=
  update p (fun o => stateObject.set_data o (Account.set_Balance (stateObject.data o) amount)).

Definition setNonce p (nonce : Z) : M unit :=
  update p (fun o => stateObject.set_data o (Account.set_Nonce (stateObject.data o) nonce)).

Definition setState p key value : M unit :=
  update p (fun o => stateObject.set_dirtyStorage o (<[key := value]> (stateObject.dirtyStorage o))).

Definition setCode p (hash : bytes) (code : option bytes) : M unit :=
  update p (fun o => stateObject.set_dirtyCode (stateObject.set_data (stateObject.set_code o code)
    (Account.set_CodeHash (stateObject.data o) (Some hash))) true).

Definition CreateAccount a : M unit :=
  r ← createObject a;
  match r.2 with
  | None => mret tt
  | Some q => o ← deref q; setBalance r.1 (Account.Balance (stateObject.data o))
  end.

(** *** Storage and code of an object *)

(** [getTrie]: nil when even the empty trie cannot be opened. *)
Definition getTrie p : M (option Trie) :=
  o ← deref p;
  match stateObject.trie o with
  | Some tr => mret (Some tr)
  | None =>
      db ← gets StateDB.db;
      match OpenStorageTrie db (stateObject.addrHash o) (Account.Root (stateObject.data o)) with
      | inl tr => update p (fun o => stateObject.set_trie o (Some tr));; mret (Some tr)
      | inr err =>
          let tr := match OpenStorageTrie db (stateObject.addrHash o) zeroHash with inl tr => Some tr | inr _ => None end in
          update p (fun o => stateObject.set_trie o tr);;
          objSetError p (Some ("can't create storage trie: " +:+ err));;
          mret tr
      end
  end.

(** The value in an encoded slot is kept in [originStorage]. *)
Definition cacheSlot p key (enc : bytes) : M bytes :=
  let r := rlpSplit enc in
  let value := if bool_decide (enc = []) then zeroHash else BytesToHash r.1 in
  when (negb (bool_decide (enc = []))) (objSetError p r.2);;
  update p (fun o => stateObject.set_originStorage o (<[key := value]> (stateObject.originStorage o)));;
  mret value.

Definition readSlot p key : M bytes :=
  r ← getTrie p;
  tr ← nonNil r;
  match TryGet tr key with
  | inr err => objSetError p (Some err);; mret zeroHash
  | inl enc => cacheSlot p key enc
  end.

Definition objGetCommittedState p key : M bytes :=
  o ← deref p;
  match stateObject.fakeStorage o, stateObject.pendingStorage o !! key, stateObject.originStorage o !! key with
  | Some fake, _, _ => mret (default zeroHash (fake !! key))
  | None, Some value, _ => mret value
  | None, None, Some value => mret value
  | None, None, None =>
      snap ← gets StateDB.snap;
      match snap with
      | None => readSlot p key
      | Some layer =>
          destructed ← gets (fun s => bool_decide (stateObject.addrHash o ∈ StateDB.snapDestructs s));
          if (destructed : bool) then mret zeroHash
          else match SnapStorageOf layer (stateObject.addrHash o) (Keccak256Hash key) with
               | inl enc => cacheSlot p key enc
               | inr _ => readSlot p key
               end
      end
  end.

Definition objGetState p key : M bytes :=
  o ← deref p;
  match stateObject.fakeStorage o, stateObject.dirtyStorage o !! key with
  | Some fake, _ => mret (default zeroHash (fake !! key))
  | None, Some value => mret value
  | None, None => objGetCommittedState p key
  end.

Definition objSetState p key value : M unit :=
  o ← deref p;
  match stateObject.fakeStorage o with
  | Some fake => update p (fun o => stateObject.set_fakeStorage o (Some (<[key := value]> fake)))
  | None =>
      prev ← objGetState p key;
      if bool_decide (prev = value) then mret tt
      else journalAppend (storageChange (stateObject.address o) key prev);; setState p key value
  end.

Definition objSetStorage p (storage : gmap bytes bytes) : M unit :=
  update p (fun o => stateObject.set_fakeStorage o (Some (storage ∪ default ∅ (stateObject.fakeStorage o)))).

Definition objCode p : M (option bytes) :=
  o ← deref p;
  match stateObject.code o with
  | Some code => mret (Some code)
  | None =>
      if bytes_equal (goBytes (Account.CodeHash (stateObject.data o))) emptyCodeHash then mret None
      else
        db ← gets StateDB.db;
        let r := ContractCode db (stateObject.addrHash o) (BytesToHash (goBytes (Account.CodeHash (stateObject.data o)))) in
        match r.2 with Some err => objSetError p (Some ("can't load code hash: " +:+ err)) | None => mret tt end;;
        update p (fun o => stateObject.set_code o r.1);;
        mret r.1
  end.

Definition objCodeSize p : M Z :=
  o ← deref p;
  match stateObject.code o with
  | Some code => mret (zlen code)
  | None =>
      if bytes_equal (goBytes (Account.CodeHash (stateObject.data o))) emptyCodeHash then mret 0
      else
        db ← gets StateDB.db;
        let r := ContractCodeSize db (stateObject.addrHash o) (BytesToHash (goBytes (Account.CodeHash (stateObject.data o)))) in
        match r.2 with Some err => objSetError p (Some ("can't load code size: " +:+ err)) | None => mret tt end;;
        mret r.1
  end.

Definition objSetCode p (hash : bytes) (code : option bytes) : M unit :=
  prevcode ← objCode p;
  o ← deref p;
  journalAppend (codeChange (stateObject.address o) prevcode (Account.CodeHash (stateObject.data o)));;
  setCode p hash code.

(** *** Balance and nonce of an object *)

Definition touch p : M unit :=
  o ← deref p;
  journalAppend (touchChange (stateObject.address o));;
  when (bool_decide (stateObject.address o = ripemd)) (journalDirty (stateObject.address o)).

Definition objSetBalance p (amount : Z) : M unit :=
  o ← deref p;
  journalAppend (balanceChange (stateObject.address o) (Account.Balance (stateObject.data o)));;
  setBalance p amount.

Definition objAddBalance p (amount : Z) : M unit :=
  o ← deref p;
  if amount =? 0 then when (objEmpty o) (touch p)
  else objSetBalance p (Account.Balance (stateObject.data o) + amount).

Definition objSubBalance p (amount : Z) : M unit :=
  o ← deref p;
  if amount =? 0 then mret tt
  else objSetBalance p (Account.Balance (stateObject.data o) - amount).

Definition objSetNonce p (nonce : Z) : M unit :=
  o ← deref p;
  journalAppend (nonceChange (stateObject.address o) (Account.Nonce (stateObject.data o)));;
  setNonce p nonce.

(** *** Getters of the database *)

(** What a getter returns for the object of [a], or [d] when there is none. *)
Definition withObject {A} a (d : A) (f : nat -> M A) : M A :=
  r ← getStateObject a;
  match r with None => mret d | Some p => f p end.

Definition Exist a : M bool := withObject a false (fun _ => mret true).
Definition Empty a : M bool := withObject a true (fun p => o ← deref p; mret (objEmpty o)).
Definition GetBalance a : M Z := withObject a 0 (fun p => o ← deref p; mret (Account.Balance (stateObject.data o))).
Definition GetNonce a : M Z := withObject a 0 (fun p => o ← deref p; mret (Account.Nonce (stateObject.data o))).
Definition GetCode a : M (option bytes) := withObject a None objCode.
Definition GetCodeSize a : M Z := withObject a 0 objCodeSize.
Definition GetCodeHash a : M bytes :=
  withObject a zeroHash (fun p => o ← deref p; mret (BytesToHash (goBytes (Account.CodeHash (stateObject.data o))))).
Definition GetState a key : M bytes := withObject a zeroHash (fun p => objGetState p key).
Definition GetCommittedState a key : M bytes := withObject a zeroHash (fun p => objGetCommittedState p key).
Definition HasSuicided a : M bool := withObject a false (fun p => o ← deref p; mret (stateObject.suicided o)).
Definition GetRefund : M Z := gets StateDB.refund.
Definition GetLogs (hash : bytes) : M (list Log.t) := gets (fun s => default [] (StateDB.logs s !! hash)).
Definition Preimages : M (gmap bytes bytes) := gets StateDB.preimages.
Definition Error : M (option string) := gets StateDB.dbErr.

(** *** Setters of the database *)

Definition AddBalance a (amount : Z) : M unit := p ← GetOrNewStateObject a; objAddBalance p amount.
Definition SubBalance a (amount : Z) : M unit := p ← GetOrNewStateObject a; objSubBalance p amount.
Definition SetBalance a (amount : Z) : M unit := p ← GetOrNewStateObject a; objSetBalance p amount.
Definition SetNonce a (nonce : Z) : M unit := p ← GetOrNewStateObject a; objSetNonce p nonce.
Definition SetCode a (code : option bytes) : M unit :=
  p ← GetOrNewStateObject a; objSetCode p (Keccak256Hash (goBytes code)) code.
Definition SetState a key value : M unit := p ← GetOrNewStateObject a; objSetState p key value.
Definition SetStorage a (storage : gmap bytes bytes) : M unit := p ← GetOrNewStateObject a; objSetStorage p storage.

Definition Suicide a : M bool :=
  withObject a false (fun p =>
    o ← deref p;
    journalAppend (suicideChange a (stateObject.suicided o) (Account.Balance (stateObject.data o)));;
    update p (fun o => stateObject.set_suicided o true);;
    setBalance p 0;;
    mret true).

Definition AddLog (log : Log.t) : M unit :=
  thash ← gets StateDB.thash;
  journalAppend (addLogChange thash);;
  modify (fun s =>
    let log := Log.set_TxHash log thash in
    let log := Log.set_BlockHash log (StateDB.bhash s) in
    let log := Log.set_TxIndex log (u64 (StateDB.txIndex s)) in
    let log := Log.set_Index log (StateDB.logSize s) in
    let s := StateDB.set_logs s (<[thash := default [] (StateDB.logs s !! thash) ++ [log]]> (StateDB.logs s)) in
    StateDB.set_logSize s (u64 (StateDB.logSize s + 1))).

Definition AddPreimage (hash preimage : bytes) : M unit :=
  known ← gets (fun s => StateDB.preimages s !! hash);
  match known with
  | Some _ => mret tt
  | None =>
      journalAppend (addPreimageChange hash);;
      modify (fun s => StateDB.set_preimages s (<[hash := preimage]> (StateDB.preimages s)))
  end.

Definition AddRefund (gas : Z) : M unit :=
  refund ← gets StateDB.refund;
  journalAppend (refundChange refund);;
  modify (fun s => StateDB.set_refund s (u64 (refund + gas))).

Definition SubRefund (gas : Z) : M unit :=
  refund ← gets StateDB.refund;
  journalAppend (refundChange refund);;
  if refund <? gas then panic "Refund counter below zero"
  else modify (fun s => StateDB.set_refund s (refund - gas)).

Definition Prepare (thash bhash : bytes) (ti : Z) : M unit :=
  modify (fun s => StateDB.set_txIndex (StateDB.set_bhash (StateDB.set_thash s thash) bhash) ti).

(** *** Snapshots *)

Definition onObject a (f : nat -> M unit) : M unit :=
  r ← getStateObject a;
  p ← nonNil r;
  f p.

Definition revertEntry (e : journalEntry) : M unit :=
  match e with
  | createObjectChange a =>
      modify (fun s => StateDB.set_stateObjects s (delete a (StateDB.stateObjects s)));;
      modify (fun s => StateDB.set_stateObjectsDirty s (StateDB.stateObjectsDirty s ∖ {[a]}))
  | resetObjectChange p prevdestruct =>
      setStateObject p;;
      o ← deref p;
      snap ← gets StateDB.snap;
      when (negb prevdestruct && bool_decide (is_Some snap))
        (modify (fun s => StateDB.set_snapDestructs s (StateDB.snapDestructs s ∖ {[stateObject.addrHash o]})))
  | suicideChange a prev prevbalance =>
      withObject a tt (fun p => update p (fun o => stateObject.set_suicided o prev);; setBalance p prevbalance)
  | balanceChange a prev => onObject a (fun p => setBalance p prev)
  | nonceChange a prev => onObject a (fun p => setNonce p prev)
  | storageChange a key prevalue => onObject a (fun p => setState p key prevalue)
  | codeChange a prevcode prevhash => onObject a (fun p => setCode p (BytesToHash (goBytes prevhash)) prevcode)
  | refundChange prev => modify (fun s => StateDB.set_refund s prev)
  | addLogChange txhash =>
      l ← gets (fun s => default [] (StateDB.logs s !! txhash));
      match l with
      | [] => panic "slice bounds out of range"
      | [_] => modify (fun s => StateDB.set_logs s (delete txhash (StateDB.logs s)))
      | _ => modify (fun s => StateDB.set_logs s (<[txhash := take (length l - 1) l]> (StateDB.logs s)))
      end;;
      modify (fun s => StateDB.set_logSize s (u64 (StateDB.logSize s - 1)))
  | addPreimageChange hash => modify (fun s => StateDB.set_preimages s (delete hash (StateDB.preimages s)))
  | touchChange _ => mret tt
  end.

(** The entries from the index on are undone, the last one first. *)
Definition journalRevert (snapshot : nat) : M unit :=
  entries ← gets (fun s => journal.entries (StateDB.journal s));
  each (fun e => revertEntry e;; undirty e) (reverse (drop snapshot entries));;
  if Nat.ltb (length entries) snapshot then panic "slice bounds out of range"
  else modify (fun s => StateDB.set_journal s (journal.mk (take snapshot entries) (journal.dirties (StateDB.journal s)))).

Definition Snapshot : M Z :=
  id ← gets StateDB.nextRevisionId;
  modify (fun s => StateDB.set_nextRevisionId s (id + 1));;
  modify (fun s => StateDB.set_validRevisions s
    (StateDB.validRevisions s ++ [revision.mk id (journal.length (StateDB.journal s))]));;
  mret id.

Definition RevertToSnapshot (revid : Z) : M unit :=
  revs ← gets StateDB.validRevisions;
  idx ← lift (sortSearch (zlen revs) (fun i => let! r := slice_get revs i in Ret (revid <=? revision.id r)));
  if idx =? zlen revs then panic "revision id cannot be reverted"
  else
    r ← lift (slice_get revs idx);
    if negb (revision.id r =? revid) then panic "revision id cannot be reverted"
    else
      journalRevert (revision.journalIndex r);;
      modify (fun s => StateDB.set_validRevisions s (take (Z.to_nat idx) (StateDB.validRevisions s))).

(** *** The end of a transaction *)

Definition clearJournalAndRefund : M unit :=
  n ← gets (fun s => journal.length (StateDB.journal s));
  when (Nat.ltb 0 n)
    (modify (fun s => StateDB.set_refund (StateDB.set_journal s journal.newJournal) 0));;
  modify (fun s => StateDB.set_validRevisions s []).

Definition objFinalise p : M unit :=
  update p (fun o => stateObject.set_dirtyStorage
    (stateObject.set_pendingStorage o (stateObject.dirtyStorage o ∪ stateObject.pendingStorage o)) ∅).

(** The object goes away: the snapshot layers must know. *)
Definition markDeleted p : M unit :=
  update p (fun o => stateObject.set_deleted o true);;
  o ← deref p;
  snap ← gets StateDB.snap;
  when (bool_decide (is_Some snap)) (
    modify (fun s => StateDB.set_snapDestructs s ({[stateObject.addrHash o]} ∪ StateDB.snapDestructs s));;
    modify (fun s => StateDB.set_snapAccounts s (delete (stateObject.addrHash o) (StateDB.snapAccounts s)));;
    modify (fun s => StateDB.set_snapStorage s (delete (stateObject.addrHash o) (StateDB.snapStorage s)))).

Definition finaliseOne (deleteEmptyObjects : bool) a : M unit :=
  live ← gets (fun s => StateDB.stateObjects s !! a);
  match live with
  | None => mret tt
  | Some p =>
      o ← deref p;
      (if stateObject.suicided o || deleteEmptyObjects && objEmpty o then markDeleted p else objFinalise p);;
      modify (fun s => StateDB.set_stateObjectsPending s ({[a]} ∪ StateDB.stateObjectsPending s));;
      modify (fun s => StateDB.set_stateObjectsDirty s ({[a]} ∪ StateDB.stateObjectsDirty s))
  end.

Definition Finalise (deleteEmptyObjects : bool) : M unit :=
  dirties ← gets (fun s => journal.dirties (StateDB.journal s));
  each (finaliseOne deleteEmptyObjects) (elements (dom dirties));;
  clearJournalAndRefund.

(** *** Writing to the tries *)

(** One pending slot goes into the trie of the object and, when there is a
    snapshot, into the storage that the next layer gets. *)
Definition writeSlot p (kv : bytes * bytes) : M unit :=
  let (key, value) := kv in
  o ← deref p;
  if bool_decide (value = default zeroHash (stateObject.originStorage o !! key)) then mret tt
  else
    update p (fun o => stateObject.set_originStorage o (<[key := value]> (stateObject.originStorage o)));;
    tr ← nonNil (stateObject.trie o);
    (if bool_decide (value = zeroHash) then
       let r := TryDelete tr key in
       update p (fun o => stateObject.set_trie o (Some r.1));; objSetError p r.2
     else
       let r := TryUpdate tr key (encodeSlot value) in
       update p (fun o => stateObject.set_trie o (Some r.1));; objSetError p r.2);;
    snap ← gets StateDB.snap;
    let v := if bool_decide (value = zeroHash) then None else Some (encodeSlot value) in
    when (bool_decide (is_Some snap))
      (modify (fun s => StateDB.set_snapStorage s
        (<[stateObject.addrHash o := <[Keccak256Hash key := v]> (default ∅ (StateDB.snapStorage s !! stateObject.addrHash o))]>
          (StateDB.snapStorage s)))).

Definition updateTrie p : M (option Trie) :=
  objFinalise p;;
  o ← deref p;
  if bool_decide (stateObject.pendingStorage o = ∅) then mret (stateObject.trie o)
  else
    snap ← gets StateDB.snap;
    when (bool_decide (is_Some snap))
      (modify (fun s => StateDB.set_snapStorage s
        (<[stateObject.addrHash o := default ∅ (StateDB.snapStorage s !! stateObject.addrHash o)]> (StateDB.snapStorage s))));;
    getTrie p;;
    each (writeSlot p) (map_to_list (stateObject.pendingStorage o));;
    update p (fun o => stateObject.set_pendingStorage o ∅);;
    o ← deref p;
    mret (stateObject.trie o).

Definition updateRoot p : M unit :=
  r ← updateTrie p;
  match r with
  | None => mret tt
  | Some tr => update p (fun o => stateObject.set_data o (Account.set_Root (stateObject.data o) (TrieHash tr)))
  end.

Definition CommitTrie p : M (option string) :=
  r ← updateTrie p;
  match r with
  | None => mret None
  | Some tr =>
      o ← deref p;
      match stateObject.dbErr o with
      | Some err => mret (Some err)
      | None =>
          db ← gets StateDB.db;
          let (db', res) := TrieCommit db tr in
          modify (fun s => StateDB.set_db s db');;
          match res with
          | inl root => update p (fun o => stateObject.set_data o (Account.set_Root (stateObject.data o) root));; mret None
          | inr err => mret (Some err)
          end
      end
  end.

Definition SlimAccountRLP (acc : Account.t) : bytes :=
  encodeSlim (SnapAccount.mk (Account.Nonce acc) (Account.Balance acc)
    (if bool_decide (Account.Root acc = emptyRoot) then [] else Account.Root acc)
    (if bytes_equal (goBytes (Account.CodeHash acc)) emptyCodeHash then [] else goBytes (Account.CodeHash acc))).

Definition updateStateObject p : M unit :=
  o ← deref p;
  match encodeAccount (stateObject.data o) with
  | inr err => panic ("can't encode object: " +:+ err)
  | inl enc =>
      tr ← gets StateDB.trie;
      let r := TryUpdate tr (stateObject.address o) enc in
      modify (fun s => StateDB.set_trie s r.1);;
      match r.2 with Some err => setError (Some ("updateStateObject error: " +:+ err)) | None => mret tt end;;
      snap ← gets StateDB.snap;
      when (bool_decide (is_Some snap))
        (modify (fun s => StateDB.set_snapAccounts s
          (<[stateObject.addrHash o := SlimAccountRLP (stateObject.data o)]> (StateDB.snapAccounts s))))
  end.

Definition deleteStateObject p : M unit :=
  o ← deref p;
  tr ← gets StateDB.trie;
  let r := TryDelete tr (stateObject.address o) in
  modify (fun s => StateDB.set_trie s r.1);;
  match r.2 with Some err => setError (Some ("deleteStateObject error: " +:+ err)) | None => mret tt end.

Definition writeObject a : M unit :=
  live ← gets (fun s => StateDB.stateObjects s !! a);
  p ← nonNil live;
  o ← deref p;
  if stateObject.deleted o then deleteStateObject p else updateRoot p;; updateStateObject p.

Definition IntermediateRoot (deleteEmptyObjects : bool) : M bytes :=
  Finalise deleteEmptyObjects;;
  pending ← gets StateDB.stateObjectsPending;
  each writeObject (elements pending);;
  modify (fun s => StateDB.set_stateObjectsPending s ∅);;
  gets (fun s => TrieHash (StateDB.trie s)).

(** The objects of the list are committed until one fails; the codes collected
    on the way are written only when none does. *)
Fixpoint commitObjects (l : list bytes) (codes : list (bytes * bytes)) : M (list (bytes * bytes) + string) :=
  match l with
  | [] => mret (inl codes)
  | a :: l' =>
      live ← gets (fun s => StateDB.stateObjects s !! a);
      p ← nonNil live;
      o ← deref p;
      if stateObject.deleted o then commitObjects l' codes
      else
        let codes' := match stateObject.code o with
          | Some code => if stateObject.dirtyCode o
              then codes ++ [(BytesToHash (goBytes (Account.CodeHash (stateObject.data o))), code)] else codes
          | None => codes
          end in
        when (bool_decide (is_Some (stateObject.code o)) && stateObject.dirtyCode o)
          (update p (fun o => stateObject.set_dirtyCode o false));;
        err ← CommitTrie p;
        match err with
        | Some err => mret (inr err)
        | None => commitObjects l' codes'
        end
  end.

(** The layers that [Commit] leaves: a new one when the root changed. *)
Definition commitSnaps (root : bytes) : M unit :=
  snap ← gets StateDB.snap;
  match snap with
  | None => mret tt
  | Some layer =>
      when (negb (bool_decide (SnapRoot layer = root)))
        (modify (fun s => StateDB.set_snaps s
          (tree ← StateDB.snaps s;
           Some (SnapUpdate tree root (SnapRoot layer) (StateDB.snapDestructs s) (StateDB.snapAccounts s) (StateDB.snapStorage s)))));;
      modify (fun s => StateDB.set_snapStorage (StateDB.set_snapAccounts (StateDB.set_snapDestructs
        (StateDB.set_snap s None) ∅) ∅) ∅)
  end.

(** The root, or the error that aborts. *)
Definition Commit (deleteEmptyObjects : bool) : M (bytes + string) :=
  err ← gets StateDB.dbErr;
  match err with
  | Some err => mret (inr ("commit aborted due to earlier error: " +:+ err))
  | None =>
      IntermediateRoot deleteEmptyObjects;;
      dirty ← gets StateDB.stateObjectsDirty;
      r ← commitObjects (elements dirty) [];
      match r with
      | inr err => mret (inr err)
      | inl codes =>
          modify (fun s => StateDB.set_stateObjectsDirty s ∅);;
          modify (fun s => StateDB.set_db s (foldl (fun db c => WriteCode db c.1 c.2) (StateDB.db s) codes));;
          db ← gets StateDB.db;
          tr ← gets StateDB.trie;
          let (db', res) := TrieCommit db tr in
          modify (fun s => StateDB.set_db s db');;
          commitSnaps (match res with inl root => root | inr _ => zeroHash end);;
          mret res
      end
  end.

(** *** New databases and copies *)

(** [New] and [Reset] start from the snapshot layer of the root, if there is one. *)
Definition New (root : bytes) (db : Database) (snaps : option SnapTree) : StateDB.t + string :=
  match OpenTrie db root with
  | inr err => inr err
  | inl tr => inl (StateDB.mk L db tr snaps (tree ← snaps; SnapOf tree root) ∅ ∅ ∅ [] ∅ ∅ ∅ None 0 zeroHash zeroHash 0 ∅ 0 ∅
      journal.newJournal [] 0)
  end.

Definition Reset (root : bytes) : M (option string) :=
  db ← gets StateDB.db;
  match OpenTrie db root with
  | inr err => mret (Some err)
  | inl tr =>
      modify (fun s => StateDB.set_trie s tr);;
      modify (fun s => StateDB.set_stateObjectsDirty (StateDB.set_stateObjectsPending (StateDB.set_stateObjects s ∅) ∅) ∅);;
      modify (fun s => StateDB.set_txIndex (StateDB.set_bhash (StateDB.set_thash s zeroHash) zeroHash) 0);;
      modify (fun s => StateDB.set_preimages (StateDB.set_logSize (StateDB.set_logs s ∅) 0) ∅);;
      clearJournalAndRefund;;
      snaps ← gets StateDB.snaps;
      match snaps with
      | None => mret tt
      | Some tree =>
          modify (fun s => StateDB.set_snapStorage (StateDB.set_snapDestructs (StateDB.set_snapAccounts s ∅) ∅) ∅);;
          modify (fun s => StateDB.set_snap s (SnapOf tree root))
      end;;
      mret None
  end.

Definition deepCopy o : stateObject.t :=
  let n := newObject (stateObject.address o) (stateObject.data o) in
  stateObject.mk L (stateObject.address n) (stateObject.addrHash n) (stateObject.data n) None (stateObject.trie o)
    (stateObject.code o) (stateObject.originStorage o) (stateObject.pendingStorage o) (stateObject.dirtyStorage o) None
    (stateObject.dirtyCode o) (stateObject.suicided o) (stateObject.deleted o).

(** [StorageTrie] works on a copy of the object that belongs to the same database. *)
Definition StorageTrie a : M (option Trie) :=
  withObject a None (fun p =>
    o ← deref p;
    q ← alloc (deepCopy o);
    updateTrie q;;
    getTrie q).

(** [state.stateObjects[addr] = s.stateObjects[addr].deepCopy(state)], in the copy. *)
Definition copyObject (s : StateDB.t) a : M unit :=
  p ← nonNil (StateDB.stateObjects s !! a);
  o ← nonNil (StateDB.objects s !! p);
  q ← alloc (deepCopy o);
  modify (fun st => StateDB.set_stateObjects st (<[a := q]> (StateDB.stateObjects st))).

Definition copyDirty (s : StateDB.t) a : M unit :=
  match StateDB.stateObjects s !! a with
  | None => mret tt
  | Some _ =>
      copyObject s a;;
      modify (fun st => StateDB.set_stateObjectsDirty st ({[a]} ∪ StateDB.stateObjectsDirty st));;
      modify (fun st => StateDB.set_stateObjectsPending st ({[a]} ∪ StateDB.stateObjectsPending st))
  end.

Definition copyMissing (s : StateDB.t) a : M unit :=
  known ← gets (fun st => StateDB.stateObjects st !! a);
  match known with Some _ => mret tt | None => copyObject s a end.

Definition Copy (s : StateDB.t) : outcome StateDB.t :=
  let st := StateDB.mk L (StateDB.db s) (StateDB.trie s) None None ∅ ∅ ∅ [] ∅ ∅ ∅ None (StateDB.refund s) zeroHash zeroHash 0
    ∅ (StateDB.logSize s) ∅ journal.newJournal [] 0 in
  let! (_, st) := (
    each (copyDirty s) (elements (dom (journal.dirties (StateDB.journal s))));;
    each (fun a => copyMissing s a;;
      modify (fun st => StateDB.set_stateObjectsPending st ({[a]} ∪ StateDB.stateObjectsPending st)))
      (elements (StateDB.stateObjectsPending s));;
    each (fun a => copyMissing s a;;
      modify (fun st => StateDB.set_stateObjectsDirty st ({[a]} ∪ StateDB.stateObjectsDirty st)))
      (elements (StateDB.stateObjectsDirty s));;
    modify (fun st => StateDB.set_logs st (StateDB.logs s));;
    modify (fun st => StateDB.set_preimages st (StateDB.preimages s))) st in
  Ret st.
End Ops.
End state.
