(* ===== verification/StateRevert.v ===== *)
(** * Reverting the state database

    [RevertToSnapshot] undoes the journal entries since the snapshot.  It does not
    restore the database field by field: objects stay in the cache, slots that
    were written stay in [dirtyStorage] with their old value, overwritten objects
    stay in the heap.  What it restores is what the getters return.  So states are
    compared by what can be read of them ([eqv]); the operations of a transaction
    keep the invariant [from]: undoing what they journalled leads to a state that
    is equivalent to the one they started from. *)

From S2P Require Import Prelude GoStd Effects StateDB.
Import state.

(** What the package assumes of Keccak and of [common.BytesToHash]: no two
    addresses with the same hash, and a hash is its own conversion.  The size of a
    code is the length of the code, as [cachingDB] has it. *)
Class StateLaws (L : StateLib) := {
  addrHash_inj : forall a b, Keccak256Hash a = Keccak256Hash b -> a = b;
  BytesToHash_hash : forall b, BytesToHash (Keccak256Hash b) = Keccak256Hash b;
  BytesToHash_idem : forall b, BytesToHash (BytesToHash b) = BytesToHash b;
  ContractCodeSize_len : forall db a h, (ContractCodeSize db a h).1 = zlen (goBytes (ContractCode db a h).1)
}.

(** ** What can be read of an object *)

Section Views.
Context {L : StateLib} (db : Database) (snap : option SnapLayer).
Implicit Types (o : stateObject.t) (k : bytes) (d : bool).

(** The storage trie, opened when it is not yet. *)
Definition openView o : option Trie :=
  match stateObject.trie o with
  | Some tr => Some tr
  | None =>
      match OpenStorageTrie db (stateObject.addrHash o) (Account.Root (stateObject.data o)) with
      | inl tr => Some tr
      | inr _ => match OpenStorageTrie db (stateObject.addrHash o) zeroHash with inl tr => Some tr | inr _ => None end
      end
  end.

Definition slotValue (enc : bytes) : bytes :=
  if bool_decide (enc = []) then zeroHash else BytesToHash (rlpSplit enc).1.

(** A slot in the trie; [None] when reading it panics. *)
Definition trieSlot o k : option bytes :=
  tr ← openView o;
  match TryGet tr k with inr _ => Some zeroHash | inl enc => Some (slotValue enc) end.

(** A slot that is not cached; [d] tells that the account was destructed. *)
Definition freshSlot d o k : option bytes :=
  match snap with
  | None => trieSlot o k
  | Some layer =>
      if d then Some zeroHash
      else match SnapStorageOf layer (stateObject.addrHash o) (Keccak256Hash k) with
           | inl enc => Some (slotValue enc)
           | inr _ => trieSlot o k
           end
  end.

Definition committedView d o k : option bytes :=
  match stateObject.fakeStorage o, stateObject.pendingStorage o !! k, stateObject.originStorage o !! k with
  | Some fake, _, _ => Some (default zeroHash (fake !! k))
  | None, Some v, _ => Some v
  | None, None, Some v => Some v
  | None, None, None => freshSlot d o k
  end.

Definition stateView d o k : option bytes :=
  match stateObject.fakeStorage o, stateObject.dirtyStorage o !! k with
  | Some fake, _ => Some (default zeroHash (fake !! k))
  | None, Some v => Some v
  | None, None => committedView d o k
  end.

Definition codeView o : option bytes :=
  match stateObject.code o with
  | Some c => Some c
  | None =>
      if bytes_equal (goBytes (Account.CodeHash (stateObject.data o))) emptyCodeHash then None
      else (ContractCode db (stateObject.addrHash o) (BytesToHash (goBytes (Account.CodeHash (stateObject.data o))))).1
  end.

(** The fields that are not caches. *)
Definition core o : bytes * bytes * Account.t * option (gmap bytes bytes) * bool * bool :=
  (stateObject.address o, stateObject.addrHash o, stateObject.data o, stateObject.fakeStorage o,
   stateObject.suicided o, stateObject.deleted o).

(** Objects that cannot be told apart. *)
Record obj_eq d o o' : Prop := {
  oe_core : core o = core o';
  oe_code : codeView o = codeView o';
  oe_committed : forall k, committedView d o k = committedView d o' k;
  oe_state : forall k, stateView d o k = stateView d o' k
}.

#[global] Instance obj_eq_equiv d : Equivalence (obj_eq d).
Proof.
  split.
  - by split.
  - intros o o' [H1 H2 H3 H4]. by split.
  - intros o1 o2 o3 [A1 A2 A3 A4] [B1 B2 B3 B4]. split; [congruence|congruence|..]; intros k; [by rewrite A3|by rewrite A4].
Qed.
End Views.

(** ** What can be read of the database *)

Section Revert.
Context {L : StateLib} {HL : StateLaws L}.
Implicit Types (s t : StateDB.t) (o : stateObject.t) (a b k : bytes) (p q : nat) (e : journalEntry) (es : list journalEntry).

Definition view s a : option stateObject.t :=
  match StateDB.stateObjects s !! a with
  | Some p => StateDB.objects s !! p
  | None => newObject a <$> (loadAccount s a).1
  end.

Definition flag s a : bool := bool_decide (Keccak256Hash a ∈ StateDB.snapDestructs s).

(** What the operations of a transaction do not change. *)
Definition still s :=
  (StateDB.db s, StateDB.trie s, StateDB.snaps s, StateDB.snap s, StateDB.snapAccounts s, StateDB.snapStorage s,
   StateDB.stateObjectsPending s, StateDB.thash s, StateDB.bhash s, StateDB.txIndex s).

(** What they change apart from objects. *)
Definition rest s :=
  (StateDB.snapDestructs s, StateDB.stateObjectsDirty s, StateDB.refund s, StateDB.logs s, StateDB.logSize s, StateDB.preimages s).

Abbreviation oeq s d := (option_Forall2 (obj_eq (StateDB.db s) (StateDB.snap s) d)).

(** States that cannot be told apart, also after undoing the entries [es]. *)
Record eqv es s t : Prop := {
  eq_still : still s = still t;
  eq_rest : rest s = rest t;
  eq_view : forall a, oeq s (flag s a) (view s a) (view t a);
  eq_kept : forall p d, resetObjectChange p d ∈ es -> oeq s d (StateDB.objects s !! p) (StateDB.objects t !! p)
}.

(** ** The invariant of the database *)

Definition proper_hash (h : option bytes) : Prop := exists x, h = Some x /\ BytesToHash x = x.

(** The accounts in the trie and in the snapshot have hashes as code hashes. *)
Definition proper s : Prop :=
  forall a data h, (loadAccount s a).1 = Some data -> Account.CodeHash data = Some h -> BytesToHash h = h.

Record obj_ok o : Prop := {
  ok_hash : stateObject.addrHash o = Keccak256Hash (stateObject.address o);
  ok_fake : stateObject.fakeStorage o = None;
  ok_code : proper_hash (Account.CodeHash (stateObject.data o))
}.

(** The entries, latest first; undoing one of them clears the mark of destruction
    that it set. *)
Fixpoint flags_ok (objs : list stateObject.t) es (D : gset bytes) : Prop :=
  match es with
  | [] => True
  | resetObjectChange p d :: es' =>
      exists o, objs !! p = Some o /\ stateObject.addrHash o ∈ D /\
        flags_ok objs es' (if d then D else D ∖ {[stateObject.addrHash o]})
  | _ :: es' => flags_ok objs es' D
  end.

Definition pointers es : list nat := omap (fun e => match e with resetObjectChange p _ => Some p | _ => None end) es.

Record wf es s : Prop := {
  wf_live : forall a p, StateDB.stateObjects s !! a = Some p -> exists o, StateDB.objects s !! p = Some o /\ stateObject.address o = a;
  wf_objects : Forall obj_ok (StateDB.objects s);
  wf_kept : forall p, p ∈ pointers es -> is_Some (StateDB.objects s !! p) /\ forall a, ~ (StateDB.stateObjects s !! a = Some p);
  wf_apart : NoDup (pointers es);
  wf_flags : is_Some (StateDB.snap s) -> flags_ok (StateDB.objects s) es (StateDB.snapDestructs s);
  wf_dirty : StateDB.stateObjectsDirty s ⊆ dom (StateDB.stateObjects s);
  wf_pending : StateDB.stateObjectsPending s ⊆ dom (StateDB.stateObjects s);
  wf_created : forall a, createObjectChange a ∈ es -> (a ∉ StateDB.stateObjectsDirty s) /\ (a ∉ StateDB.stateObjectsPending s);
  wf_proper : proper s;
  wf_logs : in_u64 (StateDB.logSize s) /\ forall h, ~ (StateDB.logs s !! h = Some [])
}.

Definition stack s : list journalEntry := reverse (journal.entries (StateDB.journal s)).

(** Undoing an entry, and several. *)
Definition undo1 e : M unit := revertEntry e;; undirty e.
Definition undo es : M unit := each undo1 es.

(** [s'] comes from [s] by operations that can be undone. *)
Definition from s s' : Prop :=
  exists new s'', (stack s' = new ++ stack s) /\ wf (stack s') s' /\
    undo new s' = Ret (tt, s'') /\ eqv (stack s) s s'' /\ wf (stack s) s''.

(** ** Equivalence *)

Lemma oeq_refl s d x : oeq s d x x.
Proof. destruct x; constructor. reflexivity. Qed.

Lemma eqv_refl es s : eqv es s s.
Proof. split; [done|done|..]; intros; apply oeq_refl. Qed.

Lemma eqv_flag es s t a : eqv es s t -> flag t a = flag s a.
Proof. intros [_ H _ _]. unfold flag. unfold rest in H. by injection H as -> _ _ _ _ _. Qed.

Lemma eqv_ctx es s t : eqv es s t -> StateDB.db t = StateDB.db s /\ StateDB.snap t = StateDB.snap s.
Proof. intros [H _ _ _]. unfold still in H. by injection H as -> _ _ -> _ _ _ _ _ _. Qed.

Lemma eqv_trans es s t u : eqv es s t -> eqv es t u -> eqv es s u.
Proof.
  intros H1 H2. destruct (eqv_ctx _ _ _ H1) as [Ed Es]. split.
  - rewrite (eq_still _ _ _ H1). apply H2.
  - rewrite (eq_rest _ _ _ H1). apply H2.
  - intros a. pose proof (eq_view _ _ _ H2 a) as V2. rewrite (eqv_flag _ _ _ a H1), Ed, Es in V2.
    etransitivity; [apply H1|exact V2].
  - intros p d Hp. pose proof (eq_kept _ _ _ H2 p d Hp) as V2. rewrite Ed, Es in V2. etransitivity; [by apply H1|exact V2].
Qed.

Lemma eqv_pop e es s t : eqv (e :: es) s t -> eqv es s t.
Proof. intros [H1 H2 H3 H4]. split; auto. intros p d Hp. apply H4. by right. Qed.

Lemma loadAccount_still s t a : still s = still t -> loadAccount s a = loadAccount t a.
Proof. unfold still, loadAccount, trieAccount. by intros [= _ -> _ -> _ _ _ _ _ _]. Qed.

Lemma proper_still s t : still s = still t -> proper s -> proper t.
Proof. intros Hst Hp a data h. rewrite <- (loadAccount_still s t a Hst). apply Hp. Qed.

Lemma newObject_ok s a data err : proper s -> loadAccount s a = (Some data, err) -> obj_ok (newObject a data).
Proof.
  intros Hp Hl. assert (forall h, Account.CodeHash data = Some h -> BytesToHash h = h) as Hh by (intros h; apply (Hp a); by rewrite Hl).
  unfold newObject. split; [done|done|]. cbn. destruct (Account.CodeHash data) as [h|] eqn:Ec.
  - destruct (bool_decide _); cbn; rewrite Ec; exists h; eauto.
  - destruct (bool_decide _); cbn; exists emptyCodeHash; (split; [done|apply BytesToHash_hash]).
Qed.

Lemma freshObject_ok a : obj_ok (newObject a (Account.mk 0 0 zeroHash None)).
Proof. split; [done|done|]. exists emptyCodeHash. split; [done|apply BytesToHash_hash]. Qed.

(** ** Objects in the heap *)

Definition tail s := (StateDB.journal s, StateDB.validRevisions s, StateDB.nextRevisionId s).

Lemma flags_ok_ext objs objs' es D :
  (forall p o, objs !! p = Some o -> exists o', objs' !! p = Some o' /\ stateObject.addrHash o' = stateObject.addrHash o) ->
  flags_ok objs es D -> flags_ok objs' es D.
Proof.
  intros Ho. revert D. induction es as [|e es IH]; intros D; [done|]. destruct e; cbn; eauto.
  intros (o & Hp & Hh & Hf). destruct (Ho _ _ Hp) as (o' & Hp' & He). exists o'. rewrite He. auto.
Qed.

Lemma obj_ok_at es s p o : wf es s -> StateDB.objects s !! p = Some o -> obj_ok o.
Proof. intros Hw Hp. exact (Forall_lookup_1 _ _ _ _ (wf_objects _ _ Hw) Hp). Qed.

Lemma live_inj es s a b p : wf es s -> StateDB.stateObjects s !! a = Some p -> StateDB.stateObjects s !! b = Some p -> a = b.
Proof.
  intros Hw Ha Hb. destruct (wf_live _ _ Hw a p Ha) as (o & Ho & <-), (wf_live _ _ Hw b p Hb) as (o' & Ho' & <-). congruence.
Qed.

(** [o'] has the identity of [o]. *)
Definition same_id o o' : Prop := stateObject.address o' = stateObject.address o /\ (obj_ok o -> obj_ok o').

Lemma wf_update es s p o f : wf es s -> StateDB.objects s !! p = Some o -> same_id o (f o) ->
  wf es (StateDB.set_objects s (alter f p (StateDB.objects s))).
Proof.
  intros Hw Hp [Ha Hok]. pose proof (obj_ok_at _ _ _ _ Hw Hp) as Ho.
  assert (forall q x, StateDB.objects s !! q = Some x -> exists x', alter f p (StateDB.objects s) !! q = Some x' /\
    stateObject.address x' = stateObject.address x /\ stateObject.addrHash x' = stateObject.addrHash x) as Hx.
  { intros q x Hq. destruct (decide (p = q)) as [<-|Hne].
    - rewrite list_lookup_alter_eq, Hp. rewrite Hp in Hq. injection Hq as <-. exists (f o). split_and!; [done|done|].
      by rewrite (ok_hash _ (Hok Ho)), Ha, (ok_hash _ Ho).
    - rewrite list_lookup_alter_ne by done. by exists x. }
  destruct Hw as [W1 W2 W3 W4 W5 W6 W7 W8 W9 W10]. split; cbn; try done.
  - intros a q Hq. destruct (W1 a q Hq) as (x & H1 & H2). destruct (Hx q x H1) as (x' & ? & ? & _). exists x'. split; congruence.
  - apply Forall_alter; [done|]. intros x Hx'. rewrite Hp in Hx'. injection Hx' as <-. auto.
  - intros q Hq. destruct (W3 q Hq) as [[x H1] H2]. split; [|done]. destruct (Hx q x H1) as (x' & -> & _). done.
  - intros Hs. eapply flags_ok_ext; [|by apply W5]. intros q x Hq. destruct (Hx q x Hq) as (x' & ? & _ & ?). eauto.
Qed.

Lemma view_live s a p : StateDB.stateObjects s !! a = Some p -> view s a = StateDB.objects s !! p.
Proof. unfold view. by intros ->. Qed.

(** After an update of the live object of [a]. *)
Lemma view_update es s a p o f : wf es s -> StateDB.stateObjects s !! a = Some p -> StateDB.objects s !! p = Some o ->
  let s' := StateDB.set_objects s (alter f p (StateDB.objects s)) in
  view s' a = Some (f o) /\ (forall b, b <> a -> view s' b = view s b) /\
  forall q, q ∈ pointers es -> StateDB.objects s' !! q = StateDB.objects s !! q.
Proof.
  intros Hw Ha Hp s'. split_and!.
  - unfold view, s'. cbn. by rewrite Ha, list_lookup_alter_eq, Hp.
  - intros b Hb. unfold view, s'. cbn. destruct (StateDB.stateObjects s !! b) as [q|] eqn:Eb; [|done].
    apply list_lookup_alter_ne. intros ->. by destruct Hb; eapply live_inj.
  - intros q Hq. unfold s'. cbn. apply list_lookup_alter_ne. intros ->. by destruct (proj2 (wf_kept _ _ Hw q Hq) a).
Qed.

Lemma wf_alloc es s o : wf es s -> obj_ok o -> wf es (StateDB.set_objects s (StateDB.objects s ++ [o])).
Proof.
  intros [W1 W2 W3 W4 W5 W6 W7 W8 W9 W10] Ho.
  assert (forall q x, StateDB.objects s !! q = Some x -> (StateDB.objects s ++ [o]) !! q = Some x) as Hx.
  { intros q x Hq. by apply lookup_app_l_Some. }
  split; cbn; try done.
  - intros a q Hq. destruct (W1 a q Hq) as (x & H1 & H2). eauto.
  - apply Forall_app; split; [done|by apply Forall_singleton].
  - intros q Hq. destruct (W3 q Hq) as [[x H1] H2]. split; [|done]. exists x. auto.
  - intros Hs. eapply flags_ok_ext; [|by apply W5]. intros q x Hq. eauto.
Qed.

(** The object [p] becomes the live object of its address. *)
Lemma wf_put es s p o : wf es s -> StateDB.objects s !! p = Some o -> p ∉ pointers es ->
  wf es (StateDB.set_stateObjects s (<[stateObject.address o := p]> (StateDB.stateObjects s))).
Proof.
  intros [W1 W2 W3 W4 W5 W6 W7 W8 W9 W10] Hp Hn. split; cbn; try done.
  - intros a q. destruct (decide (stateObject.address o = a)) as [<-|Hne].
    + rewrite lookup_insert_eq. intros [= <-]. eauto.
    + rewrite lookup_insert_ne by done. apply W1.
  - intros q Hq. destruct (W3 q Hq) as [H1 H2]. split; [done|]. intros a. destruct (decide (stateObject.address o = a)) as [<-|Hne].
    + rewrite lookup_insert_eq. intros [= <-]. done.
    + rewrite lookup_insert_ne by done. apply H2.
  - rewrite dom_insert. set_solver.
  - rewrite dom_insert. set_solver.
Qed.

Lemma setStateObject_run s p o : StateDB.objects s !! p = Some o ->
  setStateObject p s = Ret (tt, StateDB.set_stateObjects s (<[stateObject.address o := p]> (StateDB.stateObjects s))).
Proof. intros Hp. unfold setStateObject, deref, mbind, ST_bind, gets. cbn. by rewrite Hp. Qed.

Lemma deref_run s p o : StateDB.objects s !! p = Some o -> deref p s = Ret (o, s).
Proof. intros Hp. unfold deref, mbind, ST_bind, gets. cbn. by rewrite Hp. Qed.

(** Where the pointer for [a] leads. *)
Definition points s a (r : option nat) : Prop :=
  match r with
  | Some p => StateDB.stateObjects s !! a = Some p
  | None => StateDB.stateObjects s !! a = None
  end.

(** Loading an account does not change what can be read. *)
Record loaded es s a (r : option nat) s' : Prop := {
  lo_wf : wf es s';
  lo_eqv : eqv es s s';
  lo_tail : tail s' = tail s;
  lo_view : view s' a = view s a;
  lo_ptr : points s' a r;
  lo_none : r = None -> view s a = None
}.

Lemma getDeleted_spec es s a : wf es s -> twp (getDeletedStateObject a) (loaded es s a) s.
Proof.
  intros Hw. unfold getDeletedStateObject. apply twp_bind, twp_gets.
  destruct (StateDB.stateObjects s !! a) as [p|] eqn:Ea.
  { apply twp_ret. by split. }
  apply twp_bind, twp_gets. destruct (loadAccount s a) as [[data|] err] eqn:El.
  - set (o := newObject a data). assert (obj_ok o) as Ho by (eapply newObject_ok; [apply Hw|done]).
    set (s1 := StateDB.set_objects s (StateDB.objects s ++ [o])).
    assert ((StateDB.objects s ++ [o]) !! length (StateDB.objects s) = Some o) as Hp by (by apply list_lookup_middle).
    exists (Some (length (StateDB.objects s))), (StateDB.set_stateObjects s1 (<[a := length (StateDB.objects s)]> (StateDB.stateObjects s1))).
    split.
    { unfold alloc, mbind, ST_bind, gets, modify. cbn. fold s1. rewrite (setStateObject_run s1 _ o) by done. done. }
    assert (view s a = Some o) as Hv by (unfold view; by rewrite Ea, El).
    assert (wf es s1) as Hw1 by (by apply wf_alloc).
    assert (length (StateDB.objects s) ∉ pointers es) as Hn.
    { intros Hq. destruct (proj1 (wf_kept _ _ Hw _ Hq)) as [x Hx]. apply lookup_lt_Some in Hx. lia. }
    split; [by apply (wf_put es s1 _ o)| |done| |cbn; by rewrite lookup_insert_eq|done].
    + split; [done|done|..].
      * intros b. destruct (decide (a = b)) as [<-|Hne].
        -- rewrite Hv. unfold view. cbn. rewrite lookup_insert_eq, Hp. apply oeq_refl.
        -- unfold view. cbn. rewrite lookup_insert_ne by done. destruct (StateDB.stateObjects s !! b) as [q|] eqn:Eb; [|apply oeq_refl].
           destruct (wf_live _ _ Hw b q Eb) as (x & Hx & _). rewrite Hx, (lookup_app_l_Some _ _ _ _ Hx). apply oeq_refl.
      * intros q d Hq. destruct (proj1 (wf_kept _ _ Hw q ltac:(apply list_elem_of_omap; by exists (resetObjectChange q d)))) as [x Hx].
        cbn. rewrite Hx, (lookup_app_l_Some _ _ _ _ Hx). apply oeq_refl.
    + rewrite Hv. unfold view. cbn. by rewrite lookup_insert_eq, Hp.
  - apply twp_bind, twp_modify, twp_ret. assert (view s a = None) as Hv by (unfold view; by rewrite Ea, El).
    split; try done; destruct Hw; by split.
Qed.

(** What [getStateObject] finds: an object that is not deleted. *)
Record found es s a (r : option nat) s' : Prop := {
  fo_wf : wf es s';
  fo_eqv : eqv es s s';
  fo_tail : tail s' = tail s;
  fo_some : forall p, r = Some p -> StateDB.stateObjects s' !! a = Some p /\
    exists o, StateDB.objects s' !! p = Some o /\ view s a = Some o /\ stateObject.deleted o = false;
  fo_none : r = None -> forall o, view s a = Some o -> stateObject.deleted o = true
}.

Lemma getStateObject_spec es s a : wf es s -> twp (getStateObject a) (found es s a) s.
Proof.
  intros Hw. unfold getStateObject. apply twp_bind. eapply twp_mono; [by apply (getDeleted_spec es)|].
  intros [p|] s1 [H1 H2 H3 H4 H5 H6].
  - destruct (wf_live _ _ H1 a p H5) as (o & Ho & _). apply twp_bind. exists o, s1. split; [by apply deref_run|]. apply twp_ret.
    assert (view s a = Some o) as Hv by (by rewrite <- H4, (view_live _ _ _ H5)).
    destruct (stateObject.deleted o) eqn:Ed; split; try done.
    + intros _ x Hx. congruence.
    + intros q [= <-]. eauto.
  - apply twp_ret. split; try done. intros _ x Hx. by rewrite H6 in Hx.
Qed.

(** ** Changes of one object *)

Definition fBalance (v : Z) o := stateObject.set_data o (Account.set_Balance (stateObject.data o) v).
Definition fNonce (v : Z) o := stateObject.set_data o (Account.set_Nonce (stateObject.data o) v).
Definition fState k (v : bytes) o := stateObject.set_dirtyStorage o (<[k := v]> (stateObject.dirtyStorage o)).
Definition fCode (h : bytes) (c : option bytes) o :=
  stateObject.set_dirtyCode (stateObject.set_data (stateObject.set_code o c) (Account.set_CodeHash (stateObject.data o) (Some h))) true.
Definition fSuicide (x : bool) (v : Z) o := fBalance v (stateObject.set_suicided o x).

(** A change of objects that respects what can be read, and keeps their identity. *)
Record change (f : stateObject.t -> stateObject.t) : Prop := {
  ch_proper : forall db snap d, Proper (obj_eq db snap d ==> obj_eq db snap d) f;
  ch_id : forall o, same_id o (f o)
}.

Lemma core_parts o o' : core o = core o' -> stateObject.address o = stateObject.address o' /\ stateObject.addrHash o = stateObject.addrHash o' /\
  stateObject.data o = stateObject.data o' /\ stateObject.fakeStorage o = stateObject.fakeStorage o' /\
  stateObject.suicided o = stateObject.suicided o' /\ stateObject.deleted o = stateObject.deleted o'.
Proof. unfold core. intros [= -> -> -> -> -> ->]. done. Qed.

Lemma change_balance v : change (fBalance v).
Proof.
  split.
  - intros db snap d o o' [H1 H2 H3 H4]. apply core_parts in H1 as (H5 & H6 & H7 & H8 & H9 & H10). split; [|done..].
    unfold core, fBalance. cbn. congruence.
  - intros o. split; [done|]. by intros [K1 K2 K3].
Qed.

Lemma change_nonce v : change (fNonce v).
Proof.
  split.
  - intros db snap d o o' [H1 H2 H3 H4]. apply core_parts in H1 as (H5 & H6 & H7 & H8 & H9 & H10). split; [|done..].
    unfold core, fNonce. cbn. congruence.
  - intros o. split; [done|]. by intros [K1 K2 K3].
Qed.

Lemma change_suicide (x : bool) v : change (fSuicide x v).
Proof.
  split.
  - intros db snap d o o' [H1 H2 H3 H4]. apply core_parts in H1 as (H5 & H6 & H7 & H8 & H9 & H10). split; [|done..].
    unfold core, fSuicide, fBalance. cbn. congruence.
  - intros o. split; [done|]. by intros [K1 K2 K3].
Qed.

Lemma stateView_fState db snap d k v o k' : stateObject.fakeStorage o = None ->
  stateView db snap d (fState k v o) k' = if decide (k = k') then Some v else stateView db snap d o k'.
Proof.
  intros Hf. unfold stateView, fState. cbn. rewrite Hf. destruct (decide (k = k')) as [<-|Hne].
  - by rewrite lookup_insert_eq.
  - by rewrite lookup_insert_ne.
Qed.

Lemma stateView_fake db snap d o fake k : stateObject.fakeStorage o = Some fake ->
  stateView db snap d o k = Some (default zeroHash (fake !! k)).
Proof. unfold stateView. by intros ->. Qed.

Lemma change_state k v : change (fState k v).
Proof.
  split.
  - intros db snap d o o' [H1 H2 H3 H4]. pose proof (core_parts _ _ H1) as (_ & _ & _ & H8 & _ & _). split; [done..|].
    intros k'. destruct (stateObject.fakeStorage o) as [fake|] eqn:Ef.
    + rewrite (stateView_fake _ _ _ (fState k v o) fake), (stateView_fake _ _ _ (fState k v o') fake); done.
    + rewrite !stateView_fState by congruence. by rewrite H4.
  - intros o. split; [done|]. by intros [K1 K2 K3].
Qed.

Lemma change_code h c : BytesToHash h = h -> change (fCode h c).
Proof.
  intros Hh. split.
  - intros db snap d o o' [H1 H2 H3 H4]. apply core_parts in H1 as (H5 & H6 & H7 & H8 & H9 & H10). split; [| |done..].
    + unfold core, fCode. cbn. congruence.
    + unfold codeView, fCode. cbn. by rewrite H6.
  - intros o. split; [done|]. intros [K1 K2 K3]. split; [done|done|]. exists h. done.
Qed.

(** [s'] is [s] with the object of [a] changed by [f]. *)
Record changed es a (f : stateObject.t -> stateObject.t) s s' : Prop := {
  cd_still : still s = still s';
  cd_rest : rest s = rest s';
  cd_here : exists o o', view s a = Some o /\ view s' a = Some o' /\ obj_eq (StateDB.db s) (StateDB.snap s) (flag s a) (f o) o';
  cd_other : forall b, b <> a -> oeq s (flag s b) (view s b) (view s' b);
  cd_kept : forall p d, resetObjectChange p d ∈ es -> oeq s d (StateDB.objects s !! p) (StateDB.objects s' !! p)
}.

Lemma elem_pointers es p d : resetObjectChange p d ∈ es -> p ∈ pointers es.
Proof. intros H. apply list_elem_of_omap. by exists (resetObjectChange p d). Qed.

Lemma update_changed es s a p o f : wf es s -> StateDB.stateObjects s !! a = Some p -> StateDB.objects s !! p = Some o ->
  changed es a f s (StateDB.set_objects s (alter f p (StateDB.objects s))).
Proof.
  intros Hw Ha Hp. destruct (view_update es s a p o f Hw Ha Hp) as (H1 & H2 & H3). split; [done|done| | |].
  - exists o, (f o). split_and!; [by rewrite (view_live _ _ _ Ha)|done|reflexivity].
  - intros b Hb. rewrite H2 by done. apply oeq_refl.
  - intros q d Hq. rewrite H3 by (by eapply elem_pointers). apply oeq_refl.
Qed.

Lemma still_ctx s t : still s = still t -> StateDB.db t = StateDB.db s /\ StateDB.snap t = StateDB.snap s.
Proof. unfold still. by intros [= -> _ _ -> _ _ _ _ _ _]. Qed.

Lemma rest_flag s t a : rest s = rest t -> flag t a = flag s a.
Proof. unfold rest, flag. by intros [= -> _ _ _ _ _]. Qed.

Lemma changed_after es a f s t t' : change f -> eqv es s t -> changed es a f t t' -> changed es a f s t'.
Proof.
  intros Hf He [C1 C2 (o & o' & V1 & V2 & V3) C4 C5]. destruct (eqv_ctx _ _ _ He) as [Ed Es]. rewrite Ed, Es, (eqv_flag _ _ _ a He) in V3.
  split.
  - rewrite (eq_still _ _ _ He). done.
  - rewrite (eq_rest _ _ _ He). done.
  - pose proof (eq_view _ _ _ He a) as V. rewrite V1 in V. inversion V as [x y Hxy Hx Hy|]. subst. exists x, o'. split_and!; [done|done|].
    etransitivity; [|exact V3]. by apply Hf.
  - intros b Hb. pose proof (C4 b Hb) as V. rewrite Ed, Es, (eqv_flag _ _ _ b He) in V. etransitivity; [apply He|exact V].
  - intros p d Hp. pose proof (C5 p d Hp) as V. rewrite Ed, Es in V. etransitivity; [by apply He|exact V].
Qed.

(** The same change on states that cannot be told apart. *)
Lemma changed_mono es a f s t s' t' : change f -> eqv es s t -> changed es a f s s' -> changed es a f t t' -> eqv es s' t'.
Proof.
  intros Hf He Hs Ht. pose proof (changed_after _ _ _ _ _ _ Hf He Ht) as [B1 B2 (o2 & o2' & U1 & U2 & U3) B4 B5]. clear Ht.
  destruct Hs as [C1 C2 (o & o' & V1 & V2 & V3) C4 C5]. destruct (still_ctx _ _ C1) as [Ed Es]. split; [congruence|congruence|..].
  - intros b. rewrite Ed, Es, (rest_flag _ _ b C2). destruct (decide (b = a)) as [->|Hne].
    + rewrite U1 in V1. injection V1 as <-. rewrite V2, U2. constructor. by rewrite <- V3.
    + rewrite <- (C4 b Hne). by apply B4.
  - intros p d Hp. rewrite Ed, Es. rewrite <- (C5 p d Hp). by apply B5.
Qed.

(** A change and its reverse. *)
Lemma changed_back es a f g s s' s'' : change g -> changed es a f s s' -> changed es a g s' s'' ->
  (forall o, view s a = Some o -> obj_eq (StateDB.db s) (StateDB.snap s) (flag s a) o (g (f o))) -> eqv es s s''.
Proof.
  intros Hg [C1 C2 (o & o' & V1 & V2 & V3) C4 C5] [B1 B2 (o2 & o2' & U1 & U2 & U3) B4 B5] Hb. destruct (still_ctx _ _ C1) as [Ed Es].
  rewrite Ed, Es in *. rewrite (rest_flag _ _ a C2) in U3. split; [congruence|congruence|..].
  - intros b. destruct (decide (b = a)) as [->|Hne].
    + rewrite V1, U2. constructor. etransitivity; [by apply Hb|]. rewrite V2 in U1. injection U1 as ->.
      etransitivity; [|exact U3]. by apply Hg.
    + pose proof (B4 b Hne) as V. rewrite (rest_flag _ _ b C2) in V. etransitivity; [by apply C4|exact V].
  - intros p d Hp. etransitivity; [by apply C5|by apply B5].
Qed.

(** ** Undoing an entry *)

(** The object that an entry changes back, and how. *)
Definition target e : option (bytes * (stateObject.t -> stateObject.t)) :=
  match e with
  | balanceChange a v => Some (a, fBalance v)
  | nonceChange a v => Some (a, fNonce v)
  | storageChange a k v => Some (a, fState k v)
  | codeChange a c h => Some (a, fCode (BytesToHash (goBytes h)) c)
  | suicideChange a x v => Some (a, fSuicide x v)
  | _ => None
  end.

Lemma target_change e a f : target e = Some (a, f) -> change f.
Proof.
  destruct e; cbn; intros [= <- <-];
    [apply change_suicide|apply change_balance|apply change_nonce|apply change_state|apply change_code, BytesToHash_idem].
Qed.

Definition present s a : Prop := exists o, view s a = Some o /\ stateObject.deleted o = false.

Lemma present_eqv es s t a : eqv es s t -> present s a -> present t a.
Proof.
  intros He (o & Hv & Hd). pose proof (eq_view _ _ _ He a) as V. rewrite Hv in V. inversion V as [x y Hxy Hx Hy|]. subst.
  exists y. split; [done|]. destruct (core_parts _ _ (oe_core _ _ _ _ _ Hxy)) as (_ & _ & _ & _ & _ & <-). done.
Qed.

Lemma eqv_sym es s t : eqv es s t -> eqv es t s.
Proof.
  intros H. destruct (eqv_ctx _ _ _ H) as [Ed Es]. split.
  - symmetry. apply H.
  - symmetry. apply H.
  - intros a. rewrite Ed, Es, (eqv_flag _ _ _ a H). symmetry. apply H.
  - intros p d Hp. rewrite Ed, Es. symmetry. by apply H.
Qed.

Lemma list_alter_twice {A} (f g : A -> A) i (l : list A) : alter f i (alter g i l) = alter (fun x => f (g x)) i l.
Proof. revert i. induction l as [|x l IH]; intros [|i]; cbn; [done|done|done|]. f_equal. apply IH. Qed.

(** The object of a changed state is there and the same up to the change. *)
Lemma revert_target es e a f s : target e = Some (a, f) -> wf es s -> present s a ->
  twp (revertEntry e) (fun _ s' => changed es a f s s' /\ wf es s' /\ tail s' = tail s) s.
Proof.
  intros Ht Hw (o & Hv & Hd). pose proof (target_change _ _ _ Ht) as Hf.
  assert (forall (F : nat -> M unit), (forall p s1, F p s1 = Ret (tt, StateDB.set_objects s1 (alter f p (StateDB.objects s1)))) ->
    forall r s1, found es s a r s1 -> exists p, r = Some p /\
      twp (F p) (fun _ s' => changed es a f s s' /\ wf es s' /\ tail s' = tail s) s1) as HF.
  { intros F HF [p|] s1 [F1 F2 F3 F4 F5]; [|by rewrite (F5 eq_refl o Hv) in Hd]. exists p. split; [done|].
    destruct (F4 p eq_refl) as (Hp & x & Hx & _ & _). eexists tt, _. split; [apply HF|]. split_and!.
    - eapply changed_after; [done|done|]. by eapply update_changed.
    - by eapply wf_update; [| |apply Hf].
    - done. }
  assert (forall F : nat -> M unit, (forall p s1, F p s1 = Ret (tt, StateDB.set_objects s1 (alter f p (StateDB.objects s1)))) ->
    twp (onObject a F) (fun _ s' => changed es a f s s' /\ wf es s' /\ tail s' = tail s) s) as HO.
  { intros F HF'. unfold onObject. apply twp_bind. eapply twp_mono; [by apply (getStateObject_spec es)|]. intros r s1 H1.
    destruct (HF F HF' r s1 H1) as (p & -> & HFp). exact HFp. }
  destruct e; cbn in Ht; try discriminate Ht; injection Ht as <- <-; cbn; try (by apply HO).
  unfold withObject. apply twp_bind. eapply twp_mono; [by apply (getStateObject_spec es)|]. intros r s1 H1.
  destruct (HF (fun p => update p (fSuicide prev prevbalance)) ltac:(done) r s1 H1) as (p & -> & x & s2 & E2 & H2). exists x, s2.
  split; [|exact H2]. rewrite <- E2. unfold update, setBalance, update, mbind, ST_bind, modify. cbn. by rewrite list_alter_twice.
Qed.

(** An object that is not there: only [suicideChange] tolerates it. *)
Lemma revert_absent es e a f s : target e = Some (a, f) -> wf es s -> ~ present s a ->
  match e with
  | suicideChange _ _ _ => twp (revertEntry e) (fun _ s' => eqv es s s' /\ wf es s' /\ tail s' = tail s) s
  | _ => exists why, revertEntry e s = Panic why
  end.
Proof.
  intros Ht Hw Hn.
  assert (forall r s1, found es s a r s1 -> r = None) as Hr.
  { intros [p|] s1 H1; [|done]. destruct (fo_some _ _ _ _ _ H1 p eq_refl) as (_ & o & _ & Hv & Hd). destruct Hn. by exists o. }
  destruct (getStateObject_spec es s a Hw) as (r & s1 & E1 & H1). pose proof (Hr _ _ H1) as ->.
  destruct e; cbn in Ht; try discriminate Ht; injection Ht as <- <-; cbn.
  - exists tt, s1. unfold withObject, mbind, ST_bind. rewrite E1. split; [done|]. destruct H1. done.
  - unfold onObject, mbind, ST_bind. rewrite E1. by eexists.
  - unfold onObject, mbind, ST_bind. rewrite E1. by eexists.
  - unfold onObject, mbind, ST_bind. rewrite E1. by eexists.
  - unfold onObject, mbind, ST_bind. rewrite E1. by eexists.
Qed.

Lemma present_dec s a : present s a \/ ~ present s a.
Proof.
  unfold present. destruct (view s a) as [o|]; [|by right; intros (x & [=] & _)]. destruct (stateObject.deleted o) eqn:Ed.
  - right. intros (x & [= <-] & Hx). congruence.
  - left. by exists o.
Qed.

Lemma wf_pop e es s : (forall p d, e <> resetObjectChange p d) -> wf (e :: es) s -> wf es s.
Proof.
  intros He [W1 W2 W3 W4 W5 W6 W7 W8 W9 W10]. assert (pointers (e :: es) = pointers es) as Hp.
  { destruct e; try done. by destruct (He prev prevdestruct). }
  rewrite Hp in W3, W4. split; try done.
  - intros Hs. pose proof (W5 Hs) as Hf. destruct e; try done. by destruct (He prev prevdestruct).
  - intros a Ha. apply W8. by right.
Qed.

Lemma wf_journal es s j : wf es s -> wf es (StateDB.set_journal s j).
Proof. by intros []. Qed.

Lemma eqv_journal es s t j j' : eqv es s t -> eqv es (StateDB.set_journal s j) (StateDB.set_journal t j').
Proof. by intros []. Qed.

(** Both states lose the object they created. *)
Lemma undo_create es s t a : wf (createObjectChange a :: es) s -> wf (createObjectChange a :: es) t ->
  eqv (createObjectChange a :: es) s t ->
  let drop u := StateDB.set_stateObjectsDirty (StateDB.set_stateObjects u (delete a (StateDB.stateObjects u))) (StateDB.stateObjectsDirty u ∖ {[a]}) in
  eqv es (drop s) (drop t) /\ wf es (drop s).
Proof.
  intros Hs Ht He drop. split.
  - destruct He as [E1 E2 E3 E4]. assert (rest (drop s) = rest (drop t)) as Hr.
    { unfold rest in *. cbn. by injection E2 as -> -> -> -> -> ->. }
    split; [done|done| |intros p d Hp; apply E4; by right].
    intros b. pose proof (E3 b) as V. destruct (decide (a = b)) as [<-|Hne].
    + assert (forall u, view (drop u) a = newObject a <$> (loadAccount u a).1) as Hv by (intros u; unfold view, drop; cbn; by rewrite lookup_delete_eq).
      rewrite !Hv, (loadAccount_still s t a E1). apply oeq_refl.
    + unfold view, drop in *. cbn. by rewrite !lookup_delete_ne.
  - pose proof (wf_created _ _ Hs a ltac:(by left)) as [_ Hp]. pose proof (wf_pop (createObjectChange a) es s ltac:(intros; discriminate) Hs) as [W1 W2 W3 W4 W5 W6 W7 W8 W9 W10].
    split; try done.
    + intros b p. unfold drop. cbn. rewrite lookup_delete_Some. intros [_ Hb]. by apply W1.
    + intros p Hp'. destruct (W3 p Hp') as [H1 H2]. split; [done|]. intros b. unfold drop. cbn. rewrite lookup_delete_Some. intros [_ Hb]. by destruct (H2 b).
    + unfold drop. cbn. rewrite dom_delete. set_solver.
    + unfold drop. cbn. rewrite dom_delete. set_solver.
    + intros b Hb. destruct (W8 b Hb). unfold drop. cbn. set_solver.
Qed.

(** Without snapshots the mark of destruction does not matter. *)
Lemma obj_eq_nosnap db d d' o o' : obj_eq db None d o o' -> obj_eq db None d' o o'.
Proof. by intros [H1 H2 H3 H4]. Qed.

(** The state after [resetObjectChange p d] is undone. *)
Definition restored s p (d : bool) o : StateDB.t :=
  let s1 := StateDB.set_stateObjects s (<[stateObject.address o := p]> (StateDB.stateObjects s)) in
  if negb d && bool_decide (is_Some (StateDB.snap s))
  then StateDB.set_snapDestructs s1 (StateDB.snapDestructs s1 ∖ {[stateObject.addrHash o]}) else s1.

Lemma revert_reset s p d o : StateDB.objects s !! p = Some o -> revertEntry (resetObjectChange p d) s = Ret (tt, restored s p d o).
Proof.
  intros Hp. cbn. unfold mbind, ST_bind. rewrite (setStateObject_run _ _ _ Hp). cbn. rewrite (deref_run _ p o) by done. cbn.
  unfold restored. by destruct (negb d && _).
Qed.

Lemma restored_wf es s p d o : wf (resetObjectChange p d :: es) s -> StateDB.objects s !! p = Some o -> wf es (restored s p d o).
Proof.
  intros [W1 W2 W3 W4 W5 W6 W7 W8 W9 W10] Hp. cbn in W4. apply NoDup_cons in W4 as [Hn W4].
  assert (forall D, (is_Some (StateDB.snap s) -> flags_ok (StateDB.objects s) es D) -> wf es (StateDB.set_snapDestructs s D)) as H.
  { intros D HD. split; try done; [intros q Hq; apply W3; by right|intros a Ha; apply W8; by right]. }
  unfold restored. destruct (negb d && bool_decide (is_Some (StateDB.snap s))) eqn:Eb.
  - refine (wf_put es (StateDB.set_snapDestructs s (StateDB.snapDestructs s ∖ {[stateObject.addrHash o]})) p o _ Hp Hn).
    apply H. intros Hs. destruct (W5 Hs) as (o' & Hp' & _ & Hf). rewrite Hp in Hp'. injection Hp' as <-. by destruct d.
  - apply (wf_put es s p o); [|done|done]. destruct s. apply (H _). intros Hs. destruct (W5 Hs) as (o' & _ & _ & Hf).
    rewrite (bool_decide_eq_true_2 _ Hs) in Eb. by destruct d.
Qed.

(** Both states get the overwritten object back. *)
Lemma undo_reset es s t p d o o' : wf (resetObjectChange p d :: es) s -> wf (resetObjectChange p d :: es) t ->
  eqv (resetObjectChange p d :: es) s t -> StateDB.objects s !! p = Some o -> StateDB.objects t !! p = Some o' ->
  eqv es (restored s p d o) (restored t p d o').
Proof.
  intros Hs Ht He Hp Hp'. pose proof (eq_kept _ _ _ He p d ltac:(by left)) as Hk. rewrite Hp, Hp' in Hk. inversion Hk as [x y Hxy|]. subst x y.
  destruct (core_parts _ _ (oe_core _ _ _ _ _ Hxy)) as (Ha & Hh & _). destruct (eqv_ctx _ _ _ He) as [Ed Es].
  pose proof (eq_rest _ _ _ He) as Hr. pose proof (eq_still _ _ _ He) as Hst.
  assert (forall u q x, StateDB.db (restored u q d x) = StateDB.db u /\ StateDB.snap (restored u q d x) = StateDB.snap u /\
    still (restored u q d x) = still u /\ StateDB.objects (restored u q d x) = StateDB.objects u) as Hf.
  { intros u q x. unfold restored. by destruct (negb d && _). }
  assert (forall u q x b, stateObject.address x <> b -> view (restored u q d x) b = view u b) as Hv.
  { intros u q x b Hb. unfold view. destruct (Hf u q x) as (_ & _ & Hu & ->). rewrite (loadAccount_still _ _ b Hu).
    unfold restored. destruct (negb d && _); cbn; by rewrite lookup_insert_ne. }
  assert (forall u q x, StateDB.objects u !! q = Some x -> view (restored u q d x) (stateObject.address x) = Some x) as Hv'.
  { intros u q x Hq. unfold view. destruct (Hf u q x) as (_ & _ & _ & ->). unfold restored. destruct (negb d && _); cbn; by rewrite lookup_insert_eq. }
  assert (rest (restored s p d o) = rest (restored t p d o')) as Hrest.
  { unfold restored. rewrite Es, Hh. unfold rest in *. destruct (negb d && _); cbn; by injection Hr as -> -> -> -> -> ->. }
  destruct (Hf s p o) as (F1 & F2 & F3 & F4), (Hf t p o') as (_ & _ & G3 & G4).
  split; [by rewrite F3, G3|done| |].
  - intros b. rewrite F1, F2. destruct (decide (stateObject.address o = b)) as [<-|Hne].
    + rewrite (Hv' s p o Hp). rewrite Ha, (Hv' t p o' Hp'). constructor. destruct (StateDB.snap s) as [layer|] eqn:Esn.
      * assert (flag (restored s p d o) (stateObject.address o') = d) as ->; [|done]. rewrite <- Ha.
        destruct (wf_flags _ _ Hs ltac:(by rewrite Esn)) as (x & Hx & Hin & _). rewrite Hp in Hx. injection Hx as <-.
        unfold flag, restored. rewrite <- (ok_hash _ (obj_ok_at _ _ _ _ Hs Hp)), Esn. destruct d; cbn.
        -- by apply bool_decide_eq_true.
        -- apply bool_decide_eq_false. set_solver.
      * by eapply obj_eq_nosnap.
    + rewrite !Hv by congruence. assert (flag (restored s p d o) b = flag s b) as ->; [|apply He].
      unfold flag, restored. destruct (negb d && _); [|done]. cbn. apply bool_decide_ext.
      rewrite elem_of_difference, elem_of_singleton, (ok_hash _ (obj_ok_at _ _ _ _ Hs Hp)).
      split; [tauto|]. intros Hb. split; [done|]. intros Hb'. by apply addrHash_inj in Hb'.
  - intros q d' Hq. rewrite F1, F2, F4, G4. apply He. by right.
Qed.

(** A change of the fields of [rest] that is the same in both states. *)
Lemma eqv_rest es s t s' t' : eqv es s t -> still s' = still s -> still t' = still t -> rest s' = rest t' ->
  StateDB.snapDestructs s' = StateDB.snapDestructs s ->
  StateDB.objects s' = StateDB.objects s -> StateDB.objects t' = StateDB.objects t ->
  StateDB.stateObjects s' = StateDB.stateObjects s -> StateDB.stateObjects t' = StateDB.stateObjects t -> eqv es s' t'.
Proof.
  intros [E1 E2 E3 E4] Hs Ht Hr HD Ho Ho' Hl Hl'. destruct (still_ctx _ _ (eq_sym Hs)) as [Ed Es].
  assert (forall u u' b, still u' = still u -> StateDB.objects u' = StateDB.objects u -> StateDB.stateObjects u' = StateDB.stateObjects u ->
    view u' b = view u b) as Hv.
  { intros u u' b H1 H2 H3. unfold view. by rewrite H2, H3, (loadAccount_still _ _ b H1). }
  split; [congruence|done|..].
  - intros b. rewrite Ed, Es. unfold flag. rewrite HD, (Hv s s' b), (Hv t t' b); [apply E3|done..].
  - intros p d Hp. rewrite Ed, Es, Ho, Ho'. by apply E4.
Qed.

Lemma wf_rest es s s' : wf es s -> still s' = still s -> StateDB.snapDestructs s' = StateDB.snapDestructs s ->
  StateDB.stateObjectsDirty s' = StateDB.stateObjectsDirty s ->
  StateDB.objects s' = StateDB.objects s -> StateDB.stateObjects s' = StateDB.stateObjects s ->
  in_u64 (StateDB.logSize s') /\ (forall h, ~ (StateDB.logs s' !! h = Some [])) -> wf es s'.
Proof.
  intros [W1 W2 W3 W4 W5 W6 W7 W8 W9 W10] Hs HD Hd Ho Hl Hlg. destruct (still_ctx _ _ (eq_sym Hs)) as [_ Es].
  assert (StateDB.stateObjectsPending s' = StateDB.stateObjectsPending s) as Hp by (unfold still in Hs; by injection Hs).
  split; rewrite ?HD, ?Hd, ?Ho, ?Hl, ?Hp, ?Es; try done. by eapply proper_still.
Qed.

(** Undoing the same entry on states that cannot be told apart. *)
Definition undoes e es s1 t : Prop := exists t1, revertEntry e t = Ret (tt, t1) /\ eqv es s1 t1 /\ wf es s1 /\ wf es t1.

Lemma revert_mono_target e a f es s t s1 : target e = Some (a, f) -> wf (e :: es) s -> wf (e :: es) t -> eqv (e :: es) s t ->
  revertEntry e s = Ret (tt, s1) -> undoes e es s1 t.
Proof.
  intros Ht Hs Ht' He Hr. assert (forall p d, e <> resetObjectChange p d) as Hne by (by destruct e).
  pose proof (eqv_pop e es s t He) as He'. pose proof (wf_pop _ _ _ Hne Hs) as Ws. pose proof (wf_pop _ _ _ Hne Ht') as Wt.
  destruct (present_dec s a) as [Hp|Hn].
  - destruct (revert_target es e a f s Ht Ws Hp) as ([] & s2 & E2 & C2 & W2 & _). rewrite Hr in E2. injection E2 as <-.
    destruct (revert_target es e a f t Ht Wt (present_eqv _ _ _ _ He Hp)) as ([] & t2 & E2 & C2' & W2' & _). exists t2. split_and!; try done.
    by eapply changed_mono; [by eapply target_change|..].
  - assert (~ present t a) as Hn' by (intros H; by apply Hn, (present_eqv _ _ _ _ (eqv_sym _ _ _ He))).
    pose proof (revert_absent es e a f s Ht Ws Hn) as Ha. pose proof (revert_absent es e a f t Ht Wt Hn') as Hb.
    destruct e; try discriminate Ht; try (destruct Ha as [why Ha]; rewrite Ha in Hr; discriminate).
    destruct Ha as ([] & s2 & E2 & C2 & W2 & _), Hb as ([] & t2 & E3 & C3 & W3 & _). rewrite Hr in E2. injection E2 as <-.
    exists t2. split_and!; try done. exact (eqv_trans _ _ _ _ (eqv_sym _ _ _ C2) (eqv_trans _ _ _ _ He' C3)).
Qed.

Lemma revert_mono e es s t s1 : wf (e :: es) s -> wf (e :: es) t -> eqv (e :: es) s t ->
  revertEntry e s = Ret (tt, s1) -> undoes e es s1 t.
Proof.
  intros Hs Ht He Hr. pose proof (eq_rest _ _ _ He) as Hrest. unfold rest in Hrest. injection Hrest as H1 H2 H3 H4 H5 H6.
  pose proof (eqv_pop e es s t He) as He'.
  destruct e; try (eapply revert_mono_target; [reflexivity|exact Hs|exact Ht|exact He|exact Hr]).
  - cbn in Hr. injection Hr as <-. eexists. split; [reflexivity|]. destruct (undo_create es s t account Hs Ht He) as [U1 U2].
    destruct (undo_create es t s account Ht Hs (eqv_sym _ _ _ He)) as [_ U3]. done.
  - destruct (proj1 (wf_kept _ _ Hs prev ltac:(by left))) as [o Hp], (proj1 (wf_kept _ _ Ht prev ltac:(by left))) as [o' Hp'].
    rewrite (revert_reset _ _ _ _ Hp) in Hr. injection Hr as <-. eexists. rewrite (revert_reset _ _ _ _ Hp'). split; [done|].
    split_and!; [by apply undo_reset|by apply restored_wf..].
  - unfold revertEntry, modify in Hr. injection Hr as <-. eexists. split; [reflexivity|]. apply wf_pop in Hs, Ht; try done.
    split_and!; [|by apply (wf_rest es s); try apply Hs|by apply (wf_rest es t); try apply Ht]. eapply eqv_rest; [exact He'|done..| |done|done|done|done|done]. unfold rest. cbn. congruence.
  - cbn in Hr. unfold mbind, ST_bind, gets in Hr. apply wf_pop in Hs, Ht; try done.
    assert (exists f, (forall u, StateDB.logs u = StateDB.logs s ->
      revertEntry (addLogChange txhash) u = Ret (tt, StateDB.set_logSize (StateDB.set_logs u (f (StateDB.logs u))) (u64 (StateDB.logSize u - 1)))) /\
      forall h, ~ (f (StateDB.logs s) !! h = Some [])) as (f & Hf & Hfl).
    { cbn. unfold mbind, ST_bind, gets. cbn in Hr. destruct (default [] (StateDB.logs s !! txhash)) as [|x [|y l]] eqn:El; [discriminate Hr|..].
      - exists (delete txhash). split; [intros u Hu; cbn; rewrite Hu, El; cbn; by rewrite Hu|].
        intros h. rewrite lookup_delete_Some. intros [_ Hh]. by apply (proj2 (wf_logs _ _ Hs)) in Hh.
      - exists (<[txhash := take (length (x :: y :: l) - 1) (x :: y :: l)]>). split; [intros u Hu; cbn; rewrite Hu, El; cbn; by rewrite Hu|].
        intros h. rewrite lookup_insert_Some. intros [[_ Hh]|[_ Hh]]; [done|by apply (proj2 (wf_logs _ _ Hs)) in Hh]. }
    pose proof (Hf s eq_refl) as Hs1. cbn in Hs1. unfold mbind, ST_bind, gets in Hs1. rewrite Hs1 in Hr. injection Hr as <-.
    eexists. split; [by apply Hf|]. split_and!;
      [|apply (wf_rest es s); try done; split; [apply u64_range|done]|apply (wf_rest es t); try done; split; [apply u64_range|by rewrite <- H4]].
    eapply eqv_rest; [exact He'|done..| |done|done|done|done|done]. unfold rest. cbn. congruence.
  - unfold revertEntry, modify in Hr. injection Hr as <-. eexists. split; [reflexivity|]. apply wf_pop in Hs, Ht; try done.
    split_and!; [|by apply (wf_rest es s); try apply Hs|by apply (wf_rest es t); try apply Ht]. eapply eqv_rest; [exact He'|done..| |done|done|done|done|done]. unfold rest. cbn. congruence.
  - unfold revertEntry, modify in Hr. injection Hr as <-. eexists. split; [reflexivity|]. apply wf_pop in Hs, Ht; done.
Qed.

Lemma undirty_run e s : exists j, undirty e s = Ret (tt, StateDB.set_journal s j).
Proof. unfold undirty. destruct (dirtied e); [by eexists|]. exists (StateDB.journal s). by destruct s. Qed.

Lemma undo_mono new es s t s1 : wf (new ++ es) s -> wf (new ++ es) t -> eqv (new ++ es) s t -> undo new s = Ret (tt, s1) ->
  exists t1, undo new t = Ret (tt, t1) /\ eqv es s1 t1 /\ wf es s1 /\ wf es t1.
Proof.
  revert s t. induction new as [|e new IH]; intros s t Hs Ht He Hu; cbn in *.
  { injection Hu as <-. by exists t. }
  unfold undo1, mbind, ST_bind in *. destruct (revertEntry e s) as [[[] s2]|] eqn:E2; [|discriminate Hu]. cbn in Hu.
  destruct (undirty_run e s2) as [j Hj]. rewrite Hj in Hu. cbn in Hu.
  destruct (revert_mono e _ s t s2 Hs Ht He E2) as (t2 & R2 & He2 & Ws2 & Wt2). rewrite R2. cbn.
  destruct (undirty_run e t2) as [j' Hj']. rewrite Hj'. cbn.
  apply (IH (StateDB.set_journal s2 j)); [by apply wf_journal..|by apply eqv_journal|done].
Qed.

(** ** Operations that can be undone *)

Definition ok s : Prop := wf (stack s) s.
Definition revs s := (StateDB.validRevisions s, StateDB.nextRevisionId s).
Definition goes s s' : Prop := from s s' /\ revs s' = revs s.

Lemma undo_app x y s : undo (x ++ y) s = let! (_, s1) := undo x s in undo y s1.
Proof.
  revert s. induction x as [|e x IH]; intros s; cbn; [done|]. unfold mbind, ST_bind. destruct (undo1 e s) as [[[] s1]|]; cbn; [|done].
  apply IH.
Qed.

Lemma from_trans s s1 s2 : from s s1 -> from s1 s2 -> from s s2.
Proof.
  intros (n1 & t1 & S1 & W1 & U1 & E1 & V1) (n2 & t2 & S2 & W2 & U2 & E2 & V2). rewrite S1 in *.
  destruct (undo_mono n1 (stack s) s1 t2 t1 W1 V2 E2 U1) as (t3 & U3 & E3 & _ & V3).
  exists (n2 ++ n1), t3. rewrite S2, app_assoc. split_and!; try done.
  - by rewrite <- app_assoc, <- S2.
  - rewrite undo_app, U2. done.
  - by eapply eqv_trans.
Qed.

Lemma from_eqv s s' : tail s' = tail s -> wf (stack s) s' -> eqv (stack s) s s' -> from s s'.
Proof. intros Ht Hw He. assert (stack s' = stack s) as Hs by (unfold stack, tail in *; congruence). exists [], s'. by rewrite Hs. Qed.

Lemma from_entry s s' e s'' : stack s' = e :: stack s -> wf (e :: stack s) s' -> revertEntry e s' = Ret (tt, s'') ->
  eqv (stack s) s s'' -> wf (stack s) s'' -> from s s'.
Proof.
  intros Hs Hw Hr He Hw'. destruct (undirty_run e s'') as [j Hj]. exists [e], (StateDB.set_journal s'' j). rewrite Hs. split_and!; try done.
  - cbn. unfold undo1, mbind, ST_bind. rewrite Hr. cbn. by rewrite Hj.
  - by destruct He.
  - by apply wf_journal.
Qed.

Lemma goes_refl s : ok s -> goes s s.
Proof. intros H. split; [|done]. apply from_eqv; [done|done|apply eqv_refl]. Qed.

Lemma goes_then s s1 s2 : goes s s1 -> goes s1 s2 -> goes s s2.
Proof. intros [H1 E1] [H2 E2]. split; [by eapply from_trans|congruence]. Qed.

Lemma goes_ok s s' : goes s s' -> ok s'.
Proof. by intros [(new & s'' & H1 & H2 & _) _]. Qed.

Lemma found_goes s a r s' : found (stack s) s a r s' -> goes s s'.
Proof. intros [H1 H2 H3 _ _]. split; [by apply from_eqv|]. unfold tail in H3. unfold revs. congruence. Qed.

Lemma stack_append s e : stack (StateDB.set_journal s (journal.mk (journal.entries (StateDB.journal s) ++ [e])
  (match dirtied e with Some a => bump a (journal.dirties (StateDB.journal s)) | None => journal.dirties (StateDB.journal s) end))) = e :: stack s.
Proof. exact (reverse_snoc _ _). Qed.

Lemma wf_push e es s : (forall p d, e <> resetObjectChange p d) -> (forall a, e <> createObjectChange a) -> wf es s -> wf (e :: es) s.
Proof.
  intros He He' [W1 W2 W3 W4 W5 W6 W7 W8 W9 W10]. assert (pointers (e :: es) = pointers es) as Hp.
  { destruct e; try done. by destruct (He prev prevdestruct). }
  split; rewrite ?Hp; try done.
  - intros Hs. pose proof (W5 Hs) as Hf. destruct e; try done. by destruct (He prev prevdestruct).
  - intros a Ha. apply elem_of_cons in Ha as [Ha|Ha]; [by destruct (He' a)|auto].
Qed.

(** A journalled change of a live object. *)
Lemma journalled s a p o e f g : ok s -> StateDB.stateObjects s !! a = Some p -> StateDB.objects s !! p = Some o ->
  stateObject.deleted o = false -> target e = Some (a, g) -> change f -> stateObject.deleted (f o) = false ->
  obj_eq (StateDB.db s) (StateDB.snap s) (flag s a) o (g (f o)) ->
  wp (journalAppend e;; update p f) (fun _ s' => goes s s' /\ changed (stack s) a f s s') s.
Proof.
  intros Hw Ha Hp Hd Ht Hf Hd' Hb. unfold wp, journalAppend, mbind, ST_bind, update, modify. cbn [obind].
  set (s1 := StateDB.set_journal s _). set (s2 := StateDB.set_objects s1 _).
  assert (stack s1 = e :: stack s) as Hs1 by apply stack_append.
  assert (wf (stack s) s1) as W1 by (by apply wf_journal).
  assert (wf (stack s) s2) as W2 by (by apply (wf_update _ s1 p o); [| |apply Hf]).
  assert (changed (stack s) a f s1 s2) as C by (by eapply (update_changed _ s1)).
  assert (present s2 a) as Hpr.
  { exists (f o). split; [|done]. unfold view, s2. cbn. by rewrite Ha, list_lookup_alter_eq, Hp. }
  destruct (revert_target (stack s) e a g s2 Ht W2 Hpr) as ([] & s3 & E3 & C3 & W3 & _).
  split; [split; [|done]|by destruct C].
  apply (from_entry s s2 e s3); [done| |done| |done].
  - apply wf_push; [by destruct e|by destruct e|done].
  - assert (eqv (stack s) s1 s3) as E by (eapply (changed_back _ a f g); [by eapply target_change|done|done|];
        intros x Hx; assert (x = o) as -> by (unfold view in Hx; cbn in Hx; rewrite Ha in Hx; congruence); exact Hb).
    by destruct E.
Qed.

(** ** Creating objects *)

Definition blank a : stateObject.t := newObject a (Account.mk 0 0 zeroHash None).

(** The state after [createObject]: a new object [n], the entry [e], the marks [D]. *)
Definition created s a (n : stateObject.t) e (D : gset bytes) : StateDB.t :=
  let j := StateDB.journal s in
  StateDB.set_stateObjects
    (StateDB.set_journal (StateDB.set_objects (StateDB.set_snapDestructs s D) (StateDB.objects s ++ [n]))
      (journal.mk (journal.entries j ++ [e]) (match dirtied e with Some b => bump b (journal.dirties j) | None => journal.dirties j end)))
    (<[a := length (StateDB.objects s)]> (StateDB.stateObjects s)).

(** The mark that [createObject] sets. *)
Definition marked s a : gset bytes :=
  if bool_decide (is_Some (StateDB.snap s)) then {[Keccak256Hash a]} ∪ StateDB.snapDestructs s else StateDB.snapDestructs s.

Definition was_marked s a : bool := bool_decide (is_Some (StateDB.snap s)) && flag s a.

Lemma last_at s (n : stateObject.t) : (StateDB.objects s ++ [n]) !! length (StateDB.objects s) = Some n.
Proof. by apply list_lookup_middle. Qed.

Lemma view_created_ne es s a n e D b : wf es s -> b <> a -> view (created s a n e D) b = view s b.
Proof.
  intros Hw Hb. unfold view, created. cbn. rewrite lookup_insert_ne by done. destruct (StateDB.stateObjects s !! b) as [q|] eqn:Eb; [|done].
  destruct (wf_live _ _ Hw b q Eb) as (x & Hx & _). by rewrite Hx, (lookup_app_l_Some _ _ _ _ Hx).
Qed.

(** [createObject] overwrites the object [r] that was there, if any. *)
Definition creates s a (x : nat * option nat) s' : Prop :=
  exists r s1, loaded (stack s) s a r s1 /\
  match r with
  | None => x = (length (StateDB.objects s1), None) /\ s' = created s1 a (blank a) (createObjectChange a) (StateDB.snapDestructs s1)
  | Some q => exists o, StateDB.objects s1 !! q = Some o /\ stateObject.address o = a /\
      x = (length (StateDB.objects s1), if stateObject.deleted o then None else Some q) /\
      s' = created s1 a (blank a) (resetObjectChange q (was_marked s1 a)) (marked s1 a)
  end.

Lemma twp_create {A} s a e D (k : nat -> M A) Q : twp (k (length (StateDB.objects s))) Q (created s a (blank a) e D) ->
  twp (p ← alloc (blank a); journalAppend e;; setStateObject p;; k p) Q (StateDB.set_snapDestructs s D).
Proof.
  intros H. apply twp_bind. eexists _, _. split; [reflexivity|]. apply twp_bind, twp_modify, twp_bind. eexists _, _.
  split; [apply (setStateObject_run _ _ (blank a)), last_at|]. exact H.
Qed.

Lemma createObject_spec s a : ok s -> twp (createObject a) (creates s a) s.
Proof.
  intros Hw. unfold createObject. apply twp_bind. eapply twp_mono; [by apply (getDeleted_spec (stack s))|].
  intros r s1 Hl. pose proof (lo_wf _ _ _ _ _ Hl) as W1. pose proof (lo_ptr _ _ _ _ _ Hl) as Hp.
  destruct r as [q|]; cbn in Hp.
  - destruct (wf_live _ _ W1 a q Hp) as (o & Ho & Ha). pose proof (ok_hash _ (obj_ok_at _ _ _ _ W1 Ho)) as Hh. rewrite Ha in Hh.
    apply twp_bind, twp_bind. exists o, s1. split; [by apply deref_run|]. apply twp_ret, twp_bind, twp_gets, twp_bind.
    apply (twp_mono _ (fun d s2 => d = was_marked s1 a /\ s2 = StateDB.set_snapDestructs s1 (marked s1 a))).
    + rewrite Hh. unfold was_marked, marked, flag. destruct (StateDB.snap s1) as [layer|]; cbn.
      * apply twp_bind, twp_gets, twp_bind. destruct (bool_decide_reflect (Keccak256Hash a ∈ StateDB.snapDestructs s1)) as [Hin|Hn]; cbn.
        -- apply twp_ret, twp_ret. split; [done|]. destruct s1. cbn in *. unfold StateDB.set_snapDestructs. cbn. f_equal. set_solver.
        -- apply twp_modify, twp_ret. done.
      * apply twp_ret. split; [done|]. by destruct s1.
    + intros d s2 [-> ->]. apply twp_create. apply twp_bind. exists o. eexists. split; [apply deref_run; by apply lookup_app_l_Some|].
      apply twp_ret. exists (Some q), s1. split; [done|]. by exists o.
  - apply twp_bind, twp_ret, twp_bind, twp_gets, twp_bind.
    apply (twp_mono _ (fun d s2 => s2 = StateDB.set_snapDestructs s1 (StateDB.snapDestructs s1))).
    + destruct (StateDB.snap s1); apply twp_ret; by destruct s1.
    + intros d s2 ->. apply (twp_create _ _ (createObjectChange a)), twp_ret. exists None, s1. done.
Qed.

Lemma kept_created es s a n e D q : wf es s -> q ∈ pointers es -> StateDB.objects (created s a n e D) !! q = StateDB.objects s !! q.
Proof. intros Hw Hq. destruct (proj1 (wf_kept _ _ Hw q Hq)) as [x Hx]. cbn. by rewrite Hx, (lookup_app_l_Some _ _ _ _ Hx). Qed.

(** What holds of the new state whatever the entry. *)
Lemma created_wf es s a n e D : wf es s -> obj_ok n -> stateObject.address n = a -> (forall b, e = createObjectChange b -> b = a /\ StateDB.stateObjects s !! a = None) ->
  (forall p, p ∈ pointers (e :: es) -> is_Some (StateDB.objects s !! p) /\ forall b, b <> a -> ~ (StateDB.stateObjects s !! b = Some p)) ->
  NoDup (pointers (e :: es)) -> (is_Some (StateDB.snap s) -> flags_ok (StateDB.objects s) (e :: es) D) -> wf (e :: es) (created s a n e D).
Proof.
  intros [W1 W2 W3 W4 W5 W6 W7 W8 W9 W10] Hn1 Hn2 He Hk Hn Hf.
  assert (forall q x, StateDB.objects s !! q = Some x -> (StateDB.objects s ++ [n]) !! q = Some x) as Hx.
  { intros q x Hq. by apply lookup_app_l_Some. }
  assert (forall b, <[a := length (StateDB.objects s)]> (StateDB.stateObjects s) !! b =
    if decide (b = a) then Some (length (StateDB.objects s)) else StateDB.stateObjects s !! b) as Hl.
  { intros b. case_decide as Hd; [subst; apply lookup_insert_eq|by apply lookup_insert_ne]. }
  split; cbn -[pointers flags_ok]; try done.
  - intros b q. rewrite Hl. case_decide as Hd.
    + intros [= <-]. exists n. rewrite last_at. split; congruence.
    + intros Hq. destruct (W1 b q Hq) as (x & H1 & H2). eauto.
  - apply Forall_app. split; [done|]. by apply Forall_singleton.
  - intros q Hq. destruct (Hk q Hq) as [[x H1] H2]. split; [exists x; auto|]. intros b. rewrite Hl. case_decide as Hd; [|by apply H2].
    intros [= <-]. apply lookup_lt_Some in H1. lia.
  - intros Hs. eapply flags_ok_ext; [|by apply Hf]. intros q x Hq. eauto.
  - rewrite dom_insert. set_solver.
  - rewrite dom_insert. set_solver.
  - intros b Hb. apply elem_of_cons in Hb as [Hb|Hb]; [|auto]. destruct (He b) as [-> Hno]; [done|].
    assert (a ∉ dom (StateDB.stateObjects s)) as Hd by (by apply not_elem_of_dom). set_solver.
Qed.

Lemma loaded_from s a r s1 : loaded (stack s) s a r s1 -> goes s s1 /\ stack s1 = stack s.
Proof.
  intros [H1 H2 H3 _ _ _]. unfold tail in H3. split; [split; [by apply from_eqv|unfold revs; congruence]|unfold stack; congruence].
Qed.

Lemma created_new s a : ok s -> StateDB.stateObjects s !! a = None -> goes s (created s a (blank a) (createObjectChange a) (StateDB.snapDestructs s)).
Proof.
  intros Hw Ha. set (s' := created s a _ _ _). set (e := createObjectChange a).
  assert (stack s' = e :: stack s) as Hs by apply (stack_append s e).
  assert (wf (e :: stack s) s') as W'.
  { apply created_wf; [done|apply freshObject_ok|done|by intros b [= <-]| |by apply (wf_apart _ _ Hw)|by apply (wf_flags _ _ Hw)].
    intros p Hp. destruct (wf_kept _ _ Hw p Hp) as [H1 H2]. split; [done|]. intros b _. apply H2. }
  set (s'' := StateDB.set_stateObjectsDirty (StateDB.set_stateObjects s' (delete a (StateDB.stateObjects s'))) (StateDB.stateObjectsDirty s' ∖ {[a]})).
  split; [|done]. apply (from_entry s s' e s''); [done|done|reflexivity| |].
  - split; [done| | |].
    + assert (a ∉ StateDB.stateObjectsDirty s) as Hd by (intros Hd; apply (wf_dirty _ _ Hw), elem_of_dom in Hd as [p Hp]; congruence).
      unfold rest. cbn. assert (StateDB.stateObjectsDirty s ∖ {[a]} = StateDB.stateObjectsDirty s) as -> by set_solver. done.
    + intros b. assert (view s'' b = view s b) as ->; [|apply oeq_refl].
      destruct (decide (b = a)) as [->|Hne].
      * unfold view. cbn. by rewrite lookup_delete_eq, Ha.
      * rewrite <- (view_created_ne _ s a (blank a) e (StateDB.snapDestructs s) b Hw Hne). unfold view. cbn. by rewrite lookup_delete_ne.
    + intros p d Hp. cbn. rewrite <- (kept_created _ s a (blank a) e (StateDB.snapDestructs s) p Hw) by (by eapply elem_pointers). apply oeq_refl.
  - by apply (undo_create (stack s) s' s' a).
Qed.

(** Undoing the mark. *)
Lemma unmark s a : is_Some (StateDB.snap s) ->
  (if was_marked s a then marked s a else marked s a ∖ {[Keccak256Hash a]}) = StateDB.snapDestructs s.
Proof.
  intros Hs. unfold was_marked, marked, flag. rewrite (bool_decide_eq_true_2 _ Hs). cbn.
  destruct (bool_decide_reflect (Keccak256Hash a ∈ StateDB.snapDestructs s)); set_solver.
Qed.

Lemma created_over s a q o n : ok s -> obj_ok n -> stateObject.address n = a -> StateDB.stateObjects s !! a = Some q -> StateDB.objects s !! q = Some o -> stateObject.address o = a ->
  goes s (created s a n (resetObjectChange q (was_marked s a)) (marked s a)).
Proof.
  intros Hw Hn1 Hn2 Ha Ho Had. set (s' := created s a _ _ _). set (e := resetObjectChange q (was_marked s a)).
  pose proof (ok_hash _ (obj_ok_at _ _ _ _ Hw Ho)) as Hh. rewrite Had in Hh.
  assert (stack s' = e :: stack s) as Hs by apply (stack_append s e).
  assert (StateDB.objects s' !! q = Some o) as Ho' by (by apply lookup_app_l_Some).
  assert (wf (e :: stack s) s') as W'.
  { apply created_wf; [done|done|done|by intros b [=]| | |].
    - intros p Hp. apply elem_of_cons in Hp as [->|Hp].
      + split; [by exists o|]. intros b Hb Hq. by apply Hb, (live_inj _ _ _ _ _ Hw Hq).
      + destruct (wf_kept _ _ Hw p Hp) as [H1 H2]. split; [done|]. intros b _. apply H2.
    - apply NoDup_cons. split; [|apply (wf_apart _ _ Hw)]. intros Hq. by destruct (proj2 (wf_kept _ _ Hw q Hq) a).
    - intros Hsn. exists o. rewrite Hh, (unmark _ _ Hsn). split_and!; [done| |by apply (wf_flags _ _ Hw)].
      unfold marked. rewrite (bool_decide_eq_true_2 _ Hsn). set_solver. }
  split; [|done]. apply (from_entry s s' e (restored s' q (was_marked s a) o)); [done|done|by apply revert_reset| |by apply restored_wf].
  assert (forall b, view (restored s' q (was_marked s a) o) b = view s b) as Hv.
  { intros b. transitivity (view (StateDB.set_stateObjects s' (<[a := q]> (StateDB.stateObjects s'))) b).
    - unfold restored. rewrite Had. by destruct (negb _ && _).
    - destruct (decide (b = a)) as [->|Hne].
      + unfold view. cbn. by rewrite lookup_insert_eq, Ha, Ho, (lookup_app_l_Some _ _ _ _ Ho).
      + rewrite <- (view_created_ne _ s a n e (marked s a) b Hw Hne). unfold view. cbn. by rewrite !(lookup_insert_ne _ a b) by done. }
  split.
  - unfold restored. by destruct (negb _ && _).
  - unfold rest, restored. rewrite Hh. destruct (bool_decide_reflect (is_Some (StateDB.snap s))) as [Hsn|Hsn].
    + pose proof (unmark s a Hsn) as Hu. rewrite bool_decide_eq_true_2 by done. destruct (was_marked s a); cbn in *; by rewrite Hu.
    + rewrite bool_decide_eq_false_2 by done. rewrite andb_false_r. cbn. unfold marked. by rewrite bool_decide_eq_false_2.
  - intros b. rewrite Hv. apply oeq_refl.
  - intros p d Hp. assert (StateDB.objects (restored s' q (was_marked s a) o) = StateDB.objects s') as -> by (unfold restored; by destruct (negb _ && _)).
    unfold s'. rewrite (kept_created (stack s) s a _ _ _ p Hw) by (by eapply elem_pointers). apply oeq_refl.
Qed.

(** Creating an object can be undone. *)
Lemma creates_goes s a x s' : ok s -> creates s a x s' -> goes s s' /\
  StateDB.stateObjects s' !! a = Some x.1 /\ StateDB.objects s' !! x.1 = Some (blank a) /\
  forall q, x.2 = Some q -> exists o, StateDB.objects s' !! q = Some o /\ view s a = Some o /\ stateObject.deleted o = false.
Proof.
  intros Hw (r & s1 & Hl & Hr). destruct (loaded_from _ _ _ _ Hl) as [G1 Hst]. pose proof (goes_ok _ _ G1) as W1.
  pose proof (lo_ptr _ _ _ _ _ Hl) as Hp. destruct r as [q|]; cbn in Hp.
  - destruct Hr as (o & Ho & Had & -> & ->). split; [eapply goes_then; [exact G1|apply (created_over _ _ _ o); [done|apply freshObject_ok|done..]]|].
    split; [apply lookup_insert_eq|]. split; [apply last_at|]. cbn. intros q' Hq'. destruct (stateObject.deleted o) eqn:Ed; [done|].
    injection Hq' as <-. exists o. split; [by apply lookup_app_l_Some|]. by rewrite <- (lo_view _ _ _ _ _ Hl), (view_live _ _ _ Hp).
  - destruct Hr as [-> ->]. split; [eapply goes_then; [exact G1|by apply created_new]|].
    split; [apply lookup_insert_eq|]. split; [apply last_at|]. done.
Qed.

(** ** Reading through the caches *)

(** Accounts other than [a] are as before. *)
Record elsewhere a s s' : Prop := {
  el_still : still s' = still s;
  el_flag : forall b, b <> a -> flag s' b = flag s b;
  el_view : forall b, b <> a -> oeq s (flag s b) (view s b) (view s' b)
}.

Lemma elsewhere_trans a s s1 s2 : elsewhere a s s1 -> elsewhere a s1 s2 -> elsewhere a s s2.
Proof.
  intros [A1 A2 A3] [B1 B2 B3]. destruct (still_ctx _ _ (eq_sym A1)) as [Ed Es]. split; [congruence|..].
  - intros b Hb. rewrite B2, A2 by done. done.
  - intros b Hb. pose proof (B3 b Hb) as V. rewrite Ed, Es, A2 in V by done. etransitivity; [by apply A3|exact V].
Qed.

Lemma elsewhere_eqv es a s s' : eqv es s s' -> elsewhere a s s'.
Proof. intros H. split; [symmetry; apply H|intros b _; by apply (eqv_flag es)|intros b _; apply H]. Qed.

Lemma elsewhere_changed es a f s s' : changed es a f s s' -> elsewhere a s s'.
Proof. intros [C1 C2 _ C4 _]. split; [done|intros b _; by apply rest_flag|done]. Qed.

(** Nothing is journalled and nothing that can be read changes. *)
Definition quiet s s' : Prop := tail s' = tail s /\ wf (stack s) s' /\ eqv (stack s) s s'.

Lemma quiet_goes s s' : quiet s s' -> goes s s'.
Proof. intros (Ht & Hw & He). split; [by apply from_eqv|]. unfold tail in Ht. unfold revs. congruence. Qed.

Lemma quiet_stack s s' : quiet s s' -> stack s' = stack s.
Proof. intros (Ht & _). unfold tail in Ht. unfold stack. congruence. Qed.

Lemma quiet_refl s : ok s -> quiet s s.
Proof. intros Hw. split_and!; [done|done|apply eqv_refl]. Qed.

Lemma quiet_chain s s1 s2 : quiet s s1 -> quiet s1 s2 -> quiet s s2.
Proof.
  intros Q1 (T2 & W2 & E2). rewrite (quiet_stack _ _ Q1) in W2, E2. destruct Q1 as (T1 & W1 & E1).
  split_and!; [congruence|done|by eapply eqv_trans].
Qed.

Lemma found_quiet s a r s' : found (stack s) s a r s' -> quiet s s'.
Proof. intros [H1 H2 H3 _ _]. by split_and!. Qed.

(** The live object of [a] is the same up to its caches. *)
Definition cached s a p o s' : Prop :=
  (quiet s s' /\ elsewhere a s s') /\ still s' = still s /\ flag s' a = flag s a /\ StateDB.stateObjects s' !! a = Some p /\
  exists o', StateDB.objects s' !! p = Some o' /\ obj_eq (StateDB.db s) (StateDB.snap s) (flag s a) o o'.

Lemma cached_refl s a p o : ok s -> StateDB.stateObjects s !! a = Some p -> StateDB.objects s !! p = Some o -> cached s a p o s.
Proof. intros Hw Ha Ho. split; [split; [by apply quiet_refl|apply (elsewhere_eqv (stack s)), eqv_refl]|]. split_and!; try done. by exists o. Qed.

(** One more field of the object is filled in. *)
Lemma cached_fill s a p o s1 o1 f : cached s a p o s1 -> StateDB.objects s1 !! p = Some o1 -> same_id o1 (f o1) ->
  obj_eq (StateDB.db s) (StateDB.snap s) (flag s a) o1 (f o1) ->
  cached s a p o (StateDB.set_objects s1 (alter f p (StateDB.objects s1))).
Proof.
  intros ([G Hel] & Hs & Hfl & Hp & o' & Ho' & He) Ho1 Hid Hf. rewrite Ho' in Ho1. injection Ho1 as ->.
  pose proof (goes_ok _ _ (quiet_goes _ _ G)) as Hw. destruct (view_update _ s1 a p o1 f Hw Hp Ho') as (V1 & V2 & V3).
  destruct (still_ctx _ _ (eq_sym Hs)) as [Ed Es]. fold (StateDB.set_objects s1 (alter f p (StateDB.objects s1))) in V1, V2, V3. set (s' := StateDB.set_objects s1 _) in *.
  assert (eqv (stack s1) s1 s') as E.
  { split; [done|done|..].
    + intros b. rewrite Ed, Es. destruct (decide (b = a)) as [->|Hne].
      * rewrite V1, (view_live _ _ _ Hp), Ho'. constructor. by rewrite Hfl.
      * rewrite V2 by done. apply oeq_refl.
    + intros q d Hq. rewrite V3 by (by eapply elem_pointers). apply oeq_refl. }
  split; [split|split_and!; try done].
  - eapply quiet_chain; [exact G|]. split_and!; [done|by eapply wf_update|done].
  - eapply elsewhere_trans; [done|by eapply elsewhere_eqv].
  - exists (f o1). cbn. rewrite list_lookup_alter_eq, Ho'. split; [done|]. by etransitivity.
Qed.

Lemma obj_eq_err db snap d o err : obj_eq db snap d o (stateObject.set_dbErr o err).
Proof. by split. Qed.

Lemma obj_eq_trie db snap d o tr : openView db o = tr -> obj_eq db snap d o (stateObject.set_trie o tr).
Proof.
  intros Ht. assert (openView db (stateObject.set_trie o tr) = tr) as Hv.
  { destruct tr as [tr|]; [done|]. unfold openView in *. cbn. by destruct (stateObject.trie o). }
  assert (forall k, committedView db snap d o k = committedView db snap d (stateObject.set_trie o tr) k) as Hc.
  { intros k. unfold committedView. cbn. destruct (stateObject.fakeStorage o), (stateObject.pendingStorage o !! k), (stateObject.originStorage o !! k); try done.
    unfold freshSlot, trieSlot. cbn. by rewrite Hv, Ht. }
  split; [done|done|done|]. intros k. unfold stateView. cbn. by rewrite Hc.
Qed.

Lemma obj_eq_slot db snap d o k v : committedView db snap d o k = Some v ->
  obj_eq db snap d o (stateObject.set_originStorage o (<[k := v]> (stateObject.originStorage o))).
Proof.
  intros Hv. assert (forall k', committedView db snap d o k' =
    committedView db snap d (stateObject.set_originStorage o (<[k := v]> (stateObject.originStorage o))) k') as Hc.
  { intros k'. unfold committedView in *. cbn. destruct (stateObject.fakeStorage o); [done|]. destruct (decide (k = k')) as [<-|Hne].
    - rewrite lookup_insert_eq. by destruct (stateObject.pendingStorage o !! k).
    - by rewrite lookup_insert_ne. }
  split; [done|done|done|]. intros k'. unfold stateView. cbn. by rewrite Hc.
Qed.

Lemma obj_eq_loadcode db snap d o : obj_eq db snap d o (stateObject.set_code o (codeView db o)).
Proof.
  split; [done| |done|done]. unfold codeView. cbn. destruct (stateObject.code o); [done|].
  destruct (bytes_equal _ _) eqn:Eb; [done|]. by destruct (ContractCode db _ _).1.
Qed.

(** A computation that only fills caches of the object, which is [o1] before; it
    gives [Q] of its result and the object after, or panics under [P]. *)
Definition reads {A} s a p o o1 (m : M A) (Q : A -> stateObject.t -> Prop) (P : Prop) : Prop :=
  forall s1, cached s a p o s1 -> StateDB.objects s1 !! p = Some o1 ->
    match m s1 with
    | Ret (x, s') => exists o2, cached s a p o s' /\ StateDB.objects s' !! p = Some o2 /\ Q x o2
    | Panic _ => P
    end.

Abbreviation alike s a := (obj_eq (StateDB.db s) (StateDB.snap s) (flag s a)).

Lemma reads_known {A} s a p o o1 (m : M A) Q P : (alike s a o o1 -> reads s a p o o1 m Q P) -> reads s a p o o1 m Q P.
Proof.
  intros H s1 Hc Ho. apply H; [|done|done]. pose proof Hc as (_ & _ & _ & _ & o' & Ho' & He). rewrite Ho in Ho'. by injection Ho' as <-.
Qed.

Lemma reads_mono {A} s a p o o1 (m : M A) (Q Q' : A -> stateObject.t -> Prop) P :
  reads s a p o o1 m Q P -> (forall x o2, Q x o2 -> Q' x o2) -> reads s a p o o1 m Q' P.
Proof.
  intros Hm HQ s1 Hc Ho. pose proof (Hm s1 Hc Ho) as H. destruct (m s1) as [[x s2]|]; [|done]. destruct H as (o2 & H1 & H2 & H3). exists o2. auto.
Qed.

Lemma reads_update s a p o o1 f (Q : unit -> stateObject.t -> Prop) P : same_id o1 (f o1) -> alike s a o1 (f o1) -> Q tt (f o1) ->
  reads s a p o o1 (update p f) Q P.
Proof.
  intros Hid He HQ s1 Hc Ho. cbn. exists (f o1). split_and!; [by eapply cached_fill| |done].
  cbn. by rewrite list_lookup_alter_eq, Ho.
Qed.

Lemma reads_bind {A B} s a p o o1 (m : M A) (f : A -> M B) Q Q' P :
  reads s a p o o1 m Q P -> (forall x o2, Q x o2 -> reads s a p o o2 (f x) Q' P) -> reads s a p o o1 (m ≫= f) Q' P.
Proof.
  intros Hm Hf s1 Hc Ho. pose proof (Hm s1 Hc Ho) as H. unfold mbind, ST_bind. destruct (m s1) as [[x s2]|]; [|done].
  destruct H as (o2 & H1 & H2 & H3). by apply (Hf x o2).
Qed.

Lemma reads_ret {A} s a p o o1 (x : A) (Q : A -> stateObject.t -> Prop) P : Q x o1 -> reads s a p o o1 (mret x) Q P.
Proof. intros HQ s1 Hc Ho. by exists o1. Qed.

Lemma reads_setError s a p o o1 err P : reads s a p o o1 (objSetError p err) (fun _ _ => True) P.
Proof. apply reads_update; [split; [done|]; by intros [K1 K2 K3]|apply obj_eq_err|done]. Qed.

Lemma reads_deref {B} s a p o o1 (f : stateObject.t -> M B) Q P : reads s a p o o1 (f o1) Q P -> reads s a p o o1 (deref p ≫= f) Q P.
Proof. intros Hf s1 Hc Ho. unfold mbind, ST_bind. rewrite (deref_run _ _ _ Ho). by apply Hf. Qed.

Lemma reads_gets {A B} s a p o o1 (g : StateDB.t -> A) (f : A -> M B) Q P : (forall s1, cached s a p o s1 -> g s1 = g s) ->
  reads s a p o o1 (f (g s)) Q P -> reads s a p o o1 (gets g ≫= f) Q P.
Proof. intros Hg Hf s1 Hc Ho. unfold mbind, ST_bind, gets. cbn. rewrite (Hg s1 Hc). by apply Hf. Qed.

Lemma cached_db s a p o s1 : cached s a p o s1 -> StateDB.db s1 = StateDB.db s.
Proof. intros (_ & Hs & _). by destruct (still_ctx _ _ (eq_sym Hs)). Qed.

Lemma cached_snap s a p o s1 : cached s a p o s1 -> StateDB.snap s1 = StateDB.snap s.
Proof. intros (_ & Hs & _). by destruct (still_ctx _ _ (eq_sym Hs)). Qed.

Lemma cached_flag s a p o s1 h : h = Keccak256Hash a -> cached s a p o s1 ->
  bool_decide (h ∈ StateDB.snapDestructs s1) = bool_decide (h ∈ StateDB.snapDestructs s).
Proof. intros -> (_ & _ & Hf & _). exact Hf. Qed.

Lemma same_id_trie o tr : same_id o (stateObject.set_trie o tr).
Proof. split; [done|]. by intros [K1 K2 K3]. Qed.

Lemma same_id_origin o m : same_id o (stateObject.set_originStorage o m).
Proof. split; [done|]. by intros [K1 K2 K3]. Qed.

Lemma same_id_code o c : same_id o (stateObject.set_code o c).
Proof. split; [done|]. by intros [K1 K2 K3]. Qed.

Lemma reads_getTrie s a p o o1 P : reads s a p o o1 (getTrie p) (fun tr _ => tr = openView (StateDB.db s) o1) P.
Proof.
  unfold getTrie. apply reads_deref. destruct (stateObject.trie o1) as [tr|] eqn:Et.
  { apply reads_ret. unfold openView. by rewrite Et. }
  apply (reads_gets _ _ _ _ _ StateDB.db); [apply cached_db|]. destruct (OpenStorageTrie (StateDB.db s) (stateObject.addrHash o1) (Account.Root (stateObject.data o1))) as [tr|err] eqn:Eo; rewrite ?Eo.
  - assert (openView (StateDB.db s) o1 = Some tr) as Hv by (unfold openView; by rewrite Et, Eo).
    eapply reads_bind; [apply (reads_update _ _ _ _ _ _ (fun _ _ => True) P); [apply same_id_trie|by apply obj_eq_trie|done]|].
    intros _ o2 _. by apply reads_ret.
  - set (tr := match OpenStorageTrie _ _ zeroHash with inl tr => Some tr | inr _ => None end).
    assert (openView (StateDB.db s) o1 = tr) as Hv by (unfold openView; by rewrite Et, Eo).
    eapply reads_bind; [apply (reads_update _ _ _ _ _ _ (fun _ _ => True) P); [apply same_id_trie|by apply obj_eq_trie|done]|].
    intros _ o2 _. eapply reads_bind; [apply reads_setError|]. intros _ o3 _. by apply reads_ret.
Qed.

Lemma reads_cacheSlot s a p o o1 k enc P : committedView (StateDB.db s) (StateDB.snap s) (flag s a) o k = Some (slotValue enc) ->
  reads s a p o o1 (cacheSlot p k enc) (fun v _ => v = slotValue enc) P.
Proof.
  intros Hv. unfold cacheSlot. fold (slotValue enc).
  eapply (reads_bind _ _ _ _ _ _ _ (fun _ _ => True)).
  { destruct (negb _); [apply reads_setError|by apply reads_ret]. }
  intros _ o2 _. apply reads_known. intros He.
  eapply reads_bind; [apply (reads_update _ _ _ _ _ _ (fun _ _ => True) P); [apply same_id_origin| |done]|].
  - apply obj_eq_slot. rewrite <- (oe_committed _ _ _ _ _ He). exact Hv.
  - intros _ o3 _. by apply reads_ret.
Qed.

Lemma reads_readSlot s a p o o1 k V : V = committedView (StateDB.db s) (StateDB.snap s) (flag s a) o k ->
  V = trieSlot (StateDB.db s) o1 k -> reads s a p o o1 (readSlot p k) (fun v _ => V = Some v) (V = None).
Proof.
  intros HV Hv. unfold readSlot. eapply reads_bind; [apply reads_getTrie|]. cbn. intros tr o2 ->. unfold trieSlot in Hv.
  destruct (openView (StateDB.db s) o1) as [tr|]; [|by intros s1 _ _].
  cbn in Hv. eapply reads_bind; [by apply reads_ret with (Q := fun x _ => x = tr)|]. intros ? o3 ->.
  destruct (TryGet tr k) as [enc|err].
  - eapply reads_mono; [apply reads_cacheSlot; congruence|]. cbn. by intros x _ ->.
  - eapply reads_bind; [apply reads_setError|]. intros _ o4 _. by apply reads_ret.
Qed.

Lemma reads_committed s a p o o1 k : obj_ok o1 -> stateObject.address o1 = a -> reads s a p o o1 (objGetCommittedState p k)
  (fun v _ => committedView (StateDB.db s) (StateDB.snap s) (flag s a) o k = Some v)
  (committedView (StateDB.db s) (StateDB.snap s) (flag s a) o k = None).
Proof.
  intros Hok Ha. apply reads_known. intros He. unfold objGetCommittedState. apply reads_deref.
  pose proof (oe_committed _ _ _ _ _ He k) as Hv. remember (committedView _ _ _ o k) as V eqn:HV. unfold committedView in Hv.
  destruct (stateObject.fakeStorage o1), (stateObject.pendingStorage o1 !! k), (stateObject.originStorage o1 !! k); try (by apply reads_ret).
  apply (reads_gets _ _ _ _ _ StateDB.snap); [apply cached_snap|]. unfold freshSlot in Hv. destruct (StateDB.snap s) as [layer|] eqn:Es; [|by apply reads_readSlot; [rewrite Es|]].
  apply reads_gets; [intros s1; apply cached_flag; by rewrite (ok_hash _ Hok), Ha|].
  rewrite (ok_hash _ Hok), Ha in *. fold (flag s a). destruct (flag s a) eqn:Ef; [by apply reads_ret|].
  destruct (SnapStorageOf layer _ _) as [enc|]; [|by apply reads_readSlot; [rewrite Es, Ef|]].
  eapply reads_mono; [apply reads_cacheSlot; by rewrite Es, Ef, <- HV|]. by intros x _ ->.
Qed.

Lemma reads_state s a p o o1 k : obj_ok o1 -> stateObject.address o1 = a -> reads s a p o o1 (objGetState p k)
  (fun v _ => stateView (StateDB.db s) (StateDB.snap s) (flag s a) o k = Some v)
  (stateView (StateDB.db s) (StateDB.snap s) (flag s a) o k = None).
Proof.
  intros Hok Ha. apply reads_known. intros He. unfold objGetState. apply reads_deref.
  rewrite (oe_state _ _ _ _ _ He k). unfold stateView. destruct (stateObject.fakeStorage o1), (stateObject.dirtyStorage o1 !! k); try (by apply reads_ret).
  rewrite <- (oe_committed _ _ _ _ _ He k). by apply reads_committed.
Qed.

Lemma reads_code s a p o o1 : reads s a p o o1 (objCode p) (fun c _ => c = codeView (StateDB.db s) o) False.
Proof.
  apply reads_known. intros He. rewrite (oe_code _ _ _ _ _ He). unfold objCode. apply reads_deref.
  pose proof (obj_eq_loadcode (StateDB.db s) (StateDB.snap s) (flag s a) o1) as Hl. unfold codeView in *.
  destruct (stateObject.code o1); [by apply reads_ret|]. destruct (bytes_equal _ _); [by apply reads_ret|].
  apply (reads_gets _ _ _ _ _ StateDB.db); [apply cached_db|]. set (r := ContractCode _ _ _) in *.
  destruct r.2.
  - apply (reads_bind _ _ _ _ _ _ _ (fun _ o2 => exists err, o2 = stateObject.set_dbErr o1 err)).
    { apply reads_update; [split; [done|]; by intros [K1 K2 K3]|apply obj_eq_err|by eexists]. }
    intros _ o2 [err ->]. eapply reads_bind; [apply (reads_update _ _ _ _ _ _ (fun _ _ => True)); [apply same_id_code| |done]|].
    + etransitivity; [symmetry; apply obj_eq_err|]. etransitivity; [exact Hl|]. by split.
    + intros _ o3 _. by apply reads_ret.
  - eapply reads_bind; [by apply reads_ret with (Q := fun _ o2 => o2 = o1)|]. intros _ o2 ->.
    eapply reads_bind; [apply (reads_update _ _ _ _ _ _ (fun _ _ => True)); [apply same_id_code|exact Hl|done]|]. intros _ o3 _. by apply reads_ret.
Qed.

Lemma reads_codeSize s a p o o1 : reads s a p o o1 (objCodeSize p) (fun n _ => n = zlen (goBytes (codeView (StateDB.db s) o))) False.
Proof.
  apply reads_known. intros He. rewrite (oe_code _ _ _ _ _ He). unfold objCodeSize. apply reads_deref. unfold codeView.
  destruct (stateObject.code o1); [by apply reads_ret|]. destruct (bytes_equal _ _); [by apply reads_ret|].
  apply (reads_gets _ _ _ _ _ StateDB.db); [apply cached_db|]. eapply (reads_bind _ _ _ _ _ _ _ (fun _ _ => True)).
  - destruct (ContractCodeSize _ _ _).2; [apply reads_setError|by apply reads_ret].
  - intros _ o2 _. apply reads_ret, ContractCodeSize_len.
Qed.

(** ** The getters *)

(** What is read of the object of [a], and of an account that does not exist. *)
Definition seen {A} (d : A) (V : Database -> option SnapLayer -> bool -> stateObject.t -> option A) a s : option A :=
  match view s a with
  | Some o => if stateObject.deleted o then Some d else V (StateDB.db s) (StateDB.snap s) (flag s a) o
  | None => Some d
  end.

(** The computation returns [v], which it changes nothing of. *)
Definition observes {A} (m : M A) (v : StateDB.t -> option A) : Prop :=
  forall s, ok s -> match m s with Ret (x, s') => quiet s s' /\ v s = Some x | Panic _ => v s = None end.

Definition respects {A} (V : Database -> option SnapLayer -> bool -> stateObject.t -> option A) : Prop :=
  forall db snap d o o', obj_eq db snap d o o' -> V db snap d o = V db snap d o'.

Lemma seen_eqv {A} (d : A) V a es s t : respects V -> eqv es s t -> seen d V a s = seen d V a t.
Proof.
  intros HV He. destruct (eqv_ctx _ _ _ He) as [Ed Es]. unfold seen. rewrite Ed, Es, (eqv_flag _ _ _ a He).
  pose proof (eq_view _ _ _ He a) as H. inversion H as [x y Hxy Hx Hy|Hx Hy]; [|done].
  destruct (core_parts _ _ (oe_core _ _ _ _ _ Hxy)) as (_ & _ & _ & _ & _ & <-). by rewrite (HV _ _ _ _ _ Hxy).
Qed.

Lemma withObject_run {A} a (d : A) f V :
  (forall s p o, ok s -> StateDB.objects s !! p = Some o -> stateObject.address o = a ->
    reads s a p o o (f p) (fun x _ => V (StateDB.db s) (StateDB.snap s) (flag s a) o = Some x) (V (StateDB.db s) (StateDB.snap s) (flag s a) o = None)) ->
  observes (withObject a d f) (seen d V a).
Proof.
  intros Hf s Hw. unfold withObject, mbind, ST_bind. destruct (getStateObject_spec (stack s) s a Hw) as (r & s1 & -> & Hr). cbn.
  pose proof (found_quiet _ _ _ _ Hr) as G. unfold seen. destruct r as [p|].
  - destruct (fo_some _ _ _ _ _ Hr p eq_refl) as (Hp & o & Ho & Hv & Hd). rewrite Hv, Hd.
    pose proof (goes_ok _ _ (quiet_goes _ _ G)) as W1. destruct (wf_live _ _ W1 a p Hp) as (o' & Ho' & Ha). rewrite Ho in Ho'. injection Ho' as <-.
    pose proof (Hf s1 p o W1 Ho Ha s1 (cached_refl _ _ _ _ W1 Hp Ho) Ho) as H.
    destruct (eqv_ctx _ _ _ (fo_eqv _ _ _ _ _ Hr)) as [Ed Es]. rewrite Ed, Es, (eqv_flag _ _ _ a (fo_eqv _ _ _ _ _ Hr)) in H.
    destruct (f p s1) as [[x s2]|]; [|done]. destruct H as (o2 & ([G2 _] & _) & _ & HV). split; [by eapply quiet_chain|done].
  - split; [done|]. destruct (view s a) as [o|] eqn:Ev; [|done]. by rewrite (fo_none _ _ _ _ _ Hr eq_refl o Ev).
Qed.

(** A getter that only looks at the object. *)
Lemma field_run {A} a (d : A) (g : stateObject.t -> A) :
  observes (withObject a d (fun p => o ← deref p; mret (g o))) (seen d (fun _ _ _ o => Some (g o)) a).
Proof. apply withObject_run. intros s p o Hw Ho Ha. apply reads_deref. by apply reads_ret. Qed.

Definition vExist := seen false (fun _ _ _ _ => Some true).
Definition vEmpty := seen true (fun _ _ _ o => Some (objEmpty o)).
Definition vBalance := seen 0 (fun _ _ _ o => Some (Account.Balance (stateObject.data o))).
Definition vNonce := seen 0 (fun _ _ _ o => Some (Account.Nonce (stateObject.data o))).
Definition vCodeHash := seen zeroHash (fun _ _ _ o => Some (BytesToHash (goBytes (Account.CodeHash (stateObject.data o))))).
Definition vSuicided := seen false (fun _ _ _ o => Some (stateObject.suicided o)).
Definition vCode := seen None (fun db _ _ o => Some (codeView db o)).
Definition vCodeSize := seen 0 (fun db _ _ o => Some (zlen (goBytes (codeView db o)))).
Definition vState a k := seen zeroHash (fun db snap d o => stateView db snap d o k) a.
Definition vCommitted a k := seen zeroHash (fun db snap d o => committedView db snap d o k) a.

Lemma getters_observe a k : observes (Exist a) (vExist a) /\ observes (Empty a) (vEmpty a) /\ observes (GetBalance a) (vBalance a) /\
  observes (GetNonce a) (vNonce a) /\ observes (GetCodeHash a) (vCodeHash a) /\ observes (HasSuicided a) (vSuicided a) /\
  observes (GetCode a) (vCode a) /\ observes (GetCodeSize a) (vCodeSize a) /\ observes (GetState a k) (vState a k) /\
  observes (GetCommittedState a k) (vCommitted a k).
Proof.
  split_and!; try apply field_run; apply withObject_run; intros s p o Hw Ho Ha; pose proof (obj_ok_at _ _ _ _ Hw Ho) as Hok.
  - by apply reads_ret.
  - intros s1 Hc Ho1. pose proof (reads_code s a p o o s1 Hc Ho1) as H. destruct (objCode p s1) as [[x s2]|]; [|done].
    destruct H as (o2 & H1 & H2 & ->). eauto.
  - intros s1 Hc Ho1. pose proof (reads_codeSize s a p o o s1 Hc Ho1) as H. destruct (objCodeSize p s1) as [[x s2]|]; [|done].
    destruct H as (o2 & H1 & H2 & ->). eauto.
  - by apply reads_state.
  - by apply reads_committed.
Qed.

Lemma views_respect a k es s t : eqv es s t ->
  vExist a s = vExist a t /\ vEmpty a s = vEmpty a t /\ vBalance a s = vBalance a t /\ vNonce a s = vNonce a t /\
  vCodeHash a s = vCodeHash a t /\ vSuicided a s = vSuicided a t /\ vCode a s = vCode a t /\ vCodeSize a s = vCodeSize a t /\
  vState a k s = vState a k t /\ vCommitted a k s = vCommitted a k t.
Proof.
  intros He. assert (forall o o', core o = core o' -> stateObject.data o = stateObject.data o' /\ stateObject.suicided o = stateObject.suicided o') as Hd.
  { intros o o' H. apply core_parts in H as (_ & _ & -> & _ & -> & _). done. }
  split_and!; (eapply seen_eqv; [|exact He]); intros db snap d o o' [H1 H2 H3 H4]; destruct (Hd _ _ H1) as [E1 E2]; unfold objEmpty;
    rewrite ?E1, ?E2, ?H2, ?H3, ?H4; done.
Qed.

(** ** The setters *)

(** The object that the setters of [a] work on. *)
Definition base s a : stateObject.t :=
  match view s a with Some o => if stateObject.deleted o then blank a else o | None => blank a end.

Record opened s a p o s' : Prop := {
  op_goes : goes s s';
  op_live : StateDB.stateObjects s' !! a = Some p;
  op_obj : StateDB.objects s' !! p = Some o;
  op_base : alike s' a (base s a) o;
  op_flag : present s a -> flag s' a = flag s a;
  op_else : elsewhere a s s'
}.

Lemma base_deleted s a : stateObject.deleted (base s a) = false.
Proof. unfold base. destruct (view s a) as [o|]; [|done]. by destruct (stateObject.deleted o) eqn:Ed. Qed.

Lemma base_present s a : present s a -> view s a = Some (base s a).
Proof. intros (o & Hv & Hd). unfold base. by rewrite Hv, Hd. Qed.

Lemma creates_else s a x s' : ok s -> creates s a x s' -> elsewhere a s s'.
Proof.
  intros Hw (r & s1 & Hl & Hr). eapply elsewhere_trans; [apply (elsewhere_eqv (stack s)), Hl|].
  assert (forall e D, (forall b, b <> a -> Keccak256Hash b ∈ D <-> Keccak256Hash b ∈ StateDB.snapDestructs s1) -> elsewhere a s1 (created s1 a (blank a) e D)) as H.
  { intros e D HD. split; [done|..].
    - intros b Hb. unfold flag. cbn. by apply bool_decide_ext, HD.
    - intros b Hb. rewrite (view_created_ne _ _ _ _ _ _ _ (lo_wf _ _ _ _ _ Hl) Hb). apply oeq_refl. }
  destruct r as [q|].
  - destruct Hr as (o & _ & _ & _ & ->). apply H. intros b Hb. unfold marked. destruct (bool_decide _); [|done].
    rewrite elem_of_union, elem_of_singleton. split; [|tauto]. intros [Hh|]; [by apply addrHash_inj in Hh|done].
  - destruct Hr as [_ ->]. by apply H.
Qed.

Lemma getOrNew_spec s a : ok s -> twp (GetOrNewStateObject a) (fun p => opened s a p (base s a)) s.
Proof.
  intros Hw. unfold GetOrNewStateObject. apply twp_bind. eapply twp_mono; [by apply (getStateObject_spec (stack s))|].
  intros [p|] s1 Hr; pose proof (found_goes _ _ _ _ Hr) as G1.
  - apply twp_ret. destruct (fo_some _ _ _ _ _ Hr p eq_refl) as (Hp & o & Ho & Hv & Hd). split; [done|done| |reflexivity| |by eapply elsewhere_eqv, Hr].
    + unfold base. by rewrite Hv, Hd.
    + intros _. by apply (eqv_flag (stack s)), Hr.
  - pose proof (goes_ok _ _ G1) as W1. apply twp_bind. eapply twp_mono; [by apply createObject_spec|]. intros x s2 Hc. apply twp_ret.
    destruct (creates_goes _ _ _ _ W1 Hc) as (G2 & H2 & H3 & _). split; [by eapply goes_then|done| |reflexivity| |].
    + unfold base. rewrite H3. destruct (view s a) as [o|] eqn:Ev; [|done]. by rewrite (fo_none _ _ _ _ _ Hr eq_refl o Ev).
    + intros (o & Hv & Hd). by rewrite (fo_none _ _ _ _ _ Hr eq_refl o Hv) in Hd.
    + eapply elsewhere_trans; [by eapply elsewhere_eqv, Hr|by eapply creates_else].
Qed.

(** A setter: the account gets the object [f (base s a)]. *)
Definition sets a (f : stateObject.t -> stateObject.t) s s' : Prop :=
  goes s s' /\ elsewhere a s s' /\ (present s a -> flag s' a = flag s a) /\
  exists o, view s' a = Some o /\ alike s' a (f (base s a)) o.

Lemma sets_open s a p o s1 s' f : opened s a p o s1 -> change f -> goes s1 s' -> changed (stack s1) a f s1 s' -> sets a f s s'.
Proof.
  intros [O1 O2 O3 O4 O5 O6] Hf G C. split_and!.
  - by eapply goes_then.
  - eapply elsewhere_trans; [done|by eapply elsewhere_changed].
  - intros Hp. rewrite <- (O5 Hp). apply rest_flag, C.
  - destruct C as [C1 C2 (x & o' & V1 & V2 & V3) _ _]. destruct (still_ctx _ _ C1) as [Ed Es]. exists o'. split; [done|].
    rewrite Ed, Es, (rest_flag _ _ a C2). rewrite (view_live _ _ _ O2), O3 in V1. injection V1 as <-. etransitivity; [|exact V3]. by apply Hf.
Qed.

(** Nothing to do: the object already is what the setter would make it. *)
Lemma sets_same s a p o f s' : opened s a p o s' -> alike s' a (f (base s a)) o -> sets a f s s'.
Proof. intros [O1 O2 O3 O4 O5 O6] He. split_and!; try done. exists o. by rewrite (view_live _ _ _ O2). Qed.

(** The journalled setters of one field. *)
Lemma setter_spec s a p o s1 e f g : opened s a p o s1 -> target e = Some (a, g) -> change f ->
  (forall o, stateObject.deleted (f o) = stateObject.deleted o) ->
  alike s1 a o (g (f o)) -> wp (journalAppend e;; update p f) (fun _ s' => sets a f s s') s1.
Proof.
  intros O Ht Hf Hd Hb. assert (stateObject.deleted o = false) as Hdo.
  { destruct (core_parts _ _ (oe_core _ _ _ _ _ (op_base _ _ _ _ _ O))) as (_ & _ & _ & _ & _ & <-). apply base_deleted. }
  eapply wp_mono; [eapply (journalled s1 a p o e f g)|]; try done; try apply O.
  - by eapply goes_ok, O.
  - by rewrite Hd.
  - intros _ s' [G C]. by eapply sets_open.
Qed.

Lemma opened_addr s a p o s1 : opened s a p o s1 -> stateObject.address o = a /\ obj_ok o /\ stateObject.data o = stateObject.data (base s a).
Proof.
  intros O. pose proof (goes_ok _ _ (op_goes _ _ _ _ _ O)) as W. destruct (wf_live _ _ W a p (op_live _ _ _ _ _ O)) as (x & Ho & Ha).
  rewrite (op_obj _ _ _ _ _ O) in Ho. injection Ho as <-. split_and!; [done|by eapply (obj_ok_at _ _ p), O|].
  by destruct (core_parts _ _ (oe_core _ _ _ _ _ (op_base _ _ _ _ _ O))) as (_ & _ & -> & _).
Qed.

Lemma opened_cached s a p o s1 s2 o2 : opened s a p o s1 -> cached s1 a p o s2 -> StateDB.objects s2 !! p = Some o2 -> opened s a p o2 s2.
Proof.
  intros [O1 O2 O3 O4 O5 O6] ([G Hel] & Hs & Hf & Hp & o' & Ho' & He) Ho2. rewrite Ho' in Ho2. injection Ho2 as ->.
  destruct (still_ctx _ _ (eq_sym Hs)) as [Ed Es]. split; [eapply goes_then; [done|by apply quiet_goes]|done|done| | |by eapply elsewhere_trans].
  - rewrite Ed, Es, Hf. by etransitivity.
  - intros Hpr. rewrite Hf. auto.
Qed.

Lemma account_balance_back d v : Account.set_Balance (Account.set_Balance d v) (Account.Balance d) = d.
Proof. by destruct d. Qed.

Lemma account_nonce_back d v : Account.set_Nonce (Account.set_Nonce d v) (Account.Nonce d) = d.
Proof. by destruct d. Qed.

Lemma account_code_back d h h' : Account.CodeHash d = Some h -> Account.set_CodeHash (Account.set_CodeHash d h') (Some h) = d.
Proof. destruct d. cbn. by intros ->. Qed.

Lemma back_balance db snap d o v : obj_eq db snap d o (fBalance (Account.Balance (stateObject.data o)) (fBalance v o)).
Proof. unfold fBalance. cbn. rewrite account_balance_back. by split. Qed.

Lemma back_nonce db snap d o v : obj_eq db snap d o (fNonce (Account.Nonce (stateObject.data o)) (fNonce v o)).
Proof. unfold fNonce. cbn. rewrite account_nonce_back. by split. Qed.

Lemma back_suicide db snap d o v : obj_eq db snap d o (fSuicide (stateObject.suicided o) (Account.Balance (stateObject.data o)) (fSuicide true v o)).
Proof. unfold fSuicide, fBalance. cbn. rewrite account_balance_back. by split. Qed.

Lemma back_state db snap d o k v v' : stateObject.fakeStorage o = None -> stateView db snap d o k = Some v ->
  obj_eq db snap d o (fState k v (fState k v' o)).
Proof.
  intros Hf Hv. split; [done..|]. intros k'. rewrite !stateView_fState by done. destruct (decide (k = k')) as [<-|Hne]; [done|done].
Qed.

Lemma back_code db snap d o h c' : proper_hash (Account.CodeHash (stateObject.data o)) ->
  obj_eq db snap d o (fCode (BytesToHash (goBytes (Account.CodeHash (stateObject.data o)))) (codeView db o) (fCode h c' o)).
Proof.
  intros (x & Hx & Hb). unfold fCode. cbn. rewrite Hx. cbn. rewrite Hb, (account_code_back _ _ _ Hx). split; [done| |done|done].
  unfold codeView. cbn. destruct (stateObject.code o); [done|]. destruct (bytes_equal _ _) eqn:Eb; [done|]. by destruct (ContractCode db _ _).1.
Qed.

(** An entry that records nothing to undo. *)
Lemma touch_goes s p o : ok s -> StateDB.objects s !! p = Some o -> exists s', touch p s = Ret (tt, s') /\ goes s s' /\ eqv (stack s) s s'.
Proof.
  intros Hw Ho. unfold touch, mbind, ST_bind, journalAppend, journalDirty, modify. rewrite (deref_run _ _ _ Ho). cbn.
  set (s1 := StateDB.set_journal s _). assert (stack s1 = touchChange (stateObject.address o) :: stack s) as Hs by apply (stack_append s (touchChange _)).
  assert (forall j, stack (StateDB.set_journal s1 j) = stack s1 -> goes s (StateDB.set_journal s1 j)) as H.
  { intros j Hj. split; [|done]. apply (from_entry _ _ (touchChange (stateObject.address o)) (StateDB.set_journal s1 j)).
    - by rewrite Hj.
    - apply wf_push; [done|done|]. by do 2 apply wf_journal.
    - done.
    - by destruct (eqv_refl (stack s) s).
    - by do 2 apply wf_journal. }
  destruct (bool_decide _); eexists; (split; [reflexivity|]).
  - split; [by apply H|]. by destruct (eqv_refl (stack s) s).
  - split; [by apply (H (StateDB.journal s1))|]. by destruct (eqv_refl (stack s) s).
Qed.

Lemma objSetBalance_spec s a p o s1 v : opened s a p o s1 -> wp (objSetBalance p v) (fun _ s' => sets a (fBalance v) s s') s1.
Proof.
  intros O. destruct (opened_addr _ _ _ _ _ O) as (Ha & Hok & Hd). unfold objSetBalance. apply wp_bind. unfold wp at 1.
  rewrite (deref_run _ _ _ (op_obj _ _ _ _ _ O)). rewrite Ha. eapply (setter_spec s a p o s1 _ (fBalance v)); [done|done|apply change_balance|done|].
  apply back_balance.
Qed.

Lemma SetBalance_sets s a v : ok s -> wp (SetBalance a v) (fun _ s' => sets a (fBalance v) s s') s.
Proof.
  intros Hw. unfold SetBalance. destruct (getOrNew_spec s a Hw) as (p & s1 & E1 & O). apply wp_bind. unfold wp at 1. rewrite E1.
  by eapply objSetBalance_spec.
Qed.

Lemma fBalance_same db snap d o v : v = Account.Balance (stateObject.data o) -> obj_eq db snap d (fBalance v o) o.
Proof. intros ->. unfold fBalance. by destruct o as [? ? [] ? ? ? ? ? ? ? ? ? ?]. Qed.

Lemma AddBalance_sets s a z : ok s -> wp (AddBalance a z) (fun _ s' => sets a (fBalance (Account.Balance (stateObject.data (base s a)) + z)) s s') s.
Proof.
  intros Hw. unfold AddBalance. destruct (getOrNew_spec s a Hw) as (p & s1 & E1 & O). apply wp_bind. unfold wp at 1. rewrite E1.
  unfold objAddBalance. apply wp_bind. unfold wp at 1. rewrite (deref_run _ _ _ (op_obj _ _ _ _ _ O)).
  destruct (Z.eqb_spec z 0) as [->|Hz]; [|by apply (objSetBalance_spec s a p (base s a))].
  assert (forall s2, opened s a p (base s a) s2 -> sets a (fBalance (Account.Balance (stateObject.data (base s a)) + 0)) s s2) as Hs.
  { intros s2 O2. eapply sets_same; [done|]. apply fBalance_same. lia. }
  unfold when. destruct (objEmpty (base s a)); [|by apply wp_ret, Hs].
  destruct (touch_goes s1 p (base s a) (goes_ok _ _ (op_goes _ _ _ _ _ O)) (op_obj _ _ _ _ _ O)) as (s2 & E2 & G2 & Ev).
  unfold wp. rewrite E2. apply Hs.
  assert (StateDB.stateObjects s2 = StateDB.stateObjects s1 /\ StateDB.objects s2 = StateDB.objects s1) as [Hl Ho].
  { unfold touch, mbind, ST_bind in E2. rewrite (deref_run _ _ _ (op_obj _ _ _ _ _ O)) in E2. cbn in E2.
    destruct (bool_decide _); cbn in E2; by injection E2 as <-. }
  destruct O as [O1 O2 O3 O4 O5 O6]. destruct (eqv_ctx _ _ _ Ev) as [Ed Es]. split.
  - by eapply goes_then.
  - by rewrite Hl.
  - by rewrite Ho.
  - reflexivity.
  - intros Hp. rewrite (eqv_flag _ _ _ a Ev). auto.
  - eapply elsewhere_trans; [done|by eapply elsewhere_eqv].
Qed.

Lemma SubBalance_sets s a z : ok s -> wp (SubBalance a z) (fun _ s' => sets a (fBalance (Account.Balance (stateObject.data (base s a)) - z)) s s') s.
Proof.
  intros Hw. unfold SubBalance. destruct (getOrNew_spec s a Hw) as (p & s1 & E1 & O). apply wp_bind. unfold wp at 1. rewrite E1.
  unfold objSubBalance. apply wp_bind. unfold wp at 1. rewrite (deref_run _ _ _ (op_obj _ _ _ _ _ O)).
  destruct (Z.eqb_spec z 0) as [->|Hz]; [|by apply (objSetBalance_spec s a p (base s a))].
  apply wp_ret. eapply sets_same; [done|]. apply fBalance_same. lia.
Qed.

Lemma SetNonce_sets s a n : ok s -> wp (SetNonce a n) (fun _ s' => sets a (fNonce n) s s') s.
Proof.
  intros Hw. unfold SetNonce. destruct (getOrNew_spec s a Hw) as (p & s1 & E1 & O). apply wp_bind. unfold wp at 1. rewrite E1.
  destruct (opened_addr _ _ _ _ _ O) as (Ha & Hok & Hd). unfold objSetNonce. apply wp_bind. unfold wp at 1.
  rewrite (deref_run _ _ _ (op_obj _ _ _ _ _ O)). rewrite Ha. eapply (setter_spec s a p (base s a) s1 _ (fNonce n)); [done|done|apply change_nonce|done|].
  apply back_nonce.
Qed.

Lemma SetCode_sets s a c : ok s -> wp (SetCode a c) (fun _ s' => sets a (fCode (Keccak256Hash (goBytes c)) c) s s') s.
Proof.
  intros Hw. unfold SetCode. destruct (getOrNew_spec s a Hw) as (p & s1 & E1 & O). apply wp_bind. unfold wp at 1. rewrite E1.
  pose proof (goes_ok _ _ (op_goes _ _ _ _ _ O)) as W1. unfold objSetCode. apply wp_bind.
  pose proof (reads_code s1 a p _ _ s1 (cached_refl _ _ _ _ W1 (op_live _ _ _ _ _ O) (op_obj _ _ _ _ _ O)) (op_obj _ _ _ _ _ O)) as Hr.
  unfold wp at 1. destruct (objCode p s1) as [[c0 s2]|]; [|done]. destruct Hr as (o2 & Hc & Ho2 & ->).
  pose proof (opened_cached _ _ _ _ _ _ _ O Hc Ho2) as O2. destruct (opened_addr _ _ _ _ _ O2) as (Ha & Hok & Hd).
  apply wp_bind. unfold wp at 1. rewrite (deref_run _ _ _ Ho2), Ha.
  eapply (setter_spec s a p o2 s2 _ (fCode (Keccak256Hash (goBytes c)) c)); [done|done|apply change_code, BytesToHash_hash|done|].
  pose proof Hc as (_ & Hs & Hf & _ & o' & Ho' & He). rewrite Ho2 in Ho'. injection Ho' as <-. rewrite (oe_code _ _ _ _ _ He).
  destruct (still_ctx _ _ (eq_sym Hs)) as [-> _]. apply back_code, Hok.
Qed.

Lemma SetState_sets s a k v : ok s -> wp (SetState a k v) (fun _ s' => sets a (fState k v) s s') s.
Proof.
  intros Hw. unfold SetState. destruct (getOrNew_spec s a Hw) as (p & s1 & E1 & O). apply wp_bind. unfold wp at 1. rewrite E1.
  pose proof (goes_ok _ _ (op_goes _ _ _ _ _ O)) as W1. destruct (opened_addr _ _ _ _ _ O) as (Ha & Hok & Hd).
  unfold objSetState. apply wp_bind. unfold wp at 1. rewrite (deref_run _ _ _ (op_obj _ _ _ _ _ O)), (ok_fake _ Hok). apply wp_bind.
  pose proof (reads_state s1 a p _ _ k Hok Ha s1 (cached_refl _ _ _ _ W1 (op_live _ _ _ _ _ O) (op_obj _ _ _ _ _ O)) (op_obj _ _ _ _ _ O)) as Hr.
  unfold wp at 1. destruct (objGetState p k s1) as [[prev s2]|]; [|done]. destruct Hr as (o2 & Hc & Ho2 & Hv).
  pose proof (opened_cached _ _ _ _ _ _ _ O Hc Ho2) as O2. destruct (opened_addr _ _ _ _ _ O2) as (Ha2 & Hok2 & Hd2).
  pose proof Hc as (_ & Hs & Hf & _ & o' & Ho' & He). rewrite Ho2 in Ho'. injection Ho' as <-. rewrite (oe_state _ _ _ _ _ He) in Hv.
  destruct (still_ctx _ _ (eq_sym Hs)) as [Ed Es]. rewrite <- Ed, <- Es, <- Hf in Hv. case_bool_decide as Hp.
  - subst prev. apply wp_ret. eapply sets_same; [done|]. etransitivity; [apply change_state, O2|]. split; [done..|].
    intros k'. rewrite stateView_fState by apply Hok2. by destruct (decide (k = k')) as [<-|].
  - rewrite Ha. eapply (setter_spec s a p o2 s2 _ (fState k v)); [done|done|apply change_state|done|]. apply back_state; [apply Hok2|done].
Qed.

Lemma found_opened s a p s1 : found (stack s) s a (Some p) s1 -> opened s a p (base s a) s1 /\ present s a.
Proof.
  intros Hr. destruct (fo_some _ _ _ _ _ Hr p eq_refl) as (Hp & o & Ho & Hv & Hd). split; [|by exists o].
  split; [by eapply found_goes|done| |reflexivity| |by eapply elsewhere_eqv, Hr].
  - unfold base. by rewrite Hv, Hd.
  - intros _. by apply (eqv_flag (stack s)), Hr.
Qed.

Lemma Suicide_sets s a : ok s -> wp (Suicide a) (fun r s' => goes s s' /\ (r = true -> present s a /\ sets a (fSuicide true 0) s s')) s.
Proof.
  intros Hw. unfold Suicide, withObject. destruct (getStateObject_spec (stack s) s a Hw) as (r & s1 & E1 & Hr). apply wp_bind. unfold wp at 1. rewrite E1.
  destruct r as [p|]; [|apply wp_ret; split; [by eapply found_goes|done]]. destruct (found_opened _ _ _ _ Hr) as [O Hp].
  apply wp_bind. unfold wp at 1. rewrite (deref_run _ _ _ (op_obj _ _ _ _ _ O)). 
  pose proof (setter_spec s a p (base s a) s1 (suicideChange a (stateObject.suicided (base s a)) (Account.Balance (stateObject.data (base s a))))
    (fSuicide true 0) _ O eq_refl (change_suicide _ _) ltac:(done) (back_suicide _ _ _ _ _)) as H.
  unfold wp, journalAppend, setBalance, update, modify, mbind, ST_bind in *. cbn in *.
  rewrite list_alter_twice. split; [apply H|]. intros _. split; [done|]. apply H.
Qed.

Lemma list_alter_last {A} (f : A -> A) (l : list A) x : alter f (length l) (l ++ [x]) = l ++ [f x].
Proof. induction l as [|y l IH]; cbn; [done|]. f_equal. apply IH. Qed.

(** The balance that [CreateAccount] carries over is not journalled; undoing the
    reset of the object undoes it too. *)
Lemma CreateAccount_spec s a : ok s -> wp (CreateAccount a) (fun _ s' => goes s s' /\ elsewhere a s s' /\
  exists o, view s' a = Some o /\ o = fBalance (Account.Balance (stateObject.data (base s a))) (blank a)) s.
Proof.
  intros Hw. unfold CreateAccount. destruct (createObject_spec s a Hw) as (x & s1 & E1 & Hc). apply wp_bind. unfold wp at 1. rewrite E1.
  destruct (creates_goes _ _ _ _ Hw Hc) as (G1 & H2 & H3 & H4). pose proof (creates_else _ _ _ _ Hw Hc) as Hel.
  destruct Hc as (r & s0 & Hl & Hr). destruct (loaded_from _ _ _ _ Hl) as [G0 Hst]. pose proof (goes_ok _ _ G0) as W0. pose proof (lo_ptr _ _ _ _ _ Hl) as Hp.
  destruct r as [q|]; cbn in Hp.
  - destruct Hr as (o & Ho & Had & -> & ->). assert (view s a = Some o) as Hv by (by rewrite <- (lo_view _ _ _ _ _ Hl), (view_live _ _ _ Hp)).
    cbn [snd fst]. destruct (stateObject.deleted o) eqn:Ed.
    + apply wp_ret. split_and!; [done|done|]. exists (blank a). split; [by rewrite (view_live _ _ _ H2), H3|]. unfold base. by rewrite Hv, Ed.
    + apply wp_bind. unfold wp at 1. rewrite (deref_run _ q o) by (by apply lookup_app_l_Some). apply wp_modify.
      set (n := fBalance (Account.Balance (stateObject.data o)) (blank a)).
      set (s2 := StateDB.set_objects _ _). assert (s2 = created s0 a n (resetObjectChange q (was_marked s0 a)) (marked s0 a)) as Hcr.
      { unfold s2. cbn [fst].
        change (StateDB.objects (created s0 a (blank a) (resetObjectChange q (was_marked s0 a)) (marked s0 a))) with (StateDB.objects s0 ++ [blank a]).
        by rewrite list_alter_last. }
      rewrite Hcr.
      assert (obj_ok n) as Hn by (by destruct (freshObject_ok a)).
      split_and!.
      * eapply goes_then; [exact G0|]. by apply (created_over _ _ _ o).
      * eapply elsewhere_trans; [exact Hel|]. split; [done|done|]. intros b Hb.
        rewrite (view_created_ne _ _ _ _ _ _ _ W0 Hb), (view_created_ne _ _ _ _ _ _ _ W0 Hb). apply oeq_refl.
      * exists n. unfold view. cbn. rewrite lookup_insert_eq, last_at. split; [done|]. unfold base. by rewrite Hv, Ed.
  - destruct Hr as [-> ->]. apply wp_ret. split_and!; [done|done|]. exists (blank a). split; [by rewrite (view_live _ _ _ H2), H3|].
    unfold base. by rewrite (lo_none _ _ _ _ _ Hl eq_refl).
Qed.

(** An entry for the fields that are not objects. *)
Lemma rest_entry s s' e s'' : ok s -> stack s' = e :: stack s -> (forall p d, e <> resetObjectChange p d) -> (forall a, e <> createObjectChange a) ->
  still s' = still s -> StateDB.snapDestructs s' = StateDB.snapDestructs s -> StateDB.stateObjectsDirty s' = StateDB.stateObjectsDirty s ->
  StateDB.objects s' = StateDB.objects s -> StateDB.stateObjects s' = StateDB.stateObjects s ->
  in_u64 (StateDB.logSize s') /\ (forall h, ~ (StateDB.logs s' !! h = Some [])) -> revs s' = revs s ->
  revertEntry e s' = Ret (tt, s'') -> still s'' = still s' -> rest s'' = rest s ->
  StateDB.objects s'' = StateDB.objects s' -> StateDB.stateObjects s'' = StateDB.stateObjects s' -> goes s s'.
Proof.
  intros Hw Hst He He' Hs HD Hd Ho Hl Hlg Hrv Hr Hs' Hre Ho' Hl'. split; [|done]. apply (from_entry s s' e s''); [done| |done| |].
  - apply wf_push; [done|done|]. by apply (wf_rest (stack s) s).
  - unfold rest in Hre. injection Hre as R1 R2 R3 R4 R5 R6.
    apply (eqv_rest (stack s) s s); try done; try congruence. unfold rest. congruence.
  - unfold rest in Hre. injection Hre as R1 R2 R3 R4 R5 R6. apply (wf_rest (stack s) s); try done; try congruence. rewrite R4, R5. apply Hw.
Qed.

Lemma AddRefund_goes s g : ok s -> wp (AddRefund g) (fun _ s' => goes s s') s.
Proof.
  intros Hw. unfold AddRefund. apply wp_bind, wp_gets, wp_bind, wp_modify, wp_modify.
  eapply (rest_entry s _ (refundChange (StateDB.refund s))); try done; [apply (stack_append s (refundChange _))|apply Hw].
Qed.

Lemma SubRefund_goes s g : ok s -> wp (SubRefund g) (fun _ s' => goes s s') s.
Proof.
  intros Hw. unfold SubRefund. apply wp_bind, wp_gets, wp_bind, wp_modify. destruct (_ <? g); [apply wp_panic|]. apply wp_modify.
  eapply (rest_entry s _ (refundChange (StateDB.refund s))); try done; [apply (stack_append s (refundChange _))|apply Hw].
Qed.

Lemma AddPreimage_goes s h b : ok s -> wp (AddPreimage h b) (fun _ s' => goes s s') s.
Proof.
  intros Hw. unfold AddPreimage. apply wp_bind, wp_gets. destruct (StateDB.preimages s !! h) eqn:Eh; [by apply wp_ret, goes_refl|].
  apply wp_bind, wp_modify, wp_modify.
  eapply (rest_entry s _ (addPreimageChange h)); try done; [apply (stack_append s (addPreimageChange h))|apply Hw|].
  unfold rest. cbn. by rewrite delete_insert_id.
Qed.

Lemma take_snoc {A} (l : list A) x : take (length (l ++ [x]) - 1) (l ++ [x]) = l.
Proof. by rewrite length_app, Nat.add_sub, take_app_length. Qed.

Lemma revert_addLog s h l x : default [] (StateDB.logs s !! h) = l ++ [x] -> revertEntry (addLogChange h) s =
  Ret (tt, StateDB.set_logSize (StateDB.set_logs s (match l with [] => delete h (StateDB.logs s) | _ => <[h := l]> (StateDB.logs s) end))
    (u64 (StateDB.logSize s - 1))).
Proof.
  intros Hl. unfold revertEntry, mbind, ST_bind, gets, modify. cbn [obind]. rewrite Hl. pose proof (take_snoc l x) as Ht.
  destruct l as [|y l]; [done|]. cbn [app] in *. destruct (l ++ [x]) as [|z l1] eqn:Ez; [by destruct l|]. cbv iota beta. cbn [obind]. by rewrite Ht.
Qed.

Lemma AddLog_goes s l : ok s -> wp (AddLog l) (fun _ s' => goes s s') s.
Proof.
  intros Hw. unfold AddLog. apply wp_bind, wp_gets, wp_bind, wp_modify, wp_modify. set (h := StateDB.thash s). set (x := Log.set_Index _ _).
  set (s' := StateDB.set_logSize _ _). destruct (wf_logs _ _ Hw) as [L1 L2].
  assert (default [] (StateDB.logs s' !! h) = default [] (StateDB.logs s !! h) ++ [x]) as Hlg by (unfold s'; cbn; by rewrite lookup_insert_eq).
  assert (u64 (StateDB.logSize s' - 1) = StateDB.logSize s) as Hsz.
  { unfold s'. cbn. unfold u64, in_u64, two64 in *. rewrite Zminus_mod_idemp_l, Z.add_simpl_r. apply Z.mod_small. lia. }
  assert (match default [] (StateDB.logs s !! h) with [] => delete h (StateDB.logs s')
    | _ => <[h := default [] (StateDB.logs s !! h)]> (StateDB.logs s') end = StateDB.logs s) as Hb.
  { unfold s'. cbn. destruct (StateDB.logs s !! h) as [[|y l0]|] eqn:El; cbn; [by destruct (L2 h)| |by rewrite delete_insert_id].
    rewrite insert_insert_eq. by apply insert_id. }
  pose proof (revert_addLog s' h _ x Hlg) as Hr. rewrite Hb, Hsz in Hr.
  eapply (rest_entry s s' (addLogChange h)); try done; [apply (stack_append s (addLogChange h))|].
  split; [apply u64_range|]. intros k. unfold s'. cbn. rewrite lookup_insert_Some. intros [[_ Hk]|[_ Hk]]; [|by destruct (L2 k)].
  by destruct (default [] (StateDB.logs s !! h)).
Qed.
End Revert.
