(* ===== verification/StateSafety.v ===== *)
(** * Safety of the state database

    The public operations of [StateDB] as steps, the states they reach, and what
    holds of them: [RevertToSnapshot] restores what the getters return, the setters
    do what they say, and [Finalise] makes the changes of a transaction final. *)

From stdpp Require Import sorting.
From S2P Require Import Prelude GoStd Effects StateDB StateRevert.
Import state.

(** ** The operations as steps *)

Inductive op :=
| OExist (a : bytes) | OEmpty (a : bytes) | OGetBalance (a : bytes) | OGetNonce (a : bytes)
| OGetCode (a : bytes) | OGetCodeSize (a : bytes) | OGetCodeHash (a : bytes)
| OGetState (a k : bytes) | OGetCommittedState (a k : bytes) | OHasSuicided (a : bytes)
| OAddBalance (a : bytes) (z : Z) | OSubBalance (a : bytes) (z : Z) | OSetBalance (a : bytes) (z : Z)
| OSetNonce (a : bytes) (n : Z) | OSetCode (a : bytes) (c : option bytes) | OSetState (a k v : bytes)
| OSuicide (a : bytes) | OCreateAccount (a : bytes)
| OAddLog (l : Log.t) | OAddPreimage (h b : bytes) | OAddRefund (g : Z) | OSubRefund (g : Z)
| OSnapshot | ORevert (id : Z)
| OPrepare (th bh : bytes) (i : Z) | OFinalise (del : bool) | OIntermediateRoot (del : bool) | OCommit (del : bool) | OReset (root : bytes).

Section Steps.
Context {L : StateLib}.

Definition discard {A} (m : M A) : M unit := m;; mret tt.

Definition exec (o : op) : M unit :=
  match o with
  | OExist a => discard (Exist a) | OEmpty a => discard (Empty a) | OGetBalance a => discard (GetBalance a)
  | OGetNonce a => discard (GetNonce a) | OGetCode a => discard (GetCode a) | OGetCodeSize a => discard (GetCodeSize a)
  | OGetCodeHash a => discard (GetCodeHash a) | OGetState a k => discard (GetState a k)
  | OGetCommittedState a k => discard (GetCommittedState a k) | OHasSuicided a => discard (HasSuicided a)
  | OAddBalance a z => AddBalance a z | OSubBalance a z => SubBalance a z | OSetBalance a z => SetBalance a z
  | OSetNonce a n => SetNonce a n | OSetCode a c => SetCode a c | OSetState a k v => SetState a k v
  | OSuicide a => discard (Suicide a) | OCreateAccount a => CreateAccount a
  | OAddLog l => AddLog l | OAddPreimage h b => AddPreimage h b | OAddRefund g => AddRefund g | OSubRefund g => SubRefund g
  | OSnapshot => discard Snapshot | ORevert id => RevertToSnapshot id
  | OPrepare th bh i => Prepare th bh i | OFinalise del => Finalise del
  | OIntermediateRoot del => discard (IntermediateRoot del) | OCommit del => discard (Commit del) | OReset root => discard (Reset root)
  end.

(** The operations of a transaction: those that are journalled, and those that
    only read. *)
Definition journalled_op (o : op) : bool :=
  match o with
  | OSnapshot | ORevert _ | OPrepare _ _ _ | OFinalise _ | OIntermediateRoot _ | OCommit _ | OReset _ => false
  | _ => true
  end.

(** The operations after the snapshot [id] that leave it valid. *)
Definition within (id : Z) (o : op) : bool :=
  match o with
  | OSnapshot => true
  | ORevert r => id <? r
  | _ => journalled_op o
  end.

(** What a computation returns. *)
Definition result {A} (m : M A) (s : StateDB.t) : option A := match m s with Ret (x, _) => Some x | Panic _ => None end.
End Steps.

Section Safety.
Context {L : StateLib} {HL : StateLaws L}.
Implicit Types (s t : StateDB.t) (a k : bytes) (p : nat) (e : journalEntry) (es : list journalEntry) (o : op).

(** A journalled operation can be undone. *)
Lemma exec_goes o s : journalled_op o = true -> ok s -> wp (exec o) (fun _ s' => goes s s') s.
Proof.
  assert (forall A (m : M A) v, observes m v -> ok s -> wp (discard m) (fun _ s' => goes s s') s) as Hobs.
  { intros A m v Hm Hw. apply wp_bind. unfold wp at 1. pose proof (Hm s Hw) as H. destruct (m s) as [[x s']|]; [|done]. by apply wp_ret, quiet_goes, H. }
  assert (forall a f (m : M unit), ok s -> wp m (fun _ s' => sets a f s s') s -> wp m (fun _ s' => goes s s') s) as Hset.
  { intros a f m Hw Hm. eapply wp_mono; [exact Hm|]. by intros _ s' [G _]. }
  intros Ho Hw. destruct o; cbn in Ho; try discriminate Ho; cbn [exec];
    try (destruct (getters_observe a zeroHash) as (H1 & H2 & H3 & H4 & H5 & H6 & H7 & H8 & _ & _); by eapply Hobs);
    try (destruct (getters_observe a k) as (_ & _ & _ & _ & _ & _ & _ & _ & H9 & H10); by eapply Hobs).
  - by eapply Hset, AddBalance_sets.
  - by eapply Hset, SubBalance_sets.
  - by eapply Hset, SetBalance_sets.
  - by eapply Hset, SetNonce_sets.
  - by eapply Hset, SetCode_sets.
  - by eapply Hset, SetState_sets.
  - apply wp_bind. eapply wp_mono; [by apply Suicide_sets|]. intros r s' [G _]. by apply wp_ret.
  - eapply wp_mono; [by apply CreateAccount_spec|]. by intros _ s' [G _].
  - by apply AddLog_goes.
  - by apply AddPreimage_goes.
  - by apply AddRefund_goes.
  - by apply SubRefund_goes.
Qed.

(** ** Snapshots *)

Definition steady {A} (m : M A) : Prop := forall s x s', m s = Ret (x, s') -> tail s' = tail s.

Lemma steady_bind {A B} (m : M A) (f : A -> M B) : steady m -> (forall x, steady (f x)) -> steady (m ≫= f).
Proof.
  intros Hm Hf s y s'. unfold mbind, ST_bind. destruct (m s) as [[x s1]|] eqn:E1; [|done]. cbn. intros E2. rewrite (Hf x _ _ _ E2). by eapply Hm.
Qed.

Lemma steady_gets {A} (f : StateDB.t -> A) : steady (gets f).
Proof. by intros s x s' [= <- <-]. Qed.

Lemma steady_ret {A} (x : A) : steady (mret x).
Proof. by intros s y s' [= <- <-]. Qed.

Lemma steady_modify f : (forall s, tail (f s) = tail s) -> steady (modify f).
Proof. intros Hf s x s' [= <- <-]. apply Hf. Qed.

Lemma steady_nonNil {A} (x : option A) : steady (nonNil x).
Proof. destruct x; [apply steady_ret|done]. Qed.

Ltac steady := repeat first [ apply steady_bind; [|intros ?] | apply steady_ret | apply steady_gets | apply steady_nonNil
  | apply steady_modify; done | progress cbn | case_match; try done ].

Lemma steady_deref p : steady (deref p).
Proof. unfold deref. steady. Qed.

Lemma steady_get a : steady (getStateObject a).
Proof.
  unfold getStateObject, getDeletedStateObject, alloc, setStateObject, setError.
  repeat first [apply steady_deref|apply steady_bind; [|intros ?]|apply steady_ret|apply steady_gets|apply steady_modify; done|case_match].
Qed.

Lemma steady_revert e : steady (revertEntry e).
Proof.
  destruct e; cbn; unfold onObject, withObject, setStateObject, setBalance, setNonce, setState, setCode, update, when;
    repeat first [apply steady_deref|apply steady_get|apply steady_nonNil|apply steady_bind; [|intros ?]|apply steady_ret|apply steady_gets
      |apply steady_modify; done|case_match|done].
Qed.

Lemma undo_tail es s u : undo es s = Ret (tt, u) -> revs u = revs s /\ journal.entries (StateDB.journal u) = journal.entries (StateDB.journal s).
Proof.
  revert s. induction es as [|e es IH]; intros s; cbn; [by intros [= <-]|]. unfold undo1, mbind, ST_bind.
  destruct (revertEntry e s) as [[[] s1]|] eqn:E1; [|done]. cbn. apply steady_revert in E1.
  assert (exists s2, undirty e s1 = Ret (tt, s2) /\ revs s2 = revs s1 /\ journal.entries (StateDB.journal s2) = journal.entries (StateDB.journal s1)) as (s2 & -> & R2 & J2).
  { unfold undirty. destruct (dirtied e); by eexists. }
  cbn. intros E2. destruct (IH _ E2) as [R3 J3]. unfold tail in E1. injection E1 as E11 E12 E13. split.
  - unfold revs in *. congruence.
  - rewrite J3, J2, E11. done.
Qed.

(** Revisions have increasing ids and point into the journal, in order. *)
Record revs_ok s : Prop := {
  ro_ids : StronglySorted (fun r r' => revision.id r < revision.id r') (StateDB.validRevisions s);
  ro_next : Forall (fun r => revision.id r < StateDB.nextRevisionId s) (StateDB.validRevisions s);
  ro_index : StronglySorted (fun r r' => (revision.journalIndex r <= revision.journalIndex r')%nat) (StateDB.validRevisions s);
  ro_length : Forall (fun r => (revision.journalIndex r <= length (stack s))%nat) (StateDB.validRevisions s)
}.

Lemma StronglySorted_lookup {A} (R : A -> A -> Prop) l i j x y : StronglySorted R l -> l !! i = Some x -> l !! j = Some y -> (i < j)%nat -> R x y.
Proof.
  intros Hs. revert i j. induction Hs as [|z l Hs IH Hz]; intros i j Hi Hj Hlt; [done|]. destruct j as [|j]; [lia|]. destruct i as [|i].
  - injection Hi as <-. rewrite Forall_lookup in Hz. by apply (Hz j).
  - apply (IH i j); [done|done|lia].
Qed.

(** The search finds the revision. *)
Lemma search_revision s front r back : revs_ok s -> StateDB.validRevisions s = front ++ r :: back ->
  sortSearch (zlen (StateDB.validRevisions s)) (fun i => let! x := slice_get (StateDB.validRevisions s) i in Ret (revision.id r <=? revision.id x)) = Ret (zlen front).
Proof.
  intros [Hids _ _ _] Hv. set (l := StateDB.validRevisions s) in *.
  set (p := fun i => match l !! Z.to_nat i with Some x => revision.id r <=? revision.id x | None => true end).
  assert (l !! length front = Some r) as Hr by (rewrite Hv; by apply list_lookup_middle).
  assert (0 <= zlen l) as Hz by apply zlen_nonneg.
  destruct (sortSearch_spec (zlen l) (fun i => let! x := slice_get l i in Ret (revision.id r <=? revision.id x)) p) as (i & -> & Hi & Hlo & Hhi).
  - intros i Hi. destruct (slice_get_in l i Hi) as (x & -> & Hx). unfold p. by rewrite Hx.
  - intros i j Hij Hj. unfold p. destruct (l !! Z.to_nat i) as [x|] eqn:Ei, (l !! Z.to_nat j) as [y|] eqn:Ej; try done.
    + intros Hx. destruct (decide (i = j)) as [->|Hne]; [congruence|]. pose proof (StronglySorted_lookup _ _ _ _ _ _ Hids Ei Ej ltac:(lia)) as Hxy. cbn in Hxy. lia.
    + intros _. apply lookup_ge_None in Ei. apply lookup_lt_Some in Ej. lia.
  - done.
  - f_equal. assert (length front < length l)%nat as Hlt by (by eapply lookup_lt_Some).
    destruct (Z.lt_trichotomy i (zlen front)) as [H|[H|H]]; [|done|].
    + destruct (lookup_lt_is_Some_2 l (Z.to_nat i)) as [x Hx]; [unfold zlen in *; lia|].
      pose proof (Hhi i ltac:(unfold zlen in *; lia)) as Hp. unfold p in Hp. rewrite Hx in Hp.
      pose proof (StronglySorted_lookup _ _ _ _ _ _ Hids Hx Hr ltac:(unfold zlen in *; lia)) as Hxr. cbn in Hxr. lia.
    + pose proof (Hlo (zlen front) ltac:(unfold zlen in *; lia)) as Hp. unfold p, zlen in Hp. rewrite Nat2Z.id, Hr in Hp. lia.
Qed.

(** [RevertToSnapshot] of a valid revision undoes the entries above its index. *)
Lemma revert_run s front r back new old : revs_ok s -> StateDB.validRevisions s = front ++ r :: back ->
  stack s = new ++ old -> length old = revision.journalIndex r ->
  RevertToSnapshot (revision.id r) s = let! (_, u) := undo new s in Ret (tt, StateDB.set_validRevisions
    (StateDB.set_journal u (journal.mk (reverse old) (journal.dirties (StateDB.journal u)))) front).
Proof.
  intros Hr Hv Hst Hlen. unfold RevertToSnapshot, mbind, ST_bind, gets, lift. cbn [obind].
  rewrite (search_revision s front r back Hr Hv). cbn [obind].
  assert (StateDB.validRevisions s !! length front = Some r) as Hl by (rewrite Hv; by apply list_lookup_middle).
  assert (zlen front <> zlen (StateDB.validRevisions s)) as Hne by (apply lookup_lt_Some in Hl; unfold zlen; lia).
  rewrite (proj2 (Z.eqb_neq _ _) Hne). unfold zlen at 1. rewrite (slice_get_nat _ _ _ Hl). cbn [obind]. rewrite Z.eqb_refl. cbn [negb].
  assert (journal.entries (StateDB.journal s) = reverse old ++ reverse new) as He by (rewrite <- reverse_app, <- Hst; unfold stack; by rewrite reverse_involutive).
  unfold journalRevert, mbind, ST_bind, gets. cbn [obind]. rewrite He, <- Hlen, <- (length_reverse old), drop_app_length, reverse_involutive.
  pose proof (undo_tail new s) as Hu. unfold undo, undo1, mbind, ST_bind in Hu |- *.
  destruct (each _ new s) as [[[] u]|]; [|done]. destruct (Hu u eq_refl) as [Hrev _]. cbn [obind].
  rewrite (proj2 (Nat.ltb_ge _ _)) by (rewrite length_app; lia). unfold modify. cbn [obind]. rewrite take_app_length.
  unfold zlen. rewrite Nat2Z.id. do 2 f_equal. unfold revs in Hrev. cbn. injection Hrev as Hvr _. rewrite Hvr, Hv, take_app_length. done.
Qed.

(** ** Runs *)

Fixpoint run (l : list op) : M unit :=
  match l with
  | [] => mret tt
  | o :: l' => exec o;; run l'
  end.

Lemma goes_stack s s' : goes s s' -> exists new, stack s' = new ++ stack s.
Proof. intros [(new & s'' & H & _) _]. by exists new. Qed.

Lemma goes_revs_ok s s' : goes s s' -> revs_ok s -> revs_ok s'.
Proof.
  intros G [R1 R2 R3 R4]. destruct (goes_stack _ _ G) as [new Hn]. destruct G as [_ G]. unfold revs in G. injection G as G1 G2.
  split; rewrite ?G1, ?G2; try done. eapply Forall_impl; [exact R4|]. intros r Hr. rewrite Hn, length_app. cbn in *. lia.
Qed.

Lemma strongly_snoc {A} (R : A -> A -> Prop) l x : StronglySorted R l -> Forall (fun y => R y x) l -> StronglySorted R (l ++ [x]).
Proof.
  induction 1 as [|y l Hs IH Hy]; intros Hx; [repeat constructor|]. apply Forall_cons in Hx as [Hyx Hx]. cbn. constructor; [auto|].
  apply Forall_app. split; [done|by apply Forall_singleton].
Qed.

Lemma sorted_prefix {A} (R : A -> A -> Prop) l1 l2 : StronglySorted R (l1 ++ l2) -> StronglySorted R l1.
Proof.
  induction l1 as [|x l1 IH]; [constructor|]. cbn. inversion 1 as [|? ? Hs Hx]; subst. apply Forall_app in Hx as [Hx _]. constructor; auto.
Qed.

(** The state after [Snapshot]. *)
Definition snapped s : StateDB.t :=
  StateDB.set_validRevisions (StateDB.set_nextRevisionId s (StateDB.nextRevisionId s + 1))
    (StateDB.validRevisions s ++ [revision.mk (StateDB.nextRevisionId s) (length (stack s))]).

Lemma Snapshot_run s : Snapshot s = Ret (StateDB.nextRevisionId s, snapped s).
Proof. unfold Snapshot, mbind, ST_bind, gets, modify, snapped, stack. cbn. by rewrite length_reverse. Qed.

Lemma snapped_ok s : ok s -> revs_ok s -> ok (snapped s) /\ revs_ok (snapped s).
Proof.
  intros Hw [R1 R2 R3 R4]. split; [by destruct Hw|]. unfold snapped. split; cbn.
  - apply strongly_snoc; [done|]. exact R2.
  - apply Forall_app. split; [|apply Forall_singleton; cbn; lia]. eapply Forall_impl; [exact R2|]. cbn. lia.
  - apply strongly_snoc; [done|]. exact R4.
  - apply Forall_app. split; [exact R4|by apply Forall_singleton].
Qed.

(** The state [s'] in a run that started with the snapshot of [s]. *)
Record since s s' : Prop := {
  si_from : from s s';
  si_revs : exists later, StateDB.validRevisions s' = StateDB.validRevisions s ++ revision.mk (StateDB.nextRevisionId s) (length (stack s)) :: later;
  si_ok : revs_ok s'
}.

Lemma since_index s s' later r : since s s' ->
  StateDB.validRevisions s' = StateDB.validRevisions s ++ revision.mk (StateDB.nextRevisionId s) (length (stack s)) :: later -> r ∈ later ->
  (length (stack s) <= revision.journalIndex r)%nat.
Proof.
  intros [_ _ [_ _ R3 _]] Hv Hr. apply list_elem_of_lookup in Hr as [i Hi]. rewrite Hv in R3.
  assert ((StateDB.validRevisions s ++ revision.mk (StateDB.nextRevisionId s) (length (stack s)) :: later) !! length (StateDB.validRevisions s)
    = Some (revision.mk (StateDB.nextRevisionId s) (length (stack s)))) as H1 by (by apply list_lookup_middle).
  assert ((StateDB.validRevisions s ++ revision.mk (StateDB.nextRevisionId s) (length (stack s)) :: later) !! (length (StateDB.validRevisions s) + S i)%nat
    = Some r) as H2 by (rewrite lookup_app_r by lia; by replace (length (StateDB.validRevisions s) + S i - length (StateDB.validRevisions s))%nat with (S i) by lia).
  exact (StronglySorted_lookup _ _ _ _ _ _ R3 H1 H2 ltac:(lia)).
Qed.

Lemma from_same s s' : stack s' = stack s -> wf (stack s) s' -> eqv (stack s) s s' -> from s s'.
Proof. intros Hs Hw He. exists [], s'. by rewrite Hs. Qed.

Lemma from_ok s s' : from s s' -> ok s'.
Proof. by intros (new & s'' & _ & H & _). Qed.

(** States that differ in revisions and the count of dirty accounts only. *)
Lemma eqv_tail es s s' : still s' = still s -> rest s' = rest s -> StateDB.objects s' = StateDB.objects s ->
  StateDB.stateObjects s' = StateDB.stateObjects s -> eqv es s s' /\ (wf es s -> wf es s').
Proof.
  intros H1 H2 H3 H4. pose proof H2 as H2'. unfold rest in H2'. injection H2' as R1 R2 R3 R4 R5 R6. split.
  - apply (eqv_rest es s s); try done.
  - intros Hw. apply (wf_rest es s); try done. rewrite R4, R5. apply Hw.
Qed.

Lemma revert_valid s r x : RevertToSnapshot r s = Ret x -> exists v, v ∈ StateDB.validRevisions s /\ revision.id v = r.
Proof.
  unfold RevertToSnapshot, mbind, ST_bind, gets, lift. cbn [obind]. destruct (sortSearch _ _) as [i|]; [|done]. cbn [obind].
  destruct (i =? _); [done|]. destruct (slice_get _ i) as [v|] eqn:Ev; [|done]. cbn [obind]. destruct (Z.eqb_spec (revision.id v) r); [|done].
  intros _. exists v. split; [|done]. apply slice_get_Ret in Ev as [_ Ev]. by eapply list_elem_of_lookup_2.
Qed.

(** Reverting to a revision that was taken after [s], or with [s]. *)
Lemma since_revert s s' front v back : since s s' -> StateDB.validRevisions s' = front ++ v :: back ->
  (length (stack s) <= revision.journalIndex v)%nat ->
  exists s2, RevertToSnapshot (revision.id v) s' = Ret (tt, s2) /\ from s s2 /\ StateDB.validRevisions s2 = front /\
    length (stack s2) = revision.journalIndex v /\ StateDB.nextRevisionId s2 = StateDB.nextRevisionId s'.
Proof.
  intros [(new & s'' & Hst & Hw & Hu & He & Hw'') _ Hr] Hv Hk.
  assert (revision.journalIndex v <= length (stack s'))%nat as Hk'.
  { pose proof (ro_length _ Hr) as H. rewrite Hv, Forall_app, Forall_cons in H. apply H. }
  set (m := (length (stack s') - revision.journalIndex v)%nat). rewrite Hst, length_app in Hk'.
  rewrite <- (take_drop m new), undo_app in Hu. set (new1 := take m new) in *. set (new2 := drop m new) in *.
  destruct (undo new1 s') as [[[] u]|] eqn:Eu; [|done]. cbn in Hu.
  assert (stack s' = new1 ++ (new2 ++ stack s)) as Hst' by (unfold new1, new2; by rewrite app_assoc, take_drop).
  assert (length (new2 ++ stack s) = revision.journalIndex v) as Hlen.
  { unfold new2, m. rewrite Hst, !length_app, length_drop. lia. }
  pose proof (revert_run s' front v back new1 (new2 ++ stack s) Hr Hv Hst' Hlen) as Hrun. rewrite Eu in Hrun. eexists. split; [exact Hrun|].
  set (s2 := StateDB.set_validRevisions _ _). destruct (undo_tail _ _ _ Eu) as [Hrv _].
  assert (stack s2 = new2 ++ stack s) as Hs2 by exact (reverse_involutive _).
  rewrite Hst' in Hw. destruct (undo_mono new1 (new2 ++ stack s) s' s' u Hw Hw (eqv_refl _ _) Eu) as (_ & _ & _ & Wu & _).
  destruct (eqv_tail (new2 ++ stack s) u s2 eq_refl eq_refl eq_refl eq_refl) as [E2 W2].
  destruct (undo_mono new2 (stack s) u s2 s'' Wu (W2 Wu) E2 Hu) as (t & Ut & Et & _ & Wt).
  split_and!; [|done|by rewrite Hs2|unfold revs in Hrv; cbn; congruence].
  exists new2, t. rewrite Hs2. split_and!; try done; [by apply W2|by eapply eqv_trans].
Qed.

Lemma since_step s s' o s2 : ok s -> since s s' -> within (StateDB.nextRevisionId s) o = true -> exec o s' = Ret (tt, s2) -> since s s2.
Proof.
  intros Hw Hsi Ho Hx. pose proof (from_ok _ _ (si_from _ _ Hsi)) as Hw'. destruct (journalled_op o) eqn:Ej.
  - pose proof (wp_run _ _ _ _ _ (exec_goes o s' Ej Hw') Hx) as G. destruct Hsi as [H1 [later H2] H3].
    split; [eapply from_trans; [exact H1|apply G]| |exact (goes_revs_ok _ _ G H3)]. exists later. destruct G as [_ G]. unfold revs in G. congruence.
  - destruct o; cbn in Ho, Ej; try discriminate; cbn in Hx.
    + unfold discard, mbind, ST_bind in Hx. rewrite Snapshot_run in Hx. cbn in Hx. injection Hx as <-. destruct Hsi as [H1 [later H2] H3].
      destruct (snapped_ok s' Hw' H3) as [K1 K2]. split; [|cbn; rewrite H2, <- app_assoc; by eexists|done].
      destruct (eqv_tail (stack s') s' (snapped s') eq_refl eq_refl eq_refl eq_refl) as [E2 W2].
      eapply from_trans; [exact H1|]. by apply from_same.
    + destruct (revert_valid _ _ _ Hx) as (v & Hv & <-). pose proof (si_revs _ _ Hsi) as [later Hl]. pose proof (si_ok _ _ Hsi) as [R1 R2 R3 R4].
      assert (v ∈ later) as Hin.
      { rewrite Hl in Hv, R1. apply elem_of_app in Hv as [Hv|Hv]; [|apply elem_of_cons in Hv as [->|]; [cbn in Ho; lia|done]].
        apply list_elem_of_lookup in Hv as [i Hi].
        assert (revision.id v < StateDB.nextRevisionId s); [|lia]. apply (StronglySorted_lookup _ _ i (length (StateDB.validRevisions s)) v (revision.mk (StateDB.nextRevisionId s) (length (stack s))) R1).
        - by apply lookup_app_l_Some.
        - by apply list_lookup_middle.
        - by eapply lookup_lt_Some. }
      pose proof (since_index _ _ _ _ Hsi Hl Hin) as Hk. apply list_elem_of_split in Hin as (l1 & l2 & ->).
      destruct (since_revert s s' (StateDB.validRevisions s ++ revision.mk (StateDB.nextRevisionId s) (length (stack s)) :: l1) v l2 Hsi) as (s3 & E3 & F3 & V3 & K3 & N3).
      { by rewrite Hl, <- app_assoc. }
      { done. }
      rewrite E3 in Hx. injection Hx as <-. split; [done|by eexists|]. rewrite Hl, app_comm_cons, app_assoc in *. split; rewrite ?V3.
      * by eapply sorted_prefix.
      * rewrite N3. by apply Forall_app in R2 as [R2 _].
      * by eapply sorted_prefix.
      * rewrite K3. apply Forall_forall. intros x Hx. apply list_elem_of_lookup in Hx as [i Hi].
        apply (StronglySorted_lookup _ _ i (length (StateDB.validRevisions s ++ revision.mk (StateDB.nextRevisionId s) (length (stack s)) :: l1)) x v R3).
        -- by apply lookup_app_l_Some.
        -- by apply list_lookup_middle.
        -- by eapply lookup_lt_Some.
Qed.

Lemma since_run s l s' s2 : ok s -> since s s' -> forallb (within (StateDB.nextRevisionId s)) l = true -> run l s' = Ret (tt, s2) -> since s s2.
Proof.
  intros Hw. revert s'. induction l as [|o l IH]; intros s' Hsi Hl Hr; cbn in *; [by injection Hr as <-|]. apply andb_true_iff in Hl as [Ho Hl].
  unfold mbind, ST_bind in Hr. destruct (exec o s') as [[[] s1]|] eqn:E1; [|done]. cbn in Hr. eapply IH; [|done|exact Hr]. by eapply since_step.
Qed.

Lemma since_snapped s : ok s -> revs_ok s -> since s (snapped s).
Proof.
  intros Hw Hr. destruct (snapped_ok s Hw Hr) as [K1 K2]. split; [|by eexists|done].
  destruct (eqv_tail (stack s) s (snapped s) eq_refl eq_refl eq_refl eq_refl) as [E2 W2]. by apply from_same.
Qed.

(** The snapshot itself can be reverted to. *)
Lemma since_restores s s' : since s s' -> exists s3, RevertToSnapshot (StateDB.nextRevisionId s) s' = Ret (tt, s3) /\
  eqv (stack s) s s3 /\ stack s3 = stack s /\ StateDB.validRevisions s3 = StateDB.validRevisions s /\ ok s3.
Proof.
  intros Hsi. destruct (si_revs _ _ Hsi) as [later Hl].
  destruct (since_revert s s' _ _ _ Hsi Hl ltac:(done)) as (s3 & E3 & (new & u & Hst & Hw & Hu & He & Hwu) & V3 & K3 & _).
  exists s3. cbn in K3. rewrite Hst, length_app in K3. destruct new as [|e new]; [|cbn in K3; lia]. cbn in Hu. injection Hu as <-. done.
Qed.

(** ** Between transactions *)

(** The part of the invariant that does not depend on the journal or the trie. *)
Record sane s : Prop := {
  sa_live : forall a p, StateDB.stateObjects s !! a = Some p -> exists x, StateDB.objects s !! p = Some x /\ stateObject.address x = a;
  sa_objects : Forall obj_ok (StateDB.objects s);
  sa_dirty : StateDB.stateObjectsDirty s ⊆ dom (StateDB.stateObjects s);
  sa_pending : StateDB.stateObjectsPending s ⊆ dom (StateDB.stateObjects s);
  sa_logs : in_u64 (StateDB.logSize s) /\ forall h, ~ (StateDB.logs s !! h = Some [])
}.

Lemma wf_sane es s : wf es s -> sane s.
Proof. by intros [W1 W2 W3 W4 W5 W6 W7 W8 W9 W10]. Qed.

Lemma sane_wf s : sane s -> proper s -> wf [] s.
Proof. intros [S1 S2 S3 S4 S5] Hp. split; try done; [intros p H; by apply elem_of_nil in H|constructor|intros a H; by apply elem_of_nil in H]. Qed.

(** A computation that keeps the invariant and leaves the journal alone. *)
Definition aside s := (tail s, StateDB.stateObjects s, StateDB.objects s).

Definition safely {A} (m : M A) : Prop :=
  forall s x s', sane s -> m s = Ret (x, s') -> sane s' /\ tail s' = tail s /\ StateDB.stateObjects s' = StateDB.stateObjects s.

Lemma safely_bind {A B} (m : M A) (f : A -> M B) : safely m -> (forall x, safely (f x)) -> safely (m ≫= f).
Proof.
  intros Hm Hf s y s' Hs. unfold mbind, ST_bind. destruct (m s) as [[x s1]|] eqn:E1; [|done]. cbn. intros E2.
  destruct (Hm _ _ _ Hs E1) as (H1 & T1 & L1), (Hf x _ _ _ H1 E2) as (H2 & T2 & L2). split_and!; [done|congruence|congruence].
Qed.

Lemma safely_ret {A} (x : A) : safely (mret x).
Proof. by intros s y s' Hs [= <- <-]. Qed.

Lemma safely_gets {A} (f : StateDB.t -> A) : safely (gets f).
Proof. by intros s x s' Hs [= <- <-]. Qed.

Lemma safely_panic {A} why : safely (@panic _ A why).
Proof. done. Qed.

Lemma safely_nonNil {A} (x : option A) : safely (nonNil x).
Proof. destruct x; [apply safely_ret|done]. Qed.

(** Fields that the invariant does not mention. *)
Definition touched s := (StateDB.stateObjects s, StateDB.objects s, StateDB.stateObjectsDirty s, StateDB.stateObjectsPending s, StateDB.logSize s, StateDB.logs s).

Lemma safely_field f : (forall s, touched (f s) = touched s /\ tail (f s) = tail s) -> safely (modify f).
Proof.
  intros Hf s x s' Hs [= <- <-]. destruct (Hf s) as [F Ft]. unfold touched in F. injection F as F1 F2 F3 F4 F5 F6. destruct Hs as [S1 S2 S3 S4 S5].
  split_and!; [|done|done]. split; rewrite ?F1, ?F2, ?F3, ?F4, ?F5, ?F6; done.
Qed.

Lemma safely_each {A} (body : A -> M unit) l : (forall x, safely (body x)) -> safely (each body l).
Proof. intros Hb. induction l as [|x l IH]; cbn; [apply safely_ret|]. apply safely_bind; [done|]. by intros _. Qed.

Lemma safely_update p f : (forall x : stateObject.t, same_id x (f x)) -> safely (update p f).
Proof.
  intros Hf s y s' [S1 S2 S3 S4 S5] [= <- <-]. split_and!; [|done|done]. split; try done; cbn.
  - intros a q Hq. destruct (S1 a q Hq) as (x & Hx & Ha). destruct (decide (p = q)) as [<-|Hne].
    + rewrite list_lookup_alter_eq, Hx. exists (f x). split; [done|]. by rewrite (proj1 (Hf x)).
    + rewrite list_lookup_alter_ne by done. by exists x.
  - apply Forall_alter; [done|]. intros x Hx. apply (proj2 (Hf x)).
Qed.

Lemma safely_deref p : safely (deref p).
Proof. unfold deref. apply safely_bind; [apply safely_gets|]. intros x. apply safely_nonNil. Qed.

Lemma safely_when (c : bool) (m : M unit) : safely m -> safely (when c m).
Proof. destruct c; [done|]. intros _. apply safely_ret. Qed.

(** Updates that keep the identity of an object, and the rest by structure. *)
Ltac same_id := intros ?; split; [done|by intros [? ? ?]].

Create HintDb safe.

Ltac safely := repeat first
  [ solve [auto 1 with safe nocore] | apply safely_deref | apply safely_gets | apply safely_ret | apply safely_nonNil | apply safely_panic
  | apply safely_bind; [|intros ?] | apply safely_when | apply safely_update; solve [same_id] | apply safely_field; solve [done]
  | apply safely_each; intros ? | case_match ].

Lemma safely_getTrie p : safely (getTrie p).
Proof. unfold getTrie, objSetError. safely. Qed.
#[local] Hint Resolve safely_getTrie : safe.

Lemma safely_updateTrie p : safely (updateTrie p).
Proof. unfold updateTrie, objFinalise, writeSlot, objSetError. safely. Qed.
#[local] Hint Resolve safely_updateTrie : safe.

Lemma safely_updateRoot p : safely (updateRoot p).
Proof. unfold updateRoot. safely. Qed.

Lemma safely_CommitTrie p : safely (CommitTrie p).
Proof. unfold CommitTrie. safely. Qed.
#[local] Hint Resolve safely_updateRoot safely_CommitTrie : safe.

Lemma safely_writeObject a : safely (writeObject a).
Proof. unfold writeObject, deleteStateObject, updateStateObject, setError. safely. Qed.
#[local] Hint Resolve safely_writeObject : safe.

Lemma safely_commitObjects l codes : safely (commitObjects l codes).
Proof. revert codes. induction l as [|a l IH]; intros codes; cbn; safely; apply IH. Qed.
#[local] Hint Resolve safely_commitObjects : safe.

Lemma safely_markDeleted p : safely (markDeleted p).
Proof. unfold markDeleted. safely. Qed.
#[local] Hint Resolve safely_markDeleted : safe.

Lemma safely_finaliseOne del a : safely (finaliseOne del a).
Proof.
  unfold finaliseOne, objFinalise. intros s x s' Hs. unfold mbind, ST_bind, gets. cbn [obind].
  destruct (StateDB.stateObjects s !! a) as [p|] eqn:Ea; [|by intros [= <- <-]].
  destruct (deref p s) as [[o s0]|] eqn:Ed; [|done]. destruct (safely_deref p _ _ _ Hs Ed) as (S0 & T0 & L0). cbn [obind].
  match goal with |- obind (?m s0) _ = _ -> _ => destruct (m s0) as [[[] s1]|] eqn:E1; [|done] end. cbn.
  assert (sane s1 /\ tail s1 = tail s /\ StateDB.stateObjects s1 = StateDB.stateObjects s) as ([S1 S2 S3 S4 S5] & T1 & L1).
  { rewrite <- T0, <- L0. revert E1. case_match; intros E1.
    - by eapply safely_markDeleted.
    - eapply safely_update; [|exact S0|exact E1]. same_id. }
  intros [= <- <-]. assert (a ∈ dom (StateDB.stateObjects s1)) as Ha by (rewrite L1; by eapply elem_of_dom_2).
  split_and!; [|done|done]. split; try done; cbn; set_solver.
Qed.
#[local] Hint Resolve safely_finaliseOne : safe.

(** After [clearJournalAndRefund] there is nothing to undo. *)
Lemma clear_run s : exists s', clearJournalAndRefund s = Ret (tt, s') /\ touched s' = touched s /\ stack s' = [] /\ StateDB.validRevisions s' = [] /\
  still s' = still s /\ StateDB.nextRevisionId s' = StateDB.nextRevisionId s /\ StateDB.snapDestructs s' = StateDB.snapDestructs s.
Proof.
  unfold clearJournalAndRefund, mbind, ST_bind, gets, journal.length. cbn [obind]. unfold stack.
  destruct (journal.entries (StateDB.journal s)) as [|e l] eqn:El; cbn.
  - eexists. split; [reflexivity|]. cbn. by rewrite El.
  - eexists. by split; [reflexivity|].
Qed.

Lemma sane_touched s s' : touched s' = touched s -> sane s -> sane s'.
Proof. unfold touched. intros F [S1 S2 S3 S4 S5]. injection F as F1 F2 F3 F4 F5 F6. split; rewrite ?F1, ?F2, ?F3, ?F4, ?F5, ?F6; done. Qed.

(** Nothing is journalled and no revision is valid. *)
Definition settled s : Prop := sane s /\ stack s = [] /\ StateDB.validRevisions s = [].

Lemma Finalise_settled del s s' : sane s -> Finalise del s = Ret (tt, s') -> settled s'.
Proof.
  intros Hs. unfold Finalise, mbind, ST_bind, gets. cbn [obind].
  match goal with |- obind (?m s) _ = _ -> _ => destruct (m s) as [[[] s1]|] eqn:E1; [|done] end. cbn [obind].
  destruct (safely_each (finaliseOne del) _ ltac:(auto with safe) _ _ _ Hs E1) as (S1 & _ & _).
  destruct (clear_run s1) as (s2 & -> & H2 & H3 & H4 & _). intros [= <-]. split_and!; [by eapply sane_touched|done|done].
Qed.

Lemma settled_safely {A} (m : M A) s x s' : safely m -> settled s -> m s = Ret (x, s') -> settled s'.
Proof.
  intros Hm (Hs & Hst & Hv) E. destruct (Hm _ _ _ Hs E) as (S1 & T1 & _). unfold tail in T1. injection T1 as T1 T2 T3.
  unfold settled, stack in *. rewrite T1, T2. done.
Qed.

Lemma settled_ok s : settled s -> proper s -> ok s /\ revs_ok s.
Proof. intros (Hs & Hst & Hv) Hp. unfold ok. rewrite Hst. split; [by apply sane_wf|]. split; rewrite Hv; constructor. Qed.

Lemma IntermediateRoot_settled del s x s' : sane s -> IntermediateRoot del s = Ret (x, s') -> settled s'.
Proof.
  intros Hs. unfold IntermediateRoot, mbind, ST_bind. destruct (Finalise del s) as [[[] s1]|] eqn:E1; [|done]. cbn [obind].
  pose proof (Finalise_settled _ _ _ Hs E1) as H1. unfold gets at 1. cbn [obind].
  destruct (each writeObject _ s1) as [[[] s2]|] eqn:E2; [|done]. cbn. intros [= <- <-].
  destruct (settled_safely _ _ _ _ (safely_each writeObject _ ltac:(auto with safe)) H1 E2) as ([S1 S2 S3 S4 S5] & T1 & T2).
  split_and!; [|done|done]. by split.
Qed.

Lemma safely_commitSnaps root : safely (commitSnaps root).
Proof. unfold commitSnaps. safely. Qed.
#[local] Hint Resolve safely_commitSnaps : safe.

Lemma Commit_settled del s x s' : sane s -> Commit del s = Ret (x, s') -> s' = s \/ settled s'.
Proof.
  intros Hs. unfold Commit, mbind, ST_bind, gets. cbn [obind]. destruct (StateDB.dbErr s); [intros [= <- <-]; by left|].
  destruct (IntermediateRoot del s) as [[root s1]|] eqn:E1; [|done]. cbn [obind]. pose proof (IntermediateRoot_settled _ _ _ _ Hs E1) as H1.
  destruct (commitObjects _ [] s1) as [[r s2]|] eqn:E2; [|done]. cbn [obind].
  pose proof (settled_safely _ _ _ _ (safely_commitObjects _ _) H1 E2) as H2. destruct r as [codes|err]; [|intros [= <- <-]; by right].
  unfold modify. cbn [obind]. destruct (TrieCommit _ _) as [db' res]. cbn [obind].
  destruct (commitSnaps _ _) as [[[] s3]|] eqn:E3; [|done]. cbn. intros [= <- <-]. right.
  eapply (settled_safely _ _ _ _ (safely_commitSnaps _)); [|exact E3]. destruct H2 as ([S1 S2 S3 S4 S5] & T1 & T2).
  split_and!; [|done|done]. by split.
Qed.

Lemma Reset_settled root s x s' : sane s -> Reset root s = Ret (x, s') -> s' = s \/ settled s'.
Proof.
  intros Hs. unfold Reset, mbind, ST_bind, gets. cbn [obind]. destruct (OpenTrie _ root) as [tr|]; [|intros [= <- <-]; by left].
  unfold modify at 1 2 3 4. cbn [obind]. match goal with |- context [clearJournalAndRefund ?u] => set (s1 := u) end.
  destruct (clear_run s1) as (s2 & -> & H2 & H3 & H4 & _). cbn [obind].
  assert (settled s2) as St2.
  { split_and!; [|done|done]. apply (sane_touched s1); [done|]. destruct Hs as [S1 S2 S3 S4 S5].
    by split. }
  right. revert H. destruct (StateDB.snaps s2); cbn; intros [= <- <-]; [|done]. destruct St2 as ([S1 S2 S3 S4 S5] & T1 & T2). by split_and!.
Qed.

(** Reverting keeps the invariant. *)
Lemma revert_ok r s s' : ok s -> revs_ok s -> RevertToSnapshot r s = Ret (tt, s') -> ok s' /\ revs_ok s'.
Proof.
  intros Hw Hr Hx. destruct (revert_valid _ _ _ Hx) as (v & Hv & <-). apply list_elem_of_split in Hv as (front & back & Hv).
  assert (revision.journalIndex v <= length (stack s))%nat as Hk.
  { pose proof (ro_length _ Hr) as H. rewrite Hv, Forall_app, Forall_cons in H. apply H. }
  set (m := (length (stack s) - revision.journalIndex v)%nat). pose proof (take_drop m (stack s)) as Hst.
  rewrite (revert_run s front v back (take m (stack s)) (drop m (stack s)) Hr Hv) in Hx; [|done|rewrite length_drop; lia].
  destruct (undo (take m (stack s)) s) as [[[] u]|] eqn:Eu; [|done]. cbn [obind] in Hx. injection Hx as <-. set (s2 := StateDB.set_validRevisions _ _).
  assert (stack s2 = drop m (stack s)) as Hs2 by exact (reverse_involutive _). destruct (undo_tail _ _ _ Eu) as [Hrv _].
  unfold ok in Hw. rewrite <- Hst in Hw. destruct (undo_mono _ _ s s u Hw Hw (eqv_refl _ _) Eu) as (_ & _ & _ & Wu & _).
  destruct (eqv_tail (drop m (stack s)) u s2 eq_refl eq_refl eq_refl eq_refl) as [_ W2]. split; [unfold ok; rewrite Hs2; by apply W2|].
  destruct Hr as [R1 R2 R3 R4]. rewrite Hv in *. unfold revs in Hrv. split.
  - exact (sorted_prefix _ _ _ R1).
  - change (Forall (fun r => revision.id r < StateDB.nextRevisionId u) front). injection Hrv as _ ->. by apply Forall_app in R2 as [R2 _].
  - exact (sorted_prefix _ _ _ R3).
  - rewrite Hs2. apply Forall_forall. intros x Hx. apply list_elem_of_lookup in Hx as [i Hi].
    pose proof (StronglySorted_lookup _ _ i (length front) x v R3 ltac:(by apply lookup_app_l_Some) ltac:(by apply list_lookup_middle) ltac:(by eapply lookup_lt_Some)) as H.
    cbn in H. rewrite length_drop. lia.
Qed.

Lemma exec_ok o s s' : ok s -> revs_ok s -> exec o s = Ret (tt, s') -> proper s' -> ok s' /\ revs_ok s'.
Proof.
  intros Hw Hr Hx Hp. pose proof (wf_sane _ _ Hw) as Hs. destruct (journalled_op o) eqn:Ej.
  - pose proof (wp_run _ _ _ _ _ (exec_goes o s Ej Hw) Hx) as G. split; [exact (goes_ok _ _ G)|exact (goes_revs_ok _ _ G Hr)].
  - destruct o; try discriminate Ej; cbn in Hx.
    + unfold discard, mbind, ST_bind in Hx. rewrite Snapshot_run in Hx. cbn in Hx. injection Hx as <-. by apply snapped_ok.
    + by eapply revert_ok.
    + injection Hx as <-. split; [by destruct Hw|by destruct Hr].
    + apply settled_ok; [|done]. by eapply Finalise_settled.
    + unfold discard, mbind, ST_bind in Hx. destruct (IntermediateRoot del s) as [[x s1]|] eqn:E1; [|done]. cbn in Hx. injection Hx as <-.
      apply settled_ok; [|done]. by eapply IntermediateRoot_settled.
    + unfold discard, mbind, ST_bind in Hx. destruct (Commit del s) as [[x s1]|] eqn:E1; [|done]. cbn in Hx. injection Hx as <-.
      destruct (Commit_settled _ _ _ _ Hs E1) as [->|H]; [done|by apply settled_ok].
    + unfold discard, mbind, ST_bind in Hx. destruct (Reset root s) as [[x s1]|] eqn:E1; [|done]. cbn in Hx. injection Hx as <-.
      destruct (Reset_settled _ _ _ _ Hs E1) as [->|H]; [done|by apply settled_ok].
Qed.

(** The states of a database: the accounts in its tries have proper code hashes. *)
Inductive reach : StateDB.t -> Prop :=
| reach_new root db snaps s : New root db snaps = inl s -> proper s -> reach s
| reach_exec s o s' : reach s -> exec o s = Ret (tt, s') -> proper s' -> reach s'.

Lemma reach_ok s : reach s -> ok s /\ revs_ok s.
Proof.
  induction 1 as [root db snaps s Hn Hp|s o s' _ [IH1 IH2] Hx Hp]; [|by eapply exec_ok]. apply settled_ok; [|done].
  unfold New in Hn. destruct (OpenTrie db root); [|done]. injection Hn as <-. split_and!; [|done|done].
  by split.
Qed.

(** ** Reverting *)

(** Every getter returns the same on both states. *)
Record same_reads s t : Prop := {
  sr_exist : forall a, result (Exist a) t = result (Exist a) s;
  sr_empty : forall a, result (Empty a) t = result (Empty a) s;
  sr_balance : forall a, result (GetBalance a) t = result (GetBalance a) s;
  sr_nonce : forall a, result (GetNonce a) t = result (GetNonce a) s;
  sr_code : forall a, result (GetCode a) t = result (GetCode a) s;
  sr_codeSize : forall a, result (GetCodeSize a) t = result (GetCodeSize a) s;
  sr_codeHash : forall a, result (GetCodeHash a) t = result (GetCodeHash a) s;
  sr_state : forall a k, result (GetState a k) t = result (GetState a k) s;
  sr_committed : forall a k, result (GetCommittedState a k) t = result (GetCommittedState a k) s;
  sr_suicided : forall a, result (HasSuicided a) t = result (HasSuicided a) s;
  sr_refund : result GetRefund t = result GetRefund s;
  sr_logs : forall h, result (GetLogs h) t = result (GetLogs h) s;
  sr_preimages : result Preimages t = result Preimages s
}.

Lemma observes_result {A} (m : M A) v s : observes m v -> ok s -> result m s = v s.
Proof. intros Hm Hw. pose proof (Hm s Hw) as H. unfold result. destruct (m s) as [[x s']|]; [by destruct H|done]. Qed.

Lemma eqv_reads es s t : ok s -> ok t -> eqv es s t -> same_reads s t.
Proof.
  intros Hs Ht He. pose proof (eq_rest _ _ _ He) as Hr. unfold rest in Hr. injection Hr as R1 R2 R3 R4 R5 R6.
  assert (forall A (m : M A) v, observes m v -> v s = v t -> result m t = result m s) as Hg.
  { intros A m v Hm Hv. by rewrite (observes_result m v s Hm Hs), (observes_result m v t Hm Ht). }
  pose proof getters_observe as Ho. pose proof (fun a k => views_respect a k es s t He) as Hv.
  split; [intros a; destruct (Ho a zeroHash) as (G1 & G2 & G3 & G4 & G5 & G6 & G7 & G8 & _);
    destruct (Hv a zeroHash) as (V1 & V2 & V3 & V4 & V5 & V6 & V7 & V8 & _)..| | |].
  - exact (Hg _ _ _ G1 V1).
  - exact (Hg _ _ _ G2 V2).
  - exact (Hg _ _ _ G3 V3).
  - exact (Hg _ _ _ G4 V4).
  - exact (Hg _ _ _ G7 V7).
  - exact (Hg _ _ _ G8 V8).
  - exact (Hg _ _ _ G5 V5).
  - intros k. destruct (Ho a k) as (_ & _ & _ & _ & _ & _ & _ & _ & G9 & _), (Hv a k) as (_ & _ & _ & _ & _ & _ & _ & _ & V9 & _). exact (Hg _ _ _ G9 V9).
  - intros k. destruct (Ho a k) as (_ & _ & _ & _ & _ & _ & _ & _ & _ & G10), (Hv a k) as (_ & _ & _ & _ & _ & _ & _ & _ & _ & V10). exact (Hg _ _ _ G10 V10).
  - exact (Hg _ _ _ G6 V6).
  - unfold result, GetRefund, gets. by rewrite R3.
  - intros h. unfold result, GetLogs, gets. by rewrite R4.
  - unfold result, Preimages, gets. by rewrite R6.
Qed.

(** C4: reverting restores.  After a snapshot, any operations of a transaction,
    nested snapshots and reverts to them included, can be reverted: the revert does
    not panic, every getter then returns what it returned before the snapshot, and
    the earlier revisions are valid again. *)
Theorem revert_restores s id s1 l s2 : reach s -> Snapshot s = Ret (id, s1) -> forallb (within id) l = true -> run l s1 = Ret (tt, s2) ->
  exists s3, RevertToSnapshot id s2 = Ret (tt, s3) /\ same_reads s s3 /\ StateDB.validRevisions s3 = StateDB.validRevisions s.
Proof.
  intros HR Hs Hl Hr. destruct (reach_ok s HR) as [Hw Hv]. rewrite Snapshot_run in Hs. injection Hs as <- <-.
  pose proof (since_run s l _ s2 Hw (since_snapped s Hw Hv) Hl Hr) as Hsi. destruct (since_restores s s2 Hsi) as (s3 & E3 & He & _ & V3 & Hw3).
  exists s3. split_and!; [done| |done]. by eapply eqv_reads.
Qed.

(** ** The setters *)

Abbreviation alike s a := (obj_eq (StateDB.db s) (StateDB.snap s) (flag s a)).

(** Every getter returns the same for the account [b]. *)
Definition same_account b s t : Prop :=
  result (Exist b) t = result (Exist b) s /\ result (Empty b) t = result (Empty b) s /\ result (GetBalance b) t = result (GetBalance b) s /\
  result (GetNonce b) t = result (GetNonce b) s /\ result (GetCodeHash b) t = result (GetCodeHash b) s /\ result (HasSuicided b) t = result (HasSuicided b) s /\
  result (GetCode b) t = result (GetCode b) s /\ result (GetCodeSize b) t = result (GetCodeSize b) s /\
  forall k, result (GetState b k) t = result (GetState b k) s /\ result (GetCommittedState b k) t = result (GetCommittedState b k) s.

Lemma seen_oeq {A} (d : A) V b s t : respects V -> still t = still s -> flag t b = flag s b -> option_Forall2 (alike s b) (view s b) (view t b) ->
  seen d V b t = seen d V b s.
Proof.
  intros HV Hs Hf Ho. destruct (still_ctx _ _ (eq_sym Hs)) as [Ed Es]. unfold seen. rewrite Ed, Es, Hf. inversion Ho as [x y Hxy Hx Hy|Hx Hy]; [|done].
  destruct (core_parts _ _ (oe_core _ _ _ _ _ Hxy)) as (_ & _ & _ & _ & _ & <-). by rewrite (HV _ _ _ _ _ Hxy).
Qed.

Lemma views_same b k s t : still t = still s -> flag t b = flag s b -> option_Forall2 (alike s b) (view s b) (view t b) ->
  vExist b t = vExist b s /\ vEmpty b t = vEmpty b s /\ vBalance b t = vBalance b s /\ vNonce b t = vNonce b s /\ vCodeHash b t = vCodeHash b s /\
  vSuicided b t = vSuicided b s /\ vCode b t = vCode b s /\ vCodeSize b t = vCodeSize b s /\ vState b k t = vState b k s /\ vCommitted b k t = vCommitted b k s.
Proof.
  intros Hs Hf Ho. assert (forall x y : stateObject.t, core x = core y -> stateObject.data x = stateObject.data y /\ stateObject.suicided x = stateObject.suicided y) as Hd.
  { intros x y H. apply core_parts in H as (_ & _ & -> & _ & -> & _). done. }
  split_and!; (apply seen_oeq; [|done..]); intros db snap d x y [H1 H2 H3 H4]; destruct (Hd _ _ H1) as [E1 E2]; unfold objEmpty;
    rewrite ?E1, ?E2, ?H2, ?H3, ?H4; done.
Qed.

Lemma elsewhere_account a b s t : ok s -> ok t -> elsewhere a s t -> b <> a -> same_account b s t.
Proof.
  intros Hs Ht [E1 E2 E3] Hb.
  assert (forall A (m : M A) v, observes m v -> v t = v s -> result m t = result m s) as Hg.
  { intros A m v Hm Hv. by rewrite (observes_result m v s Hm Hs), (observes_result m v t Hm Ht). }
  pose proof (fun k => views_same b k s t E1 (E2 b Hb) (E3 b Hb)) as Hv. pose proof (getters_observe b) as Ho.
  destruct (Ho zeroHash) as (G1 & G2 & G3 & G4 & G5 & G6 & G7 & G8 & _), (Hv zeroHash) as (V1 & V2 & V3 & V4 & V5 & V6 & V7 & V8 & _).
  split; [exact (Hg _ _ _ G1 V1)|]. split; [exact (Hg _ _ _ G2 V2)|]. split; [exact (Hg _ _ _ G3 V3)|]. split; [exact (Hg _ _ _ G4 V4)|].
  split; [exact (Hg _ _ _ G5 V5)|]. split; [exact (Hg _ _ _ G6 V6)|]. split; [exact (Hg _ _ _ G7 V7)|]. split; [exact (Hg _ _ _ G8 V8)|].
  intros k. destruct (Ho k) as (_ & _ & _ & _ & _ & _ & _ & _ & G9 & G10), (Hv k) as (_ & _ & _ & _ & _ & _ & _ & _ & V9 & V10).
  split; [exact (Hg _ _ _ G9 V9)|exact (Hg _ _ _ G10 V10)].
Qed.

(** The account that a setter is for. *)
Definition setter (o : op) : option bytes :=
  match o with
  | OAddBalance a _ | OSubBalance a _ | OSetBalance a _ | OSetNonce a _ | OSetCode a _ | OSetState a _ _ | OSuicide a | OCreateAccount a => Some a
  | _ => None
  end.

(** What a setter promises of its account. *)
Definition promise (o : op) s t : Prop :=
  match o with
  | OAddBalance a z => result (GetBalance a) t = (fun x => x + z) <$> result (GetBalance a) s
  | OSubBalance a z => result (GetBalance a) t = (fun x => x - z) <$> result (GetBalance a) s
  | OSetBalance a z => result (GetBalance a) t = Some z
  | OSetNonce a n => result (GetNonce a) t = Some n
  | OSetCode a c => result (GetCode a) t = Some c /\ result (GetCodeHash a) t = Some (Keccak256Hash (goBytes c))
  | OSetState a k v => result (GetState a k) t = Some v /\
      (result (Exist a) s = Some true -> forall k', (k' <> k -> result (GetState a k') t = result (GetState a k') s) /\
        result (GetCommittedState a k') t = result (GetCommittedState a k') s)
  | OSuicide a => result (Exist a) s = Some true -> result (HasSuicided a) t = Some true /\ result (GetBalance a) t = Some 0
  | OCreateAccount a => result (GetBalance a) t = result (GetBalance a) s /\ result (GetNonce a) t = Some 0 /\ result (GetCode a) t = Some None /\
      result (HasSuicided a) t = Some false
  | _ => True
  end.

Lemma base_balance s a : vBalance a s = Some (Account.Balance (stateObject.data (base s a))).
Proof. unfold vBalance, seen, base. destruct (view s a) as [o|]; [|done]. by destruct (stateObject.deleted o). Qed.

Lemma vExist_present s a : vExist a s = Some true -> present s a.
Proof.
  unfold vExist, seen, present. destruct (view s a) as [o|]; [|done]. destruct (stateObject.deleted o) eqn:Ed; [done|]. intros _. by exists o.
Qed.

(** What is read after a setter. *)
Lemma sets_seen {A} (d : A) V a f s t : sets a f s t -> respects V -> (forall x, stateObject.deleted (f x) = stateObject.deleted x) ->
  seen d V a t = V (StateDB.db s) (StateDB.snap s) (flag t a) (f (base s a)).
Proof.
  intros (G & [E1 _ _] & _ & o & Ho & He) HV Hd. destruct (still_ctx _ _ (eq_sym E1)) as [Ed Es]. unfold seen. rewrite Ho.
  destruct (core_parts _ _ (oe_core _ _ _ _ _ He)) as (_ & _ & _ & _ & _ & Hdel). rewrite Hd, base_deleted in Hdel. rewrite <- Hdel, <- (HV _ _ _ _ _ He).
  by rewrite Ed, Es.
Qed.

Lemma respects_core {A} (g : stateObject.t -> A) : (forall x y, core x = core y -> g x = g y) -> respects (fun _ _ _ (x : stateObject.t) => Some (g x)).
Proof. intros Hg db snap d x y [H _ _ _]. by rewrite (Hg x y H). Qed.

Lemma core_data x y : core x = core y -> stateObject.data x = stateObject.data y.
Proof. intros H. by apply core_parts in H as (_ & _ & -> & _). Qed.

Lemma core_suicided x y : core x = core y -> stateObject.suicided x = stateObject.suicided y.
Proof. intros H. by apply core_parts in H as (_ & _ & _ & _ & -> & _). Qed.

Lemma respects_data {A} (g : Account.t -> A) : respects (fun _ _ _ (x : stateObject.t) => Some (g (stateObject.data x))).
Proof. apply (respects_core (fun x => g (stateObject.data x))). intros x y H. by rewrite (core_data _ _ H). Qed.

Lemma respects_state k : respects (fun db snap d (x : stateObject.t) => stateView db snap d x k).
Proof. intros db snap d x y H. apply H. Qed.

Lemma respects_committed k : respects (fun db snap d (x : stateObject.t) => committedView db snap d x k).
Proof. intros db snap d x y H. apply H. Qed.

Lemma SetState_promise a k v s t : ok s -> ok t -> SetState a k v s = Ret (tt, t) -> elsewhere a s t /\ promise (OSetState a k v) s t.
Proof.
  intros Hw Ht Hx. pose proof (wp_run _ _ _ _ _ (SetState_sets s a k v Hw) Hx) as S. split; [apply S|]. cbn [promise].
  assert (forall A (m : M A) u, observes m u -> result m s = u s /\ result m t = u t) as Hr by (intros A m u Hm; split; by apply observes_result).
  pose proof (getters_observe a) as Hg. assert (stateObject.fakeStorage (base s a) = None) as Hf.
  { unfold base. destruct (view s a) as [o|] eqn:Ev; [|done]. destruct (stateObject.deleted o); [done|].
    unfold view in Ev. destruct (StateDB.stateObjects s !! a) as [p|]; [exact (ok_fake _ (obj_ok_at _ _ _ _ Hw Ev))|].
    destruct (loadAccount s a).1; [|done]. by injection Ev as <-. }
  split.
  - destruct (Hg k) as (_ & _ & _ & _ & _ & _ & _ & _ & G9 & _). rewrite (proj2 (Hr _ _ _ G9)).
    unfold vState. rewrite (sets_seen _ _ a _ s t S (respects_state k) ltac:(done)), stateView_fState by done. by rewrite decide_True.
  - destruct (Hg zeroHash) as (G1 & _). rewrite (proj1 (Hr _ _ _ G1)). intros Hp%vExist_present k'. destruct S as (S0 & S1 & S2 & S3).
    pose proof (S2 Hp) as Hfl. destruct (Hg k') as (_ & _ & _ & _ & _ & _ & _ & _ & G9 & G10). destruct (Hr _ _ _ G9) as [-> ->], (Hr _ _ _ G10) as [-> ->].
    assert (sets a (fState k v) s t) as S by done.
    assert (forall A (d : A) V, seen d V a s = V (StateDB.db s) (StateDB.snap s) (flag s a) (base s a)) as Hs.
    { intros A d V. unfold seen. rewrite (base_present _ _ Hp). by rewrite base_deleted. }
    unfold vState, vCommitted. rewrite !Hs, (sets_seen _ _ a _ s t S (respects_state k') ltac:(done)),
      (sets_seen _ _ a _ s t S (respects_committed k') ltac:(done)), Hfl. split; [|done].
    intros Hne. rewrite stateView_fState by done. by rewrite decide_False.
Qed.

Lemma promise_kept o a s t : setter o = Some a -> ok s -> exec o s = Ret (tt, t) -> ok t -> elsewhere a s t /\ promise o s t.
Proof.
  intros Ho Hw Hx Ht. pose proof (getters_observe a zeroHash) as (G1 & _ & G3 & G4 & G5 & G6 & G7 & _).
  assert (forall A (m : M A) v, observes m v -> result m s = v s /\ result m t = v t) as Hr by (intros A m v Hm; split; by apply observes_result).
  destruct o; try discriminate Ho; injection Ho as ->; cbn [exec promise] in *.
  - pose proof (wp_run _ _ _ _ _ (AddBalance_sets s a z Hw) Hx) as S. split; [apply S|]. destruct (Hr _ _ _ G3) as [-> ->].
    rewrite (base_balance s a). unfold vBalance. by rewrite (sets_seen 0 _ a _ s t S (respects_data Account.Balance) ltac:(done)).
  - pose proof (wp_run _ _ _ _ _ (SubBalance_sets s a z Hw) Hx) as S. split; [apply S|]. destruct (Hr _ _ _ G3) as [-> ->].
    rewrite (base_balance s a). unfold vBalance. by rewrite (sets_seen 0 _ a _ s t S (respects_data Account.Balance) ltac:(done)).
  - pose proof (wp_run _ _ _ _ _ (SetBalance_sets s a z Hw) Hx) as S. split; [apply S|]. rewrite (proj2 (Hr _ _ _ G3)).
    unfold vBalance. by rewrite (sets_seen 0 _ a _ s t S (respects_data Account.Balance) ltac:(done)).
  - pose proof (wp_run _ _ _ _ _ (SetNonce_sets s a n Hw) Hx) as S. split; [apply S|]. rewrite (proj2 (Hr _ _ _ G4)).
    unfold vNonce. by rewrite (sets_seen 0 _ a _ s t S (respects_data Account.Nonce) ltac:(done)).
  - pose proof (wp_run _ _ _ _ _ (SetCode_sets s a c Hw) Hx) as S. split; [apply S|]. rewrite (proj2 (Hr _ _ _ G7)), (proj2 (Hr _ _ _ G5)). split.
    + unfold vCode. rewrite (sets_seen None (fun db _ _ (x : stateObject.t) => Some (codeView db x)) a _ s t S ltac:(intros ? ? ? ? ? [? H _ _]; by rewrite H) ltac:(done)).
      unfold codeView, fCode. cbn. destruct c as [c|]; [done|]. cbn. by rewrite (proj2 (bytes_equal_true _ _)).
    + unfold vCodeHash. rewrite (sets_seen zeroHash _ a _ s t S (respects_data (fun d => BytesToHash (goBytes (Account.CodeHash d)))) ltac:(done)).
      cbn. by rewrite BytesToHash_hash.
  - by apply SetState_promise.
  - unfold discard, mbind, ST_bind in Hx. pose proof (Suicide_sets s a Hw) as H. unfold wp in H.
    destruct (Suicide a s) as [[r s1]|] eqn:E1; [|done]. cbn in Hx. injection Hx as ->. destruct H as [G H].
    rewrite (proj1 (Hr _ _ _ G1)), (proj2 (Hr _ _ _ G6)), (proj2 (Hr _ _ _ G3)). destruct r.
    + destruct (H eq_refl) as [Hp S]. split; [apply S|]. intros _. split.
      * unfold vSuicided. by rewrite (sets_seen false _ a _ s t S (respects_core _ core_suicided) ltac:(done)).
      * unfold vBalance. by rewrite (sets_seen 0 _ a _ s t S (respects_data Account.Balance) ltac:(done)).
    + assert (~ present s a) as Hn.
      { intros (x & Hv & Hd). unfold Suicide, withObject, mbind, ST_bind in E1. destruct (getStateObject_spec (stack s) s a Hw) as ([p|] & s2 & E2 & F).
        - rewrite E2 in E1. cbn in E1. unfold mbind, ST_bind in E1. destruct (fo_some _ _ _ _ _ F p eq_refl) as (_ & y & Hy & _). rewrite (deref_run _ _ _ Hy) in E1. done.
        - by rewrite (fo_none _ _ _ _ _ F eq_refl x Hv) in Hd. }
      split; [|by intros Hp%vExist_present]. unfold Suicide, withObject, mbind, ST_bind in E1.
      destruct (getStateObject_spec (stack s) s a Hw) as ([p|] & s2 & E2 & F); rewrite E2 in E1; cbn in E1.
      * destruct (found_opened _ _ _ _ F) as [_ Hp]. done.
      * injection E1 as ->. eapply elsewhere_eqv, F.
  - pose proof (wp_run _ _ _ _ _ (CreateAccount_spec s a Hw) Hx) as (_ & He & x & Hv & ->). split; [done|].
    destruct (Hr _ _ _ G3) as [-> ->], (Hr _ _ _ G4) as [_ ->], (Hr _ _ _ G7) as [_ ->], (Hr _ _ _ G6) as [_ ->].
    rewrite (base_balance s a). unfold vBalance, vNonce, vCode, vSuicided, seen. rewrite Hv. split_and!; try done. cbn. unfold codeView. cbn.
    by rewrite (proj2 (bytes_equal_true _ _)).
Qed.


(** ** The end of a transaction *)

Definition ctx s := (StateDB.db s, StateDB.trie s, StateDB.snap s).

Lemma loadAccount_ctx s t a : ctx s = ctx t -> loadAccount s a = loadAccount t a.
Proof. unfold ctx, loadAccount, trieAccount. by intros [= _ -> ->]. Qed.

(** An object that goes away at the end of the transaction, and one that stays. *)
Definition goner (del : bool) (x : stateObject.t) : bool := stateObject.suicided x || del && objEmpty x.
Definition finished (x : stateObject.t) : stateObject.t :=
  stateObject.set_dirtyStorage (stateObject.set_pendingStorage x (stateObject.dirtyStorage x ∪ stateObject.pendingStorage x)) ∅.
Definition final (del : bool) (x : stateObject.t) : stateObject.t := if goner del x then stateObject.set_deleted x true else finished x.

(** The objects of the addresses in [l] are finalised, the others are as before. *)
Record finalised (del : bool) (l : gset bytes) s t : Prop := {
  fi_ctx : ctx t = ctx s;
  fi_live : StateDB.stateObjects t = StateDB.stateObjects s;
  fi_in : forall a p, a ∈ l -> StateDB.stateObjects s !! a = Some p -> StateDB.objects t !! p = final del <$> StateDB.objects s !! p;
  fi_out : forall a p, a ∉ l -> StateDB.stateObjects s !! a = Some p -> StateDB.objects t !! p = StateDB.objects s !! p;
  fi_flag : forall a, (a ∉ l \/ a ∉ dom (StateDB.stateObjects s) \/ exists x, view s a = Some x /\ goner del x = false) -> flag t a = flag s a
}.

Lemma finaliseOne_run del a p x s : StateDB.stateObjects s !! a = Some p -> StateDB.objects s !! p = Some x ->
  exists t, finaliseOne del a s = Ret (tt, t) /\ ctx t = ctx s /\ StateDB.stateObjects t = StateDB.stateObjects s /\
  StateDB.objects t = alter (final del) p (StateDB.objects s) /\
  StateDB.snapDestructs t = if goner del x && bool_decide (is_Some (StateDB.snap s)) then {[stateObject.addrHash x]} ∪ StateDB.snapDestructs s else StateDB.snapDestructs s.
Proof.
  intros Ha Hx. unfold finaliseOne, mbind, ST_bind, gets. cbn [obind]. rewrite Ha, (deref_run _ _ _ Hx). cbn [obind]. fold (goner del x).
  assert (forall g, g x = final del x -> alter g p (StateDB.objects s) = alter (final del) p (StateDB.objects s)) as Hal.
  { intros g Hg. apply list_eq. intros i. destruct (decide (p = i)) as [<-|Hne].
    - rewrite !list_lookup_alter_eq, Hx. cbn. by rewrite Hg.
    - by rewrite !list_lookup_alter_ne. }
  destruct (goner del x) eqn:Eg; cbn.
  - unfold markDeleted, mbind, ST_bind, update, modify. cbn [obind].
    rewrite (deref_run _ p (stateObject.set_deleted x true)) by (cbn; by rewrite list_lookup_alter_eq, Hx). cbn.
    rewrite (Hal (fun x : stateObject.t => stateObject.set_deleted x true)) by (unfold final; by rewrite Eg). case_bool_decide; by eexists.
  - eexists. split; [reflexivity|]. split_and!; try done. apply (Hal finished). unfold final. by rewrite Eg.
Qed.

Lemma flag_marked s t x a b : StateDB.snapDestructs t = StateDB.snapDestructs s \/ StateDB.snapDestructs t = {[stateObject.addrHash x]} ∪ StateDB.snapDestructs s ->
  stateObject.addrHash x = Keccak256Hash a -> b <> a -> flag t b = flag s b.
Proof.
  intros Hd Hh Hb. unfold flag. apply bool_decide_ext. destruct Hd as [->| ->]; [done|]. rewrite elem_of_union, elem_of_singleton, Hh.
  split; [|tauto]. intros [H|]; [by apply addrHash_inj in H|done].
Qed.

Lemma finalised_live del l a p s t : sane s -> a ∉ l -> finalised del l s t -> sane t -> StateDB.stateObjects t !! a = Some p ->
  exists u, finaliseOne del a t = Ret (tt, u) /\ finalised del ({[a]} ∪ l) s u.
Proof.
  intros Hs Hn [F1 F2 F3 F4 F5] Ht Ea.
  destruct (sa_live _ Ht a p Ea) as (x & Hp & Had). destruct (finaliseOne_run del a p x t Ea Hp) as (u & Hx & G1 & G2 & G3 & G4).
  exists u. split; [done|]. pose proof Ea as Ea'. rewrite F2 in Ea'. pose proof (F4 a p Hn Ea') as Hsame. rewrite Hp in Hsame.
  pose proof (ok_hash _ (Forall_lookup_1 _ _ _ _ (sa_objects _ Ht) Hp)) as Hh. rewrite Had in Hh.
  assert (forall b q, b <> a -> StateDB.stateObjects s !! b = Some q -> q <> p) as Hqp.
  { intros b q Hb Hq ->. destruct (sa_live _ Hs b p Hq) as (y & Hy & <-), (sa_live _ Hs a p Ea') as (z & Hz & <-). congruence. }
  split; [congruence|congruence|..].
  - intros b q Hb Hq. rewrite G3. destruct (decide (b = a)) as [->|Hba].
    + rewrite Ea' in Hq. injection Hq as <-. rewrite list_lookup_alter_eq, Hp, <- Hsame. done.
    + rewrite list_lookup_alter_ne by (intros ->; by eapply Hqp). apply (F3 b); [set_solver|done].
  - intros b q Hb Hq. apply not_elem_of_union in Hb as [Hb1 Hb2]. rewrite G3, list_lookup_alter_ne; [by apply (F4 b)|].
    intros ->. eapply Hqp; [|exact Hq|done]. set_solver.
  - intros b Hb. destruct (decide (b = a)) as [->|Hba].
    + destruct Hb as [Hb|[Hb|(y & Hb & Hgo)]]; [set_solver|by apply not_elem_of_dom in Hb; congruence|].
      rewrite (view_live _ _ _ Ea'), <- Hsame in Hb. injection Hb as <-. rewrite <- (F5 a) by (by left). unfold flag. by rewrite G4, Hgo.
    + transitivity (flag t b); [|apply F5; destruct Hb as [Hb|Hb]; [left; set_solver|by right]].
      eapply (flag_marked t u x a b); [|done|done]. rewrite G4. destruct (_ && _); auto.
Qed.

Lemma finalised_step del l a s t : sane s -> a ∉ l -> finalised del l s t -> sane t ->
  exists u, finaliseOne del a t = Ret (tt, u) /\ finalised del ({[a]} ∪ l) s u.
Proof.
  intros Hs Hn F Ht. destruct (StateDB.stateObjects t !! a) as [p|] eqn:Ea; [by eapply finalised_live|].
  exists t. split; [unfold finaliseOne, mbind, ST_bind, gets; cbn; by rewrite Ea|]. destruct F as [F1 F2 F3 F4 F5]. rewrite F2 in Ea. split; try done.
  - intros b q Hb Hq. apply (F3 b); [|done]. assert (b <> a) by congruence. set_solver.
  - intros b q Hb Hq. apply (F4 b); [set_solver|done].
  - intros b Hb. apply F5. destruct (decide (b = a)) as [->|]; [by left|]. destruct Hb as [Hb|Hb]; [left; set_solver|by right].
Qed.

Lemma finalise_each del s l : sane s -> forall pre t, NoDup l -> (forall a, a ∈ l -> a ∉ pre) -> sane t -> finalised del pre s t ->
  exists u, each (finaliseOne del) l t = Ret (tt, u) /\ finalised del (list_to_set l ∪ pre) s u /\ sane u.
Proof.
  intros Hs. induction l as [|a l IH]; intros pre t Hd Hpre Ht F; cbn [each list_to_set].
  { exists t. by rewrite union_empty_l_L. }
  apply NoDup_cons in Hd as [Ha Hd]. destruct (finalised_step del pre a s t Hs (Hpre a ltac:(by left)) F Ht) as (t1 & E1 & F1).
  destruct (safely_finaliseOne del a _ _ _ Ht E1) as (Ht1 & _ & _). destruct (IH ({[a]} ∪ pre) t1 Hd) as (u & Eu & Fu & Su); [|done|done|].
  { intros b Hb. pose proof (Hpre b ltac:(by right)). assert (b <> a) by congruence. set_solver. }
  exists u. unfold mbind, ST_bind. rewrite E1. cbn. rewrite Eu. split_and!; [done| |done]. by rewrite (union_comm_L {[a]}), <- union_assoc_L.
Qed.

Lemma Finalise_run del s : sane s -> exists t, Finalise del s = Ret (tt, t) /\ finalised del (dom (journal.dirties (StateDB.journal s))) s t /\ settled t.
Proof.
  intros Hs. destruct (finalise_each del s (elements (dom (journal.dirties (StateDB.journal s)))) Hs ∅ s) as (u & Eu & Fu & Su).
  { apply NoDup_elements. } { set_solver. } { done. } { by split; set_solver. }
  destruct (clear_run u) as (t & Et & T1 & T2 & T3 & T4 & _ & T5). exists t. split; [|split].
  - unfold Finalise, mbind, ST_bind, gets. cbn [obind]. rewrite Eu. exact Et.
  - rewrite list_to_set_elements_L, union_empty_r_L in Fu. destruct Fu as [F1 F2 F3 F4 F5]. unfold touched in T1. injection T1 as T11 T12 _ _ _ _.
    split; rewrite ?T11, ?T12; try done; [|unfold flag in *; by rewrite T5]. rewrite <- F1. unfold ctx, still in *. congruence.
  - split_and!; [|done|done]. by eapply sane_touched.
Qed.

(** *** What [Finalise] changes *)

(** A live object that the journal has marked. *)
Definition over s a : Prop := a ∈ dom (journal.dirties (StateDB.journal s)) /\ a ∈ dom (StateDB.stateObjects s).

(** The getters of an account return the same, [GetCommittedState] apart. *)
Definition same_but_committed b s t : Prop :=
  result (Exist b) t = result (Exist b) s /\ result (Empty b) t = result (Empty b) s /\ result (GetBalance b) t = result (GetBalance b) s /\
  result (GetNonce b) t = result (GetNonce b) s /\ result (GetCodeHash b) t = result (GetCodeHash b) s /\ result (HasSuicided b) t = result (HasSuicided b) s /\
  result (GetCode b) t = result (GetCode b) s /\ result (GetCodeSize b) t = result (GetCodeSize b) s /\
  forall k, result (GetState b k) t = result (GetState b k) s.

Lemma finished_state db snap d (x : stateObject.t) k : stateObject.fakeStorage x = None ->
  stateView db snap d (finished x) k = stateView db snap d x k /\ committedView db snap d (finished x) k = stateView db snap d x k.
Proof.
  intros Hf. unfold stateView, committedView, finished, freshSlot, trieSlot, openView. cbn. rewrite Hf, lookup_empty, lookup_union.
  by destruct (stateObject.dirtyStorage x !! k), (stateObject.pendingStorage x !! k).
Qed.

Lemma proper_ctx s t : ctx t = ctx s -> proper s -> proper t.
Proof. intros Hc Hp a data h. rewrite (loadAccount_ctx t s a Hc). apply Hp. Qed.

(** What the getters return, as views. *)
Lemma getters_results a k s : ok s ->
  result (Exist a) s = vExist a s /\ result (Empty a) s = vEmpty a s /\ result (GetBalance a) s = vBalance a s /\ result (GetNonce a) s = vNonce a s /\
  result (GetCodeHash a) s = vCodeHash a s /\ result (HasSuicided a) s = vSuicided a s /\ result (GetCode a) s = vCode a s /\
  result (GetCodeSize a) s = vCodeSize a s /\ result (GetState a k) s = vState a k s /\ result (GetCommittedState a k) s = vCommitted a k s.
Proof.
  intros Hw. destruct (getters_observe a k) as (G1 & G2 & G3 & G4 & G5 & G6 & G7 & G8 & G9 & G10).
  split_and!; by apply observes_result.
Qed.

Lemma seen_finalised {A} (d : A) V a s t : ctx t = ctx s -> flag t a = flag s a -> view t a = view s a -> seen d V a t = seen d V a s.
Proof. unfold seen, ctx. intros Hc -> ->. by injection Hc as -> _ ->. Qed.

(** An account that is not over, one that goes, and one that stays. *)
Lemma finalised_account a s t : ok s -> ok t -> ctx t = ctx s -> flag t a = flag s a -> view t a = view s a -> same_account a s t.
Proof.
  intros Hs Ht Hc Hf Hv.
  assert (forall k, vExist a t = vExist a s /\ vEmpty a t = vEmpty a s /\ vBalance a t = vBalance a s /\ vNonce a t = vNonce a s /\ vCodeHash a t = vCodeHash a s /\
    vSuicided a t = vSuicided a s /\ vCode a t = vCode a s /\ vCodeSize a t = vCodeSize a s /\ vState a k t = vState a k s /\ vCommitted a k t = vCommitted a k s) as H.
  { intros k. split_and!; by apply seen_finalised. }
  unfold same_account. destruct (getters_results a zeroHash s Hs) as (-> & -> & -> & -> & -> & -> & -> & -> & _),
    (getters_results a zeroHash t Ht) as (-> & -> & -> & -> & -> & -> & -> & -> & _), (H zeroHash) as (-> & -> & -> & -> & -> & -> & -> & -> & _).
  split_and!; try done. intros k. destruct (getters_results a k s Hs) as (_ & _ & _ & _ & _ & _ & _ & _ & -> & ->),
    (getters_results a k t Ht) as (_ & _ & _ & _ & _ & _ & _ & _ & -> & ->), (H k) as (_ & _ & _ & _ & _ & _ & _ & _ & -> & ->). done.
Qed.

Lemma finished_account a x s t : ok s -> ok t -> ctx t = ctx s -> flag t a = flag s a -> view s a = Some x -> stateObject.fakeStorage x = None ->
  view t a = Some (finished x) -> same_but_committed a s t /\ forall k, result (GetCommittedState a k) t = result (GetState a k) s.
Proof.
  intros Hs Ht Hc Hf Hv Hx Hv'. unfold ctx in Hc. injection Hc as Hdb _ Hsnap.
  assert (forall k, vState a k t = vState a k s /\ vCommitted a k t = vState a k s) as Hst.
  { intros k. unfold vState, vCommitted, seen. rewrite Hv, Hv', Hdb, Hsnap, Hf. cbn. destruct (finished_state (StateDB.db s) (StateDB.snap s) (flag s a) x k Hx) as [-> ->]. done. }
  split.
  - unfold same_but_committed. destruct (getters_results a zeroHash s Hs) as (-> & -> & -> & -> & -> & -> & -> & -> & _),
      (getters_results a zeroHash t Ht) as (-> & -> & -> & -> & -> & -> & -> & -> & _). split_and!;
      try (unfold vExist, vEmpty, vBalance, vNonce, vCodeHash, vSuicided, vCode, vCodeSize, seen, codeView; by rewrite Hv, Hv', ?Hdb).
    intros k. destruct (getters_results a k s Hs) as (_ & _ & _ & _ & _ & _ & _ & _ & -> & _), (getters_results a k t Ht) as (_ & _ & _ & _ & _ & _ & _ & _ & -> & _). apply Hst.
  - intros k. destruct (getters_results a k s Hs) as (_ & _ & _ & _ & _ & _ & _ & _ & -> & _), (getters_results a k t Ht) as (_ & _ & _ & _ & _ & _ & _ & _ & _ & ->). apply Hst.
Qed.

(** An account goes when it has committed suicide, or is empty and empty accounts go. *)
Definition goes_away (del : bool) s a : Prop :=
  result (HasSuicided a) s = Some true \/ del = true /\ result (Empty a) s = Some true.

Lemma goner_goes del s a x : ok s -> view s a = Some x -> stateObject.deleted x = false -> goner del x = true <-> goes_away del s a.
Proof.
  intros Hs Hv Hd. unfold goes_away. destruct (getters_results a zeroHash s Hs) as (_ & -> & _ & _ & _ & -> & _).
  unfold vEmpty, vSuicided, seen, goner. rewrite Hv, Hd. destruct (stateObject.suicided x), del, (objEmpty x); cbn; naive_solver.
Qed.

Lemma over_view del a s t : ok s -> finalised del (dom (journal.dirties (StateDB.journal s))) s t -> over s a ->
  exists x, view s a = Some x /\ obj_ok x /\ view t a = Some (final del x).
Proof.
  intros Hs F [Hd Hl]. apply elem_of_dom in Hl as [p Hp]. destruct (wf_live _ _ Hs a p Hp) as (x & Hx & _). exists x.
  rewrite (view_live s a p Hp), (view_live t a p), (fi_in _ _ _ _ F a p Hd Hp), Hx by (by rewrite (fi_live _ _ _ _ F)).
  split_and!; [done|by eapply obj_ok_at|done].
Qed.

(** C24: the end of a transaction.  [Finalise] does not panic.  Of the live accounts
    that the journal marks, those that committed suicide, and the empty ones when
    empty ones are to go, are gone afterwards; the others keep what the getters
    return, and what [GetState] returned is now committed.  All other accounts are
    as before, and there is no revision to go back to. *)
Theorem Finalise_exact del s : reach s -> exists t, Finalise del s = Ret (tt, t) /\ StateDB.validRevisions t = [] /\
  (forall a, ~ over s a -> same_account a s t) /\
  (forall a, over s a -> result (Exist a) s = Some true -> goes_away del s a -> result (Exist a) t = Some false) /\
  (forall a, over s a -> result (Exist a) s = Some true -> ~ goes_away del s a ->
     same_but_committed a s t /\ forall k, result (GetCommittedState a k) t = result (GetState a k) s) /\
  (forall a, over s a -> result (Exist a) s = Some false -> result (Exist a) t = Some false).
Proof.
  intros HR. destruct (reach_ok s HR) as [Hs _]. destruct (Finalise_run del s (wf_sane _ _ Hs)) as (t & Et & F & St). exists t.
  destruct (settled_ok t St (proper_ctx _ _ (fi_ctx _ _ _ _ F) (wf_proper _ _ Hs))) as [Ht _]. split_and!; [done|apply St|..].
  - intros a Hn. apply finalised_account; [done|done|apply F|..].
    + apply F. destruct (decide (a ∈ dom (journal.dirties (StateDB.journal s)))); [|by left]. right; left. by intros ?; apply Hn.
    + unfold view. rewrite (fi_live _ _ _ _ F). destruct (StateDB.stateObjects s !! a) as [p|] eqn:Ep; [|by rewrite (loadAccount_ctx t s a (fi_ctx _ _ _ _ F))].
      apply (fi_out _ _ _ _ F a p); [|done]. intros Ha. apply Hn. split; [done|]. by eapply elem_of_dom_2.
  - intros a Ho Hx Hg. destruct (over_view del a s t Hs F Ho) as (x & Hv & Hok & Hv'). revert Hx.
    destruct (getters_results a zeroHash s Hs) as (-> & _), (getters_results a zeroHash t Ht) as (-> & _). unfold vExist, seen. rewrite Hv, Hv'.
    destruct (stateObject.deleted x) eqn:Ed; [done|]. intros _. unfold final. by rewrite (proj2 (goner_goes del s a x Hs Hv Ed) Hg).
  - intros a Ho Hx Hg. destruct (over_view del a s t Hs F Ho) as (x & Hv & Hok & Hv'). revert Hx. destruct (getters_results a zeroHash s Hs) as (-> & _).
    unfold vExist, seen. rewrite Hv. destruct (stateObject.deleted x) eqn:Ed; [done|]. intros _.
    assert (goner del x = false) as Hng by (apply not_true_iff_false; by rewrite (goner_goes del s a x Hs Hv Ed)).
    unfold final in Hv'. rewrite Hng in Hv'. apply (finished_account a x); try done; [apply F|apply F; eauto|apply Hok].
  - intros a Ho. destruct (over_view del a s t Hs F Ho) as (x & Hv & Hok & Hv'). destruct (getters_results a zeroHash s Hs) as (-> & _), (getters_results a zeroHash t Ht) as (-> & _).
    unfold vExist, seen. rewrite Hv, Hv'. destruct (stateObject.deleted x) eqn:Ed; [|done]. intros _. unfold final. destruct (goner del x); cbn; by rewrite ?Ed.
Qed.
(** *** An overwritten account *)

(** [CreateAccount] over an account does not mark it. *)
Lemma CreateAccount_unmarked s a x : ok s -> view s a = Some x -> exists t, CreateAccount a s = Ret (tt, t) /\
  journal.dirties (StateDB.journal t) = journal.dirties (StateDB.journal s).
Proof.
  intros Hw Hv. unfold CreateAccount, mbind, ST_bind. destruct (createObject_spec s a Hw) as (r & s1 & -> & (q & s0 & Hl & Hr)). cbn [obind].
  pose proof (lo_tail _ _ _ _ _ Hl) as Ht. unfold tail in Ht. injection Ht as Ht _ _. destruct q as [q|].
  - destruct Hr as (o & Ho & _ & -> & ->). cbn [snd]. destruct (stateObject.deleted o).
    + eexists. split; [reflexivity|]. cbn. by rewrite Ht.
    + rewrite (deref_run _ q o) by (by apply lookup_app_l_Some). eexists. split; [reflexivity|]. cbn. by rewrite Ht.
  - by rewrite (lo_none _ _ _ _ _ Hl eq_refl) in Hv.
Qed.

(** An overwritten account is not written.  [resetObjectChange] marks no account:
    when [CreateAccount] replaces an account and nothing else touches it, the
    getters see the new account but the root is that of the trie with the old one. *)
Theorem lone_reset_lost del s a : reach s -> result (Exist a) s = Some true ->
  journal.dirties (StateDB.journal s) = ∅ -> StateDB.stateObjectsPending s = ∅ ->
  exists t u, CreateAccount a s = Ret (tt, t) /\ result (GetNonce a) t = Some 0 /\ result (GetCode a) t = Some None /\
    IntermediateRoot del t = Ret (TrieHash (StateDB.trie s), u).
Proof.
  intros HR Hx Hd Hp. destruct (reach_ok s HR) as [Hw Hr]. rewrite (proj1 (getters_results a zeroHash s Hw)) in Hx.
  destruct (vExist_present _ _ Hx) as (x & Hv & _). destruct (CreateAccount_unmarked s a x Hw Hv) as (t & Et & Htd). exists t.
  pose proof (wp_run _ _ _ _ _ (CreateAccount_spec s a Hw) Et) as (G & [Es _ _] & _).
  destruct (promise_kept (OCreateAccount a) a s t eq_refl Hw Et (goes_ok _ _ G)) as [_ (_ & Hn & Hc & _)].
  unfold still in Es. injection Es as _ Etr _ _ _ _ Epe _ _ _.
  destruct (clear_run t) as (t1 & Ec & T1 & _ & _ & T2 & _). unfold touched in T1. injection T1 as _ _ _ T14 _ _. unfold still in T2. injection T2 as _ T22 _ _ _ _ _ _ _ _.
  eexists. split_and!; [done|done|done|]. unfold IntermediateRoot, Finalise, mbind, ST_bind, gets at 1 2. cbn [obind].
  rewrite Htd, Hd, dom_empty_L, elements_empty. cbn [each mret obind]. unfold mret, ST_ret. cbn [obind]. rewrite Ec. cbn [obind]. rewrite T14, Epe, Hp, elements_empty.
  cbn. unfold gets. cbn. by rewrite T22, Etr.
Qed.
End Safety.

(** ** A concrete database

    Tries are maps, Keccak is the identity and values are packed as bytes; the
    database holds the tries by root and the codes by hash. *)
Module StateDemo.
Fixpoint pos_bits (p : positive) : list bool :=
  match p with xH => [] | xO p => false :: pos_bits p | xI p => true :: pos_bits p end.

Fixpoint bits_pos (l : list bool) : positive :=
  match l with [] => xH | false :: l => xO (bits_pos l) | true :: l => xI (bits_pos l) end.

(** Seven bits to a byte, the eighth says that the byte is full; the bits that
    are left get a byte each. *)
Fixpoint chunk (l : list bool) : bytes :=
  match l with
  | b0 :: b1 :: b2 :: b3 :: b4 :: b5 :: b6 :: l' => Byte.of_bits (b0, (b1, (b2, (b3, (b4, (b5, (b6, true))))))) :: chunk l'
  | _ => Byte.x00 :: map (fun b : bool => if b then Byte.x01 else Byte.x00) l
  end.

Fixpoint unchunk (l : bytes) : list bool :=
  match l with
  | [] => []
  | b :: l' =>
      let '(b0, (b1, (b2, (b3, (b4, (b5, (b6, full))))))) := Byte.to_bits b in
      if full then b0 :: b1 :: b2 :: b3 :: b4 :: b5 :: b6 :: unchunk l'
      else map (fun b => bool_decide (b = Byte.x01)) l'
  end.

Definition pack `{Countable A} (x : A) : bytes := chunk (pos_bits (encode x)).
Definition unpack `{Countable A} (b : bytes) : option A := decode (bits_pos (unchunk b)).

Lemma bits_pos_bits p : bits_pos (pos_bits p) = p.
Proof. by induction p as [p IH|p IH|]; cbn; rewrite ?IH. Qed.

Lemma unchunk_chunk l : unchunk (chunk l) = l.
Proof.
  revert l. assert (forall n l, (length l <= n)%nat -> unchunk (chunk l) = l) as H; [|intros l; by eapply H].
  assert (forall l, map (fun b => bool_decide (b = Byte.x01)) (map (fun b : bool => if b then Byte.x01 else Byte.x00) l) = l) as Hm.
  { induction l as [|[] l IH]; cbn; by rewrite ?IH. }
  induction n as [|n IH]; intros l Hl; [by destruct l; cbn in *; [|lia]|].
  destruct l as [|b0 [|b1 [|b2 [|b3 [|b4 [|b5 [|b6 l]]]]]]]; try by destruct_and?; cbn -[map]; rewrite Hm.
  cbn [chunk unchunk]. rewrite Byte.to_bits_of_bits, IH; [done|]. cbn in Hl. lia.
Qed.

Lemma unpack_pack `{Countable A} (x : A) : unpack (pack x) = Some x.
Proof. unfold unpack, pack. by rewrite unchunk_chunk, bits_pos_bits, decode_encode. Qed.

Definition packAccount (d : Account.t) : bytes :=
  pack (Account.Nonce d, Account.Balance d, Account.Root d, Account.CodeHash d).

Definition unpackAccount (b : bytes) : Account.t + string :=
  match unpack b with Some (n, z, r, c) => inl (Account.mk n z r c) | None => inr "not an account"%string end.

Definition rootOf (t : gmap bytes bytes) : bytes := if bool_decide (t = ∅) then emptyRoot else pack t.

Definition openRoot (db : gmap bytes (gmap bytes bytes) * gmap bytes bytes) (root : bytes) : gmap bytes bytes + string :=
  if bool_decide (root = zeroHash \/ root = emptyRoot) then inl ∅
  else match db.1 !! root with Some t => inl t | None => inr "missing trie node"%string end.

#[global] Instance demoLib : StateLib := {|
  Keccak256Hash b := b;
  BytesToHash b := b;
  rlpSplit b := (b, None);
  encodeSlot b := b;
  encodeAccount d := inl (packAccount d);
  decodeAccount := unpackAccount;
  encodeSlim d := pack (SnapAccount.Nonce d, SnapAccount.Balance d, SnapAccount.Root d, SnapAccount.CodeHash d);
  Trie := gmap bytes bytes;
  TryGet t k := inl (default [] (t !! k));
  TryUpdate t k v := (<[k := v]> t, None);
  TryDelete t k := (delete k t, None);
  TrieHash := rootOf;
  Database := gmap bytes (gmap bytes bytes) * gmap bytes bytes;
  OpenTrie := openRoot;
  OpenStorageTrie db _ root := openRoot db root;
  ContractCode db _ h := (db.2 !! h, None);
  ContractCodeSize db _ h := (zlen (goBytes (db.2 !! h)), None);
  WriteCode db h c := (db.1, <[h := c]> db.2);
  TrieCommit db t := ((<[rootOf t := t]> db.1, db.2), inl (rootOf t));
  SnapLayer := Empty_set;
  SnapAccountOf l _ := match l with end;
  SnapStorageOf l _ _ := match l with end;
  SnapRoot l := match l with end;
  SnapTree := unit;
  SnapOf _ _ := None;
  SnapUpdate t _ _ _ _ _ := t
|}.

#[global] Instance demoLaws : StateLaws demoLib.
Proof. by split. Qed.

Definition noData : gmap bytes (gmap bytes bytes) * gmap bytes bytes := (∅, ∅).

Lemma demo_proper (s : StateDB.t (L := demoLib)) : proper s.
Proof. by intros a data h. Qed.

(** The state that a computation leads to. *)
Definition after {A} (m : M A) (s : StateDB.t) : StateDB.t := match m s with Ret (_, s') => s' | Panic _ => s end.
Definition returns {A} (m : M A) (s : StateDB.t) : bool := match m s with Ret _ => true | Panic _ => false end.

Lemma after_run (m : M unit) s : returns m s = true -> m s = Ret (tt, after m s).
Proof. unfold returns, after. by destruct (m s) as [[[] s']|]. Qed.

Definition alice : bytes := replicate 20 Byte.x01.
Definition bob : bytes := replicate 20 Byte.x02.
Definition slot : bytes := replicate 32 Byte.x07.
Definition word : bytes := replicate 32 Byte.x09.

Definition genesis : StateDB.t :=
  StateDB.mk demoLib noData ∅ None None ∅ ∅ ∅ [] ∅ ∅ ∅ None 0 zeroHash zeroHash 0 ∅ 0 ∅ journal.newJournal [] 0.

Lemma genesis_reach : reach genesis.
Proof. apply (reach_new (L := demoLib) zeroHash noData None); [done|apply demo_proper]. Qed.

(** A transaction that funds [alice] and stores a word, up to a snapshot. *)
Definition opening : list op := [OAddBalance alice 100; OSetNonce alice 1; OSetState alice slot word].

Lemma run_reachable l s : reach s -> returns (run l) s = true -> reach (after (run l) s).
Proof.
  revert s. induction l as [|o l IH]; intros s Hs Hr; [done|]. unfold returns, after in *. cbn [run] in *. unfold mbind, ST_bind in *.
  destruct (exec o s) as [[[] s1]|] eqn:E1; [|done]. cbn [obind] in *. specialize (IH s1 (reach_exec s o s1 Hs E1 (demo_proper _))).
  destruct (run l s1) as [[[] s2]|]; [by apply IH|done].
Qed.

(** After it: everything is overwritten, with a nested snapshot that is reverted. *)
Definition overwritten : list op :=
  [OSubBalance alice 40; OAddBalance bob 40; OSetState alice slot zeroHash; OSnapshot; OCreateAccount alice; OSetCode bob (Some word);
   OAddLog (Log.mk alice [] [] 0 [] 0 [] 0 false); ORevert 1; OAddRefund 7; OSuicide alice].

Definition opened : StateDB.t := after (run opening) genesis.

Lemma opened_reach : reach opened.
Proof. apply run_reachable; [apply genesis_reach|by vm_compute]. Qed.

Lemma overwritten_runs : returns (run overwritten) (snapped opened) = true.
Proof. by vm_compute. Qed.

(** After the transaction has been written to the trie. *)
Definition written : StateDB.t := after (exec (OIntermediateRoot true)) opened.

Lemma written_runs : returns (exec (OIntermediateRoot true)) opened = true.
Proof. by vm_compute. Qed.

Lemma written_reach : reach written.
Proof. exact (reach_exec opened (OIntermediateRoot true) written opened_reach (after_run _ _ written_runs) (demo_proper _)). Qed.

Lemma written_nonce : result (GetNonce alice) written = Some 1.
Proof. by vm_compute. Qed.

Lemma written_exists : result (Exist alice) written = Some true.
Proof. by vm_compute. Qed.

Lemma written_unmarked : journal.dirties (StateDB.journal written) = ∅.
Proof. by vm_compute. Qed.

Lemma written_done : StateDB.stateObjectsPending written = ∅.
Proof. by vm_compute. Qed.
End StateDemo.

Lemma revert_restores_witness : reach StateDemo.opened /\
  exists s3, RevertToSnapshot 0 (StateDemo.after (run StateDemo.overwritten) (snapped StateDemo.opened)) = Ret (tt, s3) /\
    same_reads StateDemo.opened s3 /\ StateDB.validRevisions s3 = StateDB.validRevisions StateDemo.opened.
Proof.
  split; [exact StateDemo.opened_reach|].
  exact (revert_restores StateDemo.opened 0 (snapped StateDemo.opened) StateDemo.overwritten _ StateDemo.opened_reach
    (Snapshot_run StateDemo.opened) eq_refl (StateDemo.after_run _ _ StateDemo.overwritten_runs)).
Defined.


Lemma Finalise_exact_witness : exists t, Finalise true StateDemo.opened = Ret (tt, t) /\ result (GetCommittedState StateDemo.alice StateDemo.slot) t = Some StateDemo.word.
Proof.
  destruct (Finalise_exact true StateDemo.opened StateDemo.opened_reach) as (t & Ht & _ & _ & _ & H & _). exists t. split; [exact Ht|].
  destruct (H StateDemo.alice) as [_ Hk].
  - split; vm_compute; reflexivity.
  - by vm_compute.
  - intros [H1|[_ H1]]; vm_compute in H1; discriminate H1.
  - rewrite (Hk StateDemo.slot). by vm_compute.
Defined.

Lemma lone_reset_lost_witness : result (GetNonce StateDemo.alice) StateDemo.written = Some 1 /\
  exists t u, CreateAccount StateDemo.alice StateDemo.written = Ret (tt, t) /\ result (GetNonce StateDemo.alice) t = Some 0 /\
    result (GetCode StateDemo.alice) t = Some None /\ IntermediateRoot true t = Ret (TrieHash (StateDB.trie StateDemo.written), u).
Proof.
  split; [exact StateDemo.written_nonce|].
  exact (lone_reset_lost true StateDemo.written StateDemo.alice StateDemo.written_reach StateDemo.written_exists StateDemo.written_unmarked StateDemo.written_done).
Defined.
