(* ===== verification/Bloom.v ===== *)
(** * Receipts and their Bloom filters

    [core/types]: the receipt of a transaction ([receipt.go]), what is read of a header
    ([block.go]), and the filter of 2048 bits that summarises the logs of receipts
    ([bloom9.go]). *)

From S2P Require Import Prelude GoStd StateDB.

(** [crypto.Keccak256] of go-ethereum. *)
Class CryptoLib := { Keccak256 : bytes -> bytes }.
Class CryptoLaws (C : CryptoLib) := { Keccak256_length : forall b, length (Keccak256 b) = 32%nat }.

(** A nil [PostState] and a zero [ContractAddress] are [None]. *)
Module Receipt.
Record t := mk {
  PostState : option bytes; Status : Z; CumulativeGasUsed : Z; Bloom : bytes; Logs : list Log.t; TxHash : bytes; ContractAddress : option bytes; GasUsed : Z;
  BlockHash : bytes; BlockNumber : Z; TransactionIndex : Z
}.
End Receipt.

(** The fields of a header that the machine, the processor and the filters read. *)
Module Header.
Record t := mk { ParentHash : bytes; Number : Z; GasLimit : Z; Time : Z; Difficulty : Z; Bloom : bytes }.
End Header.

Module types.
Section Bloom.
Context {C : CryptoLib}.

Abbreviation BloomByteLength := 256 (only parsing).

(** [SetBytes] copies to the end of the filter; what stands before it stays. *)
Definition SetBytes (b d : bytes) : outcome bytes :=
  if zlen b <? zlen d then Panic "bloom bytes too big" else Ret (take (Z.to_nat (BloomByteLength - zlen d)) b ++ d).

Definition BytesToBloom (d : bytes) : outcome bytes := SetBytes (replicate (Z.to_nat BloomByteLength) Byte.x00) d.

Definition Big (b : bytes) : Z := fromBytes b.

(** Three bits, at the first three pairs of bytes of the hash. *)
Definition bloom9 (b : bytes) : outcome Z :=
  let b := Keccak256 b in
  foldl (fun r i =>
    let! r := r in
    let! lo := slice_get b (i + 1) in
    let! hi := slice_get b i in
    Ret (Z.lor r (Z.shiftl 1 (Z.land (byte_Z lo + Z.shiftl (byte_Z hi) 8) 2047)))) (Ret 0) [0; 2; 4].

Definition Add (b : bytes) (d : Z) : outcome bytes :=
  let! x := bloom9 (bigBytes d) in
  SetBytes b (bigBytes (Z.lor (fromBytes b) x)).

Definition orEach (bin : Z) (l : list bytes) : outcome Z := foldl (fun bin b => let! bin := bin in let! x := bloom9 b in Ret (Z.lor bin x)) (Ret bin) l.

Definition LogsBloom (logs : list Log.t) : outcome Z :=
  foldl (fun bin log =>
    let! bin := bin in
    let! x := bloom9 (Log.Address log) in
    orEach (Z.lor bin x) (Log.Topics log)) (Ret 0) logs.

Definition CreateBloom (receipts : list Receipt.t) : outcome bytes :=
  let! bin := foldl (fun bin r => let! bin := bin in let! x := LogsBloom (Receipt.Logs r) in Ret (Z.lor bin x)) (Ret 0) receipts in
  BytesToBloom (bigBytes bin).

Definition BloomLookup (bin topic : bytes) : outcome bool :=
  let! cmp := bloom9 topic in
  Ret (Z.land (Big bin) cmp =? cmp).

Definition Test (b : bytes) (test : Z) : outcome bool := BloomLookup b (bigBytes test).
Definition TestBytes (b test : bytes) : outcome bool := Test b (fromBytes test).
End Bloom.
End types.

(** ** Sets of bits *)

Definition bits (a b : Z) : Prop := Z.land b a = a.

#[export] Instance bits_dec a b : Decision (bits a b) := decide (Z.land b a = a).

Lemma bits_refl a : bits a a.
Proof. apply Z.land_diag. Qed.

Lemma bits_lor_l a b c : bits a b -> bits a (Z.lor b c).
Proof. unfold bits. intros H. rewrite Z.land_lor_distr_l, H. apply Z.bits_inj'. intros n _. rewrite Z.lor_spec, Z.land_spec. by destruct (Z.testbit a n), (Z.testbit c n). Qed.

Lemma bits_lor_r a b c : bits a c -> bits a (Z.lor b c).
Proof. rewrite Z.lor_comm. apply bits_lor_l. Qed.

Lemma bits_le a b : 0 <= b -> bits a b -> a <= b.
Proof. intros Hb <-. assert (Z.land b a = b - Z.ldiff b a) as ->; [|pose proof (Z.ldiff_nonneg b a); lia]. rewrite <- (Z.lor_ldiff_and b a) at 2. rewrite <- Z.add_nocarry_lor; [lia|]. apply Z.bits_inj'. intros n _. rewrite Z.land_spec, Z.ldiff_spec, Z.land_spec, Z.bits_0. by destruct (Z.testbit a n), (Z.testbit b n). Qed.

Lemma lor_below a b n : 0 <= n -> 0 <= a < 2 ^ n -> 0 <= b < 2 ^ n -> 0 <= Z.lor a b < 2 ^ n.
Proof.
  intros Hn Ha Hb. assert (0 <= Z.lor a b) as H0 by (apply Z.lor_nonneg; lia). split; [done|]. destruct (Z.eq_dec (Z.lor a b) 0) as [->|]; [lia|].
  apply Z.log2_lt_pow2; [lia|]. rewrite Z.log2_lor by lia. destruct (Z.eq_dec n 0) as [->|]; [change (2 ^ 0) with 1 in *; assert (a = 0) as -> by lia; assert (b = 0) as -> by lia; done|].
  apply Z.max_lub_lt; [destruct (Z.eq_dec a 0) as [->|]|destruct (Z.eq_dec b 0) as [->|]]; [cbn; lia|apply Z.log2_lt_pow2; lia|cbn; lia|apply Z.log2_lt_pow2; lia].
Qed.

(** ** Facts on filters *)

Section Facts.
Context {C : CryptoLib} {HC : CryptoLaws C}.
Import types.
Implicit Types (b d x : bytes) (l : list bytes) (logs : list Log.t) (receipts : list Receipt.t).

Definition full (z : Z) : Prop := 0 <= z < 2 ^ 2048.

Lemma full_lor y z : full y -> full z -> full (Z.lor y z).
Proof. by apply lor_below. Qed.

Lemma bloom9_run b : exists z, bloom9 b = Ret z /\ full z.
Proof.
  unfold bloom9. pose proof (Keccak256_length b) as Hl. set (h := Keccak256 b) in *. assert (forall i, 0 <= i < 32 -> exists y : byte, slice_get h i = Ret y) as Hg.
  { intros i Hi. unfold slice_get. rewrite (proj2 (Z.ltb_ge _ _)) by lia. destruct (h !! Z.to_nat i) eqn:E; [by eexists|]. apply lookup_ge_None in E. lia. }
  assert (forall y z, full y -> full (Z.lor y (Z.shiftl 1 (Z.land z 2047)))) as Hf.
  { intros y z Hy. apply full_lor; [done|]. change 2047 with (Z.ones 11). rewrite Z.land_ones, Z.shiftl_1_l by lia. pose proof (Z.mod_pos_bound z (2 ^ 11) ltac:(lia)).
    split; [apply Z.pow_nonneg; lia|apply Z.pow_lt_mono_r; lia]. }
  cbn [foldl obind]. destruct (Hg 0 ltac:(lia)) as (x0 & E0), (Hg (0 + 1) ltac:(lia)) as (x1 & E1), (Hg 2 ltac:(lia)) as (x2 & E2), (Hg (2 + 1) ltac:(lia)) as (x3 & E3),
    (Hg 4 ltac:(lia)) as (x4 & E4), (Hg (4 + 1) ltac:(lia)) as (x5 & E5).
  rewrite E0, E1. cbn [obind]. rewrite E2, E3. cbn [obind]. rewrite E4, E5. cbn [obind]. eexists. split; [done|]. by repeat apply Hf.
Qed.

(** The bits of one item. *)
Definition sig b : Z := match bloom9 b with Ret z => z | Panic _ => 0 end.

Lemma bloom9_sig b : bloom9 b = Ret (sig b).
Proof. unfold sig. by destruct (bloom9_run b) as (z & -> & _). Qed.

Lemma sig_full b : full (sig b).
Proof. unfold sig. by destruct (bloom9_run b) as (z & -> & H). Qed.

(** The bits of some items, with those of [z]. *)
Definition union (z : Z) l : Z := foldl (fun z b => Z.lor z (sig b)) z l.

Lemma union_full z l : full z -> full (union z l).
Proof. revert z. induction l as [|b l IH]; intros z Hz; [done|]. apply IH, full_lor; [done|apply sig_full]. Qed.

Lemma union_lor y z l : union (Z.lor y z) l = Z.lor y (union z l).
Proof. revert z. induction l as [|b l IH]; intros z; [done|]. cbn. by rewrite <- Z.lor_assoc, IH. Qed.

Lemma union_bits z l : bits z (union z l).
Proof. rewrite <- (Z.lor_0_r z) at 2. rewrite union_lor. apply bits_lor_l, bits_refl. Qed.

Lemma union_has z l b : b ∈ l -> bits (sig b) (union z l).
Proof.
  intros (l1 & l2 & ->)%list_elem_of_split. unfold union. rewrite foldl_app. cbn [foldl]. fold (union z l1). fold (union (Z.lor (union z l1) (sig b)) l2). rewrite Z.lor_comm, union_lor.
  rewrite <- Z.lor_comm. unfold bits. apply bits_lor_r, bits_refl.
Qed.

Definition items (log : Log.t) : list bytes := Log.Address log :: Log.Topics log.

Lemma orEach_run z l : orEach z l = Ret (union z l).
Proof. revert z. unfold orEach, union. induction l as [|b l IH]; intros z; [done|]. cbn [foldl obind]. rewrite bloom9_sig. apply IH. Qed.

Lemma LogsBloom_run logs : LogsBloom logs = Ret (union 0 (logs ≫= items)).
Proof.
  unfold LogsBloom. generalize 0. induction logs as [|log logs IH]; intros z; [done|]. cbn [foldl obind]. rewrite bloom9_sig. cbn [obind]. rewrite orEach_run. cbn [mbind list_bind].
  rewrite IH. unfold union at 3. rewrite foldl_app. done.
Qed.

Lemma CreateBloom_run receipts : exists b, CreateBloom receipts = Ret b /\ zlen b = 256 /\ Big b = union 0 (receipts ≫= fun r => Receipt.Logs r ≫= items).
Proof.
  unfold CreateBloom. set (all := receipts ≫= _). assert (foldl (fun bin r => let! bin := bin in let! y := LogsBloom (Receipt.Logs r) in Ret (Z.lor bin y)) (Ret 0) receipts = Ret (union 0 all)) as ->.
  { unfold all. generalize 0. clear all. induction receipts as [|r receipts IH]; intros z; [done|]. cbn [foldl obind]. rewrite LogsBloom_run. cbn [obind]. rewrite IH. f_equal. cbn [mbind list_bind].
    unfold union at 3. rewrite foldl_app. f_equal. fold (union z (Receipt.Logs r ≫= items)). by rewrite <- union_lor, Z.lor_0_r. }
  cbn [obind]. unfold BytesToBloom, SetBytes. assert (full (union 0 all)) as Hf by (by apply union_full). unfold full in Hf.
  pose proof (bigBytes_length 256 (union 0 all) ltac:(exact Hf) ltac:(lia)) as Hl. unfold zlen in *. rewrite length_replicate, (proj2 (Z.ltb_ge _ _)) by lia. eexists. split; [done|].
  rewrite take_replicate, length_app, length_replicate. split; [lia|]. unfold Big. rewrite fromBytes_app, fromBytes_zeros, fromBytes_bigBytes by lia. lia.
Qed.

Lemma BloomLookup_run b x : BloomLookup b x = Ret (bool_decide (bits (sig x) (Big b))).
Proof. unfold BloomLookup. rewrite bloom9_sig. cbn [obind]. f_equal. unfold bits. by destruct (Z.eqb_spec (Z.land (Big b) (sig x)) (sig x)); [rewrite bool_decide_true|rewrite bool_decide_false]. Qed.

(** The filter of receipts is never too big for its 256 bytes and misses nothing: a
    lookup of the address or of a topic of any of their logs succeeds. *)
Theorem CreateBloom_complete receipts : exists b, CreateBloom receipts = Ret b /\ zlen b = 256 /\
  forall r log x, r ∈ receipts -> log ∈ Receipt.Logs r -> x ∈ items log -> BloomLookup b x = Ret true.
Proof.
  destruct (CreateBloom_run receipts) as (b & E & Hl & Hb). exists b. split; [done|]. split; [done|]. intros r log x Hr Hlog Hx. rewrite BloomLookup_run, Hb, bool_decide_true; [done|].
  apply union_has. apply list_elem_of_bind. exists r. split; [|done]. apply list_elem_of_bind. by exists log.
Qed.

(** [Add] works as it says: [Test] of the number that was added succeeds, and what was
    in the filter stays in it. *)
Theorem Add_Test b (d : Z) : zlen b = 256 -> exists b', Add b d = Ret b' /\ zlen b' = 256 /\ Test b' d = Ret true /\ forall x, BloomLookup b x = Ret true -> BloomLookup b' x = Ret true.
Proof.
  intros Hl. unfold Add, Test. rewrite bloom9_sig. cbn [obind]. set (s := sig (bigBytes d)). pose proof (fromBytes_range b) as Hr. rewrite Hl in Hr. change (256 ^ 256) with (2 ^ 2048) in Hr.
  pose proof (full_lor _ _ Hr (sig_full (bigBytes d))) as Hf. fold s in Hf. set (z := Z.lor (fromBytes b) s) in *. unfold full in Hf.
  pose proof (bigBytes_length 256 z Hf ltac:(lia)) as Hz. unfold SetBytes. rewrite (proj2 (Z.ltb_ge _ _)) by lia. eexists. split; [done|].
  set (k := Z.to_nat (256 - zlen (bigBytes z))). assert (Big (take k b ++ bigBytes z) = z) as Hbig.
  { unfold Big. rewrite fromBytes_app, fromBytes_bigBytes by lia. assert (fromBytes (take k b) = 0) as ->; [|lia]. pose proof (fromBytes_range (bigBytes z)) as H1. rewrite fromBytes_bigBytes in H1 by lia.
    assert (fromBytes b <= z) as H2 by (apply bits_le; [lia|apply bits_lor_l, bits_refl]). rewrite <- (take_drop k b), fromBytes_app in H2. pose proof (fromBytes_range (drop k b)). pose proof (fromBytes_range (take k b)).
    assert (zlen (drop k b) = zlen (bigBytes z)) as E by (unfold zlen in *; rewrite length_drop; lia). rewrite E in *. nia. }
  split; [unfold zlen in *; rewrite length_app, length_take; lia|]. rewrite !BloomLookup_run, Hbig. split; [by rewrite bool_decide_true by (apply bits_lor_r, bits_refl)|].
  intros x. rewrite !BloomLookup_run, Hbig. intros [= H%bool_decide_eq_true]. rewrite bool_decide_true; [done|]. by apply bits_lor_l.
Qed.
End Facts.
