(* ===== verification/Filter.v ===== *)
(** * The search for logs

    [eth/filters/filter.go]: the logs of a block or of a range of blocks that match
    addresses and topics.  Blocks are skipped by their Bloom filter, or by the index of
    the filters as far as it reaches. *)

From S2P Require Import Prelude GoStd StateDB Bloom.
Import types.

Module filters.
(** The node behind a filter.  [Session] is a session of the matcher of
    [core/bloombits] from one block to another: an error of its start, or the numbers it
    sends and the error, of the session or of the context, that ends it. *)
Record Backend := {
  HeaderHash : Header.t -> bytes;
  HeaderByNumber : Z -> option Header.t * option string;
  HeaderByHash : bytes -> option Header.t * option string;
  GetReceipts : bytes -> list Receipt.t + string;
  GetLogs : bytes -> list (list Log.t) + string;
  BloomStatus : Z * Z;
  Session : Z -> Z -> (list Z * option string) + string
}.

Record Filter := mkFilter { addresses : list bytes; topics : list (list bytes); block : bytes; begin : Z; end_ : Z }.

Definition set_begin (f : Filter) (n : Z) : Filter := mkFilter (addresses f) (topics f) (block f) n (end_ f).

Definition LatestBlockNumber : Z := -1.

Section Matching.
Context {C : CryptoLib}.

Definition includes (addresses : list bytes) (a : bytes) : bool := existsb (fun addr => bool_decide (addr = a)) addresses.

(** A clause of the topics against the [i]-th topic of a log. *)
Fixpoint anyTopic (logTopics : list bytes) (i : Z) (sub : list bytes) : outcome bool :=
  match sub with
  | [] => Ret false
  | topic :: sub =>
      let! t := slice_get logTopics i in
      if bool_decide (t = topic) then Ret true else anyTopic logTopics i sub
  end.

Fixpoint topicsMatch (logTopics : list bytes) (i : Z) (topics : list (list bytes)) : outcome bool :=
  match topics with
  | [] => Ret true
  | sub :: topics =>
      let! m := (if bool_decide (sub = []) then Ret true else anyTopic logTopics i sub) in
      if m : bool then topicsMatch logTopics (i + 1) topics else Ret false
  end.

Fixpoint filterLogs (logs : list Log.t) (fromBlock toBlock : option Z) (addresses : list bytes) (topics : list (list bytes)) : outcome (list Log.t) :=
  match logs with
  | [] => Ret []
  | log :: logs =>
      let! m :=
        (if match fromBlock with Some z => (0 <=? i64 z) && (Log.BlockNumber log <? u64 z) | None => false end then Ret false
         else if match toBlock with Some z => (0 <=? i64 z) && (u64 z <? Log.BlockNumber log) | None => false end then Ret false
         else if (0 <? zlen addresses) && negb (includes addresses (Log.Address log)) then Ret false
         else if zlen (Log.Topics log) <? zlen topics then Ret false
         else topicsMatch (Log.Topics log) 0 topics) in
      let! rest := filterLogs logs fromBlock toBlock addresses topics in
      Ret (if m : bool then log :: rest else rest)
  end.

Fixpoint anyLookup (bloom : bytes) (l : list bytes) : outcome bool :=
  match l with
  | [] => Ret false
  | x :: l => let! b := BloomLookup bloom x in if b : bool then Ret true else anyLookup bloom l
  end.

Fixpoint clausesLookup (bloom : bytes) (topics : list (list bytes)) : outcome bool :=
  match topics with
  | [] => Ret true
  | sub :: topics =>
      let! b := (if bool_decide (sub = []) then Ret true else anyLookup bloom sub) in
      if b : bool then clausesLookup bloom topics else Ret false
  end.

Definition bloomFilter (bloom : bytes) (addresses : list bytes) (topics : list (list bytes)) : outcome bool :=
  let! b := (if 0 <? zlen addresses then anyLookup bloom addresses else Ret true) in
  if b : bool then clausesLookup bloom topics else Ret false.
End Matching.

Section Search.
Context {C : CryptoLib} (backend : Backend).

Definition checkMatches (f : Filter) (header : Header.t) : outcome (list Log.t + string) :=
  match GetLogs backend (HeaderHash backend header) with
  | inr err => Ret (inr err)
  | inl logsList =>
      let! logs := filterLogs (concat logsList) None None (addresses f) (topics f) in
      match logs with
      | [] => Ret (inl [])
      | log :: _ =>
          if bool_decide (Log.TxHash log = zeroHash) then
            match GetReceipts backend (HeaderHash backend header) with
            | inr err => Ret (inr err)
            | inl receipts => let! logs := filterLogs (concat (Receipt.Logs <$> receipts)) None None (addresses f) (topics f) in Ret (inl logs)
            end
          else Ret (inl logs)
      end
  end.

Definition blockLogs (f : Filter) (header : Header.t) : outcome (list Log.t * option string) :=
  let! b := bloomFilter (Header.Bloom header) (addresses f) (topics f) in
  if b : bool then
    let! r := checkMatches f header in
    Ret (match r with inl found => (found, None) | inr err => ([], Some err) end)
  else Ret ([], None).

(** The rounds of [unindexedLogs] from block [begin f] on. *)
Fixpoint unindexedLoop (n : nat) (f : Filter) (logs : list Log.t) : outcome (list Log.t * option string * Filter) :=
  match n with
  | O => Ret (logs, None, f)
  | S n =>
      match HeaderByNumber backend (begin f) with
      | (Some header, None) =>
          let! (found, err) := blockLogs f header in
          match err with
          | Some _ => Ret (logs, err, f)
          | None => unindexedLoop n (set_begin f (i64 (begin f + 1))) (logs ++ found)
          end
      | (_, err) => Ret (logs, err, f)
      end
  end.

Definition unindexedLogs (f : Filter) (end_ : Z) : outcome (list Log.t * option string * Filter) := unindexedLoop (Z.to_nat (i64 end_ - begin f + 1)) f [].

(** The matches of a session, and how it ends. *)
Fixpoint indexedLoop (matches : list Z) (err : option string) (end_ : Z) (f : Filter) (logs : list Log.t) : outcome (list Log.t * option string * Filter) :=
  match matches with
  | [] => Ret (logs, err, if bool_decide (err = None) then set_begin f (i64 (i64 end_ + 1)) else f)
  | number :: matches =>
      let f := set_begin f (i64 (i64 number + 1)) in
      match HeaderByNumber backend (i64 number) with
      | (Some header, None) =>
          let! r := checkMatches f header in
          match r with
          | inr e => Ret (logs, Some e, f)
          | inl found => indexedLoop matches err end_ f (logs ++ found)
          end
      | (_, e) => Ret (logs, e, f)
      end
  end.

Definition indexedLogs (f : Filter) (end_ : Z) : outcome (list Log.t * option string * Filter) :=
  match Session backend (u64 (begin f)) end_ with
  | inr err => Ret ([], Some err, f)
  | inl (matches, err) => indexedLoop matches err end_ f []
  end.

Definition Logs (f : Filter) : outcome (list Log.t * option string * Filter) :=
  if bool_decide (block f <> zeroHash) then
    match HeaderByHash backend (block f) with
    | (_, Some err) => Ret ([], Some err, f)
    | (None, None) => Ret ([], Some "unknown block"%string, f)
    | (Some header, None) => let! r := blockLogs f header in Ret (r, f)
    end
  else
    match HeaderByNumber backend LatestBlockNumber with
    | (None, _) => Ret ([], None, f)
    | (Some header, _) =>
        let head := u64 (Header.Number header) in
        let f := if begin f =? -1 then set_begin f (i64 head) else f in
        let last := if end_ f =? -1 then head else u64 (end_ f) in
        let (size, sections) := BloomStatus backend in
        let indexed := u64 (sections * size) in
        let! (r, f) := (if u64 (begin f) <? indexed then indexedLogs f (if last <? indexed then last else u64 (indexed - 1)) else Ret ([], None, f)) in
        match r with
        | (logs, Some err) => Ret (logs, Some err, f)
        | (logs, None) => let! (rest, f) := unindexedLogs f last in Ret (logs ++ rest.1, rest.2, f)
        end
    end.
End Search.
End filters.

(** ** What is found *)

Section Facts.
Context {C : CryptoLib} {HC : CryptoLaws C}.
Import filters.
Implicit Types (log : Log.t) (bloom a : bytes) (addresses : list bytes) (topics : list (list bytes)).

(** A log that a filter asks for: an empty clause stands for any topic. *)
Definition clause (sub : list bytes) (topic : bytes) : Prop := sub = [] \/ topic ∈ sub.
Definition selected addresses topics log : Prop :=
  (addresses = [] \/ Log.Address log ∈ addresses) /\ Forall2 clause topics (take (length topics) (Log.Topics log)).

#[local] Instance clause_dec sub topic : Decision (clause sub topic).
Proof. unfold clause. apply _. Defined.
#[export] Instance selected_dec addresses topics log : Decision (selected addresses topics log).
Proof. unfold selected. apply _. Defined.

Lemma includes_spec addresses a : includes addresses a = bool_decide (a ∈ addresses).
Proof.
  unfold includes. induction addresses as [|b l IH]; [done|]. cbn. rewrite IH. destruct (bool_decide_reflect (b = a)) as [->|Hb]; cbn.
  - symmetry. apply bool_decide_true. by left.
  - apply bool_decide_ext. rewrite elem_of_cons. naive_solver.
Qed.

Lemma anyTopic_run lt i sub t : 0 <= i -> lt !! Z.to_nat i = Some t -> anyTopic lt i sub = Ret (bool_decide (t ∈ sub)).
Proof.
  intros Hi Ht. assert (slice_get lt i = Ret t) as Hg by (unfold slice_get; rewrite (proj2 (Z.ltb_ge _ _)), Ht by lia; done).
  induction sub as [|x sub IH]; [done|]. cbn [anyTopic]. rewrite Hg. cbn [obind]. destruct (bool_decide_reflect (t = x)) as [E|E].
  - f_equal. symmetry. apply bool_decide_true. rewrite E. by left.
  - rewrite IH. f_equal. apply bool_decide_ext. rewrite elem_of_cons. naive_solver.
Qed.

Lemma topicsMatch_run lt topics i : 0 <= i -> i + zlen topics <= zlen lt ->
  topicsMatch lt i topics = Ret (bool_decide (Forall2 clause topics (take (length topics) (drop (Z.to_nat i) lt)))).
Proof.
  unfold zlen. revert i. induction topics as [|sub topics IH]; intros i Hi Hl; [by rewrite bool_decide_true by constructor|]. cbn [length] in Hl.
  destruct (lt !! Z.to_nat i) as [t|] eqn:Et; [|apply lookup_ge_None in Et; lia]. cbn [topicsMatch length]. rewrite (drop_S _ _ _ Et). cbn [take].
  assert ((if bool_decide (sub = []) then Ret true else anyTopic lt i sub) = Ret (bool_decide (clause sub t))) as ->.
  { destruct (bool_decide_reflect (sub = [])) as [E|E]; [f_equal; symmetry; apply bool_decide_true; by left|]. rewrite (anyTopic_run lt i sub t Hi Et). f_equal. apply bool_decide_ext. unfold clause. naive_solver. }
  cbn [obind]. destruct (bool_decide_reflect (clause sub t)) as [E|E].
  - rewrite IH by lia. f_equal. apply bool_decide_ext. replace (Z.to_nat (i + 1)) with (S (Z.to_nat i)) by lia. rewrite Forall2_cons. naive_solver.
  - rewrite bool_decide_false; [done|]. by rewrite Forall2_cons; intros [? _].
Qed.

Lemma filterLogs_run logs addresses topics : filterLogs logs None None addresses topics = Ret (filter (selected addresses topics) logs).
Proof.
  induction logs as [|log logs IH]; [done|]. cbn [filterLogs]. rewrite IH. rewrite includes_spec, filter_cons.
  assert (forall m : bool, m = bool_decide (selected addresses topics log) ->
    (let! m := Ret m in let! rest := Ret (filter (selected addresses topics) logs) in Ret (if m : bool then log :: rest else rest)) =
    Ret (if decide (selected addresses topics log) then log :: filter (selected addresses topics) logs else filter (selected addresses topics) logs)) as Hend.
  { intros m ->. cbn. by destruct (decide (selected addresses topics log)) as [H|H]; [rewrite bool_decide_true|rewrite bool_decide_false]. }
  destruct ((0 <? zlen addresses) && negb (bool_decide (Log.Address log ∈ addresses))) eqn:Ea.
  - apply andb_true_iff in Ea as [E1 E2]. apply (Hend false). symmetry. apply bool_decide_false. intros [[->|H] _]; [done|]. by rewrite bool_decide_true in E2.
  - destruct (Z.ltb_spec (zlen (Log.Topics log)) (zlen topics)) as [Hl|Hl].
    + apply (Hend false). symmetry. apply bool_decide_false. intros [_ H%Forall2_length]. unfold zlen in *. rewrite length_take in H. lia.
    + rewrite topicsMatch_run by lia. apply Hend. apply bool_decide_ext. rewrite drop_0. unfold selected. split; [|tauto]. intros H. split; [|done].
      apply andb_false_iff in Ea as [Ea|Ea]; [left; destruct addresses; [done|by apply Z.ltb_ge in Ea; unfold zlen in Ea; cbn [length] in Ea; lia]|right]. by apply negb_false_iff, bool_decide_eq_true in Ea.
Qed.

(** A filter of bits that the search does not skip. *)
Definition within bloom x : Prop := bits (sig x) (Big bloom).
Definition passes bloom addresses topics : Prop :=
  (addresses = [] \/ Exists (within bloom) addresses) /\ Forall (fun sub => sub = [] \/ Exists (within bloom) sub) topics.

#[local] Instance within_dec bloom x : Decision (within bloom x) := bits_dec _ _.
#[export] Instance passes_dec bloom addresses topics : Decision (passes bloom addresses topics).
Proof. unfold passes. apply _. Defined.

Lemma anyLookup_run bloom l : anyLookup bloom l = Ret (bool_decide (Exists (within bloom) l)).
Proof.
  induction l as [|x l IH]; [by rewrite bool_decide_false by (by intros ?%Exists_nil)|]. cbn [anyLookup]. rewrite BloomLookup_run. change (bool_decide (bits (sig x) (Big bloom))) with (bool_decide (within bloom x)). cbn [obind]. destruct (bool_decide_reflect (within bloom x)) as [E|E].
  - f_equal. symmetry. apply bool_decide_true. by constructor.
  - rewrite IH. f_equal. apply bool_decide_ext. rewrite Exists_cons. naive_solver.
Qed.

Lemma bloomFilter_run bloom addresses topics : bloomFilter bloom addresses topics = Ret (bool_decide (passes bloom addresses topics)).
Proof.
  unfold bloomFilter. assert (clausesLookup bloom topics = Ret (bool_decide (Forall (fun sub => sub = [] \/ Exists (within bloom) sub) topics))) as ->.
  { induction topics as [|sub topics IH]; [by rewrite bool_decide_true by constructor|]. cbn [clausesLookup]. rewrite anyLookup_run.
    assert ((if bool_decide (sub = []) then Ret true else Ret (bool_decide (Exists (within bloom) sub))) = Ret (bool_decide (sub = [] \/ Exists (within bloom) sub))) as ->.
    { destruct (bool_decide_reflect (sub = [])) as [E|E]; [f_equal; symmetry; apply bool_decide_true; by left|]. f_equal. apply bool_decide_ext. naive_solver. }
    cbn [obind]. rewrite IH. destruct (bool_decide_reflect (sub = [] \/ Exists (within bloom) sub)) as [E|E]; [f_equal; apply bool_decide_ext; rewrite Forall_cons; naive_solver|]. rewrite bool_decide_false; [done|]. by rewrite Forall_cons; intros [? _]. }
  rewrite anyLookup_run. destruct addresses as [|x l].
  - change (0 <? zlen (@nil bytes)) with false. cbn [obind]. f_equal. apply bool_decide_ext. unfold passes. naive_solver.
  - change (0 <? zlen (x :: l)) with true. cbn [obind]. destruct (bool_decide_reflect (Exists (within bloom) (x :: l))) as [E|E]; [f_equal; apply bool_decide_ext; unfold passes; naive_solver|]. rewrite bool_decide_false; [done|]. by intros [[?|?] _].
Qed.

(** The filter of receipts does not skip a log of theirs that is asked for. *)
Lemma selected_passes receipts bloom addresses topics r log : CreateBloom receipts = Ret bloom -> r ∈ receipts -> log ∈ Receipt.Logs r ->
  selected addresses topics log -> passes bloom addresses topics.
Proof.
  intros E Hr Hlog [Ha Ht]. destruct (CreateBloom_run receipts) as (b & E' & _ & Hb). rewrite E in E'. injection E' as <-.
  assert (forall x, x ∈ items log -> within bloom x) as Hin.
  { intros x Hx. unfold within. rewrite Hb. apply union_has, list_elem_of_bind. exists r. split; [|done]. apply list_elem_of_bind. by exists log. }
  split; [destruct Ha as [?|Ha]; [by left|right]; apply Exists_exists; exists (Log.Address log); split; [done|apply Hin; by left]|].
  apply Forall_forall. intros sub (i & Hi)%list_elem_of_lookup. destruct (Forall2_lookup_l _ _ _ _ _ Ht Hi) as (t & Et & Hc). destruct Hc as [?|Hc]; [by left|right].
  apply Exists_exists. exists t. split; [done|]. apply Hin. right. apply lookup_take_Some in Et as [Et _]. by apply list_elem_of_lookup_2 in Et.
Qed.

Section Search.
Context (backend : Backend) (header : Z -> Header.t) (receipts : Z -> list Receipt.t) (head : Z).

(** A node that serves the chain of [header] up to [head], whose headers have the filter
    of their receipts. *)
Record serves : Prop := {
  sv_head : 0 <= head < 2 ^ 63 - 1;
  sv_number : forall n, Header.Number (header n) = n;
  sv_latest : exists err, HeaderByNumber backend LatestBlockNumber = (Some (header head), err);
  sv_header : forall n, 0 <= n <= head -> HeaderByNumber backend n = (Some (header n), None);
  sv_logs : forall n, 0 <= n <= head -> GetLogs backend (HeaderHash backend (header n)) = inl (Receipt.Logs <$> receipts n);
  sv_receipts : forall n, 0 <= n <= head -> GetReceipts backend (HeaderHash backend (header n)) = inl (receipts n);
  sv_bloom : forall n, 0 <= n <= head -> CreateBloom (receipts n) = Ret (Header.Bloom (header n))
}.

(** What the index of the filters promises: the numbers that a session sends are in
    order, and no block whose filter passes is left out. *)
Definition session_ok (f : Filter) : Prop := forall b e, 0 <= b <= e -> e <= head -> e < u64 ((BloomStatus backend).2 * (BloomStatus backend).1) ->
  exists ms, Session backend b e = inl (ms, None) /\ ms `sublist_of` seqZ b (e - b + 1) /\
    forall n, b <= n <= e -> passes (Header.Bloom (header n)) (addresses f) (topics f) -> n ∈ ms.

(** The logs of a block, and those of the blocks from [b] to [e], that are asked for. *)
Definition found (f : Filter) (n : Z) : list Log.t := filter (selected (addresses f) (topics f)) (concat (Receipt.Logs <$> receipts n)).
Definition foundFrom (f : Filter) (b e : Z) : list Log.t := concat (found f <$> seqZ b (e - b + 1)).

Context (Hs : serves).

Lemma checkMatches_run f n : 0 <= n <= head -> checkMatches backend f (header n) = Ret (inl (found f n)).
Proof.
  intros Hn. unfold checkMatches. rewrite (sv_logs Hs n Hn), (sv_receipts Hs n Hn), !filterLogs_run. cbn [obind]. unfold found.
  by destruct (filter _ _) as [|log l] eqn:E; [|case_bool_decide].
Qed.

Lemma skipped f n : 0 <= n <= head -> ~ passes (Header.Bloom (header n)) (addresses f) (topics f) -> found f n = [].
Proof.
  intros Hn Hp. destruct (found f n) as [|log l] eqn:E; [done|]. assert (log ∈ found f n) as H by (rewrite E; by left). unfold found in H. apply list_elem_of_filter in H as [Hsel Hin].
  apply list_elem_of_In, in_concat in Hin as (logs & (r & -> & Hr)%list_elem_of_In%list_elem_of_fmap & Hlog%list_elem_of_In). destruct Hp. exact (selected_passes _ _ _ _ r log (sv_bloom Hs n Hn) Hr Hlog Hsel).
Qed.

Lemma blockLogs_run f n : 0 <= n <= head -> blockLogs backend f (header n) = Ret (found f n, None).
Proof.
  intros Hn. unfold blockLogs. rewrite bloomFilter_run, (checkMatches_run f n Hn). cbn [obind]. case_bool_decide as E; [done|]. by rewrite (skipped f n Hn E).
Qed.

Lemma foundFrom_cons f b e : b <= e -> foundFrom f b e = found f b ++ foundFrom f (b + 1) e.
Proof. intros Hb. unfold foundFrom. rewrite seqZ_cons by lia. cbn. by replace (Z.pred (e - b + 1)) with (e - (b + 1) + 1) by lia. Qed.

Lemma foundFrom_app f b c e : b <= c + 1 -> c <= e -> foundFrom f b c ++ foundFrom f (c + 1) e = foundFrom f b e.
Proof.
  intros Hb Hc. unfold foundFrom. replace (e - b + 1) with ((c - b + 1) + (e - (c + 1) + 1)) by lia. rewrite (seqZ_app b (c - b + 1) (e - (c + 1) + 1)), fmap_app, concat_app by lia.
  by replace (b + (c - b + 1)) with (c + 1) by lia.
Qed.

Lemma unindexedLoop_run n f logs : 0 <= begin f -> begin f + Z.of_nat n <= head + 1 ->
  unindexedLoop backend n f logs = Ret (logs ++ foundFrom f (begin f) (begin f + Z.of_nat n - 1), None, set_begin f (begin f + Z.of_nat n)).
Proof.
  pose proof (sv_head Hs) as Hh. revert f logs. induction n as [|n IH]; intros f logs Hb Hn.
  - cbn [unindexedLoop]. unfold foundFrom. replace (begin f + Z.of_nat 0 - 1 - begin f + 1) with 0 by lia. rewrite Z.add_0_r, app_nil_r. by destruct f.
  - cbn [unindexedLoop]. rewrite (sv_header Hs), (blockLogs_run f) by lia. cbn [obind]. rewrite i64_of_small_u64 by (unfold two63; lia). rewrite IH by (cbn; lia). cbn [set_begin begin].
    rewrite (foundFrom_cons f (begin f)) by lia. rewrite <- app_assoc. replace (begin f + 1 + Z.of_nat n) with (begin f + Z.of_nat (S n)) by lia. done.
Qed.

Lemma unindexedLogs_run f e : 0 <= e <= head -> 0 <= begin f <= e + 1 -> unindexedLogs backend f e = Ret (foundFrom f (begin f) e, None, set_begin f (e + 1)).
Proof.
  pose proof (sv_head Hs) as Hh. intros Hb He. unfold unindexedLogs. rewrite i64_of_small_u64, unindexedLoop_run by (unfold two63; lia). rewrite app_nil_l.
  replace (begin f + Z.of_nat (Z.to_nat (e - begin f + 1))) with (e + 1) by lia. by replace (e + 1 - 1) with e by lia.
Qed.

Lemma indexedLoop_run ms e f logs : Forall (fun n => 0 <= n <= head) ms -> 0 <= e <= head ->
  indexedLoop backend ms None e f logs = Ret (logs ++ concat (found f <$> ms), None, set_begin f (e + 1)).
Proof.
  pose proof (sv_head Hs) as Hh. intros Hms He. revert f logs. induction Hms as [|n ms Hn _ IH]; intros f logs.
  - cbn [indexedLoop]. rewrite bool_decide_true, (i64_of_small_u64 e), i64_of_small_u64 by (done || unfold two63; lia). cbn. by rewrite app_nil_r.
  - cbn [indexedLoop]. rewrite (i64_of_small_u64 n) by (unfold two63; lia). rewrite (sv_header Hs), (checkMatches_run _ n) by lia. cbn [obind]. rewrite IH. cbn. by rewrite <- app_assoc.
Qed.

(** Blocks that a session leaves out have nothing that is asked for. *)
Lemma sublist_found f ms l : ms `sublist_of` l -> NoDup l -> (forall n, n ∈ l -> n ∉ ms -> found f n = []) -> concat (found f <$> ms) = concat (found f <$> l).
Proof.
  intros Hsub. induction Hsub as [|n ms l Hsub IH|n ms l Hsub IH]; intros Hd Hout; [done| |]; apply NoDup_cons in Hd as [Hn Hd]; cbn.
  - rewrite IH; [done..|]. intros m Hm Hx. apply Hout; [by right|]. intros [->|?]%elem_of_cons; done.
  - assert (n ∉ ms) as Hx by (intros H; apply Hn; by eapply elem_of_sublist). rewrite (Hout n) by (done || by left). apply IH; [done|]. intros m Hm. apply Hout. by right.
Qed.

Lemma indexedLogs_run f e : session_ok f -> 0 <= begin f <= e -> e <= head -> e < u64 ((BloomStatus backend).2 * (BloomStatus backend).1) ->
  indexedLogs backend f e = Ret (foundFrom f (begin f) e, None, set_begin f (e + 1)).
Proof.
  pose proof (sv_head Hs) as Hh. intros Hok Hb He Hi. destruct (Hok (begin f) e Hb He Hi) as (ms & E & Hsub & Hall). unfold indexedLogs. rewrite u64_id by (unfold in_u64, two64; lia). rewrite E.
  rewrite indexedLoop_run; [|apply Forall_forall; intros n Hn; pose proof (elem_of_sublist _ _ _ Hn Hsub) as Hx%elem_of_seqZ; lia|lia].
  rewrite app_nil_l. unfold foundFrom. rewrite (sublist_found f ms _ Hsub); [done|apply NoDup_seqZ|]. intros n Hn%elem_of_seqZ Hx. apply (skipped f); [lia|]. intros Hp. apply Hx, Hall; [lia|done].
Qed.

(** The range that a filter asks for: -1 is the head. *)
Definition first (f : Filter) : Z := if begin f =? -1 then head else begin f.
Definition last (f : Filter) : Z := if end_ f =? -1 then head else end_ f.

(** The search of a range, with an index that leaves out no block whose filter passes. *)
Lemma Logs_run f : session_ok f -> block f = zeroHash -> 0 <= first f <= last f -> last f <= head ->
  Logs backend f = Ret (foundFrom f (first f) (last f), None, set_begin f (last f + 1)).
Proof.
  pose proof (sv_head Hs) as Hh. intros Hok Hb Hf Hl. unfold Logs. rewrite bool_decide_false by tauto. destruct (sv_latest Hs) as (err & ->). rewrite (sv_number Hs).
  rewrite (u64_id head) by (unfold in_u64, two64; lia). rewrite (i64_of_small_u64 head) by (unfold two63; lia).
  assert ((if begin f =? -1 then set_begin f head else f) = set_begin f (first f)) as -> by (unfold first; destruct (begin f =? -1); [done|by destruct f]).
  cbn [end_ set_begin begin addresses topics block]. assert ((if end_ f =? -1 then head else u64 (end_ f)) = last f) as -> by (unfold last in *; destruct (end_ f =? -1); [done|apply u64_id; unfold in_u64, two64; lia]).
  pose proof (indexedLogs_run (set_begin f (first f))) as Hidx. pose proof (unindexedLogs_run (set_begin f (first f)) (last f)) as Hun. cbn [begin set_begin] in Hidx, Hun.
  destruct (BloomStatus backend) as [size sections]. cbn [fst snd] in Hidx. rewrite (u64_id (first f)) by (unfold in_u64, two64; lia). set (indexed := u64 (sections * size)) in *.
  assert (in_u64 indexed) as Hu by apply u64_range. unfold in_u64 in Hu. destruct (Z.ltb_spec (first f) indexed) as [H1|H1].
  - set (c := if last f <? indexed then last f else u64 (indexed - 1)). assert (first f <= c <= last f /\ c < indexed) as (Hc & Hci).
    { unfold c. destruct (Z.ltb_spec (last f) indexed); [lia|]. rewrite u64_id by (unfold in_u64; lia). lia. }
    rewrite Hidx by (done || lia). cbn [obind]. pose proof (unindexedLogs_run (set_begin f (c + 1)) (last f)) as Hun'. cbn [begin set_begin] in Hun'. unfold set_begin at 1. cbn.
    change (mkFilter (addresses f) (topics f) (block f) (c + 1) (end_ f)) with (set_begin f (c + 1)). rewrite Hun' by lia. cbn [obind fst snd].
    change (foundFrom (set_begin f (first f))) with (foundFrom f). change (foundFrom (set_begin f (c + 1))) with (foundFrom f). by rewrite foundFrom_app by lia.
  - cbn [obind]. by rewrite Hun by lia.
Qed.
End Search.
End Facts.
