(* ===== verification/Bloombits.v ===== *)
(** * The index of the Bloom filters

    [core/bloombits]: the filters of a section of blocks turned by ninety degrees, one
    vector with a bit for each block for every bit of the filter ([generator.go]), and
    the search in these vectors for the blocks that may have what a filter asks for
    ([matcher.go]). *)

From S2P Require Import Prelude GoStd StateDB Bloom Filter.
Import types.

(** [common/bitutil] of go-ethereum, on vectors of one length: the first operand is the
    destination. *)
Class BitLib := {
  ANDBytes : bytes -> bytes -> bytes;
  ORBytes : bytes -> bytes -> bytes;
  AnySet : bytes -> bool
}.

(** The [j]-th bit of a vector, from the left. *)
Definition bitAt (v : bytes) (j : Z) : bool := match v !! Z.to_nat (j / 8) with Some c => Z.testbit (byte_Z c) (7 - j mod 8) | None => false end.

Class BitLaws (B : BitLib) := {
  AND_length : forall v w, length v = length w -> length (ANDBytes v w) = length v;
  AND_bit : forall v w j, length v = length w -> 0 <= j -> bitAt (ANDBytes v w) j = bitAt v j && bitAt w j;
  OR_length : forall v w, length v = length w -> length (ORBytes v w) = length v;
  OR_bit : forall v w j, length v = length w -> 0 <= j -> bitAt (ORBytes v w) j = bitAt v j || bitAt w j;
  AnySet_spec : forall v, AnySet v = true <-> exists j, 0 <= j /\ bitAt v j = true
}.

Module bloombits.
Abbreviation BloomBitLength := 2048 (only parsing).

(** ** The generator *)

Module Generator.
Record t := mk { blooms : list bytes; sections : Z; nextSec : Z }.
End Generator.

Definition NewGenerator (sections : Z) : Generator.t + string :=
  if negb (sections mod 8 =? 0) then inr "section count not multiple of 8"%string
  else inl (Generator.mk (replicate (Z.to_nat BloomBitLength) (replicate (Z.to_nat (sections / 8)) Byte.x00)) sections 0).

(** One round of the loop of [AddBloom], for the [i]-th bit of the filter. *)
Definition addBit (bloom : bytes) (byteIndex bitMask i : Z) (blooms : list bytes) : outcome (list bytes) :=
  let! x := slice_get bloom (256 - 1 - i / 8) in
  if negb (Z.land (byte_Z x) (Z.shiftl 1 (i mod 8)) =? 0) then
    let! row := slice_get blooms i in
    let! c := slice_get row byteIndex in
    let! row := slice_set row byteIndex (Z_byte (Z.lor (byte_Z c) bitMask)) in
    slice_set blooms i row
  else Ret blooms.

Definition AddBloom (b : Generator.t) (index : Z) (bloom : bytes) : outcome (Generator.t * option string) :=
  if Generator.sections b <=? Generator.nextSec b then Ret (b, Some "section out of bounds"%string)
  else if negb (Generator.nextSec b =? index) then Ret (b, Some "bloom filter with unexpected index"%string)
  else
    let byteIndex := Generator.nextSec b / 8 in
    let bitMask := Z.shiftl 1 (7 - Generator.nextSec b mod 8) in
    let! blooms := for_loop 0 BloomBitLength (addBit bloom byteIndex bitMask) (Generator.blooms b) in
    Ret (Generator.mk blooms (Generator.sections b) (Generator.nextSec b + 1), None).

Definition Bitset (b : Generator.t) (idx : Z) : outcome (bytes + string) :=
  if negb (Generator.nextSec b =? Generator.sections b) then Ret (inr "bloom not fully generated yet"%string)
  else if BloomBitLength <=? idx then Ret (inr "bloom bit out of bounds"%string)
  else let! row := slice_get (Generator.blooms b) idx in Ret (inl row).

(** ** The matcher *)

Section Matcher.
Context {C : CryptoLib} {B : BitLib}.

Definition calcBloomIndexes (b : bytes) : outcome (list Z) :=
  let b := Keccak256 b in
  let idx i := let! hi := slice_get b (2 * i) in let! lo := slice_get b (2 * i + 1) in Ret (Z.land (Z.shiftl (byte_Z hi) 8) 2047 + byte_Z lo) in
  let! x := idx 0 in let! y := idx 1 in let! z := idx 2 in Ret [x; y; z].

Record Matcher := mkMatcher { sectionSize : Z; matchFilters : list (list (list Z)) }.

(** The indexes of the clauses of a rule; a nil clause gives a nil slice. *)
Fixpoint ruleBits (filter : list (option bytes)) : outcome (option (list (list Z))) :=
  match filter with
  | [] => Ret (Some [])
  | None :: _ => Ret None
  | Some clause :: filter =>
      let! x := calcBloomIndexes clause in
      let! rest := ruleBits filter in
      Ret (match rest with Some l => Some (x :: l) | None => None end)
  end.

Fixpoint rules (filters : list (list (option bytes))) : outcome (list (list (list Z))) :=
  match filters with
  | [] => Ret []
  | [] :: filters => rules filters
  | filter :: filters =>
      let! bits := ruleBits filter in
      let! rest := rules filters in
      Ret (match bits with Some l => l :: rest | None => rest end)
  end.

Definition NewMatcher (sectionSize : Z) (filters : list (list (option bytes))) : outcome Matcher :=
  let! fs := rules filters in Ret (mkMatcher sectionSize fs).

(** The vector of a bit in a section, as the schedulers deliver it. *)
Context (fetch : Z -> Z -> bytes) (m : Matcher).

Definition copyTo (n : Z) (data : bytes) : bytes := take (Z.to_nat n) data ++ replicate (Z.to_nat n - length data) Byte.x00.

(** The blocks of a section that have all three bits of a clause; a nil vector is
    [None]. *)
Definition andVector (section : Z) (bits : list Z) : option bytes :=
  foldl (fun v bit => Some (match v with None => copyTo (sectionSize m / 8) (fetch bit section) | Some v => ANDBytes v (fetch bit section) end)) None bits.

Definition orVector (section : Z) (bloom : list (list Z)) : option bytes :=
  foldl (fun v bits => match v with None => andVector section bits | Some v => Some (ORBytes v (default [] (andVector section bits))) end) None bloom.

(** A section and the blocks of it that are left: [None] when there are none. *)
Definition subMatch (bloom : list (list Z)) (sub : Z * bytes) : option (Z * bytes) :=
  let v := ANDBytes (default (replicate (Z.to_nat (sectionSize m / 8)) Byte.x00) (orVector sub.1 bloom)) sub.2 in
  if AnySet v then Some (sub.1, v) else None.

(** The pipeline.  Every stage is a goroutine that takes the sections from one channel
    and gives them to the next in their order. *)
Definition run (begin end_ : Z) : outcome (list (Z * bytes)) :=
  if sectionSize m =? 0 then Panic "integer divide by zero"
  else
    let source := (fun i => (i, replicate (Z.to_nat (sectionSize m / 8)) (Z_byte 255))) <$> seqZ (begin / sectionSize m) (end_ / sectionSize m - begin / sectionSize m + 1) in
    Ret (foldl (fun subs bloom => omap (subMatch bloom) subs) source (matchFilters m)).

(** The blocks of a section, from [i] on; [fuel] rounds are enough when there are not
    more blocks. *)
Fixpoint emit (fuel : nat) (i last sectionStart : Z) (bitset : bytes) : outcome (list Z) :=
  match fuel with
  | O => Ret []
  | S fuel =>
      if last <? i then Ret []
      else
        let! next := slice_get bitset (u64 (i - sectionStart) / 8) in
        if byte_Z next =? 0 then emit fuel (u64 ((if i mod 8 =? 0 then u64 (i + 7) else i) + 1)) last sectionStart bitset
        else
          let! rest := emit fuel (u64 (i + 1)) last sectionStart bitset in
          Ret (if negb (Z.land (byte_Z next) (Z.shiftl 1 (7 - i mod 8)) =? 0) then i :: rest else rest)
  end.

Definition emitSection (begin end_ : Z) (res : Z * bytes) : outcome (list Z) :=
  let sectionStart := u64 (res.1 * sectionSize m) in
  let first := if sectionStart <? begin then begin else sectionStart in
  let last := u64 (sectionStart + sectionSize m - 1) in
  let last := if end_ <? last then end_ else last in
  emit (Z.to_nat (last - first + 1)) first last sectionStart res.2.

Fixpoint emitAll (begin end_ : Z) (l : list (Z * bytes)) : outcome (list Z) :=
  match l with
  | [] => Ret []
  | res :: l => let! x := emitSection begin end_ res in let! rest := emitAll begin end_ l in Ret (x ++ rest)
  end.

(** [Start] of a session that runs to its end. *)
Definition Start (begin end_ : Z) : outcome (list Z) := let! l := run begin end_ in emitAll begin end_ l.
End Matcher.

(** The rules of [NewRangeFilter]. *)
Definition rangeRules (addresses : list bytes) (topics : list (list bytes)) : list (list (option bytes)) :=
  (if bool_decide (addresses = []) then [] else [map Some addresses]) ++ map (map Some) topics.
End bloombits.

(** ** Bits of bytes *)

Lemma land_bit x k : 0 <= k -> (Z.land x (Z.shiftl 1 k) =? 0) = negb (Z.testbit x k).
Proof.
  intros Hk. rewrite Z.shiftl_1_l. destruct (Z.eqb_spec (Z.land x (2 ^ k)) 0) as [E|E].
  - assert (Z.testbit (Z.land x (2 ^ k)) k = false) as H by (rewrite E; apply Z.bits_0). rewrite Z.land_spec, Z.pow2_bits_true, andb_true_r in H by done. by rewrite H.
  - destruct (Z.testbit x k) eqn:Ex; [done|]. destruct E. apply Z.bits_inj'. intros n Hn. rewrite Z.land_spec, Z.bits_0, Z.pow2_bits_eqb by done. destruct (Z.eqb_spec k n) as [<-|]; [by rewrite Ex|by rewrite andb_false_r].
Qed.

(** Bit [i] of a filter as a number is bit [i mod 8] of its byte, counted from the end. *)
Lemma fromBytes_bit b i : 0 <= i < 8 * zlen b -> exists c, b !! Z.to_nat (zlen b - 1 - i / 8) = Some c /\ Z.testbit (fromBytes b) i = Z.testbit (byte_Z c) (i mod 8).
Proof.
  revert i. induction b as [|x b IH] using rev_ind; intros i Hi; [unfold zlen in Hi; cbn [length] in Hi; lia|]. unfold zlen in *. rewrite length_app in *. cbn [length] in *. pose proof (byte_Z_range x) as Hx.
  assert (fromBytes (b ++ [x]) = byte_Z x + fromBytes b * 2 ^ 8) as -> by (rewrite fromBytes_app; change (fromBytes [x]) with (256 * 0 + byte_Z x); change (256 ^ zlen [x]) with 256; lia).
  assert (byte_Z x = byte_Z x mod 2 ^ 8) as Em by (rewrite Z.mod_small; lia).
  assert (forall k, 0 <= k -> Z.testbit (byte_Z x + fromBytes b * 2 ^ 8) k = if k <? 8 then Z.testbit (byte_Z x) k else Z.testbit (fromBytes b) (k - 8)) as Hb.
  { intros k Hk. rewrite <- Z.shiftl_mul_pow2, Z.add_nocarry_lor, Z.lor_spec, Z.shiftl_spec by (lia || (apply Z.bits_inj'; intros n Hn; rewrite Z.land_spec, Z.bits_0, Z.shiftl_spec by lia;
      destruct (Z.ltb_spec n 8); [by rewrite (Z.testbit_neg_r _ (n - 8)), andb_false_r by lia|rewrite Em, Z.mod_pow2_bits_high by lia; done])).
    destruct (Z.ltb_spec k 8); [by rewrite (Z.testbit_neg_r _ (k - 8)), orb_false_r by lia|]. rewrite Em, Z.mod_pow2_bits_high by lia. done. }
  rewrite Hb by lia. destruct (Z.ltb_spec i 8).
  - exists x. rewrite (Z.div_small i 8), (Z.mod_small i 8) by lia. split; [|done]. rewrite lookup_app_r by lia. by replace (Z.to_nat (Z.of_nat (length b + 1) - 1 - 0) - length b)%nat with 0%nat by lia.
  - destruct (IH (i - 8) ltac:(lia)) as (c & E & ->). exists c. assert ((i - 8) mod 8 = i mod 8) as -> by (rewrite <- (Z_mod_plus_full (i - 8) 1 8); f_equal; lia). split; [|done].
    assert ((i - 8) / 8 = i / 8 - 1) as Ed by (pose proof (Z.div_add (i - 8) 1 8 ltac:(lia)) as Hd; replace (i - 8 + 1 * 8) with i in Hd by lia; lia).
    rewrite Ed in E. apply lookup_app_l_Some. rewrite <- E. f_equal. lia.
Qed.

(** A vector with one more bit. *)
Definition setBit (v : bytes) (k : Z) : bytes := alter (fun c => Z_byte (Z.lor (byte_Z c) (Z.shiftl 1 (7 - k mod 8)))) (Z.to_nat (k / 8)) v.

Lemma setBit_bit v k j : 0 <= k < 8 * zlen v -> 0 <= j -> bitAt (setBit v k) j = bitAt v j || (j =? k).
Proof.
  intros Hk Hj. unfold bitAt, setBit. pose proof (Z.mod_pos_bound k 8 ltac:(lia)) as Hm. pose proof (Z.mod_pos_bound j 8 ltac:(lia)) as Hm'. pose proof (Z.div_mod k 8 ltac:(lia)). pose proof (Z.div_mod j 8 ltac:(lia)).
  assert (0 <= k / 8 < zlen v) as Hkd by (split; [apply Z.div_pos; lia|apply Z.div_lt_upper_bound; lia]). assert (0 <= j / 8) by (apply Z.div_pos; lia).
  rewrite list_lookup_alter. case_decide as Hd.
  - assert (j / 8 = k / 8) as E by lia. rewrite E. destruct (v !! Z.to_nat (k / 8)) as [c|] eqn:Ec; [|apply lookup_ge_None in Ec; unfold zlen in Hkd; lia]. cbn. pose proof (byte_Z_range c).
    assert (0 <= Z.lor (byte_Z c) (Z.shiftl 1 (7 - k mod 8)) < 256) as Hr.
    { apply (lor_below _ _ 8); [lia|done|]. rewrite Z.shiftl_1_l. split; [apply Z.pow_nonneg; lia|apply Z.pow_lt_mono_r; lia]. }
    rewrite byte_Z_of by done. rewrite Z.lor_spec, Z.shiftl_1_l, Z.pow2_bits_eqb by lia. f_equal. destruct (Z.eqb_spec (7 - k mod 8) (7 - j mod 8)), (Z.eqb_spec j k); try done; lia.
  - destruct (Z.eqb_spec j k) as [->|]; [done|]. by rewrite orb_false_r.
Qed.

Lemma setBit_length v k : length (setBit v k) = length v.
Proof. apply length_alter. Qed.

Lemma bitAt_zeros n j : bitAt (replicate n Byte.x00) j = false.
Proof. unfold bitAt. destruct (_ !! _) eqn:E; [|done]. apply lookup_replicate in E as [-> _]. apply Z.bits_0. Qed.

Lemma bitAt_ones n j : 0 <= j < 8 * n -> bitAt (replicate (Z.to_nat n) (Z_byte 255)) j = true.
Proof.
  intros Hj. unfold bitAt. pose proof (Z.mod_pos_bound j 8 ltac:(lia)). assert (0 <= j / 8 < n) by (split; [apply Z.div_pos|apply Z.div_lt_upper_bound]; lia). rewrite lookup_replicate_2 by lia.
  change (byte_Z (Z_byte 255)) with (Z.ones 8). apply Z.ones_spec_low. lia.
Qed.

(** ** The generator turns the filters *)

Section GeneratorFacts.
Import bloombits.
Implicit Types (g : Generator.t) (bloom : bytes) (bs : list bytes).

(** A generator that has got the filters [bs]. *)
Record turned bs g : Prop := {
  tu_size : Generator.sections g mod 8 = 0;
  tu_next : Generator.nextSec g = zlen bs;
  tu_room : zlen bs <= Generator.sections g;
  tu_rows : length (Generator.blooms g) = Z.to_nat 2048;
  tu_bits : forall i row, Generator.blooms g !! i = Some row -> zlen row = Generator.sections g / 8 /\
    forall j, 0 <= j -> bitAt row j = match bs !! Z.to_nat j with Some b => Z.testbit (Big b) (Z.of_nat i) | None => false end
}.

Lemma slice_get_some {A} (l : list A) i x : 0 <= i -> l !! Z.to_nat i = Some x -> slice_get l i = Ret x.
Proof. intros Hi E. unfold slice_get. by rewrite (proj2 (Z.ltb_ge _ _)), E by lia. Qed.

Lemma slice_set_run {A} (l : list A) i x : 0 <= i < zlen l -> slice_set l i x = Ret (<[Z.to_nat i := x]> l).
Proof. intros Hi. unfold slice_set, zlen in *. by rewrite (proj2 (Z.ltb_ge _ _)), (proj2 (Z.leb_gt _ _)) by lia. Qed.

Lemma addBit_run bloom k i blooms row : zlen bloom = 256 -> 0 <= i < 2048 -> 0 <= k -> blooms !! Z.to_nat i = Some row -> k < 8 * zlen row ->
  addBit bloom (k / 8) (Z.shiftl 1 (7 - k mod 8)) i blooms = Ret (<[Z.to_nat i := if Z.testbit (Big bloom) i then setBit row k else row]> blooms).
Proof.
  intros Hl Hi Hk Hrow Hr. unfold addBit. destruct (fromBytes_bit bloom i ltac:(lia)) as (c & Ec & Hb). rewrite Hl in Ec. assert (0 <= i / 8 < 256) by (split; [apply Z.div_pos|apply Z.div_lt_upper_bound]; lia).
  rewrite (slice_get_some bloom (256 - 1 - i / 8) c) by (done || lia). cbn [obind]. rewrite land_bit by (apply Z.mod_pos_bound; lia). rewrite negb_involutive. unfold Big. rewrite Hb.
  assert (0 <= k / 8 < zlen row) by (split; [apply Z.div_pos|apply Z.div_lt_upper_bound]; lia). destruct (Z.testbit (byte_Z c) (i mod 8)); [|by rewrite list_insert_id].
  rewrite (slice_get_some blooms i row) by (done || lia). cbn [obind]. destruct (row !! Z.to_nat (k / 8)) as [x|] eqn:Ex; [|apply lookup_ge_None in Ex; unfold zlen in *; lia].
  rewrite (slice_get_some row (k / 8) x) by (done || lia). cbn [obind]. rewrite slice_set_run by lia. cbn [obind]. pose proof (lookup_lt_Some _ _ _ Hrow). rewrite slice_set_run by (unfold zlen; lia). do 2 f_equal.
  unfold setBit. apply list_eq. intros n. rewrite list_lookup_insert, list_lookup_alter. case_decide as D1; case_decide as D2; try (exfalso; unfold zlen in *; lia); [|done]. destruct D1 as [<- _]. by rewrite Ex.
Qed.

Lemma NewGenerator_turned n : 0 <= n -> n mod 8 = 0 -> exists g, NewGenerator n = inl g /\ turned [] g /\ Generator.sections g = n.
Proof.
  intros Hn Hm. unfold NewGenerator. rewrite Hm. eexists. split; [done|]. split; [|done]. split; cbn; try done.
  intros i row Hi%lookup_replicate. destruct Hi as [-> _]. split; [unfold zlen; rewrite length_replicate; pose proof (Z.div_pos n 8); lia|]. intros j _. apply bitAt_zeros.
Qed.

Lemma AddBloom_run bs g bloom : turned bs g -> zlen bs < Generator.sections g -> zlen bloom = 256 ->
  exists g', AddBloom g (zlen bs) bloom = Ret (g', None) /\ turned (bs ++ [bloom]) g' /\ Generator.sections g' = Generator.sections g.
Proof.
  intros [H1 H2 H3 H4 H5] Hlt Hl. unfold AddBloom. rewrite H2, (proj2 (Z.leb_gt _ _)), Z.eqb_refl by lia. cbn [negb]. set (k := zlen bs) in *. assert (0 <= k) as Hk by (unfold k, zlen; lia).
  pose proof (Z.div_mod (Generator.sections g) 8 ltac:(lia)) as Hd. set (new i row := if (i <? 2048) && Z.testbit (Big bloom) i then setBit row k else row).
  destruct (for_loop_inv (fun i blooms => length blooms = Z.to_nat 2048 /\ forall n row, Generator.blooms g !! n = Some row -> blooms !! n = Some (if Z.of_nat n <? i then new (Z.of_nat n) row else row))
    (addBit bloom (k / 8) (Z.shiftl 1 (7 - k mod 8))) 0 2048 (Generator.blooms g)) as (blooms & -> & Hlen & Hnew); [lia| |..].
  - split; [done|]. intros n row Hn. by rewrite (proj2 (Z.ltb_ge _ _)) by lia.
  - intros i blooms Hi [Hlen Hold]. destruct (Generator.blooms g !! Z.to_nat i) as [row|] eqn:Er; [|apply lookup_ge_None in Er; lia]. pose proof (Hold _ _ Er) as Hb.
    rewrite Z2Nat.id, Z.ltb_irrefl in Hb by lia. destruct (H5 _ _ Er) as [Hz _]. rewrite (addBit_run bloom k i blooms row) by (done || lia). eexists. split; [done|].
    rewrite length_insert. split; [done|]. intros n row' Hn. rewrite list_lookup_insert. case_decide as D.
    + destruct D as [<- _]. assert (row' = row) as -> by congruence. rewrite Z2Nat.id, (proj2 (Z.ltb_lt _ _)) by lia. unfold new. by rewrite (proj2 (Z.ltb_lt _ _)) by lia.
    + rewrite (Hold _ _ Hn). pose proof (lookup_lt_Some _ _ _ Hn). destruct (Z.ltb_spec (Z.of_nat n) i), (Z.ltb_spec (Z.of_nat n) (i + 1)); try done; lia.
  - cbn [obind]. eexists. split; [done|]. split; [|done]. assert (zlen (bs ++ [bloom]) = k + 1) as Hk1 by (unfold k, zlen; rewrite length_app; cbn; lia).
    split; cbn [Generator.sections Generator.nextSec Generator.blooms]; rewrite ?Hk1; [done|done|lia|done|]. intros i row Hi.
    destruct (Generator.blooms g !! i) as [row0|] eqn:E0; [|apply lookup_ge_None in E0; apply lookup_lt_Some in Hi; lia]. pose proof (lookup_lt_Some _ _ _ E0). rewrite (Hnew _ _ E0) in Hi. injection Hi as <-.
    destruct (H5 _ _ E0) as [Hz Hb]. rewrite (proj2 (Z.ltb_lt _ _)) by lia. unfold new. rewrite (proj2 (Z.ltb_lt _ _)) by lia. cbn [andb]. split; [by destruct (Z.testbit _ _); unfold zlen; rewrite ?setBit_length|].
    intros j Hj. assert (bitAt (if Z.testbit (Big bloom) (Z.of_nat i) then setBit row0 k else row0) j = bitAt row0 j || (j =? k) && Z.testbit (Big bloom) (Z.of_nat i)) as ->.
    { destruct (Z.testbit _ _); [rewrite setBit_bit by lia; by rewrite andb_true_r|by rewrite andb_false_r, orb_false_r]. }
    rewrite Hb by done. unfold k, zlen. destruct (Z.eqb_spec j (Z.of_nat (length bs))) as [->|Hne].
    + rewrite Nat2Z.id, lookup_app_r, Nat.sub_diag by lia. rewrite lookup_ge_None_2 by lia. done.
    + rewrite orb_false_r. destruct (decide (Z.to_nat j < length bs)%nat); [by rewrite lookup_app_l by lia|]. by rewrite !lookup_ge_None_2 by (rewrite ?length_app; cbn; lia).
Qed.

(** The filters of a section, one after the other from index [i] on. *)
Fixpoint addAll (i : Z) (bs : list bytes) (g : Generator.t) : outcome (Generator.t * option string) :=
  match bs with
  | [] => Ret (g, None)
  | b :: bs =>
      let! (g, err) := AddBloom g i b in
      match err with Some _ => Ret (g, err) | None => addAll (i + 1) bs g end
  end.

Lemma addAll_run bs done_ g : turned done_ g -> zlen done_ + zlen bs <= Generator.sections g -> Forall (fun b => zlen b = 256) bs ->
  exists g', addAll (zlen done_) bs g = Ret (g', None) /\ turned (done_ ++ bs) g' /\ Generator.sections g' = Generator.sections g.
Proof.
  revert done_ g. induction bs as [|b bs IH]; intros done_ g Ht Hl Hf; [exists g; by rewrite app_nil_r|]. apply Forall_cons in Hf as [Hb Hf]. unfold zlen in *. cbn [length] in Hl.
  destruct (AddBloom_run done_ g b Ht) as (g1 & E1 & T1 & S1); [unfold zlen; lia|done|]. destruct (IH (done_ ++ [b]) g1 T1) as (g2 & E2 & T2 & S2); [rewrite length_app, S1; cbn; lia|done|].
  exists g2. cbn [addAll]. unfold zlen in E1. rewrite E1. cbn [obind]. rewrite length_app, Nat2Z.inj_add in E2. split; [exact E2|]. split; [by rewrite <- app_assoc in T2|congruence].
Qed.

Lemma Bitset_row bs g idx : turned bs g -> zlen bs = Generator.sections g -> 0 <= idx < 2048 ->
  exists row, Bitset g idx = Ret (inl row) /\ zlen row = Generator.sections g / 8 /\ forall j b, bs !! j = Some b -> bitAt row (Z.of_nat j) = Z.testbit (Big b) idx.
Proof.
  intros [T1 T2 T3 T4 T5] Hn Hi. unfold Bitset. rewrite T2, Hn, Z.eqb_refl, (proj2 (Z.leb_gt _ _)) by lia. cbn [negb]. destruct (Generator.blooms g !! Z.to_nat idx) as [row|] eqn:Er; [|apply lookup_ge_None in Er; lia].
  rewrite (slice_get_some _ idx row) by (done || lia). exists row. split; [done|]. destruct (T5 _ _ Er) as [Hz Hb]. split; [done|]. intros j b Hj. rewrite Hb, Nat2Z.id, Hj by lia. f_equal. lia.
Qed.

Lemma generate n bs : n mod 8 = 0 -> zlen bs = n -> Forall (fun b => zlen b = 256) bs -> exists g0 g, NewGenerator n = inl g0 /\ addAll 0 bs g0 = Ret (g, None) /\ turned bs g /\ Generator.sections g = n.
Proof.
  intros Hm Hn Hf. destruct (NewGenerator_turned n) as (g0 & E0 & T0 & S0); [unfold zlen in Hn; lia|done|]. destruct (addAll_run bs [] g0 T0) as (g & E & T & S); [unfold zlen in *; cbn; lia|done|].
  exists g0, g. by rewrite S.
Qed.

(** The generator turns the filters of a section: given as many filters as it has
    room for, in their order, it ends without an error, and the [j]-th bit of the vector
    for bit [idx] is bit [idx] of the [j]-th filter; one more filter is refused. *)
Theorem Generator_transposes n bs : n mod 8 = 0 -> zlen bs = n -> Forall (fun b => zlen b = 256) bs -> exists g0 g, NewGenerator n = inl g0 /\ addAll 0 bs g0 = Ret (g, None) /\
  (forall idx, 0 <= idx < 2048 -> exists row, Bitset g idx = Ret (inl row) /\ zlen row = n / 8 /\ forall j b, bs !! j = Some b -> bitAt row (Z.of_nat j) = Z.testbit (Big b) idx) /\
  forall bloom, AddBloom g n bloom = Ret (g, Some "section out of bounds"%string).
Proof.
  intros Hm Hn Hf. destruct (generate n bs Hm Hn Hf) as (g0 & g & E0 & E & T & S). exists g0, g. split; [done|]. split; [done|]. split.
  - intros idx Hi. rewrite <- S. apply Bitset_row; [done|congruence|done].
  - intros bloom. unfold AddBloom. by rewrite (tu_next _ _ T), S, Hn, (proj2 (Z.leb_le _ _)) by lia.
Qed.
End GeneratorFacts.

(** ** The matcher finds the blocks whose filter passes *)

Section MatcherFacts.
Context {C : CryptoLib} {HC : CryptoLaws C} {B : BitLib} {HB : BitLaws B}.
Import bloombits.

(** The two ways to compute a bit from two bytes of the hash agree. *)
Lemma index_eq hi lo : 0 <= hi -> 0 <= lo < 256 -> Z.land (Z.shiftl hi 8) 2047 + lo = Z.land (lo + Z.shiftl hi 8) 2047 /\ 0 <= Z.land (lo + Z.shiftl hi 8) 2047 < 2048.
Proof.
  intros Hh Hl. change 2047 with (Z.ones 11). rewrite !Z.land_ones, !Z.shiftl_mul_pow2 by lia. change (2 ^ 8) with 256. change (2 ^ 11) with (8 * 256).
  rewrite Zmult_mod_distr_r. pose proof (Z.mod_pos_bound hi 8 ltac:(lia)). pose proof (Z.div_mod hi 8 ltac:(lia)) as Hd. set (r := hi mod 8) in *. set (q := hi / 8) in *.
  assert (lo + hi * 256 = (lo + r * 256) + q * (8 * 256)) as -> by lia. rewrite Z.mod_add, Z.mod_small by lia. lia.
Qed.

Lemma calc_run b : exists x y z, calcBloomIndexes b = Ret [x; y; z] /\ Forall (fun i => 0 <= i < 2048) [x; y; z] /\ sig b = Z.lor (Z.lor (2 ^ x) (2 ^ y)) (2 ^ z).
Proof.
  unfold calcBloomIndexes, sig, bloom9. pose proof (Keccak256_length b) as Hl. set (h := Keccak256 b) in *.
  assert (forall i, 0 <= i < 32 -> exists y : byte, slice_get h i = Ret y) as Hg.
  { intros i Hi. destruct (h !! Z.to_nat i) as [y|] eqn:E; [|apply lookup_ge_None in E; lia]. exists y. apply slice_get_some; [lia|done]. }
  destruct (Hg 0 ltac:(lia)) as (x0 & E0), (Hg 1 ltac:(lia)) as (x1 & E1), (Hg 2 ltac:(lia)) as (x2 & E2), (Hg 3 ltac:(lia)) as (x3 & E3), (Hg 4 ltac:(lia)) as (x4 & E4), (Hg 5 ltac:(lia)) as (x5 & E5).
  change (2 * 0) with 0. change (2 * 1) with 2. change (2 * 2) with 4. cbn [foldl]. change (0 + 1) with 1. change (2 + 1) with 3. change (4 + 1) with 5. rewrite E0, E1, E2, E3, E4, E5. cbn [obind].
  assert (forall hi lo : byte, 0 <= byte_Z hi /\ 0 <= byte_Z lo < 256) as Hr by (intros hi lo; pose proof (byte_Z_range hi); pose proof (byte_Z_range lo); lia).
  destruct (index_eq (byte_Z x0) (byte_Z x1) (proj1 (Hr _ x0)) (proj2 (Hr x0 _))) as [-> ?], (index_eq (byte_Z x2) (byte_Z x3) (proj1 (Hr _ x0)) (proj2 (Hr x0 _))) as [-> ?],
    (index_eq (byte_Z x4) (byte_Z x5) (proj1 (Hr _ x0)) (proj2 (Hr x0 _))) as [-> ?].
  do 3 eexists. split; [done|]. split; [rewrite !Forall_cons, Forall_nil; tauto|]. by rewrite Z.lor_0_l, !Z.shiftl_1_l.
Qed.

Definition bitsOf (b : bytes) : list Z := match calcBloomIndexes b with Ret l => l | Panic _ => [] end.

Lemma bitsOf_within bloom b : within bloom b <-> Forall (fun i => Z.testbit (Big bloom) i = true) (bitsOf b).
Proof.
  destruct (calc_run b) as (x & y & z & E & Hr & Hs). unfold bitsOf. rewrite E, !Forall_cons, Forall_nil. rewrite !Forall_cons in Hr. unfold within, bits. rewrite Hs. set (v := Big bloom). split.
  - intros H. assert (forall i, 0 <= i -> (x =? i) || (y =? i) || (z =? i) = true -> Z.testbit v i = true) as Hb.
    { intros i Hi Hx. assert (Z.testbit (Z.land v (Z.lor (Z.lor (2 ^ x) (2 ^ y)) (2 ^ z))) i = true) as Ht by (rewrite H, !Z.lor_spec, !Z.pow2_bits_eqb by lia; done).
      rewrite Z.land_spec in Ht. by apply andb_true_iff in Ht as [? _]. }
    split_and!; try done; apply Hb; rewrite ?Z.eqb_refl, ?orb_true_r; tauto || lia.
  - intros (Hx & Hy & Hz & _). apply Z.bits_inj'. intros i Hi. rewrite Z.land_spec, !Z.lor_spec, !Z.pow2_bits_eqb by lia.
    destruct (Z.eqb_spec x i) as [->|], (Z.eqb_spec y i) as [->|], (Z.eqb_spec z i) as [->|]; cbn; rewrite ?andb_true_r, ?andb_false_r; done.
Qed.

Lemma bitsOf_run b : calcBloomIndexes b = Ret (bitsOf b) /\ bitsOf b <> [] /\ Forall (fun i => 0 <= i < 2048) (bitsOf b).
Proof. unfold bitsOf. by destruct (calc_run b) as (x & y & z & -> & H & _). Qed.

Lemma ruleBits_run l : ruleBits (map Some l) = Ret (Some (map bitsOf l)).
Proof. induction l as [|b l IH]; [done|]. cbn [map ruleBits]. by rewrite (proj1 (bitsOf_run b)), IH. Qed.

Lemma rules_run ls : rules (map (map Some) ls) = Ret (map (map bitsOf) (filter (.≠ []) ls)).
Proof.
  induction ls as [|l ls IH]; [done|]. rewrite filter_cons. destruct l as [|b l]; [done|]. rewrite decide_True by done. cbn [map]. pose proof (ruleBits_run (b :: l)) as Hr. cbn [map] in Hr.
  cbn [rules]. by rewrite Hr, IH.
Qed.

(** A rule with a clause whose bits are all set. *)
Definition hits (bloom : bytes) (rule : list (list Z)) : Prop := Exists (Forall (fun i => Z.testbit (Big bloom) i = true)) rule.

#[local] Instance hits_dec bloom rule : Decision (hits bloom rule).
Proof. unfold hits. apply _. Defined.

Lemma hits_within bloom l : hits bloom (map bitsOf l) <-> Exists (within bloom) l.
Proof. unfold hits. rewrite !Exists_exists. setoid_rewrite list_elem_of_In. setoid_rewrite in_map_iff. setoid_rewrite bitsOf_within. naive_solver. Qed.

(** The matcher for a range of blocks looks for what [bloomFilter] looks for. *)
Lemma NewMatcher_run size addresses topics : exists m, NewMatcher size (rangeRules addresses topics) = Ret m /\ sectionSize m = size /\
  Forall (fun rule => rule <> [] /\ Forall (fun l => l <> [] /\ Forall (fun i => 0 <= i < 2048) l) rule) (matchFilters m) /\
  forall bloom, passes bloom addresses topics <-> Forall (hits bloom) (matchFilters m).
Proof.
  unfold NewMatcher, rangeRules. set (ls := (if bool_decide (addresses = []) then [] else [addresses]) ++ topics).
  assert ((if bool_decide (addresses = []) then [] else [map Some addresses]) ++ map (map Some) topics = map (map Some) ls) as -> by (unfold ls; rewrite map_app; by case_bool_decide).
  rewrite rules_run. eexists. split; [done|]. split; [done|]. split.
  - apply Forall_forall. intros rule (l & <- & (Hne & _)%list_elem_of_In%list_elem_of_filter)%list_elem_of_In%in_map_iff. split; [by destruct l|].
    apply Forall_forall. intros x (b & <- & _)%list_elem_of_In%in_map_iff. apply bitsOf_run.
  - intros bloom. cbn [matchFilters]. assert (passes bloom addresses topics <-> Forall (fun sub => sub = [] \/ Exists (within bloom) sub) ls) as ->.
    { unfold passes, ls. rewrite Forall_app. case_bool_decide; rewrite ?Forall_cons, ?Forall_nil; tauto. }
    rewrite !Forall_forall. setoid_rewrite list_elem_of_In at 2. setoid_rewrite in_map_iff. split.
    + intros H rule (l & <- & (Hne & Hl)%list_elem_of_In%list_elem_of_filter). apply hits_within. by destruct (H l Hl).
    + intros H l Hl. destruct (decide (l = [])); [by left|right]. apply hits_within, H. exists l. split; [done|]. by apply list_elem_of_In, list_elem_of_filter.
Qed.

Section Run.
Context (bloom : Z -> bytes) (fetch : Z -> Z -> bytes) (m : Matcher) (top : Z).
Abbreviation size := (sectionSize m).

(** The vectors of the sections up to [top] are those of the filters. *)
Definition fetched : Prop := forall bit sec, 0 <= bit < 2048 -> 0 <= sec <= top ->
  zlen (fetch bit sec) = size / 8 /\ forall j, 0 <= j < size -> bitAt (fetch bit sec) j = Z.testbit (Big (bloom (sec * size + j))) bit.

Context (Hsize : 0 < size) (H8 : size mod 8 = 0) (Hf : fetched) (Hrules : Forall (fun rule => rule <> [] /\ Forall (fun l => l <> [] /\ Forall (fun i => 0 <= i < 2048) l) rule) (matchFilters m)).

(** A vector with the blocks of a section for which [p] holds. *)
Definition vec (sec : Z) (v : bytes) (p : Z -> bool) : Prop := zlen v = size / 8 /\ forall j, 0 <= j < size -> bitAt v j = p (sec * size + j).

Lemma size_div : size = 8 * (size / 8) /\ 0 <= size / 8.
Proof. pose proof (Z.div_mod size 8 ltac:(lia)). pose proof (Z.div_pos size 8). lia. Qed.

Lemma vec_and sec v w p q : vec sec v p -> vec sec w q -> vec sec (ANDBytes v w) (fun k => p k && q k).
Proof. intros [Hv Bv] [Hw Bw]. unfold vec, zlen in *. assert (length v = length w) as Hl by lia. split; [by rewrite AND_length|]. intros j Hj. by rewrite AND_bit, Bv, Bw by (done || lia). Qed.

Lemma vec_or sec v w p q : vec sec v p -> vec sec w q -> vec sec (ORBytes v w) (fun k => p k || q k).
Proof. intros [Hv Bv] [Hw Bw]. unfold vec, zlen in *. assert (length v = length w) as Hl by lia. split; [by rewrite OR_length|]. intros j Hj. by rewrite OR_bit, Bv, Bw by (done || lia). Qed.

Lemma vec_ext sec v p q : (forall k, p k = q k) -> vec sec v p -> vec sec v q.
Proof. intros H [Hv Bv]. split; [done|]. intros j Hj. by rewrite Bv. Qed.

Lemma vec_fetch bit sec : 0 <= bit < 2048 -> 0 <= sec <= top -> vec sec (fetch bit sec) (fun k => Z.testbit (Big (bloom k)) bit).
Proof. intros Hb Hs. exact (Hf bit sec Hb Hs). Qed.

Definition all (bits : list Z) (k : Z) : bool := forallb (fun bit => Z.testbit (Big (bloom k)) bit) bits.
Definition any (rule : list (list Z)) (k : Z) : bool := existsb (fun bits => all bits k) rule.

Lemma andVector_run sec bits : 0 <= sec <= top -> bits <> [] -> Forall (fun i => 0 <= i < 2048) bits -> exists v, andVector fetch m sec bits = Some v /\ vec sec v (all bits).
Proof.
  intros Hs Hne Hb. destruct bits as [|b bits]; [done|]. apply Forall_cons in Hb as [Hb Hbits]. unfold andVector. cbn [foldl].
  assert (vec sec (copyTo (size / 8) (fetch b sec)) (all [b])) as H0.
  { destruct (vec_fetch b sec Hb Hs) as [Hl Hv]. assert (copyTo (size / 8) (fetch b sec) = fetch b sec) as ->.
    { unfold copyTo, zlen in *. rewrite take_ge by lia. replace (Z.to_nat (size / 8) - length (fetch b sec))%nat with 0%nat by lia. apply app_nil_r. }
    eapply vec_ext; [|exact (vec_fetch b sec Hb Hs)]. intros k. cbn. by rewrite andb_true_r. }
  clear Hne. change (b :: bits) with ([b] ++ bits). generalize dependent [b]. generalize (copyTo (size / 8) (fetch b sec)). induction Hbits as [|c bits Hc _ IH]; intros v acc Hv; [exists v; by rewrite app_nil_r|].
  cbn [foldl]. destruct (IH (ANDBytes v (fetch c sec)) (acc ++ [c])) as (w & E & Hw).
  { eapply vec_ext; [|exact (vec_and sec _ _ _ _ Hv (vec_fetch c sec Hc Hs))]. intros k. unfold all. rewrite forallb_app. cbn. by rewrite andb_true_r. }
  exists w. split; [done|]. by rewrite <- app_assoc in Hw.
Qed.

Lemma orVector_run sec rule : 0 <= sec <= top -> rule <> [] -> Forall (fun l => l <> [] /\ Forall (fun i => 0 <= i < 2048) l) rule -> exists v, orVector fetch m sec rule = Some v /\ vec sec v (any rule).
Proof.
  intros Hs Hne Hb. destruct rule as [|b rule]; [done|]. apply Forall_cons in Hb as [[Hb1 Hb2] Hrule]. unfold orVector. cbn [foldl]. destruct (andVector_run sec b Hs Hb1 Hb2) as (v & -> & Hv).
  assert (vec sec v (any [b])) as H0 by (eapply vec_ext; [|exact Hv]; intros k; cbn; by rewrite orb_false_r).
  change (b :: rule) with ([b] ++ rule). clear Hne Hv Hb1 Hb2. generalize dependent [b]. generalize v. clear v b. induction Hrule as [|c rule [Hc1 Hc2] _ IH]; intros v acc Hv; [exists v; by rewrite app_nil_r|].
  cbn [foldl]. destruct (andVector_run sec c Hs Hc1 Hc2) as (w & -> & Hw). cbn [default]. destruct (IH (ORBytes v w) (acc ++ [c])) as (u & E & Hu).
  { eapply vec_ext; [|exact (vec_or sec _ _ _ _ Hv Hw)]. intros k. unfold any. rewrite existsb_app. cbn. by rewrite orb_false_r. }
  exists u. split; [done|]. by rewrite <- app_assoc in Hu.
Qed.

Lemma any_hits rule k : any rule k = bool_decide (hits (bloom k) rule).
Proof.
  unfold any, all, hits. induction rule as [|b rule IH]; [by rewrite bool_decide_false by (by intros ?%Exists_nil)|]. cbn. rewrite IH.
  assert (forallb (fun bit => Z.testbit (Big (bloom k)) bit) b = bool_decide (Forall (fun i => Z.testbit (Big (bloom k)) i = true) b)) as ->.
  { apply Bool.eq_true_iff_eq. rewrite forallb_forall, bool_decide_eq_true, Forall_forall. by setoid_rewrite list_elem_of_In. }
  apply Bool.eq_true_iff_eq. rewrite orb_true_iff, !bool_decide_eq_true, Exists_cons. done.
Qed.

(** *** Sections *)

Context (begin end_ : Z) (Hrange : 0 <= begin <= end_) (Htop : end_ / size <= top) (Hwide : (top + 1) * size + 8 < two64).

(** The blocks of the range that are in a section. *)
Definition lo sec : Z := Z.max begin (sec * size).
Definition hi sec : Z := Z.min end_ (sec * size + size - 1).
Definition blocksOf sec : list Z := seqZ (lo sec) (hi sec - lo sec + 1).
Definition pick (sub : Z * bytes) : list Z := filter (fun i => bitAt sub.2 (i - sub.1 * size) = true) (blocksOf sub.1).
Definition sound (sub : Z * bytes) : Prop := 0 <= sub.1 <= top /\ zlen sub.2 = size / 8.

Lemma blocksOf_in sec i : i ∈ blocksOf sec -> 0 <= i - sec * size < size /\ begin <= i <= end_.
Proof. unfold blocksOf, lo, hi. intros H%elem_of_seqZ. lia. Qed.

Lemma subMatch_pick rule sub : rule ∈ matchFilters m -> sound sub ->
  match subMatch fetch m rule sub with Some r => sound r /\ pick r = filter (fun i => hits (bloom i) rule) (pick sub) | None => filter (fun i => hits (bloom i) rule) (pick sub) = [] end.
Proof.
  intros Hr [Hs Hl]. destruct sub as [sec w]. cbn [fst snd] in *. rewrite Forall_forall in Hrules. destruct (Hrules rule Hr) as [Hne Hb]. destruct (orVector_run sec rule Hs Hne Hb) as (v & Ev & Hv).
  assert (vec sec w (fun k => bitAt w (k - sec * size))) as Hw by (split; [done|]; intros j Hj; f_equal; lia). pose proof (vec_and sec _ _ _ _ Hv Hw) as [Hz Hbit]. unfold subMatch. cbn [fst snd]. rewrite Ev. cbn [from_option id].
  set (u := ANDBytes v w) in *. assert (forall i, i ∈ blocksOf sec -> bitAt u (i - sec * size) = true <-> hits (bloom i) rule /\ bitAt w (i - sec * size) = true) as Hu.
  { intros i [Hi _]%blocksOf_in. rewrite Hbit by done. replace (sec * size + (i - sec * size)) with i by lia. rewrite any_hits, andb_true_iff, bool_decide_eq_true. done. }
  unfold pick. cbn [fst snd]. rewrite list_filter_filter. assert (filter (fun i => hits (bloom i) rule /\ bitAt w (i - sec * size) = true) (blocksOf sec) = filter (fun i => bitAt u (i - sec * size) = true) (blocksOf sec)) as ->.
  { apply filter_ext_in. intros i Hi. symmetry. by apply Hu. }
  destruct (AnySet u) eqn:Ea; [split; [split; [done|exact Hz]|done]|]. destruct (filter _ (blocksOf sec)) as [|i l] eqn:E; [done|]. assert (i ∈ i :: l) as Hi by (by left). rewrite <- E in Hi. apply list_elem_of_filter in Hi as [Hi Hin].
  assert (AnySet u = true) as H; [|congruence]. apply AnySet_spec. exists (i - sec * size). split; [apply blocksOf_in in Hin; lia|done].
Qed.

Lemma omap_pick rule subs : rule ∈ matchFilters m -> Forall sound subs -> Forall sound (omap (subMatch fetch m rule) subs) /\
  concat (pick <$> omap (subMatch fetch m rule) subs) = filter (fun i => hits (bloom i) rule) (concat (pick <$> subs)).
Proof.
  intros Hr Hs. induction Hs as [|sub subs Hsub _ [IH1 IH2]]; [done|]. pose proof (subMatch_pick rule sub Hr Hsub) as H. cbn [fmap list_fmap concat]. rewrite filter_app.
  change (omap (subMatch fetch m rule) (sub :: subs)) with (match subMatch fetch m rule sub with Some r => r :: omap (subMatch fetch m rule) subs | None => omap (subMatch fetch m rule) subs end).
  destruct (subMatch fetch m rule sub) as [r|]; [|by rewrite H]. destruct H as [H1 H2]. split; [by constructor|]. cbn [fmap list_fmap concat]. by rewrite H2, IH2.
Qed.

Lemma pipeline_pick fs subs : fs ⊆ matchFilters m -> Forall sound subs -> let r := foldl (fun subs rule => omap (subMatch fetch m rule) subs) subs fs in
  Forall sound r /\ concat (pick <$> r) = filter (fun i => Forall (hits (bloom i)) fs) (concat (pick <$> subs)).
Proof.
  revert subs. induction fs as [|rule fs IH]; intros subs Hsub Hs; cbv zeta.
  - split; [done|]. cbn [foldl]. symmetry. apply filter_all. by constructor.
  - cbn [foldl]. destruct (omap_pick rule subs) as [S1 E1]; [apply Hsub; by left|done|]. destruct (IH (omap (subMatch fetch m rule) subs)) as [S2 E2]; [intros x Hx; apply Hsub; by right|done|].
    split; [done|]. rewrite E2, E1, list_filter_filter. apply list_filter_iff. intros i. rewrite Forall_cons. tauto.
Qed.

(** Sections cut the range into pieces. *)
Lemma sections_blocks n s b : s * size <= b < s * size + size -> b <= end_ -> end_ / size = s + Z.of_nat n -> (forall sec, s <= sec -> Z.max b (sec * size) = lo sec) ->
  concat (blocksOf <$> seqZ s (Z.of_nat n + 1)) = seqZ b (end_ - b + 1).
Proof.
  revert s b. pose proof (Z.div_mod end_ size ltac:(lia)) as Hd. pose proof (Z.mod_pos_bound end_ size Hsize) as Hm. induction n as [|n IH]; intros s b Hb He Hs Hlo.
  - rewrite seqZ_cons by lia. cbn. unfold blocksOf. rewrite <- Hlo by lia. unfold hi. rewrite Z.max_l, Z.min_l by nia. apply app_nil_r.
  - rewrite seqZ_cons by lia. cbn [fmap list_fmap concat]. replace (Z.pred (Z.of_nat (S n) + 1)) with (Z.of_nat n + 1) by lia. rewrite (IH (Z.succ s) (Z.succ s * size)); [|lia|nia|lia|].
    + unfold blocksOf. rewrite <- Hlo by lia. unfold hi. rewrite Z.max_l, Z.min_r by nia. replace (end_ - b + 1) with ((s * size + size - 1 - b + 1) + (end_ - Z.succ s * size + 1)) by lia.
      rewrite (seqZ_app b (s * size + size - 1 - b + 1)) by nia. do 2 f_equal. nia.
    + intros sec Hsec. rewrite <- (Hlo sec) by lia. rewrite !Z.max_r; nia.
Qed.

(** *** The blocks that are sent *)

Lemma bit_shift sec i : (i - sec * size) mod 8 = i mod 8.
Proof. destruct size_div as [E _]. rewrite E. replace (i - sec * (8 * (size / 8))) with (i + - (sec * (size / 8)) * 8) by lia. apply Z_mod_plus_full. Qed.

Lemma emit_run sec v last fuel i : zlen v = size / 8 -> 0 <= sec <= top -> sec * size <= i -> last < sec * size + size -> last - i + 1 <= Z.of_nat fuel -> i <= last + 8 ->
  emit fuel i last (sec * size) v = Ret (filter (fun k => bitAt v (k - sec * size) = true) (seqZ i (last - i + 1))).
Proof.
  intros Hv Hsec. destruct size_div as [Hs8 _]. assert (sec * size + size + 8 < two64) as Hw by nia. revert i. induction fuel as [|fuel IH]; intros i Hi Hlast Hfuel Hnear.
  - cbn [emit]. by rewrite seqZ_nil by lia.
  - cbn [emit]. destruct (Z.ltb_spec last i) as [Hdone|Hgo]; [by rewrite seqZ_nil by lia|]. set (j := i - sec * size). assert (0 <= j < size) as Hj by lia.
    pose proof (bit_shift sec i) as Hmod. fold j in Hmod. pose proof (Z.div_mod j 8 ltac:(lia)) as Hdj. pose proof (Z.mod_pos_bound j 8 ltac:(lia)) as Hmj. assert (0 <= j / 8 < size / 8) as Hjd by lia.
    assert (0 <= sec * size) by nia. assert (u64 j = j) as -> by (apply u64_id; unfold in_u64; lia).
    destruct (v !! Z.to_nat (j / 8)) as [c|] eqn:Ec; [|apply lookup_ge_None in Ec; unfold zlen in Hv; lia]. rewrite (slice_get_some v (j / 8) c) by (done || lia). cbn [obind].
    assert (bitAt v j = Z.testbit (byte_Z c) (7 - i mod 8)) as Hbit by (unfold bitAt; by rewrite Ec, Hmod). rewrite (seqZ_cons i) by lia. replace (Z.pred (last - i + 1)) with (last - (i + 1) + 1) by lia. change (Z.succ i) with (i + 1).
    destruct (Z.eqb_spec (byte_Z c) 0) as [E0|E0].
    + rewrite E0, Z.bits_0 in Hbit. rewrite filter_cons, decide_False by (fold j; congruence). destruct (Z.eqb_spec (i mod 8) 0) as [Em|Em].
      * rewrite (u64_id (i + 7)), u64_id by (rewrite ?u64_id; unfold in_u64; lia). replace (i + 7 + 1) with (i + 8) by lia. rewrite IH by lia. f_equal. symmetry.
        assert (forall k, i <= k < i + 8 -> ~ bitAt v (k - sec * size) = true) as Hz.
        { intros k Hk. unfold bitAt. assert ((k - sec * size) / 8 = j / 8) as -> by (symmetry; apply (Z.div_unique _ 8 _ (k - i)); lia). by rewrite Ec, E0, Z.bits_0. }
        destruct (Z.le_gt_cases (i + 7) last).
        -- replace (last - (i + 1) + 1) with (7 + (last - (i + 8) + 1)) by lia. rewrite (seqZ_app (i + 1) 7), filter_app by lia. rewrite filter_none by (intros k Hk%elem_of_seqZ; apply Hz; lia).
           by replace (i + 1 + 7) with (i + 8) by lia.
        -- rewrite (seqZ_nil (i + 8)) by lia. apply filter_none. intros k Hk%elem_of_seqZ. apply Hz. lia.
      * rewrite (u64_id (i + 1)) by (unfold in_u64; lia). apply IH; lia.
    + rewrite (u64_id (i + 1)) by (unfold in_u64; lia). rewrite IH by lia. cbn [obind]. rewrite land_bit, negb_involutive, <- Hbit by lia. rewrite filter_cons. fold j. by destruct (bitAt v j).
Qed.

Lemma emitSection_run sub : sound sub -> begin / size <= sub.1 <= end_ / size -> emitSection m begin end_ sub = Ret (pick sub).
Proof.
  intros [Hs Hv] Hin. destruct sub as [sec v]. cbn [fst snd] in *. assert (0 <= sec * size /\ sec * size + size + 8 < two64) as [H0 Hw] by nia.
  pose proof (Z.div_mod end_ size ltac:(lia)). pose proof (Z.mod_pos_bound end_ size Hsize). pose proof (Z.div_mod begin size ltac:(lia)). pose proof (Z.mod_pos_bound begin size Hsize).
  unfold emitSection, pick, blocksOf. cbn [fst snd]. rewrite !u64_id by (rewrite ?u64_id; unfold in_u64; lia). rewrite <- emit_run with (fuel := Z.to_nat (hi sec - lo sec + 1)); [|done|done|..].
  - f_equal; unfold hi, lo; destruct (Z.ltb_spec (sec * size) begin), (Z.ltb_spec end_ (sec * size + size - 1)); lia.
  - unfold lo. lia.
  - unfold hi. lia.
  - lia.
  - unfold hi, lo. nia.
Qed.

Lemma emitAll_run l : Forall (fun sub => sound sub /\ begin / size <= sub.1 <= end_ / size) l -> emitAll m begin end_ l = Ret (concat (pick <$> l)).
Proof. intros H. induction H as [|sub l [H1 H2] _ IH]; [done|]. cbn [emitAll fmap list_fmap concat]. by rewrite (emitSection_run sub H1 H2), IH. Qed.

Lemma pipeline_sections fs subs (P : Z -> Prop) : Forall (fun sub => P sub.1) subs -> Forall (fun sub => P sub.1) (foldl (fun subs rule => omap (subMatch fetch m rule) subs) subs fs).
Proof.
  revert subs. induction fs as [|rule fs IH]; intros subs H; [done|]. cbn [foldl]. apply IH. apply Forall_forall. intros r (sub & Hsub & E)%list_elem_of_omap. unfold subMatch in E.
  destruct (AnySet _); [|done]. injection E as <-. cbn. rewrite Forall_forall in H. by apply H.
Qed.

(** The session sends the numbers of the blocks that have a clause of every rule. *)
Lemma Start_run : Start fetch m begin end_ = Ret (filter (fun i => Forall (hits (bloom i)) (matchFilters m)) (seqZ begin (end_ - begin + 1))).
Proof.
  unfold Start, run. rewrite (proj2 (Z.eqb_neq _ _)) by lia. cbn [obind]. set (n := end_ / size - begin / size + 1). set (full := replicate (Z.to_nat (size / 8)) (Z_byte 255)). destruct size_div as [Hs8 Hsn].
  assert (0 <= begin / size) as Hb0 by (apply Z.div_pos; lia). assert (begin / size <= end_ / size) as Hbe by (apply Z.div_le_mono; lia).
  set (source := (fun i => (i, full)) <$> seqZ (begin / size) n). assert (Forall (fun sub => sound sub /\ begin / size <= sub.1 <= end_ / size) source) as Hsrc.
  { apply Forall_forall. intros sub (i & -> & Hi%elem_of_seqZ)%list_elem_of_fmap. unfold n in Hi. unfold sound. cbn. unfold full, zlen. rewrite length_replicate. lia. }
  assert (concat (pick <$> source) = seqZ begin (end_ - begin + 1)) as Epick.
  { rewrite <- (sections_blocks (Z.to_nat (n - 1)) (begin / size) begin); [|pose proof (Z.div_mod begin size ltac:(lia)); pose proof (Z.mod_pos_bound begin size Hsize); lia|lia|unfold n; lia|done].
    replace (Z.of_nat (Z.to_nat (n - 1)) + 1) with n by (unfold n; lia). unfold source. rewrite <- list_fmap_compose. f_equal. apply list_fmap_ext. intros k sec _. unfold compose, pick. cbn [fst snd].
    rewrite (filter_ext_in _ (fun _ => True)), filter_all; [done..|]. intros i [Hi _]%blocksOf_in. split; [done|intros _]. apply bitAt_ones; lia. }
  destruct (pipeline_pick (matchFilters m) source) as [S1 E1]; [done|by eapply Forall_impl; [exact Hsrc|]; cbn; intros ? [? _]|]. rewrite emitAll_run.
  - by rewrite E1, Epick.
  - apply Forall_and. split; [done|]. apply (pipeline_sections _ _ (fun i => begin / size <= i <= end_ / size)). eapply Forall_impl; [exact Hsrc|]. by intros ? [_ ?].
Qed.
End Run.

(** *** The index of a chain *)

(** The vectors of the sections up to [top], generated from the filters of the blocks. *)
Definition generated (bloom : Z -> bytes) (fetch : Z -> Z -> bytes) (size top : Z) : Prop := forall sec, 0 <= sec <= top -> exists g0 g,
  NewGenerator size = inl g0 /\ addAll 0 (bloom <$> seqZ (sec * size) size) g0 = Ret (g, None) /\ forall bit, 0 <= bit < 2048 -> Bitset g bit = Ret (inl (fetch bit sec)).

Lemma generated_fetched bloom fetch m top : 0 < sectionSize m -> sectionSize m mod 8 = 0 -> (forall n, 0 <= n < (top + 1) * sectionSize m -> zlen (bloom n) = 256) ->
  generated bloom fetch (sectionSize m) top -> fetched bloom fetch m top.
Proof.
  intros Hp H8 Hl Hg bit sec Hb Hs. set (size := sectionSize m) in *. set (bs := bloom <$> seqZ (sec * size) size).
  assert (zlen bs = size) as Hn by (unfold bs, zlen; rewrite length_fmap, length_seqZ; lia).
  destruct (generate size bs H8 Hn) as (h0 & h & E0 & E & T & S). { apply Forall_forall. intros b (n & -> & Hin%elem_of_seqZ)%list_elem_of_fmap. apply Hl. nia. }
  destruct (Hg sec Hs) as (g0 & g & E0' & E' & Hrow). fold bs in E'. rewrite E0 in E0'. injection E0' as <-. rewrite E in E'. injection E' as <-.
  destruct (Bitset_row bs h bit T ltac:(congruence) Hb) as (row & Er & Hz & Hbit). rewrite (Hrow bit Hb) in Er. injection Er as ->. rewrite S in Hz. split; [done|]. intros j Hj.
  rewrite <- (Z2Nat.id j) by lia. apply Hbit. unfold bs. rewrite list_lookup_fmap, lookup_seqZ_lt by lia. done.
Qed.

(** A session sends the numbers of the blocks of the range whose filter passes. *)
Lemma Start_passes bloom fetch size addresses topics begin end_ : 0 < size -> size mod 8 = 0 -> 0 <= begin <= end_ -> (end_ / size + 1) * size + 8 < two64 ->
  (forall n, 0 <= n < (end_ / size + 1) * size -> zlen (bloom n) = 256) -> generated bloom fetch size (end_ / size) -> exists m, NewMatcher size (rangeRules addresses topics) = Ret m /\
  Start fetch m begin end_ = Ret (filter (fun n => passes (bloom n) addresses topics) (seqZ begin (end_ - begin + 1))).
Proof.
  intros Hp H8 Hr Hw Hl Hg. destruct (NewMatcher_run size addresses topics) as (m & E & <- & Hrules & Hpass). exists m. split; [done|].
  rewrite (Start_run bloom fetch m (end_ / sectionSize m)) by (done || by apply generated_fetched). f_equal. apply list_filter_iff. intros i. symmetry. apply Hpass.
Qed.

(** The sessions of a range filter: its matcher with the vectors of the index. *)
Definition indexSession (fetch : Z -> Z -> bytes) (size : Z) (f : filters.Filter) (b e : Z) : (list Z * option string) + string :=
  match (let! m := NewMatcher size (rangeRules (filters.addresses f) (filters.topics f)) in Start fetch m b e) with Ret ms => inl (ms, None) | Panic why => inr why end.

(** C11: The search for logs is exact.  A node serves a chain whose headers have the
    filters of their receipts, and the matcher searches the index that was generated from
    these filters.  Then the logs of a range are those of its blocks that match the
    addresses and the topics, all of them and in order, and the next search starts behind
    the range: neither the filters nor the index loses or adds a log. *)
Theorem Logs_exact backend header receipts head fetch size sections f : serves backend header receipts head -> filters.BloomStatus backend = (size, sections) ->
  0 < size -> size mod 8 = 0 -> 0 <= sections -> sections * size <= head + 1 -> generated (fun n => Header.Bloom (header n)) fetch size (sections - 1) ->
  (forall b e, filters.Session backend b e = indexSession fetch size f b e) -> filters.block f = zeroHash -> 0 <= first head f <= last head f -> last head f <= head ->
  filters.Logs backend f = Ret (foundFrom receipts f (first head f) (last head f), None, filters.set_begin f (last head f + 1)).
Proof.
  intros Hs Hst Hp H8 Hsec Hcover Hg Hsession Hb Hf Hl. pose proof (sv_head _ _ _ _ Hs) as Hh. apply (Logs_run backend header receipts head Hs f); [|done..]. intros b e Hbe He Hlt. rewrite Hst in Hlt. cbn [fst snd] in Hlt.
  rewrite u64_id in Hlt by (unfold in_u64, two64; lia). assert (e / size <= sections - 1) as Hes by (assert (e / size < sections) by (apply Z.div_lt_upper_bound; lia); lia).
  destruct (Start_passes (fun n => Header.Bloom (header n)) fetch size (filters.addresses f) (filters.topics f) b e) as (m & Em & Es); [done|done|done|unfold two64; nia| | |].
  - intros n Hn. destruct (CreateBloom_run (receipts n)) as (bl & E & Hlen & _). rewrite (sv_bloom _ _ _ _ Hs) in E by nia. injection E as ->. done.
  - intros sec Hsc. apply Hg. lia.
  - eexists. rewrite Hsession. unfold indexSession. rewrite Em. cbn [obind]. rewrite Es. split; [done|]. split; [apply sublist_filter|]. intros n Hn Hpass. apply list_elem_of_filter. split; [done|]. apply elem_of_seqZ. lia.
Qed.
End MatcherFacts.

(** ** Examples *)

Module BloomDemo.
(** A hash that pads, and vectors byte by byte. *)
#[global] Instance crypto : CryptoLib := {| Keccak256 b := take 32 (b ++ replicate 32 Byte.x00) |}.
#[global] Instance crypto_laws : CryptoLaws crypto.
Proof. split. intros b. cbn [Keccak256 crypto]. rewrite length_take, length_app, length_replicate. lia. Qed.

#[global] Instance vectors : BitLib := {|
  ANDBytes := zip_with (fun x y => Z_byte (Z.land (byte_Z x) (byte_Z y)));
  ORBytes := zip_with (fun x y => Z_byte (Z.lor (byte_Z x) (byte_Z y)));
  AnySet := existsb (fun c => negb (byte_Z c =? 0))
|}.

Lemma zip_bit (f : Z -> Z -> Z) (g : bool -> bool -> bool) v w j : (forall x y, 0 <= x < 256 -> 0 <= y < 256 -> 0 <= f x y < 256) -> (forall x y k, Z.testbit (f x y) k = g (Z.testbit x k) (Z.testbit y k)) -> g false false = false ->
  length v = length w -> bitAt (zip_with (fun x y => Z_byte (f (byte_Z x) (byte_Z y))) v w) j = g (bitAt v j) (bitAt w j).
Proof.
  intros Hf Hg Hgf Hl. unfold bitAt. rewrite lookup_zip_with. destruct (v !! _) as [x|] eqn:Ex, (w !! _) as [y|] eqn:Ey; cbn; [|apply lookup_lt_Some in Ex; apply lookup_ge_None in Ey; lia|apply lookup_lt_Some in Ey; apply lookup_ge_None in Ex; lia|done].
  rewrite byte_Z_of by (apply Hf; apply byte_Z_range). apply Hg.
Qed.

Lemma land_byte x y : 0 <= x < 256 -> 0 <= y < 256 -> 0 <= Z.land x y < 256.
Proof. intros Hx Hy. split; [apply Z.land_nonneg; lia|]. assert (Z.land x y <= x) by (apply bits_le; [lia|unfold bits; apply Z.bits_inj'; intros n _; rewrite !Z.land_spec; by destruct (Z.testbit x n), (Z.testbit y n)]). lia. Qed.

#[global] Instance vector_laws : BitLaws vectors.
Proof.
  split; cbn [ANDBytes ORBytes AnySet vectors].
  - intros v w Hl. rewrite length_zip_with. lia.
  - intros v w j Hl _. apply (zip_bit Z.land andb); [apply land_byte|apply Z.land_spec|done|done].
  - intros v w Hl. rewrite length_zip_with. lia.
  - intros v w j Hl _. apply (zip_bit Z.lor orb); [by intros; apply (lor_below _ _ 8)|apply Z.lor_spec|done|done].
  - intros v. rewrite existsb_exists. setoid_rewrite <- list_elem_of_In. split.
    + intros (c & (i & Hi)%list_elem_of_lookup & Hc%negb_true_iff%Z.eqb_neq). pose proof (byte_Z_range c). set (k := Z.log2 (byte_Z c)). assert (0 <= k < 8) as Hk by (split; [apply Z.log2_nonneg|apply Z.log2_lt_pow2; lia]).
      exists (8 * Z.of_nat i + (7 - k)). split; [lia|]. unfold bitAt. assert ((8 * Z.of_nat i + (7 - k)) / 8 = Z.of_nat i) as -> by (symmetry; apply (Z.div_unique _ 8 _ (7 - k)); lia).
      assert ((8 * Z.of_nat i + (7 - k)) mod 8 = 7 - k) as -> by (symmetry; apply (Z.mod_unique _ 8 (Z.of_nat i)); lia). rewrite Nat2Z.id, Hi.
      replace (7 - (7 - k)) with k by lia. apply Z.bit_log2. lia.
    + intros (j & Hj & H). unfold bitAt in H. destruct (v !! Z.to_nat (j / 8)) as [c|] eqn:E; [|done]. exists c. split; [by eapply list_elem_of_lookup_2|]. apply negb_true_iff, Z.eqb_neq. intros E0. by rewrite E0, Z.bits_0 in H.
Qed.

(** The index of a chain, as the generator makes it. *)
Definition index (bloom : Z -> bytes) (size bit sec : Z) : bytes :=
  match bloombits.NewGenerator size with
  | inl g0 =>
      match addAll 0 (bloom <$> seqZ (sec * size) size) g0 with
      | Ret (g, _) => match bloombits.Bitset g bit with Ret (inl row) => row | _ => [] end
      | Panic _ => []
      end
  | inr _ => []
  end.

Lemma index_generated bloom size top : 0 < size -> size mod 8 = 0 -> (forall n, 0 <= n -> zlen (bloom n) = 256) -> generated bloom (index bloom size) size top.
Proof.
  intros Hp H8 Hl sec Hs. set (bs := bloom <$> seqZ (sec * size) size). assert (zlen bs = size) as Hn by (unfold bs, zlen; rewrite length_fmap, length_seqZ; lia).
  destruct (generate size bs H8 Hn) as (g0 & g & E0 & E & T & S). { apply Forall_forall. intros b (n & -> & Hin%elem_of_seqZ)%list_elem_of_fmap. apply Hl. nia. }
  exists g0, g. split; [done|]. split; [done|]. intros bit Hb. destruct (Bitset_row bs g bit T ltac:(congruence) Hb) as (row & Er & _). unfold index. rewrite E0. fold bs. by rewrite E, Er.
Qed.

(** A chain of ten blocks, the first eight of which are indexed; blocks 3 and 9 have a
    log of [alice]. *)
Definition alice : bytes := replicate 20 Byte.x07.
Definition topic : bytes := replicate 32 Byte.x09.
Definition logOf (n : Z) : Log.t := Log.mk alice [topic] [] n (replicate 32 Byte.x01) 0 [] 0 false.
Definition receipts (n : Z) : list Receipt.t := if (n =? 3) || (n =? 9) then [Receipt.mk None 1 0 [] [logOf n] [] None 0 [] n 0] else [].
Definition bloomOf (n : Z) : bytes := match types.CreateBloom (receipts n) with Ret b => b | Panic _ => [] end.
Definition header (n : Z) : Header.t := Header.mk zeroHash n 0 0 0 (bloomOf n).

Definition wanted : filters.Filter := filters.mkFilter [alice] [[topic]] zeroHash 0 (-1).

Definition node : filters.Backend := {|
  filters.HeaderHash h := bigBytes (Header.Number h);
  filters.HeaderByNumber n := (Some (header (if n =? -1 then 9 else n)), None);
  filters.HeaderByHash h := (Some (header (fromBytes h)), None);
  filters.GetReceipts h := inl (receipts (fromBytes h));
  filters.GetLogs h := inl (Receipt.Logs <$> receipts (fromBytes h));
  filters.BloomStatus := (8, 1);
  filters.Session := indexSession (index bloomOf 8) 8 wanted
|}.

Lemma bloomOf_run n : types.CreateBloom (receipts n) = Ret (bloomOf n) /\ zlen (bloomOf n) = 256.
Proof. unfold bloomOf. by destruct (CreateBloom_run (receipts n)) as (b & -> & Hl & _). Qed.

Lemma node_serves : serves node header receipts 9.
Proof.
  split; try done.
  - by eexists.
  - intros n Hn. cbn. by rewrite (proj2 (Z.eqb_neq _ _)) by lia.
  - intros n Hn. cbn [node filters.GetLogs filters.HeaderHash header Header.Number]. by rewrite fromBytes_bigBytes by lia.
  - intros n Hn. cbn [node filters.GetReceipts filters.HeaderHash header Header.Number]. by rewrite fromBytes_bigBytes by lia.
  - intros n _. apply bloomOf_run.
Qed.

Lemma node_index : generated (fun n => Header.Bloom (header n)) (index bloomOf 8) 8 0.
Proof. apply index_generated; [done|done|]. intros n _. apply bloomOf_run. Qed.
End BloomDemo.

Section Examples.
Import BloomDemo.

Lemma Logs_exact_witness : filters.Logs node wanted = Ret (foundFrom receipts wanted 0 9, None, filters.set_begin wanted 10) /\ foundFrom receipts wanted 0 9 = [logOf 3; logOf 9].
Proof.
  split; [exact (Logs_exact node header receipts 9 (index bloomOf 8) 8 1 wanted node_serves eq_refl eq_refl eq_refl ltac:(lia) ltac:(lia) node_index (fun _ _ => eq_refl) eq_refl ltac:(done) ltac:(done))|].
  by vm_compute.
Defined.

Lemma Generator_transposes_witness : exists g0 g, bloombits.NewGenerator 8 = inl g0 /\ addAll 0 (bloomOf <$> seqZ 0 8) g0 = Ret (g, None) /\
  (forall idx, 0 <= idx < 2048 -> exists row, bloombits.Bitset g idx = Ret (inl row) /\ zlen row = 1 /\ forall j b, (bloomOf <$> seqZ 0 8) !! j = Some b -> bitAt row (Z.of_nat j) = Z.testbit (types.Big b) idx) /\
  forall bloom, bloombits.AddBloom g 8 bloom = Ret (g, Some "section out of bounds"%string).
Proof. refine (Generator_transposes 8 (bloomOf <$> seqZ 0 8) eq_refl eq_refl _). apply Forall_fmap, Forall_forall. intros n _. apply bloomOf_run. Defined.

Lemma CreateBloom_complete_witness : exists b, types.CreateBloom (receipts 3) = Ret b /\ zlen b = 256 /\
  forall r log x, r ∈ receipts 3 -> log ∈ Receipt.Logs r -> x ∈ items log -> types.BloomLookup b x = Ret true.
Proof. exact (CreateBloom_complete (receipts 3)). Defined.

Lemma Add_Test_witness : exists b', types.Add (bloomOf 3) 5 = Ret b' /\ zlen b' = 256 /\ types.Test b' 5 = Ret true /\ forall x, types.BloomLookup (bloomOf 3) x = Ret true -> types.BloomLookup b' x = Ret true.
Proof. exact (Add_Test (bloomOf 3) 5 (proj2 (bloomOf_run 3))). Defined.
End Examples.
