(* ===== verification/EvmData.v ===== *)
(** * Data of the virtual machine

    [core/vm]: words, the operand stack, memory, jump analysis, contracts, and the
    state of the machine.  A [uint256.Int] is the integer it denotes; its methods,
    [common], [common/math], [crypto] and the precompiled contracts other than the
    copy of data are the class [EvmLib]. *)

From S2P Require Import Prelude GoStd Effects StateDB.

(** ** What the package calls *)

(** [github.com/holiman/uint256]. *)
Module uint256.
Class Lib := {
  Add : Z -> Z -> Z; Sub : Z -> Z -> Z; Mul : Z -> Z -> Z; Div : Z -> Z -> Z; SDiv : Z -> Z -> Z;
  Mod : Z -> Z -> Z; SMod : Z -> Z -> Z; Exp : Z -> Z -> Z; ExtendSign : Z -> Z -> Z;
  And : Z -> Z -> Z; Or : Z -> Z -> Z; Xor : Z -> Z -> Z; Not : Z -> Z; Byte : Z -> Z -> Z;
  AddMod : Z -> Z -> Z -> Z; MulMod : Z -> Z -> Z -> Z;
  Lsh : Z -> Z -> Z; Rsh : Z -> Z -> Z; SRsh : Z -> Z -> Z; AllOne : Z;
  Lt : Z -> Z -> bool; Gt : Z -> Z -> bool; Slt : Z -> Z -> bool; Sgt : Z -> Z -> bool; Eq : Z -> Z -> bool;
  Sign : Z -> Z; BitLen : Z -> Z;
  Uint64 : Z -> Z; IsUint64 : Z -> bool;
  SetBytes : bytes -> Z; Bytes20 : Z -> bytes; Bytes32 : Z -> bytes; WriteToSlice : Z -> bytes -> bytes;
  FromBig : Z -> Z
}.

Definition word (z : Z) : Prop := 0 <= z < 2 ^ 256.

Class Laws (L : Lib) := {
  Add_eq : forall x y, word x -> word y -> Add x y = (x + y) mod 2 ^ 256;
  Uint64_eq : forall x, word x -> Uint64 x = u64 x;
  IsUint64_eq : forall x, word x -> IsUint64 x = (x <? two64);
  Sign_eq : forall x, word x -> (Sign x =? 0) = (x =? 0);
  BitLen_range : forall x, word x -> 0 <= BitLen x <= 256;
  Bytes32_length : forall x, length (Bytes32 x) = 32%nat;
  Bytes32_zero : forall x, word x -> Bytes32 x = zeroHash <-> x = 0;
  WriteToSlice_length : forall x b, length (WriteToSlice x b) = length b;
  words2 : forall f, f ∈ [Add; Sub; Mul; Div; SDiv; Mod; SMod; Exp; ExtendSign; And; Or; Xor; Byte] -> forall x y, word x -> word y -> word (f x y);
  words3 : forall f, f ∈ [AddMod; MulMod] -> forall x y z, word x -> word y -> word z -> word (f x y z);
  words_shift : forall f, f ∈ [Lsh; Rsh; SRsh] -> forall x n, word x -> word (f x n);
  word_Not : forall x, word x -> word (Not x);
  word_AllOne : word AllOne;
  word_SetBytes : forall b, word (SetBytes b);
  word_FromBig : forall z, word (FromBig z)
}.
End uint256.

(** A precompiled contract returns bytes of its own, or the slice it was given. *)
Inductive output := Fresh (b : bytes) | Input.

(** ** Errors *)

Inductive vmError :=
| ErrInvalidSubroutineEntry | ErrOutOfGas | ErrCodeStoreOutOfGas | ErrDepth | ErrInsufficientBalance
| ErrContractAddressCollision | ErrExecutionReverted | ErrMaxCodeSizeExceeded | ErrInvalidJump | ErrWriteProtection
| ErrReturnDataOutOfBounds | ErrGasUintOverflow | ErrInvalidRetsub | ErrReturnStackExceeded
| ErrStackUnderflow (stackLen required : Z) | ErrStackOverflow (stackLen limit : Z) | ErrInvalidOpCode (opcode : Z)
| ErrSentry | ErrPrecompile (why : string).

#[global] Instance vmError_eq_dec : EqDecision vmError.
Proof. solve_decision. Defined.

Module PrecompiledContract.
Record t := mk { RequiredGas : bytes -> Z; Run : bytes -> output * option vmError }.
End PrecompiledContract.

(** ** The rules of a block *)

Module Rules.
Record t := mk {
  ChainID : Z; IsHomestead : bool; IsEIP150 : bool; IsEIP155 : bool; IsEIP158 : bool; IsByzantium : bool;
  IsConstantinople : bool; IsPetersburg : bool; IsIstanbul : bool; IsYoloV1 : bool
}.
End Rules.

Module ChainConfig.
Record t := mk {
  ChainID : option Z; HomesteadBlock : option Z; EIP150Block : option Z; EIP155Block : option Z; EIP158Block : option Z;
  ByzantiumBlock : option Z; ConstantinopleBlock : option Z; PetersburgBlock : option Z; IstanbulBlock : option Z; YoloV1Block : option Z
}.

Definition isForked (s : option Z) (head : Z) : bool := match s with None => false | Some b => b <=? head end.

Definition IsPetersburg (c : t) (num : Z) : bool :=
  isForked (PetersburgBlock c) num || bool_decide (PetersburgBlock c = None) && isForked (ConstantinopleBlock c) num.

Definition toRules (c : t) (num : Z) : Rules.t :=
  Rules.mk (default 0 (ChainID c)) (isForked (HomesteadBlock c) num) (isForked (EIP150Block c) num) (isForked (EIP155Block c) num)
    (isForked (EIP158Block c) num) (isForked (ByzantiumBlock c) num) (isForked (ConstantinopleBlock c) num)
    (IsPetersburg c num) (isForked (IstanbulBlock c) num) (isForked (YoloV1Block c) num).
End ChainConfig.

(** The rest of what the package calls.  [abort n] is what the [n]-th look at the
    flag that [Cancel] sets returns: another goroutine may set it at any time. *)
Class EvmLib := {
  #[global] evm_words :: uint256.Lib;
  RightPadBytes : bytes -> Z -> bytes;
  SafeMul : Z -> Z -> Z * bool;
  SafeAdd : Z -> Z -> Z * bool;
  CreateAddress : bytes -> Z -> bytes;
  CreateAddress2 : bytes -> bytes -> bytes -> bytes;
  otherPrecompile : Rules.t -> bytes -> option PrecompiledContract.t;
  abort : nat -> bool
}.

Class EvmLaws (L : EvmLib) := {
  #[global] evm_word_laws :: uint256.Laws evm_words;
  RightPadBytes_eq : forall b l, RightPadBytes b l = b ++ replicate (Z.to_nat (l - zlen b)) Byte.x00;
  SafeMul_eq : forall x y, in_u64 x -> in_u64 y -> SafeMul x y = (u64 (x * y), negb (x * y <? two64));
  SafeAdd_eq : forall x y, in_u64 x -> in_u64 y -> SafeAdd x y = (u64 (x + y), negb (x + y <? two64));
  precompile_gas : forall r a p input, otherPrecompile r a = Some p -> in_u64 (PrecompiledContract.RequiredGas p input);
  precompile_output : forall r a p input b err, otherPrecompile r a = Some p -> PrecompiledContract.Run p input = (Fresh b, err) -> zlen b < 2 ^ 62
}.

(** ** Parameters *)

Module params.
Abbreviation CallValueTransferGas := 9000 (only parsing).
Abbreviation CallNewAccountGas := 25000 (only parsing).
Abbreviation TxGas := 21000 (only parsing).
Abbreviation TxGasContractCreation := 53000 (only parsing).
Abbreviation TxDataZeroGas := 4 (only parsing).
Abbreviation QuadCoeffDiv := 512 (only parsing).
Abbreviation LogDataGas := 8 (only parsing).
Abbreviation CallStipend := 2300 (only parsing).
Abbreviation Sha3Gas := 30 (only parsing).
Abbreviation Sha3WordGas := 6 (only parsing).
Abbreviation SstoreSetGas := 20000 (only parsing).
Abbreviation SstoreResetGas := 5000 (only parsing).
Abbreviation SstoreClearGas := 5000 (only parsing).
Abbreviation SstoreRefundGas := 15000 (only parsing).
Abbreviation NetSstoreNoopGas := 200 (only parsing).
Abbreviation NetSstoreInitGas := 20000 (only parsing).
Abbreviation NetSstoreCleanGas := 5000 (only parsing).
Abbreviation NetSstoreDirtyGas := 200 (only parsing).
Abbreviation NetSstoreClearRefund := 15000 (only parsing).
Abbreviation NetSstoreResetRefund := 4800 (only parsing).
Abbreviation NetSstoreResetClearRefund := 19800 (only parsing).
Abbreviation SstoreSentryGasEIP2200 := 2300 (only parsing).
Abbreviation SstoreNoopGasEIP2200 := 800 (only parsing).
Abbreviation SstoreDirtyGasEIP2200 := 800 (only parsing).
Abbreviation SstoreInitGasEIP2200 := 20000 (only parsing).
Abbreviation SstoreInitRefundEIP2200 := 19200 (only parsing).
Abbreviation SstoreCleanGasEIP2200 := 5000 (only parsing).
Abbreviation SstoreCleanRefundEIP2200 := 4200 (only parsing).
Abbreviation SstoreClearRefundEIP2200 := 15000 (only parsing).
Abbreviation JumpdestGas := 1 (only parsing).
Abbreviation CreateDataGas := 200 (only parsing).
Abbreviation CallCreateDepth := 1024 (only parsing).
Abbreviation ExpGas := 10 (only parsing).
Abbreviation LogGas := 375 (only parsing).
Abbreviation CopyGas := 3 (only parsing).
Abbreviation StackLimit := 1024 (only parsing).
Abbreviation LogTopicGas := 375 (only parsing).
Abbreviation CreateGas := 32000 (only parsing).
Abbreviation Create2Gas := 32000 (only parsing).
Abbreviation SelfdestructRefundGas := 24000 (only parsing).
Abbreviation MemoryGas := 3 (only parsing).
Abbreviation TxDataNonZeroGasFrontier := 68 (only parsing).
Abbreviation TxDataNonZeroGasEIP2028 := 16 (only parsing).
Abbreviation CallGasFrontier := 40 (only parsing).
Abbreviation CallGasEIP150 := 700 (only parsing).
Abbreviation BalanceGasFrontier := 20 (only parsing).
Abbreviation BalanceGasEIP150 := 400 (only parsing).
Abbreviation BalanceGasEIP1884 := 700 (only parsing).
Abbreviation ExtcodeSizeGasFrontier := 20 (only parsing).
Abbreviation ExtcodeSizeGasEIP150 := 700 (only parsing).
Abbreviation SloadGasFrontier := 50 (only parsing).
Abbreviation SloadGasEIP150 := 200 (only parsing).
Abbreviation SloadGasEIP1884 := 800 (only parsing).
Abbreviation SloadGasEIP2200 := 800 (only parsing).
Abbreviation ExtcodeHashGasConstantinople := 400 (only parsing).
Abbreviation ExtcodeHashGasEIP1884 := 700 (only parsing).
Abbreviation SelfdestructGasEIP150 := 5000 (only parsing).
Abbreviation ExpByteFrontier := 10 (only parsing).
Abbreviation ExpByteEIP158 := 50 (only parsing).
Abbreviation ExtcodeCopyBaseFrontier := 20 (only parsing).
Abbreviation ExtcodeCopyBaseEIP150 := 700 (only parsing).
Abbreviation CreateBySelfdestructGas := 25000 (only parsing).
Abbreviation MaxCodeSize := 24576 (only parsing).
Abbreviation IdentityBaseGas := 15 (only parsing).
Abbreviation IdentityPerWordGas := 3 (only parsing).
Abbreviation GasQuickStep := 2 (only parsing).
Abbreviation GasFastestStep := 3 (only parsing).
Abbreviation GasFastStep := 5 (only parsing).
Abbreviation GasMidStep := 8 (only parsing).
Abbreviation GasSlowStep := 10 (only parsing).
Abbreviation GasExtStep := 20 (only parsing).
End params.

(** ** Slices *)

(** [b[lo:hi]]. *)
Definition slice_range (b : bytes) (lo hi : Z) : outcome bytes :=
  if (0 <=? lo) && (lo <=? hi) && (hi <=? zlen b) then Ret (take (Z.to_nat (hi - lo)) (drop (Z.to_nat lo) b))
  else Panic "slice bounds out of range".

(** [copy(b[lo:], src)]: as many bytes as there are and as there is room for. *)
Definition copy_at (b : bytes) (lo : nat) (src : bytes) : bytes :=
  take (length b) (take lo b ++ src ++ drop (lo + length src) b).

(** A result of an instruction: bytes of its own, or a part of the memory of the
    frame, which still changes with it. *)
Inductive slice := Own (b : bytes) | Ptr (offset size : Z).

(** ** The stack

    The list has the top first; [data[len-1]] is its head. *)
Module Stack.
Abbreviation t := (list Z).

Definition push (d : Z) (st : t) : t := d :: st.
Definition pop (st : t) : outcome (Z * t) :=
  match st with [] => Panic "index out of range" | x :: st' => Ret (x, st') end.
Definition Back (st : t) (n : Z) : outcome Z := slice_get st n.
Definition poke (d : Z) (st : t) : outcome t := slice_set st 0 d.
Definition dup (n : Z) (st : t) : outcome t := let! x := slice_get st (n - 1) in Ret (push x st).
Definition swap (n : Z) (st : t) : outcome t :=
  let! x := slice_get st (n - 1) in
  let! y := slice_get st 0 in
  let! st := slice_set st (n - 1) y in
  slice_set st 0 x.
End Stack.

(** ** Memory *)

Module Memory.
Record t := mk { store : bytes; lastGasCost : Z }.

Definition NewMemory : t := mk [] 0.
Definition Len (m : t) : Z := zlen (store m).

Definition Set_ (m : t) (offset size : Z) (value : bytes) : outcome t :=
  if 0 <? size then
    if Len m <? u64 (offset + size) then Panic "invalid memory: store empty"
    else
      let! part := slice_range (store m) offset (u64 (offset + size)) in
      Ret (mk (copy_at (store m) (Z.to_nat offset) (take (length part) value)) (lastGasCost m))
  else Ret m.

Definition Set32 {L : uint256.Lib} (m : t) (offset : Z) (val : Z) : outcome t :=
  if Len m <? u64 (offset + 32) then Panic "invalid memory: store empty"
  else
    let! _ := slice_range (store m) offset (u64 (offset + 32)) in
    let cleared := copy_at (store m) (Z.to_nat offset) (replicate 32 Byte.x00) in
    Ret (mk (take (Z.to_nat offset) cleared ++ uint256.WriteToSlice val (drop (Z.to_nat offset) cleared)) (lastGasCost m)).

Definition Resize (m : t) (size : Z) : t :=
  if Len m <? size then mk (store m ++ replicate (Z.to_nat (size - Len m)) Byte.x00) (lastGasCost m) else m.

(** A copy of the part, nil when it is empty or begins beyond the end. *)
Definition GetCopy (m : t) (offset size : Z) : outcome bytes :=
  if size =? 0 then Ret []
  else if offset <? Len m then
    if size <? 0 then Panic "makeslice: len out of range" else slice_range (store m) offset (i64 (offset + size))
  else Ret [].

Definition GetPtr (m : t) (offset size : Z) : outcome slice :=
  if size =? 0 then Ret (Own [])
  else if offset <? Len m then let! _ := slice_range (store m) offset (i64 (offset + size)) in Ret (Ptr offset size)
  else Ret (Own []).

(** The bytes of a slice, as the memory has them now. *)
Definition read (m : t) (s : slice) : bytes :=
  match s with Own b => b | Ptr offset size => take (Z.to_nat size) (drop (Z.to_nat offset) (store m)) end.
End Memory.

(** ** Sizes and data *)

Section Common.
Context {L : EvmLib}.

Definition calcMemSize64WithUint (off length64 : Z) : Z * bool :=
  if length64 =? 0 then (0, false)
  else if negb (uint256.IsUint64 off) then (0, true)
  else
    let offset64 := uint256.Uint64 off in
    let val := u64 (offset64 + length64) in
    (val, val <? offset64).

Definition calcMemSize64 (off l : Z) : Z * bool :=
  if negb (uint256.IsUint64 l) then (0, true) else calcMemSize64WithUint off (uint256.Uint64 l).

Definition getData (data : bytes) (start size : Z) : outcome bytes :=
  let length := zlen data in
  let start := if length <? start then length else start in
  let end_ := u64 (start + size) in
  let end_ := if length <? end_ then length else end_ in
  let! part := slice_range data start end_ in
  Ret (RightPadBytes part (i64 size)).

Definition toWordSize (size : Z) : Z :=
  if two64 - 1 - 31 <? size then (two64 - 1) `div` 32 + 1 else (size + 31) `div` 32.

Definition callGas (isEip150 : bool) (availableGas base callCost : Z) : Z + vmError :=
  let avail := u64 (availableGas - base) in
  let gas := avail - avail `div` 64 in
  if isEip150 && (negb (uint256.IsUint64 callCost) || (gas <? uint256.Uint64 callCost)) then inl gas
  else if negb (uint256.IsUint64 callCost) then inr ErrGasUintOverflow
  else inl (uint256.Uint64 callCost).

(** The contract at address 4 returns the slice that it is given. *)
Definition dataCopy : PrecompiledContract.t :=
  PrecompiledContract.mk (fun input => u64 (u64 (zlen input + 31) `div` 32 * params.IdentityPerWordGas + params.IdentityBaseGas))
    (fun input => (Input, None)).

Definition precompile (r : Rules.t) (addr : bytes) : option PrecompiledContract.t :=
  if bool_decide (addr = replicate 19 Byte.x00 ++ [Byte.x04]) then Some dataCopy else otherPrecompile r addr.

Definition RunPrecompiledContract (p : PrecompiledContract.t) (input : bytes) (suppliedGas : Z) : output * Z * option vmError :=
  let gasCost := PrecompiledContract.RequiredGas p input in
  if suppliedGas <? gasCost then (Fresh [], 0, Some ErrOutOfGas)
  else let (out, err) := PrecompiledContract.Run p input in (out, suppliedGas - gasCost, err).
End Common.

(** ** Jump analysis *)

Module bitvec.
Abbreviation t := (list Z).

Definition set (bits : t) (pos : Z) : outcome t :=
  let! b := slice_get bits (pos `div` 8) in
  slice_set bits (pos `div` 8) (Z.lor b (Z.shiftr 0x80 (pos mod 8))).

Definition set8 (bits : t) (pos : Z) : outcome t :=
  let! b := slice_get bits (pos `div` 8) in
  let! bits := slice_set bits (pos `div` 8) (Z.lor b (Z.shiftr 0xFF (pos mod 8))) in
  let! b := slice_get bits (pos `div` 8 + 1) in
  slice_set bits (pos `div` 8 + 1) (Z.lor b (Z.land 0xFF (Z.lnot (Z.shiftr 0xFF (pos mod 8))))).

Definition codeSegment (bits : t) (pos : Z) : outcome bool :=
  let! b := slice_get bits (pos `div` 8) in
  Ret (Z.land b (Z.shiftr 0x80 (pos mod 8)) =? 0).

(** [numbits] data bytes from [pc] on, eight at a time and then one by one. *)
Fixpoint mark (n : nat) (numbits pc : Z) (bits : t) : outcome (Z * t) :=
  match n with
  | O => Ret (pc, bits)
  | S n' =>
      if 8 <=? numbits then let! bits := set8 bits pc in mark n' (numbits - 8) (pc + 8) bits
      else if 0 <? numbits then let! bits := set bits pc in mark n' (numbits - 1) (pc + 1) bits
      else Ret (pc, bits)
  end.

(** The loop over the code, with as many steps as there are bytes. *)
Fixpoint scan (n : nat) (code : bytes) (pc : Z) (bits : t) : outcome t :=
  match n with
  | O => Ret bits
  | S n' =>
      if pc <? zlen code then
        let! b := slice_get code pc in
        let op := byte_Z b in
        if (0x60 <=? op) && (op <=? 0x7f) then
          let! (pc, bits) := mark 32 (op - 0x60 + 1) (pc + 1) bits in
          scan n' code pc bits
        else scan n' code (pc + 1) bits
      else Ret bits
  end.

Definition codeBitmap (code : bytes) : outcome t :=
  scan (length code) code 0 (replicate (Z.to_nat (zlen code `div` 8 + 1 + 4)) 0).
End bitvec.

(** ** Contracts

    [caller] is what the code uses of a caller that is a contract: its own caller
    and value.  The analyses by code hash, which contracts of a call share, are in
    the state of the machine. *)
Module Contract.
Record t  := mk {
  CallerAddress : bytes;
  caller : option (bytes * option Z);
  self : bytes;
  analysis : option bitvec.t;
  Code : bytes;
  CodeHash : bytes;
  CodeAddr : option bytes;
  Input : bytes;
  Gas : Z;
  value : option Z
}.

Section Setters.
Definition set_CallerAddress (s : t) (x : bytes) : t :=
  mk x (caller s) (self s) (analysis s) (Code s) (CodeHash s) (CodeAddr s) (Input s) (Gas s) (value s).
Definition set_caller (s : t) (x : option (bytes * option Z)) : t :=
  mk (CallerAddress s) x (self s) (analysis s) (Code s) (CodeHash s) (CodeAddr s) (Input s) (Gas s) (value
     s).
Definition set_self (s : t) (x : bytes) : t :=
  mk (CallerAddress s) (caller s) x (analysis s) (Code s) (CodeHash s) (CodeAddr s) (Input s) (Gas s) (value
     s).
Definition set_analysis (s : t) (x : option bitvec.t) : t :=
  mk (CallerAddress s) (caller s) (self s) x (Code s) (CodeHash s) (CodeAddr s) (Input s) (Gas s) (value s).
Definition set_Code (s : t) (x : bytes) : t :=
  mk (CallerAddress s) (caller s) (self s) (analysis s) x (CodeHash s) (CodeAddr s) (Input s) (Gas s) (value
     s).
Definition set_CodeHash (s : t) (x : bytes) : t :=
  mk (CallerAddress s) (caller s) (self s) (analysis s) (Code s) x (CodeAddr s) (Input s) (Gas s) (value s).
Definition set_CodeAddr (s : t) (x : option bytes) : t :=
  mk (CallerAddress s) (caller s) (self s) (analysis s) (Code s) (CodeHash s) x (Input s) (Gas s) (value s).
Definition set_Input (s : t) (x : bytes) : t :=
  mk (CallerAddress s) (caller s) (self s) (analysis s) (Code s) (CodeHash s) (CodeAddr s) x (Gas s) (value
     s).
Definition set_Gas (s : t) (x : Z) : t :=
  mk (CallerAddress s) (caller s) (self s) (analysis s) (Code s) (CodeHash s) (CodeAddr s) (Input s) x
     (value s).
Definition set_value (s : t) (x : option Z) : t :=
  mk (CallerAddress s) (caller s) (self s) (analysis s) (Code s) (CodeHash s) (CodeAddr s) (Input s) (Gas s)
     x.
End Setters.

Definition GetByte (c : t) (n : Z) : Z := match Code c !! Z.to_nat n with Some b => byte_Z b | None => 0 end.

(** Whether there was enough, and the contract afterwards. *)
Definition UseGas (c : t) (gas : Z) : bool * t := if Gas c <? gas then (false, c) else (true, set_Gas c (Gas c - gas)).

Definition AsDelegate (c : t) : outcome t :=
  match caller c with
  | Some (ca, v) => Ret (set_value (set_CallerAddress c ca) v)
  | None => Panic "interface conversion: not a contract"
  end.

Definition SetCallCode (c : t) (addr hash code : bytes) : t := set_CodeAddr (set_CodeHash (set_Code c code) hash) (Some addr).
End Contract.

(** An account or the contract that calls. *)
Inductive ContractRef := AccountRef (a : bytes) | ContractCaller (c : Contract.t).

Definition refAddress (r : ContractRef) : bytes := match r with AccountRef a => a | ContractCaller c => Contract.self c end.


(** ** The machine

    The fields of [EVM] and of its interpreter that change, with the analyses of
    the running call and the number of looks at the abort flag. *)
Module EVM.
Record t {L : StateLib} := mk {
  StateDB : StateDB.t;
  depth : Z;
  callGasTemp : Z;
  readOnly : bool;
  returnData : bytes;
  jumpdests : gmap bytes bitvec.t;
  loads : nat
}.
Arguments t : clear implicits.
Arguments t {L}.

Section Setters.
Context {L : StateLib}.
Definition set_StateDB (s : t) (x : StateDB.t) : t :=
  mk L x (depth s) (callGasTemp s) (readOnly s) (returnData s) (jumpdests s) (loads s).
Definition set_depth (s : t) (x : Z) : t :=
  mk L (StateDB s) x (callGasTemp s) (readOnly s) (returnData s) (jumpdests s) (loads s).
Definition set_callGasTemp (s : t) (x : Z) : t :=
  mk L (StateDB s) (depth s) x (readOnly s) (returnData s) (jumpdests s) (loads s).
Definition set_readOnly (s : t) (x : bool) : t :=
  mk L (StateDB s) (depth s) (callGasTemp s) x (returnData s) (jumpdests s) (loads s).
Definition set_returnData (s : t) (x : bytes) : t :=
  mk L (StateDB s) (depth s) (callGasTemp s) (readOnly s) x (jumpdests s) (loads s).
Definition set_jumpdests (s : t) (x : gmap bytes bitvec.t) : t :=
  mk L (StateDB s) (depth s) (callGasTemp s) (readOnly s) (returnData s) x (loads s).
Definition set_loads (s : t) (x : nat) : t :=
  mk L (StateDB s) (depth s) (callGasTemp s) (readOnly s) (returnData s) (jumpdests s) x.
End Setters.
End EVM.

(** What does not change: the context of the block and the configuration. *)
Module Context.
Record t := mk {
  GetHash : Z -> bytes; Origin : bytes; GasPrice : Z; Coinbase : bytes; GasLimit : Z; BlockNumber : Z; Time : Z; Difficulty : Z;
  chainRules : Rules.t; NoRecursion : bool; EnablePreimageRecording : bool
}.
End Context.

(** A running call: [callCtx] and the local variables of [Run]. *)
Module Frame.
Record t {L : StateLib} := mk {
  evm : EVM.t;
  memory : Memory.t;
  stack : Stack.t;
  rstack : list Z;
  contract : Contract.t;
  pc : Z;
  steps : Z
}.
Arguments t : clear implicits.
Arguments t {L}.

Section Setters.
Context {L : StateLib}.
Definition set_evm (s : t) (x : EVM.t) : t :=
  mk L x (memory s) (stack s) (rstack s) (contract s) (pc s) (steps s).
Definition set_memory (s : t) (x : Memory.t) : t :=
  mk L (evm s) x (stack s) (rstack s) (contract s) (pc s) (steps s).
Definition set_stack (s : t) (x : Stack.t) : t :=
  mk L (evm s) (memory s) x (rstack s) (contract s) (pc s) (steps s).
Definition set_rstack (s : t) (x : list Z) : t :=
  mk L (evm s) (memory s) (stack s) x (contract s) (pc s) (steps s).
Definition set_contract (s : t) (x : Contract.t) : t :=
  mk L (evm s) (memory s) (stack s) (rstack s) x (pc s) (steps s).
Definition set_pc (s : t) (x : Z) : t :=
  mk L (evm s) (memory s) (stack s) (rstack s) (contract s) x (steps s).
Definition set_steps (s : t) (x : Z) : t :=
  mk L (evm s) (memory s) (stack s) (rstack s) (contract s) (pc s) x.
End Setters.
End Frame.
