(* ===== verification/EvmOps.v ===== *)
(** * The interpreter and the calls of the virtual machine

    [core/vm]: the instructions ([instructions.go]), what they cost
    ([gas_table.go]), the tables of the forks ([jump_table.go], [eips.go]), the loop
    ([interpreter.go]) and calls and creation ([evm.go]).

    An instruction that calls runs the interpreter again: the definitions take the
    inner run as an argument, and [interpret] closes the recursion with fuel.  The
    tracer, extra EIPs and external interpreters are left out. *)

From S2P Require Import Prelude GoStd Effects StateDB EvmData.

(** ** Opcodes *)

Module OpCode.
Inductive t :=
| STOP | ADD | MUL | SUB | DIV | SDIV | MOD | SMOD | ADDMOD | MULMOD | EXP | SIGNEXTEND
| LT | GT | SLT | SGT | EQ | ISZERO | AND | OR | XOR | NOT | BYTE | SHL | SHR | SAR
| SHA3
| ADDRESS | BALANCE | ORIGIN | CALLER | CALLVALUE | CALLDATALOAD | CALLDATASIZE | CALLDATACOPY | CODESIZE | CODECOPY
| GASPRICE | EXTCODESIZE | EXTCODECOPY | RETURNDATASIZE | RETURNDATACOPY | EXTCODEHASH
| BLOCKHASH | COINBASE | TIMESTAMP | NUMBER | DIFFICULTY | GASLIMIT | CHAINID | SELFBALANCE
| POP | MLOAD | MSTORE | MSTORE8 | SLOAD | SSTORE | JUMP | JUMPI | PC | MSIZE | GAS | JUMPDEST | BEGINSUB | RETURNSUB | JUMPSUB
| PUSH (n : Z) | DUP (n : Z) | SWAP (n : Z) | LOG (n : Z)
| CREATE | CALL | CALLCODE | RETURN | DELEGATECALL | CREATE2 | STATICCALL | REVERT | SELFDESTRUCT.

Definition table : list (list t) :=
  [ [STOP; ADD; MUL; SUB; DIV; SDIV; MOD; SMOD; ADDMOD; MULMOD; EXP; SIGNEXTEND];
    [LT; GT; SLT; SGT; EQ; ISZERO; AND; OR; XOR; NOT; BYTE; SHL; SHR; SAR];
    [SHA3];
    [ADDRESS; BALANCE; ORIGIN; CALLER; CALLVALUE; CALLDATALOAD; CALLDATASIZE; CALLDATACOPY; CODESIZE; CODECOPY;
     GASPRICE; EXTCODESIZE; EXTCODECOPY; RETURNDATASIZE; RETURNDATACOPY; EXTCODEHASH];
    [BLOCKHASH; COINBASE; TIMESTAMP; NUMBER; DIFFICULTY; GASLIMIT; CHAINID; SELFBALANCE];
    [POP; MLOAD; MSTORE; MSTORE8; SLOAD; SSTORE; JUMP; JUMPI; PC; MSIZE; GAS; JUMPDEST; BEGINSUB; RETURNSUB; JUMPSUB];
    PUSH <$> seqZ 1 16; PUSH <$> seqZ 17 16; DUP <$> seqZ 1 16; SWAP <$> seqZ 1 16;
    LOG <$> seqZ 0 5 ].

(** The opcode of a byte, [None] for one that no fork defines. *)
Definition decode (b : Z) : option t :=
  match b with
  | 0xf0 => Some CREATE | 0xf1 => Some CALL | 0xf2 => Some CALLCODE | 0xf3 => Some RETURN | 0xf4 => Some DELEGATECALL
  | 0xf5 => Some CREATE2 | 0xfa => Some STATICCALL | 0xfd => Some REVERT | 0xff => Some SELFDESTRUCT
  | _ => row ← table !! Z.to_nat (b `div` 16); row !! Z.to_nat (b mod 16)
  end.
End OpCode.

Module vm.
Import OpCode state.

(** The costs and refunds of a net-metered store. *)
Module Net.
Record t := mk { noop : Z; init : Z; clean : Z; dirty : Z; clearRefund : Z; resetClearRefund : Z; resetRefund : Z }.
Definition eip1283 : t := mk params.NetSstoreNoopGas params.NetSstoreInitGas params.NetSstoreCleanGas params.NetSstoreDirtyGas
  params.NetSstoreClearRefund params.NetSstoreResetClearRefund params.NetSstoreResetRefund.
Definition eip2200 : t := mk params.SstoreNoopGasEIP2200 params.SstoreInitGasEIP2200 params.SstoreCleanGasEIP2200 params.SstoreDirtyGasEIP2200
  params.SstoreClearRefundEIP2200 params.SstoreInitRefundEIP2200 params.SstoreCleanRefundEIP2200.
End Net.

Section Ops.
Context {L : StateLib} {V : EvmLib} (ctx : Context.t).
Abbreviation rules := (Context.chainRules ctx).

(** The monads of the machine and of a running call. *)
Abbreviation ME := (ST EVM.t).
Abbreviation MF := (ST Frame.t).

Definition onDB {A} (m : M A) : ME A :=
  fun e => let! (a, s) := m (EVM.StateDB e) in Ret (a, EVM.set_StateDB e s).

Definition onEVM {A} (m : ME A) : MF A :=
  fun f => let! (a, e) := m (Frame.evm f) in Ret (a, Frame.set_evm f e).

Abbreviation db m := (onEVM (onDB m)).

(** ** Access to the frame *)

Definition pop : MF Z :=
  st ← gets Frame.stack; r ← lift (Stack.pop st); modify (fun f => Frame.set_stack f r.2);; mret r.1.
Definition Back (n : Z) : MF Z := st ← gets Frame.stack; lift (Stack.Back st n).
Definition peek : MF Z := Back 0.
Definition onStack (g : Stack.t -> outcome Stack.t) : MF unit :=
  st ← gets Frame.stack; st ← lift (g st); modify (fun f => Frame.set_stack f st).
Definition poke (d : Z) : MF unit := onStack (Stack.poke d).
Definition push (d : Z) : MF unit := modify (fun f => Frame.set_stack f (Stack.push d (Frame.stack f))).

Definition onMemory (g : Memory.t -> outcome Memory.t) : MF unit :=
  m ← gets Frame.memory; m ← lift (g m); modify (fun f => Frame.set_memory f m).
Definition setMemory (offset size : Z) (value : bytes) : MF unit := onMemory (fun m => Memory.Set_ m offset size value).
Definition GetPtr (offset size : Z) : MF slice := m ← gets Frame.memory; lift (Memory.GetPtr m offset size).
Definition read (s : slice) : MF bytes := gets (fun f => Memory.read (Frame.memory f) s).

Definition contract {A} (g : Contract.t -> A) : MF A := gets (fun f => g (Frame.contract f)).
Definition setGas (gas : Z) : MF unit := modify (fun f => Frame.set_contract f (Contract.set_Gas (Frame.contract f) gas)).
Definition UseGas (gas : Z) : MF bool :=
  r ← contract (fun c => Contract.UseGas c gas); modify (fun f => Frame.set_contract f r.2);; mret r.1.
Definition setPc (pc : Z) : MF unit := modify (fun f => Frame.set_pc f pc).

(** What an instruction returns when it only changes the frame, and an error. *)
Definition next : MF (slice * option vmError) := mret (Own [], None).
Definition fail (e : vmError) : MF (slice * option vmError) := mret (Own [], Some e).

Definition int64 (z : Z) : Z := i64 (uint256.Uint64 z).
Definition isTrue (b : bool) : Z := if b then 1 else 0.
Definition toAddress (z : Z) : bytes := uint256.Bytes20 z.
Definition toHash (z : Z) : bytes := uint256.Bytes32 z.

(** ** Instructions *)

(** [y.Op(&x, y)] for the operand that is popped and the one that stays. *)
Definition opUnary (g : Z -> Z) : MF (slice * option vmError) := x ← peek; poke (g x);; next.
Definition opBinary (g : Z -> Z -> Z) : MF (slice * option vmError) := x ← pop; y ← peek; poke (g x y);; next.
Definition opTernary (g : Z -> Z -> Z -> Z) : MF (slice * option vmError) := x ← pop; y ← pop; z ← peek; poke (g x y z);; next.

Definition opAddmod : MF (slice * option vmError) := opTernary (fun x y z => if z =? 0 then 0 else uint256.AddMod x y z).

Definition opSHL : MF (slice * option vmError) :=
  opBinary (fun shift value => if shift <? 256 then uint256.Lsh value (uint256.Uint64 shift) else 0).

Definition opSHR : MF (slice * option vmError) :=
  opBinary (fun shift value => if shift <? 256 then uint256.Rsh value (uint256.Uint64 shift) else 0).

Definition opSAR : MF (slice * option vmError) :=
  opBinary (fun shift value =>
    if 256 <? shift then (if 0 <=? uint256.Sign value then 0 else uint256.AllOne)
    else uint256.SRsh value (uint256.Uint64 shift)).

Definition opSha3 : MF (slice * option vmError) :=
  offset ← pop; size ← peek;
  s ← GetPtr (int64 offset) (int64 size);
  data ← read s;
  let hash := Keccak256Hash data in
  when (Context.EnablePreimageRecording ctx) (db (AddPreimage hash data));;
  poke (uint256.SetBytes hash);;
  next.

(** A word that is pushed. *)
Definition opPushWord (g : Frame.t -> Z) : MF (slice * option vmError) := x ← gets g; push x;; next.
Definition opConst (z : Z) : MF (slice * option vmError) := opPushWord (fun _ => z).

Definition opCallValue : MF (slice * option vmError) :=
  v ← contract Contract.value; v ← nonNil v; push (uint256.FromBig v);; next.

Definition opBalance : MF (slice * option vmError) :=
  slot ← peek; b ← db (GetBalance (toAddress slot)); poke (uint256.FromBig b);; next.

Definition opSelfBalance : MF (slice * option vmError) :=
  a ← contract Contract.self; b ← db (GetBalance a); push (uint256.FromBig b);; next.

Definition opCallDataLoad : MF (slice * option vmError) :=
  x ← peek;
  if uint256.IsUint64 x then
    input ← contract Contract.Input;
    data ← lift (getData input (uint256.Uint64 x) 32);
    poke (uint256.SetBytes data);; next
  else poke 0;; next.

(** An offset that does not fit becomes the largest one. *)
Definition clampOffset (z : Z) : Z := if uint256.IsUint64 z then uint256.Uint64 z else two64 - 1.

(** [CALLDATACOPY], [CODECOPY] and, with the code of an account, [EXTCODECOPY]. *)
Definition opCopy (source : MF bytes) : MF (slice * option vmError) :=
  memOffset ← pop; dataOffset ← pop; length ← pop;
  src ← source;
  data ← lift (getData src (clampOffset dataOffset) (uint256.Uint64 length));
  setMemory (uint256.Uint64 memOffset) (uint256.Uint64 length) data;;
  next.

Definition opExtCodeCopy : MF (slice * option vmError) :=
  a ← pop; opCopy (c ← db (GetCode (toAddress a)); mret (goBytes c)).

Definition opReturnDataCopy : MF (slice * option vmError) :=
  memOffset ← pop; dataOffset ← pop; length ← pop;
  if negb (uint256.IsUint64 dataOffset) then fail ErrReturnDataOutOfBounds
  else
    let end_ := uint256.Add dataOffset length in
    rd ← gets (fun f => EVM.returnData (Frame.evm f));
    if negb (uint256.IsUint64 end_) || (zlen rd <? uint256.Uint64 end_) then fail ErrReturnDataOutOfBounds
    else
      data ← lift (slice_range rd (uint256.Uint64 dataOffset) (uint256.Uint64 end_));
      setMemory (uint256.Uint64 memOffset) (uint256.Uint64 length) data;;
      next.

Definition opExtCodeSize : MF (slice * option vmError) :=
  slot ← peek; n ← db (GetCodeSize (toAddress slot)); poke (u64 n);; next.

Definition opExtCodeHash : MF (slice * option vmError) :=
  slot ← peek;
  empty ← db (Empty (toAddress slot));
  if empty : bool then poke 0;; next
  else h ← db (GetCodeHash (toAddress slot)); poke (uint256.SetBytes h);; next.

Definition opBlockhash : MF (slice * option vmError) :=
  num ← peek;
  if negb (uint256.IsUint64 num) then poke 0;; next
  else
    let num64 := uint256.Uint64 num in
    let upper := u64 (Context.BlockNumber ctx) in
    let lower := if upper <? 257 then 0 else upper - 256 in
    if (lower <=? num64) && (num64 <? upper) then poke (uint256.SetBytes (Context.GetHash ctx num64));; next
    else poke 0;; next.

Definition opMload : MF (slice * option vmError) :=
  v ← peek; s ← GetPtr (int64 v) 32; data ← read s; poke (uint256.SetBytes data);; next.

Definition opMstore : MF (slice * option vmError) :=
  mStart ← pop; val ← pop; onMemory (fun m => Memory.Set32 m (uint256.Uint64 mStart) val);; next.

Definition opMstore8 : MF (slice * option vmError) :=
  off ← pop; val ← pop;
  onMemory (fun m => let! st := slice_set (Memory.store m) (uint256.Uint64 off) (Z_byte (uint256.Uint64 val)) in
                     Ret (Memory.mk st (Memory.lastGasCost m)));;
  next.

Definition opSload : MF (slice * option vmError) :=
  loc ← peek; a ← contract Contract.self; val ← db (GetState a (toHash loc)); poke (uint256.SetBytes val);; next.

Definition opSstore : MF (slice * option vmError) :=
  loc ← pop; val ← pop; a ← contract Contract.self; db (SetState a (toHash loc) (toHash val));; next.

(** *** Jumps *)

Definition setAnalysis (b : bitvec.t) : MF unit :=
  modify (fun f => Frame.set_contract f (Contract.set_analysis (Frame.contract f) (Some b))).

(** The analysis of the code is kept in the contract, and by code hash for the
    contracts of the same call; creation code has no hash. *)
Definition isCode (udest : Z) : MF bool :=
  c ← gets Frame.contract;
  match Contract.analysis c with
  | Some bits => lift (bitvec.codeSegment bits udest)
  | None =>
      if bool_decide (Contract.CodeHash c = zeroHash) then
        bits ← lift (bitvec.codeBitmap (Contract.Code c));
        setAnalysis bits;;
        lift (bitvec.codeSegment bits udest)
      else
        known ← gets (fun f => EVM.jumpdests (Frame.evm f) !! Contract.CodeHash c);
        bits ← match known with
               | Some bits => mret bits
               | None =>
                   bits ← lift (bitvec.codeBitmap (Contract.Code c));
                   onEVM (modify (fun e => EVM.set_jumpdests e (<[Contract.CodeHash c := bits]> (EVM.jumpdests e))));;
                   mret bits
               end;
        setAnalysis bits;;
        lift (bitvec.codeSegment bits udest)
  end.

(** Whether [op] is at the position, in code and not in data. *)
Definition validDest (op udest : Z) : MF bool :=
  code ← contract Contract.Code;
  if zlen code <=? udest then mret false
  else
    b ← lift (slice_get code udest);
    if negb (byte_Z b =? op) then mret false else isCode udest.

Definition validJumpdest (dest : Z) : MF bool :=
  if negb (uint256.IsUint64 dest) then mret false else validDest 0x5b (uint256.Uint64 dest).

Definition validJumpSubdest (udest : Z) : MF bool :=
  if i64 udest <? 0 then mret false else validDest 0x5c udest.

Definition jumpTo (pos : Z) : MF (slice * option vmError) :=
  valid ← validJumpdest pos;
  if valid : bool then setPc (uint256.Uint64 pos);; next else fail ErrInvalidJump.

Definition opJump : MF (slice * option vmError) := pos ← pop; jumpTo pos.

Definition opJumpi : MF (slice * option vmError) :=
  pos ← pop; cond ← pop;
  if negb (cond =? 0) then jumpTo pos else pc ← gets Frame.pc; setPc (u64 (pc + 1));; next.

Definition opBeginSub : MF (slice * option vmError) := fail ErrInvalidSubroutineEntry.

Definition opJumpSub : MF (slice * option vmError) :=
  rs ← gets Frame.rstack;
  if 1023 <=? zlen rs then fail ErrReturnStackExceeded
  else
    pos ← pop;
    if negb (uint256.IsUint64 pos) then fail ErrInvalidJump
    else
      valid ← validJumpSubdest (uint256.Uint64 pos);
      if valid : bool then
        modify (fun f => Frame.set_rstack f (Frame.pc f mod 2 ^ 32 :: Frame.rstack f));;
        setPc (u64 (uint256.Uint64 pos + 1));; next
      else fail ErrInvalidJump.

Definition opReturnSub : MF (slice * option vmError) :=
  rs ← gets Frame.rstack;
  match rs with
  | [] => fail ErrInvalidRetsub
  | pc :: rs' => modify (fun f => Frame.set_rstack f rs');; setPc (pc + 1);; next
  end.

(** *** Constants, copies and logs *)

Definition opPush1 : MF (slice * option vmError) :=
  pc ← gets (fun f => u64 (Frame.pc f + 1));
  setPc pc;;
  code ← contract Contract.Code;
  if pc <? zlen code then b ← lift (slice_get code pc); push (byte_Z b);; next else push 0;; next.

Definition makePush (size : Z) : MF (slice * option vmError) :=
  pc ← gets Frame.pc;
  code ← contract Contract.Code;
  let codeLen := zlen code in
  let startMin := if i64 (pc + 1) <? codeLen then i64 (pc + 1) else codeLen in
  let endMin := if startMin + size <? codeLen then startMin + size else codeLen in
  part ← lift (slice_range code startMin endMin);
  push (uint256.SetBytes (RightPadBytes part size));;
  setPc (u64 (pc + size));;
  next.

Definition makeDup (size : Z) : MF (slice * option vmError) := onStack (Stack.dup size);; next.
Definition makeSwap (size : Z) : MF (slice * option vmError) := onStack (Stack.swap (size + 1));; next.

Fixpoint popN (n : nat) : MF (list Z) :=
  match n with O => mret [] | S n' => x ← pop; l ← popN n'; mret (x :: l) end.

Definition makeLog (size : Z) : MF (slice * option vmError) :=
  mStart ← pop; mSize ← pop;
  topics ← popN (Z.to_nat size);
  m ← gets Frame.memory;
  d ← lift (Memory.GetCopy m (int64 mStart) (int64 mSize));
  a ← contract Contract.self;
  db (AddLog (Log.mk a (toHash <$> topics) d (u64 (Context.BlockNumber ctx)) zeroHash 0 zeroHash 0 false));;
  next.

Definition opReturn : MF (slice * option vmError) :=
  offset ← pop; size ← pop; s ← GetPtr (int64 offset) (int64 size); mret (s, None).

Definition opSuicide : MF (slice * option vmError) :=
  beneficiary ← pop;
  a ← contract Contract.self;
  balance ← db (GetBalance a);
  db (AddBalance (toAddress beneficiary) balance);;
  db (Suicide a);;
  next.

(** ** Calls *)

Definition CanTransfer (addr : bytes) (amount : Z) : M bool := b ← GetBalance addr; mret (amount <=? b).
Definition Transfer (sender recipient : bytes) (amount : Z) : M unit := SubBalance sender amount;; AddBalance recipient amount.

(** A contract; called by an account it starts with no analyses. *)
Definition NewContract (caller : ContractRef) (object : bytes) (value : option Z) (gas : Z) : ME Contract.t :=
  match caller with
  | AccountRef _ => modify (fun e => EVM.set_jumpdests e ∅)
  | ContractCaller _ => mret tt
  end;;
  mret (Contract.mk (refAddress caller)
    (match caller with AccountRef _ => None | ContractCaller p => Some (Contract.CallerAddress p, Contract.value p) end)
    object None [] zeroHash None [] gas value).

(** The run of the interpreter that the calls start: what it returns, and the
    contract with the gas that is left. *)
Context (run : Contract.t -> bytes -> bool -> ME (bytes * option vmError * Contract.t)).

(** Errors undo the changes since the snapshot and, reverts apart, take the gas. *)
Definition settle (snapshot : Z) (r : output * Z * option vmError) : ME (output * Z * option vmError) :=
  let '(ret, gas, err) := r in
  match err with
  | None => mret (ret, gas, None)
  | Some e =>
      onDB (RevertToSnapshot snapshot);;
      mret (ret, if bool_decide (e = ErrExecutionReverted) then gas else 0, Some e)
  end.

(** The code of [addr] runs as the contract. *)
Definition runCode (c : Contract.t) (addr : bytes) (input : bytes) (readOnly : bool) : ME (output * Z * option vmError) :=
  hash ← onDB (GetCodeHash addr);
  code ← onDB (GetCode addr);
  r ← run (Contract.SetCallCode c addr hash (goBytes code)) input readOnly;
  let '(ret, err, c') := r in
  mret (Fresh ret, Contract.Gas c', err).

(** [NoRecursion] and the limit of the depth; otherwise the call goes on. *)
Definition atDepth {A} (skip : A) (deep : A) (m : ME A) : ME A :=
  depth ← gets EVM.depth;
  if Context.NoRecursion ctx && (0 <? depth) then mret skip
  else if params.CallCreateDepth <? depth then mret deep
  else m.

(** [Call] once the caller can pay: the account is created when there is none, the
    value goes to it, and its code or the precompiled contract runs. *)
Definition enter (caller : ContractRef) (addr input : bytes) (gas value : Z) : ME (output * Z * option vmError) :=
  snapshot ← onDB Snapshot;
  let p := precompile rules addr in
  exist ← onDB (Exist addr);
  if negb exist && bool_decide (p = None) && Rules.IsEIP158 rules && (value =? 0) then mret (Fresh [], gas, None)
  else
    when (negb exist) (onDB (CreateAccount addr));;
    onDB (Transfer (refAddress caller) addr value);;
    r ← match p with
        | Some p => mret (RunPrecompiledContract p input gas)
        | None =>
            code ← onDB (GetCode addr);
            if bool_decide (goBytes code = []) then mret (Fresh [], gas, None)
            else
              c ← NewContract caller addr (Some value) gas;
              hash ← onDB (GetCodeHash addr);
              r ← run (Contract.SetCallCode c addr hash (goBytes code)) input false;
              let '(ret, err, c') := r in
              mret (Fresh ret, Contract.Gas c', err)
        end;
    settle snapshot r.

Definition Call (caller : ContractRef) (addr input : bytes) (gas value : Z) : ME (output * Z * option vmError) :=
  atDepth (Fresh [], gas, None) (Fresh [], gas, Some ErrDepth) (
    can ← (if value =? 0 then mret true else onDB (CanTransfer (refAddress caller) value));
    if negb can then mret (Fresh [], gas, Some ErrInsufficientBalance) else enter caller addr input gas value).

Definition CallCode (caller : ContractRef) (addr input : bytes) (gas value : Z) : ME (output * Z * option vmError) :=
  atDepth (Fresh [], gas, None) (Fresh [], gas, Some ErrDepth) (
    can ← onDB (CanTransfer (refAddress caller) value);
    if negb can then mret (Fresh [], gas, Some ErrInsufficientBalance)
    else
      snapshot ← onDB Snapshot;
      r ← match precompile rules addr with
          | Some p => mret (RunPrecompiledContract p input gas)
          | None => c ← NewContract caller (refAddress caller) (Some value) gas; runCode c addr input false
          end;
      settle snapshot r).

Definition DelegateCall (caller : ContractRef) (addr input : bytes) (gas : Z) : ME (output * Z * option vmError) :=
  atDepth (Fresh [], gas, None) (Fresh [], gas, Some ErrDepth) (
    snapshot ← onDB Snapshot;
    r ← match precompile rules addr with
        | Some p => mret (RunPrecompiledContract p input gas)
        | None =>
            c ← NewContract caller (refAddress caller) None gas;
            c ← lift (Contract.AsDelegate c);
            runCode c addr input false
        end;
    settle snapshot r).

Definition StaticCall (caller : ContractRef) (addr input : bytes) (gas : Z) : ME (output * Z * option vmError) :=
  atDepth (Fresh [], gas, None) (Fresh [], gas, Some ErrDepth) (
    snapshot ← onDB Snapshot;
    onDB (AddBalance addr 0);;
    r ← match precompile rules addr with
        | Some p => mret (RunPrecompiledContract p input gas)
        | None => c ← NewContract caller addr (Some 0) gas; runCode c addr input true
        end;
    settle snapshot r).

(** What [create] does with the result of the creation code: the code is paid for
    and stored, or the creation is undone. *)
Definition deploy (snapshot : Z) (address : bytes) (ret : bytes) (err : option vmError) (c : Contract.t)
    : ME (bytes * bytes * Z * option vmError) :=
  let exceeded := Rules.IsEIP158 rules && (params.MaxCodeSize <? zlen ret) in
  r ← (if bool_decide (err = None) && negb exceeded then
         let (enough, c') := Contract.UseGas c (u64 (zlen ret * params.CreateDataGas)) in
         if enough then onDB (SetCode address (Some ret));; mret (None, c') else mret (Some ErrCodeStoreOutOfGas, c')
       else mret (err, c));
  let (err, c) := (r : option vmError * Contract.t) in
  if exceeded || (bool_decide (err <> None) && (Rules.IsHomestead rules || negb (bool_decide (err = Some ErrCodeStoreOutOfGas)))) then
    onDB (RevertToSnapshot snapshot);;
    let c := if bool_decide (err = Some ErrExecutionReverted) then c else (Contract.UseGas c (Contract.Gas c)).2 in
    mret (ret, address, Contract.Gas c, match err with None => Some ErrMaxCodeSizeExceeded | Some e => Some e end)
  else mret (ret, address, Contract.Gas c, err).

Definition create (caller : ContractRef) (code hash : bytes) (gas value : Z) (address : bytes) : ME (bytes * bytes * Z * option vmError) :=
  depth ← gets EVM.depth;
  if params.CallCreateDepth <? depth then mret ([], replicate 20 Byte.x00, gas, Some ErrDepth)
  else
    can ← onDB (CanTransfer (refAddress caller) value);
    if negb can then mret ([], replicate 20 Byte.x00, gas, Some ErrInsufficientBalance)
    else
      nonce ← onDB (GetNonce (refAddress caller));
      onDB (SetNonce (refAddress caller) (u64 (nonce + 1)));;
      contractHash ← onDB (GetCodeHash address);
      nonce' ← onDB (GetNonce address);
      if negb (nonce' =? 0) || (negb (bool_decide (contractHash = zeroHash)) && negb (bool_decide (contractHash = emptyCodeHash)))
      then mret ([], replicate 20 Byte.x00, 0, Some ErrContractAddressCollision)
      else
        snapshot ← onDB Snapshot;
        onDB (CreateAccount address);;
        when (Rules.IsEIP158 rules) (onDB (SetNonce address 1));;
        onDB (Transfer (refAddress caller) address value);;
        c ← NewContract caller address (Some value) gas;
        let c := Contract.SetCallCode c address hash code in
        if Context.NoRecursion ctx && (0 <? depth) then mret ([], address, gas, None)
        else
          r ← run c [] false;
          let '(ret, err, c') := r in
          deploy snapshot address ret err c'.

Definition Create (caller : ContractRef) (code : bytes) (gas value : Z) : ME (bytes * bytes * Z * option vmError) :=
  nonce ← onDB (GetNonce (refAddress caller));
  create caller code zeroHash gas value (CreateAddress (refAddress caller) nonce).

Definition Create2 (caller : ContractRef) (code : bytes) (gas endowment salt : Z) : ME (bytes * bytes * Z * option vmError) :=
  let hash := Keccak256Hash code in
  create caller code hash gas endowment (CreateAddress2 (refAddress caller) (toHash salt) hash).

(** *** The instructions that call *)

Definition self : MF ContractRef := contract ContractCaller.

(** [gas -= gas / 64] under EIP-150. *)
Definition withheld (eip150 : bool) (gas : Z) : Z := if eip150 then gas - gas `div` 64 else gas.

Definition opCreate : MF (slice * option vmError) :=
  value ← pop; offset ← pop; size ← pop;
  m ← gets Frame.memory;
  input ← lift (Memory.GetCopy m (int64 offset) (int64 size));
  gas ← contract Contract.Gas;
  let gas := withheld (Rules.IsEIP150 rules) gas in
  UseGas gas;;
  caller ← self;
  r ← onEVM (Create caller input gas value);
  let '(res, addr, returnGas, suberr) := r in
  push (if match suberr with
           | Some e => if bool_decide (e = ErrCodeStoreOutOfGas) then Rules.IsHomestead rules else true
           | None => false
           end then 0 else uint256.SetBytes addr);;
  left ← contract Contract.Gas;
  setGas (u64 (left + returnGas));;
  mret (Own (if bool_decide (suberr = Some ErrExecutionReverted) then res else []), None).

Definition opCreate2 : MF (slice * option vmError) :=
  endowment ← pop; offset ← pop; size ← pop; salt ← pop;
  m ← gets Frame.memory;
  input ← lift (Memory.GetCopy m (int64 offset) (int64 size));
  gas ← contract Contract.Gas;
  let gas := withheld true gas in
  UseGas gas;;
  caller ← self;
  r ← onEVM (Create2 caller input gas endowment salt);
  let '(res, addr, returnGas, suberr) := r in
  push (if bool_decide (suberr = None) then uint256.SetBytes addr else 0);;
  left ← contract Contract.Gas;
  setGas (u64 (left + returnGas));;
  mret (Own (if bool_decide (suberr = Some ErrExecutionReverted) then res else []), None).

(** The end of the four calls: success or failure on the stack, the result in the
    memory, the gas that is left.  A result that is the input of the call is a part
    of the memory of the caller. *)
Definition called (args : slice) (retOffset retSize : Z) (r : output * Z * option vmError) : MF (slice * option vmError) :=
  let '(ret, returnGas, err) := r in
  let ret := match ret with Fresh b => Own b | Input => args end in
  push (isTrue (bool_decide (err = None)));;
  (if bool_decide (err = None) || bool_decide (err = Some ErrExecutionReverted) then
     b ← read ret;
     setMemory (uint256.Uint64 retOffset) (uint256.Uint64 retSize) b
   else mret tt);;
  left ← contract Contract.Gas;
  setGas (u64 (left + returnGas));;
  mret (ret, None).

Definition callGasTemp : MF Z := gets (fun f => EVM.callGasTemp (Frame.evm f)).

(** [CALL] and [CALLCODE]: a value adds the stipend. *)
Definition opCallValued (call : ContractRef -> bytes -> bytes -> Z -> Z -> ME (output * Z * option vmError)) : MF (slice * option vmError) :=
  pop;;
  gas ← callGasTemp;
  addr ← pop; value ← pop; inOffset ← pop; inSize ← pop; retOffset ← pop; retSize ← pop;
  args ← GetPtr (int64 inOffset) (int64 inSize);
  input ← read args;
  caller ← self;
  r ← onEVM (call caller (toAddress addr) input (if value =? 0 then gas else u64 (gas + params.CallStipend)) value);
  called args retOffset retSize r.

(** [DELEGATECALL] and [STATICCALL]. *)
Definition opCallPlain (call : ContractRef -> bytes -> bytes -> Z -> ME (output * Z * option vmError)) : MF (slice * option vmError) :=
  pop;;
  gas ← callGasTemp;
  addr ← pop; inOffset ← pop; inSize ← pop; retOffset ← pop; retSize ← pop;
  args ← GetPtr (int64 inOffset) (int64 inSize);
  input ← read args;
  caller ← self;
  r ← onEVM (call caller (toAddress addr) input gas);
  called args retOffset retSize r.

Definition opCall : MF (slice * option vmError) := opCallValued Call.
Definition opCallCode : MF (slice * option vmError) := opCallValued CallCode.
Definition opDelegateCall : MF (slice * option vmError) := opCallPlain DelegateCall.
Definition opStaticCall : MF (slice * option vmError) := opCallPlain StaticCall.

(** ** Dynamic gas

    [inl] the cost, or [inr] an error. *)

Definition addGas (a b : Z) : Z + vmError := let (g, overflow) := SafeAdd a b in if overflow : bool then inr ErrGasUintOverflow else inl g.
Definition mulGas (a b : Z) : Z + vmError := let (g, overflow) := SafeMul a b in if overflow : bool then inr ErrGasUintOverflow else inl g.

(** Going on with a cost, or returning the error. *)
Definition paid (r : Z + vmError) (k : Z -> MF (Z + vmError)) : MF (Z + vmError) := match r with inl g => k g | inr e => mret (inr e) end.

(** [Uint64WithOverflow] of a size that is paid for. *)
Definition uint64Gas (x : Z) : Z + vmError := if uint256.IsUint64 x then inl (uint256.Uint64 x) else inr ErrGasUintOverflow.

Definition memoryGasCost (newMemSize : Z) : MF (Z + vmError) :=
  if newMemSize =? 0 then mret (inl 0)
  else if 0x1FFFFFFFE0 <? newMemSize then mret (inr ErrGasUintOverflow)
  else
    let words := toWordSize newMemSize in
    m ← gets Frame.memory;
    if Memory.Len m <? u64 (words * 32) then
      let square := u64 (words * words) in
      let linCoef := u64 (words * params.MemoryGas) in
      let quadCoef := square `div` params.QuadCoeffDiv in
      let newTotalFee := u64 (linCoef + quadCoef) in
      modify (fun f => Frame.set_memory f (Memory.mk (Memory.store (Frame.memory f)) newTotalFee));;
      mret (inl (u64 (newTotalFee - Memory.lastGasCost m)))
    else mret (inl 0).

(** A word of memory and so much for each word of the operand. *)
Definition perWordGas (stackpos wordCost : Z) (memorySize : Z) : MF (Z + vmError) :=
  gas ← memoryGasCost memorySize;
  paid gas (fun gas =>
    x ← Back stackpos;
    paid (uint64Gas x) (fun words => paid (mulGas (toWordSize words) wordCost) (fun words => mret (addGas gas words)))).

Definition memoryCopierGas (stackpos memorySize : Z) : MF (Z + vmError) := perWordGas stackpos params.CopyGas memorySize.
Definition gasSha3 (memorySize : Z) : MF (Z + vmError) := perWordGas 1 params.Sha3WordGas memorySize.
Definition gasCreate2 (memorySize : Z) : MF (Z + vmError) := perWordGas 2 params.Sha3WordGas memorySize.

Definition netGas (n : Net.t) (a x current value : bytes) : M Z :=
  if bool_decide (current = value) then mret (Net.noop n)
  else
    original ← GetCommittedState a x;
    if bool_decide (original = current) then
      if bool_decide (original = zeroHash) then mret (Net.init n)
      else
        when (bool_decide (value = zeroHash)) (AddRefund (Net.clearRefund n));;
        mret (Net.clean n)
    else
      (if negb (bool_decide (original = zeroHash)) then
         if bool_decide (current = zeroHash) then SubRefund (Net.clearRefund n)
         else when (bool_decide (value = zeroHash)) (AddRefund (Net.clearRefund n))
       else mret tt);;
      when (bool_decide (original = value))
        (AddRefund (if bool_decide (original = zeroHash) then Net.resetClearRefund n else Net.resetRefund n));;
      mret (Net.dirty n).

(** What a store costs before net metering, and after Petersburg removed it. *)
Definition legacyGas (current : bytes) (y : Z) : M Z :=
  if bool_decide (current = zeroHash) && negb (uint256.Sign y =? 0) then mret params.SstoreSetGas
  else if negb (bool_decide (current = zeroHash)) && (uint256.Sign y =? 0) then
    AddRefund params.SstoreRefundGas;; mret params.SstoreClearGas
  else mret params.SstoreResetGas.

Definition gasSStore (memorySize : Z) : MF (Z + vmError) :=
  y ← Back 1; x ← Back 0;
  a ← contract Contract.self;
  current ← db (GetState a (toHash x));
  g ← db (if Rules.IsPetersburg rules || negb (Rules.IsConstantinople rules) then legacyGas current y
          else netGas Net.eip1283 a (toHash x) current (toHash y));
  mret (inl g).

Definition gasSStoreEIP2200 (memorySize : Z) : MF (Z + vmError) :=
  gas ← contract Contract.Gas;
  if gas <=? params.SstoreSentryGasEIP2200 then mret (inr ErrSentry)
  else
    y ← Back 1; x ← Back 0;
    a ← contract Contract.self;
    current ← db (GetState a (toHash x));
    g ← db (netGas Net.eip2200 a (toHash x) current (toHash y));
    mret (inl g).

Definition makeGasLog (n memorySize : Z) : MF (Z + vmError) :=
  x ← Back 1;
  paid (uint64Gas x) (fun requestedSize =>
    gas ← memoryGasCost memorySize;
    paid gas (fun gas => paid (addGas gas params.LogGas) (fun gas => paid (addGas gas (n * params.LogTopicGas)) (fun gas =>
      paid (mulGas requestedSize params.LogDataGas) (fun data => mret (addGas gas data)))))).

Definition gasExp (perByte memorySize : Z) : MF (Z + vmError) :=
  x ← Back 1; mret (addGas (u64 ((uint256.BitLen x + 7) `div` 8 * perByte)) params.ExpGas).

(** The gas that goes along with a call, on top of [gas]. *)
Definition forwardGas (gas : Z) : MF (Z + vmError) :=
  available ← contract Contract.Gas;
  cost ← Back 0;
  paid (callGas (Rules.IsEIP150 rules) available gas cost) (fun temp =>
    onEVM (modify (fun e => EVM.set_callGasTemp e temp));;
    mret (addGas gas temp)).

Definition gasCall (memorySize : Z) : MF (Z + vmError) :=
  value ← Back 2;
  to ← Back 1;
  let transfersValue := negb (value =? 0) in
  new ← (if Rules.IsEIP158 rules then (if transfersValue then db (Empty (toAddress to)) else mret false)
         else e ← db (Exist (toAddress to)); mret (negb e));
  let gas := (if new : bool then params.CallNewAccountGas else 0) + (if transfersValue then params.CallValueTransferGas else 0) in
  memoryGas ← memoryGasCost memorySize;
  paid memoryGas (fun memoryGas => paid (addGas gas memoryGas) forwardGas).

Definition gasCallCode (memorySize : Z) : MF (Z + vmError) :=
  memoryGas ← memoryGasCost memorySize;
  paid memoryGas (fun memoryGas =>
    value ← Back 2;
    paid (addGas (if uint256.Sign value =? 0 then 0 else params.CallValueTransferGas) memoryGas) forwardGas).

(** [DELEGATECALL] and [STATICCALL]. *)
Definition gasCallPlain (memorySize : Z) : MF (Z + vmError) :=
  memoryGas ← memoryGasCost memorySize; paid memoryGas forwardGas.

Definition gasSelfdestruct (memorySize : Z) : MF (Z + vmError) :=
  a ← contract Contract.self;
  gas ← (if Rules.IsEIP150 rules then
           to ← Back 0;
           new ← (if Rules.IsEIP158 rules then
                    e ← db (Empty (toAddress to));
                    if e : bool then b ← db (GetBalance a); mret (negb (b =? 0)) else mret false
                  else e ← db (Exist (toAddress to)); mret (negb e));
           mret (params.SelfdestructGasEIP150 + (if new : bool then params.CreateBySelfdestructGas else 0))
         else mret 0);
  gone ← db (HasSuicided a);
  when (negb gone) (db (AddRefund params.SelfdestructRefundGas));;
  mret (inl gas).

(** ** Memory sizes *)

Definition memoryAt (off len : Z) (st : Stack.t) : outcome (Z * bool) :=
  let! o := Stack.Back st off in let! l := Stack.Back st len in Ret (calcMemSize64 o l).

Definition memoryFixed (size : Z) (st : Stack.t) : outcome (Z * bool) :=
  let! o := Stack.Back st 0 in Ret (calcMemSize64WithUint o size).

(** The larger one of the result and of the arguments of a call. *)
Definition memoryCall (ret arg : Z) (st : Stack.t) : outcome (Z * bool) :=
  let! (x, overflow) := memoryAt ret (ret + 1) st in
  if overflow : bool then Ret (0, true)
  else
    let! (y, overflow) := memoryAt arg (arg + 1) st in
    if overflow : bool then Ret (0, true) else Ret (if y <? x then x else y, false).

(** ** The tables *)

Definition minStack (pops push : Z) : Z := pops.
Definition maxStack (pop push : Z) : Z := params.StackLimit + pop - push.

Record operation := mkOperation {
  execute : MF (slice * option vmError);
  constantGas : Z;
  dynamicGas : option (Z -> MF (Z + vmError));
  op_minStack : Z;
  op_maxStack : Z;
  memorySize : option (Stack.t -> outcome (Z * bool));
  halts : bool; jumps : bool; writes : bool; reverts : bool; returns : bool
}.

(** An operation with a constant cost, and with what else some have. *)
Definition simple (m : MF (slice * option vmError)) (gas pops push : Z) : operation :=
  mkOperation m gas None (minStack pops push) (maxStack pops push) None false false false false false.
Definition with_gas (g : Z -> MF (Z + vmError)) (o : operation) : operation :=
  mkOperation (execute o) (constantGas o) (Some g) (op_minStack o) (op_maxStack o) (memorySize o) (halts o) (jumps o) (writes o) (reverts o) (returns o).
Definition with_memory (m : Stack.t -> outcome (Z * bool)) (o : operation) : operation :=
  mkOperation (execute o) (constantGas o) (dynamicGas o) (op_minStack o) (op_maxStack o) (Some m) (halts o) (jumps o) (writes o) (reverts o) (returns o).
Definition with_flags (h j w rv rt : bool) (o : operation) : operation :=
  mkOperation (execute o) (constantGas o) (dynamicGas o) (op_minStack o) (op_maxStack o) (memorySize o) h j w rv rt.
Definition reprice (gas : Z) (o : operation) : operation :=
  mkOperation (execute o) gas (dynamicGas o) (op_minStack o) (op_maxStack o) (memorySize o) (halts o) (jumps o) (writes o) (reverts o) (returns o).

Abbreviation halting := (with_flags true false false false false).
Abbreviation jumping := (with_flags false true false false false).
Abbreviation writing := (with_flags false false true false false).
Abbreviation returning := (with_flags false false false false true).

Definition newFrontierInstructionSet (op : OpCode.t) : option operation :=
  match op with
  | STOP => Some (halting (simple next 0 0 0))
  | ADD => Some (simple (opBinary uint256.Add) params.GasFastestStep 2 1)
  | MUL => Some (simple (opBinary uint256.Mul) params.GasFastStep 2 1)
  | SUB => Some (simple (opBinary uint256.Sub) params.GasFastestStep 2 1)
  | DIV => Some (simple (opBinary uint256.Div) params.GasFastStep 2 1)
  | SDIV => Some (simple (opBinary uint256.SDiv) params.GasFastStep 2 1)
  | MOD => Some (simple (opBinary uint256.Mod) params.GasFastStep 2 1)
  | SMOD => Some (simple (opBinary uint256.SMod) params.GasFastStep 2 1)
  | ADDMOD => Some (simple opAddmod params.GasMidStep 3 1)
  | MULMOD => Some (simple (opTernary uint256.MulMod) params.GasMidStep 3 1)
  | EXP => Some (with_gas (gasExp params.ExpByteFrontier) (simple (opBinary uint256.Exp) 0 2 1))
  | SIGNEXTEND => Some (simple (opBinary (fun back num => uint256.ExtendSign num back)) params.GasFastStep 2 1)
  | LT => Some (simple (opBinary (fun x y => isTrue (uint256.Lt x y))) params.GasFastestStep 2 1)
  | GT => Some (simple (opBinary (fun x y => isTrue (uint256.Gt x y))) params.GasFastestStep 2 1)
  | SLT => Some (simple (opBinary (fun x y => isTrue (uint256.Slt x y))) params.GasFastestStep 2 1)
  | SGT => Some (simple (opBinary (fun x y => isTrue (uint256.Sgt x y))) params.GasFastestStep 2 1)
  | EQ => Some (simple (opBinary (fun x y => isTrue (uint256.Eq x y))) params.GasFastestStep 2 1)
  | ISZERO => Some (simple (opUnary (fun x => isTrue (x =? 0))) params.GasFastestStep 1 1)
  | AND => Some (simple (opBinary uint256.And) params.GasFastestStep 2 1)
  | XOR => Some (simple (opBinary uint256.Xor) params.GasFastestStep 2 1)
  | OR => Some (simple (opBinary uint256.Or) params.GasFastestStep 2 1)
  | NOT => Some (simple (opUnary uint256.Not) params.GasFastestStep 1 1)
  | BYTE => Some (simple (opBinary (fun th val => uint256.Byte val th)) params.GasFastestStep 2 1)
  | SHA3 => Some (with_gas gasSha3 (with_memory (memoryAt 0 1) (simple opSha3 params.Sha3Gas 2 1)))
  | ADDRESS => Some (simple (opPushWord (fun f => uint256.SetBytes (Contract.self (Frame.contract f)))) params.GasQuickStep 0 1)
  | BALANCE => Some (simple opBalance params.BalanceGasFrontier 1 1)
  | ORIGIN => Some (simple (opConst (uint256.SetBytes (Context.Origin ctx))) params.GasQuickStep 0 1)
  | CALLER => Some (simple (opPushWord (fun f => uint256.SetBytes (Contract.CallerAddress (Frame.contract f)))) params.GasQuickStep 0 1)
  | CALLVALUE => Some (simple opCallValue params.GasQuickStep 0 1)
  | CALLDATALOAD => Some (simple opCallDataLoad params.GasFastestStep 1 1)
  | CALLDATASIZE => Some (simple (opPushWord (fun f => zlen (Contract.Input (Frame.contract f)))) params.GasQuickStep 0 1)
  | CALLDATACOPY => Some (with_gas (memoryCopierGas 2) (with_memory (memoryAt 0 2) (simple (opCopy (contract Contract.Input)) params.GasFastestStep 3 0)))
  | CODESIZE => Some (simple (opPushWord (fun f => zlen (Contract.Code (Frame.contract f)))) params.GasQuickStep 0 1)
  | CODECOPY => Some (with_gas (memoryCopierGas 2) (with_memory (memoryAt 0 2) (simple (opCopy (contract Contract.Code)) params.GasFastestStep 3 0)))
  | GASPRICE => Some (simple (opConst (uint256.FromBig (Context.GasPrice ctx))) params.GasQuickStep 0 1)
  | EXTCODESIZE => Some (simple opExtCodeSize params.ExtcodeSizeGasFrontier 1 1)
  | EXTCODECOPY => Some (with_gas (memoryCopierGas 3) (with_memory (memoryAt 1 3) (simple opExtCodeCopy params.ExtcodeCopyBaseFrontier 4 0)))
  | BLOCKHASH => Some (simple opBlockhash params.GasExtStep 1 1)
  | COINBASE => Some (simple (opConst (uint256.SetBytes (Context.Coinbase ctx))) params.GasQuickStep 0 1)
  | TIMESTAMP => Some (simple (opConst (uint256.FromBig (Context.Time ctx))) params.GasQuickStep 0 1)
  | NUMBER => Some (simple (opConst (uint256.FromBig (Context.BlockNumber ctx))) params.GasQuickStep 0 1)
  | DIFFICULTY => Some (simple (opConst (uint256.FromBig (Context.Difficulty ctx))) params.GasQuickStep 0 1)
  | GASLIMIT => Some (simple (opConst (Context.GasLimit ctx)) params.GasQuickStep 0 1)
  | POP => Some (simple (pop;; next) params.GasQuickStep 1 0)
  | MLOAD => Some (with_gas memoryGasCost (with_memory (memoryFixed 32) (simple opMload params.GasFastestStep 1 1)))
  | MSTORE => Some (with_gas memoryGasCost (with_memory (memoryFixed 32) (simple opMstore params.GasFastestStep 2 0)))
  | MSTORE8 => Some (with_gas memoryGasCost (with_memory (memoryFixed 1) (simple opMstore8 params.GasFastestStep 2 0)))
  | SLOAD => Some (simple opSload params.SloadGasFrontier 1 1)
  | SSTORE => Some (writing (with_gas gasSStore (simple opSstore 0 2 0)))
  | JUMP => Some (jumping (simple opJump params.GasMidStep 1 0))
  | JUMPI => Some (jumping (simple opJumpi params.GasSlowStep 2 0))
  | PC => Some (simple (opPushWord Frame.pc) params.GasQuickStep 0 1)
  | MSIZE => Some (simple (opPushWord (fun f => Memory.Len (Frame.memory f))) params.GasQuickStep 0 1)
  | GAS => Some (simple (opPushWord (fun f => Contract.Gas (Frame.contract f))) params.GasQuickStep 0 1)
  | JUMPDEST => Some (simple next params.JumpdestGas 0 0)
  | PUSH n => Some (simple (if n =? 1 then opPush1 else makePush n) params.GasFastestStep 0 1)
  | DUP n => Some (simple (makeDup n) params.GasFastestStep n (n + 1))
  | SWAP n => Some (simple (makeSwap n) params.GasFastestStep (n + 1) (n + 1))
  | LOG n => Some (writing (with_gas (makeGasLog n) (with_memory (memoryAt 0 1) (simple (makeLog n) 0 (n + 2) 0))))
  | CREATE => Some (with_flags false false true false true
      (with_gas memoryGasCost (with_memory (memoryAt 1 2) (simple opCreate params.CreateGas 3 1))))
  | CALL => Some (returning (with_gas gasCall (with_memory (memoryCall 5 3) (simple opCall params.CallGasFrontier 7 1))))
  | CALLCODE => Some (returning (with_gas gasCallCode (with_memory (memoryCall 5 3) (simple opCallCode params.CallGasFrontier 7 1))))
  | RETURN => Some (halting (with_gas memoryGasCost (with_memory (memoryAt 0 1) (simple opReturn 0 2 0))))
  | SELFDESTRUCT => Some (with_flags true false true false false (with_gas gasSelfdestruct (simple opSuicide 0 1 0)))
  | _ => None
  end.

Definition newHomesteadInstructionSet (op : OpCode.t) : option operation :=
  match op with
  | DELEGATECALL => Some (returning (with_gas gasCallPlain (with_memory (memoryCall 4 2) (simple opDelegateCall params.CallGasFrontier 6 1))))
  | _ => newFrontierInstructionSet op
  end.

Definition newTangerineWhistleInstructionSet (op : OpCode.t) : option operation :=
  let table := newHomesteadInstructionSet in
  match op with
  | BALANCE => reprice params.BalanceGasEIP150 <$> table op
  | EXTCODESIZE => reprice params.ExtcodeSizeGasEIP150 <$> table op
  | SLOAD => reprice params.SloadGasEIP150 <$> table op
  | EXTCODECOPY => reprice params.ExtcodeCopyBaseEIP150 <$> table op
  | CALL | CALLCODE | DELEGATECALL => reprice params.CallGasEIP150 <$> table op
  | _ => table op
  end.

Definition newSpuriousDragonInstructionSet (op : OpCode.t) : option operation :=
  match op with
  | EXP => with_gas (gasExp params.ExpByteEIP158) <$> newTangerineWhistleInstructionSet op
  | _ => newTangerineWhistleInstructionSet op
  end.

Definition newByzantiumInstructionSet (op : OpCode.t) : option operation :=
  match op with
  | STATICCALL => Some (returning (with_gas gasCallPlain (with_memory (memoryCall 4 2) (simple opStaticCall params.CallGasEIP150 6 1))))
  | RETURNDATASIZE => Some (simple (opPushWord (fun f => zlen (EVM.returnData (Frame.evm f)))) params.GasQuickStep 0 1)
  | RETURNDATACOPY => Some (with_gas (memoryCopierGas 2) (with_memory (memoryAt 0 2) (simple opReturnDataCopy params.GasFastestStep 3 0)))
  | REVERT => Some (with_flags false false false true true (with_gas memoryGasCost (with_memory (memoryAt 0 1) (simple opReturn 0 2 0))))
  | _ => newSpuriousDragonInstructionSet op
  end.

Definition newConstantinopleInstructionSet (op : OpCode.t) : option operation :=
  match op with
  | SHL => Some (simple opSHL params.GasFastestStep 2 1)
  | SHR => Some (simple opSHR params.GasFastestStep 2 1)
  | SAR => Some (simple opSAR params.GasFastestStep 2 1)
  | EXTCODEHASH => Some (simple opExtCodeHash params.ExtcodeHashGasConstantinople 1 1)
  | CREATE2 => Some (with_flags false false true false true
      (with_gas gasCreate2 (with_memory (memoryAt 1 2) (simple opCreate2 params.Create2Gas 4 1))))
  | _ => newByzantiumInstructionSet op
  end.

(** EIP-1344, EIP-1884 and EIP-2200, in this order. *)
Definition newIstanbulInstructionSet (op : OpCode.t) : option operation :=
  let table := newConstantinopleInstructionSet in
  match op with
  | CHAINID => Some (simple (opConst (uint256.FromBig (Rules.ChainID rules))) params.GasQuickStep 0 1)
  | SLOAD => reprice params.SloadGasEIP2200 <$> table op
  | BALANCE => reprice params.BalanceGasEIP1884 <$> table op
  | EXTCODEHASH => reprice params.ExtcodeHashGasEIP1884 <$> table op
  | SELFBALANCE => Some (simple opSelfBalance params.GasFastStep 0 1)
  | SSTORE => with_gas gasSStoreEIP2200 <$> table op
  | _ => table op
  end.

(** EIP-2315. *)
Definition newYoloV1InstructionSet (op : OpCode.t) : option operation :=
  match op with
  | BEGINSUB => Some (simple opBeginSub params.GasQuickStep 0 0)
  | JUMPSUB => Some (jumping (simple opJumpSub params.GasSlowStep 1 0))
  | RETURNSUB => Some (jumping (simple opReturnSub params.GasFastStep 0 0))
  | _ => newIstanbulInstructionSet op
  end.

(** The table of the interpreter. *)
Definition jumpTable (op : OpCode.t) : option operation :=
  (if Rules.IsYoloV1 rules then newYoloV1InstructionSet
   else if Rules.IsIstanbul rules then newIstanbulInstructionSet
   else if Rules.IsConstantinople rules then newConstantinopleInstructionSet
   else if Rules.IsByzantium rules then newByzantiumInstructionSet
   else if Rules.IsEIP158 rules then newSpuriousDragonInstructionSet
   else if Rules.IsEIP150 rules then newTangerineWhistleInstructionSet
   else if Rules.IsHomestead rules then newHomesteadInstructionSet
   else newFrontierInstructionSet) op.

(** ** The loop *)

(** Every thousandth step looks at the abort flag. *)
Definition aborted : MF bool :=
  modify (fun f => Frame.set_steps f (Frame.steps f + 1));;
  steps ← gets Frame.steps;
  if negb (steps mod 1000 =? 0) then mret false
  else
    n ← gets (fun f => EVM.loads (Frame.evm f));
    onEVM (modify (fun e => EVM.set_loads e (S n)));;
    mret (abort n).

(** The size that the memory must have, in bytes, or an overflow. *)
Definition neededMemory (o : operation) : MF (Z + vmError) :=
  match memorySize o with
  | None => mret (inl 0)
  | Some size =>
      st ← gets Frame.stack;
      r ← lift (size st);
      let (memSize, overflow) := (r : Z * bool) in
      if overflow then mret (inr ErrGasUintOverflow) else mret (mulGas (toWordSize memSize) 32)
  end.

(** The dynamic cost is taken, or the call ends with [ErrOutOfGas]. *)
Definition payDynamic (o : operation) (size : Z) : MF bool :=
  match dynamicGas o with
  | None => mret true
  | Some gas => r ← gas size; match r with inl cost => UseGas cost | inr _ => mret false end
  end.

(** The instruction, and how the loop goes on: [None] is another round. *)
Definition executeOp (o : operation) : MF (option (slice * option vmError)) :=
  r ← execute o;
  let (res, err) := (r : slice * option vmError) in
  when (returns o) (b ← read res; onEVM (modify (fun e => EVM.set_returnData e b)));;
  match err with
  | Some e => mret (Some (Own [], Some e))
  | None =>
      if reverts o then mret (Some (res, Some ErrExecutionReverted))
      else if halts o then mret (Some (res, None))
      else when (negb (jumps o)) (modify (fun f => Frame.set_pc f (u64 (Frame.pc f + 1))));; mret None
  end.

(** State must not change in a static call. *)
Definition protected (op : OpCode.t) (o : operation) : MF bool :=
  ro ← gets (fun f => EVM.readOnly (Frame.evm f));
  if ro && Rules.IsByzantium rules then
    if writes o then mret true
    else match op with CALL => v ← Back 2; mret (negb (uint256.Sign v =? 0)) | _ => mret false end
  else mret false.

Definition halt (e : vmError) : MF (option (slice * option vmError)) := mret (Some (Own [], Some e)).

(** What the loop does with an operation that passed the checks: the costs, the
    memory, the instruction. *)
Definition perform (o : operation) : MF (option (slice * option vmError)) :=
  enough ← UseGas (constantGas o);
  if negb enough then halt ErrOutOfGas
  else
    needed ← neededMemory o;
    match needed with
    | inr e => halt e
    | inl size =>
        enough ← payDynamic o size;
        if negb enough then halt ErrOutOfGas
        else
          when (0 <? size) (modify (fun f => Frame.set_memory f (Memory.Resize (Frame.memory f) size)));;
          executeOp o
    end.

(** One round of the loop. *)
Definition step : MF (option (slice * option vmError)) :=
  stop ← aborted;
  if stop : bool then mret (Some (Own [], None))
  else
    b ← gets (fun f => Contract.GetByte (Frame.contract f) (Frame.pc f));
    match (op ← decode b; o ← jumpTable op; Some (op, o)) with
    | None => halt (ErrInvalidOpCode b)
    | Some (op, o) =>
        sLen ← gets (fun f => zlen (Frame.stack f));
        if sLen <? op_minStack o then halt (ErrStackUnderflow sLen (op_minStack o))
        else if op_maxStack o <? sLen then halt (ErrStackOverflow sLen (op_maxStack o))
        else
          p ← protected op o;
          if p : bool then halt ErrWriteProtection else perform o
    end.
End Ops.

Section Interpreter.
Context {L : StateLib} {V : EvmLib} (ctx : Context.t).
Abbreviation ME := (ST EVM.t).
Abbreviation MF := (ST Frame.t).

(** [Run], around the loop. *)
Definition Run (loop : MF (slice * option vmError)) (c : Contract.t) (input : bytes) (readOnly : bool) : ME (bytes * option vmError * Contract.t) :=
  modify (fun e => EVM.set_depth e (EVM.depth e + 1));;
  ro ← gets EVM.readOnly;
  when (readOnly && negb ro) (modify (fun e => EVM.set_readOnly e true));;
  modify (fun e => EVM.set_returnData e []);;
  r ← (if bool_decide (Contract.Code c = []) then mret ([], None, c)
       else fun e =>
         let! (r, f) := loop (Frame.mk L e Memory.NewMemory [] [] (Contract.set_Input c input) 0 0) in
         Ret ((Memory.read (Frame.memory f) r.1, r.2, Frame.contract f), Frame.evm f));
  when (readOnly && negb ro) (modify (fun e => EVM.set_readOnly e false));;
  modify (fun e => EVM.set_depth e (EVM.depth e - 1));;
  mret r.

(** The loop, each round with less fuel, for itself and for the calls in it. *)
Fixpoint interpret (fuel : nat) : MF (slice * option vmError) :=
  match fuel with
  | O => panic "out of fuel"
  | S n =>
      r ← step ctx (Run (interpret n));
      match r with Some res => mret res | None => interpret n end
  end.

Definition run (fuel : nat) : Contract.t -> bytes -> bool -> ME (bytes * option vmError * Contract.t) := Run (interpret fuel).

(** [NewEVM]. *)
Definition NewEVM (s : StateDB.t) : EVM.t := EVM.mk L s 0 0 false [] ∅ 0.
End Interpreter.
End vm.
