(* ===== verification/EvmState.v ===== *)
(** * The state database under the virtual machine

    What the machine does with the state: which of the operations of [StateDB] can
    panic, the invariant of the code of accounts, and the class [Keeps], the
    interface between properties of states and the proofs about the machine: a
    property that the single actions of the machine keep is kept by whole calls. *)

From stdpp Require Import sorting.
From S2P Require Import Prelude GoStd Effects StateDB StateRevert StateSafety EvmData EvmOps.
Import state vm.

(** Opening the empty trie does not read the database, and cannot fail. *)
Class TrieLaws (L : StateLib) := {
  OpenStorageTrie_empty : forall db h, exists tr, OpenStorageTrie db h zeroHash = inl tr
}.

Section Total.
Context {L : StateLib} {HL : StateLaws L} {HT : TrieLaws L}.
Implicit Types (s t : StateDB.t) (a b k : bytes) (p : nat) (x : stateObject.t).

(** ** Reading never panics *)

Lemma openView_some db x : is_Some (openView db x).
Proof.
  unfold openView. destruct (stateObject.trie x); [by eexists|]. destruct (OpenStorageTrie db _ (Account.Root _)); [by eexists|].
  destruct (OpenStorageTrie_empty db (stateObject.addrHash x)) as [tr ->]. by eexists.
Qed.

Lemma committedView_some db snap d x k : is_Some (committedView db snap d x k).
Proof.
  assert (is_Some (trieSlot db x k)) as Ht.
  { unfold trieSlot. destruct (openView_some db x) as [tr ->]. cbn. destruct (TryGet tr k); by eexists. }
  unfold committedView, freshSlot. destruct (stateObject.fakeStorage x), (stateObject.pendingStorage x !! k), (stateObject.originStorage x !! k); try by eexists.
  destruct snap as [l|]; [|done]. destruct d; [by eexists|]. by destruct (SnapStorageOf l _ _); [eexists|].
Qed.

Lemma stateView_some db snap d x k : is_Some (stateView db snap d x k).
Proof.
  unfold stateView. destruct (stateObject.fakeStorage x), (stateObject.dirtyStorage x !! k); try by eexists. apply committedView_some.
Qed.

Lemma seen_some {A} (d : A) V a s : (forall db snap f x, is_Some (V db snap f x)) -> is_Some (seen d V a s).
Proof. intros HV. unfold seen. destruct (view s a) as [x|]; [|by eexists]. destruct (stateObject.deleted x); [by eexists|done]. Qed.

(** A computation that returns what can be read, and always returns. *)
Definition peeks {A} (m : M A) (v : StateDB.t -> option A) : Prop := observes m v /\ forall s, is_Some (v s).

Lemma getters_peek a k : peeks (Exist a) (vExist a) /\ peeks (Empty a) (vEmpty a) /\ peeks (GetBalance a) (vBalance a) /\
  peeks (GetNonce a) (vNonce a) /\ peeks (GetCodeHash a) (vCodeHash a) /\ peeks (HasSuicided a) (vSuicided a) /\
  peeks (GetCode a) (vCode a) /\ peeks (GetCodeSize a) (vCodeSize a) /\ peeks (GetState a k) (vState a k) /\
  peeks (GetCommittedState a k) (vCommitted a k).
Proof.
  destruct (getters_observe a k) as (H1 & H2 & H3 & H4 & H5 & H6 & H7 & H8 & H9 & H10).
  split_and!; (split; [done|]); intros s; apply seen_some; intros; try (by eexists); [apply stateView_some|apply committedView_some].
Qed.

Lemma peeks_twp {A} (m : M A) v s : peeks m v -> ok s -> twp m (fun y s' => quiet s s' /\ v s = Some y) s.
Proof.
  intros [Hm Hv] Hw. pose proof (Hm s Hw) as H. destruct (m s) as [[y s']|] eqn:E1; [by exists y, s'|].
  destruct (Hv s) as [y Hy]. congruence.
Qed.

(** ** Writing never panics *)

Definition returns_at {A} (m : M A) s : Prop := exists r, m s = Ret r.

Lemma getOrNew_returns {A} s a (g : nat -> M A) : ok s -> (forall p s1, opened s a p (base s a) s1 -> returns_at (g p) s1) ->
  returns_at (GetOrNewStateObject a ≫= g) s.
Proof.
  intros Hw Hg. destruct (getOrNew_spec s a Hw) as (p & s1 & E1 & O). destruct (Hg p s1 O) as [r Hr]. exists r.
  unfold mbind, ST_bind. by rewrite E1.
Qed.

Lemma setters_return s a : ok s -> (forall z, returns_at (AddBalance a z) s) /\ (forall z, returns_at (SubBalance a z) s) /\
  (forall n, returns_at (SetNonce a n) s) /\ (forall c, returns_at (SetCode a c) s) /\ (forall k v, returns_at (SetState a k v) s) /\
  returns_at (Suicide a) s /\ returns_at (CreateAccount a) s.
Proof.
  intros Hw. assert (forall p s1 x z, StateDB.objects s1 !! p = Some x -> returns_at (objSetBalance p z) s1) as Hb.
  { intros p s1 x z Hx. unfold returns_at, objSetBalance, mbind, ST_bind. rewrite (deref_run _ _ _ Hx). by eexists. }
  split_and!; [intros z..| | |intros k v| |].
  - apply getOrNew_returns; [done|]. intros p s1 O. unfold returns_at, objAddBalance, mbind, ST_bind. rewrite (deref_run _ _ _ (op_obj _ _ _ _ _ O)). cbn.
    destruct (z =? 0); [|by eapply Hb, O]. destruct (objEmpty _); [|by eexists].
    destruct (touch_goes s1 p _ (goes_ok _ _ (op_goes _ _ _ _ _ O)) (op_obj _ _ _ _ _ O)) as (s2 & E2 & _). cbn. rewrite E2. by eexists.
  - apply getOrNew_returns; [done|]. intros p s1 O. unfold returns_at, objSubBalance, mbind, ST_bind. rewrite (deref_run _ _ _ (op_obj _ _ _ _ _ O)). cbn.
    destruct (z =? 0); [by eexists|by eapply Hb, O].
  - intros n. apply getOrNew_returns; [done|]. intros p s1 O. unfold returns_at, objSetNonce, mbind, ST_bind. rewrite (deref_run _ _ _ (op_obj _ _ _ _ _ O)). by eexists.
  - intros c. apply getOrNew_returns; [done|]. intros p s1 O. pose proof (goes_ok _ _ (op_goes _ _ _ _ _ O)) as W1.
    pose proof (reads_code s1 a p _ _ s1 (cached_refl _ _ _ _ W1 (op_live _ _ _ _ _ O) (op_obj _ _ _ _ _ O)) (op_obj _ _ _ _ _ O)) as Hr.
    unfold returns_at, objSetCode, mbind, ST_bind. destruct (objCode p s1) as [[c0 s2]|]; [|done]. destruct Hr as (o2 & _ & Ho2 & _). cbn.
    rewrite (deref_run _ _ _ Ho2). by eexists.
  - apply getOrNew_returns; [done|]. intros p s1 O. pose proof (goes_ok _ _ (op_goes _ _ _ _ _ O)) as W1. destruct (opened_addr _ _ _ _ _ O) as (Ha & Hok & _).
    pose proof (reads_state s1 a p _ _ k Hok Ha s1 (cached_refl _ _ _ _ W1 (op_live _ _ _ _ _ O) (op_obj _ _ _ _ _ O)) (op_obj _ _ _ _ _ O)) as Hr.
    unfold returns_at, objSetState, mbind, ST_bind. rewrite (deref_run _ _ _ (op_obj _ _ _ _ _ O)). cbn. rewrite (ok_fake _ Hok).
    destruct (objGetState p k s1) as [[prev s2]|]; cbn; [case_bool_decide; by eexists|].
    by destruct (stateView_some (StateDB.db s1) (StateDB.snap s1) (flag s1 a) (base s a) k) as [? ?]; congruence.
  - unfold returns_at, Suicide, withObject, mbind, ST_bind. destruct (getStateObject_spec (stack s) s a Hw) as ([p|] & s1 & -> & F); cbn; [|by eexists].
    destruct (fo_some _ _ _ _ _ F p eq_refl) as (_ & y & Hy & _). rewrite (deref_run _ _ _ Hy). by eexists.
  - unfold returns_at, CreateAccount, mbind, ST_bind. destruct (createObject_spec s a Hw) as ([p r] & s1 & -> & C). cbn. destruct r as [q|]; [|by eexists].
    destruct C as (r & s0 & Hl & Hr). destruct r as [q'|]; [|by destruct Hr as [? _]]. destruct Hr as (o & Ho & Had & Hq & ->).
    destruct (stateObject.deleted o); [done|]. injection Hq as _ ->. rewrite (deref_run _ q' o) by (by apply lookup_app_l_Some). by eexists.
Qed.
End Total.

(** ** The code of accounts *)

(** A slice has fewer bytes than this. *)
Definition fits (b : bytes) : Prop := zlen b < 2 ^ 62.

Section Codes.
Context {L : StateLib} {HL : StateLaws L}.
Implicit Types (s t : StateDB.t) (a b k : bytes) (x : stateObject.t).

(** Code hashes to the code hash of its account. *)
Definition codes_ok s : Prop :=
  forall a c, vCode a s = Some (Some c) -> c <> [] -> vCodeHash a s = Some (Keccak256Hash c) /\ fits c.

Lemma codes_eqv es s t : eqv es s t -> codes_ok s -> codes_ok t.
Proof.
  intros He Hc a c. destruct (views_respect a zeroHash es s t He) as (_ & _ & _ & _ & Eh & _ & Ec & _). rewrite <- Eh, <- Ec. apply Hc.
Qed.

Lemma respects_code : respects (fun db _ _ (x : stateObject.t) => Some (codeView db x)).
Proof. intros db snap d x y [_ H _ _]. by rewrite H. Qed.

Lemma respects_hash : respects (fun _ _ _ (x : stateObject.t) => Some (BytesToHash (goBytes (Account.CodeHash (stateObject.data x))))).
Proof. apply (respects_data (fun d => BytesToHash (goBytes (Account.CodeHash d)))). Qed.

Lemma elsewhere_codes a s t : elsewhere a s t -> codes_ok s ->
  (forall c, vCode a t = Some (Some c) -> c <> [] -> vCodeHash a t = Some (Keccak256Hash c) /\ fits c) -> codes_ok t.
Proof.
  intros [E1 E2 E3] Hc Ha b c. destruct (decide (b = a)) as [->|Hb]; [apply Ha|].
  destruct (views_same b zeroHash s t E1 (E2 b Hb) (E3 b Hb)) as (_ & _ & _ & _ & -> & _ & -> & _). apply Hc.
Qed.

Lemma blank_code db a : codeView db (blank a) = None.
Proof. unfold codeView. cbn. by rewrite (proj2 (bytes_equal_true _ _)). Qed.

(** Setters of something else than the code. *)
Lemma sets_codes a f s t : sets a f s t -> (forall x, stateObject.deleted (f x) = stateObject.deleted x) ->
  (forall db x, codeView db (f x) = codeView db x) -> (forall x, Account.CodeHash (stateObject.data (f x)) = Account.CodeHash (stateObject.data x)) ->
  codes_ok s -> codes_ok t.
Proof.
  intros S Hd Hf Hh Hc. apply (elsewhere_codes a s); [apply S|done|]. intros c. unfold vCode, vCodeHash.
  rewrite (sets_seen _ _ a f s t S respects_code Hd), (sets_seen _ _ a f s t S respects_hash Hd), Hf, Hh.
  pose proof (Hc a c) as H. unfold vCode, vCodeHash, seen in H. unfold base. destruct (view s a) as [x|]; [|by rewrite blank_code].
  destruct (stateObject.deleted x); [by rewrite blank_code|done].
Qed.

Lemma SetCode_codes a c s t : sets a (fCode (Keccak256Hash (goBytes c)) c) s t -> fits (goBytes c) -> codes_ok s -> codes_ok t.
Proof.
  intros S Hf Hc. apply (elsewhere_codes a s); [apply S|done|]. intros d. unfold vCode, vCodeHash.
  rewrite (sets_seen _ _ a _ s t S respects_code ltac:(done)), (sets_seen _ _ a _ s t S respects_hash ltac:(done)).
  unfold codeView, fCode. cbn. rewrite BytesToHash_hash. destruct c as [c|]; cbn in *; [by intros [= ->]|].
  by rewrite (proj2 (bytes_equal_true _ _)).
Qed.

Lemma same_objects s t a : still t = still s -> StateDB.snapDestructs t = StateDB.snapDestructs s -> StateDB.objects t = StateDB.objects s ->
  StateDB.stateObjects t = StateDB.stateObjects s -> view t a = view s a /\ flag t a = flag s a.
Proof.
  intros H1 H2 H3 H4. split; [|unfold flag; by rewrite H2]. unfold view. rewrite H3, H4, (loadAccount_still t s a H1). done.
Qed.

(** What is not about objects does not change what is read of them. *)
Definition objects_kept s t : Prop :=
  still t = still s /\ StateDB.snapDestructs t = StateDB.snapDestructs s /\ StateDB.objects t = StateDB.objects s /\ StateDB.stateObjects t = StateDB.stateObjects s.

Lemma kept_views s t b k : objects_kept s t ->
  vExist b t = vExist b s /\ vEmpty b t = vEmpty b s /\ vBalance b t = vBalance b s /\ vNonce b t = vNonce b s /\ vCodeHash b t = vCodeHash b s /\
  vSuicided b t = vSuicided b s /\ vCode b t = vCode b s /\ vCodeSize b t = vCodeSize b s /\ vState b k t = vState b k s /\ vCommitted b k t = vCommitted b k s.
Proof.
  intros (H1 & H2 & H3 & H4). destruct (same_objects s t b H1 H2 H3 H4) as [Hv Hf]. apply views_same; [done|done|]. rewrite Hv. apply oeq_refl.
Qed.

Lemma kept_codes s t : objects_kept s t -> codes_ok s -> codes_ok t.
Proof.
  intros Hk Hc a c. destruct (kept_views s t a zeroHash Hk) as (_ & _ & _ & _ & -> & _ & -> & _). apply Hc.
Qed.

(** ** The database during a call *)

(** From [s] the operations of a transaction, with snapshots, lead to [t]. *)
Record follows s t : Prop := {
  fl_from : from s t;
  fl_revs : exists later, StateDB.validRevisions t = StateDB.validRevisions s ++ later;
  fl_ok : revs_ok t
}.

Lemma follows_refl s : ok s -> revs_ok s -> follows s s.
Proof. intros Hw Hr. split; [|exists []; by rewrite app_nil_r|done]. apply (goes_refl s Hw). Qed.

Lemma follows_trans s t u : follows s t -> follows t u -> follows s u.
Proof.
  intros [A1 [l A2] A3] [B1 [l' B2] B3]. split; [by eapply from_trans| |done]. exists (l ++ l'). by rewrite B2, A2, app_assoc.
Qed.

Lemma follows_goes s t u : follows s t -> goes t u -> follows s u.
Proof.
  intros F G. eapply follows_trans; [exact F|]. split; [apply G| |exact (goes_revs_ok _ _ G (fl_ok _ _ F))].
  exists []. rewrite app_nil_r. destruct G as [_ G]. unfold revs in G. congruence.
Qed.

Lemma follows_valid s t : follows s t -> ok t.
Proof. intros F. by eapply from_ok, fl_from. Qed.

Lemma follows_snapped s : ok s -> revs_ok s -> follows s (snapped s).
Proof.
  intros Hw Hr. pose proof (since_snapped s Hw Hr) as [H1 [l H2] H3]. split; [done| |done]. by eexists.
Qed.

(** A snapshot can be reverted to whatever follows it. *)
Lemma follows_revert s t : ok s -> revs_ok s -> follows (snapped s) t ->
  exists u, RevertToSnapshot (StateDB.nextRevisionId s) t = Ret (tt, u) /\ follows s u /\ eqv (stack s) s u.
Proof.
  intros Hw Hr [F1 [l F2] F3]. pose proof (since_snapped s Hw Hr) as [H1 _ _].
  assert (since s t) as Hsi.
  { split; [by eapply from_trans| |done]. exists l. rewrite F2. cbn. by rewrite <- app_assoc. }
  destruct (since_restores s t Hsi) as (u & Eu & He & Hst & Hv & Hwu). exists u. split; [done|]. split; [|done].
  destruct (revert_ok _ _ _ (from_ok _ _ F1) F3 Eu) as [_ Hru]. split; [|exists []; by rewrite app_nil_r|done].
  apply from_same; [done|by rewrite <- Hst|done].
Qed.
End Codes.

(** ** The setters leave the counter and the logs alone *)

Section Leaves.
Context {L : StateLib}.
Implicit Types (s t : StateDB.t) (a k : bytes) (z : Z).

Definition aux s := (StateDB.refund s, StateDB.logs s).
Definition left_by s t : Prop := aux t = aux s /\ StateDB.snapDestructs s ⊆ StateDB.snapDestructs t.
Definition leaves {A} (m : M A) : Prop := forall s x t, m s = Ret (x, t) -> left_by s t.

Lemma leaves_bind {A B} (m : M A) (f : A -> M B) : leaves m -> (forall x, leaves (f x)) -> leaves (m ≫= f).
Proof.
  intros Hm Hf s y t. unfold mbind, ST_bind. destruct (m s) as [[x s1]|] eqn:E1; [|done]. cbn. intros E2.
  destruct (Hf x _ _ _ E2) as [A1 B1], (Hm _ _ _ E1) as [A2 B2]. split; [congruence|set_solver].
Qed.

Lemma leaves_gets {A} (f : StateDB.t -> A) : leaves (gets f).
Proof. by intros s x t [= <- <-]. Qed.

Lemma leaves_ret {A} (x : A) : leaves (mret x).
Proof. by intros s y t [= <- <-]. Qed.

Lemma leaves_modify f : (forall s, left_by s (f s)) -> leaves (modify f).
Proof. intros Hf s x t [= <- <-]. apply Hf. Qed.

Lemma leaves_nonNil {A} (x : option A) : leaves (nonNil x).
Proof. destruct x; [apply leaves_ret|done]. Qed.

End Leaves.

Ltac leaves := first [ apply leaves_bind; [|intros ?] | apply leaves_ret | apply leaves_gets | apply leaves_nonNil | apply leaves_modify; intros ?; split; [done|set_solver] | progress cbv beta iota zeta | case_match; try done ].

Section Setters.
Context {L : StateLib}.
Implicit Types (s t : StateDB.t) (a k : bytes) (z : Z).

Lemma leaves_deref p : leaves (deref p).
Proof. unfold deref. repeat leaves. Qed.

Lemma leaves_update p f : leaves (update p f).
Proof. unfold update. by apply leaves_modify. Qed.

Lemma leaves_getDeleted a : leaves (getDeletedStateObject a).
Proof. unfold getDeletedStateObject, alloc, setStateObject, setError. repeat first [apply leaves_deref|leaves]. Qed.

Lemma leaves_create a : leaves (createObject a).
Proof. unfold createObject, alloc, setStateObject, journalAppend, when. repeat first [apply leaves_getDeleted|apply leaves_deref|leaves]. Qed.

Lemma leaves_getOrNew a : leaves (GetOrNewStateObject a).
Proof. unfold GetOrNewStateObject, getStateObject. repeat first [apply leaves_getDeleted|apply leaves_create|apply leaves_deref|leaves]. Qed.

Lemma leaves_getState p k : leaves (objGetState p k).
Proof.
  unfold objGetState, objGetCommittedState, readSlot, getTrie, cacheSlot, objSetError, when. repeat first [apply leaves_deref|apply leaves_update|leaves].
Qed.

Lemma setters_leave a : (forall z, leaves (AddBalance a z)) /\ (forall z, leaves (SubBalance a z)) /\ (forall n, leaves (SetNonce a n)) /\ (forall c, leaves (SetCode a c)) /\
  (forall k v, leaves (SetState a k v)) /\ leaves (Suicide a) /\ leaves (CreateAccount a).
Proof.
  split_and!; intros; unfold AddBalance, SubBalance, SetNonce, SetCode, SetState, Suicide, CreateAccount, objAddBalance, objSubBalance, objSetBalance, objSetNonce, objSetCode, objCode, objSetState, touch,
    withObject, getStateObject, setBalance, setNonce, setCode, setState, journalAppend, journalDirty, objSetError, when;
    repeat first [apply leaves_getOrNew|apply leaves_getDeleted|apply leaves_create|apply leaves_getState|apply leaves_deref|apply leaves_update|leaves].
Qed.
End Setters.

(** ** What a failed creation leaves *)

Section Nonce.
Context {L : StateLib} {HL : StateLaws L}.
Implicit Types (s t u : StateDB.t) (a b k : bytes).

(** Everything that is read of the account is the same. *)
Definition same_views b s t : Prop := forall k,
  vExist b t = vExist b s /\ vEmpty b t = vEmpty b s /\ vBalance b t = vBalance b s /\ vNonce b t = vNonce b s /\ vCodeHash b t = vCodeHash b s /\
  vSuicided b t = vSuicided b s /\ vCode b t = vCode b s /\ vCodeSize b t = vCodeSize b s /\ vState b k t = vState b k s /\ vCommitted b k t = vCommitted b k s.

Lemma same_eqv es b s t : eqv es s t -> same_views b s t.
Proof. intros He k. destruct (views_respect b k es s t He) as (-> & -> & -> & -> & -> & -> & -> & -> & -> & ->). done. Qed.

Lemma same_views_trans b s t u : same_views b s t -> same_views b t u -> same_views b s u.
Proof.
  intros H1 H2 k. destruct (H1 k) as (A1 & A2 & A3 & A4 & A5 & A6 & A7 & A8 & A9 & A10), (H2 k) as (B1 & B2 & B3 & B4 & B5 & B6 & B7 & B8 & B9 & B10).
  by rewrite B1, B2, B3, B4, B5, B6, B7, B8, B9, B10.
Qed.

(** The refund counter and the logs that are read are the same. *)
Definition same_aux s t : Prop := StateDB.refund t = StateDB.refund s /\ forall h, default [] (StateDB.logs t !! h) = default [] (StateDB.logs s !! h).

Lemma aux_same s t : aux t = aux s -> same_aux s t.
Proof. intros [= E1 E2]. split; [done|]. intros h. by rewrite E2. Qed.

(** Only the account [a] differs, and neither in its code nor, when it existed, in
    its slots. *)
Definition onlyAt a s t : Prop :=
  (forall b, b <> a -> same_views b s t) /\ vCode a t = vCode a s /\ same_aux s t /\
  (vExist a s = Some true -> vExist a t = Some true /\ forall k, vState a k t = vState a k s /\ vCommitted a k t = vCommitted a k s).

Lemma onlyAt_eqv a s t es : eqv es s t -> onlyAt a s t.
Proof.
  intros He. split; [intros b _; by eapply same_eqv|]. pose proof (same_eqv es a s t He) as H. destruct (H zeroHash) as (-> & _ & _ & _ & _ & _ & -> & _). split_and!; [done| |].
  - apply aux_same. destruct He as [_ E _ _]. unfold rest in E. injection E. unfold aux. congruence.
  - intros Hx. split; [done|]. intros k. by destruct (H k) as (_ & _ & _ & _ & _ & _ & _ & _ & -> & ->).
Qed.

Lemma onlyAt_trans a s t u : onlyAt a s t -> onlyAt a t u -> onlyAt a s u.
Proof.
  intros (A1 & A2 & A3 & A4) (B1 & B2 & B3 & B4). split_and!; [intros b Hb; eapply same_views_trans; [by apply A1|by apply B1]|congruence| |].
  { destruct A3 as [A5 A6], B3 as [B5 B6]. split; [congruence|]. intros h. by rewrite B6, A6. }
  intros Hx. destruct (A4 Hx) as [Ht Ha]. destruct (B4 Ht) as [Hu Hb]. split; [done|]. intros k. destruct (Ha k) as [<- <-]. apply Hb.
Qed.

Lemma sets_onlyAt a f s t : sets a f s t -> aux t = aux s -> (forall x, stateObject.deleted (f x) = stateObject.deleted x) -> (forall db x, codeView db (f x) = codeView db x) ->
  (forall db snap d x k, stateView db snap d (f x) k = stateView db snap d x k) -> (forall db snap d x k, committedView db snap d (f x) k = committedView db snap d x k) -> onlyAt a s t.
Proof.
  intros S Ha Hd Hc Hs Hm. pose proof S as (_ & [E1 E2 E3] & Hfl & _). split; [intros b Hb k; by apply views_same; [|apply E2|apply E3]|]. split_and!; [|by apply aux_same|].
  - unfold vCode. rewrite (sets_seen _ _ a _ s t S respects_code Hd), Hc. unfold seen, base. destruct (view s a) as [x|]; [|by rewrite blank_code]. destruct (stateObject.deleted x); [by rewrite blank_code|done].
  - intros Hp%vExist_present. specialize (Hfl Hp). split; [unfold vExist; by rewrite (sets_seen false _ a f s t S (respects_core (fun _ => true) ltac:(done)) Hd)|].
    intros k. unfold vState, vCommitted. rewrite (sets_seen _ _ a _ s t S (respects_state k) Hd), (sets_seen _ _ a _ s t S (respects_committed k) Hd), Hfl, Hs, Hm.
    unfold seen. rewrite (base_present _ _ Hp), base_deleted. done.
Qed.

(** At most the nonce of [a] differs, and that [a] exists. *)
Definition nonceOnly a s t : Prop := onlyAt a s t /\ vBalance a t = vBalance a s.

Lemma nonceOnly_eqv a s t es : eqv es s t -> nonceOnly a s t.
Proof. intros He. split; [by eapply onlyAt_eqv|]. by destruct (same_eqv es a s t He zeroHash) as (_ & _ & -> & _). Qed.

Lemma nonceOnly_trans a s t u : nonceOnly a s t -> nonceOnly a t u -> nonceOnly a s u.
Proof. intros [A1 A2] [B1 B2]. split; [by eapply onlyAt_trans|congruence]. Qed.

Lemma nonceOnly_after a s t u es : nonceOnly a s t -> eqv es t u -> nonceOnly a s u.
Proof. intros H He. eapply nonceOnly_trans; [exact H|by eapply nonceOnly_eqv]. Qed.

Lemma nonceOnly_before a s t u es : eqv es s t -> nonceOnly a t u -> nonceOnly a s u.
Proof. intros He H. eapply nonceOnly_trans; [by eapply nonceOnly_eqv|exact H]. Qed.

Lemma SetNonce_only a n s t : ok s -> SetNonce a n s = Ret (tt, t) -> nonceOnly a s t.
Proof.
  intros Hw Hm. pose proof (wp_run _ _ _ _ _ (SetNonce_sets s a n Hw) Hm) as S. destruct (setters_leave a) as (_ & _ & Hl & _). destruct (Hl n s tt t Hm) as [Ha _].
  split; [eapply sets_onlyAt; [exact S|exact Ha|done..]|]. rewrite (base_balance s a). unfold vBalance. by rewrite (sets_seen 0 _ a _ s t S (respects_data Account.Balance) ltac:(done)).
Qed.
End Nonce.

(** ** Properties that the machine keeps

    [J g s] is a property of the state [s] when [g] gas is left to the transaction,
    [K a k v g s] one that holds after a store was paid for and before it is done.
    [static] tells that only calls that may not write are considered, [P] which
    panics the property does not exclude. *)
Class Keeps {L : StateLib} {V : EvmLib} (rules : Rules.t) (static : bool) (P : string -> Prop)
    (J : Z -> StateDB.t -> Prop) (K : bytes -> bytes -> bytes -> Z -> StateDB.t -> Prop) := {
  J_less : forall g g' s, g' <= g -> J g s -> J g' s;
  K_less : forall a k v g g' s, g' <= g -> K a k v g s -> K a k v g' s;
  J_eqv : forall es g s t, eqv es s t -> J g s -> J g t;
  J_create : forall g s t a, ok s -> ok t -> (static = true -> vExist a s = Some false) -> CreateAccount a s = Ret (tt, t) -> J g s -> J g t;
  J_transfer : forall g s t a b z, ok s -> ok t -> 0 <= z -> (z <> 0 -> exists x, vBalance a s = Some x /\ z <= x) -> (static = true -> z = 0) ->
    Transfer a b z s = Ret (tt, t) -> J g s -> J g t;
  J_touch : forall g s t a, ok s -> ok t -> AddBalance a 0 s = Ret (tt, t) -> J g s -> J g t;
  J_nonce : forall g s t a n, static = false -> ok s -> ok t -> SetNonce a n s = Ret (tt, t) -> J g s -> J g t;
  J_code : forall g s t a c, static = false -> ok s -> ok t -> SetCode a c s = Ret (tt, t) -> J g s -> J g t;
  J_log : forall g s t l, static = false -> ok s -> ok t -> AddLog l s = Ret (tt, t) -> J g s -> J g t;
  J_preimage : forall g s t h b, ok s -> ok t -> AddPreimage h b s = Ret (tt, t) -> J g s -> J g t;
  J_suicide : forall g s t a b z r, static = false -> ok s -> ok t -> vBalance a s = Some z -> (AddBalance b z;; Suicide a) s = Ret (r, t) -> J g s -> J g t;
  J_gone : forall g s t, static = false -> ok s -> ok t -> AddRefund params.SelfdestructRefundGas s = Ret (tt, t) -> J g s ->
    J (g - if Rules.IsEIP150 rules then params.SelfdestructGasEIP150 else 0) t;
  K_legacy : forall g s t a k y current c, static = false -> ok s -> ok t -> uint256.word y -> vState a k s = Some current ->
    legacyGas current y s = Ret (c, t) -> J g s -> K a k (toHash y) (g - c) t;
  K_net : forall n g s t a k v current c, n ∈ [Net.eip1283; Net.eip2200] -> static = false -> ok s -> ok t -> vState a k s = Some current ->
    netGas n a k current v s = Ret (c, t) -> J g s -> K a k v (g - c) t;
  P_net : forall n g s a k v current why, n ∈ [Net.eip1283; Net.eip2200] -> static = false -> 0 <= g -> ok s -> vState a k s = Some current ->
    netGas n a k current v s = Panic why -> J g s -> P why;
  J_store : forall g s t a k v, ok s -> ok t -> SetState a k v s = Ret (tt, t) -> K a k v g s -> J g t
}.

Section Actions.
Context {L : StateLib} {HL : StateLaws L} {HT : TrieLaws L} {V : EvmLib}.
Context {rules : Rules.t} {static : bool} {P : string -> Prop} {J : Z -> StateDB.t -> Prop} {K : bytes -> bytes -> bytes -> Z -> StateDB.t -> Prop}.
Context {HK : Keeps rules static P J K}.
Implicit Types (s t : StateDB.t) (a b k : bytes) (g z : Z).

(** The state [s] of a call that started with [s0]; after an error nothing is said
    about [J]. *)
Definition follows_ok s0 s : Prop := follows s0 s /\ codes_ok s.
Definition session s0 g s : Prop := follows_ok s0 s /\ J g s.

Lemma session_ok s0 g s : session s0 g s -> ok s.
Proof. intros [[F _] _]. by eapply follows_valid. Qed.

Lemma session_less s0 g g' s : g' <= g -> session s0 g s -> session s0 g' s.
Proof. intros Hg [F H]. split; [done|by eapply J_less]. Qed.

Lemma session_eqv s0 g s t : session s0 g s -> quiet s t -> session s0 g t.
Proof.
  intros [[F C] H] Q. split; [split|].
  - by eapply follows_goes, quiet_goes.
  - by eapply codes_eqv, C; apply Q.
  - by eapply J_eqv; [apply Q|].
Qed.

Lemma act_read {A} (m : M A) v s0 g s : peeks m v -> session s0 g s ->
  pwp P m (fun y t => session s0 g t /\ v s = Some y /\ quiet s t) s.
Proof.
  intros Hm S. apply pwp_total. eapply twp_mono; [by apply (peeks_twp m v), (session_ok s0 g)|]. intros y t [Q Hy].
  by split; [eapply session_eqv|].
Qed.

(** An action that can be undone and that keeps the property. *)
Lemma act {A} (m : M A) s0 g s (R : Z -> StateDB.t -> Prop) : session s0 g s -> returns_at m s -> wp m (fun _ t => goes s t /\ codes_ok t) s ->
  (forall y t, m s = Ret (y, t) -> ok s -> ok t -> J g s -> R g t) -> pwp P m (fun _ t => follows_ok s0 t /\ R g t) s.
Proof.
  intros S [[y t] Hm] Hw HR. pose proof (session_ok _ _ _ S) as Hok. destruct S as [[F C] H]. unfold wp in Hw. rewrite Hm in Hw. destruct Hw as [G C'].
  eapply pwp_run; [exact Hm|]. split; [split; [by eapply follows_goes|done]|]. eapply HR; [done|done|by eapply goes_ok|done].
Qed.

Lemma wp_goes {A} (m : M A) s (Q : A -> StateDB.t -> Prop) : wp m Q s -> (forall y t, Q y t -> goes s t /\ codes_ok t) -> wp m (fun _ t => goes s t /\ codes_ok t) s.
Proof. intros H HQ. eapply wp_mono; [exact H|]. eauto. Qed.

Lemma sets_goes_codes a f s t : codes_ok s -> (forall x, stateObject.deleted (f x) = stateObject.deleted x) ->
  (forall db x, codeView db (f x) = codeView db x) -> (forall x, Account.CodeHash (stateObject.data (f x)) = Account.CodeHash (stateObject.data x)) ->
  sets a f s t -> goes s t /\ codes_ok t.
Proof. intros C H1 H2 H3 S. split; [apply S|by eapply sets_codes]. Qed.

Lemma add_keeps s a z : ok s -> codes_ok s -> wp (AddBalance a z) (fun _ t => goes s t /\ codes_ok t) s.
Proof. intros Hw C. eapply wp_goes; [by apply AddBalance_sets|]. intros ? t. by apply sets_goes_codes. Qed.

Lemma sub_keeps s a z : ok s -> codes_ok s -> wp (SubBalance a z) (fun _ t => goes s t /\ codes_ok t) s.
Proof. intros Hw C. eapply wp_goes; [by apply SubBalance_sets|]. intros ? t. by apply sets_goes_codes. Qed.

Lemma suicide_keeps s a : ok s -> codes_ok s -> wp (Suicide a) (fun _ t => goes s t /\ codes_ok t) s.
Proof.
  intros Hw C. unfold wp. destruct (Suicide a s) as [[r t]|] eqn:E1; [|done]. pose proof (Suicide_sets s a Hw) as H. unfold wp in H. rewrite E1 in H.
  destruct H as [G H]. split; [done|]. destruct r; [by eapply sets_goes_codes, H|].
  unfold Suicide, withObject, mbind, ST_bind in E1. destruct (getStateObject_spec (stack s) s a Hw) as ([p|] & s2 & E2 & F); rewrite E2 in E1; cbn in E1.
  - destruct (fo_some _ _ _ _ _ F p eq_refl) as (_ & y & Hy & _). unfold mbind, ST_bind in E1. by rewrite (deref_run _ _ _ Hy) in E1.
  - injection E1 as <-. eapply codes_eqv; [apply F|done].
Qed.

Lemma then_keeps {A B} (m : M A) (n : M B) s : ok s -> codes_ok s -> wp m (fun _ t => goes s t /\ codes_ok t) s ->
  (forall t, ok t -> codes_ok t -> wp n (fun _ u => goes t u /\ codes_ok u) t) -> wp (m;; n) (fun _ t => goes s t /\ codes_ok t) s.
Proof.
  intros Hw C Hm Hn. apply wp_bind. eapply wp_mono; [exact Hm|]. intros _ t [G Ct]. eapply wp_mono; [by apply Hn; [eapply goes_ok|]|].
  intros _ u [G' Cu]. split; [by eapply goes_then|done].
Qed.

Lemma then_returns {A B} (m : M A) (n : M B) s : returns_at m s -> (forall y t, m s = Ret (y, t) -> returns_at n t) -> returns_at (m;; n) s.
Proof. intros [[y t] Hm] Hn. destruct (Hn y t Hm) as [r Hr]. exists r. unfold mbind, ST_bind. by rewrite Hm. Qed.

(** *** The actions *)

Definition balances s t : Prop := forall b, vBalance b t = vBalance b s.

Lemma elsewhere_balances a s t : elsewhere a s t -> vBalance a t = vBalance a s -> balances s t.
Proof.
  intros [E1 E2 E3] Ha b. destruct (decide (b = a)) as [->|Hb]; [done|].
  by destruct (views_same b zeroHash s t E1 (E2 b Hb) (E3 b Hb)) as (_ & _ & -> & _).
Qed.

Lemma create_balances s t a : ok s -> CreateAccount a s = Ret (tt, t) -> balances s t.
Proof.
  intros Hw Hm. destruct (wp_run _ _ _ _ _ (CreateAccount_spec s a Hw) Hm) as (_ & He & x & Hv & ->).
  apply (elsewhere_balances a); [done|]. rewrite (base_balance s a). unfold vBalance, seen. by rewrite Hv.
Qed.

Lemma nonce_balances s t a n : ok s -> SetNonce a n s = Ret (tt, t) -> balances s t.
Proof.
  intros Hw Hm. pose proof (wp_run _ _ _ _ _ (SetNonce_sets s a n Hw) Hm) as S. apply (elsewhere_balances a); [apply S|].
  rewrite (base_balance s a). unfold vBalance. by rewrite (sets_seen 0 _ a _ s t S (respects_data Account.Balance) ltac:(done)).
Qed.

Lemma act_create s0 g s a : session s0 g s -> (static = true -> vExist a s = Some false) ->
  pwp P (CreateAccount a) (fun _ t => session s0 g t /\ balances s t) s.
Proof.
  intros S Hs. pose proof (session_ok _ _ _ S) as Hw. eapply pwp_mono; [apply (act _ _ g _ (fun g t => J g t /\ balances s t) S)|].
  - by apply (setters_return s a).
  - eapply wp_goes; [by apply CreateAccount_spec|]. intros ? t (G & He & x & Hv & ->). split; [done|]. apply (elsewhere_codes a s); [done|apply S|].
    intros c. unfold vCode, seen. rewrite Hv. change (codeView _ _) with (codeView (StateDB.db t) (blank a)). by rewrite blank_code.
  - intros [] t Hm _ Ht H. split; [by apply (J_create g s t a)|by eapply create_balances].
  - intros ? t (F & H & B). by split.
Qed.

Lemma act_nonce s0 g s a n : static = false -> session s0 g s -> pwp P (SetNonce a n) (fun _ t => session s0 g t /\ balances s t /\ nonceOnly a s t) s.
Proof.
  intros Hs S. pose proof (session_ok _ _ _ S) as Hw. eapply pwp_mono; [apply (act _ _ g _ (fun g t => J g t /\ balances s t /\ nonceOnly a s t) S)|].
  - by apply (setters_return s a).
  - eapply wp_goes; [by apply SetNonce_sets|]. intros ? t. apply sets_goes_codes; try done. apply S.
  - intros [] t Hm _ Ht H. split_and!; [by apply (J_nonce g s t a n)|by eapply nonce_balances|by eapply SetNonce_only].
  - intros ? t (F & H & B & C). by split.
Qed.

Lemma act_transfer s0 g s a b z : session s0 g s -> 0 <= z -> (z <> 0 -> exists x, vBalance a s = Some x /\ z <= x) -> (static = true -> z = 0) ->
  pwp P (Transfer a b z) (fun _ t => session s0 g t) s.
Proof.
  intros S Hz Hb Hs. pose proof (session_ok _ _ _ S) as Hw. apply (act _ _ g _ J S).
  - apply then_returns; [by apply (setters_return s a)|]. intros [] t Hm. apply (setters_return t b).
    eapply goes_ok. by apply (wp_run _ _ _ _ _ (SubBalance_sets s a z Hw) Hm).
  - apply then_keeps; [done|apply S|by apply sub_keeps, S|]. intros t Ht Ct. by apply add_keeps.
  - intros [] t Hm _ Ht H. by apply (J_transfer g s t a b z).
Qed.

Lemma act_touch s0 g s a : session s0 g s -> pwp P (AddBalance a 0) (fun _ t => session s0 g t) s.
Proof.
  intros S. pose proof (session_ok _ _ _ S) as Hw. apply (act _ _ g _ J S); [by apply (setters_return s a)|by apply add_keeps, S|].
  intros [] t Hm _ Ht H. by apply (J_touch g s t a).
Qed.

Lemma act_code s0 g s a c : static = false -> fits c -> session s0 g s -> pwp P (SetCode a (Some c)) (fun _ t => session s0 g t) s.
Proof.
  intros Hs Hf S. pose proof (session_ok _ _ _ S) as Hw. apply (act _ _ g _ J S); [by apply (setters_return s a)| |].
  - eapply wp_goes; [by apply SetCode_sets|]. intros ? t St. split; [apply St|]. eapply SetCode_codes; [exact St|done|apply S].
  - intros [] t Hm _ Ht H. by apply (J_code g s t a (Some c)).
Qed.

Lemma act_suicide s0 g s a b z : static = false -> session s0 g s -> vBalance a s = Some z -> pwp P (AddBalance b z;; Suicide a) (fun _ t => session s0 g t) s.
Proof.
  intros Hs S Hz. pose proof (session_ok _ _ _ S) as Hw. apply (act _ _ g _ J S).
  - apply then_returns; [by apply (setters_return s b)|]. intros [] t Hm. apply (setters_return t a).
    eapply goes_ok. by apply (wp_run _ _ _ _ _ (AddBalance_sets s b z Hw) Hm).
  - apply then_keeps; [done|apply S|by apply add_keeps, S|]. intros t Ht Ct. by apply suicide_keeps.
  - intros r t Hm _ Ht H. by apply (J_suicide g s t a b z r).
Qed.

(** What is not an object: the refund, the logs and the preimages. *)
Lemma act_rest s0 g s (m : M unit) t (R : Z -> StateDB.t -> Prop) : session s0 g s -> m s = Ret (tt, t) -> wp m (fun _ t => goes s t) s -> objects_kept s t ->
  (ok s -> ok t -> J g s -> R g t) -> pwp P m (fun _ t => follows_ok s0 t /\ R g t) s.
Proof.
  intros S Hm G Hk HR. unfold wp in G. rewrite Hm in G. apply (act _ _ g _ R S); [by eexists|unfold wp; rewrite Hm; split; [done|]|].
  - by eapply kept_codes; [|apply S].
  - intros [] u Hu. rewrite Hm in Hu. by injection Hu as <-.
Qed.

Lemma act_log s0 g s l : static = false -> session s0 g s -> pwp P (AddLog l) (fun _ t => session s0 g t) s.
Proof.
  intros Hs S. pose proof (session_ok _ _ _ S) as Hw. destruct (AddLog l s) as [[[] t]|] eqn:E1; [|done].
  apply (act_rest _ _ s _ t J S E1); [by apply AddLog_goes| |intros; by apply (J_log g s t l)]. unfold AddLog, mbind, ST_bind, gets, modify in E1. cbn in E1. by injection E1 as <-.
Qed.

Lemma act_preimage s0 g s h b : session s0 g s -> pwp P (AddPreimage h b) (fun _ t => session s0 g t) s.
Proof.
  intros S. pose proof (session_ok _ _ _ S) as Hw. destruct (AddPreimage h b s) as [[[] t]|] eqn:E1.
  - apply (act_rest _ _ s _ t J S E1); [by apply AddPreimage_goes| |intros; by apply (J_preimage g s t h b)]. unfold AddPreimage, mbind, ST_bind, gets, modify in E1. cbn in E1.
    destruct (StateDB.preimages s !! h); by injection E1 as <-.
  - unfold AddPreimage, mbind, ST_bind, gets, modify in E1. cbn in E1. by destruct (StateDB.preimages s !! h).
Qed.

Lemma AddRefund_run s n : exists t, AddRefund n s = Ret (tt, t) /\ objects_kept s t.
Proof. eexists. split; [reflexivity|done]. Qed.

Lemma act_gone s0 g s : static = false -> session s0 g s -> pwp P (AddRefund params.SelfdestructRefundGas)
  (fun _ t => session s0 (g - if Rules.IsEIP150 rules then params.SelfdestructGasEIP150 else 0) t) s.
Proof.
  intros Hs S. pose proof (session_ok _ _ _ S) as Hw. destruct (AddRefund_run s params.SelfdestructRefundGas) as (t & E1 & Hk).
  eapply (act_rest _ _ s _ t (fun g t => J (g - _) t) S E1); [by apply AddRefund_goes|done|]. intros _ Ht H. by apply (J_gone g s t).
Qed.

(** *** Snapshots *)

Lemma J_snapped g s : J g s -> J g (snapped s).
Proof. intros H. eapply (J_eqv (stack s)); [|exact H]. by apply eqv_tail. Qed.

Lemma session_start s0 g s : session s0 g s -> session (snapped s) g (snapped s).
Proof.
  intros S. pose proof (session_ok _ _ _ S) as Hw. destruct S as [[F C] H]. destruct (snapped_ok s Hw (fl_ok _ _ F)) as [W R].
  split; [split; [by apply follows_refl|]|by apply J_snapped]. eapply (codes_eqv (stack s)); [by apply eqv_tail|done].
Qed.

Lemma session_join s0 g s g' t : session s0 g s -> session (snapped s) g' t -> session s0 g' t.
Proof.
  intros S [[F' C'] H']. pose proof (session_ok _ _ _ S) as Hw. destruct S as [[F C] H]. split; [split; [|done]|done].
  eapply follows_trans; [exact F|]. eapply follows_trans; [|exact F']. apply follows_snapped; [done|apply F].
Qed.

Lemma act_revert s0 g s t : session s0 g s -> follows_ok (snapped s) t ->
  pwp P (RevertToSnapshot (StateDB.nextRevisionId s)) (fun _ u => session s0 g u /\ eqv (stack s) s u) t.
Proof.
  intros S [F' C']. pose proof (session_ok _ _ _ S) as Hw. destruct S as [[F C] H].
  destruct (follows_revert s t Hw (fl_ok _ _ F) F') as (u & Eu & Fu & He). eapply pwp_run; [exact Eu|]. split; [|done].
  split; [split; [by eapply follows_trans|by eapply codes_eqv]|by eapply J_eqv].
Qed.

Lemma follows_ok_join s0 g s t : session s0 g s -> follows_ok (snapped s) t -> follows_ok s0 t.
Proof.
  intros S [F' C']. pose proof (session_ok _ _ _ S) as Hw. destruct S as [[F C] H]. split; [|done].
  eapply follows_trans; [exact F|]. eapply follows_trans; [|exact F']. apply follows_snapped; [done|apply F].
Qed.

(** *** Stores *)

Definition keeping {A} (m : M A) s : Prop := wp m (fun _ t => goes s t /\ codes_ok t) s.

Lemma AddRefund_keeping s n : ok s -> codes_ok s -> keeping (AddRefund n) s.
Proof.
  intros Hw C. apply wp_and; [by apply AddRefund_goes|]. destruct (AddRefund_run s n) as (t & E1 & Hk). unfold wp. rewrite E1. by eapply kept_codes.
Qed.

Lemma SubRefund_keeping s n : ok s -> codes_ok s -> keeping (SubRefund n) s.
Proof.
  intros Hw C. apply wp_and; [by apply SubRefund_goes|]. unfold SubRefund. apply wp_bind, wp_gets, wp_bind, wp_modify.
  destruct (_ <? n); [done|]. by eapply kept_codes.
Qed.

Lemma ret_keeping {A} (x : A) s : ok s -> codes_ok s -> keeping (mret x) s.
Proof. intros Hw C. apply wp_ret. split; [by apply goes_refl|done]. Qed.

Lemma when_keeping c (m : M unit) s : ok s -> codes_ok s -> keeping m s -> keeping (when c m) s.
Proof. intros Hw C Hm. destruct c; [done|by apply ret_keeping]. Qed.

Lemma then_keeping {A B} (m : M A) (n : M B) s : ok s -> codes_ok s -> keeping m s -> (forall t, ok t -> codes_ok t -> keeping n t) -> keeping (m;; n) s.
Proof. by apply then_keeps. Qed.

Ltac keep := repeat first
  [ progress (case_bool_decide; cbn [negb])
  | apply ret_keeping; [done|done] | apply AddRefund_keeping; [done|done] | apply SubRefund_keeping; [done|done]
  | apply when_keeping; [done|done|] | apply then_keeping; [done|done| |intros ? ? ?] ].

Lemma netGas_keeping n a k current v s : ok s -> codes_ok s -> keeping (netGas n a k current v) s.
Proof.
  intros Hw C. unfold netGas. case_bool_decide; [by apply ret_keeping|]. unfold keeping. apply wp_bind.
  destruct (getters_peek a k) as (_ & _ & _ & _ & _ & _ & _ & _ & _ & Hp). destruct (peeks_twp _ _ s Hp Hw) as (orig & s1 & E1 & Q & _).
  unfold wp at 1. rewrite E1. pose proof (quiet_goes _ _ Q) as G1. pose proof (goes_ok _ _ G1) as W1.
  assert (codes_ok s1) as C1 by (eapply codes_eqv; [apply Q|done]). apply (wp_mono _ (fun _ t => goes s1 t /\ codes_ok t)).
  - change (keeping ?m s1) with (wp m (fun _ t => goes s1 t /\ codes_ok t) s1). keep.
  - intros ? t [G2 C2]. split; [by eapply goes_then|done].
Qed.

Lemma legacyGas_keeping current y s : ok s -> codes_ok s -> keeping (legacyGas current y) s.
Proof. intros Hw C. unfold legacyGas. destruct (_ && _); [keep|]. destruct (_ && _); keep. Qed.

Lemma netGas_cost n a k current v s : wp (netGas n a k current v) (fun c _ => c ∈ [Net.noop n; Net.init n; Net.clean n; Net.dirty n]) s.
Proof.
  clear HK HT HL P J K static rules.
  assert (forall A (m : M A) c s, c ∈ [Net.noop n; Net.init n; Net.clean n; Net.dirty n] -> wp (m;; mret c) (fun c _ => c ∈ [Net.noop n; Net.init n; Net.clean n; Net.dirty n]) s) as Hm.
  { intros A m c s' Hc. apply wp_bind. unfold wp. by destruct (m s') as [[]|]. }
  unfold netGas. case_bool_decide; [apply wp_ret; set_solver|]. apply wp_bind. unfold wp at 1. destruct (GetCommittedState a k s) as [[orig s1]|]; [|done].
  case_bool_decide; [case_bool_decide; [apply wp_ret; set_solver|apply Hm; set_solver]|]. apply wp_bind. unfold wp at 1.
  match goal with |- context [match ?m s1 with Ret _ => _ | Panic _ => _ end] => destruct (m s1) as [[? s2]|]; [|done] end. apply Hm. set_solver.
Qed.

Lemma act_net n s0 g s a k v current : n ∈ [Net.eip1283; Net.eip2200] -> static = false -> 0 <= g -> session s0 g s -> vState a k s = Some current ->
  pwp P (netGas n a k current v) (fun c t => (follows_ok s0 t /\ K a k v (g - c) t) /\ 200 <= c <= 20000) s.
Proof.
  intros Hn Hs Hg S Hv. pose proof (session_ok _ _ _ S) as Hw. pose proof S as [[F C] H]. unfold pwp.
  pose proof (netGas_keeping n a k current v s Hw C) as Hk. pose proof (netGas_cost n a k current v s) as Hc. unfold keeping, wp in *.
  destruct (netGas n a k current v s) as [[c t]|why] eqn:E1; [|by eapply P_net]. destruct Hk as [G C']. split; [split; [split; [by eapply follows_goes|done]|]|].
  - eapply (K_net n g s t); try done. by eapply goes_ok.
  - repeat (apply elem_of_cons in Hn as [->|Hn]); [cbn in Hc; set_solver by lia..|by apply elem_of_nil in Hn].
Qed.

Lemma act_legacy s0 g s a k y current : static = false -> uint256.word y -> session s0 g s -> vState a k s = Some current ->
  pwp P (legacyGas current y) (fun c t => (follows_ok s0 t /\ K a k (toHash y) (g - c) t) /\ 200 <= c <= 20000) s.
Proof.
  intros Hs Hy S Hv. pose proof (session_ok _ _ _ S) as Hw. pose proof S as [[F C] H]. unfold pwp.
  pose proof (legacyGas_keeping current y s Hw C) as Hk. unfold keeping, wp in *.
  assert (match legacyGas current y s with Ret (c, _) => 200 <= c <= 20000 | Panic _ => False end) as Hc.
  { unfold legacyGas, mbind, ST_bind. destruct (_ && _); [cbn; lia|]. destruct (_ && _); [destruct (AddRefund_run s params.SstoreRefundGas) as (t & -> & _)|]; cbn; lia. }
  destruct (legacyGas current y s) as [[c t]|why] eqn:E1; [|done]. destruct Hk as [G C']. split; [split; [split; [by eapply follows_goes|done]|]|done].
  eapply (K_legacy g s t); try done. by eapply goes_ok.
Qed.

Lemma act_store s0 g s a k v : follows_ok s0 s -> K a k v g s -> pwp P (SetState a k v) (fun _ t => session s0 g t) s.
Proof.
  intros [F C] H. pose proof (follows_valid _ _ F) as Hw. destruct (setters_return s a Hw) as (_ & _ & _ & _ & Hr & _). destruct (Hr k v) as [[[] t] E1].
  pose proof (wp_run _ _ _ _ _ (SetState_sets s a k v Hw) E1) as St. eapply pwp_run; [exact E1|]. destruct (sets_goes_codes a (fState k v) s t C ltac:(done) ltac:(done) ltac:(done) St) as [G C'].
  split; [split; [by eapply follows_goes|done]|]. eapply (J_store g s t); try done. by eapply goes_ok.
Qed.
End Actions.
