(* ===== verification/EvmInv.v ===== *)
(** * Properties of the state that the machine keeps

    Instances of [Keeps]: the machine creates no ether, a static call leaves what
    can be read as it is, and the refund counter covers the slots that were
    cleared. *)

From S2P Require Import Prelude GoStd Effects StateDB StateRevert StateSafety EvmData EvmOps EvmState.
Import state vm.

(** The panic of [SubRefund]. *)
Definition refundPanic (why : string) : Prop := why = "Refund counter below zero".

Section Instances.
Context {L : StateLib} {HL : StateLaws L} {HT : TrieLaws L} {V : EvmLib}.
Implicit Types (s t u : StateDB.t) (a b k : bytes) (g z : Z).

(** ** What a store does with the refund counter *)

(** The counter after [netGas], when it does not panic. *)
Definition netRefund (n : Net.t) (original current v : bytes) (r : Z) : Z :=
  if bool_decide (current = v) then r
  else if bool_decide (original = current) then
    if negb (bool_decide (original = zeroHash)) && bool_decide (v = zeroHash) then u64 (r + Net.clearRefund n) else r
  else
    let r := if bool_decide (original = zeroHash) then r
             else if bool_decide (current = zeroHash) then r - Net.clearRefund n
             else if bool_decide (v = zeroHash) then u64 (r + Net.clearRefund n) else r in
    if bool_decide (original = v) then u64 (r + if bool_decide (original = zeroHash) then Net.resetClearRefund n else Net.resetRefund n) else r.

Lemma pwp_AddRefund {B} P n (h : unit -> M B) Q s : (forall t, objects_kept s t -> StateDB.logs t = StateDB.logs s -> StateDB.refund t = u64 (StateDB.refund s + n) -> pwp P (h tt) Q t) -> pwp P (AddRefund n ≫= h) Q s.
Proof. intros H. unfold pwp, AddRefund, mbind, ST_bind, gets, journalAppend, modify. cbn [obind]. by apply H. Qed.

Lemma pwp_SubRefund {B} P n (h : unit -> M B) Q s : (StateDB.refund s < n -> P "Refund counter below zero") ->
  (forall t, objects_kept s t -> StateDB.logs t = StateDB.logs s -> StateDB.refund t = StateDB.refund s - n -> pwp P (h tt) Q t) -> pwp P (SubRefund n ≫= h) Q s.
Proof.
  intros H1 H2. unfold pwp, SubRefund, mbind, ST_bind, gets, journalAppend, modify, panic. cbn [obind].
  destruct (Z.ltb_spec (StateDB.refund s) n); cbn [obind]; [by apply H1|by apply H2].
Qed.

Lemma kept_trans s t u : objects_kept s t -> objects_kept t u -> objects_kept s u.
Proof. intros (A1 & A2 & A3 & A4) (B1 & B2 & B3 & B4). split_and!; congruence. Qed.

(** What [netGas] reads leaves everything readable as it is; the counter changes as
    [netRefund] says, and there is a panic only when a slot that was cleared is set
    while the counter does not cover it. *)
Lemma netGas_run n a k v current original s : ok s -> vCommitted a k s = Some original ->
  pwp (fun why => refundPanic why /\ original <> zeroHash /\ current = zeroHash /\ v <> zeroHash /\ StateDB.refund s < Net.clearRefund n) (netGas n a k current v)
    (fun _ t => exists s1, quiet s s1 /\ objects_kept s1 t /\ StateDB.logs t = StateDB.logs s1 /\ StateDB.refund t = netRefund n original current v (StateDB.refund s1)) s.
Proof.
  intros Hw Hc. unfold netGas, netRefund. case_bool_decide as E1; [apply pwp_ret; exists s; split; [by apply quiet_refl|done]|].
  apply pwp_bind. destruct (getters_peek a k) as (_ & _ & _ & _ & _ & _ & _ & _ & _ & Hp). apply pwp_total. eapply twp_mono; [by apply (peeks_twp _ _ s Hp)|].
  intros x s1 [Q Hx]. rewrite Hc in Hx. injection Hx as <-. assert (StateDB.refund s1 = StateDB.refund s) as Hr. { destruct Q as (_ & _ & [_ E _ _]). unfold rest in E. by injection E. }
  rewrite <- Hr. clear Hr.
  assert (objects_kept s1 s1) as K1 by done.
  repeat first [ progress (case_bool_decide; cbn [negb when andb]) | apply pwp_AddRefund; intros ? ? ? ? | apply pwp_SubRefund; [intros ?; split_and!; congruence|intros ? ? ? ?]
    | apply pwp_ret; exists s1; split; [done|]; split; [done || by repeat (eapply kept_trans; [eassumption|])|]; split; congruence | apply pwp_bind ].
Qed.

Lemma legacyGas_run current y s : exists c t, legacyGas current y s = Ret (c, t) /\ 200 <= c /\ objects_kept s t /\
  StateDB.refund t = if negb (bool_decide (current = zeroHash)) && (uint256.Sign y =? 0) then u64 (StateDB.refund s + params.SstoreRefundGas) else StateDB.refund s.
Proof.
  unfold legacyGas. case_bool_decide; cbn [negb andb]; [destruct (negb _); by eexists _, _|]. destruct (uint256.Sign y =? 0); by eexists _, _.
Qed.

Lemma netGas_ret n a k v current s c t : ok s -> netGas n a k current v s = Ret (c, t) -> exists original s1, vCommitted a k s = Some original /\
  quiet s s1 /\ objects_kept s1 t /\ StateDB.logs t = StateDB.logs s1 /\ StateDB.refund t = netRefund n original current v (StateDB.refund s1).
Proof.
  intros Hw Hm. destruct (getters_peek a k) as (_ & _ & _ & _ & _ & _ & _ & _ & _ & [_ Hs]). destruct (Hs s) as [original Ho]. exists original.
  pose proof (netGas_run n a k v current original s Hw Ho) as H. unfold pwp in H. rewrite Hm in H. destruct H as (s1 & H). by exists s1.
Qed.

Lemma netGas_panic n s a k v current why : ok s -> netGas n a k current v s = Panic why -> refundPanic why.
Proof.
  intros Hw Hp. destruct (getters_peek a k) as (_ & _ & _ & _ & _ & _ & _ & _ & _ & [_ Hs]). destruct (Hs s) as [original Ho].
  pose proof (netGas_run n a k v current original s Hw Ho) as H. unfold pwp in H. rewrite Hp in H. apply H.
Qed.

Instance keeps_nothing rules static : Keeps rules static refundPanic (fun _ _ => True) (fun _ _ _ _ _ => True).
Proof. split; try done. intros n g s a k v current why _ _ _ Hw _ Hp _. by eapply netGas_panic. Qed.

Ltac both l l' := intros; repeat match goal with H : _ /\ _ |- _ => destruct H end; split; [pose proof l|pose proof l']; eauto 2.

(** Two properties at once; the first one says which panics there may be. *)
Lemma keeps_both rules static P J K P' J' K' : Keeps rules static P J K -> Keeps rules static P' J' K' ->
  Keeps rules static P (fun g s => J g s /\ J' g s) (fun a k v g s => K a k v g s /\ K' a k v g s).
Proof.
  intros H1 H2. split.
  - both (J_less (Keeps := H1)) (J_less (Keeps := H2)).
  - both (K_less (Keeps := H1)) (K_less (Keeps := H2)).
  - both (J_eqv (Keeps := H1)) (J_eqv (Keeps := H2)).
  - both (J_create (Keeps := H1)) (J_create (Keeps := H2)).
  - both (J_transfer (Keeps := H1)) (J_transfer (Keeps := H2)).
  - both (J_touch (Keeps := H1)) (J_touch (Keeps := H2)).
  - both (J_nonce (Keeps := H1)) (J_nonce (Keeps := H2)).
  - both (J_code (Keeps := H1)) (J_code (Keeps := H2)).
  - both (J_log (Keeps := H1)) (J_log (Keeps := H2)).
  - both (J_preimage (Keeps := H1)) (J_preimage (Keeps := H2)).
  - both (J_suicide (Keeps := H1)) (J_suicide (Keeps := H2)).
  - both (J_gone (Keeps := H1)) (J_gone (Keeps := H2)).
  - both (K_legacy (Keeps := H1)) (K_legacy (Keeps := H2)).
  - both (K_net (Keeps := H1)) (K_net (Keeps := H2)).
  - intros n g s a k v current why Hn Hs Hg Hw Hv Hm [H _]. by eapply (P_net (Keeps := H1)).
  - both (J_store (Keeps := H1)) (J_store (Keeps := H2)).
Qed.

(** ** The counter is a uint64 *)

Lemma netRefund_nonneg n original current v r : 0 <= r -> (original <> zeroHash -> current = zeroHash -> v <> zeroHash -> Net.clearRefund n <= r) -> 0 <= netRefund n original current v r.
Proof.
  intros Hr Hc. unfold netRefund. assert (forall z, 0 <= u64 z) as Hu by (intros z; apply Z.mod_pos_bound; done).
  repeat (case_bool_decide; cbn [negb andb]); try done; try apply Hu. subst. apply Z.le_0_sub, Hc; congruence.
Qed.

Lemma netGas_guard n a k v current original s c t : ok s -> vCommitted a k s = Some original -> netGas n a k current v s = Ret (c, t) ->
  original <> zeroHash -> current = zeroHash -> v <> zeroHash -> Net.clearRefund n <= StateDB.refund s.
Proof.
  intros Hw Ho Hm H1 -> H3. unfold netGas in Hm. rewrite bool_decide_eq_false_2 in Hm by congruence. destruct (getters_peek a k) as (_ & _ & _ & _ & _ & _ & _ & _ & _ & Hp).
  destruct (peeks_twp _ _ s Hp Hw) as (x & s1 & E & Q & Hx). rewrite Ho in Hx. injection Hx as <-. unfold mbind, ST_bind in Hm. rewrite E in Hm. cbn [obind] in Hm.
  rewrite !bool_decide_eq_false_2, (bool_decide_eq_true_2 (zeroHash = zeroHash)) in Hm by done. cbn [negb] in Hm. unfold SubRefund, mbind, ST_bind, gets, journalAppend, modify, panic in Hm. cbn [obind] in Hm.
  assert (StateDB.refund s1 = StateDB.refund s) as <- by (destruct Q as (_ & _ & [_ Er _ _]); unfold rest in Er; by injection Er). destruct (Z.ltb_spec (StateDB.refund s1) (Net.clearRefund n)); [done|lia].
Qed.

Instance keeps_counter rules : Keeps rules false refundPanic (fun _ s => 0 <= StateDB.refund s) (fun _ _ _ _ s => 0 <= StateDB.refund s).
Proof.
  assert (forall s t, aux t = aux s -> 0 <= StateDB.refund s -> 0 <= StateDB.refund t) as Ha by (intros s t [= -> _]; done).
  assert (forall z, 0 <= u64 z) as Hu by (intros z; apply Z.mod_pos_bound; done).
  assert (forall A B (m : M A) (f : A -> M B) s x t, leaves m -> (forall y, leaves (f y)) -> (m ≫= f) s = Ret (x, t) -> aux t = aux s) as Hb by (intros A B m f s x t Hm Hf E; exact (proj1 (leaves_bind m f Hm Hf s x t E))).
  split; try done.
  - intros es g s t [_ E _ _]. unfold rest in E. injection E as _ _ -> _ _ _. done.
  - intros g s t a _ _ _ Hm. apply Ha. by apply (setters_leave a) in Hm as [? _].
  - intros g s t a b z _ _ _ _ _ Hm. apply Ha. eapply Hb; [|intros y|exact Hm]; apply (setters_leave _).
  - intros g s t a _ _ Hm. apply Ha. by apply (setters_leave a) in Hm as [? _].
  - intros g s t a n _ _ _ Hm. apply Ha. by apply (setters_leave a) in Hm as [? _].
  - intros g s t a c _ _ _ Hm. apply Ha. by apply (setters_leave a) in Hm as [? _].
  - intros g s t l _ _ _ Hm. unfold AddLog, mbind, ST_bind, gets, modify in Hm. cbn in Hm. by injection Hm as <-.
  - intros g s t h b _ _ Hm. unfold AddPreimage, mbind, ST_bind, gets, modify in Hm. cbn in Hm. destruct (StateDB.preimages s !! h); by injection Hm as <-.
  - intros g s t a b z r _ _ _ _ Hm. apply Ha. eapply Hb; [|intros y|exact Hm]; apply (setters_leave _).
  - intros g s t _ _ _ Hm _. unfold AddRefund, mbind, ST_bind, gets, modify in Hm. cbn [obind] in Hm. injection Hm as <-. apply Hu.
  - intros g s t a k y current c _ _ _ _ _ Hm H. destruct (legacyGas_run current y s) as (c' & u & E & _ & _ & Hr). rewrite E in Hm. injection Hm as _ <-. rewrite Hr. destruct (_ && _); [apply Hu|done].
  - intros n g s t a k v current c _ _ Hw Ht Hv Hm H. destruct (getters_peek a k) as (_ & _ & _ & _ & _ & _ & _ & _ & _ & [_ Hx]). destruct (Hx s) as [original Ho].
    pose proof (netGas_run n a k v current original s Hw Ho) as Hn. unfold pwp in Hn. rewrite Hm in Hn. destruct Hn as (s1 & Q & _ & _ & ->).
    assert (StateDB.refund s1 = StateDB.refund s) as -> by (destruct Q as (_ & _ & [_ E _ _]); unfold rest in E; by injection E). apply netRefund_nonneg; [done|]. by apply (netGas_guard n a k v current original s c t).
  - intros n g s a k v current why _ _ _ Hw _ Hp _. by eapply netGas_panic.
  - intros g s t a k v _ _ Hm. apply Ha. by apply (setters_leave a) in Hm as [? _].
Qed.

(** ** Ether *)

Definition balance b s : Z := default 0 (vBalance b s).
Definition total (bs : list bytes) s : Z := foldr (fun b n => balance b s + n) 0 bs.

(** No account is in debt, and no accounts own more than [most] together. *)
Definition ether (most : Z) g s : Prop := (forall b, 0 <= balance b s) /\ forall bs, NoDup bs -> total bs s <= most.

Lemma balance_some b s : vBalance b s = Some (balance b s).
Proof. unfold balance. by rewrite base_balance. Qed.

Lemma total_cons b bs s : total (b :: bs) s = balance b s + total bs s.
Proof. done. Qed.

Lemma total_same bs s t : (forall b, b ∈ bs -> balance b t = balance b s) -> total bs t = total bs s.
Proof.
  intros H. induction bs as [|b bs IH]; [done|]. rewrite !total_cons, (H b), IH; [done| |set_solver]. intros c Hc. apply H. set_solver.
Qed.

(** The balance of one account changes. *)
Lemma total_one a bs s t : NoDup bs -> (forall b, b <> a -> balance b t = balance b s) ->
  total bs t = total bs s + if decide (a ∈ bs) then balance a t - balance a s else 0.
Proof.
  intros Hn H. induction Hn as [|b bs Hb Hn IH]; [done|]. rewrite !total_cons. destruct (decide (b = a)) as [->|Hba].
  - rewrite decide_True by set_solver. rewrite (total_same bs s t); [lia|]. intros c Hc. apply H. by intros ->.
  - rewrite (H b Hba), IH. destruct (decide (a ∈ bs)), (decide (a ∈ b :: bs)); set_solver by lia.
Qed.

Lemma balances_ether most g s t : balances s t -> ether most g s -> ether most g t.
Proof.
  intros B. assert (forall b, balance b t = balance b s) as E by (intros b; unfold balance; by rewrite (B b)). intros [H1 H2].
  split; [intros b; by rewrite E|]. intros bs Hn. rewrite (total_same bs s t) by done. auto.
Qed.

Lemma kept_ether most g s t : objects_kept s t -> ether most g s -> ether most g t.
Proof. intros Hk. apply balances_ether. intros b. by destruct (kept_views s t b zeroHash Hk) as (_ & _ & -> & _). Qed.

Lemma sets_balance a f s t : sets a f s t -> (forall x, stateObject.deleted (f x) = stateObject.deleted x) ->
  balance a t = Account.Balance (stateObject.data (f (base s a))) /\ forall b, b <> a -> balance b t = balance b s.
Proof.
  intros S Hd. split.
  - unfold balance, vBalance. by rewrite (sets_seen 0 _ a f s t S (respects_data Account.Balance) Hd).
  - intros b Hb. unfold balance. destruct S as (_ & [E1 E2 E3] & _). by destruct (views_same b zeroHash s t E1 (E2 b Hb) (E3 b Hb)) as (_ & _ & -> & _).
Qed.

Lemma balance_base a s : Account.Balance (stateObject.data (base s a)) = balance a s.
Proof. unfold balance. by rewrite base_balance. Qed.

Lemma AddBalance_balance s t a z : ok s -> AddBalance a z s = Ret (tt, t) -> ok t /\ balance a t = balance a s + z /\ forall b, b <> a -> balance b t = balance b s.
Proof.
  intros Hw Hm. pose proof (wp_run _ _ _ _ _ (AddBalance_sets s a z Hw) Hm) as S. split; [eapply goes_ok, S|]. rewrite <- (balance_base a s). by apply (sets_balance a _ s t S).
Qed.

Lemma SubBalance_balance s t a z : ok s -> SubBalance a z s = Ret (tt, t) -> ok t /\ balance a t = balance a s - z /\ forall b, b <> a -> balance b t = balance b s.
Proof.
  intros Hw Hm. pose proof (wp_run _ _ _ _ _ (SubBalance_sets s a z Hw) Hm) as S. split; [eapply goes_ok, S|]. rewrite <- (balance_base a s). by apply (sets_balance a _ s t S).
Qed.

Lemma Suicide_balance s t a r : ok s -> Suicide a s = Ret (r, t) -> balance a t = 0 /\ forall b, b <> a -> balance b t = balance b s.
Proof.
  intros Hw Hm. destruct r.
  - destruct (wp_run _ _ _ _ _ (Suicide_sets s a Hw) Hm) as [_ H]. destruct (H eq_refl) as [_ S]. by apply (sets_balance a _ s t S).
  - unfold Suicide, withObject, mbind, ST_bind in Hm. destruct (getStateObject_spec (stack s) s a Hw) as ([p|] & s2 & E2 & F); rewrite E2 in Hm; cbn in Hm.
    + destruct (fo_some _ _ _ _ _ F p eq_refl) as (_ & y & Hy & _). unfold mbind, ST_bind in Hm. by rewrite (deref_run _ _ _ Hy) in Hm.
    + injection Hm as <-. assert (forall b, balance b s2 = balance b s) as E.
      { intros b. unfold balance. by destruct (views_respect b zeroHash _ _ _ (fo_eqv _ _ _ _ _ F)) as (_ & _ & -> & _). }
      split; [|intros b _; apply E]. rewrite E. unfold balance, vBalance, seen. destruct (view s a) as [o|] eqn:Ev; [|done]. by rewrite (fo_none _ _ _ _ _ F eq_refl o Ev).
Qed.

Lemma transfer_ether most g s t a b z : ok s -> 0 <= z <= balance a s -> Transfer a b z s = Ret (tt, t) -> ether most g s -> ether most g t.
Proof.
  intros Hw Hz Hm [H1 H2]. unfold Transfer, mbind, ST_bind in Hm. destruct (SubBalance a z s) as [[[] s1]|] eqn:E1; [|done]. cbn in Hm.
  destruct (SubBalance_balance s s1 a z Hw E1) as (W1 & B1 & C1). destruct (AddBalance_balance s1 t b z W1 Hm) as (W2 & B2 & C2).
  assert (forall c, c <> a -> balance c s1 = balance c s) as C1' by done. split.
  - intros c. pose proof (H1 a). pose proof (H1 c). destruct (decide (c = b)) as [->|Hb]; [rewrite B2|rewrite (C2 c Hb)];
      match goal with |- context [balance ?x s1] => destruct (decide (x = a)) as [->|Ha]; [rewrite B1|rewrite (C1 x Ha)] end; lia.
  - intros bs Hn. rewrite (total_one b bs s1 t Hn C2), (total_one a bs s s1 Hn C1), B1, B2. pose proof (H2 bs Hn) as H3.
    destruct (decide (a ∈ bs)) as [Ha|Ha]; [destruct (decide (b ∈ bs)); lia|]. pose proof (H2 (a :: bs) ltac:(by constructor)) as H4. rewrite total_cons in H4.
    destruct (decide (b ∈ bs)); lia.
Qed.

Lemma suicide_ether most g s t a b r : ok s -> (AddBalance b (balance a s);; Suicide a) s = Ret (r, t) -> ether most g s -> ether most g t.
Proof.
  intros Hw Hm [H1 H2]. unfold mbind, ST_bind in Hm. destruct (AddBalance b (balance a s) s) as [[[] s1]|] eqn:E1; [|done]. cbn in Hm.
  destruct (AddBalance_balance s s1 b _ Hw E1) as (W1 & B1 & C1). destruct (Suicide_balance s1 t a r W1 Hm) as (B2 & C2). pose proof (H1 a) as Ha0. split.
  - intros c. pose proof (H1 c). pose proof (H1 b). destruct (decide (c = a)) as [->|Hc]; [lia|]. rewrite (C2 c Hc). destruct (decide (c = b)) as [->|Hb]; [lia|]. rewrite (C1 c Hb). lia.
  - intros bs Hn. rewrite (total_one a bs s1 t Hn C2), (total_one b bs s s1 Hn C1), B1, B2. pose proof (H2 bs Hn) as H3.
    assert (balance a s <= balance a s1) as Hle by (destruct (decide (a = b)) as [->|Hab]; [lia|rewrite (C1 a Hab); lia]).
    destruct (decide (a ∈ bs)) as [Ha|Ha]; [destruct (decide (b ∈ bs)); lia|]. pose proof (H2 (a :: bs) ltac:(by constructor)) as H4. rewrite total_cons in H4.
    destruct (decide (b ∈ bs)); lia.
Qed.

Instance keeps_ether rules most : Keeps rules false refundPanic (ether most) (fun _ _ _ => ether most).
Proof.
  split; try done.
  - intros es g s t He. apply balances_ether. intros b. by destruct (views_respect b zeroHash es s t He) as (_ & _ & -> & _).
  - intros g s t a Hw Ht _ Hm. eapply balances_ether, create_balances; [done|exact Hm].
  - intros g s t a b z Hw Ht Hz Hb _ Hm He. eapply (transfer_ether most g s t a b z); [done| |exact Hm|exact He]. split; [done|]. pose proof (proj1 He a).
    destruct (decide (z = 0)) as [->|Hz0]; [done|]. destruct (Hb Hz0) as (x & Hx & Hle). unfold balance. by rewrite Hx.
  - intros g s t a Hw Ht Hm He. destruct (AddBalance_balance s t a 0 Hw Hm) as (_ & B1 & C1). eapply balances_ether; [|exact He]. intros b. rewrite !balance_some. f_equal.
    destruct (decide (b = a)) as [->|Hb]; [lia|auto].
  - intros g s t a n _ Hw Ht Hm. eapply balances_ether, nonce_balances; [done|exact Hm].
  - intros g s t a c _ Hw Ht Hm. pose proof (wp_run _ _ _ _ _ (SetCode_sets s a c Hw) Hm) as S. destruct (sets_balance a _ s t S ltac:(done)) as [B C].
    apply balances_ether. intros b. rewrite !balance_some. f_equal. destruct (decide (b = a)) as [->|Hb]; [|auto]. rewrite B. apply balance_base.
  - intros g s t l _ Hw Ht Hm. apply kept_ether. unfold AddLog, mbind, ST_bind, gets, modify in Hm. cbn in Hm. by injection Hm as <-.
  - intros g s t h b Hw Ht Hm. apply kept_ether. unfold AddPreimage, mbind, ST_bind, gets, modify in Hm. cbn in Hm. destruct (StateDB.preimages s !! h); by injection Hm as <-.
  - intros g s t a b z r _ Hw Ht Hz Hm. rewrite balance_some in Hz. injection Hz as <-. by eapply suicide_ether.
  - intros g s t _ Hw Ht Hm. destruct (AddRefund_run s params.SelfdestructRefundGas) as (u & Hu & Hk). rewrite Hu in Hm. injection Hm as <-. by apply kept_ether.
  - intros g s t a k y current c _ Hw Ht _ _ Hm. destruct (legacyGas_run current y s) as (c' & u & Hu & _ & Hk & _). rewrite Hu in Hm. injection Hm as <- <-. by apply kept_ether.
  - intros n g s t a k v current c _ _ Hw Ht _ Hm He. destruct (netGas_ret n a k v current s c t Hw Hm) as (original & s1 & _ & Q & Hk & _).
    eapply kept_ether; [exact Hk|]. eapply balances_ether; [|exact He]. intros b. by destruct (views_respect b zeroHash _ s s1 (proj2 (proj2 Q))) as (_ & _ & -> & _).
  - intros n g s a k v current why _ _ _ Hw _ Hp _. by eapply netGas_panic.
  - intros g s t a k v Hw Ht Hm. pose proof (wp_run _ _ _ _ _ (SetState_sets s a k v Hw) Hm) as S. destruct (sets_balance a _ s t S ltac:(done)) as [B C].
    apply balances_ether. intros b. rewrite !balance_some. f_equal. destruct (decide (b = a)) as [->|Hb]; [|auto]. rewrite B. apply balance_base.
Qed.

(** ** Static calls *)

(** What a static call cannot change: balances, nonces, code, logs and the counter,
    and everything of the accounts that exist.  Accounts that do not exist may be
    touched, and then are empty. *)
Definition unchanged s0 g s : Prop :=
  aux s = aux s0 /\
  (forall b, vBalance b s = vBalance b s0 /\ vNonce b s = vNonce b s0 /\ vCode b s = vCode b s0 /\ vSuicided b s = vSuicided b s0 /\ vEmpty b s = vEmpty b s0) /\
  forall b, vExist b s0 = Some true -> same_views b s0 s.

Lemma unchanged_refl g s : unchanged s g s.
Proof. by split. Qed.

(** The account [a] is as before, or it is new and empty. *)
Definition wakes a s t : Prop :=
  elsewhere a s t /\ (vExist a s = Some true -> same_views a s t) /\
  (vExist a s <> Some true -> vBalance a t = Some 0 /\ vNonce a t = Some 0 /\ vCode a t = Some None /\ vSuicided a t = Some false /\ vEmpty a t = Some true).

Lemma absent_views a s : vExist a s <> Some true ->
  vBalance a s = Some 0 /\ vNonce a s = Some 0 /\ vCode a s = Some None /\ vSuicided a s = Some false /\ vEmpty a s = Some true.
Proof.
  unfold vExist, vBalance, vNonce, vCode, vSuicided, vEmpty, seen. destruct (view s a) as [o|]; [|done]. by destruct (stateObject.deleted o).
Qed.

Lemma unchanged_wakes s0 g s t a : aux t = aux s -> wakes a s t -> unchanged s0 g s -> unchanged s0 g t.
Proof.
  intros Ha ([E1 E2 E3] & Hyes & Hno) (H1 & H2 & H3). assert (forall b, b <> a -> same_views b s t) as Hb by (intros b Hb k; by apply views_same; [|apply E2|apply E3]).
  assert (forall b, vExist b s = Some true -> same_views b s t) as Hex.
  { intros b Hx. destruct (decide (b = a)) as [->|Hne]; [by apply Hyes|by apply Hb]. }
  split_and!; [congruence| |].
  - intros b. destruct (H2 b) as (<- & <- & <- & <- & <-). destruct (decide (vExist b s = Some true)) as [Hx|Hx].
    + destruct (Hex b Hx zeroHash) as (_ & -> & -> & -> & _ & -> & -> & _). done.
    + destruct (decide (b = a)) as [->|Hne]; [|destruct (Hb b Hne zeroHash) as (_ & -> & -> & -> & _ & -> & -> & _); done].
      destruct (absent_views a s Hx) as (-> & -> & -> & -> & ->). by apply Hno.
  - intros b Hx. specialize (H3 b Hx). eapply same_views_trans; [exact H3|]. apply Hex. destruct (H3 zeroHash) as (-> & _). done.
Qed.

(** A new account. *)
Abbreviation alike s a := (obj_eq (StateDB.db s) (StateDB.snap s) (flag s a)).

Lemma blank_views a t o : view t a = Some o -> alike t a (blank a) o ->
  vBalance a t = Some 0 /\ vNonce a t = Some 0 /\ vCode a t = Some None /\ vSuicided a t = Some false /\ vEmpty a t = Some true.
Proof.
  intros Hv He. destruct He as [H1 H2 _ _]. destruct (core_parts _ _ H1) as (_ & _ & Ed & _ & Es & Edel).
  unfold vBalance, vNonce, vCode, vSuicided, vEmpty, seen. rewrite Hv, <- Edel. cbn [stateObject.deleted blank newObject]. rewrite <- H2, blank_code. unfold objEmpty. rewrite <- Ed, <- Es.
  split_and!; try done. cbn. by rewrite (proj2 (bytes_equal_true _ _)).
Qed.

Lemma base_absent a s : vExist a s <> Some true -> base s a = blank a.
Proof. unfold vExist, seen, base. destruct (view s a) as [o|]; [|done]. by destruct (stateObject.deleted o). Qed.

(** A setter that sets nothing. *)
Lemma sets_wakes a f s t : sets a f s t -> f (base s a) = base s a -> wakes a s t.
Proof.
  intros (G & He & Hfl & o & Hv & Ho) Hf. rewrite Hf in Ho. split; [done|]. split.
  - intros Hp%vExist_present k. pose proof He as [E1 _ _]. specialize (Hfl Hp). apply views_same; [done|done|]. rewrite (base_present _ _ Hp), Hv. constructor.
    destruct (still_ctx _ _ (eq_sym E1)) as [Ed Es]. by rewrite Ed, Es, Hfl in Ho.
  - intros Hx. rewrite (base_absent _ _ Hx) in Ho. by apply (blank_views a t o).
Qed.

Lemma fBalance_id (o : stateObject.t) z : z = 0 -> fBalance (Account.Balance (stateObject.data o) + z) o = o /\ fBalance (Account.Balance (stateObject.data o) - z) o = o.
Proof. intros ->. rewrite Z.add_0_r, Z.sub_0_r. by destruct o as [? ? [] ? ? ? ? ? ? ? ? ? ?]. Qed.

Lemma AddBalance_wakes s t a : ok s -> AddBalance a 0 s = Ret (tt, t) -> aux t = aux s /\ wakes a s t.
Proof.
  intros Hw Hm. split; [apply (proj1 (setters_leave a) 0 s tt t Hm)|]. pose proof (wp_run _ _ _ _ _ (AddBalance_sets s a 0 Hw) Hm) as S. eapply sets_wakes; [exact S|]. by apply fBalance_id.
Qed.

Lemma SubBalance_wakes s t a : ok s -> SubBalance a 0 s = Ret (tt, t) -> aux t = aux s /\ wakes a s t.
Proof.
  intros Hw Hm. split; [apply (proj1 (proj2 (setters_leave a)) 0 s tt t Hm)|]. pose proof (wp_run _ _ _ _ _ (SubBalance_sets s a 0 Hw) Hm) as S. eapply sets_wakes; [exact S|]. by apply fBalance_id.
Qed.

Lemma CreateAccount_wakes s t a : ok s -> vExist a s = Some false -> CreateAccount a s = Ret (tt, t) -> aux t = aux s /\ wakes a s t.
Proof.
  intros Hw Hx Hm. destruct (setters_leave a) as (_ & _ & _ & _ & _ & _ & Hl). split; [apply (Hl s tt t Hm)|]. destruct (wp_run _ _ _ _ _ (CreateAccount_spec s a Hw) Hm) as (_ & He & o & Hv & Ho). split; [done|].
  split; [congruence|]. intros Hn. rewrite (base_absent _ _ Hn) in Ho. apply (blank_views a t o); [done|]. by rewrite Ho.
Qed.

Instance keeps_unchanged rules s0 : Keeps rules true refundPanic (unchanged s0) (fun _ _ _ _ _ => False).
Proof.
  split; try done.
  - intros es g s t He (H1 & H2 & H3). pose proof (same_eqv es) as Hv. split_and!.
    + rewrite <- H1. destruct He as [_ E _ _]. unfold rest in E. injection E as _ _ R1 R2 _ _. unfold aux. congruence.
    + intros b. destruct (Hv b s t He zeroHash) as (_ & -> & -> & -> & _ & -> & -> & _). apply H2.
    + intros b Hx. eapply same_views_trans; [by apply H3|by eapply Hv].
  - intros g s t a Hw _ Hx Hm. destruct (CreateAccount_wakes s t a Hw (Hx eq_refl) Hm). by eapply unchanged_wakes.
  - intros g s t a b z Hw Ht _ _ Hz Hm. rewrite (Hz eq_refl) in Hm. unfold Transfer, mbind, ST_bind in Hm. destruct (SubBalance a 0 s) as [[[] s1]|] eqn:E1; [|done]. cbn in Hm.
    destruct (SubBalance_wakes s s1 a Hw E1) as [A1 K1]. destruct (SubBalance_balance s s1 a 0 Hw E1) as (W1 & _). destruct (AddBalance_wakes s1 t b W1 Hm) as [A2 K2].
    intros H. eapply unchanged_wakes; [exact A2|exact K2|]. by eapply unchanged_wakes.
  - intros g s t a Hw _ Hm. destruct (AddBalance_wakes s t a Hw Hm). by eapply unchanged_wakes.
  - intros g s t h b Hw _ Hm (H1 & H2 & H3). assert (objects_kept s t /\ aux t = aux s) as [Hk Ha].
    { unfold AddPreimage, mbind, ST_bind, gets, modify in Hm. cbn in Hm. destruct (StateDB.preimages s !! h); by injection Hm as <-. }
    split_and!; [congruence| |].
    + intros c. destruct (kept_views s t c zeroHash Hk) as (_ & -> & -> & -> & _ & -> & -> & _). apply H2.
    + intros c Hx. eapply same_views_trans; [by apply H3|]. intros k. by apply kept_views.
Qed.

(** ** The refund counter *)

(** The slot was set before the transaction, and is cleared now. *)
Definition cleared s (p : bytes * bytes) : Prop := vState p.1 p.2 s = Some zeroHash /\ vCommitted p.1 p.2 s <> Some zeroHash.

(** What is not an account has no storage. *)
Definition clean s : Prop :=
  forall a k d, vExist a s <> Some true -> (flag s a = true -> d = true) -> committedView (StateDB.db s) (StateDB.snap s) d (blank a) k = Some zeroHash.

(** The counter [r] pays for the slots of [S]. *)
Definition pays (S : bytes * bytes -> Prop) (r : Z) : Prop := forall l, NoDup l -> Forall S l -> params.SstoreRefundGas * zlen l <= r.

(** The counter pays for the slots that are cleared, and what is left of the gas
    cannot make it overflow. *)
Definition solvent (most : Z) g s : Prop := 0 <= g -> clean s /\ pays (cleared s) (StateDB.refund s) /\ 0 <= StateDB.refund s /\ StateDB.refund s + 200 * g <= most.

(** The slots that are cleared after the store of [v]. *)
Definition clearedAfter a k v s (p : bytes * bytes) : Prop := if decide (p = (a, k)) then v = zeroHash /\ vCommitted a k s <> Some zeroHash else cleared s p.

Definition solventAfter (most : Z) a k v g s : Prop :=
  0 <= g -> clean s /\ pays (clearedAfter a k v s) (StateDB.refund s) /\ 0 <= StateDB.refund s /\ StateDB.refund s + 200 * g <= most.

Lemma pays_less S S' r : (forall p, S' p -> S p) -> pays S r -> pays S' r.
Proof. intros Hs Hp l Hn Hl. apply Hp; [done|]. by eapply Forall_impl. Qed.

Lemma pays_one S r q : pays S r -> S q -> params.SstoreRefundGas <= r.
Proof. intros Hp Hq. pose proof (Hp [q] ltac:(apply NoDup_singleton) ltac:(by constructor)) as H. change (zlen [q]) with 1 in H. lia. Qed.

(** One slot changes: [new] tells whether it is cleared afterwards. *)
Lemma pays_store (S S' : bytes * bytes -> Prop) q r r' (new : bool) : pays S r -> (forall p, p <> q -> S' p -> S p) -> (S' q -> new = true) ->
  (new = true -> r + params.SstoreRefundGas <= r' \/ S q /\ r <= r') -> (new = false -> r <= r' \/ S q /\ r - params.SstoreRefundGas <= r') -> pays S' r'.
Proof.
  intros Hp Hne Hq Hnew Hold l Hn Hl. destruct (decide (q ∈ l)) as [Hin|Hin].
  - apply elem_of_Permutation in Hin as [l' El]. rewrite El in Hn. rewrite El in Hl. apply NoDup_cons in Hn as [Hq' Hn]. apply Forall_cons in Hl as [Hl0 Hl].
    assert (Forall S l') as HS. { rewrite Forall_forall in Hl |- *. intros p Hp'. apply Hne; [by intros ->|auto]. }
    assert (zlen l = 1 + zlen l') as -> by (unfold zlen; rewrite El; cbn; lia). pose proof (Hp l' Hn HS) as H1.
    destruct (Hnew (Hq Hl0)) as [?|[Sq Hr]]; [lia|]. pose proof (Hp (q :: l') ltac:(by constructor) ltac:(by constructor)) as H2. assert (zlen (q :: l') = 1 + zlen l') as E by (unfold zlen; cbn; lia). rewrite E in H2. lia.
  - assert (Forall S l) as HS. { rewrite Forall_forall in Hl |- *. intros p Hp'. apply Hne; [by intros ->|auto]. }
    pose proof (Hp l Hn HS) as H1. destruct new; [destruct (Hnew eq_refl) as [?|[_ ?]]; lia|]. destruct (Hold eq_refl) as [?|[Sq Hr]]; [lia|].
    pose proof (Hp (q :: l) ltac:(by constructor) ltac:(by constructor)) as H2. assert (zlen (q :: l) = 1 + zlen l) as E by (unfold zlen; cbn; lia). rewrite E in H2. lia.
Qed.

(** No slot is cleared, and no account goes. *)
Record shrinks s t : Prop := {
  sh_still : still t = still s;
  sh_exist : forall b, vExist b t <> Some true -> vExist b s <> Some true /\ flag t b = flag s b;
  sh_cleared : forall p, cleared t p -> cleared s p
}.

Lemma shrinks_clean s t : shrinks s t -> clean s -> clean t.
Proof.
  intros [H1 H2 _] Hc a k d Hx Hd. destruct (H2 a Hx) as [Hx' Hf]. destruct (still_ctx _ _ (eq_sym H1)) as [-> ->]. apply Hc; [done|]. by rewrite <- Hf.
Qed.

Lemma shrinks_solvent most g s t : shrinks s t -> StateDB.refund t = StateDB.refund s -> solvent most g s -> solvent most g t.
Proof.
  intros H Hr Hs Hg. destruct (Hs Hg) as (S1 & S2 & S3 & S4). rewrite Hr. split_and!; [by eapply shrinks_clean| |done|done]. eapply pays_less; [|exact S2]. apply H.
Qed.

Lemma shrinks_trans s t u : shrinks s t -> shrinks t u -> shrinks s u.
Proof.
  intros [A1 A2 A3] [B1 B2 B3]. split; [congruence| |auto]. intros b Hx. destruct (B2 b Hx) as [Hx1 ->]. by apply A2.
Qed.

Lemma same_shrinks s t : still t = still s -> (forall b, same_views b s t /\ flag t b = flag s b) -> shrinks s t.
Proof.
  intros Hs Hv. split; [done| |].
  - intros b Hx. destruct (Hv b) as [H ->]. destruct (H zeroHash) as (E & _). by rewrite E in Hx.
  - intros [b k]. destruct (Hv b) as [H _]. destruct (H k) as (_ & _ & _ & _ & _ & _ & _ & _ & E1 & E2). unfold cleared. cbn. by rewrite E1, E2.
Qed.

Lemma sets_shrinks a f s t : sets a f s t -> (forall x, stateObject.deleted (f x) = stateObject.deleted x) ->
  (forall db snap d x k, stateView db snap d (f x) k = stateView db snap d x k) -> (forall db snap d x k, committedView db snap d (f x) k = committedView db snap d x k) -> shrinks s t.
Proof.
  intros S Hd Hst Hco. pose proof S as (_ & [E1 E2 E3] & Hfl & o & Hv & Ho).
  assert (vExist a t = Some true) as Hex. { unfold vExist. by rewrite (sets_seen false _ a f s t S (respects_core (fun _ => true) ltac:(done)) Hd). }
  assert (forall b, b <> a -> same_views b s t) as Hb by (intros b Hb k; by apply views_same; [|apply E2|apply E3]). split; [done| |].
  - intros b Hx. destruct (decide (b = a)) as [->|Hne]; [done|]. split; [|by apply E2]. destruct (Hb b Hne zeroHash) as (E & _). by rewrite E in Hx.
  - intros [b k]. unfold cleared. cbn. destruct (decide (b = a)) as [->|Hne]; [|by destruct (Hb b Hne k) as (_ & _ & _ & _ & _ & _ & _ & _ & -> & ->)].
    unfold vState, vCommitted. rewrite (sets_seen _ _ a f s t S (respects_state k) Hd), (sets_seen _ _ a f s t S (respects_committed k) Hd), Hst, Hco.
    destruct (decide (vExist a s = Some true)) as [Hp|Hp]; [|rewrite (base_absent _ _ Hp); by intros [? ?]].
    apply vExist_present in Hp. rewrite (Hfl Hp). unfold seen. by rewrite (base_present _ _ Hp), base_deleted.
Qed.

Lemma create_shrinks s t a : ok s -> CreateAccount a s = Ret (tt, t) -> shrinks s t.
Proof.
  intros Hw Hm. destruct (wp_run _ _ _ _ _ (CreateAccount_spec s a Hw) Hm) as (_ & [E1 E2 E3] & o & Hv & ->).
  assert (forall b, b <> a -> same_views b s t) as Hb by (intros b Hb k; by apply views_same; [|apply E2|apply E3]). split; [done| |].
  - intros b Hx. destruct (decide (b = a)) as [->|Hne]; [unfold vExist, seen in Hx; by rewrite Hv in Hx|]. split; [|by apply E2]. destruct (Hb b Hne zeroHash) as (E & _). by rewrite E in Hx.
  - intros [b k]. unfold cleared. cbn. destruct (decide (b = a)) as [->|Hne]; [|by destruct (Hb b Hne k) as (_ & _ & _ & _ & _ & _ & _ & _ & -> & ->)].
    unfold vState, vCommitted, seen. rewrite Hv. by intros [? ?].
Qed.

Lemma suicide_shrinks s t a r : ok s -> Suicide a s = Ret (r, t) -> shrinks s t.
Proof.
  intros Hw Hm. destruct r.
  - destruct (wp_run _ _ _ _ _ (Suicide_sets s a Hw) Hm) as [_ H]. destruct (H eq_refl) as [_ S]. eapply sets_shrinks; [exact S|done..].
  - unfold Suicide, withObject, mbind, ST_bind in Hm. destruct (getStateObject_spec (stack s) s a Hw) as ([p|] & s2 & E2 & F); rewrite E2 in Hm; cbn in Hm.
    + destruct (fo_some _ _ _ _ _ F p eq_refl) as (_ & y & Hy & _). unfold mbind, ST_bind in Hm. by rewrite (deref_run _ _ _ Hy) in Hm.
    + injection Hm as <-. apply same_shrinks; [symmetry; apply F|]. intros b. split; [by eapply same_eqv, F|by eapply eqv_flag, F].
Qed.

Lemma kept_shrinks s t : objects_kept s t -> shrinks s t.
Proof.
  intros Hk. pose proof Hk as (K1 & K2 & K3 & K4). apply same_shrinks; [done|]. intros b. split; [intros k; by apply kept_views|unfold flag; by rewrite K2].
Qed.

Lemma quiet_shrinks s t : quiet s t -> shrinks s t /\ StateDB.refund t = StateDB.refund s.
Proof.
  intros (_ & _ & He). split; [|destruct He as [_ E _ _]; unfold rest in E; by injection E]. apply same_shrinks; [symmetry; apply He|].
  intros b. split; [by eapply same_eqv|by eapply eqv_flag].
Qed.

(** *** Stores *)

Lemma base_fake s a : ok s -> stateObject.fakeStorage (base s a) = None.
Proof.
  intros Hw. unfold base. destruct (view s a) as [o|] eqn:Ev; [|done]. destruct (stateObject.deleted o); [done|].
  unfold view in Ev. destruct (StateDB.stateObjects s !! a) as [p|]; [exact (ok_fake _ (obj_ok_at _ _ _ _ Hw Ev))|]. destruct (loadAccount s a).1; [|done]. by injection Ev as <-.
Qed.

Lemma store_cleared s t a k v : ok s -> SetState a k v s = Ret (tt, t) -> clean s -> forall p, cleared t p -> clearedAfter a k v s p.
Proof.
  intros Hw Hm Hc [b k']. pose proof (wp_run _ _ _ _ _ (SetState_sets s a k v Hw) Hm) as S. destruct (setters_leave a) as (_ & _ & _ & _ & Hl & _). destruct (Hl k v s tt t Hm) as [_ Hmark].
  pose proof S as (_ & [E1 E2 E3] & Hfl & _). unfold clearedAfter, cleared. cbn [fst snd]. destruct (decide (b = a)) as [->|Hne].
  2: { destruct (views_same b k' s t E1 (E2 b Hne) (E3 b Hne)) as (_ & _ & _ & _ & _ & _ & _ & _ & -> & ->). by rewrite decide_False by congruence. }
  unfold vState at 1, vCommitted at 1. rewrite (sets_seen _ _ a _ s t S (respects_state k') ltac:(done)), (sets_seen _ _ a _ s t S (respects_committed k') ltac:(done)), (stateView_fState _ _ _ _ _ _ _ (base_fake s a Hw)).
  change (committedView _ _ _ (fState k v ?x) k') with (committedView (StateDB.db s) (StateDB.snap s) (flag t a) x k').
  destruct (decide (vExist a s = Some true)) as [Hx|Hx].
  - apply vExist_present in Hx. rewrite (Hfl Hx). assert (forall A (d : A) V, seen d V a s = V (StateDB.db s) (StateDB.snap s) (flag s a) (base s a)) as Hs.
    { intros A d V'. unfold seen. by rewrite (base_present _ _ Hx), base_deleted. }
    unfold vState, vCommitted. rewrite !Hs. destruct (decide (k = k')) as [<-|Hk]; [rewrite decide_True by done|rewrite decide_False by congruence; done]. intros [[= ->] H]. done.
  - rewrite (base_absent _ _ Hx). assert (committedView (StateDB.db s) (StateDB.snap s) (flag t a) (blank a) k' = Some zeroHash) as Hz.
    { apply Hc; [done|]. unfold flag. rewrite !bool_decide_eq_true. set_solver. }
    by rewrite Hz; intros [_ ?].
Qed.

Lemma store_solvent most g s t a k v : ok s -> SetState a k v s = Ret (tt, t) -> solventAfter most a k v g s -> solvent most g t.
Proof.
  intros Hw Hm Hs Hg. destruct (Hs Hg) as (S1 & S2 & S3 & S4). destruct (setters_leave a) as (_ & _ & _ & _ & Hl & _). destruct (Hl k v s tt t Hm) as [Ha _]. unfold aux in Ha. injection Ha as Hr _.
  pose proof (wp_run _ _ _ _ _ (SetState_sets s a k v Hw) Hm) as S. rewrite Hr. split_and!; [|eapply pays_less; [by apply store_cleared|done]|done|done].
  intros b k' d Hx Hd. pose proof S as (_ & [E1 E2 E3] & _). destruct (decide (b = a)) as [->|Hne].
  { unfold vExist in Hx. by rewrite (sets_seen false _ a _ s t S (respects_core (fun _ => true) ltac:(done)) ltac:(done)) in Hx. }
  destruct (still_ctx _ _ (eq_sym E1)) as [-> ->]. destruct (views_same b zeroHash s t E1 (E2 b Hne) (E3 b Hne)) as (E & _). apply S1; [by rewrite <- E|]. by rewrite <- (E2 b Hne).
Qed.

Lemma netRefund_spec n original current v r : n ∈ [Net.eip1283; Net.eip2200] -> 0 <= r -> r + 40000 < two64 ->
  (original <> zeroHash -> current = zeroHash -> v <> zeroHash -> params.SstoreRefundGas <= r) -> let r' := netRefund n original current v r in
  0 <= r' <= r + 40000 /\ (v = zeroHash -> original <> zeroHash -> current <> zeroHash -> r + params.SstoreRefundGas <= r') /\ (v = zeroHash -> r <= r') /\
  (r <= r' \/ original <> zeroHash /\ current = zeroHash /\ r - params.SstoreRefundGas <= r').
Proof.
  intros Hn Hr Hm Hc. cbv zeta. unfold netRefund.
  assert (Net.clearRefund n = params.SstoreRefundGas /\ 0 <= Net.resetClearRefund n <= 20000 /\ 0 <= Net.resetRefund n <= 20000) as (-> & H1 & H2).
  { repeat (apply elem_of_cons in Hn as [->|Hn]); [cbn; lia..|by apply elem_of_nil in Hn]. }
  assert (forall x, 0 <= x <= 20000 -> forall y, 0 <= y <= r + 15000 -> u64 (y + x) = y + x) as Hu by (intros; apply u64_id; unfold in_u64; lia).
  assert (original <> zeroHash /\ current = zeroHash /\ v <> zeroHash -> params.SstoreRefundGas <= r) as Hc' by naive_solver. clear Hc.
  repeat (case_bool_decide; cbn [negb andb]); subst; try (assert (params.SstoreRefundGas <= r) by (apply Hc'; split_and!; congruence));
    rewrite ?Hu by lia; split_and!; intros; try congruence; try lia; try (left; lia); right; split_and!; congruence || lia.
Qed.

Context {HV : EvmLaws V} (most : Z).
Hypothesis Hmost : most < two64.

(** What both kinds of stores have in common: the counter goes from the one of [s]
    to the one of [t]. *)
Lemma paid_store g s t a k v original current c : shrinks s t -> vState a k s = Some current -> vCommitted a k s = Some original -> vCommitted a k t = Some original ->
  200 <= c -> let r := StateDB.refund s in let r' := StateDB.refund t in
  (0 <= r -> r + 40000 < two64 -> (original <> zeroHash -> current = zeroHash -> params.SstoreRefundGas <= r) ->
    0 <= r' <= r + 40000 /\ (v = zeroHash -> original <> zeroHash -> current <> zeroHash -> r + params.SstoreRefundGas <= r') /\ (v = zeroHash -> r <= r') /\
    (r <= r' \/ original <> zeroHash /\ current = zeroHash /\ r - params.SstoreRefundGas <= r')) ->
  solvent most g s -> solventAfter most a k v (g - c) t.
Proof.
  cbv zeta. intros Hsh Hv Ho Ho' Hc Hspec Hs Hg. destruct (Hs ltac:(lia)) as (S1 & S2 & S3 & S4).
  assert (original <> zeroHash -> current = zeroHash -> cleared s (a, k)) as Hcl by (intros H1 ->; split; cbn [fst snd]; [done|congruence]).
  destruct Hspec as (R1 & R2 & R3 & R4); [done|lia|intros H1 H2; eapply pays_one, Hcl; done|]. split_and!; [by eapply shrinks_clean| |lia|lia].
  apply (pays_store (cleared s) _ (a, k) (StateDB.refund s) _ (bool_decide (v = zeroHash /\ original <> zeroHash))); [done|..].
  - intros p Hp. unfold clearedAfter. rewrite decide_False by done. apply Hsh.
  - unfold clearedAfter. rewrite decide_True by done. rewrite Ho'. intros [H1 H2]. apply bool_decide_eq_true. split; [done|congruence].
  - intros [Hz Hn]%bool_decide_eq_true. destruct (decide (current = zeroHash)) as [Hcz|Hcz]; [right|left; auto]. split; auto.
  - intros _. destruct R4 as [?|(H1 & H2 & H3)]; [by left|right; auto].
Qed.

Lemma legacy_solvent g s t a k y current c : uint256.word y -> vState a k s = Some current -> legacyGas current y s = Ret (c, t) ->
  solvent most g s -> solventAfter most a k (toHash y) (g - c) t.
Proof.
  intros Hy Hv Hm. destruct (legacyGas_run current y s) as (c' & u & Hu & Hc & Hk & Hr). rewrite Hu in Hm. injection Hm as -> ->.
  destruct (getters_peek a k) as (_ & _ & _ & _ & _ & _ & _ & _ & _ & [_ Hs]). destruct (Hs s) as [original Ho].
  apply (paid_store g s t a k (toHash y) original current); try done.
  - by apply kept_shrinks.
  - by destruct (kept_views s t a k Hk) as (_ & _ & _ & _ & _ & _ & _ & _ & _ & ->).
  - intros H0 H1 _. rewrite Hr, uint256.Sign_eq by done. assert (toHash y = zeroHash <-> y = 0) as Hz by (by apply uint256.Bytes32_zero).
    case_bool_decide; cbn [negb andb]; [|destruct (Z.eqb_spec y 0); [rewrite u64_id by (unfold in_u64; lia)|]]; split_and!; intros; try lia; try congruence; try (left; lia).
    exfalso. tauto.
Qed.

Lemma net_cost n a k v current s c t : n ∈ [Net.eip1283; Net.eip2200] -> netGas n a k current v s = Ret (c, t) -> 200 <= c.
Proof.
  intros Hn Hm. pose proof (wp_run _ _ _ _ _ (netGas_cost n a k current v s) Hm) as Hc. cbn beta in Hc.
  repeat (apply elem_of_cons in Hn as [->|Hn]); [cbn in Hc; set_solver by lia..|by apply elem_of_nil in Hn].
Qed.

Lemma net_solvent n g s t a k v current c : n ∈ [Net.eip1283; Net.eip2200] -> ok s -> vState a k s = Some current -> netGas n a k current v s = Ret (c, t) ->
  solvent most g s -> solventAfter most a k v (g - c) t.
Proof.
  intros Hn Hw Hv Hm. destruct (netGas_ret n a k v current s c t Hw Hm) as (original & s1 & Ho & Q & Hk & _ & Hr). destruct (quiet_shrinks _ _ Q) as [Q1 Q2]. rewrite Q2 in Hr.
  apply (paid_store g s t a k v original current); try done.
  - eapply shrinks_trans; [exact Q1|by apply kept_shrinks].
  - destruct (kept_views s1 t a k Hk) as (_ & _ & _ & _ & _ & _ & _ & _ & _ & ->). by destruct (views_respect a k _ _ _ (proj2 (proj2 Q))) as (_ & _ & _ & _ & _ & _ & _ & _ & _ & <-).
  - by eapply net_cost.
  - cbv zeta. rewrite Hr. intros H0 H1 H2. apply netRefund_spec; try done. auto.
Qed.

Lemma AddBalance_shrinks s t a z : ok s -> AddBalance a z s = Ret (tt, t) -> shrinks s t /\ StateDB.refund t = StateDB.refund s.
Proof.
  intros Hw Hm. pose proof (wp_run _ _ _ _ _ (AddBalance_sets s a z Hw) Hm) as S. split; [eapply sets_shrinks; [exact S|done..]|]. destruct (proj1 (setters_leave a) z s tt t Hm) as [E _]. by injection E.
Qed.

Lemma Transfer_shrinks s t a b z : ok s -> Transfer a b z s = Ret (tt, t) -> shrinks s t /\ StateDB.refund t = StateDB.refund s.
Proof.
  intros Hw Hm. unfold Transfer, mbind, ST_bind in Hm. destruct (SubBalance a z s) as [[[] s1]|] eqn:E1; [|done]. cbn in Hm.
  pose proof (wp_run _ _ _ _ _ (SubBalance_sets s a z Hw) E1) as S. destruct (SubBalance_balance s s1 a z Hw E1) as (W1 & _). destruct (AddBalance_shrinks s1 t b z W1 Hm) as [H1 ->].
  split; [eapply shrinks_trans; [eapply sets_shrinks; [exact S|done..]|done]|]. destruct (proj1 (proj2 (setters_leave a)) z s tt s1 E1) as [E _]. by injection E.
Qed.

Lemma Suicide_shrinks s t a b z r : ok s -> (AddBalance b z;; Suicide a) s = Ret (r, t) -> shrinks s t /\ StateDB.refund t = StateDB.refund s.
Proof.
  intros Hw Hm. unfold mbind, ST_bind in Hm. destruct (AddBalance b z s) as [[[] s1]|] eqn:E1; [|done]. cbn in Hm.
  destruct (AddBalance_shrinks s s1 b z Hw E1) as [H1 <-]. destruct (AddBalance_balance s s1 b z Hw E1) as (W1 & _). split; [eapply shrinks_trans; [done|by eapply suicide_shrinks]|].
  destruct (setters_leave a) as (_ & _ & _ & _ & _ & Hl & _). destruct (Hl s1 r t Hm) as [E _]. by injection E.
Qed.

Instance keeps_solvent rules : Rules.IsEIP150 rules = true -> Keeps rules false (fun _ => False) (solvent most) (solventAfter most).
Proof.
  intros H150. split.
  - intros g g' s Hg Hs Hg'. destruct (Hs ltac:(lia)) as (S1 & S2 & S3 & S4). split_and!; try done. lia.
  - intros a k v g g' s Hg Hs Hg'. destruct (Hs ltac:(lia)) as (S1 & S2 & S3 & S4). split_and!; try done. lia.
  - intros es g s t He. apply shrinks_solvent; [|destruct He as [_ E _ _]; unfold rest in E; by injection E]. apply same_shrinks; [symmetry; apply He|].
    intros b. split; [by eapply same_eqv|by eapply eqv_flag].
  - intros g s t a Hw Ht _ Hm. apply shrinks_solvent; [by eapply create_shrinks|]. destruct (setters_leave a) as (_ & _ & _ & _ & _ & _ & Hl). destruct (Hl s tt t Hm) as [E _]. by injection E.
  - intros g s t a b z Hw Ht _ _ _ Hm. destruct (Transfer_shrinks s t a b z Hw Hm). by apply shrinks_solvent.
  - intros g s t a Hw Ht Hm. destruct (AddBalance_shrinks s t a 0 Hw Hm). by apply shrinks_solvent.
  - intros g s t a n _ Hw Ht Hm. pose proof (wp_run _ _ _ _ _ (SetNonce_sets s a n Hw) Hm) as S. apply shrinks_solvent; [eapply sets_shrinks; [exact S|done..]|].
    destruct (setters_leave a) as (_ & _ & Hl & _). destruct (Hl n s tt t Hm) as [E _]. by injection E.
  - intros g s t a c _ Hw Ht Hm. pose proof (wp_run _ _ _ _ _ (SetCode_sets s a c Hw) Hm) as S. apply shrinks_solvent; [eapply sets_shrinks; [exact S|done..]|].
    destruct (setters_leave a) as (_ & _ & _ & Hl & _). destruct (Hl c s tt t Hm) as [E _]. by injection E.
  - intros g s t l _ Hw Ht Hm. unfold AddLog, mbind, ST_bind, gets, modify in Hm. cbn in Hm. injection Hm as <-. by apply shrinks_solvent; [apply kept_shrinks|].
  - intros g s t h b Hw Ht Hm. unfold AddPreimage, mbind, ST_bind, gets, modify in Hm. cbn in Hm. destruct (StateDB.preimages s !! h); injection Hm as <-; by apply shrinks_solvent; [apply kept_shrinks|].
  - intros g s t a b z r _ Hw Ht _ Hm. destruct (Suicide_shrinks s t a b z r Hw Hm). by apply shrinks_solvent.
  - intros g s t _ Hw Ht Hm Hs Hg. rewrite H150 in Hg |- *. destruct (Hs ltac:(lia)) as (S1 & S2 & S3 & S4). unfold AddRefund, mbind, ST_bind, gets, modify in Hm. cbn in Hm. injection Hm as <-.
    cbn [StateDB.refund StateDB.set_refund]. rewrite u64_id by (unfold in_u64; lia). split_and!; [|intros l Hn Hl; specialize (S2 l Hn Hl); lia|lia|lia]. by eapply shrinks_clean, S1; apply kept_shrinks.
  - intros g s t a k y current c _ Hw Ht Hy Hv Hm. by apply (legacy_solvent g s t a k y current).
  - intros n g s t a k v current c Hn _ Hw Ht Hv Hm. by apply (net_solvent n g s t a k v current).
  - intros n g s a k v current why Hn _ Hg Hw Hv Hp Hs. destruct (Hs Hg) as (_ & S2 & _). destruct (getters_peek a k) as (_ & _ & _ & _ & _ & _ & _ & _ & _ & [_ Hx]). destruct (Hx s) as [original Ho].
    pose proof (netGas_run n a k v current original s Hw Ho) as H. unfold pwp in H. rewrite Hp in H. destruct H as (_ & Hne & -> & _ & Hlt).
    assert (params.SstoreRefundGas <= StateDB.refund s) by (apply (pays_one _ _ (a, k) S2); split; cbn [fst snd]; [done|congruence]).
    assert (Net.clearRefund n = params.SstoreRefundGas) by (repeat (apply elem_of_cons in Hn as [->|Hn]); [done..|by apply elem_of_nil in Hn]). lia.
  - intros g s t a k v Hw Ht Hm. by apply store_solvent.
Qed.
End Instances.
