(* ===== verification/EvmWords.v ===== *)
(** * Arithmetic of the virtual machine

    Words, sizes of memory and what they cost, and the parts of memory that
    instructions reach: bounds that the proofs about instructions share. *)

From S2P Require Import Prelude GoStd Effects StateDB EvmData.

(** The largest memory that is paid for, in words. *)
Abbreviation maxWords := 0xFFFFFFFF (only parsing).

Section Words.
Context {V : EvmLib} {HV : EvmLaws V}.
Implicit Types (x y off len size w : Z) (m : Memory.t) (b : bytes).

Lemma word_u64 x : in_u64 x -> uint256.word x.
Proof. unfold in_u64, two64, uint256.word. lia. Qed.

Lemma word_small x : 0 <= x < 2 ^ 63 -> uint256.word x.
Proof. unfold uint256.word. lia. Qed.

Lemma word_byte (c : byte) : uint256.word (byte_Z c).
Proof. unfold byte_Z, uint256.word. pose proof (Byte.to_N_bounded c). lia. Qed.

Lemma Uint64_small x : uint256.word x -> x < two64 -> uint256.Uint64 x = x.
Proof. intros Hw Hx. rewrite uint256.Uint64_eq by done. apply u64_id. unfold in_u64, uint256.word in *. lia. Qed.

Lemma Uint64_range x : uint256.word x -> in_u64 (uint256.Uint64 x).
Proof. intros Hw. rewrite uint256.Uint64_eq by done. apply u64_range. Qed.

Lemma IsUint64_true x : uint256.word x -> uint256.IsUint64 x = true <-> x < two64.
Proof. intros Hw. rewrite uint256.IsUint64_eq by done. apply Z.ltb_lt. Qed.

(** ** Sizes *)

Lemma calcMemSize64WithUint_spec off len size : uint256.word off -> in_u64 len -> calcMemSize64WithUint off len = (size, false) ->
  (len = 0 /\ size = 0) \/ (0 < len /\ off + len < two64 /\ size = off + len).
Proof.
  intros Ho Hl. unfold calcMemSize64WithUint. destruct (Z.eqb_spec len 0); [intros [= <-]; by left|].
  destruct (uint256.IsUint64 off) eqn:Eo; [|done]. apply IsUint64_true in Eo; [|done]. rewrite Uint64_small by done. cbn [negb].
  intros [= Hs Hov]. right. unfold in_u64, uint256.word in *. unfold u64 in *. apply Z.ltb_ge in Hov.
  destruct (Z.lt_ge_cases (off + len) two64) as [H|H]; [rewrite Z.mod_small in Hs by lia; lia|].
  rewrite <- (Z.mod_add (off + len) (-1) two64), Z.mod_small in Hov by (unfold two64 in *; lia). lia.
Qed.

Lemma calcMemSize64_spec off len size : uint256.word off -> uint256.word len -> calcMemSize64 off len = (size, false) ->
  len < two64 /\ ((len = 0 /\ size = 0) \/ (0 < len /\ off + len < two64 /\ size = off + len)).
Proof.
  intros Ho Hl. unfold calcMemSize64. destruct (uint256.IsUint64 len) eqn:El; [|done]. apply IsUint64_true in El; [|done]. cbn [negb].
  rewrite Uint64_small by done. intros H. split; [done|]. apply calcMemSize64WithUint_spec; [done| |done]. unfold in_u64, uint256.word in *. lia.
Qed.

Lemma toWordSize_spec size : in_u64 size -> 0 <= toWordSize size <= 2 ^ 59 /\ size <= 32 * toWordSize size < size + 32.
Proof.
  unfold in_u64, two64. intros H. unfold toWordSize, two64. destruct (Z.ltb_spec (2 ^ 64 - 1 - 31) size).
  - change ((2 ^ 64 - 1) `div` 32 + 1) with (2 ^ 59). lia.
  - pose proof (Z.div_mod (size + 31) 32). pose proof (Z.mod_pos_bound (size + 31) 32). lia.
Qed.

Lemma toWordSize_exact w : 0 <= w < 2 ^ 59 -> toWordSize (32 * w) = w.
Proof.
  intros H. destruct (toWordSize_spec (32 * w)) as [_ H1]; [unfold in_u64, two64; lia|]. lia.
Qed.

(** ** Cost of memory *)

(** The cost of [w] words of memory. *)
Definition fee w : Z := params.MemoryGas * w + (w * w) `div` params.QuadCoeffDiv.

Lemma fee_bounds w : 0 <= w <= maxWords -> 0 <= fee w < 2 ^ 56.
Proof.
  intros H. unfold fee. assert (0 <= w * w <= maxWords * maxWords) as [H1 H2] by nia. pose proof (Z.div_le_mono _ _ 512 eq_refl H2) as H3.
  pose proof (Z.div_pos _ 512 H1 eq_refl). change ((maxWords * maxWords) `div` 512) with 36028797002186752 in H3. lia.
Qed.

Lemma fee_mono w w' : 0 <= w <= w' -> fee w <= fee w'.
Proof. intros H. unfold fee. assert (w * w <= w' * w') as H1 by nia. pose proof (Z.div_le_mono _ _ 512 eq_refl H1). lia. Qed.

(** The memory of a running call: whole words, all paid for. *)
Definition mem_ok m : Prop := exists w, 0 <= w <= maxWords /\ Memory.Len m = 32 * w /\ Memory.lastGasCost m = fee w.

Lemma mem_len m : mem_ok m -> 0 <= Memory.Len m < 2 ^ 38.
Proof. intros (w & H1 & H2 & _). lia. Qed.

Lemma NewMemory_ok : mem_ok Memory.NewMemory.
Proof. by exists 0. Qed.

(** ** Parts of memory *)

(** The part from [off] on with [len] bytes can be reached. *)
Definition region m off len : Prop := 0 <= len /\ (len = 0 \/ (0 <= off /\ off + len <= Memory.Len m)).

Lemma slice_range_in b lo hi : 0 <= lo <= hi -> hi <= zlen b ->
  slice_range b lo hi = Ret (take (Z.to_nat (hi - lo)) (drop (Z.to_nat lo) b)).
Proof.
  intros H1 H2. unfold slice_range. by rewrite !(proj2 (Z.leb_le _ _)) by lia.
Qed.

Lemma length_copy_at b n src : (n <= length b)%nat -> length (copy_at b n src) = length b.
Proof. intros H. unfold copy_at. rewrite length_take, !length_app, length_take, length_drop. lia. Qed.

Lemma Set_run m off len b : mem_ok m -> region m off len -> exists m', Memory.Set_ m off len b = Ret m' /\ Memory.Len m' = Memory.Len m /\
  Memory.lastGasCost m' = Memory.lastGasCost m.
Proof.
  intros Hm [Hl Hr]. pose proof (mem_len m Hm) as Hlen. unfold Memory.Set_. destruct (Z.ltb_spec 0 len); [|by exists m].
  destruct Hr as [->|[Ho Hr]]; [lia|]. rewrite (u64_id (off + len)) by (unfold in_u64, two64; lia).
  rewrite (proj2 (Z.ltb_ge _ _)) by lia. unfold Memory.Len in *. rewrite slice_range_in by lia. cbn [obind]. eexists. split; [done|]. cbn.
  split; [|done]. unfold zlen. rewrite length_copy_at; [done|]. unfold zlen in *. lia.
Qed.

Lemma Set32_run m off x : mem_ok m -> region m off 32 -> exists m', Memory.Set32 m off x = Ret m' /\ Memory.Len m' = Memory.Len m /\
  Memory.lastGasCost m' = Memory.lastGasCost m.
Proof.
  intros Hm [Hl [?|[Ho Hr]]]; [lia|]. pose proof (mem_len m Hm) as Hlen. unfold Memory.Set32. rewrite (u64_id (off + 32)) by (unfold in_u64, two64; lia).
  rewrite (proj2 (Z.ltb_ge _ _)) by lia. unfold Memory.Len in *. rewrite slice_range_in by lia. cbn [obind]. eexists. split; [done|]. cbn [Memory.store Memory.lastGasCost].
  split; [|done]. unfold zlen in *. rewrite length_app, length_take, uint256.WriteToSlice_length, length_drop, length_copy_at by lia. lia.
Qed.

(** A pointer into memory stays good while the memory does not shrink. *)
Definition slice_ok m (s : slice) : Prop := match s with Own b => zlen b < 2 ^ 62 | Ptr off len => 0 < len /\ region m off len end.

Lemma i64_small x : 0 <= x < 2 ^ 63 -> i64 x = x.
Proof. intros H. apply i64_id. unfold in_i64, min_i64, max_i64. lia. Qed.

Lemma GetPtr_run m off len : mem_ok m -> region m off len -> exists s, Memory.GetPtr m off len = Ret s /\ slice_ok m s.
Proof.
  intros Hm [Hl Hr]. pose proof (mem_len m Hm) as Hlen. unfold Memory.GetPtr. destruct (Z.eqb_spec len 0) as [->|Hn]; [by eexists|].
  destruct Hr as [?|[Ho Hr]]; [done|]. rewrite (proj2 (Z.ltb_lt _ _)) by lia. rewrite i64_small by lia. unfold Memory.Len in *.
  rewrite slice_range_in by lia. cbn [obind]. eexists. split; [done|]. cbn. unfold region, Memory.Len. lia.
Qed.

Lemma GetCopy_run m off len : mem_ok m -> region m off len -> exists b, Memory.GetCopy m off len = Ret b /\ zlen b < 2 ^ 62.
Proof.
  intros Hm [Hl Hr]. pose proof (mem_len m Hm) as Hlen. unfold Memory.GetCopy. destruct (Z.eqb_spec len 0) as [->|Hn]; [by eexists|].
  destruct Hr as [?|[Ho Hr]]; [done|]. rewrite (proj2 (Z.ltb_lt _ _)), (proj2 (Z.ltb_ge _ _)) by lia. rewrite i64_small by lia. unfold Memory.Len in *.
  rewrite slice_range_in by lia. eexists. split; [done|]. unfold zlen. rewrite length_take, length_drop. unfold zlen in *. lia.
Qed.

Lemma read_fits m s : mem_ok m -> slice_ok m s -> zlen (Memory.read m s) < 2 ^ 62.
Proof.
  intros Hm. destruct s as [b|off len]; [done|]. intros _. pose proof (mem_len m Hm) as Hlen. unfold Memory.read, Memory.Len, zlen in *.
  rewrite length_take, length_drop. lia.
Qed.

Lemma slice_ok_len m m' s : Memory.Len m <= Memory.Len m' -> slice_ok m s -> slice_ok m' s.
Proof. intros H. destruct s as [b|off len]; [done|]. unfold slice_ok, region. lia. Qed.

(** Growing the memory to [w] words. *)
Lemma Resize_run m w w' : 0 <= w <= maxWords -> 0 <= w' <= maxWords -> Memory.Len m = 32 * w ->
  Memory.lastGasCost m = fee (w `max` w') -> mem_ok (Memory.Resize m (32 * w')) /\ Memory.Len (Memory.Resize m (32 * w')) = 32 * (w `max` w').
Proof.
  intros Hw Hw' Hl Hc. assert (Memory.Len (Memory.Resize m (32 * w')) = 32 * (w `max` w')) as H.
  { unfold Memory.Resize. destruct (Z.ltb_spec (Memory.Len m) (32 * w')); [|lia]. unfold Memory.Len, zlen in *. cbn. rewrite length_app, length_replicate. lia. }
  split; [|done]. exists (w `max` w'). split; [lia|]. split; [done|]. unfold Memory.Resize. by destruct (_ <? _).
Qed.

(** ** Data *)

Lemma getData_run b start size : zlen b < 2 ^ 62 -> in_u64 start -> 0 <= size < 2 ^ 38 -> exists d, getData b start size = Ret d.
Proof.
  intros Hb Hs Hz. unfold getData. pose proof (zlen_nonneg b). unfold in_u64, two64 in *. set (st := if zlen b <? start then zlen b else start).
  assert (0 <= st <= zlen b) as Hst by (unfold st; destruct (Z.ltb_spec (zlen b) start); lia).
  rewrite (u64_id (st + size)) by (unfold in_u64, two64; lia). set (en := if zlen b <? st + size then zlen b else st + size).
  assert (st <= en <= zlen b) as Hen by (unfold en; destruct (Z.ltb_spec (zlen b) (st + size)); lia).
  rewrite slice_range_in by lia. by eexists.
Qed.

Lemma callGas_range eip150 available base cost g : uint256.word cost -> callGas eip150 available base cost = inl g -> in_u64 g.
Proof.
  intros Hc. unfold callGas. set (avail := u64 _). assert (in_u64 avail) as Ha by apply u64_range.
  assert (in_u64 (avail - avail `div` 64)) as Hg.
  { unfold in_u64 in *. pose proof (Z.div_pos avail 64). pose proof (Z.div_le_upper_bound avail 64 avail). lia. }
  destruct (_ && _); [by intros [= <-]|]. destruct (negb _); [done|]. intros [= <-]. by apply Uint64_range.
Qed.
End Words.
