(* ===== verification/EvmJump.v ===== *)
(** * Jump analysis

    [core/vm/analysis.go] marks the bytes of code that are data of a push, eight at
    a time where it can.  Here the result is compared with the obvious definition,
    which goes through the code byte by byte. *)

From S2P Require Import Prelude GoStd Effects StateDB EvmData.
Import bitvec.

(** The definition: [skip] bytes of data are left. *)
Definition pushData (b : byte) : nat :=
  if (0x60 <=? byte_Z b) && (byte_Z b <=? 0x7f) then Z.to_nat (byte_Z b - 0x5f) else 0.

Fixpoint dataMap (skip : nat) (code : bytes) : list bool :=
  match code, skip with
  | [], _ => []
  | _ :: code', S n => true :: dataMap n code'
  | b :: code', O => false :: dataMap (pushData b) code'
  end.

(** ** The bits *)

Implicit Types (bits : bitvec.t) (i pos pc : Z) (code : bytes).

Definition bit bits i : bool :=
  match bits !! Z.to_nat (i `div` 8) with Some b => Z.testbit b (7 - i mod 8) | None => false end.

(** Checking all positions in a byte. *)
Lemma below8 (p : Z -> Z -> bool) : forallb (fun r => forallb (p r) (seqZ 0 8)) (seqZ 0 8) = true ->
  forall r j, 0 <= r < 8 -> 0 <= j < 8 -> p r j = true.
Proof.
  rewrite forallb_forall. intros H r j Hr Hj. specialize (H r). rewrite forallb_forall in H.
  apply H; apply list_elem_of_In, elem_of_seqZ; lia.
Qed.

Lemma one_bit r j : 0 <= r < 8 -> 0 <= j < 8 -> Z.testbit (Z.shiftr 0x80 r) (7 - j) = (j =? r).
Proof. intros Hr Hj. apply eqb_prop. revert r j Hr Hj. apply below8. vm_compute. reflexivity. Qed.

Lemma first_bits r j : 0 <= r < 8 -> 0 <= j < 8 -> Z.testbit (Z.shiftr 0xFF r) (7 - j) = (r <=? j).
Proof. intros Hr Hj. apply eqb_prop. revert r j Hr Hj. apply below8. vm_compute. reflexivity. Qed.

Lemma last_bits r j : 0 <= r < 8 -> 0 <= j < 8 -> Z.testbit (Z.land 0xFF (Z.lnot (Z.shiftr 0xFF r))) (7 - j) = (j <? r).
Proof. intros Hr Hj. apply eqb_prop. revert r j Hr Hj. apply below8. vm_compute. reflexivity. Qed.

(** A byte of the map gets more bits. *)
Lemma bit_lor bits n b m i : bits !! n = Some b -> 0 <= i ->
  bit (<[n := Z.lor b m]> bits) i = bit bits i || bool_decide (Z.to_nat (i `div` 8) = n) && Z.testbit m (7 - i mod 8).
Proof.
  intros Hb Hi. unfold bit. case_bool_decide as Hn.
  - subst n. rewrite Hb, list_lookup_insert_eq by (by eapply lookup_lt_Some). by rewrite Z.lor_spec.
  - rewrite list_lookup_insert_ne by done. by rewrite orb_false_r.
Qed.

Definition within pos n i : bool := (pos <=? i) && (i <? pos + n).

Lemma byte_of i : 0 <= i -> i = 8 * (i `div` 8) + i mod 8 /\ 0 <= i mod 8 < 8 /\ 0 <= i `div` 8.
Proof. intros Hi. pose proof (Z.mod_pos_bound i 8). pose proof (Z.div_mod i 8). pose proof (Z.div_pos i 8). lia. Qed.

Lemma set_spec bits pos : 0 <= pos < 8 * zlen bits ->
  exists bits', set bits pos = Ret bits' /\ length bits' = length bits /\ forall i, 0 <= i -> bit bits' i = bit bits i || within pos 1 i.
Proof.
  intros Hp. destruct (byte_of pos) as (E1 & E2 & E3); [lia|]. unfold set.
  destruct (slice_get_in bits (pos `div` 8)) as (b & -> & Hb); [lia|]. cbn [obind]. rewrite slice_set_in by lia.
  eexists. split; [done|]. rewrite length_insert. split; [done|]. intros i Hi. rewrite (bit_lor _ _ _ _ _ Hb Hi). f_equal.
  destruct (byte_of i Hi) as (F1 & F2 & F3). rewrite one_bit by done. unfold within. case_bool_decide; lia.
Qed.

Lemma set8_spec bits pos : 0 <= pos -> pos + 8 < 8 * zlen bits ->
  exists bits', set8 bits pos = Ret bits' /\ length bits' = length bits /\ forall i, 0 <= i -> bit bits' i = bit bits i || within pos 8 i.
Proof.
  intros Hp Hl. destruct (byte_of pos) as (E1 & E2 & E3); [lia|]. unfold set8.
  destruct (slice_get_in bits (pos `div` 8)) as (b & -> & Hb); [lia|]. cbn [obind]. rewrite slice_set_in by lia. cbn [obind].
  set (bits1 := <[_ := _]> bits). assert (length bits1 = length bits) as Hl1 by apply length_insert.
  destruct (slice_get_in bits1 (pos `div` 8 + 1)) as (b' & -> & Hb'); [unfold zlen in *; lia|]. cbn [obind].
  rewrite slice_set_in by (unfold zlen in *; lia). eexists. split; [done|]. rewrite length_insert. split; [done|].
  intros i Hi. rewrite (bit_lor _ _ _ _ _ Hb' Hi). unfold bits1. rewrite (bit_lor _ _ _ _ _ Hb Hi), <- orb_assoc. f_equal.
  destruct (byte_of i Hi) as (F1 & F2 & F3). rewrite first_bits, last_bits by done. unfold within. do 2 case_bool_decide; lia.
Qed.

Lemma mark_spec n numbits pc bits : 0 <= numbits <= Z.of_nat n -> 0 <= pc -> pc + numbits < 8 * zlen bits ->
  exists bits', mark n numbits pc bits = Ret (pc + numbits, bits') /\ length bits' = length bits /\
    forall i, 0 <= i -> bit bits' i = bit bits i || within pc numbits i.
Proof.
  assert (forall bits pc, exists bits', Ret (pc, bits) = Ret (pc + 0, bits') /\ length bits' = length bits /\
    forall i, 0 <= i -> bit bits' i = bit bits i || within pc 0 i) as Hz.
  { intros bits0 pc0. exists bits0. rewrite Z.add_0_r. split_and!; [done|done|]. intros i Hi. replace (within pc0 0 i) with false by (unfold within; lia). by rewrite orb_false_r. }
  revert numbits pc bits. induction n as [|n IH]; intros numbits pc bits Hn Hp Hl.
  { replace numbits with 0 by lia. apply Hz. }
  cbn [mark]. destruct (Z.leb_spec 8 numbits).
  - destruct (set8_spec bits pc) as (b1 & -> & L1 & B1); [lia|lia|]. cbn [obind].
    destruct (IH (numbits - 8) (pc + 8) b1) as (b2 & -> & L2 & B2); [lia|lia|unfold zlen in *; lia|].
    exists b2. split_and!; [f_equal; f_equal; lia|congruence|]. intros i Hi. rewrite B2, B1, <- orb_assoc by done. f_equal. unfold within. lia.
  - destruct (Z.ltb_spec 0 numbits); [|replace numbits with 0 by lia; apply Hz].
    destruct (set_spec bits pc) as (b1 & -> & L1 & B1); [lia|]. cbn [obind].
    destruct (IH (numbits - 1) (pc + 1) b1) as (b2 & -> & L2 & B2); [lia|lia|unfold zlen in *; lia|].
    exists b2. split_and!; [f_equal; f_equal; lia|congruence|]. intros i Hi. rewrite B2, B1, <- orb_assoc by done. f_equal. unfold within. lia.
Qed.

(** ** The loop *)

Lemma dataMap_skip k code : dataMap k code = replicate (k `min` length code) true ++ dataMap 0 (drop k code).
Proof. revert k. induction code as [|b code IH]; intros [|k]; [done..|]. cbn. by rewrite IH. Qed.

(** Whether the byte [i] is data when [pc] is an instruction. *)
Definition dataFrom code pc i : bool := (pc <=? i) && default false (dataMap 0 (drop (Z.to_nat pc) code) !! Z.to_nat (i - pc)).

Lemma dataFrom_step code pc b i : 0 <= pc -> 0 <= i < zlen code -> code !! Z.to_nat pc = Some b ->
  dataFrom code pc i = within (pc + 1) (Z.of_nat (pushData b)) i || dataFrom code (pc + 1 + Z.of_nat (pushData b)) i.
Proof.
  intros Hp Hi Hb. unfold dataFrom. rewrite (drop_S _ _ _ Hb). cbn [dataMap]. rewrite dataMap_skip, drop_drop. unfold within, zlen in *.
  replace (Z.to_nat (pc + 1 + Z.of_nat (pushData b))) with (S (Z.to_nat pc) + pushData b)%nat by lia.
  destruct (Z.leb_spec pc i); [|cbn; bdestr; try lia; done].
  destruct (decide (i = pc)) as [->|Hne]; [rewrite Z.sub_diag; cbn; bdestr; try lia; done|].
  replace (Z.to_nat (i - pc)) with (S (Z.to_nat (i - pc - 1))) by lia. change ((false :: ?l) !! S ?n) with (l !! n). rewrite andb_true_l.
  destruct (Z.ltb_spec i (pc + 1 + Z.of_nat (pushData b))).
  - rewrite lookup_app_l by (rewrite length_replicate, length_drop; lia). rewrite lookup_replicate_2 by (rewrite length_drop; lia).
    cbn. bdestr; try lia; done.
  - assert (S (Z.to_nat pc) + pushData b < length code)%nat by lia.
    rewrite lookup_app_r by (rewrite length_replicate, length_drop; lia). rewrite length_replicate, length_drop.
    rewrite (proj2 (Z.leb_le (pc + 1) i)), (proj2 (Z.leb_le (pc + 1 + Z.of_nat (pushData b)) i)) by lia. cbn [andb orb].
    do 2 f_equal. lia.
Qed.

Lemma dataFrom_end code pc i : zlen code <= pc -> dataFrom code pc i = false.
Proof. intros H. unfold dataFrom, zlen in *. rewrite drop_ge by lia. by rewrite andb_false_r. Qed.

Lemma scan_spec n code pc bits : 0 <= pc -> zlen code - pc <= Z.of_nat n -> zlen code + 33 <= 8 * zlen bits ->
  exists bits', scan n code pc bits = Ret bits' /\ length bits' = length bits /\
    forall i, 0 <= i < zlen code -> bit bits' i = bit bits i || dataFrom code pc i.
Proof.
  assert (forall bits pc, zlen code <= pc -> exists bits', Ret bits = Ret bits' /\ length bits' = length bits /\
    forall i, 0 <= i < zlen code -> bit bits' i = bit bits i || dataFrom code pc i) as Hend.
  { intros bits0 pc0 H. exists bits0. split_and!; [done|done|]. intros i _. by rewrite dataFrom_end, orb_false_r. }
  revert pc bits. induction n as [|n IH]; intros pc bits Hp Hn Hl; [apply Hend; lia|].
  cbn [scan]. destruct (Z.ltb_spec pc (zlen code)) as [Hlt|Hge]; [|by apply Hend].
  destruct (slice_get_in code pc) as (b & -> & Hb); [lia|]. cbn [obind].
  pose proof (fun i Hi => dataFrom_step code pc b i Hp Hi Hb) as Hstep. unfold pushData in Hstep.
  destruct ((0x60 <=? byte_Z b) && (byte_Z b <=? 0x7f)) eqn:Eb.
  - assert (0x60 <= byte_Z b <= 0x7f) by lia. rewrite Z2Nat.id in Hstep by lia.
    destruct (mark_spec 32 (byte_Z b - 0x60 + 1) (pc + 1) bits) as (b1 & -> & L1 & B1); [lia|lia|unfold zlen in *; lia|]. cbn [obind].
    destruct (IH (pc + 1 + (byte_Z b - 0x60 + 1)) b1) as (b2 & -> & L2 & B2); [lia|lia|unfold zlen in *; lia|].
    exists b2. split_and!; [done|congruence|]. intros i Hi. rewrite B2, B1, Hstep by lia.
    replace (byte_Z b - 0x60 + 1) with (byte_Z b - 0x5f) by lia. by rewrite orb_assoc.
  - destruct (IH (pc + 1) bits) as (b2 & -> & L2 & B2); [lia|lia|done|].
    exists b2. split_and!; [done|done|]. intros i Hi. rewrite B2, Hstep by lia. change (Z.of_nat 0) with 0. rewrite Z.add_0_r.
    replace (within (pc + 1) 0 i) with false by (unfold within; lia). done.
Qed.

(** The bytes of the code that are instructions, by the definition. *)
Definition isInstruction code i : bool := negb (default false (dataMap 0 code !! Z.to_nat i)).

(** A map that answers as the definition does. *)
Definition analyses code bits : Prop := forall i, 0 <= i < zlen code -> codeSegment bits i = Ret (isInstruction code i).

Lemma land_one_bit b r : 0 <= r < 8 -> (Z.land b (Z.shiftr 0x80 r) =? 0) = negb (Z.testbit b (7 - r)).
Proof.
  intros Hr. assert (Z.shiftr 0x80 r = 2 ^ (7 - r)) as ->.
  { apply Z.eqb_eq. revert r Hr. assert (forall r j, 0 <= r < 8 -> 0 <= j < 8 -> (Z.shiftr 0x80 r =? 2 ^ (7 - r)) = true) as H.
    { apply (below8 (fun r _ => Z.shiftr 0x80 r =? 2 ^ (7 - r))). vm_compute. reflexivity. }
    intros r Hr. apply (H r r Hr Hr). }
  destruct (Z.testbit b (7 - r)) eqn:Et; cbn [negb].
  - apply Z.eqb_neq. intros H. apply (f_equal (fun z => Z.testbit z (7 - r))) in H.
    rewrite Z.land_spec, Et, Z.pow2_bits_true, Z.bits_0 in H by lia. done.
  - apply Z.eqb_eq. apply Z.bits_inj'. intros j Hj. rewrite Z.land_spec, Z.bits_0. destruct (decide (j = 7 - r)) as [->|Hne]; [by rewrite Et|].
    rewrite Z.pow2_bits_false by lia. by rewrite andb_false_r.
Qed.

(** The analysis of code.  [codeBitmap] returns, and for every position of the
    code [codeSegment] tells whether the byte is an instruction or data of a push,
    as the byte-by-byte definition does, although the bits are set eight at a time
    and beyond the end of the code. *)
Lemma codeBitmap_analyses code : exists bits, codeBitmap code = Ret bits /\ analyses code bits.
Proof.
  unfold codeBitmap. set (bits := replicate _ 0). pose proof (zlen_nonneg code) as Hz.
  assert (zlen bits = zlen code `div` 8 + 5) as Hb.
  { unfold bits, zlen. rewrite length_replicate. pose proof (Z.div_pos (zlen code) 8). unfold zlen in *. lia. }
  destruct (scan_spec (length code) code 0 bits) as (bits' & E & Hl & Hbit); [lia|unfold zlen; lia|rewrite Hb; destruct (byte_of (zlen code) Hz); lia|].
  exists bits'. split; [done|]. intros i Hi. unfold codeSegment. destruct (byte_of i) as (F1 & F2 & F3); [lia|].
  destruct (slice_get_in bits' (i `div` 8)) as (b & -> & Hbi).
  { pose proof (Z.div_le_mono i (zlen code) 8). unfold zlen at 1. rewrite Hl. fold (zlen bits). lia. }
  cbn [obind]. rewrite land_one_bit by done.
  specialize (Hbit i Hi). unfold bit at 1 in Hbit. rewrite Hbi in Hbit. rewrite Hbit. unfold isInstruction, dataFrom. rewrite Z.sub_0_r, drop_0.
  assert (bit bits i = false) as ->. { unfold bit. destruct (bits !! _) as [x|] eqn:Ex; [|done]. apply lookup_replicate in Ex as [-> _]. apply Z.bits_0. }
  by rewrite (proj2 (Z.leb_le 0 i)) by lia.
Qed.

(** The analysis of code answers, for every position of the code, whether the
    byte is an instruction or data of a push, as reading the code byte by byte from
    its start does, although the bits are set eight at a time and beyond the end of
    the code.  It never goes out of its bit vector. *)
Theorem codeBitmap_exact code : exists bits, codeBitmap code = Ret bits /\ forall i, 0 <= i < zlen code -> codeSegment bits i = Ret (isInstruction code i).
Proof. destruct (codeBitmap_analyses code) as (bits & E & H). by exists bits. Qed.
