(* ===== verification/EvmFrame.v ===== *)
(** * Instructions on a running call

    The invariant of a running call ([fine]) and what each instruction that does
    not call does with it: no instruction that the loop lets through panics, leaves
    something that is not a word on the stack or a stack that is too deep, and what
    an instruction reaches of the memory is there and paid for. *)

From S2P Require Import Prelude GoStd Effects StateDB StateRevert StateSafety EvmData EvmOps EvmState EvmWords EvmJump.
Import state vm.

Section Frame.
Context {L : StateLib} {HL : StateLaws L} {HT : TrieLaws L} {V : EvmLib} {HV : EvmLaws V} (ctx : Context.t).
Abbreviation rules := (Context.chainRules ctx).
Context {static : bool} {P : string -> Prop} {J : Z -> StateDB.t -> Prop} {K : bytes -> bytes -> bytes -> Z -> StateDB.t -> Prop}.
Context {HK : Keeps rules static P J K}.
Abbreviation session := (session (J := J)).
Implicit Types (f : Frame.t) (e : EVM.t) (c : Contract.t) (s : StateDB.t) (G d size : Z) (ro : bool).

(** ** The invariant *)

Record contract_ok c : Prop := {
  co_gas : in_u64 (Contract.Gas c);
  co_value : is_Some (Contract.value c);
  co_code : fits (Contract.Code c);
  co_input : fits (Contract.Input c);
  co_hash : Contract.Code c <> [] -> Contract.CodeHash c <> zeroHash -> Contract.CodeHash c = Keccak256Hash (Contract.Code c);
  co_analysis : forall bits, Contract.analysis c = Some bits -> analyses (Contract.Code c) bits
}.

(** The analyses that are kept are those of the code with the hash. *)
Definition dests_ok (m : gmap bytes bitvec.t) : Prop := forall h bits code, m !! h = Some bits -> h = Keccak256Hash code -> analyses code bits.

Record evm_ok d ro e : Prop := {
  eo_depth : EVM.depth e = d;
  eo_readOnly : EVM.readOnly e = ro;
  eo_static : static = true -> ro = true;
  eo_data : fits (EVM.returnData e);
  eo_dests : dests_ok (EVM.jumpdests e)
}.

Abbreviation gas f := (Contract.Gas (Frame.contract f)).
Abbreviation state f := (EVM.StateDB (Frame.evm f)).

(** A running call that started with the state [s0], while [G] gas is left to its
    callers; [R] is what is kept, [J] except within a store. *)
Record fineOf (R : Z -> StateDB.t -> Prop) s0 G d ro f : Prop := {
  fi_state : EvmState.session (J := R) s0 (G + gas f) (state f);
  fi_evm : evm_ok d ro (Frame.evm f);
  fi_words : Forall uint256.word (Frame.stack f);
  fi_depth : zlen (Frame.stack f) <= params.StackLimit;
  fi_rstack : Forall (fun z => 0 <= z < 2 ^ 32) (Frame.rstack f);
  fi_memory : mem_ok (Frame.memory f);
  fi_contract : contract_ok (Frame.contract f);
  fi_pc : 0 <= Frame.pc f < 2 ^ 63;
  fi_callers : 0 <= G
}.
#[global] Arguments fi_state {R} _ _ _ _ _ _.
#[global] Arguments fi_evm {R} _ _ _ _ _ _.
#[global] Arguments fi_words {R} _ _ _ _ _ _.
#[global] Arguments fi_depth {R} _ _ _ _ _ _.
#[global] Arguments fi_rstack {R} _ _ _ _ _ _.
#[global] Arguments fi_memory {R} _ _ _ _ _ _.
#[global] Arguments fi_contract {R} _ _ _ _ _ _.
#[global] Arguments fi_pc {R} _ _ _ _ _ _.
#[global] Arguments fi_callers {R} _ _ _ _ _ _.
Abbreviation fine := (fineOf J).

(** A call that is over, with its result. *)
Record ended s0 G d ro f (res : slice) (err : option vmError) : Prop := {
  en_state : follows_ok s0 (state f);
  en_kept : err = None -> J (G + gas f) (state f);
  en_evm : evm_ok d ro (Frame.evm f);
  en_gas : in_u64 (gas f);
  en_data : fits (Memory.read (Frame.memory f) res);
  en_err : err <> Some ErrCodeStoreOutOfGas
}.

Lemma fine_ended s0 G d ro f res err : fine s0 G d ro f -> slice_ok (Frame.memory f) res -> err <> Some ErrCodeStoreOutOfGas -> ended s0 G d ro f res err.
Proof.
  intros [H1 H2 H3 H4 H5 H6 H7 H8 H9] Hs He. split; [apply H1|intros _; apply H1|done|apply H7|by apply read_fits|done].
Qed.

Lemma fine_stack s0 G d ro f st : fine s0 G d ro f -> Forall uint256.word st -> zlen st <= params.StackLimit -> fine s0 G d ro (Frame.set_stack f st).
Proof. intros [H1 H2 H3 H4 H5 H6 H7 H8 H9] Hw Hl. by split. Qed.

Lemma fine_pc s0 G d ro f pc : fine s0 G d ro f -> 0 <= pc < 2 ^ 63 -> fine s0 G d ro (Frame.set_pc f pc).
Proof. intros [H1 H2 H3 H4 H5 H6 H7 H8 H9] Hp. by split. Qed.

Lemma fine_memory s0 G d ro f m : fine s0 G d ro f -> mem_ok m -> fine s0 G d ro (Frame.set_memory f m).
Proof. intros [H1 H2 H3 H4 H5 H6 H7 H8 H9] Hm. by split. Qed.

Lemma fine_rstack s0 G d ro f rs : fine s0 G d ro f -> Forall (fun z => 0 <= z < 2 ^ 32) rs -> fine s0 G d ro (Frame.set_rstack f rs).
Proof. intros [H1 H2 H3 H4 H5 H6 H7 H8 H9] Hm. by split. Qed.

Lemma fine_evm s0 G d ro f e : fine s0 G d ro f -> session s0 (G + gas f) (EVM.StateDB e) -> evm_ok d ro e -> fine s0 G d ro (Frame.set_evm f e).
Proof. intros [H1 H2 H3 H4 H5 H6 H7 H8 H9] Hm He. by split. Qed.

Lemma evm_state d ro e s : evm_ok d ro e -> evm_ok d ro (EVM.set_StateDB e s).
Proof. intros [H1 H2 H3 H4 H5]. by split. Qed.

(** ** Access to the frame *)

Lemma pwp_onDB {A} (m : M A) (Q : A -> EVM.t -> Prop) e : pwp P m (fun x s => Q x (EVM.set_StateDB e s)) (EVM.StateDB e) -> pwp P (onDB m) Q e.
Proof. unfold pwp, onDB. by destruct (m _) as [[x s]|]. Qed.

Lemma pwp_onEVM {A} (m : ST EVM.t A) (Q : A -> Frame.t -> Prop) f : pwp P m (fun x e => Q x (Frame.set_evm f e)) (Frame.evm f) -> pwp P (onEVM m) Q f.
Proof. unfold pwp, onEVM. by destruct (m _) as [[x s]|]. Qed.

Lemma pwp_db {A} (m : M A) (Q : A -> Frame.t -> Prop) f :
  pwp P m (fun x s => Q x (Frame.set_evm f (EVM.set_StateDB (Frame.evm f) s))) (state f) -> pwp P (onEVM (onDB m)) Q f.
Proof. intros H. by apply pwp_onEVM, pwp_onDB. Qed.

Lemma pwp_pop {B} (k : Z -> ST Frame.t B) Q f x st : Frame.stack f = x :: st -> pwp P (k x) Q (Frame.set_stack f st) -> pwp P (pop ≫= k) Q f.
Proof. intros Hs Hk. unfold pop, pwp, mbind, ST_bind, gets, lift, modify. cbn. by rewrite Hs. Qed.

Lemma pwp_Back {B} (k : Z -> ST Frame.t B) Q f n x : Stack.Back (Frame.stack f) n = Ret x -> pwp P (k x) Q f -> pwp P (Back n ≫= k) Q f.
Proof. intros Hs Hk. unfold Back, pwp, mbind, ST_bind, gets, lift. cbn. by rewrite Hs. Qed.

Lemma pwp_peek {B} (k : Z -> ST Frame.t B) Q f x st : Frame.stack f = x :: st -> pwp P (k x) Q f -> pwp P (peek ≫= k) Q f.
Proof. intros Hs. apply pwp_Back. by rewrite Hs. Qed.

Lemma pwp_onStack {B} (k : unit -> ST Frame.t B) Q f g st : g (Frame.stack f) = Ret st -> pwp P (k tt) Q (Frame.set_stack f st) -> pwp P (onStack g ≫= k) Q f.
Proof. intros Hs Hk. unfold onStack, pwp, mbind, ST_bind, gets, lift, modify. cbn. by rewrite Hs. Qed.

Lemma pwp_poke {B} (k : unit -> ST Frame.t B) Q f z x st : Frame.stack f = x :: st -> pwp P (k tt) Q (Frame.set_stack f (z :: st)) -> pwp P (poke z ≫= k) Q f.
Proof. intros Hs. apply pwp_onStack. by rewrite Hs. Qed.

Lemma pwp_push {B} (k : unit -> ST Frame.t B) Q f z : pwp P (k tt) Q (Frame.set_stack f (z :: Frame.stack f)) -> pwp P (push z ≫= k) Q f.
Proof. done. Qed.

Lemma pwp_GetPtr {B} (k : slice -> ST Frame.t B) Q f off len : mem_ok (Frame.memory f) -> region (Frame.memory f) off len ->
  (forall p, slice_ok (Frame.memory f) p -> pwp P (k p) Q f) -> pwp P (GetPtr off len ≫= k) Q f.
Proof.
  intros Hm Hr Hk. destruct (GetPtr_run _ _ _ Hm Hr) as (p & Es & Hs). unfold GetPtr, pwp, mbind, ST_bind, gets, lift. cbn. rewrite Es. by apply Hk.
Qed.

Lemma setMemory_run (Q : unit -> Frame.t -> Prop) f off len b : mem_ok (Frame.memory f) -> region (Frame.memory f) off len ->
  (forall m, mem_ok m -> Memory.Len m = Memory.Len (Frame.memory f) -> Q tt (Frame.set_memory f m)) -> pwp P (setMemory off len b) Q f.
Proof.
  intros Hm Hr Hk. destruct (Set_run _ _ _ b Hm Hr) as (m & Es & Hl & Hc). unfold setMemory, onMemory, pwp, mbind, ST_bind, gets, lift, modify. cbn. rewrite Es.
  apply Hk; [|done]. destruct Hm as (w & W1 & W2 & W3). exists w. by rewrite Hl, Hc.
Qed.

Lemma pwp_setMemory {B} (k : unit -> ST Frame.t B) Q f off len b : mem_ok (Frame.memory f) -> region (Frame.memory f) off len ->
  (forall m, mem_ok m -> Memory.Len m = Memory.Len (Frame.memory f) -> pwp P (k tt) Q (Frame.set_memory f m)) -> pwp P (setMemory off len b ≫= k) Q f.
Proof. intros Hm Hr Hk. by apply pwp_bind, setMemory_run. Qed.

(** ** Instructions

    After an instruction: the invariant, the gas, the result. *)
Definition went s0 G d ro f (r : slice * option vmError) f' : Prop :=
  fine s0 G d ro f' /\ gas f' = gas f /\ slice_ok (Frame.memory f') r.1 /\ Frame.pc f' < 2 ^ 63 - 1 /\ r.2 <> Some ErrCodeStoreOutOfGas.

(** The memory that an instruction asks for is there. *)
Definition covered (need : option (Stack.t -> outcome (Z * bool))) f : Prop :=
  match need with None => True | Some ms => exists size, ms (Frame.stack f) = Ret (size, false) /\ size <= Memory.Len (Frame.memory f) end.

(** What is asked of an instruction that takes [pops] operands and leaves [push]. *)
Definition exec_ok (m : ST Frame.t (slice * option vmError)) (pops push : Z) (need : option (Stack.t -> outcome (Z * bool))) : Prop :=
  forall s0 G d ro f, fine s0 G d ro f -> pops <= zlen (Frame.stack f) <= maxStack pops push -> Frame.pc f < 2 ^ 62 -> covered need f ->
    pwp P m (went s0 G d ro f) f.

Lemma went_next s0 G d ro f f' : fine s0 G d ro f' -> gas f' = gas f -> Frame.pc f' < 2 ^ 63 - 1 -> pwp P next (went s0 G d ro f) f'.
Proof. intros H1 H2 H3. by apply pwp_ret. Qed.

Lemma went_fail s0 G d ro f f' (why : vmError) : fine s0 G d ro f' -> gas f' = gas f -> Frame.pc f' < 2 ^ 63 - 1 -> why <> ErrCodeStoreOutOfGas -> pwp P (fail why) (went s0 G d ro f) f'.
Proof. intros H1 H2 H3 H4. apply pwp_ret. split_and!; try done. by intros [= ->]. Qed.

Lemma went_stack s0 G d ro f g st : fine s0 G d ro g -> gas g = gas f -> Frame.pc g < 2 ^ 62 -> Forall uint256.word st -> zlen st <= params.StackLimit ->
  pwp P next (went s0 G d ro f) (Frame.set_stack g st).
Proof. intros F Hg Hp Hw Hl. apply went_next; [by apply fine_stack|done|cbn; lia]. Qed.

(** The operands, as many as there have to be. *)
Ltac short := exfalso; unfold zlen in *; cbn in *; lia.
Ltac lengths := unfold zlen, maxStack in *; cbn [length Frame.stack Frame.set_evm Frame.set_stack Frame.set_memory Frame.set_pc Frame.set_contract Frame.set_rstack Frame.set_steps] in *; lia.

Lemma fine_operands s0 G d ro f st : fine s0 G d ro f -> Frame.stack f = st -> Forall uint256.word st.
Proof. intros F <-. apply F. Qed.

Lemma fine_room s0 G d ro f st : fine s0 G d ro f -> Frame.stack f = st -> zlen st <= params.StackLimit.
Proof. intros F <-. apply F. Qed.

Lemma opUnary_ok g : (forall x, uint256.word x -> uint256.word (g x)) -> exec_ok (opUnary g) 1 1 None.
Proof.
  intros Hg s0 G d ro f F Hl Hp _. destruct (Frame.stack f) as [|x st] eqn:Hst; [short|]. pose proof (fine_operands _ _ _ _ _ _ F Hst) as Hw.
  apply Forall_cons in Hw as [Hx Hw]. eapply pwp_peek; [exact Hst|]. eapply pwp_poke; [exact Hst|].
  apply went_stack; [done|done|done|constructor; auto|lengths].
Qed.

Lemma opBinary_ok g : (forall x y, uint256.word x -> uint256.word y -> uint256.word (g x y)) -> exec_ok (opBinary g) 2 1 None.
Proof.
  intros Hg s0 G d ro f F Hl Hp _. destruct (Frame.stack f) as [|x [|y st]] eqn:Hst; [short..|]. pose proof (fine_operands _ _ _ _ _ _ F Hst) as Hw.
  apply Forall_cons in Hw as [Hx Hw]. apply Forall_cons in Hw as [Hy Hw].
  eapply pwp_pop; [exact Hst|]. eapply pwp_peek; [done|]. eapply pwp_poke; [done|].
  apply (went_stack _ _ _ _ f f (g x y :: st)); [done|done|done|constructor; auto|lengths].
Qed.

Lemma opTernary_ok g : (forall x y z, uint256.word x -> uint256.word y -> uint256.word z -> uint256.word (g x y z)) -> exec_ok (opTernary g) 3 1 None.
Proof.
  intros Hg s0 G d ro f F Hl Hp _. destruct (Frame.stack f) as [|x [|y [|z st]]] eqn:Hst; [short..|]. pose proof (fine_operands _ _ _ _ _ _ F Hst) as Hw.
  apply Forall_cons in Hw as [Hx Hw]. apply Forall_cons in Hw as [Hy Hw]. apply Forall_cons in Hw as [Hz Hw].
  eapply pwp_pop; [exact Hst|]. eapply pwp_pop; [done|]. eapply pwp_peek; [done|]. eapply pwp_poke; [done|].
  apply (went_stack _ _ _ _ f f (g x y z :: st)); [done|done|done|constructor; auto|lengths].
Qed.

Ltac words Hw := repeat (apply Forall_cons in Hw as [? Hw]).

(** *** Reading the state *)

Lemma fine_update s0 G d ro f s : fine s0 G d ro f -> session s0 (G + gas f) s -> fine s0 G d ro (Frame.set_evm f (EVM.set_StateDB (Frame.evm f) s)).
Proof. intros F S. apply fine_evm; [done|done|apply evm_state, F]. Qed.

Lemma pwp_read {A B} (m : M A) v (k : A -> ST Frame.t B) Q s0 G d ro f : peeks m v -> fine s0 G d ro f ->
  (forall x s, fine s0 G d ro (Frame.set_evm f (EVM.set_StateDB (Frame.evm f) s)) -> v (state f) = Some x -> quiet (state f) s ->
    pwp P (k x) Q (Frame.set_evm f (EVM.set_StateDB (Frame.evm f) s))) -> pwp P (onEVM (onDB m) ≫= k) Q f.
Proof.
  intros Hm F Hk. apply pwp_bind, pwp_db. eapply pwp_mono; [exact (act_read m v s0 _ _ Hm (fi_state _ _ _ _ _ F))|].
  intros x s (S & Hv & He). apply Hk; [by apply fine_update|done|done].
Qed.

Lemma pwp_write {A B} (m : M A) (k : A -> ST Frame.t B) Q s0 G d ro f : fine s0 G d ro f ->
  pwp P m (fun _ s => session s0 (G + gas f) s) (state f) ->
  (forall x s, fine s0 G d ro (Frame.set_evm f (EVM.set_StateDB (Frame.evm f) s)) -> pwp P (k x) Q (Frame.set_evm f (EVM.set_StateDB (Frame.evm f) s))) ->
  pwp P (onEVM (onDB m) ≫= k) Q f.
Proof.
  intros F Hm Hk. apply pwp_bind, pwp_db. eapply pwp_mono; [exact Hm|]. intros x s S. apply Hk. by apply fine_update.
Qed.

Lemma peek_Empty a : peeks (Empty a) (vEmpty a). Proof. by destruct (getters_peek a zeroHash) as (_ & H & _). Qed.
Lemma peek_Exist a : peeks (Exist a) (vExist a). Proof. by destruct (getters_peek a zeroHash) as (H & _). Qed.
Lemma peek_Balance a : peeks (GetBalance a) (vBalance a). Proof. by destruct (getters_peek a zeroHash) as (_ & _ & H & _). Qed.
Lemma peek_Nonce a : peeks (GetNonce a) (vNonce a). Proof. by destruct (getters_peek a zeroHash) as (_ & _ & _ & H & _). Qed.
Lemma peek_CodeHash a : peeks (GetCodeHash a) (vCodeHash a). Proof. by destruct (getters_peek a zeroHash) as (_ & _ & _ & _ & H & _). Qed.
Lemma peek_Suicided a : peeks (HasSuicided a) (vSuicided a). Proof. by destruct (getters_peek a zeroHash) as (_ & _ & _ & _ & _ & H & _). Qed.
Lemma peek_Code a : peeks (GetCode a) (vCode a). Proof. by destruct (getters_peek a zeroHash) as (_ & _ & _ & _ & _ & _ & H & _). Qed.
Lemma peek_CodeSize a : peeks (GetCodeSize a) (vCodeSize a). Proof. by destruct (getters_peek a zeroHash) as (_ & _ & _ & _ & _ & _ & _ & H & _). Qed.
Lemma peek_State a k : peeks (GetState a k) (vState a k). Proof. by destruct (getters_peek a k) as (_ & _ & _ & _ & _ & _ & _ & _ & H & _). Qed.

(** A getter of the state whose result replaces the top of the stack. *)
Lemma read_top {A} (m : Z -> M A) v (g : A -> Z) : (forall x, peeks (m x) (v x)) -> (forall y, uint256.word (g y)) ->
  exec_ok (x ← peek; y ← onEVM (onDB (m x)); poke (g y);; next) 1 1 None.
Proof.
  intros Hm Hg s0 G d ro f F Hl Hp _. destruct (Frame.stack f) as [|x st] eqn:Hst; [short|]. pose proof (fine_operands _ _ _ _ _ _ F Hst) as Hw. words Hw.
  eapply pwp_peek; [exact Hst|]. eapply pwp_read; [apply Hm|exact F|]. intros y s F' _ _. eapply pwp_poke; [exact Hst|].
  by apply went_stack; [|done|done|constructor|lengths].
Qed.

(** Something that is pushed. *)
Lemma opPushWord_ok g : (forall s0 G d ro f, fine s0 G d ro f -> uint256.word (g f)) -> exec_ok (opPushWord g) 0 1 None.
Proof.
  intros Hg s0 G d ro f F Hl Hp _. unfold opPushWord. apply pwp_gets_bind, pwp_push. apply went_stack; [done|done|done| |lengths].
  constructor; [by eapply Hg|apply F].
Qed.

Lemma opConst_ok z : uint256.word z -> exec_ok (opConst z) 0 1 None.
Proof. intros Hz. apply opPushWord_ok. by intros. Qed.

Lemma opCallValue_ok : exec_ok opCallValue 0 1 None.
Proof.
  intros s0 G d ro f F Hl Hp _. unfold opCallValue, contract. apply pwp_gets_bind. destruct (co_value _ (fi_contract _ _ _ _ _ F)) as [v Hv].
  apply pwp_bind. eapply pwp_nonNil; [exact Hv|]. apply pwp_push. apply went_stack; [done|done|done| |lengths]. constructor; [apply uint256.word_FromBig|apply F].
Qed.

Lemma opSelfBalance_ok : exec_ok opSelfBalance 0 1 None.
Proof.
  intros s0 G d ro f F Hl Hp _. unfold opSelfBalance, contract. apply pwp_gets_bind. eapply pwp_read; [apply peek_Balance|exact F|]. intros b s F' _ _.
  apply pwp_push. apply went_stack; [done|done|done| |lengths]. constructor; [apply uint256.word_FromBig|apply F'].
Qed.

Lemma opExtCodeHash_ok : exec_ok opExtCodeHash 1 1 None.
Proof.
  intros s0 G d ro f F Hl Hp _. destruct (Frame.stack f) as [|x st] eqn:Hst; [short|]. pose proof (fine_operands _ _ _ _ _ _ F Hst) as Hw. words Hw.
  eapply pwp_peek; [exact Hst|]. eapply pwp_read; [apply peek_Empty|exact F|]. intros [] s F' _ _.
  - eapply pwp_poke; [exact Hst|]. apply went_stack; [done|done|done|constructor; [by apply word_small|done]|lengths].
  - eapply pwp_read; [apply peek_CodeHash|exact F'|]. intros h s' F'' _ _. eapply pwp_poke; [exact Hst|].
    apply went_stack; [done|done|done|constructor; [apply uint256.word_SetBytes|done]|lengths].
Qed.

Lemma opBlockhash_ok : exec_ok (opBlockhash ctx) 1 1 None.
Proof.
  intros s0 G d ro f F Hl Hp _. destruct (Frame.stack f) as [|x st] eqn:Hst; [short|]. pose proof (fine_operands _ _ _ _ _ _ F Hst) as Hw. words Hw.
  assert (forall z, uint256.word z -> pwp P (poke z;; next) (went s0 G d ro f) f) as Hz.
  { intros z Hz. eapply pwp_poke; [exact Hst|]. apply went_stack; [done|done|done|by constructor|lengths]. }
  eapply pwp_peek; [exact Hst|]. destruct (negb _); [by apply Hz, word_small|]. cbv zeta. destruct (_ && _); apply Hz; [apply uint256.word_SetBytes|by apply word_small].
Qed.

Lemma opCallDataLoad_ok : exec_ok opCallDataLoad 1 1 None.
Proof.
  intros s0 G d ro f F Hl Hp _. destruct (Frame.stack f) as [|x st] eqn:Hst; [short|]. pose proof (fine_operands _ _ _ _ _ _ F Hst) as Hw. words Hw.
  assert (forall z, uint256.word z -> pwp P (poke z;; next) (went s0 G d ro f) f) as Hz.
  { intros z Hz. eapply pwp_poke; [exact Hst|]. apply went_stack; [done|done|done|by constructor|lengths]. }
  eapply pwp_peek; [exact Hst|]. destruct (uint256.IsUint64 x) eqn:Ex; [|by apply Hz, word_small].
  unfold contract. apply pwp_gets_bind. destruct (getData_run (Contract.Input (Frame.contract f)) (uint256.Uint64 x) 32) as [data Hd].
  - apply F.
  - by apply Uint64_range.
  - lia.
  - eapply pwp_lift_bind; [exact Hd|]. apply Hz, uint256.word_SetBytes.
Qed.

(** *** Memory *)

Lemma int64_small z : 0 <= z < 2 ^ 63 -> int64 z = z.
Proof. intros Hz. unfold int64. rewrite Uint64_small; [by apply i64_small|unfold uint256.word; lia|unfold two64; lia]. Qed.

(** The part of the memory that was paid for, with its operands as [int64] and as
    [uint64]. *)
Record reached (m : Memory.t) (off len : Z) : Prop := {
  re_int64 : region m (int64 off) (int64 len);
  re_uint64 : region m (uint256.Uint64 off) (uint256.Uint64 len);
  re_len : 0 <= uint256.Uint64 len < 2 ^ 38;
  re_same : uint256.Uint64 len = len
}.

Lemma reach_region m off len size : mem_ok m -> uint256.word off -> uint256.word len -> calcMemSize64 off len = (size, false) -> size <= Memory.Len m -> reached m off len.
Proof.
  intros Hm Ho Hl Hc Hs. pose proof (mem_len m Hm) as Hlen. destruct (calcMemSize64_spec _ _ _ Ho Hl Hc) as [Hlt [[-> ->]|(Hpos & Hov & ->)]].
  - assert (int64 0 = 0) as E1 by (by apply int64_small). assert (uint256.Uint64 0 = 0) as E2 by (by apply Uint64_small).
    split; rewrite ?E1, ?E2; unfold region; lia.
  - unfold uint256.word in *. split; rewrite ?int64_small, ?Uint64_small by (unfold uint256.word, two64; lia); unfold region; lia.
Qed.

Lemma memoryAt_reached s0 G d ro f (i j : Z) off len : fine s0 G d ro f -> covered (Some (memoryAt i j)) f ->
  Stack.Back (Frame.stack f) i = Ret off -> Stack.Back (Frame.stack f) j = Ret len -> reached (Frame.memory f) off len.
Proof.
  intros F (size & Hs & Hle) Hi Hj. unfold memoryAt in Hs. rewrite Hi, Hj in Hs. cbn in Hs. injection Hs as Hs. pose proof (fi_words _ _ _ _ _ F) as Hw.
  rewrite Forall_forall in Hw. assert (forall k z, Stack.Back (Frame.stack f) k = Ret z -> uint256.word z) as Hk.
  { intros k z Hz. apply slice_get_Ret in Hz as [_ Hz]. apply Hw. by eapply list_elem_of_lookup_2. }
  eapply reach_region; eauto. apply F.
Qed.

Lemma memoryFixed_region s0 G d ro f n off : fine s0 G d ro f -> 0 < n <= 32 -> covered (Some (memoryFixed n)) f ->
  Stack.Back (Frame.stack f) 0 = Ret off -> region (Frame.memory f) off n /\ 0 <= off < 2 ^ 38.
Proof.
  intros F Hn (size & Hs & Hle) Hi. unfold memoryFixed in Hs. rewrite Hi in Hs. cbn in Hs. injection Hs as Hs. pose proof (fi_words _ _ _ _ _ F) as Hw.
  rewrite Forall_forall in Hw. apply slice_get_Ret in Hi as [_ Hi]. pose proof (Hw off ltac:(by eapply list_elem_of_lookup_2)) as Ho.
  pose proof (mem_len _ (fi_memory _ _ _ _ _ F)) as Hlen. unfold uint256.word in *.
  destruct (calcMemSize64WithUint_spec off n size Ho) as [[-> _]|(_ & _ & ->)]; [unfold in_u64, two64; lia|done|lia|]. unfold region. lia.
Qed.

Lemma fine_read s0 G d ro f p : fine s0 G d ro f -> slice_ok (Frame.memory f) p -> fits (Memory.read (Frame.memory f) p).
Proof. intros F Hp. apply read_fits; [apply F|done]. Qed.

Lemma opSha3_ok : exec_ok (opSha3 ctx) 2 1 (Some (memoryAt 0 1)).
Proof.
  intros s0 G d ro f F Hl Hp Hc. destruct (Frame.stack f) as [|x [|y st]] eqn:Hst; [short..|]. pose proof (fine_operands _ _ _ _ _ _ F Hst) as Hw. words Hw.
  destruct (memoryAt_reached _ _ _ _ _ 0 1 x y F Hc) as [R _ _ _]; [by rewrite Hst..|].
  eapply pwp_pop; [exact Hst|]. eapply pwp_peek; [done|]. apply pwp_GetPtr; [apply F|done|]. intros p Hs. unfold read. apply pwp_gets_bind.
  assert (fine s0 G d ro (Frame.set_stack f (y :: st))) as F1 by (apply fine_stack; [done|by constructor|lengths]).
  assert (forall f', fine s0 G d ro f' -> gas f' = gas f -> Frame.pc f' < 2 ^ 62 -> Frame.stack f' = y :: st -> pwp P (poke (uint256.SetBytes (Keccak256Hash
    (Memory.read (Frame.memory (Frame.set_stack f (y :: st))) p)));; next) (went s0 G d ro f) f') as Hend.
  { intros f' F' Hg Hpc Hst'. eapply pwp_poke; [exact Hst'|]. apply went_stack; [done|done|done|constructor; [apply uint256.word_SetBytes|done]|lengths]. }
  cbv zeta. apply pwp_bind, pwp_when; intros _; [|by apply Hend].
  apply pwp_db. eapply pwp_mono; [apply (act_preimage s0 _ _ _ _ (fi_state _ _ _ _ _ F1))|]. intros [] s S. by apply Hend; [apply fine_update|..].
Qed.

Lemma clampOffset_range z : uint256.word z -> in_u64 (clampOffset z).
Proof. intros Hz. unfold clampOffset. destruct (uint256.IsUint64 z); [by apply Uint64_range|]. unfold in_u64, two64. lia. Qed.

(** The three copies, with the code or data from [source]. *)
Lemma opCopy_run (source : ST Frame.t bytes) s0 G d ro f g x y z st : fine s0 G d ro g -> gas g = gas f -> Frame.pc g < 2 ^ 62 -> Frame.stack g = x :: y :: z :: st ->
  reached (Frame.memory g) x z ->
  (forall h, fine s0 G d ro h -> pwp P source (fun b h' => fits b /\ exists s, h' = Frame.set_evm h (EVM.set_StateDB (Frame.evm h) s) /\ fine s0 G d ro h') h) ->
  pwp P (opCopy source) (went s0 G d ro f) g.
Proof.
  intros F Hg Hp Hst R Hsrc. pose proof (fine_operands _ _ _ _ _ _ F Hst) as Hw. words Hw. pose proof (fi_depth _ _ _ _ _ F) as Hl. rewrite Hst in Hl.
  eapply pwp_pop; [exact Hst|]. eapply pwp_pop; [done|]. eapply pwp_pop; [done|]. apply pwp_bind.
  assert (fine s0 G d ro (Frame.set_stack g st)) as F1 by (apply fine_stack; [done|done|lengths]).
  eapply pwp_mono; [exact (Hsrc (Frame.set_stack g st) F1)|]. intros b h' (Hb & s & -> & F2).
  destruct (getData_run b (clampOffset y) (uint256.Uint64 z)) as [data Hd]; [done|by apply clampOffset_range|apply R|].
  eapply pwp_lift_bind; [exact Hd|]. apply pwp_setMemory; [apply F2|apply R|]. intros m Hm _. apply went_next; [by apply fine_memory|done|cbn; lia].
Qed.

Lemma contract_source g : (forall c, contract_ok c -> fits (g c)) -> forall s0 G d ro h, fine s0 G d ro h ->
  pwp P (contract g) (fun b h' => fits b /\ exists s, h' = Frame.set_evm h (EVM.set_StateDB (Frame.evm h) s) /\ fine s0 G d ro h') h.
Proof.
  intros Hg s0 G d ro h F. apply pwp_gets. split; [apply Hg, F|]. exists (state h). split; [|done]. by destruct h as [[] ? ? ? ? ? ?].
Qed.

Lemma opCopy_ok g : (forall c, contract_ok c -> fits (g c)) -> exec_ok (opCopy (contract g)) 3 0 (Some (memoryAt 0 2)).
Proof.
  intros Hg s0 G d ro f F Hl Hp Hc. destruct (Frame.stack f) as [|x [|y [|z st]]] eqn:Hst; [short..|].
  eapply opCopy_run; try done; [|intros; by eapply contract_source]. eapply (memoryAt_reached _ _ _ _ _ 0 2); [done|done|by rewrite Hst..].
Qed.

Lemma session_code s0 g (s : StateDB.t) a (c : option bytes) : session s0 g s -> vCode a s = Some c -> fits (goBytes c).
Proof.
  intros [[_ C] _] Hc. destruct c as [c|]; [|done]. destruct (decide (c = [])) as [->|Hn]; [done|]. by apply (C a c).
Qed.

Lemma opExtCodeCopy_ok : exec_ok opExtCodeCopy 4 0 (Some (memoryAt 1 3)).
Proof.
  intros s0 G d ro f F Hl Hp Hc. destruct (Frame.stack f) as [|a [|x [|y [|z st]]]] eqn:Hst; [short..|].
  destruct (memoryAt_reached _ _ _ _ _ 1 3 x z F Hc) as [R1 R2 R3 R4]; [by rewrite Hst..|].
  pose proof (fine_operands _ _ _ _ _ _ F Hst) as Hw. apply Forall_cons in Hw as [_ Hw]. pose proof (fine_room _ _ _ _ _ _ F Hst) as Hr.
  eapply pwp_pop; [exact Hst|]. eapply opCopy_run; [apply fine_stack; [exact F|exact Hw|lengths]|done|done|done|done|].
  intros h Fh. eapply pwp_read; [apply peek_Code|exact Fh|]. intros c s F' Hv _. apply pwp_ret. split; [|by exists s].
  eapply session_code; [apply Fh|exact Hv].
Qed.

Lemma opReturnDataCopy_ok : exec_ok opReturnDataCopy 3 0 (Some (memoryAt 0 2)).
Proof.
  intros s0 G d ro f F Hl Hp Hc. destruct (Frame.stack f) as [|x [|y [|z st]]] eqn:Hst; [short..|]. pose proof (fine_operands _ _ _ _ _ _ F Hst) as Hw. words Hw.
  destruct (memoryAt_reached _ _ _ _ _ 0 2 x z F Hc) as [R1 R2 R3 R4]; [by rewrite Hst..|]. pose proof (fine_room _ _ _ _ _ _ F Hst) as Hr.
  assert (fine s0 G d ro (Frame.set_stack f st)) as F1 by (apply fine_stack; [done|done|lengths]).
  eapply pwp_pop; [exact Hst|]. eapply pwp_pop; [done|]. eapply pwp_pop; [done|].
  assert (pwp P (fail ErrReturnDataOutOfBounds) (went s0 G d ro f) (Frame.set_stack f st)) as Hfail by (apply went_fail; [done|done|cbn; lia|done]).
  destruct (uint256.IsUint64 y) eqn:Ey; [|done]. apply IsUint64_true in Ey; [|done]. cbn [negb]. cbv zeta. apply pwp_gets_bind.
  assert (uint256.Add y z = y + z) as Ha.
  { rewrite uint256.Add_eq by done. apply Z.mod_small. unfold uint256.word, two64 in *. lia. }
  rewrite Ha. destruct (uint256.IsUint64 (y + z)) eqn:Ez; [|done]. assert (uint256.word (y + z)) as Hyz by (unfold uint256.word, two64 in *; lia).
  apply IsUint64_true in Ez; [|done]. rewrite !(Uint64_small (y + z)), !(Uint64_small y) by done. cbn [negb orb].
  destruct (Z.ltb_spec (zlen (EVM.returnData (Frame.evm (Frame.set_stack (Frame.set_stack (Frame.set_stack f (y :: z :: st)) (z :: st)) st)))) (y + z)); [done|].
  eapply pwp_lift_bind; [apply slice_range_in; unfold uint256.word in *; lia|]. apply pwp_setMemory; [apply F|done|].
  intros m Hm _. apply went_next; [by apply (fine_memory _ _ _ _ (Frame.set_stack f st))|done|cbn; lia].
Qed.

Lemma opMload_ok : exec_ok opMload 1 1 (Some (memoryFixed 32)).
Proof.
  intros s0 G d ro f F Hl Hp Hc. destruct (Frame.stack f) as [|x st] eqn:Hst; [short|]. pose proof (fine_operands _ _ _ _ _ _ F Hst) as Hw. words Hw.
  destruct (memoryFixed_region _ _ _ _ _ 32 x F ltac:(lia) Hc ltac:(by rewrite Hst)) as [R Hx].
  eapply pwp_peek; [exact Hst|]. rewrite int64_small by lia. apply pwp_GetPtr; [apply F|done|]. intros p Hs. unfold read. apply pwp_gets_bind.
  eapply pwp_poke; [exact Hst|]. apply went_stack; [done|done|done|constructor; [apply uint256.word_SetBytes|done]|lengths].
Qed.

Lemma pwp_onMemory {B} (k : unit -> ST Frame.t B) Q f g m : g (Frame.memory f) = Ret m -> pwp P (k tt) Q (Frame.set_memory f m) -> pwp P (onMemory g ≫= k) Q f.
Proof. intros Hg Hk. unfold onMemory, pwp, mbind, ST_bind, gets, lift, modify. cbn. by rewrite Hg. Qed.

Lemma mem_ok_same m m' : mem_ok m -> Memory.Len m' = Memory.Len m -> Memory.lastGasCost m' = Memory.lastGasCost m -> mem_ok m'.
Proof. intros (w & W1 & W2 & W3) Hl Hc. exists w. by rewrite Hl, Hc. Qed.

Lemma opMstore_ok : exec_ok opMstore 2 0 (Some (memoryFixed 32)).
Proof.
  intros s0 G d ro f F Hl Hp Hc. destruct (Frame.stack f) as [|x [|y st]] eqn:Hst; [short..|]. pose proof (fine_operands _ _ _ _ _ _ F Hst) as Hw. words Hw.
  destruct (memoryFixed_region _ _ _ _ _ 32 x F ltac:(lia) Hc ltac:(by rewrite Hst)) as [R Hx]. pose proof (fine_room _ _ _ _ _ _ F Hst) as Hr.
  eapply pwp_pop; [exact Hst|]. eapply pwp_pop; [done|]. destruct (Set32_run _ x y (fi_memory _ _ _ _ _ F) R) as (m & Em & Hm & Hcost).
  eapply pwp_onMemory; [rewrite Uint64_small by (done || unfold two64; lia); exact Em|].
  apply went_next; [|done|cbn; lia]. apply (fine_memory _ _ _ _ (Frame.set_stack f st)); [apply fine_stack; [done|done|lengths]|]. by eapply mem_ok_same; [apply F|..].
Qed.

Lemma opMstore8_ok : exec_ok opMstore8 2 0 (Some (memoryFixed 1)).
Proof.
  intros s0 G d ro f F Hl Hp Hc. destruct (Frame.stack f) as [|x [|y st]] eqn:Hst; [short..|]. pose proof (fine_operands _ _ _ _ _ _ F Hst) as Hw. words Hw.
  destruct (memoryFixed_region _ _ _ _ _ 1 x F ltac:(lia) Hc ltac:(by rewrite Hst)) as [[_ [?|R]] Hx]; [lia|]. pose proof (fine_room _ _ _ _ _ _ F Hst) as Hr.
  eapply pwp_pop; [exact Hst|]. eapply pwp_pop; [done|].
  eapply pwp_onMemory; [rewrite Uint64_small by (done || unfold two64; lia); cbn; rewrite slice_set_in by (unfold Memory.Len in R; lia); reflexivity|].
  apply went_next; [|done|cbn; lia]. apply (fine_memory _ _ _ _ (Frame.set_stack f st)); [apply fine_stack; [done|done|lengths]|].
  eapply mem_ok_same; [apply F| |done]. unfold Memory.Len, zlen. cbn. by rewrite length_insert.
Qed.

Lemma opReturn_ok : exec_ok opReturn 2 0 (Some (memoryAt 0 1)).
Proof.
  intros s0 G d ro f F Hl Hp Hc. destruct (Frame.stack f) as [|x [|y st]] eqn:Hst; [short..|]. pose proof (fine_operands _ _ _ _ _ _ F Hst) as Hw. words Hw.
  destruct (memoryAt_reached _ _ _ _ _ 0 1 x y F Hc) as [R _ _ _]; [by rewrite Hst..|]. pose proof (fine_room _ _ _ _ _ _ F Hst) as Hr.
  eapply pwp_pop; [exact Hst|]. eapply pwp_pop; [done|]. apply pwp_GetPtr; [apply F|done|]. intros p Hs. apply pwp_ret.
  split; [apply (fine_stack _ _ _ _ f st); [done|done|lengths]|]. split; [done|]. split; [done|]. split; [cbn; lia|done].
Qed.

Lemma opSload_ok : exec_ok opSload 1 1 None.
Proof.
  intros s0 G d ro f F Hl Hp Hc. destruct (Frame.stack f) as [|x st] eqn:Hst; [short|]. pose proof (fine_operands _ _ _ _ _ _ F Hst) as Hw. words Hw.
  eapply pwp_peek; [exact Hst|]. unfold contract. apply pwp_gets_bind. eapply pwp_read; [apply peek_State|exact F|]. intros v s F' _ _.
  eapply pwp_poke; [exact Hst|]. apply went_stack; [done|done|done|constructor; [apply uint256.word_SetBytes|done]|lengths].
Qed.

(** *** Constants, copies, logs *)

Lemma next_ok : exec_ok next 0 0 None.
Proof. intros s0 G d ro f F Hl Hp Hc. apply went_next; [done|done|lia]. Qed.

Lemma pop_ok : exec_ok (pop;; next) 1 0 None.
Proof.
  intros s0 G d ro f F Hl Hp Hc. destruct (Frame.stack f) as [|x st] eqn:Hst; [short|]. pose proof (fine_operands _ _ _ _ _ _ F Hst) as Hw. words Hw.
  pose proof (fine_room _ _ _ _ _ _ F Hst) as Hr. eapply pwp_pop; [exact Hst|]. apply went_stack; [done|done|done|done|lengths].
Qed.

Lemma opPush1_ok : exec_ok opPush1 0 1 None.
Proof.
  intros s0 G d ro f F Hl Hp Hc. pose proof (fi_pc _ _ _ _ _ F) as Hpc. unfold opPush1. apply pwp_gets_bind, pwp_modify_bind. unfold contract. apply pwp_gets_bind.
  rewrite u64_id by (unfold in_u64, two64; lia). cbn [Frame.contract Frame.set_pc].
  assert (forall z, uint256.word z -> pwp P (push z;; next) (went s0 G d ro f) (Frame.set_pc f (Frame.pc f + 1))) as Hz.
  { intros z Hz. apply pwp_push. apply went_next; [|done|cbn; lia]. apply (fine_stack _ _ _ _ (Frame.set_pc f (Frame.pc f + 1)) (z :: Frame.stack f)); [apply fine_pc; [done|lia]|constructor; [done|apply F]|lengths]. }
  destruct (Z.ltb_spec (Frame.pc f + 1) (zlen (Contract.Code (Frame.contract f)))); [|by apply Hz, word_small].
  destruct (slice_get_in (Contract.Code (Frame.contract f)) (Frame.pc f + 1)) as (b & Hb & _); [lia|]. eapply pwp_lift_bind; [exact Hb|]. apply Hz, word_byte.
Qed.

Lemma makePush_ok n : 1 <= n <= 32 -> exec_ok (makePush n) 0 1 None.
Proof.
  intros Hn s0 G d ro f F Hl Hp Hc. pose proof (fi_pc _ _ _ _ _ F) as Hpc. unfold makePush. apply pwp_gets_bind. unfold contract. apply pwp_gets_bind. cbv zeta.
  pose proof (co_code _ (fi_contract _ _ _ _ _ F)) as Hcode. unfold fits in Hcode. set (code := Contract.Code (Frame.contract f)) in *.
  pose proof (zlen_nonneg code). rewrite i64_small by lia. set (lo := if Frame.pc f + 1 <? zlen code then _ else _).
  assert (0 <= lo <= zlen code) as Hlo by (unfold lo; destruct (Z.ltb_spec (Frame.pc f + 1) (zlen code)); lia).
  set (hi := if lo + n <? zlen code then lo + n else zlen code).
  assert (lo <= hi <= zlen code) as Hhi by (unfold hi; destruct (Z.ltb_spec (lo + n) (zlen code)); lia).
  eapply pwp_lift_bind; [apply slice_range_in; lia|]. apply pwp_push. unfold setPc. apply pwp_modify_bind. rewrite u64_id by (unfold in_u64, two64; lia).
  apply went_next; [|done|cbn; lia]. apply fine_pc; [|lia]. apply fine_stack; [done|constructor; [apply uint256.word_SetBytes|apply F]|lengths].
Qed.

Lemma makeDup_ok n : 1 <= n <= 16 -> exec_ok (makeDup n) n (n + 1) None.
Proof.
  intros Hn s0 G d ro f F Hl Hp Hc. destruct (slice_get_in (Frame.stack f) (n - 1)) as (x & Hx & Hx'); [lia|].
  eapply pwp_onStack; [unfold Stack.dup; rewrite Hx; reflexivity|]. pose proof (fi_words _ _ _ _ _ F) as Hw.
  apply went_stack; [done|done|done|constructor; [|done]|unfold Stack.push; lengths]. rewrite Forall_forall in Hw. apply Hw. by eapply list_elem_of_lookup_2.
Qed.

Lemma makeSwap_ok n : 1 <= n <= 16 -> exec_ok (makeSwap n) (n + 1) (n + 1) None.
Proof.
  intros Hn s0 G d ro f F Hl Hp Hc. destruct (slice_get_in (Frame.stack f) n) as (x & Hx & Hx'); [lia|]. destruct (slice_get_in (Frame.stack f) 0) as (y & Hy & Hy'); [lia|].
  pose proof (fi_words _ _ _ _ _ F) as Hw. assert (uint256.word x /\ uint256.word y) as [Wx Wy].
  { rewrite Forall_forall in Hw. split; apply Hw; by eapply list_elem_of_lookup_2. }
  eapply pwp_onStack.
  { unfold Stack.swap. replace (n + 1 - 1) with n by lia. rewrite Hx, Hy. cbn [obind]. rewrite slice_set_in by lia. cbn [obind].
    rewrite slice_set_in by (unfold zlen in *; rewrite length_insert; lia). reflexivity. }
  apply went_stack; [done|done|done| |unfold zlen in *; rewrite !length_insert; apply F]. apply Forall_insert; [by apply Forall_insert|done].
Qed.

Lemma popN_run n s0 G d ro f : fine s0 G d ro f -> Z.of_nat n <= zlen (Frame.stack f) ->
  pwp P (popN n) (fun _ g => exists st, g = Frame.set_stack f st /\ fine s0 G d ro g) f.
Proof.
  revert f. induction n as [|n IH]; intros f F Hn.
  - apply pwp_ret. exists (Frame.stack f). split; [by destruct f|done].
  - destruct (Frame.stack f) as [|x st] eqn:Hst; [short|]. pose proof (fine_operands _ _ _ _ _ _ F Hst) as Hw. words Hw. pose proof (fine_room _ _ _ _ _ _ F Hst) as Hr.
    cbn [popN]. eapply pwp_pop; [exact Hst|]. apply pwp_bind. eapply pwp_mono; [apply (IH (Frame.set_stack f st)); [apply fine_stack; [done|done|lengths]|lengths]|].
    intros l g (st' & -> & F2). apply pwp_ret. by exists st'.
Qed.

Lemma makeLog_ok n : static = false -> 0 <= n <= 4 -> exec_ok (makeLog ctx n) (n + 2) 0 (Some (memoryAt 0 1)).
Proof.
  intros Hst' Hn s0 G d ro f F Hl Hp Hc. destruct (Frame.stack f) as [|x [|y st]] eqn:Hst; [short..|]. pose proof (fine_operands _ _ _ _ _ _ F Hst) as Hw. words Hw.
  destruct (memoryAt_reached _ _ _ _ _ 0 1 x y F Hc) as [R _ _ _]; [by rewrite Hst..|]. pose proof (fine_room _ _ _ _ _ _ F Hst) as Hr.
  eapply pwp_pop; [exact Hst|]. eapply pwp_pop; [done|].
  assert (fine s0 G d ro (Frame.set_stack f st)) as F1 by (apply fine_stack; [done|done|lengths]).
  apply pwp_bind. eapply pwp_mono; [apply (popN_run _ _ _ _ _ (Frame.set_stack f st) F1); lengths|]. intros l g (st' & -> & F2). apply pwp_gets_bind.
  destruct (GetCopy_run _ _ _ (fi_memory _ _ _ _ _ F) R) as (data & Hd & _). eapply pwp_lift_bind; [exact Hd|]. unfold contract. apply pwp_gets_bind.
  eapply pwp_write; [exact F2|by apply (act_log s0 _ _ _ Hst' (fi_state _ _ _ _ _ F2))|]. intros [] s F3. apply went_next; [done|done|cbn; lia].
Qed.

(** *** Jumps *)

(** The instruction [op] is at the position. *)
Definition isDest (op : Z) (code : bytes) (dest : Z) : bool :=
  match code !! Z.to_nat dest with Some b => (dest <? zlen code) && (byte_Z b =? op) && isInstruction code dest | None => false end.

(** The frame is the same up to the analyses of code. *)
Definition analysed f g : Prop :=
  Frame.stack g = Frame.stack f /\ Frame.rstack g = Frame.rstack f /\ Frame.pc g = Frame.pc f /\ Frame.memory g = Frame.memory f /\ gas g = gas f /\
  Contract.Code (Frame.contract g) = Contract.Code (Frame.contract f).

Lemma fine_contract s0 G d ro f c : fine s0 G d ro f -> contract_ok c -> Contract.Gas c = gas f -> fine s0 G d ro (Frame.set_contract f c).
Proof. intros [H1 H2 H3 H4 H5 H6 H7 H8 H9] Hc Hg. split; try done. cbn. by rewrite Hg. Qed.

Lemma setAnalysis_run s0 G d ro f bits dest : fine s0 G d ro f -> analyses (Contract.Code (Frame.contract f)) bits -> 0 <= dest < zlen (Contract.Code (Frame.contract f)) ->
  pwp P (setAnalysis bits;; lift (bitvec.codeSegment bits dest))
    (fun r g => fine s0 G d ro g /\ analysed f g /\ r = isInstruction (Contract.Code (Frame.contract f)) dest) f.
Proof.
  intros F Hb Hd. unfold setAnalysis. apply pwp_modify_bind. eapply pwp_lift; [by apply Hb|]. split; [|done]. apply fine_contract; [done| |done].
  destruct (fi_contract _ _ _ _ _ F) as [C1 C2 C3 C4 C5 C6]. split; try done. cbn. by intros ? [= <-].
Qed.

Lemma isCode_run s0 G d ro f dest : fine s0 G d ro f -> 0 <= dest < zlen (Contract.Code (Frame.contract f)) ->
  pwp P (isCode dest) (fun r g => fine s0 G d ro g /\ analysed f g /\ r = isInstruction (Contract.Code (Frame.contract f)) dest) f.
Proof.
  intros F Hd. unfold isCode. apply pwp_gets_bind. pose proof (fi_contract _ _ _ _ _ F) as [_ _ _ _ Ch Ca].
  assert (Contract.Code (Frame.contract f) <> []) as Hne by (intros E; rewrite E in Hd; unfold zlen in Hd; cbn in Hd; lia).
  destruct (codeBitmap_analyses (Contract.Code (Frame.contract f))) as (bits & Eb & Hb).
  destruct (Contract.analysis (Frame.contract f)) as [bits'|] eqn:Ea; [eapply pwp_lift; [by apply Ca|done]|]. case_bool_decide as Hh.
  - eapply pwp_lift_bind; [exact Eb|]. by apply setAnalysis_run.
  - apply pwp_gets_bind. specialize (Ch Hne Hh). pose proof (fi_evm _ _ _ _ _ F) as [E1 E2 E3 E4 E5].
    destruct (EVM.jumpdests (Frame.evm f) !! Contract.CodeHash (Frame.contract f)) as [bits'|] eqn:Ed.
    + apply pwp_bind, pwp_ret. apply setAnalysis_run; [done| |done]. by eapply E5.
    + apply pwp_bind. eapply pwp_lift_bind; [exact Eb|]. apply pwp_bind, pwp_onEVM, pwp_modify, pwp_ret. set (e' := EVM.set_jumpdests _ _).
      assert (fine s0 G d ro (Frame.set_evm f e')) as F1.
      { apply fine_evm; [done|apply F|]. split; try done. unfold e'. cbn. intros h b code. rewrite lookup_insert_Some. intros [[<- <-]|[_ Hm]] Hk; [|by eapply E5].
        rewrite Ch in Hk. apply addrHash_inj in Hk. by rewrite <- Hk. }
      exact (setAnalysis_run s0 G d ro (Frame.set_evm f e') bits dest F1 Hb Hd).
Qed.

Lemma validDest_run s0 G d ro f op dest : fine s0 G d ro f -> 0 <= dest ->
  pwp P (validDest op dest) (fun r g => fine s0 G d ro g /\ analysed f g /\ r = isDest op (Contract.Code (Frame.contract f)) dest) f.
Proof.
  intros F Hd. unfold validDest, contract. apply pwp_gets_bind. set (code := Contract.Code (Frame.contract f)). unfold isDest.
  destruct (Z.leb_spec (zlen code) dest) as [Hge|Hlt].
  - apply pwp_ret. split; [done|]. split; [done|]. rewrite lookup_ge_None_2; [done|unfold zlen in *; lia].
  - destruct (slice_get_in code dest) as (b & Hb & Hb'); [lia|]. eapply pwp_lift_bind; [exact Hb|]. rewrite Hb', (proj2 (Z.ltb_lt _ _)) by done. cbn [andb].
    destruct (byte_Z b =? op); cbn [negb andb]; [|by apply pwp_ret]. by apply isCode_run.
Qed.

Lemma isDest_lt op code dest : isDest op code dest = true -> dest < zlen code.
Proof. unfold isDest. destruct (code !! Z.to_nat dest); [|done]. destruct (Z.ltb_spec dest (zlen code)); [done|by intros]. Qed.

(** Where a jump leads, and when it fails. *)
Definition jumped f pos (r : slice * option vmError) g : Prop :=
  r.2 = (if isDest 0x5b (Contract.Code (Frame.contract f)) pos then None else Some ErrInvalidJump) /\ (r.2 = None -> Frame.pc g = pos).

Lemma jumpTo_run s0 G d ro f g pos : fine s0 G d ro g -> gas g = gas f -> Frame.pc g < 2 ^ 62 -> uint256.word pos -> pwp P (jumpTo pos)
  (fun r h => went s0 G d ro f r h /\ jumped g pos r h) g.
Proof.
  intros F Hg Hp Hw. unfold jumpTo, validJumpdest. pose proof (co_code _ (fi_contract _ _ _ _ _ F)) as Hcode. unfold fits in Hcode.
  assert (forall h, fine s0 G d ro h -> analysed g h -> isDest 0x5b (Contract.Code (Frame.contract g)) pos = false ->
    pwp P (fail ErrInvalidJump) (fun r h => went s0 G d ro f r h /\ jumped g pos r h) h) as Hf.
  { intros h Fh (_ & _ & Hpc & _ & Hgas & _) Hd. apply pwp_ret. unfold jumped. rewrite Hd. split; [|done]. split; [done|]. split; [congruence|]. split; [done|]. split; [lia|done]. }
  destruct (uint256.IsUint64 pos) eqn:Ep; cbn [negb].
  2: { apply pwp_bind, pwp_ret, Hf; [done|done|]. apply not_true_iff_false. intros Hd%isDest_lt. rewrite uint256.IsUint64_eq in Ep by done. unfold two64 in Ep. lia. }
  apply IsUint64_true in Ep; [|done]. rewrite Uint64_small by done.
  apply pwp_bind. eapply pwp_mono; [apply (validDest_run _ _ _ _ g _ pos F); unfold uint256.word in *; lia|]. intros r h (Fh & Ha & ->).
  destruct (isDest _ _ pos) eqn:Ed; [|by apply Hf]. pose proof (isDest_lt _ _ _ Ed). unfold setPc. apply pwp_modify_bind, pwp_ret. unfold uint256.word in *.
  destruct Ha as (_ & _ & _ & _ & Hgas & _). split; [|unfold jumped; by rewrite Ed]. split; [apply fine_pc; [done|lia]|]. split; [cbn; congruence|]. split; [done|]. split; [cbn; lia|done].
Qed.

Lemma opJump_ok : exec_ok opJump 1 0 None.
Proof.
  intros s0 G d ro f F Hl Hp Hc. destruct (Frame.stack f) as [|x st] eqn:Hst; [short|]. pose proof (fine_operands _ _ _ _ _ _ F Hst) as Hw. words Hw.
  pose proof (fine_room _ _ _ _ _ _ F Hst) as Hr. eapply pwp_pop; [exact Hst|]. eapply pwp_mono; [apply (jumpTo_run s0 G d ro f); [apply fine_stack; [done|done|lengths]|done..]|].
  by intros r h [H' _].
Qed.

Lemma opJumpi_ok : exec_ok opJumpi 2 0 None.
Proof.
  intros s0 G d ro f F Hl Hp Hc. destruct (Frame.stack f) as [|x [|y st]] eqn:Hst; [short..|]. pose proof (fine_operands _ _ _ _ _ _ F Hst) as Hw. words Hw.
  pose proof (fine_room _ _ _ _ _ _ F Hst) as Hr. pose proof (fi_pc _ _ _ _ _ F) as Hpc. eapply pwp_pop; [exact Hst|]. eapply pwp_pop; [done|].
  assert (fine s0 G d ro (Frame.set_stack f st)) as F1 by (apply fine_stack; [done|done|lengths]). destruct (negb _).
  - eapply pwp_mono; [by apply (jumpTo_run s0 G d ro f)|]. by intros r h [H' _].
  - apply pwp_gets_bind. unfold setPc. apply pwp_modify_bind. cbn [Frame.pc Frame.set_stack]. rewrite u64_id by (unfold in_u64, two64; lia).
    apply went_next; [apply (fine_pc _ _ _ _ (Frame.set_stack f st)); [done|lia]|done|cbn; lia].
Qed.

Lemma opBeginSub_ok : exec_ok opBeginSub 0 0 None.
Proof. intros s0 G d ro f F Hl Hp Hc. apply went_fail; [done|done|lia|done]. Qed.

Lemma opReturnSub_ok : exec_ok opReturnSub 0 0 None.
Proof.
  intros s0 G d ro f F Hl Hp Hc. unfold opReturnSub. apply pwp_gets_bind. pose proof (fi_rstack _ _ _ _ _ F) as Hr. destruct (Frame.rstack f) as [|pc rs].
  - apply went_fail; [done|done|lia|done].
  - apply Forall_cons in Hr as [Hpc Hr]. apply pwp_modify_bind. unfold setPc. apply pwp_modify_bind.
    apply went_next; [apply fine_pc; [by apply fine_rstack|lia]|done|cbn; lia].
Qed.

Lemma opJumpSub_ok : exec_ok opJumpSub 1 0 None.
Proof.
  intros s0 G d ro f F Hl Hp Hc. destruct (Frame.stack f) as [|x st] eqn:Hst; [short|]. pose proof (fine_operands _ _ _ _ _ _ F Hst) as Hw. words Hw.
  pose proof (fine_room _ _ _ _ _ _ F Hst) as Hr. unfold opJumpSub. apply pwp_gets_bind. destruct (1023 <=? _); [apply went_fail; [done|done|lia|done]|].
  eapply pwp_pop; [exact Hst|]. assert (fine s0 G d ro (Frame.set_stack f st)) as F1 by (apply fine_stack; [done|done|lengths]).
  assert (forall g, fine s0 G d ro g -> analysed (Frame.set_stack f st) g -> pwp P (fail ErrInvalidJump) (went s0 G d ro f) g) as Hf.
  { intros g Fg (_ & _ & Hpc & _ & Hgas & _). apply went_fail; [done|exact Hgas|cbn in Hpc; lia|done]. }
  destruct (uint256.IsUint64 x) eqn:Ex; cbn [negb]; [|by apply Hf]. apply IsUint64_true in Ex; [|done]. rewrite !Uint64_small by done.
  unfold validJumpSubdest. destruct (i64 x <? 0); [by apply pwp_bind, pwp_ret, Hf|]. apply pwp_bind. unfold uint256.word in *.
  eapply pwp_mono; [apply (validDest_run _ _ _ _ _ _ x F1); lia|]. intros r g (Fg & Ha & ->). destruct (isDest _ _ x) eqn:Ed; [|by apply Hf].
  apply isDest_lt in Ed. pose proof (co_code _ (fi_contract _ _ _ _ _ F1)) as Hcode. unfold fits in Hcode.
  apply pwp_modify_bind. unfold setPc. apply pwp_modify_bind. rewrite u64_id by (unfold in_u64, two64; lia). destruct Ha as (_ & _ & _ & _ & Hgas & _).
  apply went_next; [|exact Hgas|cbn; lia]. apply fine_pc; [|lia]. apply fine_rstack; [done|]. constructor; [apply Z.mod_pos_bound; lia|apply Fg].
Qed.
End Frame.
