(* ===== verification/EvmStep.v ===== *)
(** * One round of the interpreter

    What the operations of the tables cost, and what the loop does with an
    operation: the cost is taken before the instruction runs, every operation that
    does not end the call costs something, and the invariant of a running call is
    kept. *)

From S2P Require Import Prelude GoStd Effects StateDB StateRevert StateSafety EvmData EvmOps EvmState EvmWords EvmJump EvmFrame.
Import state vm.

Section Step.
Context {L : StateLib} {HL : StateLaws L} {HT : TrieLaws L} {V : EvmLib} {HV : EvmLaws V} (ctx : Context.t).
Abbreviation rules := (Context.chainRules ctx).
Context {static : bool} {P : string -> Prop} {J : Z -> StateDB.t -> Prop} {K : bytes -> bytes -> bytes -> Z -> StateDB.t -> Prop}.
Context {HK : Keeps rules static P J K}.
(** No running call has more gas than this. *)
Context (N : Z).
Abbreviation fine := (fineOf (static := static) J).
Abbreviation ended := (ended (static := static) (J := J)).
Abbreviation evm_ok := (evm_ok (static := static)).
Abbreviation gas f := (Contract.Gas (Frame.contract f)).
Abbreviation state f := (EVM.StateDB (Frame.evm f)).
Implicit Types (f g : Frame.t) (e : EVM.t) (c : Contract.t) (s : StateDB.t) (G d size cost w : Z) (ro : bool).

(** ** Costs *)

Lemma addGas_spec (x y z : Z) : in_u64 x -> in_u64 y -> addGas x y = inl z -> z = x + y /\ in_u64 z.
Proof.
  intros Hx Hy. unfold addGas. rewrite SafeAdd_eq by done. destruct (Z.ltb_spec (x + y) two64); cbn [negb]; [|done]. intros [= <-].
  unfold in_u64 in *. rewrite u64_id by (unfold in_u64; lia). lia.
Qed.

Lemma mulGas_spec (x y z : Z) : in_u64 x -> in_u64 y -> mulGas x y = inl z -> z = x * y /\ in_u64 z.
Proof.
  intros Hx Hy. unfold mulGas. rewrite SafeMul_eq by done. destruct (Z.ltb_spec (x * y) two64); cbn [negb]; [|done]. intros [= <-].
  unfold in_u64 in *. rewrite u64_id by (unfold in_u64; nia). nia.
Qed.

Lemma uint64Gas_spec (x z : Z) : uint256.word x -> uint64Gas x = inl z -> z = x /\ in_u64 z.
Proof.
  intros Hx. unfold uint64Gas. destruct (uint256.IsUint64 x) eqn:Ex; [|done]. apply IsUint64_true in Ex; [|done]. rewrite Uint64_small by done.
  intros [= <-]. unfold in_u64, uint256.word in *. lia.
Qed.

(** The memory, paid for up to [w] words and not yet grown. *)
Definition paidTo (m m' : Memory.t) w : Prop :=
  Memory.store m' = Memory.store m /\ exists w0, 0 <= w0 <= maxWords /\ 0 <= w <= maxWords /\ Memory.Len m = 32 * w0 /\ Memory.lastGasCost m' = fee (w0 `max` w).

Lemma paidTo_zero m : mem_ok m -> paidTo m m 0.
Proof. intros (w & W1 & W2 & W3). split; [done|]. exists w. rewrite Z.max_l by lia. split_and!; lia || done. Qed.

Lemma paidTo_grown m m' w : paidTo m m' w -> mem_ok (Memory.Resize m' (32 * w)) /\ 32 * w <= Memory.Len (Memory.Resize m' (32 * w)).
Proof.
  intros (Hs & w0 & H0 & Hw & Hl & Hc). destruct (Resize_run m' w0 w H0 Hw) as [H1 H2]; [unfold Memory.Len in *; by rewrite Hs|done|]. split; [done|lia].
Qed.

(** The memory [m] when the fee of [w] words has been paid. *)
Definition paidFor m w : Memory.t := Memory.mk (Memory.store m) (fee w).

(** The cost of memory: the difference of the fees, up to the limit. *)
Lemma memoryGasCost_fee f w0 w : 0 <= w0 <= maxWords -> Memory.Len (Frame.memory f) = 32 * w0 -> Memory.lastGasCost (Frame.memory f) = fee w0 -> 0 <= w <= 2 ^ 59 ->
  memoryGasCost (32 * w) f = Ret (if maxWords <? w then (inr ErrGasUintOverflow, f) else (inl (fee (w0 `max` w) - fee w0), Frame.set_memory f (paidFor (Frame.memory f) (w0 `max` w)))).
Proof.
  intros W1 W2 W3 Hw. unfold memoryGasCost.
  assert (f = Frame.set_memory f (paidFor (Frame.memory f) w0)) as Hsame by (unfold paidFor; rewrite <- W3; by destruct f as [? [] ? ? ? ? ?]).
  destruct (Z.eqb_spec (32 * w) 0) as [Hz|Hz].
  { rewrite (proj2 (Z.ltb_ge maxWords w)), Z.max_l, <- Hsame, Z.sub_diag by lia. done. }
  destruct (Z.ltb_spec 0x1FFFFFFFE0 (32 * w)); [by rewrite (proj2 (Z.ltb_lt maxWords w)) by lia|]. rewrite (proj2 (Z.ltb_ge maxWords w)) by lia.
  cbv zeta. rewrite toWordSize_exact by lia. rewrite (u64_id (w * 32)) by (unfold in_u64, two64; lia). unfold mbind, ST_bind, gets, modify. cbn [obind]. rewrite W2.
  pose proof (fee_bounds w ltac:(lia)) as Hf. pose proof (fee_bounds w0 W1) as Hf0. destruct (Z.ltb_spec (32 * w0) (w * 32)); cbn [obind].
  - assert (u64 (u64 (w * 3) + u64 (w * w) `div` 512) = fee w) as ->.
    { rewrite (u64_id (w * 3)), (u64_id (w * w)) by (unfold in_u64, two64; nia). rewrite u64_id; unfold fee in *; [|unfold in_u64, two64]; lia. }
    pose proof (fee_mono w0 w ltac:(lia)). by rewrite W3, u64_id, Z.max_r by (unfold in_u64, two64; lia).
  - by rewrite Z.max_l, <- Hsame, Z.sub_diag by lia.
Qed.

Lemma memoryGasCost_run f w : mem_ok (Frame.memory f) -> 0 <= w <= 2 ^ 59 ->
  pwp P (memoryGasCost (32 * w)) (fun r g => match r with
    | inl cost => exists m, g = Frame.set_memory f m /\ paidTo (Frame.memory f) m w /\ 0 <= cost < 2 ^ 56 /\
        forall w0, Memory.Len (Frame.memory f) = 32 * w0 -> cost = fee (w0 `max` w) - fee w0
    | inr _ => g = f end) f.
Proof.
  intros (w0 & W1 & W2 & W3) Hw. unfold pwp. rewrite (memoryGasCost_fee f w0 w W1 W2 W3 Hw). destruct (Z.ltb_spec maxWords w); [done|].
  pose proof (fee_bounds (w0 `max` w) ltac:(lia)). pose proof (fee_bounds w0 W1). pose proof (fee_mono w0 (w0 `max` w) ltac:(lia)).
  eexists. split; [reflexivity|]. split; [split; [done|]; exists w0; split_and!; lia || done|]. split; [lia|]. intros w1 E. by replace w1 with w0 by lia.
Qed.

(** What is known when the dynamic cost is known: at least [least], [X] of it and
    the machine, [R] of the state, and the memory is paid for up to [w] words. *)
Definition charged (R : Z -> StateDB.t -> Prop) (X : Z -> EVM.t -> Prop) (least : Z) s0 G d ro f w (r : Z + vmError) g : Prop :=
  exists e m, g = Frame.set_memory (Frame.set_evm f e) m /\ evm_ok d ro e /\ follows_ok s0 (EVM.StateDB e) /\
    match r with
    | inl cost => in_u64 cost /\ least <= cost /\ R (G + gas f - cost) (EVM.StateDB e) /\ paidTo (Frame.memory f) m w /\ X cost e
    | inr _ => True
    end.

Definition anyCost (cost : Z) e : Prop := True.

Lemma pwp_paid (r : Z + vmError) k Q f : (forall z, r = inl z -> pwp P (k z) Q f) -> (forall why, r = inr why -> Q (inr why) f) -> pwp P (paid r k) Q f.
Proof. intros H1 H2. destruct r as [z|why]; cbn; [by apply H1|]. by apply pwp_ret, H2. Qed.

Lemma fine_less s0 G d ro f cost : fine s0 G d ro f -> 0 <= cost -> J (G + gas f - cost) (state f).
Proof. intros F Hc. eapply J_less; [|apply F]. lia. Qed.

Lemma charged_fail s0 G d ro f m w R X least why : fine s0 G d ro f -> charged R X least s0 G d ro f w (inr why) (Frame.set_memory f m).
Proof. intros F. exists (Frame.evm f), m. split; [by destruct f|]. split_and!; [apply F|apply F|done]. Qed.

Lemma charged_stop s0 G d ro f w R X least why : fine s0 G d ro f -> charged R X least s0 G d ro f w (inr why) f.
Proof. intros F. exists (Frame.evm f), (Frame.memory f). split; [by destruct f|]. split_and!; [apply F|apply F|done]. Qed.

Lemma charged_plain s0 G d ro f m w least cost : fine s0 G d ro f -> paidTo (Frame.memory f) m w -> in_u64 cost -> least <= cost -> 0 <= cost ->
  charged J anyCost least s0 G d ro f w (inl cost) (Frame.set_memory f m).
Proof.
  intros F Hm Hc Hl Hp. exists (Frame.evm f), m. split; [by destruct f|]. split_and!; [apply F|apply F|done|done|by eapply fine_less|done|done].
Qed.

Lemma same_memory f : f = Frame.set_memory f (Frame.memory f).
Proof. by destruct f. Qed.

Lemma charge_memory s0 G d ro f w : fine s0 G d ro f -> 0 <= w <= 2 ^ 59 -> pwp P (memoryGasCost (32 * w)) (charged J anyCost 0 s0 G d ro f w) f.
Proof.
  intros F Hw. eapply pwp_mono; [apply (memoryGasCost_run f w); [apply F|done]|]. intros [cost|why] g.
  - intros (m & -> & Hm & Hc & _). apply charged_plain; [done|done|unfold in_u64, two64; lia|lia|lia].
  - intros ->. by apply charged_stop.
Qed.

Lemma back_word s0 G d ro f n x : fine s0 G d ro f -> Stack.Back (Frame.stack f) n = Ret x -> uint256.word x.
Proof.
  intros F Hx. apply slice_get_Ret in Hx as [_ Hx]. pose proof (fi_words _ _ _ _ _ F) as Hw. rewrite Forall_forall in Hw. apply Hw. by eapply list_elem_of_lookup_2.
Qed.

Lemma back_in s0 G d ro f n : fine s0 G d ro f -> 0 <= n < zlen (Frame.stack f) -> exists x, Stack.Back (Frame.stack f) n = Ret x /\ uint256.word x.
Proof. intros F Hn. destruct (slice_get_in _ _ Hn) as (x & Hx & _). exists x. split; [done|by eapply back_word]. Qed.

Lemma charge_words s0 G d ro f w pos perWord : fine s0 G d ro f -> 0 <= w <= 2 ^ 59 -> 0 <= pos < zlen (Frame.stack f) -> 0 <= perWord < 2 ^ 32 ->
  pwp P (perWordGas pos perWord (32 * w)) (charged J anyCost 0 s0 G d ro f w) f.
Proof.
  intros F Hw Hpos Hper. destruct (back_in _ _ _ _ _ _ F Hpos) as (x & Hx & Wx). apply pwp_bind.
  eapply pwp_mono; [apply (memoryGasCost_run f w); [apply F|done]|]. intros [cost|why] g.
  - intros (m & -> & Hm & Hc & _). apply pwp_paid; [|done]. intros z [= <-]. eapply pwp_Back; [exact Hx|].
    assert (forall why, charged J anyCost 0 s0 G d ro f w (inr why) (Frame.set_memory f m)) as Hf by (intros; by apply charged_fail).
    apply pwp_paid; [|intros why _; apply Hf]. intros len Hlen. apply uint64Gas_spec in Hlen as [-> Hlen]; [|done].
    destruct (toWordSize_spec x Hlen) as [Ht _]. apply pwp_paid; [|intros why _; apply Hf]. intros words Hwords.
    apply mulGas_spec in Hwords as [-> Hwords]; [|unfold in_u64, two64; lia..]. apply pwp_ret. destruct (addGas _ _) as [total|why] eqn:Ea; [|apply Hf].
    apply addGas_spec in Ea as [-> Ea]; [|unfold in_u64, two64 in *; lia|done]. unfold in_u64 in Hwords. apply charged_plain; [done|done|done|lia|lia].
  - intros ->. apply pwp_ret. by apply charged_stop.
Qed.

Lemma charge_log s0 G d ro f w n : fine s0 G d ro f -> 0 <= w <= 2 ^ 59 -> 2 <= zlen (Frame.stack f) -> 0 <= n <= 4 ->
  pwp P (makeGasLog n (32 * w)) (charged J anyCost params.LogGas s0 G d ro f w) f.
Proof.
  intros F Hw Hl Hn. destruct (back_in _ _ _ _ _ 1 F) as (x & Hx & Wx); [lia|]. eapply pwp_Back; [exact Hx|].
  apply pwp_paid; [|intros why _; by apply charged_stop]. intros len Hlen. apply uint64Gas_spec in Hlen as [-> Hlen]; [|done]. apply pwp_bind.
  eapply pwp_mono; [apply (memoryGasCost_run f w); [apply F|done]|]. intros [cost|why] g.
  - intros (m & -> & Hm & Hc & _). assert (forall why, charged J anyCost params.LogGas s0 G d ro f w (inr why) (Frame.set_memory f m)) as Hf by (intros; by apply charged_fail).
    apply pwp_paid; [|done]. intros z [= <-]. do 3 (apply pwp_paid; [|intros why _; apply Hf]; intros ? ?).
    repeat match goal with H : addGas _ _ = inl _ |- _ => apply addGas_spec in H as [-> ?]; [|unfold in_u64, two64 in *; lia..]
      | H : mulGas _ _ = inl _ |- _ => apply mulGas_spec in H as [-> ?]; [|unfold in_u64, two64 in *; lia..] end.
    apply pwp_ret. destruct (addGas _ _) as [total|why] eqn:Ea; [|apply Hf].
    apply addGas_spec in Ea as [-> Ea]; [|done|done]. unfold in_u64 in *. apply charged_plain; [done|done|done|lia|lia].
  - intros ->. apply pwp_ret. by apply charged_stop.
Qed.

Lemma charge_exp s0 G d ro f per : fine s0 G d ro f -> 2 <= zlen (Frame.stack f) -> 0 <= per <= 50 ->
  pwp P (gasExp per 0) (charged J anyCost params.ExpGas s0 G d ro f 0) f.
Proof.
  intros F Hl Hper. destruct (back_in _ _ _ _ _ 1 F) as (x & Hx & Wx); [lia|]. eapply pwp_Back; [exact Hx|]. apply pwp_ret. rewrite (same_memory f) at 2.
  destruct (addGas _ _) as [total|why] eqn:Ea; [|by apply charged_fail]. apply addGas_spec in Ea as [-> Ea]; [|apply u64_range|unfold in_u64, two64; lia].
  pose proof (u64_range ((uint256.BitLen x + 7) `div` 8 * per)) as Hr. unfold in_u64 in Hr. apply charged_plain; [done|apply paidTo_zero, F|done|lia|lia].
Qed.

(** ** An operation *)

Definition stepped s0 G d ro f (r : option (slice * option vmError)) g : Prop :=
  match r with
  | None => fine s0 G d ro g /\ gas g < gas f
  | Some (res, err) => ended s0 G d ro g res err /\ gas g <= gas f
  end.

(** After the instruction of [o]: less gas is left than at first, unless the call is over. *)
Definition executed (o : operation) s0 G d ro f (r : slice * option vmError) g : Prop :=
  fine s0 G d ro g /\ gas g <= gas f /\ (halts o = false -> reverts o = false -> gas g < gas f) /\ slice_ok (Frame.memory g) r.1 /\
  Frame.pc g < 2 ^ 63 - 1 /\ r.2 <> Some ErrCodeStoreOutOfGas.

Lemma halt_run s0 G d ro f g why : fine s0 G d ro g -> gas g <= gas f -> why <> ErrCodeStoreOutOfGas -> pwp P (halt why) (stepped s0 G d ro f) g.
Proof. intros F Hg Hw. apply pwp_ret. split; [|done]. apply fine_ended; [done|done|]. by intros [= ->]. Qed.

Lemma pwp_UseGas {B} (k : bool -> ST Frame.t B) Q f cost :
  (gas f < cost -> pwp P (k false) Q f) -> (cost <= gas f -> pwp P (k true) Q (Frame.set_contract f (Contract.set_Gas (Frame.contract f) (gas f - cost)))) ->
  pwp P (UseGas cost ≫= k) Q f.
Proof.
  intros H1 H2. unfold UseGas, contract, Contract.UseGas, pwp, mbind, ST_bind, gets, modify. cbn. destruct (Z.ltb_spec (gas f) cost); cbn; [|by apply H2].
  specialize (H1 ltac:(done)). by destruct f.
Qed.

Lemma pwp_UseGas_end (Q : bool -> Frame.t -> Prop) f cost :
  (gas f < cost -> Q false f) -> (cost <= gas f -> Q true (Frame.set_contract f (Contract.set_Gas (Frame.contract f) (gas f - cost)))) -> pwp P (UseGas cost) Q f.
Proof.
  intros H1 H2. unfold UseGas, contract, Contract.UseGas, pwp, mbind, ST_bind, gets, modify. cbn. destruct (Z.ltb_spec (gas f) cost); cbn; [|by apply H2].
  specialize (H1 ltac:(done)). by destruct f.
Qed.

Lemma Resize_zero m : Memory.Resize m (32 * 0) = m.
Proof. pose proof (zlen_nonneg (Memory.store m)). unfold Memory.Resize, Memory.Len. by rewrite (proj2 (Z.ltb_ge _ _)) by lia. Qed.

Lemma executeOp_run (o : operation) s0 G d ro f g : pwp P (execute o) (executed o s0 G d ro f) g -> pwp P (executeOp o) (stepped s0 G d ro f) g.
Proof.
  intros H. apply pwp_bind. eapply pwp_mono; [exact H|]. intros [res err] h (F & Hle & Hlt & Hs & Hpc & He). cbn [fst snd] in *.
  assert (forall h', fine s0 G d ro h' -> gas h' = gas h -> Frame.memory h' = Frame.memory h -> Frame.pc h' = Frame.pc h -> pwp P (match err with
    | Some e => mret (Some (Own [], Some e)) | None => if reverts o then mret (Some (res, Some ErrExecutionReverted)) else if halts o then mret (Some (res, None))
      else when (negb (jumps o)) (modify (fun f => Frame.set_pc f (u64 (Frame.pc f + 1))));; mret None end) (stepped s0 G d ro f) h') as Hend.
  { intros h' F' Hg Hm Hp. pose proof (fi_pc _ _ _ _ _ F') as Hp0. destruct err as [why|].
    - apply pwp_ret. split; [by apply fine_ended|lia].
    - destruct (reverts o) eqn:Er; [apply pwp_ret; split; [apply fine_ended; [done|by rewrite Hm|done]|lia]|].
      destruct (halts o) eqn:Eh; [apply pwp_ret; split; [apply fine_ended; [done|by rewrite Hm|done]|lia]|].
      apply pwp_bind, pwp_when; intros _; [apply pwp_modify|]; apply pwp_ret; (split; [|cbn; rewrite Hg; auto]); [|done].
      rewrite u64_id by (unfold in_u64, two64; lia). apply fine_pc; [done|lia]. }
  apply pwp_bind, pwp_when; intros _; [|by apply Hend]. unfold read. apply pwp_gets_bind, pwp_onEVM, pwp_modify. apply Hend; try done.
  destruct (fi_evm _ _ _ _ _ F) as [E1 E2 E3 E4 E5]. apply fine_evm; [done|apply F|]. split; try done. apply read_fits; [apply F|done].
Qed.

Lemma fine_gas s0 G d ro f z : fine s0 G d ro f -> 0 <= z <= gas f -> fine s0 G d ro (Frame.set_contract f (Contract.set_Gas (Frame.contract f) z)).
Proof.
  intros [H1 H2 H3 H4 H5 H6 [C1 C2 C3 C4 C5 C6] H8 H9] Hz. split; try done.
  - eapply session_less; [|exact H1]. cbn. lia.
  - split; try done. cbn. unfold in_u64 in *. lia.
Qed.

Lemma perform_run (o : operation) R X least s0 G d ro f :
  fine s0 G d ro f -> 0 <= constantGas o ->
  (forall ms, memorySize o = Some ms -> exists size b, ms (Frame.stack f) = Ret (size, b) /\ in_u64 size) ->
  (forall f1 w, fine s0 G d ro f1 -> f1 = Frame.set_contract f (Contract.set_Gas (Frame.contract f) (gas f - constantGas o)) -> 0 <= w <= 2 ^ 59 -> (memorySize o = None -> w = 0) ->
    match dynamicGas o with
    | Some dg => pwp P (dg (32 * w)) (charged R X least s0 G d ro f1 w) f1
    | None => memorySize o = None /\ least = 0 /\ R (G + gas f1) (state f1) /\ X 0 (Frame.evm f1)
    end) ->
  (forall g cost, fineOf (static := static) R s0 G d ro g -> Frame.stack g = Frame.stack f -> Frame.pc g = Frame.pc f -> gas g = gas f - constantGas o - cost -> least <= cost -> 0 <= cost ->
    X cost (Frame.evm g) -> Frame.contract g = Contract.set_Gas (Frame.contract f) (gas g) -> covered (memorySize o) g -> pwp P (execute o) (executed o s0 G d ro f) g) ->
  pwp P (perform o) (stepped s0 G d ro f) f.
Proof.
  intros F Hc Hms Hdyn Hex. pose proof (co_gas _ (fi_contract _ _ _ _ _ F)) as Hg. unfold in_u64 in Hg. unfold perform. apply pwp_UseGas; intros Hcost; cbn [negb].
  { apply halt_run; [done|done|done]. }
  set (f1 := Frame.set_contract f _). assert (fine s0 G d ro f1) as F1 by (apply fine_gas; [done|lia]). specialize (Hdyn f1).
  assert (pwp P (neededMemory o) (fun r g => g = f1 /\ match r with inr why => why <> ErrCodeStoreOutOfGas | inl size => exists w, size = 32 * w /\ 0 <= w <= 2 ^ 59 /\
    (memorySize o = None -> w = 0) /\ forall ms, memorySize o = Some ms -> exists z, ms (Frame.stack f) = Ret (z, false) /\ z <= size end) f1) as Hn.
  { unfold neededMemory. destruct (memorySize o) as [ms|]; [|apply pwp_ret; split; [done|]; by exists 0]. apply pwp_gets_bind.
    destruct (Hms ms eq_refl) as (z & b & Ez & Hz). eapply pwp_lift_bind; [exact Ez|]. destruct b; [by apply pwp_ret|]. apply pwp_ret. split; [done|].
    destruct (toWordSize_spec z Hz) as [H1 H2]. destruct (mulGas _ _) as [size|] eqn:Em; [|unfold mulGas in Em; destruct (SafeMul _ _) as [? []]; by inversion Em].
    apply mulGas_spec in Em as [-> _]; [|unfold in_u64, two64; lia..]. exists (toWordSize z). split; [lia|]. split; [done|]. split; [done|].
    intros ms' [= <-]. exists z. split; [done|lia]. }
  apply pwp_bind. eapply pwp_mono; [exact Hn|]. intros [size|why] g [-> Hr]; [|apply halt_run; [done|cbn; lia|done]].
  destruct Hr as (w & -> & Hw & Hwn & Hcov). specialize (Hdyn w F1 eq_refl Hw Hwn). apply pwp_bind. unfold payDynamic.
  assert (forall g cost m, g = Frame.set_memory g m -> fineOf (static := static) R s0 G d ro (Frame.set_memory g (Memory.Resize m (32 * w))) -> Frame.stack g = Frame.stack f -> Frame.pc g = Frame.pc f ->
    gas g = gas f - constantGas o - cost -> least <= cost -> 0 <= cost -> X cost (Frame.evm g) -> Frame.contract g = Contract.set_Gas (Frame.contract f) (gas g) ->
    32 * w <= Memory.Len (Memory.Resize m (32 * w)) -> pwp P (when (0 <? 32 * w) (modify (fun f => Frame.set_memory f (Memory.Resize (Frame.memory f) (32 * w))));; executeOp o) (stepped s0 G d ro f) g) as Hend.
  { intros g cost m Em Fg H1 H2 H3 H4 H5 H6 H7 H8. assert (Frame.memory g = m) as <- by (by rewrite Em).
    assert (pwp P (executeOp o) (stepped s0 G d ro f) (Frame.set_memory g (Memory.Resize (Frame.memory g) (32 * w)))) as Hx.
    { apply executeOp_run. eapply (Hex _ cost); try done. unfold covered. destruct (memorySize o) as [ms|]; [|done]. destruct (Hcov ms eq_refl) as (z & Ez & Hz).
      exists z. cbn [Frame.stack Frame.set_memory Frame.memory]. rewrite H1. split; [done|lia]. }
    apply pwp_bind, pwp_when; intros Hz; [by apply pwp_modify|]. assert (w = 0) as -> by lia. rewrite Resize_zero in Hx. by destruct g. }
  destruct (dynamicGas o) as [dg|].
  - apply pwp_bind. eapply pwp_mono; [exact Hdyn|]. intros r g (e & m & -> & He & Hfo & Hr).
    assert (pwp P (halt ErrOutOfGas) (stepped s0 G d ro f) (Frame.set_memory (Frame.set_evm f1 e) m)) as Hout.
    { apply pwp_ret. split; [|cbn; lia]. split; try done. apply F1. }
    destruct r as [cost|why]; [|by apply pwp_ret]. destruct Hr as (Hu & Hle & HR & Hm & HX). unfold in_u64 in Hu.
    apply pwp_UseGas_end; intros Hcst; [done|]. cbn [negb].
    destruct (paidTo_grown _ _ _ Hm) as [Hm1 Hm2]. apply (Hend _ cost m); try done; [|lia].
    destruct F1 as [A1 A2 A3 A4 A5 A6 [C1 C2 C3 C4 C5 C6] A8 A9]. split; try done.
    + split; [done|]. cbn in HR |- *. by replace (G + (gas f - constantGas o - cost)) with (G + (gas f - constantGas o) - cost) by lia.
    + split; try done. cbn in C1, Hcst |- *. unfold in_u64 in *. lia.
  - destruct Hdyn as (Hmn & -> & HR & HX). rewrite (Hwn Hmn) in *. apply pwp_ret. cbn [negb]. apply (Hend f1 0 (Frame.memory f1)); try done; [|cbn; lia|].
    + rewrite Resize_zero. destruct F1 as [A1 A2 A3 A4 A5 A6 A7 A8 A9]. split; try done. split; [apply A1|done].
    + rewrite Resize_zero. unfold Memory.Len. pose proof (zlen_nonneg (Memory.store (Frame.memory f1))). lia.
Qed.

(** The operation may be performed: it does not write when nothing may be written. *)
Definition op_ok (o : operation) : Prop :=
  forall s0 G d ro f, fine s0 G d ro f -> op_minStack o <= zlen (Frame.stack f) <= op_maxStack o -> Frame.pc f < 2 ^ 62 -> gas f <= N ->
    (static = true -> writes o = false) -> pwp P (perform o) (stepped s0 G d ro f) f.

(** The size of memory is always computed. *)
Definition sized (need : option (Stack.t -> outcome (Z * bool))) (pops : Z) : Prop :=
  forall ms st, need = Some ms -> Forall uint256.word st -> pops <= zlen st -> exists size b, ms st = Ret (size, b) /\ in_u64 size.

(** An operation of the table: what it costs at least besides the constant. *)
Definition dyn_ok (o : operation) (pops least : Z) : Prop :=
  forall s0 G d ro f w, fine s0 G d ro f -> pops <= zlen (Frame.stack f) -> 0 <= w <= 2 ^ 59 -> (memorySize o = None -> w = 0) ->
    match dynamicGas o with
    | Some dg => pwp P (dg (32 * w)) (charged J anyCost least s0 G d ro f w) f
    | None => memorySize o = None /\ least = 0
    end.

Lemma plain_ok (o : operation) pops push least : op_minStack o = pops -> op_maxStack o = maxStack pops push ->
  (writes o = true \/ exec_ok (static := static) (P := P) (J := J) (execute o) pops push (memorySize o)) ->
  (writes o = true -> static = false -> exec_ok (static := static) (P := P) (J := J) (execute o) pops push (memorySize o)) ->
  sized (memorySize o) pops -> dyn_ok o pops least -> 0 <= constantGas o -> 0 <= least -> (halts o || reverts o = true \/ 1 <= constantGas o + least) -> op_ok o.
Proof.
  intros Hmin Hmax Hex Hex' Hsz Hdyn Hc Hl Hpos s0 G d ro f F Hlen Hpc _ Hst. rewrite Hmin, Hmax in Hlen.
  assert (exec_ok (static := static) (P := P) (J := J) (execute o) pops push (memorySize o)) as He.
  { destruct Hex as [Hw|He]; [|done]. destruct static; [by rewrite Hst in Hw|auto]. }
  apply (perform_run o J anyCost least); [done|done|..].
  - intros ms Hms. apply (Hsz ms); [done|apply F|lia].
  - intros f1 w F1 -> Hw Hn. pose proof (Hdyn s0 G d ro _ w F1 ltac:(cbn; lia) Hw Hn) as H. destruct (dynamicGas o); [done|]. destruct H as [H1 ->].
    split_and!; [done|done|apply F1|done].
  - intros g cost Fg Hs Hp Hg Hle Hcost _ _ Hcov. eapply pwp_mono; [apply (He s0 G d ro g Fg); [by rewrite Hs|by rewrite Hp|done]|].
    intros r h (Fh & Hgh & Hsl & Hph & Herr). unfold executed. rewrite Hgh, Hg. split_and!; try done; [lia|]. intros Hh Hr. rewrite Hh, Hr in Hpos. destruct Hpos; [done|lia].
Qed.

(** *** The shapes of the table *)

Lemma simple_ok m z pops push : exec_ok (static := static) (P := P) (J := J) m pops push None -> 1 <= z -> op_ok (simple m z pops push).
Proof. intros He Hz. apply (plain_ok _ pops push 0); [done|done|by right|done|done|by intros s0 G d ro f w _ _ _ _|cbn; lia|done|right; cbn; lia]. Qed.

Lemma in_u64_0 : in_u64 0. Proof. done. Qed.

Lemma calcMemSize64_range off len : in_u64 len -> in_u64 (calcMemSize64WithUint off len).1.
Proof. intros Hl. unfold calcMemSize64WithUint. destruct (_ =? 0); [done|]. destruct (negb _); [done|]. apply u64_range. Qed.

Lemma memoryAt_sized i j pops : 0 <= i < pops -> 0 <= j < pops -> sized (Some (memoryAt i j)) pops.
Proof.
  intros Hi Hj ms st [= <-] Hw Hl. destruct (slice_get_in st i) as (x & Hx & _); [lia|]. destruct (slice_get_in st j) as (y & Hy & Hy'); [lia|].
  unfold memoryAt, Stack.Back. rewrite Hx, Hy. cbn [obind]. destruct (calcMemSize64 x y) as [size b] eqn:E. exists size, b. split; [done|].
  assert (uint256.word y) as Wy. { rewrite Forall_forall in Hw. apply Hw. by eapply list_elem_of_lookup_2. }
  unfold calcMemSize64 in E. destruct (negb _); [by injection E as <- _|]. pose proof (calcMemSize64_range x (uint256.Uint64 y) (Uint64_range y Wy)) as H. by rewrite E in H.
Qed.

Lemma memoryFixed_sized n pops : 0 <= n < 2 ^ 32 -> 1 <= pops -> sized (Some (memoryFixed n)) pops.
Proof.
  intros Hn Hp ms st [= <-] Hw Hl. destruct (slice_get_in st 0) as (x & Hx & _); [lia|]. unfold memoryFixed, Stack.Back. rewrite Hx. cbn [obind].
  destruct (calcMemSize64WithUint x n) as [size b] eqn:E. exists size, b. split; [done|]. pose proof (calcMemSize64_range x n ltac:(unfold in_u64, two64; lia)) as H. by rewrite E in H.
Qed.

Lemma memoryCall_sized i j pops : 0 <= i -> i + 1 < pops -> 0 <= j -> j + 1 < pops -> sized (Some (memoryCall i j)) pops.
Proof.
  intros Hi Hi' Hj Hj' ms st [= <-] Hw Hl. unfold memoryCall.
  destruct (memoryAt_sized i (i + 1) pops ltac:(lia) ltac:(lia) _ st eq_refl Hw Hl) as (x & b & -> & Hx). cbn [obind]. destruct b; [by exists 0, true|].
  destruct (memoryAt_sized j (j + 1) pops ltac:(lia) ltac:(lia) _ st eq_refl Hw Hl) as (y & b & -> & Hy). cbn [obind]. destruct b; [by exists 0, true|].
  eexists _, _. split; [reflexivity|]. by destruct (_ <? _).
Qed.
End Step.
