(* ===== verification/EvmCalls.v ===== *)
(** * Calls and creation

    [core/vm/evm.go] around a run of the interpreter: what a call leaves of the
    state and of the gas, whatever the run does.  An error undoes the call. *)

From S2P Require Import Prelude GoStd Effects StateDB StateRevert StateSafety EvmData EvmOps EvmState EvmWords EvmJump EvmFrame.
Import state vm.

Section Calls.
Context {L : StateLib} {HL : StateLaws L} {HT : TrieLaws L} {V : EvmLib} {HV : EvmLaws V} (ctx : Context.t).
Abbreviation rules := (Context.chainRules ctx).
Context {static : bool} {P : string -> Prop} {J : Z -> StateDB.t -> Prop} {K : bytes -> bytes -> bytes -> Z -> StateDB.t -> Prop}.
Context {HK : Keeps rules static P J K}.
Abbreviation session := (session (J := J)).
(** The machine outside of a run: a static run sets [readOnly] itself. *)
Abbreviation evm_ok := (evm_ok (static := false)).
Abbreviation db e := (EVM.StateDB e).
Implicit Types (e : EVM.t) (c : Contract.t) (s : StateDB.t) (G d gas : Z) (ro : bool) (addr input : bytes).

(** The result of a run of the interpreter, which had the contract [c]. *)
Definition ran s0 G d ro c (r : bytes * option vmError * Contract.t) e : Prop :=
  let '(ret, err, c') := r in
  follows_ok s0 (db e) /\ (err = None -> J (G + Contract.Gas c') (db e)) /\ evm_ok d ro e /\ 0 <= Contract.Gas c' <= Contract.Gas c /\ fits ret /\
  err <> Some ErrCodeStoreOutOfGas.

(** What a call relies on: runs with at most [N] gas come to an end. *)
Definition run_ok (N : Z) (run : Contract.t -> bytes -> bool -> ST EVM.t (bytes * option vmError * Contract.t)) : Prop :=
  forall s0 G d ro e c input readOnly, session s0 (G + Contract.Gas c) (db e) -> evm_ok d ro e -> contract_ok c -> fits input -> Contract.Gas c <= N ->
    (static = true -> readOnly = false -> ro = true) -> 0 <= G -> pwp P (run c input readOnly) (ran s0 G d ro c) e.

Context (N : Z) (run : Contract.t -> bytes -> bool -> ST EVM.t (bytes * option vmError * Contract.t)) (Hrun : run_ok N run).

(** The result of a call that was given [gas]: when it fails, nothing that can be
    read has changed. *)
Definition called_ok s0 G d ro e gas (r : output * Z * option vmError) e' : Prop :=
  let '(ret, rest, err) := r in
  session s0 (G + rest) (db e') /\ evm_ok d ro e' /\ 0 <= rest <= gas /\ (forall b, ret = Fresh b -> fits b) /\
  (err <> None -> eqv (stack (db e)) (db e) (db e')).

(** The call did not take place. *)
Lemma not_called s0 G d ro e e' gas err : session s0 (G + gas) (db e') -> evm_ok d ro e' -> 0 <= gas -> quiet (db e) (db e') ->
  called_ok s0 G d ro e gas (Fresh [], gas, err) e'.
Proof. intros S He Hg Hq. split_and!; [done|done|done|done|by intros b [= <-]|intros _; apply Hq]. Qed.

Lemma atDepth_run {A} (skip deep : A) (m : ST EVM.t A) Q e : Q skip e -> Q deep e -> (EVM.depth e <= params.CallCreateDepth -> pwp P m Q e) -> pwp P (atDepth ctx skip deep m) Q e.
Proof.
  intros H1 H2 H3. unfold atDepth. apply pwp_gets_bind. destruct (_ && _); [done|]. destruct (Z.ltb_spec params.CallCreateDepth (EVM.depth e)); [done|]. by apply H3.
Qed.

Lemma onDB_read {A B} (m : M A) v (k : A -> ST EVM.t B) Q s0 g d ro e : peeks m v -> session s0 g (db e) -> evm_ok d ro e ->
  (forall x e', session s0 g (db e') -> evm_ok d ro e' -> v (db e) = Some x -> quiet (db e) (db e') -> pwp P (k x) Q e') -> pwp P (onDB m ≫= k) Q e.
Proof.
  intros Hm S He Hk. apply pwp_bind, pwp_onDB. eapply pwp_mono; [exact (act_read m v s0 g _ Hm S)|]. intros x s (S' & Hv & Hq).
  apply Hk; [done|by apply evm_state|done|done].
Qed.

Lemma onDB_write {A B} (m : M A) (k : A -> ST EVM.t B) (R : StateDB.t -> Prop) Q d ro e : evm_ok d ro e -> pwp P m (fun _ s => R s) (db e) ->
  (forall x e', R (db e') -> evm_ok d ro e' -> pwp P (k x) Q e') -> pwp P (onDB m ≫= k) Q e.
Proof. intros He Hm Hk. apply pwp_bind, pwp_onDB. eapply pwp_mono; [exact Hm|]. intros x s HR. apply Hk; [done|by apply evm_state]. Qed.

Lemma onDB_snapshot {B} (k : Z -> ST EVM.t B) Q e : pwp P (k (StateDB.nextRevisionId (db e))) Q (EVM.set_StateDB e (snapped (db e))) -> pwp P (onDB Snapshot ≫= k) Q e.
Proof. intros H. apply pwp_bind, pwp_onDB. unfold pwp at 1. by rewrite Snapshot_run. Qed.

(** Whether the sender can pay. *)
Lemma canTransfer_run {B} (k : bool -> ST EVM.t B) Q s0 g d ro e a z : session s0 g (db e) -> evm_ok d ro e ->
  (forall r e', session s0 g (db e') -> evm_ok d ro e' -> quiet (db e) (db e') -> (r = true -> exists x, vBalance a (db e') = Some x /\ z <= x) -> pwp P (k r) Q e') ->
  pwp P (onDB (CanTransfer a z) ≫= k) Q e.
Proof.
  intros S He Hk. apply pwp_bind, pwp_onDB. unfold CanTransfer. apply pwp_bind.
  eapply pwp_mono; [exact (act_read _ _ s0 g _ (peek_Balance a) S)|]. intros x s (S' & Hv & Hq). apply pwp_ret. apply Hk; [done|by apply evm_state|done|].
  intros Hz%Z.leb_le. exists x. split; [|done]. cbn. destruct (views_respect a zeroHash _ _ _ (proj2 (proj2 Hq))) as (_ & _ & <- & _). done.
Qed.

(** *** The end of a call *)

Lemma settle_run s0 G d ro e s gas ret rest err : session s0 (G + gas) s -> quiet (db e) s -> forall e1, follows_ok (snapped s) (db e1) ->
  (err = None -> J (G + rest) (db e1)) -> evm_ok d ro e1 -> 0 <= rest <= gas -> (forall b, ret = Fresh b -> fits b) ->
  pwp P (settle (StateDB.nextRevisionId s) (ret, rest, err)) (called_ok s0 G d ro e gas) e1.
Proof.
  intros S Hq e1 Hf HJ He Hl Hret. unfold settle. destruct err as [why|].
  - eapply (onDB_write _ _ (fun u => session s0 (G + gas) u /\ eqv (stack s) s u)); [exact He|by apply act_revert|]. intros [] e' [S' Hev] He'. apply pwp_ret.
    rewrite (quiet_stack _ _ Hq) in Hev. assert (0 <= (if bool_decide (why = ErrExecutionReverted) then rest else 0) <= gas) as Hb by (case_bool_decide; lia).
    split; [eapply session_less; [|exact S']; lia|]. split_and!; [done|lia|lia|done|]. intros _. eapply eqv_trans; [apply Hq|done].
  - apply pwp_ret. split; [eapply (session_join s0 (G + gas) s); [done|split; [done|by apply HJ]]|]. split; [done|]. split; [done|]. split; [done|]. by intros [].
Qed.

Lemma precompile_run addr p input gas : precompile rules addr = Some p -> 0 <= gas ->
  exists out rest err, RunPrecompiledContract p input gas = (out, rest, err) /\ 0 <= rest <= gas /\ forall b, out = Fresh b -> fits b.
Proof.
  intros Hp Hg. assert (0 <= PrecompiledContract.RequiredGas p input /\ forall b err, PrecompiledContract.Run p input = (Fresh b, err) -> fits b) as [H1 H2].
  { unfold precompile in Hp. case_bool_decide.
    - injection Hp as <-. split; [apply u64_range|done].
    - split; [by eapply precompile_gas|]. intros b err. by eapply precompile_output. }
  unfold RunPrecompiledContract. destruct (Z.ltb_spec gas (PrecompiledContract.RequiredGas p input)).
  - eexists _, _, _. split; [done|]. split; [lia|]. by intros b [= <-].
  - destruct (PrecompiledContract.Run p input) as [out err] eqn:Er. eexists _, _, _. split; [done|]. split; [lia|]. intros b ->. by eapply H2.
Qed.

(** *** Contracts *)

(** A contract that has no code yet. *)
Record blank_contract c gas : Prop := {
  bc_gas : Contract.Gas c = gas;
  bc_value : is_Some (Contract.value c);
  bc_input : Contract.Input c = [];
  bc_analysis : Contract.analysis c = None
}.

Lemma NewContract_run {B} (k : Contract.t -> ST EVM.t B) Q d ro e caller object z gas : evm_ok d ro e ->
  (forall e', db e' = db e -> evm_ok d ro e' -> pwp P (k (Contract.mk (refAddress caller)
    (match caller with AccountRef _ => None | ContractCaller p => Some (Contract.CallerAddress p, Contract.value p) end) object None [] zeroHash None [] gas z)) Q e') ->
  pwp P (NewContract caller object z gas ≫= k) Q e.
Proof.
  intros [E1 E2 E3 E4 E5] Hk. apply pwp_bind. unfold NewContract. apply pwp_bind. destruct caller as [a|p].
  - apply pwp_modify, pwp_ret. apply Hk; [done|]. by split.
  - apply pwp_ret, pwp_ret. by apply Hk.
Qed.

Lemma code_contract c gas addr hash code : blank_contract c gas -> in_u64 gas -> fits code -> (code <> [] -> hash = Keccak256Hash code) ->
  contract_ok (Contract.SetCallCode c addr hash code).
Proof. intros [B1 B2 B3 B4] Hg Hf Hh. split; cbn; rewrite ?B1, ?B3, ?B4; try done. auto. Qed.

Lemma session_hash s0 g s addr (code : option bytes) hash : session s0 g s -> vCode addr s = Some code -> vCodeHash addr s = Some hash ->
  goBytes code <> [] -> hash = Keccak256Hash (goBytes code).
Proof.
  intros [[_ C] _] Hc Hh Hn. destruct code as [c|]; [|done]. destruct (C addr c Hc Hn) as [H _]. cbn. congruence.
Qed.

(** The result of running code under a call. *)
Definition code_ran s0 G d ro gas (r : output * Z * option vmError) e : Prop :=
  let '(ret, rest, err) := r in
  follows_ok s0 (db e) /\ (err = None -> J (G + rest) (db e)) /\ evm_ok d ro e /\ 0 <= rest <= gas /\ forall b, ret = Fresh b -> fits b.

Lemma run_code s0 G d ro e c gas addr input readOnly hash code : session s0 (G + gas) (db e) -> evm_ok d ro e -> blank_contract c gas -> in_u64 gas -> gas <= N -> fits input ->
  fits code -> (code <> [] -> hash = Keccak256Hash code) -> (static = true -> readOnly = false -> ro = true) -> 0 <= G ->
  pwp P (r ← run (Contract.SetCallCode c addr hash code) input readOnly; let '(ret, err, c') := (r : bytes * option vmError * Contract.t) in mret (Fresh ret, Contract.Gas c', err))
    (code_ran s0 G d ro gas) e.
Proof.
  intros S He Hb Hg Hn Hi Hf Hh Hro HG. pose proof (code_contract c gas addr hash code Hb Hg Hf Hh) as Hc. pose proof (bc_gas _ _ Hb) as Eg.
  apply pwp_bind. eapply pwp_mono; [apply (Hrun s0 G d ro e); cbn; rewrite ?Eg; done|]. intros [[ret err] c'] e' (R1 & R2 & R3 & R4 & R5 & R6). apply pwp_ret.
  cbn in R4. rewrite Eg in R4. split_and!; try done; try lia. by intros b [= <-].
Qed.

Lemma runCode_run s0 G d ro e c gas addr input readOnly : session s0 (G + gas) (db e) -> evm_ok d ro e -> blank_contract c gas -> in_u64 gas -> gas <= N -> fits input ->
  (static = true -> readOnly = false -> ro = true) -> 0 <= G -> pwp P (runCode run c addr input readOnly) (code_ran s0 G d ro gas) e.
Proof.
  intros S He Hb Hg Hn Hi Hro HG. unfold runCode. eapply onDB_read; [apply peek_CodeHash|done|done|]. intros hash e1 S1 He1 Hh Q1.
  eapply onDB_read; [apply peek_Code|done|done|]. intros code e2 S2 He2 Hc Q2.
  assert (vCodeHash addr (db e1) = Some hash) as Hh1.
  { destruct (views_respect addr zeroHash _ _ _ (proj2 (proj2 Q1))) as (_ & _ & _ & _ & <- & _). done. }
  apply run_code; try done; [eapply session_code; [exact S1|exact Hc]|]. eapply session_hash; [exact S1|exact Hc|exact Hh1].
Qed.

(** *** The calls *)

(** A caller: when it is a contract, it has a value. *)
Definition caller_ok (r : ContractRef) : Prop := match r with AccountRef _ => True | ContractCaller c => is_Some (Contract.value c) end.

Lemma code_settles s0 G d ro e s gas e1 (m : ST EVM.t (output * Z * option vmError)) : session s0 (G + gas) s -> quiet (db e) s ->
  pwp P m (code_ran (snapped s) G d ro gas) e1 -> pwp P (m ≫= settle (StateDB.nextRevisionId s)) (called_ok s0 G d ro e gas) e1.
Proof.
  intros S Hq Hm. apply pwp_bind. eapply pwp_mono; [exact Hm|]. intros [[ret rest] err] e2 (R1 & R2 & R3 & R4 & R5). by apply settle_run.
Qed.

Lemma precompile_settles s0 G d ro e s gas e1 addr p input : session s0 (G + gas) s -> quiet (db e) s -> session (snapped s) (G + gas) (db e1) -> evm_ok d ro e1 ->
  precompile rules addr = Some p -> 0 <= gas -> pwp P (mret (RunPrecompiledContract p input gas)) (code_ran (snapped s) G d ro gas) e1.
Proof.
  intros S Hq S1 He1 Hp Hg. destruct (precompile_run addr p input gas Hp Hg) as (out & rest & err & -> & Hl & Ho). apply pwp_ret.
  split_and!; try done; try lia; [apply S1|]. intros _. eapply J_less; [|apply S1]. lia.
Qed.

Lemma CallCode_run s0 G d ro e caller addr input gas z : session s0 (G + gas) (db e) -> evm_ok d ro e -> caller_ok caller -> in_u64 gas -> gas <= N -> fits input ->
  (static = true -> ro = true) -> 0 <= G -> pwp P (CallCode ctx run caller addr input gas z) (called_ok s0 G d ro e gas) e.
Proof.
  intros S He Hc Hg Hn Hi Hro HG. pose proof Hg as [Hg0 _]. pose proof (session_ok _ _ _ S) as Hw. unfold CallCode. apply atDepth_run; [by apply not_called, quiet_refl..|]. intros _.
  eapply canTransfer_run; [done|done|]. intros r e1 S1 He1 Q1 _. destruct r; cbn [negb]; [|by apply pwp_ret, not_called].
  apply onDB_snapshot. pose proof (session_start _ _ _ S1) as S2. apply (code_settles s0 G d ro e (db e1)); [done|done|].
  destruct (precompile _ _) as [p|] eqn:Ep; [by eapply precompile_settles; [|done|..|done|done]; try done; apply evm_state|].
  apply NewContract_run with (d := d) (ro := ro); [by apply evm_state|]. intros e2 E2 He2. apply runCode_run; try done; [by rewrite E2|auto].
Qed.

Lemma DelegateCall_run s0 G d ro e parent addr input gas : session s0 (G + gas) (db e) -> evm_ok d ro e -> is_Some (Contract.value parent) -> in_u64 gas -> gas <= N -> fits input ->
  (static = true -> ro = true) -> 0 <= G -> pwp P (DelegateCall ctx run (ContractCaller parent) addr input gas) (called_ok s0 G d ro e gas) e.
Proof.
  intros S He Hc Hg Hn Hi Hro HG. pose proof Hg as [Hg0 _]. pose proof (session_ok _ _ _ S) as Hw. unfold DelegateCall. apply atDepth_run; [by apply not_called, quiet_refl..|]. intros _.
  apply onDB_snapshot. pose proof (session_start _ _ _ S) as S2. apply (code_settles s0 G d ro e (db e)); [done|by apply quiet_refl|].
  destruct (precompile _ _) as [p|] eqn:Ep; [by eapply precompile_settles; [|apply quiet_refl|..|done|done]; try done; apply evm_state|].
  apply NewContract_run with (d := d) (ro := ro); [by apply evm_state|]. intros e2 E2 He2. eapply pwp_lift_bind; [reflexivity|]. apply runCode_run; try done; [by rewrite E2|auto].
Qed.

Lemma StaticCall_run s0 G d ro e caller addr input gas : session s0 (G + gas) (db e) -> evm_ok d ro e -> in_u64 gas -> gas <= N -> fits input -> 0 <= G ->
  pwp P (StaticCall ctx run caller addr input gas) (called_ok s0 G d ro e gas) e.
Proof.
  intros S He Hg Hn Hi HG. pose proof Hg as [Hg0 _]. pose proof (session_ok _ _ _ S) as Hw. unfold StaticCall. apply atDepth_run; [by apply not_called, quiet_refl..|]. intros _.
  apply onDB_snapshot. pose proof (session_start _ _ _ S) as S2.
  eapply onDB_write; [by apply evm_state|exact (act_touch _ _ _ addr S2)|]. intros [] e1 S3 He1. apply (code_settles s0 G d ro e (db e)); [done|by apply quiet_refl|].
  destruct (precompile _ _) as [p|] eqn:Ep; [by eapply precompile_settles; [|apply quiet_refl|..|done|done]; try done|].
  apply NewContract_run with (d := d) (ro := ro); [done|]. intros e2 E2 He2. apply runCode_run; try done. by rewrite E2.
Qed.

Lemma snapped_balance s a : vBalance a (snapped s) = vBalance a s.
Proof. by destruct (kept_views s (snapped s) a zeroHash) as (_ & _ & -> & _). Qed.

Lemma quiet_balance s t a : quiet s t -> vBalance a t = vBalance a s.
Proof. intros (_ & _ & He). by destruct (views_respect a zeroHash _ _ _ He) as (_ & _ & -> & _). Qed.

(** The account that is called exists afterwards; the balances are as before. *)
Lemma create_absent s0 g d ro e addr exist : session s0 g (db e) -> evm_ok d ro e -> vExist addr (db e) = Some exist ->
  pwp P (when (negb exist) (onDB (CreateAccount addr))) (fun _ e' => session s0 g (db e') /\ evm_ok d ro e' /\ balances (db e) (db e')) e.
Proof.
  intros S He Hex. apply pwp_when; intros Hx; [|by split_and!]. apply pwp_onDB. eapply pwp_mono; [apply (act_create _ _ _ addr S)|].
  - intros _. rewrite Hex. by destruct exist.
  - intros [] s [S' B]. split_and!; [done|by apply evm_state|done].
Qed.

Lemma enter_run s0 G d ro e e1 caller addr input gas z : session s0 (G + gas) (db e1) -> evm_ok d ro e1 -> quiet (db e) (db e1) -> in_u64 gas -> gas <= N -> fits input ->
  0 <= z -> (static = true -> z = 0 /\ ro = true) -> (z <> 0 -> exists x, vBalance (refAddress caller) (db e1) = Some x /\ z <= x) -> 0 <= G ->
  pwp P (enter ctx run caller addr input gas z) (called_ok s0 G d ro e gas) e1.
Proof.
  intros S1 He1 Q1 Hg Hn Hi Hz Hst Hcan HG. pose proof Hg as [Hg0 _]. apply onDB_snapshot. pose proof (session_start _ _ _ S1) as S2. cbv zeta.
  eapply onDB_read; [apply peek_Exist|exact S2|by apply evm_state|]. intros exist e2 S3 He2 Hex Q2.
  destruct (negb exist && _ && _ && _); [apply pwp_ret; split; [by eapply session_join|]; by split_and!; try done; intros b [= <-]|].
  assert (vExist addr (db e2) = Some exist) as Hex2 by (destruct (views_respect addr zeroHash _ _ _ (proj2 (proj2 Q2))) as (<- & _); done).
  apply pwp_bind. eapply pwp_mono; [exact (create_absent _ _ _ _ _ addr exist S3 He2 Hex2)|]. intros [] e3 (S4 & He3 & B).
  eapply onDB_write; [exact He3|apply (act_transfer _ _ _ (refAddress caller) addr z S4); [done| |naive_solver]|].
  { intros Hnz. destruct (Hcan Hnz) as (x & Hx & Hle). exists x. rewrite (B _), (quiet_balance _ _ _ Q2). cbn [EVM.StateDB EVM.set_StateDB]. by rewrite snapped_balance. }
  intros [] e4 S5 He4. apply (code_settles s0 G d ro e (db e1)); [done|done|].
  destruct (precompile _ _) as [p|] eqn:Ep; [by eapply precompile_settles; [|done|..|done|done]; try done|].
  eapply onDB_read; [apply peek_Code|exact S5|exact He4|]. intros code e5 S6 He5 Hcode Q5. case_bool_decide as Hempty.
  - apply pwp_ret. split_and!; try done; try lia; [apply S6|intros _; apply S6|by intros b [= <-]].
  - apply NewContract_run with (d := d) (ro := ro); [done|]. intros e6 E6 He6. eapply onDB_read; [apply peek_CodeHash|rewrite E6; exact S6|exact He6|].
    intros hash e7 S7 He7 Hh Q7. rewrite E6 in Hh. apply run_code; try done; [eapply session_code; [exact S5|exact Hcode]| |naive_solver].
    eapply session_hash; [exact S5|exact Hcode|]. destruct (views_respect addr zeroHash _ _ _ (proj2 (proj2 Q5))) as (_ & _ & _ & _ & -> & _). done.
Qed.

Lemma Call_run s0 G d ro e caller addr input gas z : session s0 (G + gas) (db e) -> evm_ok d ro e -> in_u64 gas -> gas <= N -> fits input -> 0 <= z -> (static = true -> z = 0 /\ ro = true) -> 0 <= G ->
  pwp P (Call ctx run caller addr input gas z) (called_ok s0 G d ro e gas) e.
Proof.
  intros S He Hg Hn Hi Hz Hst HG. pose proof Hg as [Hg0 _]. pose proof (session_ok _ _ _ S) as Hw. unfold Call. apply atDepth_run; [by apply not_called, quiet_refl..|]. intros _.
  destruct (Z.eqb_spec z 0) as [->|Hnz]; [apply pwp_bind, pwp_ret; cbn [negb]; by apply enter_run; try done; apply quiet_refl|].
  eapply canTransfer_run; [done|done|]. intros r e1 S1 He1 Q1 Hr. destruct r; cbn [negb]; [|by apply pwp_ret, not_called]. apply enter_run; try done. intros _. by apply Hr.
Qed.

(** *** Creation *)

(** The result of a creation: when it fails, at most the nonce of the creator has
    changed; before Homestead a contract that cannot pay for its code stays. *)
Definition created_ok s0 G d ro e caller gas (r : bytes * bytes * Z * option vmError) e' : Prop :=
  let '(ret, addr, rest, err) := r in
  session s0 (G + rest) (db e') /\ evm_ok d ro e' /\ 0 <= rest <= gas /\ fits ret /\
  (err <> None -> (err = Some ErrCodeStoreOutOfGas -> Rules.IsHomestead rules = true) -> nonceOnly (refAddress caller) (db e) (db e')).

Lemma deploy_run s0 G d ro e caller gas s address ret err c e1 : static = false -> session s0 (G + gas) s -> nonceOnly (refAddress caller) (db e) s ->
  follows_ok (snapped s) (db e1) -> (err = None -> J (G + Contract.Gas c) (db e1)) -> evm_ok d ro e1 -> 0 <= Contract.Gas c <= gas -> fits ret -> err <> Some ErrCodeStoreOutOfGas ->
  pwp P (deploy ctx (StateDB.nextRevisionId s) address ret err c) (created_ok s0 G d ro e caller gas) e1.
Proof.
  intros Hs S Hno Hf HJ He Hg Hret Herr. unfold deploy. set (exceeded := _ && _).
  assert (pwp P (if bool_decide (err = None) && negb exceeded then
      let (enough, c') := Contract.UseGas c (u64 (zlen ret * params.CreateDataGas)) in
      if enough then onDB (SetCode address (Some ret));; mret (None, c') else mret (Some ErrCodeStoreOutOfGas, c')
    else mret (err, c)) (fun r e2 => let '(err', c') := r in follows_ok (snapped s) (db e2) /\ evm_ok d ro e2 /\ 0 <= Contract.Gas c' <= gas /\
      (err' = None \/ err' = Some ErrCodeStoreOutOfGas -> exceeded = true \/ J (G + Contract.Gas c') (db e2))) e1) as Hstore.
  { case_bool_decide as En; cbn [andb]; [|apply pwp_ret; split_and!; try done; try lia; intros [?|?]; congruence].
    destruct exceeded eqn:Ex; cbn [negb]; [apply pwp_ret; split_and!; try done; try lia; by left|]. unfold Contract.UseGas.
    pose proof (u64_range (zlen ret * params.CreateDataGas)) as Hu. unfold in_u64 in Hu. specialize (HJ En).
    destruct (Z.ltb_spec (Contract.Gas c) (u64 (zlen ret * params.CreateDataGas))); cbv iota beta.
    - apply pwp_ret. split_and!; try done; try lia. intros _. by right.
    - eapply (onDB_write _ _ (fun u => session (snapped s) (G + Contract.Gas c) u)); [exact He|apply act_code; [done|done|by split]|]. intros [] e2 S2 He2. apply pwp_ret.
      split_and!; try done; [apply S2|cbn; lia|cbn; lia|]. intros _. right. eapply J_less; [|apply S2]. cbn. lia. }
  apply pwp_bind. eapply pwp_mono; [exact Hstore|]. intros [err' c'] e2 (Hf2 & He2 & Hg2 & Hkeep).
  destruct (exceeded || bool_decide (err' <> None) && (Rules.IsHomestead rules || negb (bool_decide (err' = Some ErrCodeStoreOutOfGas)))) eqn:Erev.
  - eapply (onDB_write _ _ (fun u => session s0 (G + gas) u /\ eqv (stack s) s u)); [exact He2|by apply act_revert|]. intros [] e3 [S3 Hev] He3. apply pwp_ret.
    set (c3 := if bool_decide (err' = Some ErrExecutionReverted) then c' else _). assert (0 <= Contract.Gas c3 <= gas) as Hg3.
    { unfold c3. destruct (bool_decide (err' = Some ErrExecutionReverted)); [lia|]. unfold Contract.UseGas. rewrite Z.ltb_irrefl. cbn [snd Contract.Gas Contract.set_Gas]. lia. }
    split; [eapply session_less; [|exact S3]; lia|]. split_and!; try done; try lia. intros _ _. by eapply nonceOnly_after.
  - apply orb_false_iff in Erev as [Ex Erev]. apply pwp_ret. assert (err' = None \/ err' = Some ErrCodeStoreOutOfGas) as Hcase.
    { destruct err' as [why|]; [right|by left]. rewrite bool_decide_eq_true_2 in Erev by done. cbn [andb] in Erev. apply orb_false_iff in Erev as [_ Erev].
      apply negb_false_iff, bool_decide_eq_true in Erev. done. }
    destruct (Hkeep Hcase) as [?|Hj]; [congruence|]. split; [eapply (session_join s0 (G + gas) s); [done|by split]|]. split_and!; try done; try lia.
    intros Hne Hh. destruct Hcase as [->| ->]; [done|]. rewrite bool_decide_eq_true_2, Hh in Erev by done. done.
Qed.

Lemma not_created s0 G d ro e caller gas rest addr err e' : session s0 (G + gas) (db e') -> evm_ok d ro e' -> 0 <= rest <= gas -> nonceOnly (refAddress caller) (db e) (db e') ->
  created_ok s0 G d ro e caller gas ([], addr, rest, err) e'.
Proof. intros S He Hg Hn. split; [eapply session_less; [|exact S]; lia|]. split_and!; try done; lia. Qed.

(** The account of the new contract: the balances are as before. *)
Lemma newAccount_run {B} (k : unit -> ST EVM.t B) Q s0 g d ro e address : static = false -> session s0 g (db e) -> evm_ok d ro e ->
  (forall e', session s0 g (db e') -> evm_ok d ro e' -> balances (db e) (db e') -> pwp P (k tt) Q e') ->
  pwp P (onDB (CreateAccount address);; when (Rules.IsEIP158 rules) (onDB (SetNonce address 1)) ≫= k) Q e.
Proof.
  intros Hs S He Hk. eapply onDB_write; [exact He|apply (act_create _ _ _ address S); congruence|]. intros [] e1 [S1 B1] He1. apply pwp_bind, pwp_when; intros _; [|by apply Hk].
  apply pwp_onDB. eapply pwp_mono; [apply (act_nonce _ _ _ address 1 Hs S1)|]. intros [] s (S2 & B2 & _). apply Hk; [done|by apply evm_state|].
  intros b. rewrite <- (B1 b). apply B2.
Qed.

Lemma create_run s0 G d ro e caller code hash gas z address : static = false -> session s0 (G + gas) (db e) -> evm_ok d ro e -> in_u64 gas -> gas <= N -> fits code ->
  (code <> [] -> hash <> zeroHash -> hash = Keccak256Hash code) -> 0 <= z -> 0 <= G ->
  pwp P (create ctx run caller code hash gas z address) (created_ok s0 G d ro e caller gas) e.
Proof.
  intros Hs S He Hg Hn Hf Hh Hz HG. pose proof Hg as [Hg0 _]. unfold create. apply pwp_gets_bind.
  destruct (_ <? EVM.depth e); [apply pwp_ret, not_created; try done; apply (nonceOnly_eqv _ _ _ []), eqv_refl|].
  eapply canTransfer_run; [done|done|]. intros can e1 S1 He1 Q1 Hcan. pose proof (nonceOnly_eqv (refAddress caller) _ _ _ (proj2 (proj2 Q1))) as N1.
  destruct can; cbn [negb]; [|by apply pwp_ret, not_created]. destruct (Hcan eq_refl) as (x & Hx & Hle). clear Hcan.
  eapply onDB_read; [apply peek_Nonce|exact S1|exact He1|]. intros nonce e2 S2 He2 _ Q2.
  eapply onDB_write; [exact He2|exact (act_nonce _ _ _ (refAddress caller) _ Hs S2)|]. intros [] e3 (S3 & B3 & N3) He3.
  eapply onDB_read; [apply peek_CodeHash|exact S3|exact He3|]. intros ch e4 S4 He4 _ Q4. eapply onDB_read; [apply peek_Nonce|exact S4|exact He4|]. intros n' e5 S5 He5 _ Q5.
  assert (nonceOnly (refAddress caller) (db e) (db e5)) as N5.
  { eapply nonceOnly_before; [apply Q1|]. eapply nonceOnly_before; [apply Q2|]. eapply nonceOnly_after; [|apply Q5]. eapply nonceOnly_after; [exact N3|apply Q4]. }
  assert (vBalance (refAddress caller) (db e5) = Some x) as Hx5 by (by rewrite (quiet_balance _ _ _ Q5), (quiet_balance _ _ _ Q4), (B3 _), (quiet_balance _ _ _ Q2)).
  destruct (_ || _); [apply pwp_ret, not_created; try done; lia|]. apply onDB_snapshot. pose proof (session_start _ _ _ S5) as S6.
  eapply newAccount_run; [done|exact S6|by apply evm_state|]. intros e6 S7 He6 B6.
  eapply onDB_write; [exact He6|apply (act_transfer _ _ _ (refAddress caller) address z S7); [done| |congruence]|].
  { intros _. exists x. rewrite (B6 _). cbn [EVM.StateDB EVM.set_StateDB]. by rewrite snapped_balance. }
  intros [] e7 S8 He7. apply NewContract_run with (d := d) (ro := ro); [done|]. intros e8 E8 He8.
  destruct (_ && _).
  { apply pwp_ret. split; [rewrite E8; by eapply session_join|]. by split_and!. }
  apply pwp_bind. eapply pwp_mono; [apply (Hrun (snapped (db e5)) G d ro e8); [cbn; by rewrite E8|done|by split|done|done|congruence|done]|].
  intros [[ret err] c'] e9 (R1 & R2 & R3 & R4 & R5 & R6). by apply (deploy_run s0 G d ro e caller gas (db e5)).
Qed.
End Calls.
