(* ===== verification/EvmTable.v ===== *)
(** * The tables of instructions

    Every operation of every table keeps the invariant of a running call: stores
    and self-destruction, the instructions that call, and the tables themselves. *)

From S2P Require Import Prelude GoStd Effects StateDB StateRevert StateSafety EvmData EvmOps EvmState EvmWords EvmJump EvmFrame EvmStep EvmCalls.
Import state vm OpCode.

Section Table.
Context {L : StateLib} {HL : StateLaws L} {HT : TrieLaws L} {V : EvmLib} {HV : EvmLaws V} (ctx : Context.t).
Abbreviation rules := (Context.chainRules ctx).
Context {static : bool} {P : string -> Prop} {J : Z -> StateDB.t -> Prop} {K : bytes -> bytes -> bytes -> Z -> StateDB.t -> Prop}.
Context {HK : Keeps rules static P J K}.
Abbreviation fine := (fineOf (static := static) J).
Abbreviation ended := (ended (static := static) (J := J)).
Abbreviation evm_ok := (evm_ok (static := static)).
Abbreviation charged := (charged (static := static)).
Abbreviation gas f := (Contract.Gas (Frame.contract f)).
Abbreviation state f := (EVM.StateDB (Frame.evm f)).
Implicit Types (f g : Frame.t) (e : EVM.t) (c : Contract.t) (s : StateDB.t) (G d size cost w : Z) (ro : bool).

Ltac short := exfalso; unfold zlen in *; cbn in *; lia.
Ltac lengths := unfold zlen, maxStack in *; cbn [length Frame.stack Frame.set_evm Frame.set_stack Frame.set_memory Frame.set_pc Frame.set_contract Frame.set_rstack Frame.set_steps] in *; lia.
Ltac words Hw := repeat (apply Forall_cons in Hw as [? Hw]).

(** ** Stores *)

(** The dynamic cost of a store, given the current value. *)
Lemma charge_current s0 G d ro f x y st (m : bytes -> M Z) : fine s0 G d ro f -> Frame.stack f = x :: y :: st ->
  (forall s current, session (J := J) s0 (G + gas f) s -> 0 <= G + gas f -> vState (Contract.self (Frame.contract f)) (toHash x) s = Some current ->
    pwp P (m current) (fun cost t => (follows_ok s0 t /\ K (Contract.self (Frame.contract f)) (toHash x) (toHash y) (G + gas f - cost) t) /\ 200 <= cost <= 20000) s) ->
  pwp P (current ← onEVM (onDB (GetState (Contract.self (Frame.contract f)) (toHash x))); g ← onEVM (onDB (m current)); mret (inl g))
    (charged (K (Contract.self (Frame.contract f)) (toHash x) (toHash y)) anyCost 200 s0 G d ro f 0) f.
Proof.
  intros F Hst Hm. eapply (pwp_read ctx); [apply peek_State|exact F|]. intros current s F1 Hv Q. apply pwp_bind, pwp_db.
  eapply pwp_mono; [apply Hm; [apply (fi_state _ _ _ _ _ F1)|pose proof (fi_callers _ _ _ _ _ F); pose proof (co_gas _ (fi_contract _ _ _ _ _ F)) as [? _]; lia|]|].
  - cbn. destruct (views_respect (Contract.self (Frame.contract f)) (toHash x) _ _ _ (proj2 (proj2 Q))) as (_ & _ & _ & _ & _ & _ & _ & _ & <- & _). done.
  - intros c t [[Hf HK'] Hc]. apply pwp_ret. exists (EVM.set_StateDB (Frame.evm f) t), (Frame.memory f). split; [by destruct f|].
    split; [apply evm_state, F|]. split; [done|]. split_and!; [unfold in_u64, two64; lia|lia|done|apply paidTo_zero, F|done].
Qed.

Lemma charge_store s0 G d ro f x y st : static = false -> fine s0 G d ro f -> Frame.stack f = x :: y :: st ->
  pwp P (gasSStore ctx 0) (charged (K (Contract.self (Frame.contract f)) (toHash x) (toHash y)) anyCost 200 s0 G d ro f 0) f.
Proof.
  intros Hs F Hst. pose proof (fine_operands _ _ _ _ _ _ F Hst) as Hw. words Hw. unfold gasSStore. eapply pwp_Back; [by rewrite Hst|]. eapply pwp_Back; [by rewrite Hst|].
  unfold contract. apply pwp_gets_bind. eapply (charge_current _ _ _ _ f x y st (fun current => if Rules.IsPetersburg rules || negb (Rules.IsConstantinople rules) then legacyGas current y
          else netGas Net.eip1283 (Contract.self (Frame.contract f)) (toHash x) current (toHash y))); [done|done|].
  intros s current S Hg0 Hv. destruct (_ || _); [by apply act_legacy|apply act_net; try done; set_solver].
Qed.

Lemma charge_store2200 s0 G d ro f x y st : static = false -> fine s0 G d ro f -> Frame.stack f = x :: y :: st ->
  pwp P (gasSStoreEIP2200 0) (charged (K (Contract.self (Frame.contract f)) (toHash x) (toHash y)) anyCost 200 s0 G d ro f 0) f.
Proof.
  intros Hs F Hst. unfold gasSStoreEIP2200, contract. apply pwp_gets_bind. destruct (_ <=? _).
  { apply pwp_ret. by apply (charged_stop (J := J)). }
  eapply pwp_Back; [by rewrite Hst|]. eapply pwp_Back; [by rewrite Hst|]. apply pwp_gets_bind.
  eapply (charge_current _ _ _ _ f x y st (fun current => netGas Net.eip2200 (Contract.self (Frame.contract f)) (toHash x) current (toHash y))); [done|done|].
  intros s current S Hg0 Hv. apply act_net; try done. set_solver.
Qed.

Definition sstore (dg : Z -> ST Frame.t (Z + vmError)) : operation := with_flags false false true false false (with_gas dg (simple opSstore 0 2 0)).

Lemma sstore_ok N dg : static = false -> (dg = gasSStore ctx \/ dg = gasSStoreEIP2200) -> op_ok (static := static) (P := P) (J := J) N (sstore dg).
Proof.
  intros Hs Hdg s0 G d ro f F Hl Hp _ _. change (2 <= zlen (Frame.stack f) <= maxStack 2 0) in Hl. destruct (Frame.stack f) as [|x [|y st]] eqn:Hst; [short..|]. pose proof (fine_operands _ _ _ _ _ _ F Hst) as Hw. words Hw.
  pose proof (fine_room _ _ _ _ _ _ F Hst) as Hr. eapply (perform_run ctx (sstore dg) (K (Contract.self (Frame.contract f)) (toHash x) (toHash y)) anyCost 200); [done|done|done| |].
  - intros f1 w F1 -> Hw1 Hn. rewrite (Hn eq_refl). cbn [dynamicGas sstore with_flags with_gas].
    destruct Hdg as [->| ->]; [exact (charge_store s0 G d ro _ x y st Hs F1 Hst)|exact (charge_store2200 s0 G d ro _ x y st Hs F1 Hst)].
  - intros g cost [A1 A2 A3 A4 A5 A6 A7 A8 A9] Hs1 Hpc Hg Hle Hc _ Hcon _. change (constantGas (sstore dg)) with 0 in Hg. rewrite Hst in Hs1. eapply pwp_pop; [exact Hs1|]. eapply pwp_pop; [done|]. unfold contract. apply pwp_gets_bind.
    apply pwp_bind, pwp_db. eapply pwp_mono; [apply (act_store (J := J) s0 (G + gas g)); [apply A1|]|].
    { cbn. rewrite Hcon. cbn. rewrite Hg. destruct A1 as [_ A1]. cbn in A1. by rewrite Hg in A1. }
    intros [] s S. apply pwp_ret. split.
    + split; try done; [by apply evm_state|lengths].
    + cbn. split_and!; [lia|lia|done|lia|done].
Qed.

(** ** Self-destruction *)

Abbreviation with_state f s := (Frame.set_evm f (EVM.set_StateDB (Frame.evm f) s)).

Definition base_cost cost : Prop := if Rules.IsEIP150 rules then params.SelfdestructGasEIP150 <= cost <= 30000 else cost = 0.

Lemma suicide_base s0 G d ro f x st : fine s0 G d ro f -> Frame.stack f = x :: st ->
  pwp P (if Rules.IsEIP150 rules then
           to ← Back 0;
           new ← (if Rules.IsEIP158 rules then
                    e ← onEVM (onDB (Empty (toAddress to)));
                    if e : bool then b ← onEVM (onDB (GetBalance (Contract.self (Frame.contract f)))); mret (negb (b =? 0)) else mret false
                  else e ← onEVM (onDB (Exist (toAddress to))); mret (negb e));
           mret (params.SelfdestructGasEIP150 + (if new : bool then params.CreateBySelfdestructGas else 0))
         else mret 0) (fun cost g => exists s, g = with_state f s /\ fine s0 G d ro g /\ base_cost cost) f.
Proof.
  intros F Hst. unfold base_cost. destruct (Rules.IsEIP150 rules); [|apply pwp_ret; exists (state f); split; [by destruct f as [[] ? ? ? ? ? ?]|done]].
  eapply pwp_Back; [by rewrite Hst|]. apply pwp_bind. eapply (pwp_mono _ _ (fun _ g => exists s, g = with_state f s /\ fine s0 G d ro g)).
  - destruct (Rules.IsEIP158 rules).
    + eapply (pwp_read ctx); [apply peek_Empty|exact F|]. intros [] s F1 _ _; [|apply pwp_ret; by exists s].
      eapply (pwp_read ctx); [apply peek_Balance|exact F1|]. intros b s' F2 _ _. apply pwp_ret. by exists s'.
    + eapply (pwp_read ctx); [apply peek_Exist|exact F|]. intros b s F1 _ _. apply pwp_ret. by exists s.
  - intros new g (s & -> & F1). apply pwp_ret. exists s. split; [done|]. split; [done|]. destruct new; lia.
Qed.

Lemma charge_suicide s0 G d ro f x st : static = false -> fine s0 G d ro f -> Frame.stack f = x :: st ->
  pwp P (gasSelfdestruct ctx 0) (charged J anyCost 0 s0 G d ro f 0) f.
Proof.
  intros Hs F Hst. unfold gasSelfdestruct, contract. apply pwp_gets_bind. apply pwp_bind. eapply pwp_mono; [exact (suicide_base _ _ _ _ f x st F Hst)|].
  intros cost g (s & -> & F1 & Hc). eapply (pwp_read ctx); [apply peek_Suicided|exact F1|]. intros gone s' F2 _ _. unfold base_cost in Hc.
  assert (in_u64 cost /\ 0 <= cost /\ (if Rules.IsEIP150 rules then params.SelfdestructGasEIP150 else 0) <= cost) as (Hu & H0 & Hle) by (destruct (Rules.IsEIP150 rules); subst; unfold in_u64, two64; lia).
  apply pwp_bind. apply (pwp_mono _ _ (fun _ g => exists t, g = with_state f t /\ session (J := J) s0 (G + gas f - cost) t)).
  - apply pwp_when; intros _.
    + apply pwp_db. eapply pwp_mono; [exact (act_gone s0 _ _ Hs (fi_state _ _ _ _ _ F2))|]. intros [] t S. exists t. split; [done|]. eapply session_less; [|exact S]. cbn. lia.
    + exists s'. split; [done|]. eapply session_less; [|apply (fi_state _ _ _ _ _ F2)]. cbn. lia.
  - intros [] g (t & -> & S). apply pwp_ret. exists (EVM.set_StateDB (Frame.evm f) t), (Frame.memory f). split; [by destruct f|]. split; [apply evm_state, F|]. split; [apply S|].
    split_and!; [done|done|apply S|apply paidTo_zero, F|done].
Qed.

Definition selfdestruct : operation := with_flags true false true false false (with_gas (gasSelfdestruct ctx) (simple opSuicide 0 1 0)).

Lemma pwp_db2 {A B C} (m : M A) (n : M B) (k : B -> ST Frame.t C) Q f : pwp P (onEVM (onDB (m;; n)) ≫= k) Q f -> pwp P (onEVM (onDB m);; onEVM (onDB n) ≫= k) Q f.
Proof.
  unfold pwp, mbind, ST_bind, onEVM, onDB. cbn. destruct (m (state f)) as [[x s]|]; cbn; [|done]. by destruct (n s) as [[y t]|].
Qed.

Lemma selfdestruct_ok N : static = false -> op_ok (static := static) (P := P) (J := J) N selfdestruct.
Proof.
  intros Hs s0 G d ro f F Hl Hp _ _. change (1 <= zlen (Frame.stack f) <= maxStack 1 0) in Hl. destruct (Frame.stack f) as [|x st] eqn:Hst; [short|].
  pose proof (fine_operands _ _ _ _ _ _ F Hst) as Hw. words Hw. pose proof (fine_room _ _ _ _ _ _ F Hst) as Hr.
  eapply (perform_run ctx selfdestruct J anyCost 0); [done|done|done| |].
  - intros f1 w F1 -> Hw1 Hn. rewrite (Hn eq_refl). exact (charge_suicide s0 G d ro _ x st Hs F1 Hst).
  - intros g cost Fg Hs1 Hpc Hg Hle Hc _ Hcon _. change (constantGas selfdestruct) with 0 in Hg. rewrite Hst in Hs1. eapply pwp_pop; [exact Hs1|]. unfold contract. apply pwp_gets_bind.
    assert (fine s0 G d ro (Frame.set_stack g st)) as F1 by (apply fine_stack; [done|done|lengths]).
    eapply (pwp_read ctx); [apply peek_Balance|exact F1|]. intros z s F2 Hz Q. apply pwp_db2.
    assert (vBalance (Contract.self (Frame.contract g)) s = Some z) as Hz'.
    { destruct (views_respect (Contract.self (Frame.contract g)) zeroHash _ _ _ (proj2 (proj2 Q))) as (_ & _ & <- & _). done. }
    eapply (pwp_write (P := P) (J := J)); [exact F2|exact (act_suicide s0 _ _ _ _ _ Hs (fi_state _ _ _ _ _ F2) Hz')|]. intros r t F3. apply pwp_ret.
    split; [done|]. cbn. split_and!; [lia|done|done|lia|done].
Qed.

(** ** Calls *)

Definition stipend (z : Z) : Z := if z =? 0 then 0 else params.CallStipend.
Definition transferCost (z : Z) : Z := if z =? 0 then 0 else params.CallValueTransferGas.

(** The gas for the call is part of the cost. *)
Definition forwarded f G (z cost : Z) e : Prop :=
  0 <= EVM.callGasTemp e /\ EVM.callGasTemp e + transferCost z <= cost /\ J (G + (gas f - cost) + (EVM.callGasTemp e + stipend z)) (EVM.StateDB e).

Lemma stipend_less z : 0 <= stipend z <= transferCost z /\ transferCost z < 2 ^ 32.
Proof. unfold stipend, transferCost. destruct (z =? 0); lia. Qed.

Lemma charge_forward s0 G d ro f z base s m w : fine s0 G d ro f -> session (J := J) s0 (G + gas f) s -> paidTo (Frame.memory f) m w -> in_u64 base -> transferCost z <= base ->
  1 <= zlen (Frame.stack f) -> pwp P (forwardGas ctx base) (charged J (forwarded f G z) 0 s0 G d ro f w) (Frame.set_memory (with_state f s) m).
Proof.
  intros F S Hm Hb Ht Hl. pose proof (stipend_less z) as Hsl. unfold forwardGas, contract. apply pwp_gets_bind. destruct (back_in _ _ _ _ _ 0 F) as (x & Hx & Wx); [lia|].
  eapply pwp_Back; [exact Hx|]. assert (forall why e, EVM.StateDB e = s -> evm_ok d ro e -> charged J (forwarded f G z) 0 s0 G d ro f w (inr why) (Frame.set_memory (Frame.set_evm f e) m)) as Hf.
  { intros why e He Hev. exists e, m. split_and!; [done|done|rewrite He; apply S|done]. }
  apply pwp_paid; [|intros why _; apply Hf; [done|apply evm_state, F]]. intros temp Htemp. apply callGas_range in Htemp; [|done]. apply pwp_bind, pwp_onEVM, pwp_modify, pwp_ret.
  set (e' := EVM.set_callGasTemp _ _). assert (evm_ok d ro e') as He'. { destruct (fi_evm _ _ _ _ _ F) as [E1 E2 E3 E4 E5]. by split. }
  destruct (addGas base temp) as [total|why] eqn:Ea; [|by apply (Hf _ e')]. apply addGas_spec in Ea as [-> Hu]; [|done|done]. unfold in_u64 in *.
  exists e', m. split; [done|]. split; [done|]. split; [apply S|]. split_and!; [done|lia|eapply J_less; [|apply S]; lia|done|].
  split; [cbn; lia|]. split; [cbn; lia|]. eapply J_less; [|apply S]. cbn. lia.
Qed.

Lemma with_same f m : Frame.set_memory f m = Frame.set_memory (with_state f (state f)) m.
Proof. by destruct f as [[] ? ? ? ? ? ?]. Qed.

Lemma memory_forward s0 G d ro f z extra s w : fine s0 G d ro f -> session (J := J) s0 (G + gas f) s -> 0 <= w <= 2 ^ 59 -> 0 <= extra < 2 ^ 32 -> transferCost z <= extra ->
  1 <= zlen (Frame.stack f) -> forall r m, (match r with inl cost => paidTo (Frame.memory f) m w /\ 0 <= cost < 2 ^ 56 | inr _ => True end) ->
  pwp P (paid r (fun cost => paid (addGas extra cost) (forwardGas ctx))) (charged J (forwarded f G z) 0 s0 G d ro f w) (Frame.set_memory (with_state f s) m).
Proof.
  intros F S Hw He Ht Hl r m Hr. assert (forall why, charged J (forwarded f G z) 0 s0 G d ro f w (inr why) (Frame.set_memory (with_state f s) m)) as Hf.
  { intros why. exists (EVM.set_StateDB (Frame.evm f) s), m. split_and!; [done|apply evm_state, F|apply S|done]. }
  apply pwp_paid; [|intros why _; apply Hf]. intros cost ->. destruct Hr as [Hm Hc]. apply pwp_paid; [|intros why _; apply Hf]. intros base Hb.
  apply addGas_spec in Hb as [-> Hb]; [|unfold in_u64, two64; lia..]. apply charge_forward; try done. lia.
Qed.

Lemma charge_call s0 G d ro f w x a z st : fine s0 G d ro f -> 0 <= w <= 2 ^ 59 -> Frame.stack f = x :: a :: z :: st ->
  pwp P (gasCall ctx (32 * w)) (charged J (forwarded f G z) 0 s0 G d ro f w) f.
Proof.
  intros F Hw Hst. unfold gasCall. eapply pwp_Back; [by rewrite Hst|]. eapply pwp_Back; [by rewrite Hst|]. cbv zeta. apply pwp_bind.
  apply (pwp_mono _ _ (fun _ g => exists s, g = with_state f s /\ fine s0 G d ro g)).
  - destruct (Rules.IsEIP158 rules).
    + destruct (negb _); [|apply pwp_ret; exists (state f); split; [by destruct f as [[] ? ? ? ? ? ?]|done]]. apply pwp_db.
      eapply pwp_mono; [exact (act_read _ _ s0 _ _ (peek_Empty (toAddress a)) (fi_state _ _ _ _ _ F))|]. intros b s (S & _ & _). exists s. split; [done|by apply fine_update].
    + eapply (pwp_read ctx); [apply peek_Exist|exact F|]. intros b s F1 _ _. apply pwp_ret. by exists s.
  - intros new g (s & -> & F1). apply pwp_bind. eapply pwp_mono; [apply (memoryGasCost_run (with_state f s) w); [apply F|done]|]. intros r g Hr.
    set (extra := _ + _). assert (0 <= extra < 2 ^ 32 /\ transferCost z <= extra) as [He Ht] by (unfold extra, transferCost; destruct new, (z =? 0); cbn; lia).
    destruct r as [cost|why].
    + destruct Hr as (m & -> & Hm & Hc & _). apply (memory_forward s0 G d ro f z extra s w); try done; [apply F1|rewrite Hst; unfold zlen; cbn; lia].
    + subst g. apply (memory_forward s0 G d ro f z extra s w F (fi_state _ _ _ _ _ F1) Hw He Ht ltac:(rewrite Hst; unfold zlen; cbn; lia) (inr why) (Frame.memory f)). done.
Qed.

Lemma charge_callCode s0 G d ro f w x a z st : fine s0 G d ro f -> 0 <= w <= 2 ^ 59 -> Frame.stack f = x :: a :: z :: st ->
  pwp P (gasCallCode ctx (32 * w)) (charged J (forwarded f G z) 0 s0 G d ro f w) f.
Proof.
  intros F Hw Hst. pose proof (fine_operands _ _ _ _ _ _ F Hst) as Hwd. words Hwd. unfold gasCallCode. apply pwp_bind. eapply pwp_mono; [apply (memoryGasCost_run f w); [apply F|done]|].
  intros [cost|why] g Hr; [|subst g; apply pwp_ret; by apply (charged_stop (J := J))]. destruct Hr as (m & -> & Hm & Hc & _). cbn [paid]. eapply pwp_Back; [cbn; by rewrite Hst|].
  rewrite uint256.Sign_eq by done. fold (transferCost z). pose proof (stipend_less z). rewrite with_same.
  apply (memory_forward s0 G d ro f z (transferCost z) (state f) w F (fi_state _ _ _ _ _ F) Hw ltac:(lia) ltac:(lia) ltac:(rewrite Hst; unfold zlen; cbn; lia) (inl cost) m). done.
Qed.

Lemma charge_callPlain s0 G d ro f w : fine s0 G d ro f -> 0 <= w <= 2 ^ 59 -> 1 <= zlen (Frame.stack f) ->
  pwp P (gasCallPlain ctx (32 * w)) (charged J (forwarded f G 0) 0 s0 G d ro f w) f.
Proof.
  intros F Hw Hl. unfold gasCallPlain. apply pwp_bind. eapply pwp_mono; [apply (memoryGasCost_run f w); [apply F|done]|].
  intros [cost|why] g Hr; [|subst g; apply pwp_ret; by apply (charged_stop (J := J))]. destruct Hr as (m & -> & Hm & Hc & _). cbn [paid]. rewrite with_same.
  apply charge_forward; try done; [apply F|unfold in_u64, two64; lia|unfold transferCost; cbn; lia].
Qed.

(** The parts of the memory for the arguments and for the result. *)
Lemma memoryCall_reached s0 G d ro f (i j : Z) xo rs io is' : fine s0 G d ro f -> covered (Some (memoryCall i j)) f ->
  Stack.Back (Frame.stack f) i = Ret xo -> Stack.Back (Frame.stack f) (i + 1) = Ret rs -> Stack.Back (Frame.stack f) j = Ret io -> Stack.Back (Frame.stack f) (j + 1) = Ret is' ->
  reached (Frame.memory f) xo rs /\ reached (Frame.memory f) io is'.
Proof.
  intros F (size & Hs & Hle) H1 H2 H3 H4. unfold memoryCall, memoryAt in Hs. rewrite H1, H2, H3, H4 in Hs. cbn [obind] in Hs.
  destruct (calcMemSize64 xo rs) as [x b] eqn:E1. cbn [obind] in Hs. destruct b; [done|]. destruct (calcMemSize64 io is') as [y b] eqn:E2. cbn [obind] in Hs. destruct b; [done|].
  injection Hs as Hs. assert (x <= size /\ y <= size) as [Hx Hy] by (destruct (Z.ltb_spec y x); lia).
  split; (eapply reach_region; [apply F|by eapply back_word..|done|lia]).
Qed.

Context (N : Z) (run : Contract.t -> bytes -> bool -> ST EVM.t (bytes * option vmError * Contract.t)).
Hypothesis Hrun : run_ok (static := static) (P := P) (J := J) (N - 1) run.

Lemma evm_static d ro e e' : evm_ok d ro e -> EvmFrame.evm_ok (static := false) d ro e' -> evm_ok d ro e'.
Proof. intros [] []. by split. Qed.

Lemma evm_plain d ro e : evm_ok d ro e -> EvmFrame.evm_ok (static := false) d ro e.
Proof. intros []. by split. Qed.

(** A call of a contract, with what the call may use. *)
Definition call_ok (call : ContractRef -> bytes -> bytes -> Z -> ST EVM.t (output * Z * option vmError)) : Prop :=
  forall s0 G d ro e c addr input z, session (J := J) s0 (G + z) (EVM.StateDB e) -> evm_ok d ro e -> contract_ok c -> in_u64 z -> z <= N - 1 -> fits input -> 0 <= G ->
    pwp P (call (ContractCaller c) addr input z) (called_ok (J := J) s0 G d ro e z) e.

(** The end of the instruction: [z] gas was given to the call, [rest] comes back. *)
Lemma called_run o s0 G d ro f g e args retOffset retSize z r e' : fine s0 G d ro g -> called_ok (J := J) s0 (G + gas g) d ro e z r e' -> slice_ok (Frame.memory g) args ->
  reached (Frame.memory g) retOffset retSize -> zlen (Frame.stack g) < params.StackLimit -> Frame.pc g < 2 ^ 62 -> gas g + z < gas f -> gas f < two64 ->
  pwp P (called args retOffset retSize r) (executed (static := static) (J := J) o s0 G d ro f) (Frame.set_evm g e').
Proof.
  intros F Hr Hs Hret Hl Hp Hg Hf. destruct r as [[ret rest] err]. destruct Hr as (S & He & Hrest & Hfits & _). apply (evm_static _ _ _ _ (fi_evm _ _ _ _ _ F)) in He. unfold called. apply pwp_push.
  set (ret' := match ret with Fresh b => Own b | Input => args end). assert (forall m, Memory.Len m = Memory.Len (Frame.memory g) -> slice_ok m ret') as Hret'.
  { intros m Hm. unfold ret'. destruct ret as [b|]; [by apply Hfits|]. eapply slice_ok_len; [|exact Hs]. lia. }
  pose proof (co_gas _ (fi_contract _ _ _ _ _ F)) as Hu. unfold in_u64 in Hu.
  set (h := Frame.set_stack _ _). assert (forall m, mem_ok m -> Memory.Len m = Memory.Len (Frame.memory g) -> pwp P (left ← contract Contract.Gas; setGas (u64 (left + rest));; mret (ret', None))
    (executed (static := static) (J := J) o s0 G d ro f) (Frame.set_memory h m)) as Hend.
  { intros m Hm Hml. unfold contract. apply pwp_gets_bind. unfold setGas. apply pwp_modify_bind, pwp_ret. cbn [Frame.contract Frame.set_memory h Frame.set_stack Frame.set_evm].
    rewrite u64_id by (unfold in_u64; lia). destruct F as [A1 A2 A3 A4 A5 A6 [C1 C2 C3 C4 C5 C6] A8 A9]. split.
    - split; try done.
      + cbn. by replace (G + (gas g + rest)) with (G + gas g + rest) by lia.
      + constructor; [|done]. unfold isTrue. destruct (bool_decide _); by apply word_small.
      + unfold h. lengths.
      + split; try done. cbn. unfold in_u64. lia.
    - cbn. split_and!; [lia|lia|by apply Hret'|lia|done]. }
  apply pwp_bind. destruct (_ || _); [|apply pwp_ret; specialize (Hend (Frame.memory g) (fi_memory _ _ _ _ _ F) eq_refl); exact Hend].
  unfold read. apply pwp_gets_bind. apply setMemory_run; [apply F|apply Hret|]. intros m Hm Hml. by apply Hend.
Qed.

(** An instruction that calls: [call] with the gas that was put aside. *)
Lemma call_exec o s0 G d ro f g const cost args io is' xo rs st z call addr : fine s0 G d ro g -> gas g = gas f - const - cost -> 1 <= const -> gas f <= N -> gas f < two64 ->
  forwarded (Frame.set_contract f (Contract.set_Gas (Frame.contract f) (gas f - const))) G z cost (Frame.evm g) -> call_ok call -> Forall uint256.word st -> zlen st < params.StackLimit ->
  Frame.pc g < 2 ^ 62 -> reached (Frame.memory g) xo rs -> reached (Frame.memory g) io is' -> slice_ok (Frame.memory g) args ->
  pwp P (r ← onEVM (call (ContractCaller (Frame.contract g)) addr (Memory.read (Frame.memory g) args) (EVM.callGasTemp (Frame.evm g) + stipend z)); called args xo rs r)
    (executed (static := static) (J := J) o s0 G d ro f) (Frame.set_stack g st).
Proof.
  intros F Hg Hc HN Hf (Ht & Hle & HJ) Hcall Hw Hl Hp Rret Rin Hs. pose proof (stipend_less z) as Hst. pose proof (co_gas _ (fi_contract _ _ _ _ _ F)) as Hu. unfold in_u64 in Hu.
  apply pwp_bind, pwp_onEVM. eapply pwp_mono; [apply (Hcall s0 (G + gas g) d ro)|].
  - split; [apply F|]. cbn in HJ |- *. by replace (G + gas g + (EVM.callGasTemp (Frame.evm g) + stipend z)) with (G + (gas f - const - cost) + (EVM.callGasTemp (Frame.evm g) + stipend z)) by lia.
  - apply F.
  - apply F.
  - unfold in_u64. lia.
  - lia.
  - apply read_fits; [apply F|done].
  - pose proof (fi_callers _ _ _ _ _ F). lia.
  - intros r e' Hr. eapply (called_run o s0 G d ro f (Frame.set_stack g st)); [apply fine_stack; [done|done|lia]|exact Hr|done|done|done|done|cbn; lia|done].
Qed.

Definition callOp (dg : Z -> ST Frame.t (Z + vmError)) (call : ContractRef -> bytes -> bytes -> Z -> Z -> ST EVM.t (output * Z * option vmError)) (const : Z) : operation :=
  with_flags false false false false true (with_gas dg (with_memory (memoryCall 5 3) (simple (opCallValued call) const 7 1))).

Lemma temp_stipend (z temp cost : Z) : 0 <= temp -> temp + transferCost z <= cost -> cost < two64 -> (if z =? 0 then temp else u64 (temp + params.CallStipend)) = temp + stipend z.
Proof. intros H1 H2 H3. unfold stipend, transferCost in *. destruct (z =? 0); [lia|]. apply u64_id. unfold in_u64, two64 in *. lia. Qed.

Lemma callOp_run dg call const s0 G d ro f x a z io is' xo rs st : fine s0 G d ro f -> 1 <= const -> Frame.stack f = x :: a :: z :: io :: is' :: xo :: rs :: st -> Frame.pc f < 2 ^ 62 -> gas f <= N ->
  (forall f1 w, fine s0 G d ro f1 -> Frame.stack f1 = Frame.stack f -> 0 <= w <= 2 ^ 59 -> pwp P (dg (32 * w)) (charged J (forwarded f1 G z) 0 s0 G d ro f1 w) f1) ->
  call_ok (fun caller addr input gas => call caller addr input gas z) -> pwp P (perform (callOp dg call const)) (stepped (static := static) (J := J) s0 G d ro f) f.
Proof.
  intros F Hc Hst Hp HN Hdg Hcall. pose proof (fine_operands _ _ _ _ _ _ F Hst) as Hw. pose proof (fine_room _ _ _ _ _ _ F Hst) as Hr.
  pose proof (co_gas _ (fi_contract _ _ _ _ _ F)) as Hu. unfold in_u64 in Hu.
  eapply (perform_run ctx (callOp dg call const) J (forwarded (Frame.set_contract f (Contract.set_Gas (Frame.contract f) (gas f - const))) G z) 0); [done|cbn; lia|..].
  - intros ms Hms. eapply (memoryCall_sized 5 3 7); [lia|lia|lia|lia|exact Hms|apply F|rewrite Hst; lengths].
  - intros f1 w F1 -> Hw1 _. by apply Hdg.
  - intros g cost Fg Hs1 Hpc Hg Hle Hcost HX Hcon Hcov. rewrite Hst in Hs1. change (constantGas (callOp dg call const)) with const in *. cbn [memorySize callOp with_flags with_gas with_memory] in Hcov.
    destruct (memoryCall_reached s0 G d ro g 5 3 xo rs io is' Fg Hcov) as [R1 R2]; [by rewrite Hs1..|]. words Hw.
    pose proof (co_gas _ (fi_contract _ _ _ _ _ Fg)) as Hug. unfold in_u64 in Hug. cbn [execute callOp with_flags with_gas with_memory simple]. unfold opCallValued.
    eapply pwp_pop; [exact Hs1|]. apply pwp_gets_bind. do 6 (eapply pwp_pop; [done|]). apply pwp_GetPtr; [apply Fg|apply R2|]. intros args Hargs. unfold read, self, contract. do 2 apply pwp_gets_bind.
    cbn [Frame.evm Frame.set_stack Frame.memory Frame.contract]. rewrite (temp_stipend z _ cost); [|apply HX|apply HX|lia].
    apply (call_exec (callOp dg call const) s0 G d ro f g const cost args io is' xo rs st z (fun caller addr input gas => call caller addr input gas z) (toAddress a)); try done; lengths || lia.
Qed.

Definition callPlainOp (call : ContractRef -> bytes -> bytes -> Z -> ST EVM.t (output * Z * option vmError)) (const : Z) : operation :=
  with_flags false false false false true (with_gas (gasCallPlain ctx) (with_memory (memoryCall 4 2) (simple (opCallPlain call) const 6 1))).

Lemma callPlainOp_ok call const : 1 <= const -> call_ok call -> op_ok (static := static) (P := P) (J := J) N (callPlainOp call const).
Proof.
  intros Hc Hcall s0 G d ro f F Hl Hp HN _. change (6 <= zlen (Frame.stack f) <= maxStack 6 1) in Hl.
  destruct (Frame.stack f) as [|x [|a [|io [|is' [|xo [|rs st]]]]]] eqn:Hst; [short..|]. pose proof (fine_operands _ _ _ _ _ _ F Hst) as Hw. pose proof (fine_room _ _ _ _ _ _ F Hst) as Hr.
  pose proof (co_gas _ (fi_contract _ _ _ _ _ F)) as Hu. unfold in_u64 in Hu.
  eapply (perform_run ctx (callPlainOp call const) J (forwarded (Frame.set_contract f (Contract.set_Gas (Frame.contract f) (gas f - const))) G 0) 0); [done|cbn; lia|..].
  - intros ms Hms. eapply (memoryCall_sized 4 2 6); [lia|lia|lia|lia|exact Hms|apply F|rewrite Hst; lengths].
  - intros f1 w F1 -> Hw1 _. apply charge_callPlain; [done|done|cbn; rewrite Hst; unfold zlen; cbn; lia].
  - intros g cost Fg Hs1 Hpc Hg Hle Hcost HX Hcon Hcov. rewrite Hst in Hs1. change (constantGas (callPlainOp call const)) with const in *. cbn [memorySize callPlainOp with_flags with_gas with_memory] in Hcov.
    destruct (memoryCall_reached s0 G d ro g 4 2 xo rs io is' Fg Hcov) as [R1 R2]; [by rewrite Hs1..|]. words Hw.
    cbn [execute callPlainOp with_flags with_gas with_memory simple]. unfold opCallPlain.
    eapply pwp_pop; [exact Hs1|]. apply pwp_gets_bind. do 5 (eapply pwp_pop; [done|]). apply pwp_GetPtr; [apply Fg|apply R2|]. intros args Hargs. unfold read, self, contract. do 2 apply pwp_gets_bind.
    cbn [Frame.evm Frame.set_stack Frame.memory Frame.contract]. rewrite <- (Z.add_0_r (EVM.callGasTemp (Frame.evm g))). change 0 with (stipend 0).
    apply (call_exec (callPlainOp call const) s0 G d ro f g const cost args io is' xo rs st 0 call (toAddress a)); try done; lengths || lia.
Qed.

(** ** Creation *)

Definition creator_ok (create : ContractRef -> bytes -> Z -> Z -> ST EVM.t (bytes * bytes * Z * option vmError)) : Prop :=
  forall s0 G d ro e (caller : ContractRef) code gas z, session (J := J) s0 (G + gas) (EVM.StateDB e) -> evm_ok d ro e -> in_u64 gas -> gas <= N - 1 -> fits code -> 0 <= z -> 0 <= G ->
    pwp P (create caller code gas z) (created_ok ctx (J := J) s0 G d ro e caller gas) e.

(** The end of both instructions. *)
Lemma create_exec o s0 G d ro f g const cost (create : ContractRef -> bytes -> Z -> Z -> ST EVM.t (bytes * bytes * Z * option vmError)) code z eip (flag : option vmError -> bytes -> Z) st :
  fine s0 G d ro g -> gas g = gas f - const - cost -> 1 <= const -> 0 <= cost -> gas f <= N -> gas f < two64 -> creator_ok create -> Forall uint256.word st -> zlen st < params.StackLimit ->
  Frame.pc g < 2 ^ 62 -> fits code -> 0 <= z -> (forall err addr, uint256.word (flag err addr)) ->
  pwp P (gas ← contract Contract.Gas; let gas := withheld eip gas in UseGas gas;; caller ← self; r ← onEVM (create caller code gas z);
    let '(res, addr, returnGas, suberr) := (r : bytes * bytes * Z * option vmError) in push (flag suberr addr);; left ← contract Contract.Gas; setGas (u64 (left + returnGas));;
    mret (Own (if bool_decide (suberr = Some ErrExecutionReverted) then res else []), None))
    (executed (static := static) (J := J) o s0 G d ro f) (Frame.set_stack g st).
Proof.
  intros F Hg Hc Hcost HN Hf Hcr Hw Hl Hp Hcode Hz Hflag. pose proof (co_gas _ (fi_contract _ _ _ _ _ F)) as Hu. unfold in_u64 in Hu. unfold contract at 1. apply pwp_gets_bind. cbv zeta.
  change (Contract.Gas (Frame.contract (Frame.set_stack g st))) with (gas g). set (given := withheld eip (gas g)).
  assert (0 <= given <= gas g) as Hgiven.
  { unfold given, withheld. destruct eip; [|lia]. pose proof (Z.div_pos (gas g) 64). pose proof (Z.div_le_upper_bound (gas g) 64 (gas g)). lia. }
  apply pwp_UseGas; [cbn; lia|]. intros _. unfold self, contract at 1. apply pwp_gets_bind, pwp_bind, pwp_onEVM.
  change (Frame.contract (Frame.set_stack g st)) with (Frame.contract g). cbn [Frame.contract Frame.set_contract Frame.evm Frame.set_stack].
  eapply pwp_mono; [apply (Hcr s0 (G + (gas g - given)) d ro)|].
  - replace (G + (gas g - given) + given) with (G + gas g) by lia. apply F.
  - apply F.
  - unfold in_u64. lia.
  - lia.
  - done.
  - done.
  - pose proof (fi_callers _ _ _ _ _ F). lia.
  - intros [[[res addr] rest] err] e' (S & He & Hrest & Hfits & _). apply (evm_static _ _ _ _ (fi_evm _ _ _ _ _ F)) in He. apply pwp_push. unfold contract. apply pwp_gets_bind. unfold setGas. apply pwp_modify_bind, pwp_ret.
    cbn [Frame.contract Frame.set_contract Frame.set_evm Frame.set_stack Contract.Gas Contract.set_Gas]. rewrite u64_id by (unfold in_u64; lia).
    destruct F as [A1 A2 A3 A4 A5 A6 [C1 C2 C3 C4 C5 C6] A8 A9]. split.
    + split; try done.
      * cbn. by replace (G + (gas g - given + rest)) with (G + (gas g - given) + rest) by lia.
      * constructor; [apply Hflag|done].
      * lengths.
      * split; try done. cbn. unfold in_u64. lia.
    + cbn. split_and!; [lia|lia|by destruct (bool_decide _)|lia|done].
Qed.

(** ** The instructions that start a run *)

Lemma call_op_ok const s0 G d ro f : 1 <= const -> fine s0 G d ro f -> 7 <= zlen (Frame.stack f) -> Frame.pc f < 2 ^ 62 -> gas f <= N ->
  (static = true -> Stack.Back (Frame.stack f) 2 = Ret 0) -> pwp P (perform (callOp (gasCall ctx) (Call ctx run) const)) (stepped (static := static) (J := J) s0 G d ro f) f.
Proof.
  intros Hc F Hl Hp HN Hz. destruct (Frame.stack f) as [|x [|a [|z [|io [|is' [|xo [|rs st]]]]]]] eqn:Hst; [short..|].
  pose proof (fine_operands _ _ _ _ _ _ F Hst) as Hw. words Hw. apply (callOp_run _ _ _ _ _ _ _ _ x a z io is' xo rs st); try done.
  - intros f1 w F1 Hs1 Hw1. rewrite Hst in Hs1. by eapply charge_call.
  - intros t0 G' d' ro' e c addr input gas' S He Hco Hg Hn Hi HG. eapply (Call_run ctx (N - 1) run Hrun t0 G'); try done; [by apply evm_plain|unfold uint256.word in *; lia|].
    intros Hs. destruct He as [_ _ He _ _]. split; [|auto]. specialize (Hz Hs). by injection Hz.
Qed.

Lemma callCode_op_ok const : 1 <= const -> op_ok (static := static) (P := P) (J := J) N (callOp (gasCallCode ctx) (CallCode ctx run) const).
Proof.
  intros Hc s0 G d ro f F Hl Hp HN _. change (7 <= zlen (Frame.stack f) <= maxStack 7 1) in Hl. destruct (Frame.stack f) as [|x [|a [|z [|io [|is' [|xo [|rs st]]]]]]] eqn:Hst; [short..|].
  apply (callOp_run _ _ _ _ _ _ _ _ x a z io is' xo rs st); try done.
  - intros f1 w F1 Hs1 Hw1. rewrite Hst in Hs1. by eapply charge_callCode.
  - intros t0 G' d' ro' e c addr input gas' S He Hco Hg Hn Hi HG. apply (CallCode_run ctx (N - 1) run Hrun); try done; [by apply evm_plain|apply Hco|apply He].
Qed.

Lemma delegateCall_op_ok const : 1 <= const -> op_ok (static := static) (P := P) (J := J) N (callPlainOp (DelegateCall ctx run) const).
Proof.
  intros Hc. apply callPlainOp_ok; [done|]. intros t0 G' d' ro' e c addr input gas' S He Hco Hg Hn Hi HG.
  apply (DelegateCall_run ctx (N - 1) run Hrun); try done; [by apply evm_plain|apply Hco|apply He].
Qed.

Lemma staticCall_op_ok const : 1 <= const -> op_ok (static := static) (P := P) (J := J) N (callPlainOp (StaticCall ctx run) const).
Proof.
  intros Hc. apply callPlainOp_ok; [done|]. intros t0 G' d' ro' e c addr input gas' S He Hco Hg Hn Hi HG.
  apply (StaticCall_run ctx (N - 1) run Hrun); try done; by apply evm_plain.
Qed.

Lemma creator_Create : static = false -> creator_ok (Create ctx run).
Proof.
  intros Hs s0 G d ro e caller code gas' z S He Hg Hn Hf Hz HG. unfold Create. eapply (onDB_read ctx); [apply peek_Nonce|exact S|by apply evm_plain|]. intros nonce e1 S1 He1 _ Q1.
  eapply pwp_mono; [apply (create_run ctx (N - 1) run Hrun s0 G d ro e1); done|]. intros [[[ret addr] rest] err] e2 (H1 & H2 & H3 & H4 & H5).
  split_and!; try done; try lia. intros E1 E2. eapply nonceOnly_before; [apply Q1|]. by apply H5.
Qed.

Lemma creator_Create2 salt : static = false -> creator_ok (fun caller code gas z => Create2 ctx run caller code gas z salt).
Proof.
  intros Hs s0 G d ro e caller code gas' z S He Hg Hn Hf Hz HG. unfold Create2. apply (create_run ctx (N - 1) run Hrun s0 G d ro e); try done. by apply evm_plain.
Qed.

Definition createOp : operation := with_flags false false true false true (with_gas memoryGasCost (with_memory (memoryAt 1 2) (simple (opCreate ctx run) params.CreateGas 3 1))).
Definition create2Op : operation := with_flags false false true false true (with_gas gasCreate2 (with_memory (memoryAt 1 2) (simple (opCreate2 ctx run) params.Create2Gas 4 1))).

Lemma word_if (b : bool) x : uint256.word x -> uint256.word (if b then 0 else x).
Proof. intros Hx. destruct b; [by apply word_small|done]. Qed.

Lemma createOp_ok : op_ok (static := static) (P := P) (J := J) N createOp.
Proof.
  intros s0 G d ro f F Hl Hp HN Hs. change (3 <= zlen (Frame.stack f) <= maxStack 3 1) in Hl. destruct (Frame.stack f) as [|z [|off [|len st]]] eqn:Hst; [short..|].
  assert (static = false) as Hs' by (destruct static; [by specialize (Hs eq_refl)|done]).
  pose proof (fine_operands _ _ _ _ _ _ F Hst) as Hw. pose proof (fine_room _ _ _ _ _ _ F Hst) as Hr. pose proof (co_gas _ (fi_contract _ _ _ _ _ F)) as Hu. unfold in_u64 in Hu.
  eapply (perform_run ctx createOp J anyCost 0); [done|done|..].
  - intros ms Hms. eapply (memoryAt_sized 1 2 3); [lia|lia|exact Hms|apply F|rewrite Hst; lengths].
  - intros f1 w F1 -> Hw1 _. by apply (charge_memory ctx).
  - intros g cost Fg Hs1 Hpc Hg _ Hcost _ Hcon Hcov. rewrite Hst in Hs1. change (constantGas createOp) with params.CreateGas in *. cbn [memorySize createOp with_flags with_gas with_memory] in Hcov.
    destruct (memoryAt_reached s0 G d ro g 1 2 off len Fg Hcov) as [R _ _ _]; [by rewrite Hs1..|]. destruct (GetCopy_run _ _ _ (fi_memory _ _ _ _ _ Fg) R) as (b & Eb & Hb). words Hw.
    cbn [execute createOp with_flags with_gas with_memory simple]. unfold opCreate. eapply pwp_pop; [exact Hs1|]. do 2 (eapply pwp_pop; [done|]). apply pwp_gets_bind. eapply pwp_lift_bind; [exact Eb|].
    apply (create_exec createOp s0 G d ro f g params.CreateGas cost (Create ctx run) b z (Rules.IsEIP150 rules)
      (fun suberr addr => if match suberr with Some e => if bool_decide (e = ErrCodeStoreOutOfGas) then Rules.IsHomestead rules else true | None => false end then 0 else uint256.SetBytes addr) st);
      try done; try lia; [by apply creator_Create|lengths|unfold uint256.word in *; lia|]. intros. apply word_if, uint256.word_SetBytes.
Qed.

Lemma create2Op_ok : op_ok (static := static) (P := P) (J := J) N create2Op.
Proof.
  intros s0 G d ro f F Hl Hp HN Hs. change (4 <= zlen (Frame.stack f) <= maxStack 4 1) in Hl. destruct (Frame.stack f) as [|z [|off [|len [|salt st]]]] eqn:Hst; [short..|].
  assert (static = false) as Hs' by (destruct static; [by specialize (Hs eq_refl)|done]).
  pose proof (fine_operands _ _ _ _ _ _ F Hst) as Hw. pose proof (fine_room _ _ _ _ _ _ F Hst) as Hr. pose proof (co_gas _ (fi_contract _ _ _ _ _ F)) as Hu. unfold in_u64 in Hu.
  eapply (perform_run ctx create2Op J anyCost 0); [done|done|..].
  - intros ms Hms. eapply (memoryAt_sized 1 2 4); [lia|lia|exact Hms|apply F|rewrite Hst; lengths].
  - intros f1 w F1 -> Hw1 _. apply (charge_words ctx); [done|done|cbn; rewrite Hst; unfold zlen; cbn; lia|lia].
  - intros g cost Fg Hs1 Hpc Hg _ Hcost _ Hcon Hcov. rewrite Hst in Hs1. change (constantGas create2Op) with params.Create2Gas in *. cbn [memorySize create2Op with_flags with_gas with_memory] in Hcov.
    destruct (memoryAt_reached s0 G d ro g 1 2 off len Fg Hcov) as [R _ _ _]; [by rewrite Hs1..|]. destruct (GetCopy_run _ _ _ (fi_memory _ _ _ _ _ Fg) R) as (b & Eb & Hb). words Hw.
    cbn [execute create2Op with_flags with_gas with_memory simple]. unfold opCreate2. eapply pwp_pop; [exact Hs1|]. do 3 (eapply pwp_pop; [done|]). apply pwp_gets_bind. eapply pwp_lift_bind; [exact Eb|].
    apply (create_exec create2Op s0 G d ro f g params.Create2Gas cost (fun caller code gas z => Create2 ctx run caller code gas z salt) b z true
      (fun suberr addr => if bool_decide (suberr = None) then uint256.SetBytes addr else 0) st);
      try done; try lia; [by apply creator_Create2|lengths|unfold uint256.word in *; lia|]. intros err addr. destruct (bool_decide _); [apply uint256.word_SetBytes|by apply word_small].
Qed.
End Table.
