(* ===== verification/EvmLoop.v ===== *)
(** * The loop of the interpreter

    Every operation that a table has keeps the invariant of a running call, a round
    of the loop takes gas or ends the call, and so the loop comes to an end when
    there is more fuel than gas. *)

From S2P Require Import Prelude GoStd Effects StateDB StateRevert StateSafety EvmData EvmOps EvmState EvmWords EvmJump EvmFrame EvmStep EvmCalls EvmTable.
Import state vm OpCode.

(** ** Opcodes *)

Definition valid (op : OpCode.t) : bool :=
  match op with
  | PUSH n => (1 <=? n) && (n <=? 32)
  | DUP n | SWAP n => (1 <=? n) && (n <=? 16)
  | LOG n => (0 <=? n) && (n <=? 4)
  | _ => true
  end.

Lemma decode_valid b op : 0 <= b < 256 -> decode b = Some op -> valid op = true.
Proof.
  intros Hb Hd. assert (Forall (fun b => match decode b with Some op => valid op = true | None => True end) (seqZ 0 256)) as H.
  { apply Forall_forall. intros x Hx. assert (forallb (fun b => match decode b with Some op => valid op | None => true end) (seqZ 0 256) = true) as H by (vm_compute; done).
    rewrite forallb_forall in H. specialize (H x (proj1 (list_elem_of_In _ _) Hx)). by destruct (decode x). }
  rewrite Forall_forall in H. specialize (H b). rewrite Hd in H. apply H, elem_of_seqZ. lia.
Qed.

Section Loop.
Context {L : StateLib} {HL : StateLaws L} {HT : TrieLaws L} {V : EvmLib} {HV : EvmLaws V} (ctx : Context.t).
Abbreviation rules := (Context.chainRules ctx).
Context {static : bool} {P : string -> Prop} {J : Z -> StateDB.t -> Prop} {K : bytes -> bytes -> bytes -> Z -> StateDB.t -> Prop}.
Context {HK : Keeps rules static P J K}.
(** The limit of gas of a block is a machine word. *)
Hypothesis Hlimit : in_u64 (Context.GasLimit ctx).
Abbreviation fine := (fineOf (static := static) J).
Abbreviation ended := (ended (static := static) (J := J)).
Abbreviation exec_ok := (exec_ok (static := static) (P := P) (J := J)).
Abbreviation op_ok := (op_ok (static := static) (P := P) (J := J)).
Abbreviation stepped := (stepped (static := static) (J := J)).
Abbreviation gas f := (Contract.Gas (Frame.contract f)).
Implicit Types (f g : Frame.t) (e : EVM.t) (c : Contract.t) (s : StateDB.t) (G d size cost w : Z) (ro : bool).

(** ** The tables *)

Section Tables.
Context (N : Z) (run : Contract.t -> bytes -> bool -> ST EVM.t (bytes * option vmError * Contract.t)).
Hypothesis Hrun : run_ok (static := static) (P := P) (J := J) (N - 1) run.

Definition entry_ok (op : OpCode.t) (o : operation) : Prop :=
  match op with CALL => exists const, 1 <= const /\ o = callOp (gasCall ctx) (Call ctx run) const | _ => op_ok N o end.

(** An operation with memory: [dg] costs at least [least]. *)
Lemma memory_ok m const pops push dg ms least (h rv rt : bool) : exec_ok m pops push (Some ms) -> sized (Some ms) pops -> 0 <= const -> 0 <= least -> (h || rv = true \/ 1 <= const + least) ->
  (forall s0 G d ro f w, fine s0 G d ro f -> pops <= zlen (Frame.stack f) -> 0 <= w <= 2 ^ 59 -> pwp P (dg (32 * w)) (charged (static := static) J anyCost least s0 G d ro f w) f) ->
  op_ok N (with_flags h false false rv rt (with_gas dg (with_memory ms (simple m const pops push)))).
Proof.
  intros He Hs Hc Hl Hpos Hdg. apply (plain_ok ctx N _ pops push least); try done; [by right|]. intros s0 G d ro f w F Hlen Hw _. by apply Hdg.
Qed.

Lemma memory0_ok m const pops push dg ms least : exec_ok m pops push (Some ms) -> sized (Some ms) pops -> 1 <= const -> 0 <= least ->
  (forall s0 G d ro f w, fine s0 G d ro f -> pops <= zlen (Frame.stack f) -> 0 <= w <= 2 ^ 59 -> pwp P (dg (32 * w)) (charged (static := static) J anyCost least s0 G d ro f w) f) ->
  op_ok N (with_gas dg (with_memory ms (simple m const pops push))).
Proof. intros He Hs Hc Hl Hdg. exact (memory_ok m const pops push dg ms least false false false He Hs ltac:(lia) Hl ltac:(right; lia) Hdg). Qed.

Lemma exp_ok per : 0 <= per <= 50 -> op_ok N (with_gas (gasExp per) (simple (opBinary uint256.Exp) 0 2 1)).
Proof.
  intros Hper. apply (plain_ok ctx N _ 2 1 params.ExpGas); try done; [right; apply opBinary_ok; apply uint256.words2; set_solver| |by right].
  intros s0 G d ro f w F Hlen Hw Hn. rewrite (Hn eq_refl). by apply (charge_exp ctx).
Qed.

Lemma stop_ok : op_ok N (with_flags true false false false false (simple next 0 0 0)).
Proof. apply (plain_ok ctx N _ 0 0 0); try done; [right; apply next_ok|by left]. Qed.

Lemma flagged_ok m z pops : exec_ok m pops 0 None -> 1 <= z -> op_ok N (with_flags false true false false false (simple m z pops 0)).
Proof. intros He Hz. apply (plain_ok ctx N _ pops 0 0); try done; [by right|cbn; lia|right; cbn; lia]. Qed.

Lemma writing_ok (o : operation) : writes o = true -> (static = false -> op_ok N o) -> op_ok N o.
Proof. intros Hw Ho s0 G d ro f F Hl Hp HN Hs. destruct static; [by rewrite Hs in Hw|by apply Ho]. Qed.

Lemma log_ok n : 0 <= n <= 4 -> op_ok N (with_flags false false true false false (with_gas (makeGasLog n) (with_memory (memoryAt 0 1) (simple (makeLog ctx n) 0 (n + 2) 0)))).
Proof.
  intros Hn. apply (plain_ok ctx N _ (n + 2) 0 params.LogGas); try done.
  - by left.
  - intros _ Hs. exact (makeLog_ok ctx n Hs Hn).
  - apply memoryAt_sized; lia.
  - intros s0 G d ro f w F Hlen Hw _. apply (charge_log ctx); try done. lia.
  - by right.
Qed.

Ltac listed := apply list_elem_of_In; cbn; tauto.
Ltac entry_words :=
  intros; cbv beta; match goal with
  | |- uint256.word (isTrue ?b) => unfold isTrue; destruct b; by apply word_small
  | |- uint256.word (uint256.SetBytes _) => apply uint256.word_SetBytes
  | |- uint256.word (uint256.FromBig _) => apply uint256.word_FromBig
  | |- uint256.word (uint256.Not _) => by apply uint256.word_Not
  | |- uint256.word (uint256.MulMod _ _ _) => apply uint256.words3; [listed|done..]
  | |- uint256.word _ => apply uint256.words2; [listed|done..]
  end.
Ltac entry :=
  match goal with
  | |- EvmStep.op_ok _ (simple (opBinary _) _ _ _) => apply (simple_ok ctx); [apply opBinary_ok; entry_words|done]
  | |- EvmStep.op_ok _ (simple (opUnary _) _ _ _) => apply (simple_ok ctx); [apply opUnary_ok; entry_words|done]
  | |- EvmStep.op_ok _ (simple (opConst _) _ _ _) => apply (simple_ok ctx); [apply opConst_ok; entry_words|done]
  end.

Lemma push_ok (g : Frame.t -> Z) z : (forall s0 G d ro f, fine s0 G d ro f -> 0 <= g f < 2 ^ 64) -> 1 <= z -> op_ok N (simple (opPushWord g) z 0 1).
Proof. intros Hg Hz. apply (simple_ok ctx); [|done]. apply opPushWord_ok. intros s0 G d ro f F. specialize (Hg _ _ _ _ _ F). unfold uint256.word. lia. Qed.

Lemma pushBytes_ok (g : Frame.t -> bytes) z : 1 <= z -> op_ok N (simple (opPushWord (fun f => uint256.SetBytes (g f))) z 0 1).
Proof. intros Hz. apply (simple_ok ctx); [|done]. apply opPushWord_ok. intros. apply uint256.word_SetBytes. Qed.

Lemma copy_ok (g : Contract.t -> bytes) : (forall c, contract_ok c -> fits (g c)) -> op_ok N (with_gas (memoryCopierGas 2) (with_memory (memoryAt 0 2) (simple (opCopy (contract g)) params.GasFastestStep 3 0))).
Proof.
  intros Hg. apply (memory0_ok _ _ _ _ _ _ 0); [by apply opCopy_ok|by apply memoryAt_sized|done|done|]. intros s0 G d ro f w F Hl Hw. apply (charge_words ctx); lia || done.
Qed.

Lemma read_ok {A} (m : Z -> M A) v (g : A -> Z) z : (forall x, peeks (m x) (v x)) -> (forall y, uint256.word (g y)) -> 1 <= z ->
  op_ok N (simple (x ← peek; y ← onEVM (onDB (m x)); poke (g y);; next) z 1 1).
Proof. intros Hm Hg Hz. apply (simple_ok ctx); [|done]. by eapply (read_top ctx). Qed.

(** The memory is all that costs besides the constant. *)
Lemma plainMemory_ok m const pops push ms (h rv rt : bool) : exec_ok m pops push (Some ms) -> sized (Some ms) pops -> 0 <= const -> (h || rv = true \/ 1 <= const) ->
  op_ok N (with_flags h false false rv rt (with_gas memoryGasCost (with_memory ms (simple m const pops push)))).
Proof. intros He Hs Hc Hpos. apply (memory_ok _ _ _ _ _ _ 0); try done; [by rewrite Z.add_0_r|]. intros s0 G d ro f w F Hl Hw. by apply (charge_memory ctx). Qed.

Lemma plainMemory0_ok m const pops push ms : exec_ok m pops push (Some ms) -> sized (Some ms) pops -> 1 <= const ->
  op_ok N (with_gas memoryGasCost (with_memory ms (simple m const pops push))).
Proof. intros He Hs Hc. exact (plainMemory_ok m const pops push ms false false false He Hs ltac:(lia) ltac:(right; lia)). Qed.

Lemma newFrontier_ok op o : valid op = true -> newFrontierInstructionSet ctx run op = Some o -> entry_ok op o.
Proof.
  intros Hv Ho. destruct op; try discriminate Ho; injection Ho as <-; cbn [entry_ok valid] in Hv |- *; try entry.
  - exact stop_ok.
  - apply (simple_ok ctx); [apply opTernary_ok|done]. intros x y z Hx Hy Hz. apply word_if. apply uint256.words3; [listed|done..].
  - apply (simple_ok ctx); [apply opTernary_ok|done]. entry_words.
  - by apply exp_ok.
  - apply (memory0_ok _ _ _ _ _ _ 0); [exact (opSha3_ok ctx)|by apply memoryAt_sized|done|done|]. intros s0 G d ro f w F Hl Hw. apply (charge_words ctx); lia || done.
  - by apply pushBytes_ok.
  - eapply (read_ok (fun x => GetBalance (toAddress x))); [intros; apply peek_Balance|intros; apply uint256.word_FromBig|done].
  - by apply pushBytes_ok.
  - apply (simple_ok ctx); [apply opCallValue_ok|done].
  - apply (simple_ok ctx); [apply opCallDataLoad_ok|done].
  - apply push_ok; [|done]. intros s0 G d ro f F. pose proof (co_input _ (fi_contract _ _ _ _ _ F)). unfold fits in *. pose proof (zlen_nonneg (Contract.Input (Frame.contract f))). lia.
  - apply copy_ok. by intros c [].
  - apply push_ok; [|done]. intros s0 G d ro f F. pose proof (co_code _ (fi_contract _ _ _ _ _ F)). unfold fits in *. pose proof (zlen_nonneg (Contract.Code (Frame.contract f))). lia.
  - apply copy_ok. by intros c [].
  - eapply (read_ok (fun x => GetCodeSize (toAddress x))); [intros; apply peek_CodeSize|intros; pose proof (u64_range y); unfold in_u64, two64, uint256.word in *; lia|done].
  - apply (memory0_ok _ _ _ _ _ _ 0); [exact (opExtCodeCopy_ok ctx)|by apply memoryAt_sized|done|done|]. intros s0 G d ro f w F Hl Hw. apply (charge_words ctx); lia || done.
  - apply (simple_ok ctx); [apply opBlockhash_ok|done].
  - apply (simple_ok ctx); [apply opConst_ok|done]. unfold in_u64, two64, uint256.word in *. lia.
  - apply (simple_ok ctx); [apply pop_ok|done].
  - apply plainMemory0_ok; [apply opMload_ok|by apply memoryFixed_sized|done].
  - apply plainMemory0_ok; [apply opMstore_ok|by apply memoryFixed_sized|done].
  - apply plainMemory0_ok; [apply opMstore8_ok|by apply memoryFixed_sized|done].
  - apply (simple_ok ctx); [exact (opSload_ok ctx)|done].
  - apply writing_ok; [done|]. intros Hs. apply (sstore_ok ctx); [done|by left].
  - apply flagged_ok; [apply opJump_ok|done].
  - apply flagged_ok; [apply opJumpi_ok|done].
  - apply push_ok; [|done]. intros s0 G d ro f F. pose proof (fi_pc _ _ _ _ _ F). lia.
  - apply push_ok; [|done]. intros s0 G d ro f F. pose proof (mem_len _ (fi_memory _ _ _ _ _ F)). lia.
  - apply push_ok; [|done]. intros s0 G d ro f F. apply (co_gas _ (fi_contract _ _ _ _ _ F)).
  - apply (simple_ok ctx); [apply next_ok|done].
  - apply (simple_ok ctx); [|done]. destruct (Z.eqb_spec n 1); [apply opPush1_ok|apply makePush_ok; lia].
  - apply (simple_ok ctx); [apply makeDup_ok; lia|done].
  - apply (simple_ok ctx); [apply makeSwap_ok; lia|done].
  - apply log_ok. lia.
  - exact (createOp_ok ctx N run Hrun).
  - by exists params.CallGasFrontier.
  - by apply (callCode_op_ok ctx N run Hrun).
  - apply plainMemory_ok; [apply opReturn_ok|by apply memoryAt_sized|done|by left].
  - apply writing_ok; [done|]. intros Hs. by apply (selfdestruct_ok ctx).
Qed.

Lemma newHomestead_ok op o : valid op = true -> newHomesteadInstructionSet ctx run op = Some o -> entry_ok op o.
Proof.
  intros Hv Ho. destruct op; try exact (newFrontier_ok _ _ Hv Ho). injection Ho as <-. by apply (delegateCall_op_ok ctx N run Hrun).
Qed.

Lemma newTangerineWhistle_ok op o : valid op = true -> newTangerineWhistleInstructionSet ctx run op = Some o -> entry_ok op o.
Proof.
  intros Hv Ho. destruct op; try exact (newHomestead_ok _ _ Hv Ho); injection Ho as <-; cbn [entry_ok].
  - eapply (read_ok (fun x => GetBalance (toAddress x)) _ _ params.BalanceGasEIP150); [intros; apply peek_Balance|intros; apply uint256.word_FromBig|done].
  - eapply (read_ok (fun x => GetCodeSize (toAddress x)) _ _ params.ExtcodeSizeGasEIP150); [intros; apply peek_CodeSize|intros; pose proof (u64_range y); unfold in_u64, two64, uint256.word in *; lia|done].
  - apply (memory0_ok _ params.ExtcodeCopyBaseEIP150 4 0 _ _ 0); [exact (opExtCodeCopy_ok ctx)|by apply memoryAt_sized|done|done|]. intros s0 G d ro f w F Hl Hw. apply (charge_words ctx); lia || done.
  - apply (simple_ok ctx _ _ params.SloadGasEIP150); [exact (opSload_ok ctx)|done].
  - by exists params.CallGasEIP150.
  - by apply (callCode_op_ok ctx N run Hrun params.CallGasEIP150).
  - by apply (delegateCall_op_ok ctx N run Hrun params.CallGasEIP150).
Qed.

Lemma newSpuriousDragon_ok op o : valid op = true -> newSpuriousDragonInstructionSet ctx run op = Some o -> entry_ok op o.
Proof.
  intros Hv Ho. destruct op; try exact (newTangerineWhistle_ok _ _ Hv Ho). injection Ho as <-. by apply (exp_ok params.ExpByteEIP158).
Qed.

Lemma newByzantium_ok op o : valid op = true -> newByzantiumInstructionSet ctx run op = Some o -> entry_ok op o.
Proof.
  intros Hv Ho. destruct op; try exact (newSpuriousDragon_ok _ _ Hv Ho); injection Ho as <-; cbn [entry_ok].
  - apply push_ok; [|done]. intros s0 G d ro f F. pose proof (eo_data _ _ _ (fi_evm _ _ _ _ _ F)). unfold fits in *. pose proof (zlen_nonneg (EVM.returnData (Frame.evm f))). lia.
  - apply (memory0_ok _ _ _ _ _ _ 0); [apply opReturnDataCopy_ok|by apply memoryAt_sized|done|done|]. intros s0 G d ro f w F Hl Hw. apply (charge_words ctx); lia || done.
  - by apply (staticCall_op_ok ctx N run Hrun params.CallGasEIP150).
  - apply plainMemory_ok; [apply opReturn_ok|by apply memoryAt_sized|done|by left].
Qed.

Lemma newConstantinople_ok op o : valid op = true -> newConstantinopleInstructionSet ctx run op = Some o -> entry_ok op o.
Proof.
  intros Hv Ho. destruct op; try exact (newByzantium_ok _ _ Hv Ho); injection Ho as <-; cbn [entry_ok].
  - apply (simple_ok ctx); [apply opBinary_ok|done]. intros x y Hx Hy. destruct (_ <? _); [apply uint256.words_shift; [listed|done]|by apply word_small].
  - apply (simple_ok ctx); [apply opBinary_ok|done]. intros x y Hx Hy. destruct (_ <? _); [apply uint256.words_shift; [listed|done]|by apply word_small].
  - apply (simple_ok ctx); [apply opBinary_ok|done]. intros x y Hx Hy. destruct (_ <? _); [destruct (_ <=? _); [by apply word_small|apply uint256.word_AllOne]|apply uint256.words_shift; [listed|done]].
  - apply (simple_ok ctx); [exact (opExtCodeHash_ok ctx)|done].
  - exact (create2Op_ok ctx N run Hrun).
Qed.

Lemma newIstanbul_ok op o : valid op = true -> newIstanbulInstructionSet ctx run op = Some o -> entry_ok op o.
Proof.
  intros Hv Ho. destruct op; try exact (newConstantinople_ok _ _ Hv Ho); injection Ho as <-; cbn [entry_ok]; try entry.
  - eapply (read_ok (fun x => GetBalance (toAddress x)) _ _ params.BalanceGasEIP1884); [intros; apply peek_Balance|intros; apply uint256.word_FromBig|done].
  - apply (simple_ok ctx _ _ params.ExtcodeHashGasEIP1884); [exact (opExtCodeHash_ok ctx)|done].
  - apply (simple_ok ctx); [exact (opSelfBalance_ok ctx)|done].
  - apply (simple_ok ctx _ _ params.SloadGasEIP2200); [exact (opSload_ok ctx)|done].
  - apply writing_ok; [done|]. intros Hs. apply (sstore_ok ctx N gasSStoreEIP2200); [done|by right].
Qed.

Lemma newYoloV1_ok op o : valid op = true -> newYoloV1InstructionSet ctx run op = Some o -> entry_ok op o.
Proof.
  intros Hv Ho. destruct op; try exact (newIstanbul_ok _ _ Hv Ho); injection Ho as <-; cbn [entry_ok].
  - apply (simple_ok ctx); [apply opBeginSub_ok|done].
  - apply flagged_ok; [apply opReturnSub_ok|done].
  - apply flagged_ok; [apply opJumpSub_ok|done].
Qed.

Lemma jumpTable_ok op o : valid op = true -> jumpTable ctx run op = Some o -> entry_ok op o.
Proof.
  intros Hv. unfold jumpTable.
  repeat case_match; [apply newYoloV1_ok|apply newIstanbul_ok|apply newConstantinople_ok|apply newByzantium_ok|apply newSpuriousDragon_ok|apply newTangerineWhistle_ok|apply newHomestead_ok|apply newFrontier_ok]; done.
Qed.

(** ** One round *)

(** Static calls only exist after Byzantium. *)
Hypothesis Hbyz : static = true -> Rules.IsByzantium rules = true.

Lemma GetByte_range c n : 0 <= Contract.GetByte c n < 256.
Proof. unfold Contract.GetByte. destruct (_ !! _); [apply byte_Z_range|lia]. Qed.

(** Behind the code there is [STOP]. *)
Lemma GetByte_behind c n : 0 <= n -> zlen (Contract.Code c) <= n -> Contract.GetByte c n = 0.
Proof. intros Hn Hl. unfold Contract.GetByte. rewrite lookup_ge_None_2; [done|]. unfold zlen in Hl. lia. Qed.

Lemma jumpTable_STOP : jumpTable ctx run STOP = Some (with_flags true false false false false (simple next 0 0 0)).
Proof. unfold jumpTable. by repeat case_match. Qed.

Lemma fine_steps s0 G d ro f n : fine s0 G d ro f -> fine s0 G d ro (Frame.set_steps f n).
Proof. intros []. by split. Qed.

Lemma aborted_run s0 G d ro f : fine s0 G d ro f ->
  pwp P aborted (fun _ g => fine s0 G d ro g /\ Frame.contract g = Frame.contract f /\ Frame.pc g = Frame.pc f /\ Frame.stack g = Frame.stack f) f.
Proof.
  intros F. unfold aborted. apply pwp_modify_bind, pwp_gets_bind. destruct (negb _); [apply pwp_ret; by split; [apply fine_steps|]|].
  apply pwp_gets_bind, pwp_bind, pwp_onEVM, pwp_modify, pwp_ret. split; [|done]. apply fine_evm; [by apply fine_steps|apply F|]. destruct (fi_evm _ _ _ _ _ F) as [E1 E2 E3 E4 E5]. by split.
Qed.

(** What may be written in a static call: nothing. *)
Lemma protected_run s0 G d ro f op o : fine s0 G d ro f -> 3 <= zlen (Frame.stack f) \/ op <> CALL ->
  pwp P (protected ctx op o) (fun r g => g = f /\ (r = false -> static = true -> writes o = false /\ (op = CALL -> Stack.Back (Frame.stack f) 2 = Ret 0))) f.
Proof.
  intros F Hl. unfold protected. apply pwp_gets_bind. destruct (fi_evm _ _ _ _ _ F) as [_ -> Hst _ _].
  destruct (ro && Rules.IsByzantium rules) eqn:Er.
  - destruct (writes o); [by apply pwp_ret|]. destruct op; try (by apply pwp_ret). destruct Hl as [Hl|?]; [|done]. destruct (back_in _ _ _ _ _ 2 F) as (v & Hv & Wv); [lia|].
    eapply pwp_Back; [exact Hv|]. apply pwp_ret. split; [done|]. rewrite uint256.Sign_eq by done. intros Hz%negb_false_iff%Z.eqb_eq _. split; [done|]. intros _. by rewrite Hv, Hz.
  - apply pwp_ret. split; [done|]. intros _ Hs. by rewrite (Hst Hs), (Hbyz Hs) in Er.
Qed.

Lemma stop_run s0 G d ro f : fine s0 G d ro f -> pwp P (perform (with_flags true false false false false (simple next 0 0 0))) (stepped s0 G d ro f) f.
Proof.
  intros F. unfold perform. pose proof (co_gas _ (fi_contract _ _ _ _ _ F)) as Hg. unfold in_u64 in Hg. cbn [constantGas with_flags simple]. apply pwp_UseGas; [lia|]. intros _. cbn [negb].
  apply pwp_bind, pwp_ret, pwp_bind, pwp_ret. cbn [negb]. apply pwp_bind. cbn [Z.ltb]. apply pwp_ret, pwp_bind, pwp_ret. cbn [returns with_flags].
  apply pwp_bind, pwp_ret. cbn. split; [|lia]. apply fine_ended; [apply (fine_gas ctx); [done|lia]|done|done].
Qed.

Lemma step_run s0 G d ro f : fine s0 G d ro f -> gas f <= N -> pwp P (step ctx run) (stepped s0 G d ro f) f.
Proof.
  intros F HN. apply pwp_bind. eapply pwp_mono; [exact (aborted_run _ _ _ _ _ F)|]. intros stop g (Fg & Hc & Hpc & Hst).
  assert (forall r h, stepped s0 G d ro g r h -> stepped s0 G d ro f r h) as Hmono by (unfold EvmStep.stepped; by rewrite Hc).
  destruct stop; [apply pwp_ret; split; [by apply fine_ended|by rewrite Hc]|]. rewrite <- Hc in HN. eapply pwp_mono; [|exact Hmono]. clear f F Hc Hpc Hst Hmono. rename g into f, Fg into F.
  apply pwp_gets_bind. set (b := Contract.GetByte _ _). destruct (decode b) as [op|] eqn:Ed; cbn [mbind option_bind]; [|by apply halt_run].
  destruct (jumpTable ctx run op) as [o|] eqn:Ej; [|by apply halt_run]. cbn [mbind option_bind].
  apply pwp_gets_bind. destruct (Z.ltb_spec (zlen (Frame.stack f)) (op_minStack o)); [by apply halt_run|]. destruct (Z.ltb_spec (op_maxStack o) (zlen (Frame.stack f))); [by apply halt_run|].
  pose proof (decode_valid b op (GetByte_range _ _) Ed) as Hv. pose proof (jumpTable_ok op o Hv Ej) as Ho.
  apply pwp_bind. eapply pwp_mono; [apply (protected_run s0 G d ro f op o F)|].
  { destruct op; try (by right). left. destruct Ho as (const & _ & ->). change (7 <= zlen (Frame.stack f)) in H. lia. }
  intros [] g [-> Hp]; [by apply halt_run|]. specialize (Hp eq_refl).
  destruct (Z.lt_ge_cases (Frame.pc f) (zlen (Contract.Code (Frame.contract f)))) as [Hpc|Hpc].
  - pose proof (co_code _ (fi_contract _ _ _ _ _ F)) as Hfit. unfold fits in Hfit.
    destruct op; try (apply Ho; [done|done|lia|done|apply Hp]). destruct Ho as (const & Hk & ->). apply (call_op_ok ctx N run Hrun); try done; [lia|]. intros Hs. by apply Hp.
  - assert (b = 0) as Hb by (apply GetByte_behind; [apply F|done]). rewrite Hb in Ed. injection Ed as <-. rewrite jumpTable_STOP in Ej. injection Ej as <-. by apply stop_run.
Qed.
End Tables.

(** ** The loop *)

Hypothesis Hbyz : static = true -> Rules.IsByzantium rules = true.

Definition loop_ok (N : Z) (loop : ST Frame.t (slice * option vmError)) : Prop :=
  forall s0 G d ro f, fine s0 G d ro f -> gas f <= N -> pwp P loop (fun r g => ended s0 G d ro g r.1 r.2 /\ gas g <= gas f) f.

(** Around the loop: the depth and the flag are as before. *)
Lemma Run_ok N loop : loop_ok N loop -> run_ok (static := static) (P := P) (J := J) N (Run loop).
Proof.
  intros Hloop s0 G d ro e c input readOnly S He Hc Hi HN Hro HG. unfold Run. apply pwp_modify_bind, pwp_gets_bind. cbn [EVM.readOnly EVM.set_depth]. destruct He as [E1 E2 _ E4 E5]. rewrite E2.
  set (inner := ro || readOnly). apply pwp_bind. apply (pwp_mono _ _ (fun _ e1 => session (J := J) s0 (G + Contract.Gas c) (EVM.StateDB e1) /\ evm_ok (static := static) (d + 1) inner e1)).
  { apply pwp_when; intros Hr; [apply pwp_modify|]; (split; [done|split; try done; cbn; rewrite ?E1; try done; unfold inner]).
    - destruct readOnly; [by rewrite orb_true_r|done].
    - intros _. destruct readOnly; [by rewrite orb_true_r|done].
    - rewrite E2. destruct ro, readOnly; done.
    - intros Hs. specialize (Hro Hs). destruct ro, readOnly; try done; by apply Hro. }
  intros [] e1 [S1 [F1 F2 F3 F4 F5]]. apply pwp_modify_bind. apply pwp_bind. set (e2 := EVM.set_returnData e1 []).
  assert (evm_ok (static := static) (d + 1) inner e2) as He2 by (by split).
  apply (pwp_mono _ _ (ran (J := J) s0 G (d + 1) inner c)).
  { case_bool_decide.
    - apply pwp_ret. pose proof (co_gas _ Hc) as [Hg _]. split; [apply S1|]. split; [intros _; apply S1|]. by split_and!.
    - set (f := Frame.mk L e2 Memory.NewMemory [] [] (Contract.set_Input c input) 0 0). assert (fine s0 G (d + 1) inner f) as F.
      { destruct Hc as [C1 C2 C3 C4 C5 C6]. split; try done; by exists 0. }
      specialize (Hloop _ _ _ _ f F HN). unfold pwp in *. cbv beta. fold f. destruct (loop f) as [[[res err] g]|why]; cbn; [|done]. destruct Hloop as [[N1 N2 N3 N4 N5 N6] Hg]. cbn in *. unfold in_u64 in N4.
      split; [done|]. split; [done|]. split_and!; try done; try lia; by destruct N3. }
  intros [[ret err] c'] e3 (R1 & R2 & [R31 R32 _ R34 R35] & R4 & R5 & R6). apply pwp_bind.
  apply (pwp_mono _ _ (fun _ e4 => EVM.StateDB e4 = EVM.StateDB e3 /\ evm_ok (static := false) (d + 1) ro e4)).
  { apply pwp_when; intros Hr; [apply pwp_modify|]; (split; [done|split; try done]); cbn; [by destruct ro, readOnly|rewrite R32; unfold inner; by destruct ro, readOnly]. }
  intros [] e4 [E [H1 H2 _ H4 H5]]. apply pwp_modify_bind, pwp_ret. unfold ran. cbn [EVM.StateDB EVM.set_depth]. rewrite E. split_and!; try done; try lia. split; try done. cbn. lia.
Qed.

(** The loop ends when there is more fuel than gas. *)
Lemma interpret_ok n : loop_ok (Z.of_nat n - 1) (interpret ctx n).
Proof.
  induction n as [|n IH]; intros s0 G d ro f F Hg; pose proof (co_gas _ (fi_contract _ _ _ _ _ F)) as Hu; unfold in_u64 in Hu; [lia|]. cbn [interpret].
  apply pwp_bind. eapply pwp_mono; [apply (step_run (Z.of_nat n) (Run (interpret ctx n)) (Run_ok _ _ IH) Hbyz s0 G d ro f F); lia|].
  intros [[res err]|] g; [by intros H; apply pwp_ret|]. intros [Fg Hlt]. eapply pwp_mono; [apply (IH s0 G d ro g Fg); lia|]. intros r h [He Hh]. split; [done|lia].
Qed.

Lemma run_run fuel : run_ok (static := static) (P := P) (J := J) (Z.of_nat fuel - 1) (run ctx fuel).
Proof. apply Run_ok, interpret_ok. Qed.
End Loop.
