(* ===== verification/EvmFuel.v ===== *)
(** * Fuel does not matter

    The loop of the model has fuel that the program does not have.  More fuel never
    changes a result: what the calls and the instructions return is monotone in
    the runs that they start. *)

From S2P Require Import Prelude GoStd Effects StateDB EvmData EvmOps.
Import state vm OpCode.

(** [m'] returns what [m] returns, when that returns. *)
Definition refines {S A} (m m' : ST S A) : Prop := forall s r, m s = Ret r -> m' s = Ret r.

Lemma refines_refl {S A} (m : ST S A) : refines m m.
Proof. by intros s r. Qed.

Lemma refines_bind {S A B} (m m' : ST S A) (k k' : A -> ST S B) : refines m m' -> (forall x, refines (k x) (k' x)) -> refines (m ≫= k) (m' ≫= k').
Proof.
  intros Hm Hk s r. unfold mbind, ST_bind. destruct (m s) as [[x t]|] eqn:E1; [|done]. rewrite (Hm _ _ E1). cbn. apply Hk.
Qed.

(** Goes through binds and the cases of both sides together. *)
Ltac refine1 := match goal with
  | |- refines ?m ?n => constr_eq m n; apply refines_refl
  | |- refines (_ ≫= _) (_ ≫= _) => apply refines_bind; [|intros ?]
  | |- refines (match ?x with _ => _ end) (match ?x with _ => _ end) => destruct x
  | |- refines (let _ := _ in _) _ => cbv zeta
  end.

Section Fuel.
Context {L : StateLib} {V : EvmLib} (ctx : Context.t).
Abbreviation runner := (Contract.t -> bytes -> bool -> ST EVM.t (bytes * option vmError * Contract.t)).
Implicit Types (r : runner).

Definition runs_refine r r' : Prop := forall c input ro, refines (r c input ro) (r' c input ro).

Lemma refines_onEVM {A} (m m' : ST EVM.t A) : refines m m' -> refines (onEVM m) (onEVM m').
Proof. intros Hm f x. unfold onEVM. destruct (m (Frame.evm f)) as [[y t]|] eqn:E1; [|done]. by rewrite (Hm _ _ E1). Qed.

(** ** Calls *)

Section Calls.
Context r r' (Hr : runs_refine r r').

Lemma runCode_refines c addr input ro : refines (runCode r c addr input ro) (runCode r' c addr input ro).
Proof. unfold runCode. repeat first [apply Hr|refine1]. Qed.

Lemma Call_refines caller addr input gas z : refines (Call ctx r caller addr input gas z) (Call ctx r' caller addr input gas z).
Proof. unfold Call, atDepth, enter. repeat first [apply Hr|refine1]. Qed.

Lemma CallCode_refines caller addr input gas z : refines (CallCode ctx r caller addr input gas z) (CallCode ctx r' caller addr input gas z).
Proof. unfold CallCode, atDepth. repeat first [apply runCode_refines|refine1]. Qed.

Lemma DelegateCall_refines caller addr input gas : refines (DelegateCall ctx r caller addr input gas) (DelegateCall ctx r' caller addr input gas).
Proof. unfold DelegateCall, atDepth. repeat first [apply runCode_refines|refine1]. Qed.

Lemma StaticCall_refines caller addr input gas : refines (StaticCall ctx r caller addr input gas) (StaticCall ctx r' caller addr input gas).
Proof. unfold StaticCall, atDepth. repeat first [apply runCode_refines|refine1]. Qed.

Lemma create_refines caller code hash gas z addr : refines (create ctx r caller code hash gas z addr) (create ctx r' caller code hash gas z addr).
Proof. unfold create. repeat first [apply Hr|refine1]. Qed.

(** ** Instructions *)

Record op_refines (o o' : operation) : Prop := {
  or_execute : refines (execute o) (execute o');
  or_rest : o' = mkOperation (execute o') (constantGas o) (dynamicGas o) (op_minStack o) (op_maxStack o) (memorySize o) (halts o) (jumps o) (writes o) (reverts o) (returns o)
}.

Definition entries_refine (o o' : option operation) : Prop := option_Forall2 op_refines o o'.

Lemma op_refines_refl o : op_refines o o.
Proof. split; [apply refines_refl|by destruct o]. Qed.

Lemma entries_same o o' : o = o' -> entries_refine o o'.
Proof. intros <-. destruct o; constructor. apply op_refines_refl. Qed.

Lemma opCreate_refines : refines (opCreate ctx r) (opCreate ctx r').
Proof. unfold opCreate, Create. repeat first [apply refines_onEVM|apply create_refines|refine1]. Qed.

Lemma opCreate2_refines : refines (opCreate2 ctx r) (opCreate2 ctx r').
Proof. unfold opCreate2, Create2. repeat first [apply refines_onEVM|apply create_refines|refine1]. Qed.

Lemma opCallValued_refines call call' : (forall caller addr input gas z, refines (call caller addr input gas z) (call' caller addr input gas z)) -> refines (opCallValued call) (opCallValued call').
Proof. intros H. unfold opCallValued. repeat first [apply refines_onEVM; apply H|refine1]. Qed.

Lemma opCallPlain_refines call call' : (forall caller addr input gas, refines (call caller addr input gas) (call' caller addr input gas)) -> refines (opCallPlain call) (opCallPlain call').
Proof. intros H. unfold opCallPlain. repeat first [apply refines_onEVM; apply H|refine1]. Qed.

Ltac entries := match goal with |- entries_refine ?a ?b => constr_eq a b; by apply entries_same end.

Lemma newFrontier_refines op : entries_refine (newFrontierInstructionSet ctx r op) (newFrontierInstructionSet ctx r' op).
Proof.
  destruct op; cbn [newFrontierInstructionSet]; try entries; constructor; (split; [|done]).
  - apply opCreate_refines.
  - apply opCallValued_refines, Call_refines.
  - apply opCallValued_refines, CallCode_refines.
Qed.

Lemma reprice_refines gas o o' : entries_refine o o' -> entries_refine (reprice gas <$> o) (reprice gas <$> o').
Proof. intros [x y [H1 H2]|]; constructor. rewrite H2. by split. Qed.

Lemma with_gas_refines dg o o' : entries_refine o o' -> entries_refine (with_gas dg <$> o) (with_gas dg <$> o').
Proof. intros [x y [H1 H2]|]; constructor. rewrite H2. by split. Qed.

Lemma newHomestead_refines op : entries_refine (newHomesteadInstructionSet ctx r op) (newHomesteadInstructionSet ctx r' op).
Proof.
  destruct op; cbn [newHomesteadInstructionSet]; try apply newFrontier_refines. constructor. split; [|done]. apply opCallPlain_refines, DelegateCall_refines.
Qed.

Lemma newTangerineWhistle_refines op : entries_refine (newTangerineWhistleInstructionSet ctx r op) (newTangerineWhistleInstructionSet ctx r' op).
Proof. destruct op; cbn [newTangerineWhistleInstructionSet]; try apply newHomestead_refines; apply reprice_refines, newHomestead_refines. Qed.

Lemma newSpuriousDragon_refines op : entries_refine (newSpuriousDragonInstructionSet ctx r op) (newSpuriousDragonInstructionSet ctx r' op).
Proof. destruct op; cbn [newSpuriousDragonInstructionSet]; try apply newTangerineWhistle_refines; apply with_gas_refines, newTangerineWhistle_refines. Qed.

Lemma newByzantium_refines op : entries_refine (newByzantiumInstructionSet ctx r op) (newByzantiumInstructionSet ctx r' op).
Proof.
  destruct op; cbn [newByzantiumInstructionSet]; try apply newSpuriousDragon_refines; try entries. constructor. split; [|done]. apply opCallPlain_refines, StaticCall_refines.
Qed.

Lemma newConstantinople_refines op : entries_refine (newConstantinopleInstructionSet ctx r op) (newConstantinopleInstructionSet ctx r' op).
Proof.
  destruct op; cbn [newConstantinopleInstructionSet]; try apply newByzantium_refines; try entries. constructor. split; [|done]. apply opCreate2_refines.
Qed.

Lemma newIstanbul_refines op : entries_refine (newIstanbulInstructionSet ctx r op) (newIstanbulInstructionSet ctx r' op).
Proof.
  destruct op; cbn [newIstanbulInstructionSet]; try apply newConstantinople_refines; try entries; first [apply reprice_refines|apply with_gas_refines]; apply newConstantinople_refines.
Qed.

Lemma newYoloV1_refines op : entries_refine (newYoloV1InstructionSet ctx r op) (newYoloV1InstructionSet ctx r' op).
Proof. destruct op; cbn [newYoloV1InstructionSet]; try apply newIstanbul_refines; entries. Qed.

Lemma jumpTable_refines op : entries_refine (jumpTable ctx r op) (jumpTable ctx r' op).
Proof.
  unfold jumpTable. repeat case_match; [apply newYoloV1_refines|apply newIstanbul_refines|apply newConstantinople_refines|apply newByzantium_refines|apply newSpuriousDragon_refines
    |apply newTangerineWhistle_refines|apply newHomestead_refines|apply newFrontier_refines].
Qed.

(** ** The loop *)

Lemma perform_refines o o' : op_refines o o' -> refines (perform o) (perform o').
Proof.
  intros [H1 H2]. unfold perform. rewrite H2. cbn [constantGas]. unfold neededMemory, payDynamic, executeOp. cbn [memorySize dynamicGas execute returns reverts halts jumps].
  repeat first [apply H1|refine1].
Qed.

Lemma step_refines : refines (step ctx r) (step ctx r').
Proof.
  unfold step. apply refines_bind; [apply refines_refl|]. intros []; [apply refines_refl|]. apply refines_bind; [apply refines_refl|]. intros b.
  destruct (decode b) as [op|]; cbn [mbind option_bind]; [|apply refines_refl]. destruct (jumpTable_refines op) as [o o' Ho|]; cbn [mbind option_bind]; [|apply refines_refl].
  apply refines_bind; [apply refines_refl|]. intros n. pose proof (or_rest _ _ Ho) as Hrest. rewrite Hrest. cbn [op_minStack op_maxStack]. destruct (_ <? _); [apply refines_refl|].
  destruct (_ <? _); [apply refines_refl|]. apply refines_bind; [apply refines_refl|]. intros []; [apply refines_refl|]. rewrite <- Hrest. by apply perform_refines.
Qed.
End Calls.

Lemma Run_refines loop loop' : refines loop loop' -> runs_refine (Run loop) (Run loop').
Proof.
  intros Hl c input ro. unfold Run. repeat refine1. intros e res. destruct (loop _) as [[y t]|] eqn:E1; [|done]. by rewrite (Hl _ _ E1).
Qed.

Lemma interpret_refines n n' : (n <= n')%nat -> refines (interpret ctx n) (interpret ctx n').
Proof.
  revert n'. induction n as [|n IH]; intros n' Hn; [by intros s x|]. destruct n' as [|n']; [lia|]. cbn [interpret]. apply refines_bind.
  - apply step_refines, Run_refines, IH. lia.
  - intros [x|]; [apply refines_refl|]. apply IH. lia.
Qed.
End Fuel.
