(* ===== verification/EvmDemo.v ===== *)
(** * A concrete virtual machine

    Instances of the libraries that [core/vm] uses, with the documented laws, for
    the examples: words as integers, no precompiled contract besides the copy of
    data, and the state database of [StateDemo]. *)

From S2P Require Import Prelude GoStd Effects StateDB StateRevert StateSafety EvmData EvmOps EvmState EvmInv EvmWords EvmFrame.
Import state vm.

Module EvmDemo.
(** ** Words *)

Definition wrap (z : Z) : Z := z mod 2 ^ 256.
Definition signed (z : Z) : Z := if z <? 2 ^ 255 then z else z - 2 ^ 256.

Definition extendSign (z back : Z) : Z :=
  if 30 <? back then z else let m := 2 ^ (8 * (back + 1)) in let low := z mod m in if low <? m / 2 then low else low - m.

#[global] Instance words : uint256.Lib := {|
  uint256.Add x y := wrap (x + y); uint256.Sub x y := wrap (x - y); uint256.Mul x y := wrap (x * y);
  uint256.Div x y := wrap (if y =? 0 then 0 else x / y); uint256.SDiv x y := wrap (if y =? 0 then 0 else Z.quot (signed x) (signed y));
  uint256.Mod x y := wrap (if y =? 0 then 0 else x mod y); uint256.SMod x y := wrap (if y =? 0 then 0 else Z.rem (signed x) (signed y));
  uint256.Exp x y := wrap (x ^ y); uint256.ExtendSign x y := wrap (extendSign x y);
  uint256.And x y := wrap (Z.land x y); uint256.Or x y := wrap (Z.lor x y); uint256.Xor x y := wrap (Z.lxor x y); uint256.Not x := wrap (Z.lnot x);
  uint256.Byte x n := wrap (if 31 <? n then 0 else x / 256 ^ (31 - n) mod 256);
  uint256.AddMod x y z := wrap (if z =? 0 then 0 else (x + y) mod z); uint256.MulMod x y z := wrap (if z =? 0 then 0 else x * y mod z);
  uint256.Lsh x n := wrap (Z.shiftl x n); uint256.Rsh x n := wrap (Z.shiftr x n); uint256.SRsh x n := wrap (Z.shiftr (signed x) n); uint256.AllOne := 2 ^ 256 - 1;
  uint256.Lt x y := x <? y; uint256.Gt x y := y <? x; uint256.Slt x y := signed x <? signed y; uint256.Sgt x y := signed y <? signed x; uint256.Eq x y := x =? y;
  uint256.Sign x := Z.sgn (signed x); uint256.BitLen x := if x =? 0 then 0 else Z.log2 x + 1;
  uint256.Uint64 x := u64 x; uint256.IsUint64 x := x <? two64;
  uint256.SetBytes b := wrap (fromBytes b); uint256.Bytes20 := bigEndian 20; uint256.Bytes32 := bigEndian 32;
  uint256.WriteToSlice x b := take (length b) (bigEndian (length b) x);
  uint256.FromBig z := wrap z
|}.

Lemma wrap_word z : uint256.word (wrap z).
Proof. apply Z.mod_pos_bound. lia. Qed.

Lemma bigEndian_zero n z : 0 <= z < 256 ^ Z.of_nat n -> bigEndian n z = replicate n Byte.x00 <-> z = 0.
Proof.
  revert z. induction n as [|n IH]; intros z Hz; [cbn in *; split; [lia|done]|]. cbn [bigEndian]. rewrite <- (Nat.add_1_r n), replicate_add.
  rewrite Nat2Z.inj_succ, Z.pow_succ_r in Hz by lia. pose proof (Z.div_mod z 256 ltac:(lia)) as Hd. pose proof (Z.mod_pos_bound z 256 ltac:(lia)) as Hm.
  assert (0 <= z / 256 < 256 ^ Z.of_nat n) as Hq by (split; [apply Z.div_pos; lia|apply Z.div_lt_upper_bound; lia]). split.
  - intros [H1 H2]%app_inj_1; [|by rewrite bigEndian_length, length_replicate]. apply (IH _ Hq) in H1. injection H2 as H2.
    assert (byte_Z (Z_byte (z mod 256)) = 0) as H3 by (by rewrite H2). unfold Z_byte, byte_Z in H3. rewrite Zmod_mod in H3.
    destruct (Byte.of_N (Z.to_N (z mod 256))) as [b|] eqn:Eb; [apply Byte.to_of_N in Eb; lia|]. apply Byte.of_N_None_iff in Eb. lia.
  - intros ->. f_equal. by apply IH.
Qed.

#[global] Instance word_laws : uint256.Laws words.
Proof.
  split; try done.
  - intros x Hx. cbn. unfold signed, uint256.word in *. destruct (Z.ltb_spec x (2 ^ 255)).
    + destruct (Z.eqb_spec x 0) as [->|Hn]; [done|]. apply Z.eqb_neq. lia.
    + rewrite (proj2 (Z.eqb_neq x 0)) by lia. apply Z.eqb_neq. lia.
  - intros x Hx. cbn. unfold uint256.word in Hx. destruct (Z.eqb_spec x 0); [lia|]. pose proof (Z.log2_nonneg x). pose proof (Z.log2_lt_pow2 x 256 ltac:(lia)). lia.
  - intros x Hx. by apply bigEndian_zero.
  - intros x b. cbn. rewrite length_take, bigEndian_length. lia.
  - intros f Hf x y _ _. repeat (apply elem_of_cons in Hf as [->|Hf]; [apply wrap_word|]). by apply elem_of_nil in Hf.
  - intros f Hf x y z _ _ _. repeat (apply elem_of_cons in Hf as [->|Hf]; [apply wrap_word|]). by apply elem_of_nil in Hf.
  - intros f Hf x y _. repeat (apply elem_of_cons in Hf as [->|Hf]; [apply wrap_word|]). by apply elem_of_nil in Hf.
  - intros x _. apply wrap_word.
  - intros b. apply wrap_word.
  - intros z. apply wrap_word.
Qed.

#[global] Instance machine : EvmLib := {|
  evm_words := words;
  RightPadBytes b l := b ++ replicate (Z.to_nat (l - zlen b)) Byte.x00;
  SafeMul x y := (u64 (x * y), negb (x * y <? two64));
  SafeAdd x y := (u64 (x + y), negb (x + y <? two64));
  CreateAddress a n := bigEndian 20 (fromBytes a + n + 1);
  CreateAddress2 a salt h := bigEndian 20 (fromBytes a + fromBytes salt + 2);
  otherPrecompile _ _ := None;
  abort _ := false
|}.

#[global] Instance machine_laws : EvmLaws machine.
Proof. split; try done. apply word_laws. Qed.

#[global] Instance trie_laws : TrieLaws StateDemo.demoLib.
Proof. split. intros db h. exists ∅. cbn. unfold StateDemo.openRoot. by rewrite bool_decide_eq_true_2 by (by left). Qed.

(** ** A block after Istanbul, and three accounts *)

Definition istanbul : Rules.t := Rules.mk 1 true true true true true true true true false.
Definition block : Context.t := Context.mk (fun _ => zeroHash) StateDemo.alice 1 StateDemo.bob 10000000 5 1 1 istanbul false false.

Definition code (l : list Z) : bytes := Z_byte <$> l.

(** Stores 1 and reverts. *)
Definition reverting : bytes := code [0x60; 1; 0x60; 0; 0x55; 0x60; 0; 0x60; 0; 0xfd].

(** Puts the words 1 and 2 into the memory, calls the copy of data with both, takes
    the first word of the result over the second one, and returns the data that the
    call returned. *)
Definition copying : bytes := code
  [0x60; 1; 0x60; 0; 0x52; 0x60; 2; 0x60; 0x20; 0x52;
   0x60; 0x20; 0x60; 0x20; 0x60; 0x40; 0x60; 0; 0x60; 0; 0x60; 4; 0x60; 0xff; 0xf1; 0x50;
   0x60; 0x40; 0x60; 0; 0x60; 0x40; 0x3e; 0x60; 0x40; 0x60; 0x40; 0xf3].

(** Jumps to its end. *)
Definition jumping : bytes := code [0x60; 4; 0x56; 0; 0x5b].

Definition carol : bytes := replicate 20 Byte.x03.

Definition setup : list op := [OAddBalance StateDemo.alice 1000000; OSetCode StateDemo.bob (Some reverting); OSetCode carol (Some copying)].
Definition start : StateDB.t := StateDemo.after (StateSafety.run setup) StateDemo.genesis.
Definition evm : EVM.t := NewEVM start.

(** A call of [jumping] at its jump. *)
Definition jumper : Contract.t := Contract.mk StateDemo.alice None StateDemo.bob None jumping zeroHash None [] 100 (Some 0).
Definition frame : Frame.t := Frame.mk StateDemo.demoLib evm Memory.NewMemory [4] [] jumper 2 1.

(** What a computation returns, and what it leaves. *)
Definition answer {S A} (m : ST S A) (s : S) : option A := match m s with Ret (x, _) => Some x | Panic _ => None end.
Definition leftover {S A} (m : ST S A) (s : S) : S := match m s with Ret (_, t) => t | Panic _ => s end.

Lemma answer_run {S A} (m : ST S A) s x : answer m s = Some x -> m s = Ret (x, leftover m s).
Proof. unfold answer, leftover. by destruct (m s) as [[y t]|]; intros [= ->]. Qed.

Lemma start_reach : reach start.
Proof. apply StateDemo.run_reachable; [apply StateDemo.genesis_reach|by vm_compute]. Qed.

Lemma start_runs : StateSafety.run setup StateDemo.genesis = Ret (tt, start).
Proof. apply StateDemo.after_run. by vm_compute. Qed.

(** *** What accounts can be set up with *)

Definition settable (o : op) : Prop := match o with OAddBalance _ z => 0 <= z | OSetCode _ c => fits (goBytes c) | _ => False end.
Definition granted (o : op) : Z := match o with OAddBalance _ z => z | _ => 0 end.

Record settled (most : Z) (s : StateDB.t) : Prop := {
  se_ok : ok s;
  se_codes : codes_ok s;
  se_clean : clean s;
  se_slots : forall p, ~ cleared s p;
  se_refund : StateDB.refund s = 0;
  se_ether : ether most 0 s
}.

Lemma grant_ether most s t a z : ok s -> 0 <= z -> AddBalance a z s = Ret (tt, t) -> ether most 0 s -> ether (most + z) 0 t.
Proof.
  intros Hw Hz Hm [H1 H2]. destruct (AddBalance_balance s t a z Hw Hm) as (_ & B & C). split.
  - intros b. pose proof (H1 b). destruct (decide (b = a)) as [->|Hb]; [lia|by rewrite (C b Hb)].
  - intros bs Hn. rewrite (total_one a bs s t Hn C), B. pose proof (H2 bs Hn). destruct (decide (a ∈ bs)); lia.
Qed.

Lemma settled_exec o most s t : settable o -> settled most s -> exec o s = Ret (tt, t) -> settled (most + granted o) t.
Proof.
  intros Ho [S1 S2 S3 S4 S5 S6] Hm. destruct o; try done; cbn [settable granted exec] in *.
  - destruct (wp_run _ _ _ _ _ (add_keeps s a z S1 S2) Hm) as [G C]. destruct (AddBalance_shrinks s t a z S1 Hm) as [H Hr].
    split; [by eapply goes_ok|done|by eapply shrinks_clean|intros p Hp; by eapply S4, H|congruence|]. by eapply grant_ether.
  - pose proof (wp_run _ _ _ _ _ (SetCode_sets s a c S1) Hm) as S. pose proof (goes_ok _ _ (proj1 S)) as Wt.
    assert (shrinks s t) as H by (eapply sets_shrinks; [exact S|done..]). destruct (setters_leave a) as (_ & _ & _ & Hl & _). destruct (Hl c s tt t Hm) as [E _]. unfold aux in E. injection E as Hr _.
    split; [done|exact (SetCode_codes a c s t S Ho S2)|by eapply shrinks_clean|intros p Hp; by eapply S4, H|congruence|]. rewrite Z.add_0_r. exact (J_code (Keeps := keeps_ether istanbul most) 0 s t a c eq_refl S1 Wt Hm S6).
Qed.

Lemma settled_run l most s t : Forall settable l -> settled most s -> StateSafety.run l s = Ret (tt, t) -> settled (most + foldr (fun o n => granted o + n) 0 l) t.
Proof.
  intros Hl. revert most s. induction Hl as [|o l Ho _ IH]; intros most s Hs Hm; [injection Hm as <-; by rewrite Z.add_0_r|].
  cbn [StateSafety.run foldr] in *. unfold mbind, ST_bind in Hm. destruct (exec o s) as [[[] s1]|] eqn:E1; [|done]. cbn in Hm.
  rewrite Z.add_assoc. apply (IH _ s1); [by eapply settled_exec|done].
Qed.

Lemma genesis_settled : settled 0 StateDemo.genesis.
Proof.
  split; [apply (reach_ok _ StateDemo.genesis_reach)|by intros a c|..].
  - intros a k d _ _. done.
  - by intros p [_ H].
  - done.
  - split; [done|]. intros bs _. induction bs as [|b bs IH]; [done|]. rewrite total_cons. change (balance b StateDemo.genesis) with 0. lia.
Qed.

Lemma start_settled : settled 1000000 start.
Proof. apply (settled_run setup 0 StateDemo.genesis); [by repeat constructor|apply genesis_settled|apply start_runs]. Qed.
End EvmDemo.
