(* ===== verification/EvmSafety.v ===== *)
(** * What the virtual machine guarantees

    The theorems about whole calls, for every message that [core/vm/evm.go] takes:
    calls end and do not panic, an error undoes what the call did, static calls
    change nothing, no ether is made, and the refund counter pays for the slots
    that were cleared. *)

From S2P Require Import Prelude GoStd Effects StateDB StateRevert StateSafety EvmData EvmOps EvmState EvmInv EvmWords EvmJump EvmFrame EvmStep EvmCalls EvmTable EvmLoop EvmFuel EvmDemo.
Import state vm.

(** ** Messages *)

(** The ways into the machine; a delegate call comes from a contract. *)
Inductive message :=
| MCall (caller : ContractRef) (addr input : bytes) (value : Z)
| MCallCode (caller : ContractRef) (addr input : bytes) (value : Z)
| MDelegateCall (caller : Contract.t) (addr input : bytes)
| MStaticCall (caller : ContractRef) (addr input : bytes)
| MCreate (caller : ContractRef) (code : bytes) (value : Z)
| MCreate2 (caller : ContractRef) (code : bytes) (endowment salt : Z).

Definition message_ok (m : message) : Prop :=
  match m with
  | MCall _ _ input value => 0 <= value /\ fits input
  | MCallCode caller _ input _ => caller_ok caller /\ fits input
  | MDelegateCall caller _ input => is_Some (Contract.value caller) /\ fits input
  | MStaticCall _ _ input => fits input
  | MCreate _ code value | MCreate2 _ code value _ => 0 <= value /\ fits code
  end.

Section Safety.
Context {L : StateLib} {HL : StateLaws L} {HT : TrieLaws L} {V : EvmLib} {HV : EvmLaws V} (ctx : Context.t).
Abbreviation rules := (Context.chainRules ctx).
Abbreviation db e := (EVM.StateDB e).
Hypothesis Hlimit : in_u64 (Context.GasLimit ctx).
Implicit Types (e : EVM.t) (s : StateDB.t) (m : message) (gas : Z).

(** The gas that is left, and the error. *)
Definition send (run : Contract.t -> bytes -> bool -> ST EVM.t (bytes * option vmError * Contract.t)) m gas : ST EVM.t (Z * option vmError) :=
  match m with
  | MCall caller addr input value => r ← Call ctx run caller addr input gas value; mret (r.1.2, r.2)
  | MCallCode caller addr input value => r ← CallCode ctx run caller addr input gas value; mret (r.1.2, r.2)
  | MDelegateCall caller addr input => r ← DelegateCall ctx run (ContractCaller caller) addr input gas; mret (r.1.2, r.2)
  | MStaticCall caller addr input => r ← StaticCall ctx run caller addr input gas; mret (r.1.2, r.2)
  | MCreate caller code value => r ← Create ctx run caller code gas value; mret (r.1.2, r.2)
  | MCreate2 caller code endowment salt => r ← Create2 ctx run caller code gas endowment salt; mret (r.1.2, r.2)
  end.

(** What an error leaves: everything is as it was; a creation may have taken a
    nonce.  Before Homestead a creation that cannot pay for its code succeeds. *)
Definition undone m s t : Prop :=
  match m with
  | MCreate caller _ _ | MCreate2 caller _ _ _ => nonceOnly (refAddress caller) s t
  | _ => same_reads s t
  end.

(** A machine between two messages. *)
Record ready e : Prop := {
  re_ok : ok (db e);
  re_revs : revs_ok (db e);
  re_codes : codes_ok (db e);
  re_data : fits (EVM.returnData e);
  re_dests : dests_ok (EVM.jumpdests e)
}.

Section Kept.
Context {P : string -> Prop} {J : Z -> StateDB.t -> Prop} {K : bytes -> bytes -> bytes -> Z -> StateDB.t -> Prop}.
Context {HK : Keeps rules false P J K}.

Definition sent s0 e m gas (r : Z * option vmError) e' : Prop :=
  session (J := J) s0 r.1 (db e') /\ evm_ok (static := false) (EVM.depth e) (EVM.readOnly e) e' /\ 0 <= r.1 <= gas /\
  (r.2 <> None -> (r.2 = Some ErrCodeStoreOutOfGas -> Rules.IsHomestead rules = true) -> undone m (db e) (db e')).

Lemma called_sent s0 e m gas r e' : ok (db e) -> (match m with MCreate _ _ _ | MCreate2 _ _ _ _ => False | _ => True end) ->
  called_ok (J := J) s0 0 (EVM.depth e) (EVM.readOnly e) e gas r e' -> sent s0 e m gas (r.1.2, r.2) e'.
Proof.
  intros Hw Hm. destruct r as [[ret rest] err]. intros (S & He & Hr & _ & Hu). split; [exact S|]. split; [exact He|]. split; [exact Hr|]. cbn [snd]. intros Hne _.
  pose proof (eqv_reads _ _ _ Hw (session_ok _ _ _ S) (Hu Hne)) as Hs. by destruct m.
Qed.

Lemma ready_session e g : ready e -> J g (db e) -> session (J := J) (db e) g (db e).
Proof. intros [R1 R2 R3 R4 R5] H. split; [split; [by apply follows_refl|done]|done]. Qed.

Lemma ready_evm e : ready e -> evm_ok (static := false) (EVM.depth e) (EVM.readOnly e) e.
Proof. intros []. by split. Qed.

Lemma sent_ready s0 e m gas r e' : sent s0 e m gas r e' -> ready e' /\ EVM.depth e' = EVM.depth e /\ EVM.readOnly e' = EVM.readOnly e.
Proof.
  intros (S & [E1 E2 _ E4 E5] & _). split; [|done]. split; [by eapply session_ok| |apply S|done|done]. destruct S as [[F _] _]. apply F.
Qed.

Lemma send_run fuel m gas e : ready e -> J gas (db e) -> message_ok m -> in_u64 gas -> gas < Z.of_nat fuel ->
  pwp P (send (run ctx fuel) m gas) (sent (db e) e m gas) e.
Proof.
  intros HR HJ Hm Hg Hf. pose proof (ready_session e gas HR HJ) as S. pose proof (ready_evm e HR) as He. pose proof (re_ok e HR) as Hw.
  pose proof (run_run ctx (static := false) (P := P) (J := J) Hlimit ltac:(done) fuel) as Hrun. set (N := Z.of_nat fuel - 1) in *. assert (gas <= N) as Hn by lia.
  destruct m; cbn [send message_ok] in *.
  - destruct Hm as [Hv Hi]. apply pwp_bind. eapply pwp_mono; [apply (Call_run ctx N _ Hrun (db e) 0 (EVM.depth e) (EVM.readOnly e) e); try done|]. intros r e' Hr. apply pwp_ret. by apply called_sent.
  - destruct Hm as [Hc Hi]. apply pwp_bind. eapply pwp_mono; [apply (CallCode_run ctx N _ Hrun (db e) 0 (EVM.depth e) (EVM.readOnly e) e); try done|]. intros r e' Hr. apply pwp_ret. by apply called_sent.
  - destruct Hm as [Hc Hi]. apply pwp_bind. eapply pwp_mono; [apply (DelegateCall_run ctx N _ Hrun (db e) 0 (EVM.depth e) (EVM.readOnly e) e); try done|]. intros r e' Hr. apply pwp_ret. by apply called_sent.
  - apply pwp_bind. eapply pwp_mono; [apply (StaticCall_run ctx N _ Hrun (db e) 0 (EVM.depth e) (EVM.readOnly e) e); try done|]. intros r e' Hr. apply pwp_ret. by apply called_sent.
  - destruct Hm as [Hv Hc]. apply pwp_bind. eapply pwp_mono; [apply (creator_Create ctx (Z.of_nat fuel) _ Hrun eq_refl (db e) 0 (EVM.depth e) (EVM.readOnly e) e); try done|].
    intros [[[ret addr] rest] err] e' (S' & He' & Hr & _ & Hu). by apply pwp_ret.
  - destruct Hm as [Hv Hc]. apply pwp_bind. eapply pwp_mono; [apply (create_run ctx N _ Hrun (db e) 0 (EVM.depth e) (EVM.readOnly e) e); try done|]. intros [[[ret addr] rest] err] e' (S' & He' & Hr & _ & Hu). by apply pwp_ret.
Qed.
End Kept.

(** ** Fuel *)

Lemma send_refines r r' m gas : runs_refine r r' -> refines (send r m gas) (send r' m gas).
Proof.
  intros Hr. destruct m; cbn [send]; (apply refines_bind; [|intros x; apply refines_refl]).
  - by apply Call_refines.
  - by apply CallCode_refines.
  - by apply DelegateCall_refines.
  - by apply StaticCall_refines.
  - unfold Create. apply refines_bind; [apply refines_refl|]. intros n. by apply create_refines.
  - by apply create_refines.
Qed.

Lemma run_refines n n' : (n <= n')%nat -> runs_refine (run ctx n) (run ctx n').
Proof. intros Hn. by apply Run_refines, interpret_refines. Qed.

(** ** Calls end *)

(** The state at the start of a transaction: no slot has been cleared yet, the refund
    counter is zero, and what is not an account has no storage. *)
Record fresh s : Prop := {
  fr_clean : clean s;
  fr_slots : forall p, ~ cleared s p;
  fr_refund : StateDB.refund s = 0
}.

Lemma fresh_solvent s gas : fresh s -> solvent (200 * gas) gas s.
Proof.
  intros [F1 F2 F3] H0. split_and!; [done| |lia|lia]. intros [|p l] _ Hl; [unfold zlen; cbn; lia|].
  apply Forall_cons in Hl as [H _]. by apply F2 in H.
Qed.

Lemma send_total fuel m gas e : ready e -> fresh (db e) -> message_ok m -> Rules.IsEIP150 rules = true -> 0 <= gas <= 2 ^ 56 -> gas < Z.of_nat fuel ->
  exists r e', send (run ctx fuel) m gas e = Ret (r, e') /\ sent (J := solvent (200 * gas)) (db e) e m gas r e'.
Proof.
  intros HR Hf Hm H150 Hg Hfuel. assert (200 * gas < two64) as Hmost by (unfold two64; lia).
  pose proof (send_run (HK := keeps_solvent (200 * gas) Hmost rules H150) fuel m gas e HR (fresh_solvent _ _ Hf) Hm ltac:(unfold in_u64, two64; lia) Hfuel) as H.
  apply pwp_never in H. destruct H as (r & e' & H1 & H2). by exists r, e'.
Qed.

(** C2: Every call, static call, delegate call and creation ends and does not
    panic, whatever the code does: on a database at the start of a transaction,
    with at most 2^56 gas and from EIP-150 on, there is one result, which every run
    of the loop with more fuel than gas gives; at most the given gas is left, and the
    machine is ready for the next message, at the same depth and with the same
    write protection. *)
Theorem send_ends m gas e : ready e -> fresh (db e) -> message_ok m -> Rules.IsEIP150 rules = true -> 0 <= gas <= 2 ^ 56 ->
  exists rest err e', (forall fuel, gas < Z.of_nat fuel -> send (run ctx fuel) m gas e = Ret ((rest, err), e')) /\ 0 <= rest <= gas /\
    ready e' /\ EVM.depth e' = EVM.depth e /\ EVM.readOnly e' = EVM.readOnly e.
Proof.
  intros HR Hf Hm H150 Hg. destruct (send_total (Z.to_nat (gas + 1)) m gas e HR Hf Hm H150 Hg ltac:(lia)) as ([rest err] & e' & E1 & H). exists rest, err, e'.
  destruct (sent_ready _ _ _ _ _ _ H) as (R1 & R2 & R3). split; [|split; [apply H|done]].
  intros fuel Hfuel. eapply send_refines; [|exact E1]. apply run_refines. lia.
Qed.

(** C17: The refund counter is never subtracted below zero, and it pays for every
    slot that held a value before the transaction and is cleared now: 15000 each. *)
Theorem send_solvent fuel m gas e : ready e -> fresh (db e) -> message_ok m -> Rules.IsEIP150 rules = true -> 0 <= gas <= 2 ^ 56 -> gas < Z.of_nat fuel ->
  exists r e', send (run ctx fuel) m gas e = Ret (r, e') /\ pays (cleared (db e')) (StateDB.refund (db e')) /\
    0 <= StateDB.refund (db e') <= 200 * (gas - r.1).
Proof.
  intros HR Hf Hm H150 Hg Hfuel. destruct (send_total fuel m gas e HR Hf Hm H150 Hg Hfuel) as (r & e' & E1 & S & _ & Hr & _). exists r, e'. split; [done|].
  destruct S as [_ S]. destruct (S ltac:(lia)) as (_ & S2 & S3 & S4). split; [done|]. lia.
Qed.

(** ** Errors *)

(** C3: A message that ends with an error leaves the state as it was: after a failed
    call everything that can be read of the state, the logs and the refund counter
    is unchanged, and after a failed creation at most the nonce of the creator has
    changed, for every nesting of calls and creations inside.  (Before Homestead
    a creation that cannot pay for its code is no failure.)  At most the given gas
    is left. *)
Theorem send_undone fuel m gas e rest err e' : ready e -> message_ok m -> in_u64 gas -> gas < Z.of_nat fuel -> send (run ctx fuel) m gas e = Ret ((rest, Some err), e') ->
  (err = ErrCodeStoreOutOfGas -> Rules.IsHomestead rules = true) -> undone m (db e) (db e') /\ 0 <= rest <= gas.
Proof.
  intros HR Hm Hg Hfuel Hs Hh. pose proof (send_run (HK := keeps_nothing rules false) fuel m gas e HR I Hm Hg Hfuel) as H. unfold pwp in H. rewrite Hs in H.
  destruct H as (_ & _ & Hr & Hu). split; [|done]. apply Hu; [done|]. intros [= ->]. auto.
Qed.

(** ** Ether *)

(** The machine makes no ether: when no accounts own more than [most] together
    and no account is in debt, this is so after every message, whether it succeeds or
    fails. *)
Theorem send_ether fuel m gas e r e' most : ready e -> message_ok m -> in_u64 gas -> gas < Z.of_nat fuel -> send (run ctx fuel) m gas e = Ret (r, e') ->
  ether most gas (db e) -> ether most r.1 (db e').
Proof.
  intros HR Hm Hg Hfuel Hs He. pose proof (send_run (HK := keeps_ether rules most) fuel m gas e HR He Hm Hg Hfuel) as H. unfold pwp in H. rewrite Hs in H. apply H.
Qed.

(** ** Static calls *)

(** C18: A static call changes nothing: balances, nonces, code, logs, the refund
    counter and everything of the accounts that exist are as before, whatever the
    code does, in all calls that it makes. *)
Theorem StaticCall_unchanged fuel caller addr input gas e r e' : Rules.IsByzantium rules = true -> ready e -> fits input -> in_u64 gas -> gas < Z.of_nat fuel ->
  StaticCall ctx (run ctx fuel) caller addr input gas e = Ret (r, e') -> unchanged (db e) 0 (db e').
Proof.
  intros Hb HR Hi Hg Hfuel Hs. set (HK := keeps_unchanged rules (db e)).
  assert (session (J := unchanged (db e)) (db e) (0 + gas) (db e)) as S by (destruct HR; split; [split; [by apply follows_refl|done]|apply unchanged_refl]).
  pose proof (run_run ctx (HK := HK) Hlimit (fun _ => Hb) fuel) as Hrun.
  pose proof (StaticCall_run ctx (HK := HK) (Z.of_nat fuel - 1) _ Hrun (db e) 0 _ _ e caller addr input gas S (ready_evm e HR) Hg ltac:(lia) Hi ltac:(lia)) as H.
  unfold pwp in H. rewrite Hs in H. destruct r as [[ret rest] err]. destruct H as ([_ H] & _). exact H.
Qed.

(** ** Rounds of the loop *)

(** A running call: words on a stack that is not too deep, memory that is paid for,
    the analysis of its own code, and a state that its snapshots can undo. *)
Definition frame_ok s0 f : Prop :=
  fineOf (static := false) (fun _ _ => True) s0 0 (EVM.depth (Frame.evm f)) (EVM.readOnly (Frame.evm f)) f.

(** C16: A round of the loop on a well-formed frame does not panic but for a refund
    counter that is too small (which [send_ends] excludes): it leaves a well-formed
    frame with less gas, or ends the call with at most the gas it had. *)
Theorem step_safe fuel s0 f : frame_ok s0 f -> Contract.Gas (Frame.contract f) <= Z.of_nat fuel ->
  match step ctx (run ctx fuel) f with
  | Ret (None, g) => frame_ok s0 g /\ Contract.Gas (Frame.contract g) < Contract.Gas (Frame.contract f)
  | Ret (Some (res, err), g) => follows_ok s0 (EVM.StateDB (Frame.evm g)) /\ 0 <= Contract.Gas (Frame.contract g) <= Contract.Gas (Frame.contract f) /\
      fits (Memory.read (Frame.memory g) res)
  | Panic why => refundPanic why
  end.
Proof.
  intros F Hf. set (HK := keeps_nothing rules false).
  pose proof (step_run ctx (HK := HK) Hlimit (Z.of_nat fuel) _ (run_run ctx (HK := HK) Hlimit ltac:(done) fuel) ltac:(done) s0 0 _ _ f F Hf) as H. unfold pwp in H.
  destruct (step ctx (run ctx fuel) f) as [[[[res err]|] g]|why]; [| |done].
  - destruct H as [[N1 N2 N3 N4 N5 N6] Hg]. unfold in_u64 in N4. split_and!; try done; lia.
  - destruct H as [Fg Hg]. split; [|done]. unfold frame_ok. by rewrite (eo_depth _ _ _ (fi_evm _ _ _ _ _ Fg)), (eo_readOnly _ _ _ (fi_evm _ _ _ _ _ Fg)).
Qed.

(** A jump succeeds exactly when its operand is the position of a [JUMPDEST] in
    the code that is not the data of a push, read byte by byte, and then leads
    there; else the call ends with [ErrInvalidJump].  It never panics. *)
Theorem opJump_exact s0 f pos st : frame_ok s0 f -> Frame.stack f = pos :: st -> Frame.pc f < 2 ^ 62 -> exists r g, opJump f = Ret (r, g) /\
  r.2 = (if isDest 0x5b (Contract.Code (Frame.contract f)) pos then None else Some ErrInvalidJump) /\ (r.2 = None -> Frame.pc g = pos).
Proof.
  intros F Hst Hp. pose proof (fine_operands _ _ _ _ _ _ F Hst) as Hw. pose proof (fine_room _ _ _ _ _ _ F Hst) as Hr. apply Forall_cons in Hw as [Hpos Hw].
  assert (pwp (fun _ => False) opJump (fun r g => jumped f pos r g) f) as H; [|apply pwp_never in H as (r & g & H1 & H2 & H3); by exists r, g].
  eapply pwp_pop; [exact Hst|]. eapply pwp_mono; [apply (jumpTo_run (static := false) (J := fun _ _ => True) s0 0 (EVM.depth (Frame.evm f)) (EVM.readOnly (Frame.evm f)) f); [apply fine_stack; [exact F|done|unfold zlen in *; cbn in Hr; lia]|done|done|done]|]. by intros r g [_ H].
Qed.

(** ** Memory *)

(** C28: Memory costs what the quadratic fee says, without overflow: growing to hold
    [n] bytes costs the difference of the fees of the words before and after, keeps
    the bytes and adds zeros up to a whole word, and costs nothing when it is large
    enough already; beyond 0xffffffff words it is an error and nothing changes. *)
Theorem memory_exact f (n : Z) : mem_ok (Frame.memory f) -> in_u64 n -> let w := toWordSize n in
  exists w0, Memory.Len (Frame.memory f) = 32 * w0 /\ n <= 32 * w < n + 32 /\
    if maxWords <? w then memoryGasCost (32 * w) f = Ret (inr ErrGasUintOverflow, f)
    else exists g, memoryGasCost (32 * w) f = Ret (inl (fee (w0 `max` w) - fee w0), g) /\ let m := Memory.Resize (Frame.memory g) (32 * w) in
      mem_ok m /\ Memory.store m = Memory.store (Frame.memory f) ++ replicate (Z.to_nat (32 * (w0 `max` w) - 32 * w0)) Byte.x00.
Proof.
  intros (w0 & W1 & W2 & W3) Hn. cbv zeta. destruct (toWordSize_spec n Hn) as [Hw Hs]. set (w := toWordSize n) in *. clearbody w.
  exists w0. split; [done|]. split; [done|]. rewrite (memoryGasCost_fee f w0 w W1 W2 W3 Hw). destruct (Z.ltb_spec maxWords w) as [|Hle]; [done|].
  eexists. split; [reflexivity|]. cbn [Frame.memory Frame.set_memory]. split; [apply (Resize_run _ w0 w); done || lia|].
  unfold Memory.Resize. change (Memory.Len (paidFor (Frame.memory f) _)) with (Memory.Len (Frame.memory f)). rewrite W2.
  destruct (Z.ltb_spec (32 * w0) (32 * w)); [by rewrite Z.max_r by lia|]. rewrite Z.max_l, Z.sub_diag by lia. cbn. by rewrite app_nil_r.
Qed.
End Safety.

(** ** Examples *)

Section Examples.
Import EvmDemo.

Definition fuel : nat := Z.to_nat 30001.
Definition alice : ContractRef := AccountRef StateDemo.alice.
Definition payBob : message := MCall alice StateDemo.bob [] 7.

Lemma block_limit : in_u64 (Context.GasLimit block).
Proof. by vm_compute. Qed.

Lemma enough : 30000 < Z.of_nat fuel.
Proof. unfold fuel. rewrite Z2Nat.id; done. Qed.

Lemma some_gas : in_u64 30000.
Proof. done. Qed.

Lemma start_ready : ready evm.
Proof. destruct start_settled, (reach_ok _ start_reach). by split. Qed.

Lemma start_fresh : fresh (EVM.StateDB evm).
Proof. by destruct start_settled. Qed.

Lemma payBob_ok : message_ok payBob.
Proof. done. Qed.

Lemma payBob_fails : send block (run block fuel) payBob 30000 evm = Ret ((9988, Some ErrExecutionReverted), leftover (send block (run block fuel) payBob 30000) evm).
Proof. apply answer_run. by vm_compute. Qed.

Lemma send_ends_witness : exists rest err e', (forall n, 30000 < Z.of_nat n -> send block (run block n) payBob 30000 evm = Ret ((rest, err), e')) /\ 0 <= rest <= 30000 /\
  ready e' /\ EVM.depth e' = EVM.depth evm /\ EVM.readOnly e' = EVM.readOnly evm.
Proof. exact (send_ends block block_limit payBob 30000 evm start_ready start_fresh payBob_ok eq_refl ltac:(lia)). Defined.

Lemma send_solvent_witness : exists r e', send block (run block fuel) payBob 30000 evm = Ret (r, e') /\
  pays (cleared (EVM.StateDB e')) (StateDB.refund (EVM.StateDB e')) /\ 0 <= StateDB.refund (EVM.StateDB e') <= 200 * (30000 - r.1).
Proof. exact (send_solvent block block_limit fuel payBob 30000 evm start_ready start_fresh payBob_ok eq_refl ltac:(lia) enough). Defined.

Lemma send_undone_witness : undone payBob (EVM.StateDB evm) (EVM.StateDB (leftover (send block (run block fuel) payBob 30000) evm)) /\ 0 <= 9988 <= 30000.
Proof. exact (send_undone block block_limit fuel payBob 30000 evm 9988 ErrExecutionReverted _ start_ready payBob_ok some_gas enough payBob_fails ltac:(done)). Defined.

Lemma send_ether_witness : ether 1000000 9988 (EVM.StateDB (leftover (send block (run block fuel) payBob 30000) evm)).
Proof.
  exact (send_ether block block_limit fuel payBob 30000 evm (9988, Some ErrExecutionReverted) _ 1000000 start_ready payBob_ok some_gas enough payBob_fails (se_ether _ _ start_settled)).
Defined.

Abbreviation asked := (StaticCall block (run block fuel) alice carol [] 30000) (only parsing).

Lemma asked_runs : exists r, asked evm = Ret (r, leftover asked evm).
Proof. destruct (answer asked evm) as [r|] eqn:E; [exists r; by apply answer_run|by vm_compute in E]. Qed.

Lemma StaticCall_unchanged_witness : unchanged (EVM.StateDB evm) 0 (EVM.StateDB (leftover asked evm)).
Proof.
  destruct asked_runs as [r Hr].
  exact (StaticCall_unchanged block block_limit fuel alice carol [] 30000 evm r (leftover asked evm) eq_refl start_ready eq_refl some_gas enough Hr).
Defined.

Lemma frame_fine : frame_ok start frame.
Proof.
  destruct start_ready. split; try done.
  - split; [split; [by apply follows_refl|done]|done].
  - by repeat constructor.
  - apply NewMemory_ok.
Qed.

Lemma step_safe_witness : match step block (run block fuel) frame with
  | Ret (None, g) => frame_ok start g /\ Contract.Gas (Frame.contract g) < Contract.Gas (Frame.contract frame)
  | Ret (Some (res, err), g) => follows_ok start (EVM.StateDB (Frame.evm g)) /\ 0 <= Contract.Gas (Frame.contract g) <= Contract.Gas (Frame.contract frame) /\
      fits (Memory.read (Frame.memory g) res)
  | Panic why => refundPanic why
  end.
Proof. exact (step_safe block block_limit fuel start frame frame_fine ltac:(pose proof enough; cbn [Frame.contract frame jumper Contract.Gas]; lia)). Defined.

Lemma opJump_exact_witness : exists r g, opJump frame = Ret (r, g) /\ r.2 = None /\ Frame.pc g = 4.
Proof.
  destruct (opJump_exact start frame 4 [] frame_fine eq_refl ltac:(cbn; lia)) as (r & g & H1 & H2 & H3). exists r, g.
  assert (isDest 0x5b (Contract.Code (Frame.contract frame)) 4 = true) as Hd by (by vm_compute). rewrite Hd in H2. auto.
Defined.

Lemma memory_exact_witness : exists w0, Memory.Len (Frame.memory frame) = 32 * w0 /\ 33 <= 32 * 2 < 33 + 32 /\
  exists g, memoryGasCost 64 frame = Ret (inl (fee (w0 `max` 2) - fee w0), g) /\ let m := Memory.Resize (Frame.memory g) 64 in
    mem_ok m /\ Memory.store m = Memory.store (Frame.memory frame) ++ replicate (Z.to_nat (32 * (w0 `max` 2) - 32 * w0)) Byte.x00.
Proof. exact (memory_exact frame 33 NewMemory_ok ltac:(done)). Defined.

End Examples.
