(* ===== verification/Transition.v ===== *)
(** * Transactions and blocks

    [core]: what a transaction costs before it runs, its pre-payment, its run in the
    virtual machine and the refund ([state_transition.go]), the gas that a block has
    left ([gaspool.go]), the context that the machine gets and the hashes of earlier
    blocks ([evm.go]), the transactions of a block one after the other
    ([state_processor.go]), and one transaction of a block that is being built
    ([miner/worker.go]). *)

From S2P Require Import Prelude GoStd Effects StateDB Bloom EvmData EvmOps.
Import state vm.

(** ** Messages, transactions and results *)

(** The errors of [core/error.go] that a transaction is rejected with; [ErrGasOverflow]
    is its [ErrGasUintOverflow], and [ErrSender] stands for the errors of a signature. *)
Inductive coreError :=
| ErrNonceTooLow | ErrNonceTooHigh | ErrGasLimitReached | ErrInsufficientFundsForTransfer | ErrInsufficientFunds
| ErrGasOverflow | ErrIntrinsicGas | ErrSender.

(** A nil [To] creates a contract. *)
Module Message.
Record t := mk { From : bytes; To : option bytes; GasPrice : Z; Gas : Z; Value : Z; Nonce : Z; CheckNonce : bool; Data : bytes }.
End Message.

Module ExecutionResult.
Record t := mk { UsedGas : Z; Err : option vmError; ReturnData : bytes }.
End ExecutionResult.

(** A transaction: [txdata], its hash, the sender that its signature gives, and the time
    it was first seen. *)
Module Transaction.
Record t := mk {
  AccountNonce : Z; Price : Z; GasLimit : Z; Recipient : option bytes; Amount : Z; Payload : bytes;
  Hash : bytes; Sender : option bytes; V : Z; time : Z
}.

Definition isProtectedV (V : Z) : bool := if Z.abs V <? 2 ^ 8 then let v := u64 V in negb (v =? 27) && negb (v =? 28) else true.
Definition Protected (tx : t) : bool := isProtectedV (V tx).

Definition AsMessage (tx : t) : Message.t + coreError :=
  match Sender tx with
  | Some from => inl (Message.mk from (Recipient tx) (Price tx) (GasLimit tx) (Amount tx) (AccountNonce tx) true (Payload tx))
  | None => inr ErrSender
  end.
End Transaction.

(** ** The gas of a block *)

Module GasPool.
Definition AddGas (gp amount : Z) : outcome Z := if two64 - 1 - amount <? gp then Panic "gas pool pushed above uint64" else Ret (gp + amount).
Definition SubGas (gp amount : Z) : Z + coreError := if gp <? amount then inr ErrGasLimitReached else inl (gp - amount).
End GasPool.

(** ** A transaction *)

Module core.
Definition IntrinsicGas (data : bytes) (contractCreation isHomestead isEIP2028 : bool) : Z + coreError :=
  let gas := if contractCreation && isHomestead then params.TxGasContractCreation else params.TxGas in
  if bool_decide (data = []) then inl gas
  else
    let nz := foldl (fun nz byt => if byte_Z byt =? 0 then nz else u64 (nz + 1)) 0 data in
    let nonZeroGas := if isEIP2028 then params.TxDataNonZeroGasEIP2028 else params.TxDataNonZeroGasFrontier in
    if (two64 - 1 - gas) `div` nonZeroGas <? nz then inr ErrGasOverflow
    else
      let gas := u64 (gas + u64 (nz * nonZeroGas)) in
      let z := u64 (zlen data - nz) in
      if (two64 - 1 - gas) `div` params.TxDataZeroGas <? z then inr ErrGasOverflow
      else inl (u64 (gas + u64 (z * params.TxDataZeroGas))).

(** [GetHashFn]: the hashes of earlier blocks, with a cache of those that were visited.
    The loop follows the headers from the last hash of the cache. *)
Section Hashes.
Context (GetHeader : bytes -> Z -> option Header.t) (ref : Header.t).

Fixpoint hashLoop (fuel : nat) (n : Z) (cache : list bytes) (lastKnownHash : bytes) (lastKnownNumber : Z) : bytes * list bytes :=
  match fuel with
  | O => (zeroHash, cache)
  | S fuel =>
      match GetHeader lastKnownHash lastKnownNumber with
      | None => (zeroHash, cache)
      | Some header =>
          let cache := cache ++ [Header.ParentHash header] in
          let lastKnownNumber := u64 (u64 (Header.Number header) - 1) in
          if n =? lastKnownNumber then (Header.ParentHash header, cache) else hashLoop fuel n cache (Header.ParentHash header) lastKnownNumber
      end
  end.

Definition GetHashFn (n : Z) (cache : list bytes) : bytes * list bytes :=
  let cache := if bool_decide (cache = []) then [Header.ParentHash ref] else cache in
  let number := u64 (Header.Number ref) in
  let idx := u64 (number - n - 1) in
  if idx <? zlen cache then (default zeroHash (cache !! Z.to_nat idx), cache)
  else hashLoop (Z.to_nat (number + 1)) n cache (default zeroHash (last cache)) (u64 (number - zlen cache)).
End Hashes.
End core.

(** The message, the price, the value and the data do not change. *)
Module StateTransition.
Record t {L : StateLib} := mk { gp : Z; gas : Z; initialGas : Z; evm : EVM.t }.
Arguments t : clear implicits.
Arguments t {L}.

Section Transition.
Context {L : StateLib} {V : EvmLib} (ctx : Context.t) (run : Contract.t -> bytes -> bool -> ST EVM.t (bytes * option vmError * Contract.t)) (msg : Message.t).
Abbreviation rules := (Context.chainRules ctx).
Abbreviation MT := (ST t).

Definition New (e : EVM.t) (pool : Z) : t := mk L pool 0 0 e.

Definition onEVM {A} (m : ST EVM.t A) : MT A := fun st => let! (x, e) := m (evm st) in Ret (x, mk L (gp st) (gas st) (initialGas st) e).
Abbreviation state m := (onEVM (onDB m)).
Definition setGas (g : Z) : MT unit := modify (fun st => mk L (gp st) g (initialGas st) (evm st)).

Definition buyGas : MT (option coreError) :=
  let mgval := Message.Gas msg * Message.GasPrice msg in
  balance ← state (GetBalance (Message.From msg));
  if balance <? mgval then mret (Some ErrInsufficientFunds)
  else
    pool ← gets gp;
    match GasPool.SubGas pool (Message.Gas msg) with
    | inr err => mret (Some err)
    | inl pool =>
        modify (fun st => mk L pool (u64 (gas st + Message.Gas msg)) (Message.Gas msg) (evm st));;
        state (SubBalance (Message.From msg) mgval);;
        mret None
    end.

Definition preCheck : MT (option coreError) :=
  if Message.CheckNonce msg then
    nonce ← state (GetNonce (Message.From msg));
    if nonce <? Message.Nonce msg then mret (Some ErrNonceTooHigh)
    else if Message.Nonce msg <? nonce then mret (Some ErrNonceTooLow)
    else buyGas
  else buyGas.

Definition gasUsed (st : t) : Z := u64 (initialGas st - gas st).

Definition refundGas : MT unit :=
  used ← gets gasUsed;
  counter ← state GetRefund;
  let refund := if counter <? used `div` 2 then counter else used `div` 2 in
  g ← gets gas;
  setGas (u64 (g + refund));;
  g ← gets gas;
  state (AddBalance (Message.From msg) (g * Message.GasPrice msg));;
  pool ← gets gp;
  pool ← lift (GasPool.AddGas pool g);
  modify (fun st => mk L pool (gas st) (initialGas st) (evm st)).

(** The clauses 1 to 6 of [TransitionDb]; the intrinsic gas is taken. *)
Definition charge : MT (option coreError) :=
  err ← preCheck;
  match err with
  | Some e => mret (Some e)
  | None =>
      match core.IntrinsicGas (Message.Data msg) (bool_decide (Message.To msg = None)) (Rules.IsHomestead rules) (Rules.IsIstanbul rules) with
      | inr e => mret (Some e)
      | inl intrinsic =>
          g ← gets gas;
          if g <? intrinsic then mret (Some ErrIntrinsicGas)
          else
            setGas (u64 (g - intrinsic));;
            can ← (if 0 <? Message.Value msg then state (CanTransfer (Message.From msg) (Message.Value msg)) else mret true);
            mret (if can : bool then None else Some ErrInsufficientFundsForTransfer)
      end
  end.

(** The run of the message: the data and the error of the machine. *)
Definition execute : MT (bytes * option vmError) :=
  let sender := AccountRef (Message.From msg) in
  match Message.To msg with
  | None =>
      g ← gets gas;
      r ← onEVM (Create ctx run sender (Message.Data msg) g (Message.Value msg));
      let '(ret, _, g, vmerr) := r in
      setGas g;; mret (ret, vmerr)
  | Some to =>
      nonce ← state (GetNonce (Message.From msg));
      state (SetNonce (Message.From msg) (u64 (nonce + 1)));;
      g ← gets gas;
      r ← onEVM (Call ctx run sender to (Message.Data msg) g (Message.Value msg));
      let '(ret, g, vmerr) := r in
      setGas g;; mret (match ret with Fresh b => b | Input => Message.Data msg end, vmerr)
  end.

Definition TransitionDb : MT (ExecutionResult.t + coreError) :=
  err ← charge;
  match err with
  | Some e => mret (inr e)
  | None =>
      r ← execute;
      refundGas;;
      used ← gets gasUsed;
      state (AddBalance (Context.Coinbase ctx) (used * Message.GasPrice msg));;
      used ← gets gasUsed;
      mret (inl (ExecutionResult.mk used r.2 r.1))
  end.
End Transition.
End StateTransition.

(** ** A block *)

Module Block.
Record t {L : StateLib} := mk { gp : Z; usedGas : Z; statedb : StateDB.t }.
Arguments t : clear implicits.
Arguments t {L}.
End Block.

Module StateProcessor.
Section Processor.
Context {L : StateLib} {V : EvmLib} {C : CryptoLib}.
Abbreviation MB := (ST Block.t).

Definition onDB {A} (m : M A) : MB A := fun b => let! (x, s) := m (Block.statedb b) in Ret (x, Block.mk L (Block.gp b) (Block.usedGas b) s).

(** The chain: the rules of the configuration, the headers, and the author of a header
    that the consensus engine tells. *)
Context (config : ChainConfig.t) (GetHeader : bytes -> Z -> option Header.t) (Author : Header.t -> bytes) (NoRecursion EnablePreimageRecording : bool) (fuel : nat).

(** The cache of the hashes starts empty; what it has does not change an answer. *)
Definition NewEVMContext (msg : Message.t) (header : Header.t) (author : option bytes) : Context.t :=
  let beneficiary := match author with None => Author header | Some a => a end in
  Context.mk (fun n => (core.GetHashFn GetHeader header n []).1) (Message.From msg) (Message.GasPrice msg) beneficiary (Header.GasLimit header) (Header.Number header) (Header.Time header)
    (Header.Difficulty header) (ChainConfig.toRules config (Header.Number header)) NoRecursion EnablePreimageRecording.

Definition ApplyMessage (ctx : Context.t) (msg : Message.t) : MB (ExecutionResult.t + coreError) := fun b =>
  let! (r, st) := StateTransition.TransitionDb ctx (run ctx fuel) msg (StateTransition.New (NewEVM (Block.statedb b)) (Block.gp b)) in
  Ret (r, Block.mk L (StateTransition.gp st) (Block.usedGas b) (EVM.StateDB (StateTransition.evm st))).

Definition ApplyTransaction (author : option bytes) (header : Header.t) (tx : Transaction.t) : MB (Receipt.t + coreError) :=
  match Transaction.AsMessage tx with
  | inr err => mret (inr err)
  | inl msg =>
      let ctx := NewEVMContext msg header author in
      r ← ApplyMessage ctx msg;
      match r with
      | inr err => mret (inr err)
      | inl result =>
          root ← (if Rules.IsByzantium (Context.chainRules ctx) then onDB (Finalise true);; mret None
                  else root ← onDB (IntermediateRoot (Rules.IsEIP158 (Context.chainRules ctx))); mret (Some root));
          modify (fun b => Block.mk L (Block.gp b) (u64 (Block.usedGas b + ExecutionResult.UsedGas result)) (Block.statedb b));;
          b ← gets id;
          logs ← onDB (GetLogs (Transaction.Hash tx));
          let receipt bloom := Receipt.mk root (if bool_decide (ExecutionResult.Err result = None) then 1 else 0) (Block.usedGas b) bloom logs (Transaction.Hash tx)
            (if bool_decide (Message.To msg = None) then Some (CreateAddress (Context.Origin ctx) (Transaction.AccountNonce tx)) else None)
            (ExecutionResult.UsedGas result) (StateDB.bhash (Block.statedb b)) (Header.Number header) (StateDB.txIndex (Block.statedb b)) in
          bloom ← lift (types.CreateBloom [receipt []]);
          mret (inl (receipt bloom))
      end
  end.

(** The transactions from the [i]-th on. *)
Fixpoint applyAll (header : Header.t) (hash : bytes) (i : Z) (txs : list Transaction.t) : MB (list Receipt.t + coreError) :=
  match txs with
  | [] => mret (inl [])
  | tx :: txs =>
      onDB (Prepare (Transaction.Hash tx) hash i);;
      r ← ApplyTransaction None header tx;
      match r with
      | inr err => mret (inr err)
      | inl receipt =>
          rest ← applyAll header hash (i + 1) txs;
          mret (match rest with inl receipts => inl (receipt :: receipts) | inr err => inr err end)
      end
  end.

(** [ApplyDAOHardFork]: the accounts of the list pay out to one contract; both are
    constants of [params/dao.go]. *)
Definition ApplyDAOHardFork (refundContract : bytes) (drainList : list bytes) : M unit :=
  exist ← Exist refundContract;
  when (negb exist) (CreateAccount refundContract);;
  each (fun addr => balance ← GetBalance addr; AddBalance refundContract balance;; SetBalance addr 0) drainList.

(** [Process] of a block: the receipts, the logs and the gas.  The two fields of the
    configuration about the fork of the DAO are arguments, and so is [Finalize] of the
    consensus engine. *)
Definition Process (Finalize : M unit) (DAOForkSupport : bool) (DAOForkBlock : option Z) (refundContract : bytes) (drainList : list bytes) (header : Header.t) (hash : bytes)
    (txs : list Transaction.t) : M ((list Receipt.t * list Log.t * Z) + coreError) := fun statedb =>
  let dao := DAOForkSupport && bool_decide (DAOForkBlock = Some (Header.Number header)) in
  let! gp := GasPool.AddGas 0 (Header.GasLimit header) in
  let! (r, b) := (onDB (when dao (ApplyDAOHardFork refundContract drainList));; applyAll header hash 0 txs) (Block.mk L gp 0 statedb) in
  match r with
  | inr err => Ret (inr err, Block.statedb b)
  | inl receipts =>
      let! (_, b) := onDB Finalize b in
      Ret (inl (receipts, concat (Receipt.Logs <$> receipts), Block.usedGas b), Block.statedb b)
  end.

(** The worker of the miner: the block that is built, its transactions and receipts. *)
Record environment := mkEnvironment { current : Block.t; txs : list Transaction.t; receipts : list Receipt.t }.

(** A transaction that is rejected is undone in the state. *)
Definition commitTransaction (header : Header.t) (coinbase : bytes) (tx : Transaction.t) : ST environment (list Log.t + coreError) := fun w =>
  let! (snap, b) := onDB Snapshot (current w) in
  let! (r, b) := ApplyTransaction (Some coinbase) header tx b in
  match r with
  | inr err => let! (_, b) := onDB (RevertToSnapshot snap) b in Ret (inr err, mkEnvironment b (txs w) (receipts w))
  | inl receipt => Ret (inl (Receipt.Logs receipt), mkEnvironment b (txs w ++ [tx]) (receipts w ++ [receipt]))
  end.
End Processor.
End StateProcessor.
