(* ===== verification/TransitionSafety.v ===== *)
(** * The safety of transactions and blocks

    What a transaction costs and leaves, whether it is rejected, fails or succeeds,
    and what the transactions of a block use together. *)

From S2P Require Import Prelude GoStd Effects StateDB Bloom Bloombits StateRevert StateSafety EvmData EvmOps EvmState EvmInv EvmWords EvmFrame EvmCalls EvmTable EvmLoop EvmFuel EvmDemo EvmSafety Transition.
Import state vm.

(** ** Intrinsic gas *)

Definition nonZero (data : bytes) : Z := zlen (filter (fun b => byte_Z b <> 0) data).

Lemma nonZero_bounds data : 0 <= nonZero data <= zlen data.
Proof. unfold nonZero, zlen. pose proof (length_filter (fun b => byte_Z b <> 0) data). lia. Qed.

Lemma count_nonZero data n : 0 <= n -> n + zlen data < two64 -> foldl (fun nz byt => if byte_Z byt =? 0 then nz else u64 (nz + 1)) n data = n + nonZero data.
Proof.
  revert n. induction data as [|b data IH]; intros n Hn Hl; [unfold nonZero, zlen; cbn; lia|]. unfold zlen in Hl. cbn [foldl length] in *. unfold nonZero. rewrite filter_cons. fold (nonZero data).
  destruct (Z.eqb_spec (byte_Z b) 0) as [E|E].
  - rewrite decide_False by tauto. apply IH; unfold zlen; lia.
  - rewrite decide_True, u64_id, IH by (done || unfold in_u64, zlen in *; lia). unfold nonZero, zlen. cbn [length]. lia.
Qed.

Lemma div_lt_iff (a b c : Z) : 0 < b -> (a `div` b <? c) = (a <? b * c).
Proof. intros Hb. destruct (Z.ltb_spec (a `div` b) c), (Z.ltb_spec a (b * c)); try done; pose proof (Z.div_mod a b); pose proof (Z.mod_pos_bound a b); nia. Qed.

(** The intrinsic gas is the base of the kind of message and the price of every
    byte of its data, computed without overflow: when the sum does not fit into 64
    bits, and only then, the result is an error. *)
Theorem IntrinsicGas_exact data (creation homestead istanbul : bool) : fits data ->
  let price := if istanbul then params.TxDataNonZeroGasEIP2028 else params.TxDataNonZeroGasFrontier in
  let total := (if creation && homestead then params.TxGasContractCreation else params.TxGas) + price * nonZero data + params.TxDataZeroGas * (zlen data - nonZero data) in
  core.IntrinsicGas data creation homestead istanbul = if total <? two64 then inl total else inr ErrGasOverflow.
Proof.
  intros Hf. cbv zeta. unfold core.IntrinsicGas. pose proof (nonZero_bounds data) as Hn. set (base := if creation && homestead then _ else _). assert (0 <= base <= 53000) as Hb by (unfold base; destruct (_ && _); lia).
  case_bool_decide as E; [subst; change (nonZero []) with 0; change (zlen []) with 0; rewrite (proj2 (Z.ltb_lt _ _)) by (unfold two64; destruct istanbul; lia); f_equal; destruct istanbul; lia|].
  unfold fits in Hf. rewrite count_nonZero by (unfold two64; lia). rewrite Z.add_0_l. set (price := if istanbul then _ else _). assert (price = 16 \/ price = 68) as Hp by (unfold price; destruct istanbul; auto).
  rewrite !div_lt_iff by (destruct Hp as [->| ->]; lia). set (n := nonZero data) in *. destruct (Z.ltb_spec (two64 - 1 - base) (price * n)) as [H1|H1].
  - by rewrite (proj2 (Z.ltb_ge _ _)) by lia.
  - assert (u64 (base + u64 (n * price)) = base + price * n) as -> by (rewrite (u64_id (n * price)), u64_id; unfold in_u64; lia).
    rewrite (u64_id (zlen data - n)) by (unfold in_u64, two64 in *; lia). destruct (Z.ltb_spec (two64 - 1 - (base + price * n)) (4 * (zlen data - n))).
    + by rewrite (proj2 (Z.ltb_ge _ _)) by lia.
    + rewrite (proj2 (Z.ltb_lt _ _)) by lia. f_equal. rewrite (u64_id ((zlen data - n) * 4)), u64_id; unfold in_u64; lia.
Qed.

(** ** The hashes of earlier blocks *)

Lemma u64_flip a b c : in_u64 b -> u64 (a - b) = c -> u64 (a - c) = b.
Proof.
  unfold u64, in_u64. intros Hb <-. pose proof (Z.div_mod (a - b) two64 ltac:(done)) as Hd. set (q := (a - b) / two64) in *. set (r := (a - b) mod two64) in *.
  replace (a - r) with (b + q * two64) by lia. rewrite Z_mod_plus_full. by apply Z.mod_small.
Qed.

Lemma u64_pred z : u64 (u64 z - 1) = u64 (z - 1).
Proof. unfold u64. by rewrite Zminus_mod_idemp_l. Qed.

Section Hashes.
Context (GetHeader : bytes -> Z -> option Header.t) (ref : Header.t).
Abbreviation number := (Header.Number ref).
Implicit Types (cache : list bytes) (n : Z).

(** A chain finds a header by its hash and its number, and has none with the last
    number of 64 bits. *)
Definition chain_ok : Prop := in_u64 number /\ (forall h n header, GetHeader h n = Some header -> Header.Number header = n) /\ forall h, GetHeader h (two64 - 1) = None.

(** The hash of the [i]-th ancestor, by the links from header to header. *)
Fixpoint ancestor (i : nat) : option bytes :=
  match i with
  | O => Some (Header.ParentHash ref)
  | S i => h ← ancestor i; header ← GetHeader h (u64 (number - 1 - Z.of_nat i)); Some (Header.ParentHash header)
  end.

Definition hashOf n : bytes := default zeroHash (ancestor (Z.to_nat (u64 (number - n - 1)))).

(** A cache has the first ancestors. *)
Definition cached cache : Prop := forall i h, cache !! i = Some h -> ancestor i = Some h.

Context (Hc : chain_ok).

Lemma ancestor_none i j : ancestor i = None -> (i <= j)%nat -> ancestor j = None.
Proof. intros Hi Hj. induction Hj as [|j _ IH]; [done|]. cbn. by rewrite IH. Qed.

(** There is no ancestor before the first block. *)
Lemma ancestor_first i : number < Z.of_nat i -> ancestor i = None.
Proof.
  destruct Hc as (Hu & _ & Hl). unfold in_u64 in Hu. intros Hi. apply (ancestor_none (S (Z.to_nat number))); [|lia]. cbn. destruct (ancestor _) as [h|]; [|done]. cbn.
  assert (u64 (number - 1 - Z.of_nat (Z.to_nat number)) = two64 - 1) as ->; [|by rewrite Hl]. rewrite Z2Nat.id by lia. by replace (number - 1 - number) with (-1) by lia.
Qed.

Lemma cached_length cache : cached cache -> zlen cache <= number + 1.
Proof.
  destruct Hc as (Hu & _). unfold in_u64 in Hu. intros H. unfold zlen. destruct (decide (Z.of_nat (length cache) <= number + 1)) as [|Hn]; [done|].
  destruct (cache !! Z.to_nat (number + 1)) as [h|] eqn:E; [|apply lookup_ge_None in E; lia]. apply H in E. by rewrite ancestor_first in E by lia.
Qed.

Lemma cached_snoc cache h : cached cache -> ancestor (length cache) = Some h -> cached (cache ++ [h]).
Proof. intros H Hh i x [[_ E]|[-> <-]]%lookup_snoc_Some; [by apply H|done]. Qed.

Lemma hashLoop_run fuel n cache h : in_u64 n -> cached cache -> cache <> [] -> last cache = Some h -> zlen cache <= u64 (number - n - 1) -> number + 1 < Z.of_nat fuel + zlen cache ->
  exists cache', core.hashLoop GetHeader fuel n cache h (u64 (number - zlen cache)) = (hashOf n, cache') /\ cached cache' /\ cache' <> [].
Proof.
  destruct Hc as (Hu & Hnum & Hl). unfold in_u64 in *. intros Hn. revert cache h. induction fuel as [|fuel IH]; intros cache h Hca Hne Hlast Hidx Hfuel; [pose proof (cached_length cache Hca); lia|].
  assert (exists k, length cache = S k) as (k & Hk) by (destruct cache; [done|by eexists]). rewrite last_lookup, Hk in Hlast. change (pred (S k)) with k in Hlast. apply Hca in Hlast. unfold zlen in *. rewrite Hk in *.
  assert (ancestor (S k) = (header ← GetHeader h (u64 (number - Z.of_nat (S k))); Some (Header.ParentHash header))) as Hnext by (cbn; rewrite Hlast; cbn; by replace (number - 1 - Z.of_nat k) with (number - Z.of_nat (S k)) by lia).
  cbn [core.hashLoop]. destruct (GetHeader h (u64 (number - Z.of_nat (S k)))) as [header|] eqn:Eh; cbn [mbind option_bind] in Hnext.
  - pose proof (Hnum _ _ _ Eh) as Hhn. rewrite Hhn. rewrite (u64_id (u64 _)) by apply u64_range. assert (u64 (u64 (number - Z.of_nat (S k)) - 1) = u64 (number - Z.of_nat (S (S k)))) as ->.
    { rewrite u64_pred. f_equal. lia. }
    assert (cached (cache ++ [Header.ParentHash header])) as Hc' by (apply cached_snoc; [done|by rewrite Hk]).
    destruct (Z.eqb_spec n (u64 (number - Z.of_nat (S (S k))))) as [En|En].
    + exists (cache ++ [Header.ParentHash header]). split; [|split; [done|by destruct cache]]. f_equal. unfold hashOf. assert (u64 (number - n - 1) = Z.of_nat (S k)) as ->; [|by rewrite Nat2Z.id, Hnext].
      replace (number - n - 1) with (number - 1 - n) by lia. apply u64_flip; [pose proof (u64_range (number - n - 1)) as Hr; unfold in_u64 in *; lia|]. rewrite En. f_equal. lia.
    + assert (u64 (number - n - 1) <> Z.of_nat (S k)) as Hne'.
      { intros Ei. apply En. replace (number - n - 1) with (number - 1 - n) in Ei by lia. apply u64_flip in Ei; [|done]. rewrite <- Ei. f_equal. lia. }
      assert (length (cache ++ [Header.ParentHash header]) = S (S k)) as Hlen by (rewrite length_app, Hk; cbn; lia). pose proof (IH (cache ++ [Header.ParentHash header]) (Header.ParentHash header) Hc') as Hrec.
      rewrite Hlen in Hrec. apply Hrec; [by destruct cache|apply last_snoc|lia|lia].
  - exists cache. split; [|done]. f_equal. unfold hashOf. by rewrite (ancestor_none (S k)) by (done || lia).
Qed.

Lemma GetHashFn_run n cache : in_u64 n -> cached cache -> exists cache', core.GetHashFn GetHeader ref n cache = (hashOf n, cache') /\ cached cache'.
Proof.
  pose proof Hc as (Hu & _). intros Hn Hca. unfold core.GetHashFn. rewrite (u64_id number) by done. unfold in_u64 in Hu. set (c := if bool_decide (cache = []) then _ else _).
  assert (cached c /\ c <> []) as [Hcc Hne]. { unfold c. case_bool_decide; [|done]. split; [|done]. intros [|i] h E; [by injection E as <-|done]. }
  destruct (Z.ltb_spec (u64 (number - n - 1)) (zlen c)) as [H|H].
  - exists c. split; [|done]. f_equal. pose proof (u64_range (number - n - 1)) as Hr. unfold in_u64 in Hr. destruct (c !! Z.to_nat (u64 (number - n - 1))) as [h|] eqn:E; [|apply lookup_ge_None in E; unfold zlen in H; lia].
    unfold hashOf. by rewrite (Hcc _ _ E).
  - destruct (last c) as [h|] eqn:El; [|by apply last_None in El]. assert (0 < zlen c) by (destruct c; [done|unfold zlen; cbn [length]; lia]).
    destruct (hashLoop_run (Z.to_nat (number + 1)) n c h Hn Hcc Hne El H ltac:(lia)) as (c' & E & Hc' & _). by exists c'.
Qed.

(** The answers to calls one after the other, with the cache that they share. *)
Fixpoint answers (ns : list Z) cache : list bytes := match ns with [] => [] | n :: ns => let (h, cache) := core.GetHashFn GetHeader ref n cache in h :: answers ns cache end.

(** The cache of [GetHashFn] does not show: whatever calls were made before, each call
    ends and returns the hash of the ancestor with that number, by the links from header
    to header, and the zero hash when there is none. *)
Theorem GetHashFn_exact ns : Forall in_u64 ns -> answers ns [] = hashOf <$> ns.
Proof.
  assert (cached []) as H0 by done. revert H0. generalize (@nil bytes). induction ns as [|n ns IH]; intros cache Hca Hf; [done|]. apply Forall_cons in Hf as [Hn Hf].
  cbn [answers]. destruct (GetHashFn_run n cache Hn Hca) as (cache' & -> & Hc'). cbn. by rewrite IH.
Qed.
End Hashes.

(** ** Balances and nonces *)

Section Accounts.
Context {L : StateLib} {HL : StateLaws L} {HT : TrieLaws L}.
Implicit Types (s t u : StateDB.t) (a b : bytes) (z n : Z).

(** From one state to the next only the balance and the nonce of [a] change, as far
    as accounts can tell, and the change can be undone. *)
Record adjusts a s t : Prop := {
  ad_goes : goes s t;
  ad_codes : codes_ok s -> codes_ok t;
  ad_shrinks : shrinks s t;
  ad_only : onlyAt a s t
}.

Lemma ad_ok a s t : adjusts a s t -> ok t.
Proof. intros A. eapply goes_ok, A. Qed.

Lemma adjusts_trans a s t u : adjusts a s t -> adjusts a t u -> adjusts a s u.
Proof. intros [A2 A3 A4 A5] [B2 B3 B4 B5]. split; [by eapply goes_then|auto|by eapply shrinks_trans|by eapply onlyAt_trans]. Qed.

Lemma quiet_adjusts a s t : quiet s t -> adjusts a s t /\ balance a t = balance a s /\ vNonce a t = vNonce a s.
Proof.
  intros Q. pose proof (quiet_goes _ _ Q) as G. split; [split|].
  - done.
  - eapply codes_eqv, Q.
  - by apply quiet_shrinks.
  - eapply onlyAt_eqv, Q.
  - unfold balance. by destruct (same_eqv _ a s t (proj2 (proj2 Q)) zeroHash) as (_ & _ & -> & -> & _).
Qed.

(** A change [f] of the balance or the nonce. *)
Lemma sets_adjusts a f s t : sets a f s t -> aux t = aux s -> (forall x, stateObject.deleted (f x) = stateObject.deleted x) -> (forall db x, codeView db (f x) = codeView db x) ->
  (forall x, Account.CodeHash (stateObject.data (f x)) = Account.CodeHash (stateObject.data x)) -> (forall db snap d x k, stateView db snap d (f x) k = stateView db snap d x k) ->
  (forall db snap d x k, committedView db snap d (f x) k = committedView db snap d x k) ->
  adjusts a s t /\ balance a t = Account.Balance (stateObject.data (f (base s a))) /\ vNonce a t = Some (Account.Nonce (stateObject.data (f (base s a)))).
Proof.
  intros S Ha Hd Hc Hh Hs Hm. split; [split|].
  - apply S.
  - by eapply sets_codes.
  - by eapply sets_shrinks.
  - by eapply sets_onlyAt.
  - split; [by apply (sets_balance a f s t S)|]. unfold vNonce. by rewrite (sets_seen 0 _ a f s t S (respects_data Account.Nonce) Hd).
Qed.

Lemma base_nonce s a : vNonce a s = Some (Account.Nonce (stateObject.data (base s a))).
Proof. unfold vNonce, seen, base. destruct (view s a) as [o|]; [|done]. by destruct (stateObject.deleted o). Qed.

Lemma AddBalance_adjusts s a z : ok s -> exists t, AddBalance a z s = Ret (tt, t) /\ adjusts a s t /\ balance a t = balance a s + z /\ vNonce a t = vNonce a s.
Proof.
  intros Hw. destruct (proj1 (setters_return s a Hw) z) as [[[] t] E]. exists t. split; [done|]. pose proof (wp_run _ _ _ _ _ (AddBalance_sets s a z Hw) E) as S.
  destruct (proj1 (setters_leave a) z s tt t E) as [Ha _]. rewrite <- (balance_base a s), (base_nonce s a). by refine (sets_adjusts a _ s t S Ha _ _ _ _ _).
Qed.

Lemma SubBalance_adjusts s a z : ok s -> exists t, SubBalance a z s = Ret (tt, t) /\ adjusts a s t /\ balance a t = balance a s - z /\ vNonce a t = vNonce a s.
Proof.
  intros Hw. destruct (proj1 (proj2 (setters_return s a Hw)) z) as [[[] t] E]. exists t. split; [done|]. pose proof (wp_run _ _ _ _ _ (SubBalance_sets s a z Hw) E) as S.
  destruct (proj1 (proj2 (setters_leave a)) z s tt t E) as [Ha _]. rewrite <- (balance_base a s), (base_nonce s a). by refine (sets_adjusts a _ s t S Ha _ _ _ _ _).
Qed.

Lemma SetNonce_adjusts s a n : ok s -> exists t, SetNonce a n s = Ret (tt, t) /\ adjusts a s t /\ balance a t = balance a s /\ vNonce a t = Some n.
Proof.
  intros Hw. destruct (proj1 (proj2 (proj2 (setters_return s a Hw))) n) as [[[] t] E]. exists t. split; [done|]. pose proof (wp_run _ _ _ _ _ (SetNonce_sets s a n Hw) E) as S.
  destruct (proj1 (proj2 (proj2 (setters_leave a))) n s tt t E) as [Ha _]. rewrite <- (balance_base a s). by refine (sets_adjusts a _ s t S Ha _ _ _ _ _).
Qed.

Lemma adjusts_balance a b s t : adjusts a s t -> b <> a -> balance b t = balance b s.
Proof. intros [_ _ _ (H & _)] Hb. unfold balance. by destruct (H b Hb zeroHash) as (_ & _ & -> & _). Qed.

(** When the balance of one account changes, so does the most that all own. *)
Lemma adjusts_ether most g g' s t a z : adjusts a s t -> balance a t = balance a s + z -> 0 <= balance a s + z -> ether most g s -> ether (most + z) g' t.
Proof.
  intros A B Hz [H1 H2]. pose proof (fun b Hb => adjusts_balance a b s t A Hb) as C. split.
  - intros b. pose proof (H1 b). destruct (decide (b = a)) as [->|Hb]; [lia|by rewrite (C b Hb)].
  - intros bs Hn. rewrite (total_one a bs s t Hn C), B. pose proof (H2 bs Hn). destruct (decide (a ∈ bs)) as [Ha|Ha]; [lia|].
    pose proof (H2 (a :: bs) ltac:(by constructor)) as H3. rewrite total_cons in H3. lia.
Qed.

Lemma adjusts_fresh a s t : adjusts a s t -> fresh s -> fresh t.
Proof.
  intros [_ _ Hs (_ & _ & [Hr _] & _)] [F1 F2 F3]. split; [by eapply shrinks_clean|intros p Hp; by eapply F2, Hs|congruence].
Qed.
End Accounts.

(** ** A transaction *)

Section Transition.
Context {L : StateLib} {HL : StateLaws L} {HT : TrieLaws L} {V : EvmLib} {HV : EvmLaws V} (ctx : Context.t).
Import StateTransition.
Abbreviation rules := (Context.chainRules ctx).
Abbreviation db e := (EVM.StateDB e).
Abbreviation sdb st := (EVM.StateDB (evm st)).
Hypothesis Hlimit : in_u64 (Context.GasLimit ctx).
Context (msg : Message.t).
Implicit Types (e : EVM.t) (s : StateDB.t) (st : StateTransition.t).

Abbreviation from := (Message.From msg).
Abbreviation price := (Message.GasPrice msg).
Abbreviation intrinsic := (core.IntrinsicGas (Message.Data msg) (bool_decide (Message.To msg = None)) (Rules.IsHomestead rules) (Rules.IsIstanbul rules)).

(** A message that a transaction can be. *)
Definition msg_ok : Prop := in_u64 (Message.Gas msg) /\ 0 <= price /\ 0 <= Message.Value msg /\ fits (Message.Data msg).

Definition with_db st s : StateTransition.t := mk L (gp st) (gas st) (initialGas st) (EVM.set_StateDB (evm st) s).

Lemma pwp_state {A B} P (m : M A) (k : A -> ST StateTransition.t B) Q st y s : m (sdb st) = Ret (y, s) -> pwp P (k y) Q (with_db st s) -> pwp P (onEVM (onDB m) ≫= k) Q st.
Proof. intros Hm H. unfold pwp, onEVM, onDB, mbind, ST_bind. rewrite Hm. exact H. Qed.

Lemma pwp_look {A B} P (m : M A) v (k : A -> ST StateTransition.t B) Q st : peeks m v -> ok (sdb st) ->
  (forall y s, v (sdb st) = Some y -> quiet (sdb st) s -> pwp P (k y) Q (with_db st s)) -> pwp P (onEVM (onDB m) ≫= k) Q st.
Proof. intros Hm Hw H. destruct (peeks_twp m v _ Hm Hw) as (y & s & E & Hq & Hv). eapply pwp_state; [exact E|by apply H]. Qed.

(** Nothing that can be read changed, or the sender has paid for the gas. *)
Definition kept st st' : Prop := exists s, st' = with_db st s /\ quiet (sdb st) s.

Definition bought st st' : Prop :=
  exists s g, st' = mk L (gp st - Message.Gas msg) g (Message.Gas msg) (EVM.set_StateDB (evm st) s) /\ adjusts from (sdb st) s /\
    balance from s = balance from (sdb st) - Message.Gas msg * price /\ vNonce from s = vNonce from (sdb st) /\
    Message.Gas msg * price <= balance from (sdb st) /\ Message.Gas msg <= gp st.

Lemma bought_peek st s1 st' : quiet (sdb st) s1 -> bought (with_db st s1) st' -> bought st st'.
Proof.
  intros Q (s & g & -> & A & B & N & Hp & Hg). destruct (quiet_adjusts from _ _ Q) as (A0 & B0 & N0). cbn in *.
  exists s, g. split; [done|]. rewrite <- B0, <- N0. split_and!; try done. by eapply adjusts_trans.
Qed.

Lemma bought_then st st' s : bought st st' -> quiet (sdb st') s -> bought st (with_db st' s).
Proof.
  intros (s1 & g & -> & A & B & N & Hp & Hg) Q. destruct (quiet_adjusts from _ _ Q) as (A0 & B0 & N0). cbn in *.
  exists s, g. split; [done|]. rewrite B0, N0. split_and!; try done. by eapply adjusts_trans.
Qed.

Lemma bought_gas st st' g : bought st st' -> bought st (mk L (gp st') g (initialGas st') (evm st')).
Proof. intros (s1 & g1 & -> & H). by exists s1, g. Qed.

Lemma with_db_twice st s s' : with_db (with_db st s) s' = with_db st s'.
Proof. by destruct st as [? ? ? []]. Qed.

Lemma buyGas_run P st : ok (sdb st) -> gas st = 0 -> in_u64 (Message.Gas msg) -> pwp P (buyGas msg) (fun r st' => match r with
    | Some err => (err = ErrInsufficientFunds \/ err = ErrGasLimitReached) /\ kept st st'
    | None => bought st st' /\ gas st' = Message.Gas msg
    end) st.
Proof.
  intros Hw H0 Hg. unfold buyGas. cbv zeta. destruct (getters_peek from zeroHash) as (_ & _ & Hp & _). eapply pwp_look; [exact Hp|done|]. intros bal s Hb Q.
  destruct (Z.ltb_spec bal (Message.Gas msg * price)); [apply pwp_ret; split; [by left|by exists s]|]. apply pwp_gets_bind. cbn [gp with_db]. unfold GasPool.SubGas.
  destruct (Z.ltb_spec (gp st) (Message.Gas msg)); [apply pwp_ret; split; [by right|by exists s]|]. apply pwp_modify_bind.
  pose proof (goes_ok _ _ (quiet_goes _ _ Q)) as Ws. destruct (SubBalance_adjusts s from (Message.Gas msg * price) Ws) as (t & Et & A & B & N).
  eapply pwp_state; [exact Et|]. apply pwp_ret. cbn. rewrite H0, Z.add_0_l, u64_id by done. split; [|done]. destruct (quiet_adjusts from _ _ Q) as (A0 & B0 & N0).
  exists t, (Message.Gas msg). split; [by destruct st as [? ? ? []]|]. rewrite <- B0, <- N0. rewrite balance_some in Hb. injection Hb as Hb. split_and!; [by eapply adjusts_trans|done|done| |done]. lia.
Qed.

(** What [charge] leaves: rejected before the gas is bought, or after it, or ready to
    run with what the intrinsic gas leaves. *)
Definition charged st (r : option coreError) st' : Prop := match r with
  | Some (ErrNonceTooHigh | ErrNonceTooLow | ErrInsufficientFunds | ErrGasLimitReached) => kept st st'
  | Some _ => bought st st'
  | None => bought st st' /\ (Message.CheckNonce msg = true -> vNonce from (sdb st) = Some (Message.Nonce msg)) /\
      (exists z, intrinsic = inl z /\ 0 <= z /\ gas st' = Message.Gas msg - z /\ 0 <= gas st') /\ (0 < Message.Value msg -> Message.Value msg <= balance from (sdb st'))
  end.

Lemma preCheck_run P st : ok (sdb st) -> gas st = 0 -> in_u64 (Message.Gas msg) -> pwp P (preCheck msg) (fun r st' => match r with
    | Some err => (err = ErrNonceTooHigh \/ err = ErrNonceTooLow \/ err = ErrInsufficientFunds \/ err = ErrGasLimitReached) /\ kept st st'
    | None => bought st st' /\ gas st' = Message.Gas msg /\ (Message.CheckNonce msg = true -> vNonce from (sdb st) = Some (Message.Nonce msg))
    end) st.
Proof.
  intros Hw H0 Hg. unfold preCheck. destruct (Message.CheckNonce msg).
  2: { eapply pwp_mono; [by apply buyGas_run|]. intros [err|] st'; [intros [H K]; split; [tauto|done]|intros [H K]; by split_and!]. }
  destruct (getters_peek from zeroHash) as (_ & _ & _ & Hp & _). eapply pwp_look; [exact Hp|done|]. intros nonce s Hn Q.
  assert (kept st (with_db st s)) as Hk by (by exists s).
  destruct (Z.ltb_spec nonce (Message.Nonce msg)); [apply pwp_ret; split; [by left|done]|]. destruct (Z.ltb_spec (Message.Nonce msg) nonce); [apply pwp_ret; split; [by right; left|done]|].
  eapply pwp_mono; [apply buyGas_run; [by eapply goes_ok, quiet_goes|done|done]|]. intros [err|] st' [K1 K2].
  - split; [tauto|]. destruct K2 as (s2 & -> & Q2). exists s2. split; [apply with_db_twice|]. by eapply quiet_chain.
  - split; [by eapply bought_peek|]. split; [done|]. intros _. rewrite Hn. f_equal. lia.
Qed.

Lemma IntrinsicGas_nonneg data (c h i : bool) z : core.IntrinsicGas data c h i = inl z -> 0 <= z.
Proof.
  unfold core.IntrinsicGas. repeat case_match; try done; intros [= <-]; try lia; apply Z.mod_pos_bound; done.
Qed.

Lemma charge_run P st : ok (sdb st) -> gas st = 0 -> in_u64 (Message.Gas msg) -> pwp P (charge ctx msg) (charged st) st.
Proof.
  intros Hw H0 Hg. unfold charge. apply pwp_bind. eapply pwp_mono; [by apply preCheck_run|]. intros [err|] st1.
  { intros [He Hk]. apply pwp_ret. destruct He as [->|[->|[->| ->]]]; done. }
  intros (Hb & Hgas & Hn). destruct intrinsic as [z|err] eqn:Ei.
  2: { apply pwp_ret. unfold core.IntrinsicGas in Ei. assert (err = ErrGasOverflow) as -> by (repeat case_match; by simplify_eq). done. }
  apply pwp_gets_bind. rewrite Hgas. pose proof (IntrinsicGas_nonneg _ _ _ _ _ Ei) as Hz. destruct (Z.ltb_spec (Message.Gas msg) z); [by apply pwp_ret|]. apply pwp_modify_bind.
  rewrite u64_id by (unfold in_u64 in *; lia). apply (bought_gas _ _ (Message.Gas msg - z)) in Hb. set (st2 := mk L _ _ _ _) in *.
  destruct (Z.ltb_spec 0 (Message.Value msg)) as [Hv|Hv].
  2: { apply pwp_bind, pwp_ret, pwp_ret. split_and!; [done|done| |lia]. exists z. cbn. split_and!; done || lia. }
  pose proof Hb as (s & g & Est & A & _). assert (ok (sdb st2)) as W2 by (rewrite Est; exact (ad_ok _ _ _ A)).
  unfold CanTransfer. apply pwp_bind. unfold pwp, onEVM, onDB. destruct (getters_peek from zeroHash) as (_ & _ & Hp & _). destruct (peeks_twp _ _ _ Hp W2) as (x & t & Ex & Q & Hx).
  unfold mbind, ST_bind. rewrite Ex. cbn [obind]. unfold mret, ST_ret. cbn [obind]. pose proof (bought_then _ _ _ Hb Q) as Hb2. unfold with_db in Hb2.
  destruct (Z.leb_spec (Message.Value msg) x); [|exact Hb2]. split_and!; [exact Hb2|done| |].
  - exists z. cbn. split_and!; done || lia.
  - intros _. destruct (quiet_adjusts from _ _ Q) as (_ & E & _). rewrite balance_some in Hx. injection Hx as Hx. change (Message.Value msg <= balance from t). rewrite E. change (sdb st2) with (sdb st1). lia.
Qed.

(** *** The run *)

Definition sending : message :=
  match Message.To msg with
  | None => MCreate (AccountRef from) (Message.Data msg) (Message.Value msg)
  | Some to => MCall (AccountRef from) to (Message.Data msg) (Message.Value msg)
  end.

Lemma sending_ok : msg_ok -> message_ok sending.
Proof. intros (_ & _ & Hv & Hd). unfold sending. by destruct (Message.To msg). Qed.

(** A call takes a nonce of the sender first; a creation does so itself. *)
Definition prepared e e' : Prop :=
  match Message.To msg with
  | None => e' = e
  | Some _ => exists s n, e' = EVM.set_StateDB e s /\ adjusts from (db e) s /\ balance from s = balance from (db e) /\ vNonce from (db e) = Some n /\ vNonce from s = Some (u64 (n + 1))
  end.

Lemma adjusts_ready a e s : ready e -> adjusts a (db e) s -> ready (EVM.set_StateDB e s).
Proof. intros [R1 R2 R3 R4 R5] [A1 A3 A4 A5]. split; [by eapply goes_ok|by eapply goes_revs_ok|auto..]. Qed.

Section Kept.
Context {P : string -> Prop} {J : Z -> StateDB.t -> Prop} {K : bytes -> bytes -> bytes -> Z -> StateDB.t -> Prop}.
Context {HK : Keeps rules false P J K}.

Lemma execute_run fuel st : ready (evm st) -> J (gas st) (sdb st) -> msg_ok -> in_u64 (gas st) -> gas st < Z.of_nat fuel ->
  pwp P (execute ctx (run ctx fuel) msg) (fun r st' => exists e, prepared (evm st) e /\ sent ctx (J := J) (db e) e sending (gas st) (gas st', r.2) (evm st') /\
    gp st' = gp st /\ initialGas st' = initialGas st) st.
Proof.
  intros HR HJ Hm Hg Hf. pose proof (sending_ok Hm) as Hs. unfold execute, prepared. unfold sending in *. destruct (Message.To msg) as [to|].
  - destruct (getters_peek from zeroHash) as (_ & _ & _ & Hp & _). eapply pwp_look; [exact Hp|apply HR|]. intros n s Hn Q.
    destruct (quiet_adjusts from _ _ Q) as (A0 & B0 & N0). destruct (SetNonce_adjusts s from (u64 (n + 1)) (ad_ok _ _ _ A0)) as (t & Et & A & B & N).
    eapply pwp_state; [exact Et|]. apply pwp_gets_bind. rewrite with_db_twice. cbn [gas with_db]. set (e := EVM.set_StateDB (evm st) t).
    pose proof (adjusts_trans _ _ _ _ A0 A) as A1. pose proof (adjusts_ready _ _ _ HR A1) as Re.
    assert (J (gas st) (db e)) as Je. { eapply (J_nonce (gas st) s t); [done|exact (ad_ok _ _ _ A0)|exact (ad_ok _ _ _ A)|exact Et|]. eapply J_eqv; [apply Q|done]. }
    pose proof (send_run ctx Hlimit fuel _ (gas st) e Re Je Hs Hg Hf) as H. cbn [send] in H. apply pwp_bind. unfold pwp, onEVM in *. cbn [evm with_db]. fold e. unfold mbind, ST_bind in H.
    destruct (Call ctx (run ctx fuel) _ to _ (gas st) _ e) as [[[[ret g] err] e']|]; [|done]. cbn in H |- *. exists e. split; [|done].
    exists t, n. split_and!; [done|done|congruence|done|done].
  - apply pwp_gets_bind. pose proof (send_run ctx Hlimit fuel _ (gas st) (evm st) HR HJ Hs Hg Hf) as H. cbn [send] in H. apply pwp_bind. unfold pwp, onEVM in *. unfold mbind, ST_bind in H.
    destruct (Create ctx (run ctx fuel) _ _ (gas st) _ (evm st)) as [[[[[ret addr] g] err] e']|]; [|done]. cbn in H |- *. by exists (evm st).
Qed.
End Kept.

(** *** The refund *)

(** What is refunded of the gas used, and what a message with the gas [rest] left has
    used then. *)
Definition refunded (used counter : Z) : Z := if counter <? used `div` 2 then counter else used `div` 2.
Definition usedGas (rest counter : Z) : Z := Message.Gas msg - rest - refunded (Message.Gas msg - rest) counter.

Lemma refunded_bounds used counter : 0 <= used -> 0 <= counter -> 0 <= refunded used counter /\ 2 * refunded used counter <= used.
Proof. intros Hu Hc. unfold refunded. pose proof (Z.div_mod used 2 ltac:(lia)). pose proof (Z.mod_pos_bound used 2 ltac:(lia)). destruct (Z.ltb_spec counter (used `div` 2)); lia. Qed.

(** The rest goes back to the sender and to the pool, the price of the used gas to the
    coinbase. *)
Definition paidOut st st' used : Prop :=
  used = usedGas (gas st) (StateDB.refund (sdb st)) /\ gp st' = gp st + (Message.Gas msg - used) /\
  exists s t, evm st' = EVM.set_StateDB (evm st) t /\
    adjusts from (sdb st) s /\ balance from s = balance from (sdb st) + (Message.Gas msg - used) * price /\ vNonce from s = vNonce from (sdb st) /\
    adjusts (Context.Coinbase ctx) s t /\ balance (Context.Coinbase ctx) t = balance (Context.Coinbase ctx) s + used * price /\ vNonce (Context.Coinbase ctx) t = vNonce (Context.Coinbase ctx) s.

Lemma finish_run {B} P (k : unit -> ST StateTransition.t B) Q st : ok (sdb st) -> in_u64 (Message.Gas msg) -> initialGas st = Message.Gas msg -> 0 <= gas st <= Message.Gas msg -> 0 <= StateDB.refund (sdb st) ->
  0 <= gp st -> gp st + Message.Gas msg < two64 -> (forall st' used, paidOut st st' used -> gasUsed st' = used -> pwp P (k tt) Q st') ->
  pwp P (refundGas msg;; used ← gets gasUsed; onEVM (onDB (AddBalance (Context.Coinbase ctx) (used * price))) ≫= k) Q st.
Proof.
  intros Hw Hu Hi Hg Hr Hp Hp' H. unfold in_u64 in Hu. apply pwp_bind. unfold refundGas. apply pwp_gets_bind. eapply (pwp_state _ GetRefund); [done|]. cbv zeta.
  assert (gasUsed st = Message.Gas msg - gas st) as -> by (unfold gasUsed; rewrite Hi; apply u64_id; unfold in_u64; lia).
  set (counter := StateDB.refund (sdb st)) in *. fold (refunded (Message.Gas msg - gas st) counter). destruct (refunded_bounds (Message.Gas msg - gas st) counter) as [R1 R2]; [lia|done|].
  apply pwp_gets_bind, pwp_modify_bind, pwp_gets_bind. cbn [gas with_db gp initialGas evm]. rewrite u64_id by (unfold in_u64; lia).
  set (g := gas st + refunded (Message.Gas msg - gas st) counter). assert (0 <= g <= Message.Gas msg) as Hgb by (unfold g; lia). destruct (AddBalance_adjusts (sdb st) from (g * price) Hw) as (s & Es & A & Bl & N).
  eapply pwp_state; [exact Es|]. apply pwp_gets_bind. cbn [gas with_db gp initialGas evm]. eapply (pwp_lift_bind _ _ (gp st + g)).
  { unfold GasPool.AddGas. rewrite (proj2 (Z.ltb_ge _ _)); [done|]. unfold two64 in *. lia. }
  apply pwp_modify. apply pwp_gets_bind. cbn [gas gp initialGas evm]. unfold gasUsed. cbn [gas gp initialGas with_db]. rewrite Hi, u64_id by (unfold in_u64; lia).
  destruct (AddBalance_adjusts s (Context.Coinbase ctx) ((Message.Gas msg - g) * price) (ad_ok _ _ _ A)) as (t & Et & At & Bt & Nt).
  eapply pwp_state; [exact Et|]. apply (H _ (Message.Gas msg - g)).
  - split; [unfold usedGas; fold counter; unfold g; lia|]. split; [cbn; lia|]. exists s, t. split; [by destruct st as [? ? ? []]|]. replace (Message.Gas msg - (Message.Gas msg - g)) with g by lia. by split_and!.
  - unfold gasUsed. cbn [initialGas gas with_db]. rewrite ?Hi. apply u64_id. unfold in_u64. lia.
Qed.

(** *** The whole transaction *)

(** How a transaction went: rejected, or charged, prepared, run and settled. *)
Definition went (J : Z -> StateDB.t -> Prop) st (r : ExecutionResult.t + coreError) st' : Prop :=
  match r with
  | inr err => charged st (Some err) st'
  | inl res => exists st1 e st2, charged st None st1 /\ prepared (evm st1) e /\ sent ctx (J := J) (db e) e sending (gas st1) (gas st2, ExecutionResult.Err res) (evm st2) /\
      gp st2 = gp st1 /\ 0 <= StateDB.refund (sdb st2) /\ paidOut st2 st' (ExecutionResult.UsedGas res)
  end.

Lemma went_mono (J J' : Z -> StateDB.t -> Prop) st r st' : (forall g s, J g s -> J' g s) -> went J st r st' -> went J' st r st'.
Proof.
  intros HJ. destruct r as [res|err]; [|done]. intros (st1 & e & st2 & H1 & H2 & ([F H] & H4 & H5 & H6) & H7 & H8 & H9). exists st1, e, st2.
  split; [done|]. split; [done|]. split; [|by split_and!]. split; [by split; [|apply HJ]|]. split; [exact H4|]. split; [exact H5|exact H6].
Qed.

Lemma TransitionDb_pwp {P J K} {HK : Keeps rules false P J K} fuel e pool : ready e -> msg_ok -> in_u64 pool -> (Message.Gas msg <= pool -> Message.Gas msg < Z.of_nat fuel) ->
  (forall st, bought (New e pool) st -> 0 <= gas st <= Message.Gas msg -> J (gas st) (sdb st)) -> (forall g s, 0 <= g -> J g s -> 0 <= StateDB.refund s) ->
  pwp P (TransitionDb ctx (run ctx fuel) msg) (went J (New e pool)) (New e pool).
Proof.
  intros HR Hm Hp Hfuel HJ Hcount. pose proof Hm as (Hu & Hpr & Hv & Hd). unfold in_u64 in Hu, Hp.
  unfold TransitionDb. apply pwp_bind. eapply pwp_mono; [apply charge_run; [apply HR|done|done]|]. intros [err|] st1 Hc; [by apply pwp_ret|].
  pose proof Hc as (Hb & _ & (z & _ & Hz & Hgas & Hgas0) & _). pose proof (HJ st1 Hb ltac:(lia)) as HJ1. pose proof Hb as (s1 & g1 & Est & A & _ & _ & _ & Hpool). cbn in Hpool. specialize (Hfuel Hpool).
  assert (ready (evm st1)) as HR1 by (rewrite Est; by eapply adjusts_ready).
  apply pwp_bind. eapply pwp_mono; [apply (execute_run (HK := HK) fuel st1 HR1 HJ1 Hm); [unfold in_u64; lia|lia]|].
  intros res st2 (e2 & Hpre & Hsent & Hgp & Hini). pose proof Hsent as (Ses & _ & Hrest & _). cbn [fst] in Hrest. destruct Ses as [Fol HJ2].
  assert (initialGas st1 = Message.Gas msg /\ gp st1 = pool - Message.Gas msg) as [I1 G1] by (rewrite Est; done).
  pose proof (Hcount (gas st2) _ ltac:(lia) HJ2) as Hr2.
  apply finish_run; [exact (follows_valid _ _ (proj1 Fol))|done|congruence|lia|done|lia|lia|].
  intros st3 used Hset Hused. apply pwp_gets_bind, pwp_ret. cbn. exists st1, e2, st2. rewrite Hused. split; [done|]. split; [done|]. split; [exact Hsent|by split_and!].
Qed.

(** From a state with nothing cleared a transaction does not panic. *)
Lemma TransitionDb_run {J K} {HK : Keeps rules false refundPanic J K} fuel e pool : ready e -> fresh (db e) -> msg_ok -> Rules.IsEIP150 rules = true ->
  Message.Gas msg <= 2 ^ 56 -> in_u64 pool -> Message.Gas msg < Z.of_nat fuel -> (forall st, bought (New e pool) st -> J (gas st) (sdb st)) ->
  exists r st', TransitionDb ctx (run ctx fuel) msg (New e pool) = Ret (r, st') /\ went J (New e pool) r st'.
Proof.
  intros HR Hf Hm H150 Hg Hp Hfuel HJ. assert (200 * Message.Gas msg < two64) as Hmost by (unfold two64; lia). set (HS := keeps_solvent (200 * Message.Gas msg) Hmost rules H150).
  pose proof (keeps_both rules false _ _ _ _ _ _ HS HK) as HB. apply pwp_never. eapply pwp_mono; [apply (TransitionDb_pwp (HK := HB) fuel e pool HR Hm Hp (fun _ => Hfuel))|].
  - intros st Hb Hgas. split; [|by apply HJ]. pose proof Hb as (s & g & -> & A & _). cbn in *. apply (J_less (Keeps := HS) (Message.Gas msg)); [lia|].
    apply fresh_solvent. eapply adjusts_fresh; [exact A|exact Hf].
  - intros g s Hg0 [Hs _]. by destruct (Hs Hg0) as (_ & _ & ? & _).
  - intros r st'. apply went_mono. tauto.
Qed.

(** *** What transactions do *)

Lemma used_bounds rest counter : 0 <= rest <= Message.Gas msg -> 0 <= counter -> 0 <= usedGas rest counter <= Message.Gas msg - rest /\ Message.Gas msg - rest <= 2 * usedGas rest counter.
Proof. intros Hr Hc. unfold usedGas. destruct (refunded_bounds (Message.Gas msg - rest) counter); lia. Qed.

(** The gas of a transaction that was not rejected. *)
Lemma went_gas J st res st' : went J st (inl res) st' -> let used := ExecutionResult.UsedGas res in
  0 <= used <= Message.Gas msg /\ gp st' = gp st - used /\ exists z, intrinsic = inl z /\ z <= 2 * used.
Proof.
  intros (st1 & e & st2 & (Hb & _ & (z & Hi & Hz & Hgas & H0) & _) & _ & (_ & _ & Hr & _) & Hgp & Hc & (-> & Hp & _)). cbv zeta. cbn [fst] in Hr.
  destruct Hb as (s & g & Est & _). assert (gp st1 = gp st - Message.Gas msg) as Eg by (by rewrite Est). destruct (used_bounds (gas st2) (StateDB.refund (sdb st2))) as [U1 U2]; [lia|done|].
  split; [lia|]. split; [lia|]. exists z. split; [done|]. lia.
Qed.

(** What a rejected transaction leaves. *)
Lemma charged_left st err st' : ready (evm st) -> charged st (Some err) st' -> ready (evm st').
Proof.
  intros HR H. assert (kept st st' \/ bought st st') as [(s & -> & Q)|(s & g & -> & A & _)] by (destruct err; auto).
  - exact (adjusts_ready from _ _ HR (proj1 (quiet_adjusts from _ _ Q))).
  - by eapply adjusts_ready.
Qed.

Lemma charged_pool st err st' : charged st (Some err) st' -> gp st' = gp st \/ gp st' = gp st - Message.Gas msg /\ Message.Gas msg <= gp st.
Proof. intros H. destruct err; destruct H as (s & H); (destruct H as [-> _] || destruct H as (g & -> & _ & _ & _ & _ & Hg)); cbn; auto. Qed.

Lemma went_ready J st r st' : ready (evm st) -> went J st r st' -> ready (evm st').
Proof.
  intros HR. destruct r as [res|err]; [|by apply charged_left].
  intros (st1 & e & st2 & _ & _ & Hs & _ & _ & (_ & _ & s & t & -> & A & _ & _ & A' & _)). destruct (sent_ready _ _ _ _ _ _ _ Hs) as [R2 _].
  pose proof (adjusts_ready _ _ _ R2 A) as R3. exact (adjusts_ready _ _ t R3 A').
Qed.

(** C6: A transaction is charged for what it uses.  It ends without a panic; when it is
    not rejected it uses at most its gas and at least half of its intrinsic gas,
    whatever its code does and is refunded, and the pool of the block has exactly the
    used gas less. *)
Theorem TransitionDb_ends fuel e pool : ready e -> fresh (db e) -> msg_ok -> Rules.IsEIP150 rules = true -> Message.Gas msg <= 2 ^ 56 -> in_u64 pool ->
  Message.Gas msg < Z.of_nat fuel -> exists r st', TransitionDb ctx (run ctx fuel) msg (New e pool) = Ret (r, st') /\ ready (evm st') /\
  match r with
    | inl res => 0 <= ExecutionResult.UsedGas res <= Message.Gas msg /\ gp st' = pool - ExecutionResult.UsedGas res /\
        exists z, intrinsic = inl z /\ z <= 2 * ExecutionResult.UsedGas res
    | inr _ => True
    end.
Proof.
  intros HR Hf Hm H150 Hg Hp Hfuel. destruct (TransitionDb_run (HK := keeps_nothing rules false) fuel e pool HR Hf Hm H150 Hg Hp Hfuel ltac:(done)) as (r & st' & E & H).
  exists r, st'. split; [done|]. split; [exact (went_ready _ (New e pool) r st' HR H)|]. destruct r as [res|]; [|done]. exact (went_gas _ (New e pool) res st' H).
Qed.

(** *** Ether *)

Lemma bought_ether most g e pool st : ether most 0 (db e) -> bought (New e pool) st -> ether (most - Message.Gas msg * price) g (sdb st).
Proof.
  intros He (s & g0 & -> & A & B & _ & Hle & _). cbn in *. apply (adjusts_ether most 0 g (db e) s from (- (Message.Gas msg * price)) A); [lia|lia|done].
Qed.

Lemma went_ether J e pool most r st' : (forall g s, J g s -> ether (most - Message.Gas msg * price) g s) -> msg_ok -> ether most 0 (db e) ->
  went J (New e pool) r st' -> ether most 0 (sdb st').
Proof.
  intros HJ Hm He H. pose proof Hm as (Hu & Hpr & _). unfold in_u64 in Hu. destruct r as [res|err].
  - pose proof (went_gas _ (New e pool) res st' H) as (Hused & _ & _). destruct H as (st1 & e2 & st2 & _ & _ & (Ses & _) & _ & _ & (_ & _ & s & t & -> & A & B & _ & A' & B' & _)).
    destruct Ses as [_ He2%HJ]. cbn [fst snd] in *. pose proof (proj1 He2 from) as P1. set (used := ExecutionResult.UsedGas res) in *.
    pose proof (adjusts_ether _ _ 0 _ _ _ _ A B ltac:(nia) He2) as He3. pose proof (proj1 He3 (Context.Coinbase ctx)) as P2.
    pose proof (adjusts_ether _ _ 0 _ _ _ _ A' B' ltac:(nia) He3) as He4. cbn. replace most with (most - Message.Gas msg * price + (Message.Gas msg - used) * price + used * price) by lia. exact He4.
  - assert (kept (New e pool) st' \/ bought (New e pool) st') as [(s & -> & Q)|Hb] by (destruct err; auto).
    + apply (balances_ether most 0 (db e) s); [|done]. intros b. by destruct (same_eqv _ b _ _ (proj2 (proj2 Q)) zeroHash) as (_ & _ & Eb & _).
    + destruct (bought_ether most 0 e pool st' He Hb) as [H1 H2]. split; [done|]. intros bs Hn. specialize (H2 bs Hn). nia.
Qed.

(** C7: A transaction makes no ether: when no accounts own more than [most] together
    and none is in debt, this is so afterwards, with the fee that the coinbase gets,
    whether the transaction succeeds, fails or is rejected. *)
Theorem TransitionDb_ether fuel e pool most : ready e -> fresh (db e) -> msg_ok -> Rules.IsEIP150 rules = true -> Message.Gas msg <= 2 ^ 56 -> in_u64 pool ->
  Message.Gas msg < Z.of_nat fuel -> ether most 0 (db e) ->
  exists r st', TransitionDb ctx (run ctx fuel) msg (New e pool) = Ret (r, st') /\ ether most 0 (sdb st').
Proof.
  intros HR Hf Hm H150 Hg Hp Hfuel He.
  destruct (TransitionDb_run (HK := keeps_ether rules (most - Message.Gas msg * price)) fuel e pool HR Hf Hm H150 Hg Hp Hfuel) as (r & st' & E & H); [intros st; by apply bought_ether|].
  exists r, st'. split; [done|]. by eapply (went_ether (ether (most - Message.Gas msg * price))).
Qed.

Lemma went_refund J e pool r st' : 0 <= StateDB.refund (db e) -> went J (New e pool) r st' -> 0 <= StateDB.refund (sdb st').
Proof.
  intros H0. destruct r as [res|err].
  - intros (st1 & e2 & st2 & _ & _ & _ & _ & Hr & (_ & _ & s & t & -> & A & _ & _ & A' & _)). cbn. destruct A as [_ _ _ (_ & _ & [R1 _] & _)], A' as [_ _ _ (_ & _ & [R2 _] & _)]. congruence.
  - intros H. assert (kept (New e pool) st' \/ bought (New e pool) st') as [(s & -> & Q)|(s & g & -> & A & _)] by (destruct err; auto); cbn.
    + destruct (quiet_adjusts from _ _ Q) as ([_ _ _ (_ & _ & [R _] & _)] & _). cbn in R. congruence.
    + destruct A as [_ _ _ (_ & _ & [R _] & _)]. cbn in R. congruence.
Qed.

(** *** Failed transactions *)

Lemma reads_only a s t : ok s -> ok t -> same_reads s t -> onlyAt a s t /\ balance a t = balance a s /\ vNonce a t = vNonce a s.
Proof.
  intros Ws Wt [H1 H2 H3 H4 H5 H6 H7 H8 H9 H10 H11 H12 _].
  assert (forall A (m : M A) v, observes m v -> result m t = result m s -> v t = v s) as Ho by (intros A m v Hm; by rewrite (observes_result m v s Hm Ws), (observes_result m v t Hm Wt)).
  assert (forall b, same_views b s t) as Hv. { intros b k. destruct (getters_observe b k) as (G1 & G2 & G3 & G4 & G5 & G6 & G7 & G8 & G9 & G10). split_and!; by eapply Ho. }
  destruct (Hv a zeroHash) as (E1 & _ & E3 & E4 & _ & _ & E7 & _). split; [|unfold balance; by rewrite E3, E4]. split; [auto|]. split; [done|]. split; [|rewrite E1; intros ->; split; [done|intros k; split; apply (Hv a k)]].
  unfold result, GetRefund, GetLogs, gets in H11, H12. split; [congruence|]. intros h. specialize (H12 h). congruence.
Qed.

Lemma undone_only s t : ok s -> ok t -> undone sending s t -> onlyAt from s t /\ balance from t = balance from s /\ (Message.To msg <> None -> vNonce from t = vNonce from s).
Proof.
  intros Ws Wt. unfold sending. destruct (Message.To msg); cbn [undone].
  - intros H. destruct (reads_only from s t Ws Wt H) as (H1 & H2 & H3). by split_and!.
  - intros [H1 H2]. cbn in H1, H2. split_and!; [done|unfold balance; by rewrite H2|done].
Qed.

Lemma onlyAt_refl a s : onlyAt a s s.
Proof. split; [by intros b _ k|]. split_and!; [done|by split|]. by intros Hx. Qed.

Lemma onlyAt_all a s t : onlyAt a s t -> forall b, vCode b t = vCode b s /\ (vExist b s = Some true -> vExist b t = Some true /\ forall k, vState b k t = vState b k s).
Proof.
  intros (H1 & H2 & _ & H4) b. destruct (decide (b = a)) as [->|Hb].
  - split; [done|]. intros Hx. destruct (H4 Hx) as [Hx' Hk]. split; [done|]. intros k. apply Hk.
  - pose proof (H1 b Hb) as Hv. destruct (Hv zeroHash) as (-> & _ & _ & _ & _ & _ & -> & _). split; [done|]. intros Hx. split; [done|]. intros k. by destruct (Hv k) as (_ & _ & _ & _ & _ & _ & _ & _ & -> & _).
Qed.

Lemma prepared_only e e' : prepared e e' -> onlyAt from (db e) (db e') /\ balance from (db e') = balance from (db e) /\
  (Message.To msg <> None -> exists n, vNonce from (db e) = Some n /\ vNonce from (db e') = Some (u64 (n + 1))).
Proof.
  unfold prepared. destruct (Message.To msg); [|intros ->; split; [apply onlyAt_refl|done]].
  intros (s & n & -> & A & B & N & N'). split; [apply A|]. split; [done|]. intros _. by exists n.
Qed.

(** Before the coinbase is paid, a failed transaction has changed the sender only. *)
Lemma went_failed J e pool res st' : ready e -> went J (New e pool) (inl res) st' -> ExecutionResult.Err res <> None ->
  (ExecutionResult.Err res = Some ErrCodeStoreOutOfGas -> Rules.IsHomestead rules = true) ->
  exists s, onlyAt from (db e) s /\ balance from s = balance from (db e) - ExecutionResult.UsedGas res * price /\
    (Message.To msg <> None -> exists n, vNonce from (db e) = Some n /\ vNonce from s = Some (u64 (n + 1))) /\
    adjusts (Context.Coinbase ctx) s (sdb st') /\ balance (Context.Coinbase ctx) (sdb st') = balance (Context.Coinbase ctx) s + ExecutionResult.UsedGas res * price /\
    vNonce (Context.Coinbase ctx) (sdb st') = vNonce (Context.Coinbase ctx) s.
Proof.
  intros HR (st1 & e2 & st2 & (Hb & _) & Hpre & Hsent & _ & _ & (_ & _ & s & t & -> & A & B & N & A' & B' & N')) Hne Hh.
  pose proof (sent_ready _ _ _ _ _ _ _ Hsent) as [R2 _]. destruct Hsent as (_ & _ & _ & Hu). specialize (Hu Hne Hh).
  destruct Hb as (s1 & g1 & -> & A1 & B1 & N1 & _). cbn in *. assert (ok (db e2)) as W2. { unfold prepared in Hpre. destruct (Message.To msg); [destruct Hpre as (s2 & n & -> & A2 & _); exact (ad_ok _ _ _ A2)|subst e2; exact (ad_ok _ _ _ A1)]. }
  destruct (prepared_only _ _ Hpre) as (O2 & B2 & N2). cbn in *. destruct (undone_only _ _ W2 (re_ok _ R2) Hu) as (O3 & B3 & N3).
  exists s. split_and!; [|lia| |done|done|done].
  - eapply onlyAt_trans; [apply A1|]. eapply onlyAt_trans; [exact O2|]. eapply onlyAt_trans; [exact O3|apply A].
  - intros Hto. destruct (N2 Hto) as (n & E1 & E2). exists n. split; [congruence|]. rewrite N, (N3 Hto). done.
Qed.

(** C5: A transaction that the machine fails costs its fee and nothing else: the sender
    pays for the used gas and the coinbase gets it, a call takes one nonce of the
    sender, and every other account, all code, the slots of the accounts that exist,
    the logs and the refund counter are as before. *)
Theorem TransitionDb_failed fuel e pool res err st' : ready e -> fresh (db e) -> msg_ok -> Rules.IsEIP150 rules = true -> Message.Gas msg <= 2 ^ 56 -> in_u64 pool ->
  Message.Gas msg < Z.of_nat fuel -> TransitionDb ctx (run ctx fuel) msg (New e pool) = Ret (inl res, st') -> ExecutionResult.Err res = Some err ->
  (err = ErrCodeStoreOutOfGas -> Rules.IsHomestead rules = true) -> let fee := ExecutionResult.UsedGas res * price in
  (forall b, balance b (sdb st') = balance b (db e) - (if decide (b = from) then fee else 0) + (if decide (b = Context.Coinbase ctx) then fee else 0)) /\
  (forall b, b <> from -> b <> Context.Coinbase ctx -> same_views b (db e) (sdb st')) /\
  (forall b, vCode b (sdb st') = vCode b (db e) /\ (vExist b (db e) = Some true -> forall k, vState b k (sdb st') = vState b k (db e))) /\
  (forall b, b <> from -> vNonce b (sdb st') = vNonce b (db e)) /\
  (Message.To msg <> None -> exists n, vNonce from (db e) = Some n /\ vNonce from (sdb st') = Some (u64 (n + 1))) /\ same_aux (db e) (sdb st').
Proof.
  intros HR Hf Hm H150 Hg Hp Hfuel E He Hh. cbv zeta. destruct (TransitionDb_run (HK := keeps_nothing rules false) fuel e pool HR Hf Hm H150 Hg Hp Hfuel ltac:(done)) as (r & st & E' & H).
  rewrite E in E'. injection E' as <- <-. destruct (went_failed _ e pool res st' HR H) as (s & O1 & B1 & N1 & A2 & B2 & N2); [congruence|intros Hc; apply Hh; congruence|]. clear H E.
  pose proof (ad_only _ _ _ A2) as O2. set (t := sdb st') in *. set (coin := Context.Coinbase ctx) in *. split_and!.
  - intros b. assert (balance b s = balance b (db e) - if decide (b = from) then ExecutionResult.UsedGas res * price else 0) as <-.
    { destruct (decide (b = from)) as [->|Hb]; [done|]. unfold balance. destruct (proj1 O1 b Hb zeroHash) as (_ & _ & -> & _). lia. }
    destruct (decide (b = coin)) as [->|Hb]; [done|]. unfold balance. destruct (proj1 O2 b Hb zeroHash) as (_ & _ & -> & _). lia.
  - intros b Hb Hc. eapply same_views_trans; [by apply O1|by apply O2].
  - intros b. destruct (onlyAt_all _ _ _ O1 b) as [C1 S1], (onlyAt_all _ _ _ O2 b) as [C2 S2]. split; [congruence|]. intros Hx k. destruct (S1 Hx) as [Hx' K1], (S2 Hx') as [_ K2]. by rewrite K2, K1.
  - intros b Hb. destruct (proj1 O1 b Hb zeroHash) as (_ & _ & _ & <- & _). destruct (decide (b = coin)) as [->|Hc]; [done|]. by destruct (proj1 O2 b Hc zeroHash) as (_ & _ & _ & -> & _).
  - intros Hto. destruct (N1 Hto) as (n & E1 & E2). exists n. split; [done|]. rewrite <- E2. destruct (decide (from = coin)) as [Hc|Hc]; [by rewrite Hc|]. by destruct (proj1 O2 from Hc zeroHash) as (_ & _ & _ & -> & _).
  - destruct O1 as (_ & _ & [R1 L1] & _), O2 as (_ & _ & [R2 L2] & _). split; [congruence|]. intros h. by rewrite L2, L1.
Qed.

(** *** Rejected transactions *)

Lemma wp_last {S A B} (m : ST S A) (f : A -> ST S B) (Q : B -> S -> Prop) (z : S) : (forall x z', wp (f x) Q z') -> wp (m ≫= f) Q z.
Proof. intros H. unfold wp, mbind, ST_bind. destruct (m z) as [[x z']|]; [exact (H x z')|done]. Qed.

Lemma rejected fuel st err st' : ok (sdb st) -> gas st = 0 -> in_u64 (Message.Gas msg) -> TransitionDb ctx (run ctx fuel) msg st = Ret (inr err, st') -> charged st (Some err) st'.
Proof.
  intros Hw H0 Hg E. assert (wp (TransitionDb ctx (run ctx fuel) msg) (fun r st' => forall err, r = inr err -> charged st (Some err) st') st) as H; [|exact (wp_run _ _ _ _ _ H E err eq_refl)].
  unfold TransitionDb. apply wp_bind. pose proof (charge_run (fun _ => True) st Hw H0 Hg) as Hc. unfold pwp in Hc. unfold wp at 1. destruct (charge ctx msg st) as [[[err1|] st1]|]; [|..|done].
  - apply wp_ret. by intros err2 [= <-].
  - do 5 (apply wp_last; intros ? ?). by apply wp_ret.
Qed.

(** C29: A rejected transaction.  A wrong nonce, missing funds for the gas or a full
    block leave everything as it was.  But when the gas does not cover the intrinsic
    gas, or the funds do not cover the value, the gas has been bought already: the
    sender has paid for all of it, and the pool of the block has lost it. *)
Theorem TransitionDb_rejected fuel e pool err st' : ok (db e) -> in_u64 (Message.Gas msg) -> TransitionDb ctx (run ctx fuel) msg (New e pool) = Ret (inr err, st') ->
  match err with
  | ErrNonceTooHigh | ErrNonceTooLow | ErrInsufficientFunds | ErrGasLimitReached => gp st' = pool /\ same_reads (db e) (sdb st')
  | _ => gp st' = pool - Message.Gas msg /\ balance from (sdb st') = balance from (db e) - Message.Gas msg * price /\ forall b, b <> from -> same_views b (db e) (sdb st')
  end.
Proof.
  intros Hw Hg E. pose proof (rejected fuel (New e pool) err st' Hw eq_refl Hg E) as H.
  assert (kept (New e pool) st' -> gp st' = pool /\ same_reads (db e) (sdb st')) as H1.
  { intros (s & -> & Q). split; [done|]. eapply eqv_reads; [exact Hw|exact (goes_ok _ _ (quiet_goes _ _ Q))|apply Q]. }
  assert (bought (New e pool) st' -> gp st' = pool - Message.Gas msg /\ balance from (sdb st') = balance from (db e) - Message.Gas msg * price /\ forall b, b <> from -> same_views b (db e) (sdb st')) as H2.
  { intros (s & g & -> & A & B & _). split; [done|]. split; [done|apply A]. }
  destruct err; auto.
Qed.
End Transition.

(** ** The end of a transaction *)

Section Books.
Context {L : StateLib} {HL : StateLaws L} {HT : TrieLaws L} {V : EvmLib} {HV : EvmLaws V}.
Implicit Types (s t : StateDB.t) (a b : bytes) (most : Z).

(** A state between two transactions. *)
Record booked most s : Prop := {
  bk_ok : ok s;
  bk_revs : revs_ok s;
  bk_codes : codes_ok s;
  bk_refund : 0 <= StateDB.refund s;
  bk_ether : ether most 0 s
}.

(** Afterwards an account is as it was or gone, its slots apart. *)
Lemma Finalise_accounts del s t a : ok s -> Finalise del s = Ret (tt, t) ->
  vBalance a t = vBalance a s /\ vCode a t = vCode a s /\ vCodeHash a t = vCodeHash a s \/ vBalance a t = Some 0 /\ vCode a t = Some None /\ vCodeHash a t = Some zeroHash.
Proof.
  intros Hw E. destruct (Finalise_run del s (wf_sane _ _ Hw)) as (t' & E' & F & _). rewrite E in E'. injection E' as <-. pose proof (fi_ctx _ _ _ _ F) as Hc. unfold ctx in Hc. injection Hc as Hd Ht Hs.
  destruct (decide (over s a)) as [Ho|Ho].
  - destruct (over_view del a s t Hw F Ho) as (x & Hv & _ & Hv'). unfold vBalance, vCode, vCodeHash, seen. rewrite Hv, Hv', ?Hd. unfold final.
    destruct (goner del x); cbn; [by right|]. left. by destruct (stateObject.deleted x).
  - left. assert (view t a = view s a) as Ev.
    { unfold view. rewrite (fi_live _ _ _ _ F). destruct (StateDB.stateObjects s !! a) as [p|] eqn:Ep; [|by rewrite (loadAccount_ctx t s a (fi_ctx _ _ _ _ F))].
      apply (fi_out _ _ _ _ F a p); [|done]. intros Ha. apply Ho. split; [done|]. by eapply elem_of_dom_2. }
    unfold vBalance, vCode, vCodeHash, seen. by rewrite Ev, ?Hd.
Qed.

Lemma leaves_each {A} (f : A -> M unit) l : (forall x, leaves (f x)) -> leaves (each f l).
Proof. intros Hf. induction l as [|x l IH]; [apply leaves_ret|]. apply leaves_bind; [apply Hf|done]. Qed.

Lemma leaves_finaliseOne del a : leaves (finaliseOne del a).
Proof. unfold finaliseOne, markDeleted, objFinalise, when. repeat first [apply leaves_deref|apply leaves_update|leaves]. Qed.

Lemma Finalise_refund del s t : Finalise del s = Ret (tt, t) -> 0 <= StateDB.refund s -> 0 <= StateDB.refund t.
Proof.
  unfold Finalise, mbind, ST_bind, gets. cbn [obind]. destruct (each (finaliseOne del) _ s) as [[u s1]|] eqn:E1; [|done]. destruct (leaves_each _ _ (leaves_finaliseOne del) _ _ _ E1) as [Ha _].
  unfold aux in Ha. injection Ha as Hr _. cbn [obind]. unfold clearJournalAndRefund, mbind, ST_bind, gets, when, modify. cbn [obind]. destruct (Nat.ltb 0 _); cbn; intros [= <-]; cbn; lia.
Qed.

Lemma less_ether most g s t : (forall b, balance b t = balance b s \/ balance b t = 0) -> ether most g s -> ether most g t.
Proof.
  intros Hb [H1 H2]. split; [intros b; destruct (Hb b) as [->| ->]; [done|lia]|]. intros bs Hn. transitivity (total bs s); [|auto]. clear Hn.
  induction bs as [|b bs IH]; [done|]. rewrite !total_cons. specialize (H1 b). destruct (Hb b); lia.
Qed.

Lemma Finalise_booked most del s t : booked most s -> Finalise del s = Ret (tt, t) -> booked most t.
Proof.
  intros [B1 B2 B3 B4 B5] E. destruct (Finalise_run del s (wf_sane _ _ B1)) as (t' & E' & F & St). rewrite E in E'. injection E' as <-.
  destruct (settled_ok t St (proper_ctx _ _ (fi_ctx _ _ _ _ F) (wf_proper _ _ B1))) as [Wt Rt]. pose proof (fun a => Finalise_accounts del s t a B1 E) as Ha.
  split; [done|done| |by eapply Finalise_refund|].
  - intros a c Hc Hn. destruct (Ha a) as [(_ & E2 & E3)|(_ & E2 & _)]; [rewrite E2 in Hc; rewrite E3; by apply B3|congruence].
  - apply (less_ether most 0 s); [|done]. intros b. unfold balance. destruct (Ha b) as [(-> & _)|(-> & _)]; auto.
Qed.

Lemma Prepare_booked most h hash i s t : booked most s -> Prepare h hash i s = Ret (tt, t) -> booked most t.
Proof.
  intros [B1 B2 B3 B4 B5] E. assert (proper t) as Hp by (unfold Prepare, modify in E; injection E as <-; apply B1).
  destruct (StateSafety.exec_ok (OPrepare h hash i) s t B1 B2 E Hp) as [Wt Rt]. unfold Prepare, modify in E. injection E as <-. by split.
Qed.

(** *** The fork of the DAO *)

Lemma adjusts_booked most z a s t : adjusts a s t -> balance a t = balance a s + z -> 0 <= balance a t -> booked most s -> booked (most + z) t.
Proof.
  intros A Hz Hp [B1 B2 B3 B4 B5]. pose proof A as [G C _ (_ & _ & [R _] & _)]. split; [by eapply goes_ok|by eapply goes_revs_ok|auto|congruence|].
  eapply adjusts_ether; [exact A|exact Hz|lia|exact B5].
Qed.

Lemma booked_more most most' s : most <= most' -> booked most s -> booked most' s.
Proof. intros Hm [B1 B2 B3 B4 [H1 H2]]. split; try done. split; [done|]. intros bs Hn. specialize (H2 bs Hn). lia. Qed.

Lemma quiet_booked most s t : quiet s t -> booked most s -> booked most t.
Proof.
  intros Q B. destruct (quiet_adjusts zeroHash _ _ Q) as (A & E & _). replace most with (most + 0) by lia. eapply (adjusts_booked most 0); [exact A|lia| |exact B]. rewrite E. apply (bk_ether _ _ B).
Qed.

Lemma SetBalance_adjusts s a z : ok s -> exists t, SetBalance a z s = Ret (tt, t) /\ adjusts a s t /\ balance a t = z.
Proof.
  intros Hw. assert (returns_at (SetBalance a z) s) as [[[] t] E].
  { apply getOrNew_returns; [done|]. intros p s1 O. unfold returns_at, objSetBalance, mbind, ST_bind. rewrite (deref_run _ _ _ (op_obj _ _ _ _ _ O)). by eexists. }
  exists t. split; [done|]. pose proof (wp_run _ _ _ _ _ (SetBalance_sets s a z Hw) E) as S.
  assert (leaves (SetBalance a z)) as Hl by (unfold SetBalance, objSetBalance, setBalance, journalAppend; repeat first [apply leaves_getOrNew|apply leaves_deref|apply leaves_update|leaves]).
  assert (adjusts a s t /\ balance a t = z /\ vNonce a t = Some (Account.Nonce (stateObject.data (base s a)))) as (A & B & _); [|done].
  by refine (sets_adjusts a _ s t S (proj1 (Hl s tt t E)) _ _ _ _ _).
Qed.

Lemma CreateAccount_booked most s t a : booked most s -> CreateAccount a s = Ret (tt, t) -> booked most t.
Proof.
  intros [B1 B2 B3 B4 B5] E. set (J := fun (g : Z) s => 0 <= StateDB.refund s /\ ether most g s). set (rules := Rules.mk 0 false false false false false false false false false).
  pose proof (keeps_both rules false _ _ _ _ _ _ (keeps_counter rules) (keeps_ether rules most)) as HB.
  assert (EvmState.session (J := J) s 0 s) as S by (split; [split; [by apply follows_refl|done]|done]).
  pose proof (act_create (HK := HB) s 0 s a S ltac:(done)) as H. unfold pwp in H. rewrite E in H. destruct H as [[[F C] [R He]] _]. split; try done; [by eapply follows_valid|apply F].
Qed.

Lemma run_bind {S A B} (m : ST S A) (f : A -> ST S B) (z : S) x z' : m z = Ret (x, z') -> (m ≫= f) z = f x z'.
Proof. intros E. unfold mbind, ST_bind. by rewrite E. Qed.

(** One account of the list pays out. *)
Lemma drain_booked most r a s : booked most s -> twp (bal ← GetBalance a; AddBalance r bal;; SetBalance a 0) (fun _ t => booked most t) s.
Proof.
  intros B. pose proof (bk_ok _ _ B) as Hw. destruct (getters_peek a zeroHash) as (_ & _ & Hp & _). destruct (peeks_twp _ _ s Hp Hw) as (z & s1 & E1 & Q & Hz). rewrite balance_some in Hz. injection Hz as Hz.
  apply (quiet_booked _ _ _ Q) in B. destruct (quiet_adjusts a _ _ Q) as (_ & Eq & _). pose proof (proj1 (bk_ether _ _ B)) as Hn.
  destruct (AddBalance_adjusts s1 r z (bk_ok _ _ B)) as (s2 & E2 & A2 & B2 & _).
  pose proof (adjusts_booked most z r s1 s2 A2 B2 ltac:(rewrite B2; pose proof (Hn r); pose proof (Hn a); lia) B) as Bk2.
  destruct (SetBalance_adjusts s2 a 0 (bk_ok _ _ Bk2)) as (s3 & E3 & A3 & B3). exists tt, s3. split; [by rewrite (run_bind _ _ _ _ _ E1), (run_bind _ _ _ _ _ E2)|].
  assert (z <= balance a s2) as Hle. { destruct (decide (a = r)) as [->|Har]; [rewrite B2; specialize (Hn r); lia|]. rewrite (adjusts_balance r a s1 s2 A2 Har). lia. }
  apply (booked_more (most + z + (- balance a s2))); [lia|]. eapply adjusts_booked; [exact A3|lia|lia|exact Bk2].
Qed.

Lemma ApplyDAOHardFork_booked most r l s : booked most s -> twp (StateProcessor.ApplyDAOHardFork r l) (fun _ t => booked most t) s.
Proof.
  intros B. unfold StateProcessor.ApplyDAOHardFork. destruct (getters_peek r zeroHash) as (Hp & _). destruct (peeks_twp _ _ s Hp (bk_ok _ _ B)) as (x & s1 & E1 & Q & _).
  apply (quiet_booked _ _ _ Q) in B. assert (exists s2, when (negb x) (CreateAccount r) s1 = Ret (tt, s2) /\ booked most s2) as (s2 & E2 & B2).
  { unfold when. destruct (negb x); [|by exists s1]. destruct (setters_return s1 r (bk_ok _ _ B)) as (_ & _ & _ & _ & _ & _ & [[[] t] E]). exists t. split; [done|by eapply CreateAccount_booked]. }
  assert (forall s2, booked most s2 -> twp (each (fun a => bal ← GetBalance a; AddBalance r bal;; SetBalance a 0) l) (fun _ t => booked most t) s2) as He.
  { clear -HL HT. induction l as [|a l IH]; intros s B; [by exists tt, s|]. destruct (drain_booked most r a s B) as ([] & t & E & Bt). destruct (IH t Bt) as ([] & u & Eu & Bu).
    exists tt, u. split; [|done]. cbn [each]. by rewrite (run_bind _ _ _ _ _ E). }
  destruct (He s2 B2) as ([] & t & Et & Bt). exists tt, t. split; [|done]. by rewrite (run_bind _ _ _ _ _ E1), (run_bind _ _ _ _ _ E2).
Qed.
End Books.

(** ** Blocks *)

Section Blocks.
Context {L : StateLib} {HL : StateLaws L} {HT : TrieLaws L} {V : EvmLib} {HV : EvmLaws V} {C : CryptoLib} {HC : CryptoLaws C}.
Context (config : ChainConfig.t) (GetHeader : bytes -> Z -> option Header.t) (Author : Header.t -> bytes) (NoRecursion EnablePreimageRecording : bool) (fuel : nat).
Import StateProcessor.
Abbreviation pool b := (Block.gp b).
Implicit Types (b : Block.t) (tx : Transaction.t) (header : Header.t) (most : Z).

Abbreviation apply := (ApplyMessage fuel).
Abbreviation applyTx := (ApplyTransaction config GetHeader Author NoRecursion EnablePreimageRecording fuel).

(** A message on the state of a block, if its counter is not subtracted below zero. *)
Lemma ApplyMessage_run (ctx : Context.t) msg b most : in_u64 (Context.GasLimit ctx) -> msg_ok msg -> booked most (Block.statedb b) -> in_u64 (pool b) -> pool b < Z.of_nat fuel ->
  pwp refundPanic (apply ctx msg) (fun r b' => booked most (Block.statedb b') /\ Block.usedGas b' = Block.usedGas b /\
  match r with inl res => 0 <= ExecutionResult.UsedGas res /\ pool b' = pool b - ExecutionResult.UsedGas res /\ 0 <= pool b' | inr _ => 0 <= pool b' <= pool b end) b.
Proof.
  intros Hl Hm [B1 B2 B3 B4 B5] Hp Hf. set (J := fun g s => 0 <= StateDB.refund s /\ ether (most - Message.Gas msg * Message.GasPrice msg) g s).
  pose proof (keeps_both (Context.chainRules ctx) false _ _ _ _ _ _ (keeps_counter _) (keeps_ether (Context.chainRules ctx) (most - Message.Gas msg * Message.GasPrice msg))) as HB.
  set (e := NewEVM (Block.statedb b)). assert (ready e) as HR by (by split).
  assert (pwp refundPanic (StateTransition.TransitionDb ctx (run ctx fuel) msg) (went ctx msg J (StateTransition.New e (pool b))) (StateTransition.New e (pool b))) as H.
  { apply (TransitionDb_pwp ctx Hl msg (HK := HB) fuel e (pool b) HR Hm Hp); [lia| |by intros g s _ [? _]].
    intros st Hb _. split; [|exact (bought_ether msg most _ e (pool b) st B5 Hb)]. pose proof Hb as (s & g & -> & [_ _ _ (_ & _ & [R _] & _)] & _). cbn in *. congruence. }
  unfold pwp, ApplyMessage in *. fold e. destruct (StateTransition.TransitionDb ctx (run ctx fuel) msg (StateTransition.New e (pool b))) as [[r st]|]; [|done]. cbn.
  split; [|split; [done|]].
  - destruct (went_ready ctx msg J (StateTransition.New e (pool b)) r st HR H) as [R1 R2 R3 _ _]. split; try done; [by eapply (went_refund ctx msg J e (pool b))|].
    eapply (went_ether ctx msg J e (pool b)); [by intros g s [_ ?]|done|done|done].
  - destruct r as [res|err]; [|pose proof (charged_pool ctx msg (StateTransition.New e (pool b)) err st H); destruct Hm as [Hm _]; unfold in_u64 in *; cbn in *; lia]. pose proof H as Hw. apply went_gas in H as (U & G & _). destruct Hw as (st1 & _ & _ & ((s & g & _ & _ & _ & _ & _ & Hle) & _) & _). cbn in *. split_and!; lia.
Qed.

(** A transaction that can be in a block. *)
Definition tx_ok tx : Prop := in_u64 (Transaction.GasLimit tx) /\ 0 <= Transaction.Price tx /\ 0 <= Transaction.Amount tx /\ fits (Transaction.Payload tx).

Lemma AsMessage_ok tx msg : tx_ok tx -> Transaction.AsMessage tx = inl msg -> msg_ok msg.
Proof. unfold Transaction.AsMessage. destruct (Transaction.Sender tx); [|done]. intros H [= <-]. exact H. Qed.

Abbreviation blockRules header := (ChainConfig.toRules config (Header.Number header)).

Lemma pwp_bloom {A} P receipts (k : bytes -> ST Block.t A) Q b : (forall bloom, pwp P (k bloom) Q b) -> pwp P (lift (types.CreateBloom receipts) ≫= k) Q b.
Proof. intros H. destruct (CreateBloom_run receipts) as (bloom & E & _). unfold pwp, mbind, ST_bind, lift. rewrite E. apply H. Qed.

Lemma ApplyTransaction_run author header tx b most : Rules.IsByzantium (blockRules header) = true -> in_u64 (Header.GasLimit header) -> tx_ok tx -> booked most (Block.statedb b) ->
  0 <= pool b -> 0 <= Block.usedGas b -> Block.usedGas b + pool b <= Header.GasLimit header -> Header.GasLimit header < Z.of_nat fuel ->
  pwp refundPanic (applyTx author header tx) (fun r b' => booked most (Block.statedb b') /\
  match r with
    | inl receipt => Block.usedGas b' = Block.usedGas b + Receipt.GasUsed receipt /\ Block.usedGas b' + pool b' = Block.usedGas b + pool b /\ 0 <= pool b' /\ 0 <= Receipt.GasUsed receipt /\
        Receipt.CumulativeGasUsed receipt = Block.usedGas b' /\ Receipt.TxHash receipt = Transaction.Hash tx
    | inr _ => Block.usedGas b' = Block.usedGas b /\ 0 <= pool b' <= pool b
    end) b.
Proof.
  intros Hb Hl Htx Hbk Hp Hu Hsum Hf. unfold in_u64 in Hl. unfold ApplyTransaction. destruct (Transaction.AsMessage tx) as [msg|err] eqn:Em; [|apply pwp_ret; split; [done|]; split; [done|lia]].
  pose proof (AsMessage_ok tx msg Htx Em) as Hm. set (ctx := NewEVMContext _ _ _ _ _ msg header author).
  assert (in_u64 (pool b)) as Hpool by (unfold in_u64; lia). assert (pool b < Z.of_nat fuel) as Hpf by lia. assert (in_u64 (Context.GasLimit ctx)) as Hcl by (unfold in_u64; cbn; lia).
  apply pwp_bind. eapply pwp_mono; [exact (ApplyMessage_run ctx msg b most Hcl Hm Hbk Hpool Hpf)|]. intros [res|err] b1 (Hb1 & Hu1 & H1); [|by apply pwp_ret].
  destruct H1 as (R1 & R2 & R3). change (Context.chainRules ctx) with (blockRules header). rewrite Hb. apply pwp_bind, pwp_bind.
  destruct (Finalise_run true (Block.statedb b1) (wf_sane _ _ (bk_ok _ _ Hb1))) as (t & Et & _). pose proof (Finalise_booked most true _ t Hb1 Et) as Ht.
  unfold pwp at 1, onDB. rewrite Et. cbn [obind]. apply pwp_ret, pwp_modify_bind, pwp_gets_bind. cbn [id Block.gp Block.usedGas Block.statedb]. apply pwp_bind.
  unfold pwp at 1, onDB, GetLogs, gets. cbn [obind]. apply pwp_bloom. intros bloom.
  apply pwp_ret. cbn [Block.gp Block.usedGas Block.statedb Receipt.GasUsed Receipt.CumulativeGasUsed Receipt.TxHash].
  rewrite u64_id by (unfold in_u64; lia). split; [done|]. split_and!; lia || done.
Qed.

Definition gasOf (receipts : list Receipt.t) : Z := foldr (fun r n => Receipt.GasUsed r + n) 0 receipts.

(** The cumulative gas of each receipt, when [n] was used before. *)
Fixpoint cumulative (n : Z) (receipts : list Receipt.t) : Prop :=
  match receipts with
  | [] => True
  | r :: rs => Receipt.CumulativeGasUsed r = n + Receipt.GasUsed r /\ cumulative (n + Receipt.GasUsed r) rs
  end.

Lemma applyAll_run header hash txs most : Rules.IsByzantium (blockRules header) = true -> in_u64 (Header.GasLimit header) -> Header.GasLimit header < Z.of_nat fuel ->
  Forall tx_ok txs -> forall i b, booked most (Block.statedb b) -> 0 <= pool b -> 0 <= Block.usedGas b -> Block.usedGas b + pool b = Header.GasLimit header ->
  pwp refundPanic (applyAll config GetHeader Author NoRecursion EnablePreimageRecording fuel header hash i txs) (fun r b' => booked most (Block.statedb b') /\
  match r with
    | inl receipts => Block.usedGas b' = Block.usedGas b + gasOf receipts /\ Block.usedGas b' + pool b' = Header.GasLimit header /\ 0 <= pool b' /\ 0 <= gasOf receipts /\
        cumulative (Block.usedGas b) receipts /\ Receipt.TxHash <$> receipts = Transaction.Hash <$> txs
    | inr _ => True
    end) b.
Proof.
  intros Hb Hl Hf. induction 1 as [|tx txs Htx _ IH]; intros i b Hbk Hp Hu Hsum; cbn [applyAll]; [apply pwp_ret; cbn; split_and!; done || lia|].
  apply pwp_bind. unfold pwp at 1, onDB, Prepare, modify. cbn [obind]. set (s := StateDB.set_txIndex _ i). assert (booked most s) as Hs by (by eapply Prepare_booked).
  apply pwp_bind. eapply pwp_mono; [apply (ApplyTransaction_run None header tx (Block.mk L (pool b) (Block.usedGas b) s) most Hb Hl Htx Hs Hp Hu (Z.eq_le_incl _ _ Hsum) Hf)|].
  intros [receipt|err] b1 [Hb1 H1]; [|by apply pwp_ret]. destruct H1 as (A1 & A2 & A3 & A4 & A5 & A6). cbn in A1, A2, A5. apply pwp_bind. eapply pwp_mono; [apply (IH (i + 1) b1); lia || done|].
  intros [rest|err] b2 [Hb2 H2]; apply pwp_ret; [|done]. destruct H2 as (C1 & C2 & C3 & C4 & C5 & C6). split; [done|]. cbn [gasOf foldr cumulative fmap list_fmap]. fold (gasOf rest).
  rewrite A1 in *. split_and!; try lia; [done|]. cbn. by rewrite A6, C6.
Qed.

(** C8: The books of a block.  [Process] of transactions after Byzantium ends, but for a
    refund counter that is subtracted below zero; the gas it reports is the sum of
    what its receipts report, and at most the limit of the block; the cumulative gas of
    each receipt is the sum up to it, there is one receipt for each transaction in
    their order, and the logs are those of the receipts.  Besides what the engine pays
    out as a reward no ether is made. *)
Theorem Process_accounts (Finalize : M unit) support forkBlock refundContract drainList header hash txs s most reward : Rules.IsByzantium (blockRules header) = true ->
  in_u64 (Header.GasLimit header) -> Header.GasLimit header < Z.of_nat fuel -> Forall tx_ok txs -> booked most s -> 0 <= reward ->
  (forall s, booked most s -> exists t, Finalize s = Ret (tt, t) /\ ether (most + reward) 0 t) ->
  match Process config GetHeader Author NoRecursion EnablePreimageRecording fuel Finalize support forkBlock refundContract drainList header hash txs s with
  | Ret (inl (receipts, logs, used), t) => used = gasOf receipts /\ 0 <= used <= Header.GasLimit header /\ cumulative 0 receipts /\
      Receipt.TxHash <$> receipts = Transaction.Hash <$> txs /\ logs = concat (Receipt.Logs <$> receipts) /\ ether (most + reward) 0 t
  | Ret (inr _, t) => ether most 0 t
  | Panic why => refundPanic why
  end.
Proof.
  intros Hb Hl Hf Htx Hs Hr HF. pose proof Hl as Hl'. unfold in_u64 in Hl'. unfold Process, GasPool.AddGas. rewrite (proj2 (Z.ltb_ge _ _)) by (unfold two64 in *; lia). cbn [obind]. rewrite Z.add_0_l.
  set (dao := support && bool_decide (forkBlock = Some (Header.Number header))). assert (exists s1, onDB (when dao (ApplyDAOHardFork refundContract drainList)) (Block.mk L (Header.GasLimit header) 0 s) = Ret (tt, Block.mk L (Header.GasLimit header) 0 s1) /\ booked most s1) as (s1 & E1 & B1).
  { destruct dao; [|by exists s]. destruct (ApplyDAOHardFork_booked most refundContract drainList s Hs) as ([] & s1 & E1 & B1). exists s1. split; [|done]. unfold onDB. cbn [Block.statedb when]. by rewrite E1. }
  unfold mbind, ST_bind. rewrite E1. cbn [obind]. pose proof (applyAll_run header hash txs most Hb Hl Hf Htx 0 (Block.mk L (Header.GasLimit header) 0 s1) B1 ltac:(cbn; lia) ltac:(done) ltac:(cbn; lia)) as H.
  unfold pwp in H. destruct (applyAll _ _ _ _ _ _ header hash 0 txs _) as [[[receipts|err] b]|]; [|cbn in H; apply H|exact H]. destruct H as (B2 & C1 & C2 & C3 & C4 & C5 & C6). cbn in C1, C5.
  cbn [obind]. destruct (HF (Block.statedb b) B2) as (t & Et & He). unfold onDB. rewrite Et. cbn. split_and!; done || lia.
Qed.

(** A transaction of the block that is rejected. *)
Lemma ApplyTransaction_rejected author header tx msg err b b' : Transaction.AsMessage tx = inl msg -> ok (Block.statedb b) -> in_u64 (Message.Gas msg) ->
  applyTx author header tx b = Ret (inr err, b') -> exists st, charged (NewEVMContext config GetHeader Author NoRecursion EnablePreimageRecording msg header author) msg
    (StateTransition.New (NewEVM (Block.statedb b)) (pool b)) (Some err) st /\ pool b' = StateTransition.gp st /\ Block.statedb b' = EVM.StateDB (StateTransition.evm st).
Proof.
  intros Em Hw Hg E. unfold ApplyTransaction in E. rewrite Em in E. set (ctx := NewEVMContext _ _ _ _ _ msg header author) in *. set (st0 := StateTransition.New (NewEVM (Block.statedb b)) (pool b)).
  assert (wp (applyTx author header tx) (fun r b' => forall err, r = inr err -> exists st, charged ctx msg st0 (Some err) st /\ pool b' = StateTransition.gp st /\ Block.statedb b' = EVM.StateDB (StateTransition.evm st)) b) as H.
  { unfold ApplyTransaction. rewrite Em. fold ctx. apply wp_bind. unfold wp at 1, ApplyMessage. fold st0.
    destruct (StateTransition.TransitionDb ctx (run ctx fuel) msg st0) as [[[res|err1] st]|] eqn:Et; [|..|done]; cbn [obind].
    - do 5 (apply wp_last; intros ? ?). by apply wp_ret.
    - apply wp_ret. intros err2 [= <-]. exists st. split; [|done]. by apply (rejected ctx msg fuel). }
  unfold wp, ApplyTransaction in H. rewrite Em in H. fold ctx in H. rewrite E in H. by apply H.
Qed.

Lemma ApplyTransaction_goes author header tx err b b' : ok (Block.statedb b) -> codes_ok (Block.statedb b) -> in_u64 (Transaction.GasLimit tx) -> applyTx author header tx b = Ret (inr err, b') ->
  goes (Block.statedb b) (Block.statedb b') /\ codes_ok (Block.statedb b') /\
  forall msg, Transaction.AsMessage tx = inl msg -> pool b' = match err with ErrNonceTooHigh | ErrNonceTooLow | ErrInsufficientFunds | ErrGasLimitReached => pool b | _ => pool b - Message.Gas msg end.
Proof.
  intros Hw Hc Hg E. destruct (Transaction.AsMessage tx) as [msg|err'] eqn:Em; [|unfold ApplyTransaction in E; rewrite Em in E; injection E as <- <-; split; [by apply goes_refl|done]].
  assert (Message.Gas msg = Transaction.GasLimit tx) as Eg by (unfold Transaction.AsMessage in Em; destruct (Transaction.Sender tx); by simplify_eq). rewrite <- Eg in Hg.
  destruct (ApplyTransaction_rejected author header tx msg err b b' Em Hw Hg E) as (st & Hch & Hp & Hs). assert (forall t, adjusts (Message.From msg) (Block.statedb b) t -> goes (Block.statedb b) t /\ codes_ok t) as Ha by (intros t [A1 A2 _ _]; auto).
  assert (goes (Block.statedb b) (Block.statedb b') /\ codes_ok (Block.statedb b') /\ pool b' = match err with ErrNonceTooHigh | ErrNonceTooLow | ErrInsufficientFunds | ErrGasLimitReached => pool b | _ => pool b - Message.Gas msg end) as (G & Cd & Hpool).
  { rewrite Hs, Hp. destruct err; (destruct Hch as (t & -> & Q) || destruct Hch as (t & g & -> & Q & _)); cbn; destruct (Ha t); try done; by apply quiet_adjusts. }
  split; [done|]. split; [done|]. by intros ? [= <-].
Qed.

(** What the worker does with a rejected transaction: the state goes back to the snapshot. *)
Lemma undo_run {P J K} header {HK : Keeps (blockRules header) false P J K} s b : ok s -> revs_ok s -> codes_ok s -> J 0 s -> goes (snapped s) (Block.statedb b) -> codes_ok (Block.statedb b) ->
  exists u, onDB (RevertToSnapshot (StateDB.nextRevisionId s)) b = Ret (tt, Block.mk L (pool b) (Block.usedGas b) u) /\ ok u /\ revs_ok u /\ codes_ok u /\ J 0 u /\ same_reads s u.
Proof.
  intros Hw Hr Hc HJ G Cd. destruct (snapped_ok s Hw Hr) as [Ws Rs]. destruct (follows_revert s (Block.statedb b) Hw Hr) as (u & Eu & Fu & He); [by eapply follows_goes; [apply follows_refl|]|].
  exists u. unfold onDB. rewrite Eu. split; [done|]. assert (ok u) as Wu by (by eapply follows_valid). split_and!; [done|apply Fu|by eapply codes_eqv|by eapply J_eqv|by eapply eqv_reads].
Qed.

(** One transaction of the block that is being built: it is in the block with its
    receipt, or the books are as they were and only the pool may have lost gas. *)
Lemma commitTransaction_run header coinbase tx w most : Rules.IsByzantium (blockRules header) = true -> in_u64 (Header.GasLimit header) -> tx_ok tx -> booked most (Block.statedb (current w)) ->
  0 <= pool (current w) -> 0 <= Block.usedGas (current w) -> Block.usedGas (current w) + pool (current w) <= Header.GasLimit header -> Header.GasLimit header < Z.of_nat fuel ->
  pwp refundPanic (commitTransaction config GetHeader Author NoRecursion EnablePreimageRecording fuel header coinbase tx) (fun r w' => booked most (Block.statedb (current w')) /\
  match r with
    | inl logs => exists receipt, txs w' = txs w ++ [tx] /\ receipts w' = receipts w ++ [receipt] /\ logs = Receipt.Logs receipt /\ Receipt.TxHash receipt = Transaction.Hash tx /\
        Receipt.CumulativeGasUsed receipt = Block.usedGas (current w') /\ Block.usedGas (current w') = Block.usedGas (current w) + Receipt.GasUsed receipt /\ 0 <= Receipt.GasUsed receipt /\
        Block.usedGas (current w') + pool (current w') = Block.usedGas (current w) + pool (current w) /\ 0 <= pool (current w')
    | inr _ => txs w' = txs w /\ receipts w' = receipts w /\ Block.usedGas (current w') = Block.usedGas (current w) /\ 0 <= pool (current w') <= pool (current w)
    end) w.
Proof.
  intros Hb Hl Htx Hbk Hp Hu Hsum Hf. pose proof Hbk as [B1 B2 B3 B4 B5]. set (J := fun g s => 0 <= StateDB.refund s /\ ether most g s).
  pose proof (keeps_both (blockRules header) false _ _ _ _ _ _ (keeps_counter _) (keeps_ether (blockRules header) most)) as HB.
  set (b := current w) in *. set (s := Block.statedb b) in *. destruct (snapped_ok s B1 B2) as [Ws Rs]. set (b1 := Block.mk L (pool b) (Block.usedGas b) (snapped s)).
  assert (booked most (Block.statedb b1)) as Hb1 by (split; done).
  pose proof (ApplyTransaction_run (Some coinbase) header tx b1 most Hb Hl Htx Hb1 Hp Hu Hsum Hf) as H. unfold pwp in *. unfold commitTransaction. fold b. unfold onDB at 1. fold s. rewrite Snapshot_run. cbn [obind]. fold b1.
  destruct (applyTx (Some coinbase) header tx b1) as [[[receipt|err] b2]|] eqn:E1; [..|exact H]; cbn [obind]; destruct H as [Hbk2 H].
  - destruct H as (A1 & A2 & A3 & A4 & A5 & A6). cbn in A1, A2 |- *. split; [done|]. exists receipt. split_and!; done.
  - destruct (ApplyTransaction_goes (Some coinbase) header tx err b1 b2 Ws B3 (proj1 Htx) E1) as (G & Cd & _). destruct (undo_run header (HK := HB) s b2 B1 B2 B3 (conj B4 B5) G Cd) as (u & -> & U1 & U2 & U3 & [U4 U5] & _).
    cbn. split; [by split|]. cbn in H. split_and!; lia || done.
Qed.

(** C30: The worker of the miner undoes a rejected transaction in the state, but not in the
    gas pool: a transaction whose gas does not cover its intrinsic gas, or whose sender
    cannot pay the value, takes its whole gas from the block that is being built. *)
Theorem commitTransaction_leaks header coinbase tx msg err w w' : Transaction.AsMessage tx = inl msg -> ok (Block.statedb (current w)) -> revs_ok (Block.statedb (current w)) ->
  codes_ok (Block.statedb (current w)) -> in_u64 (Message.Gas msg) ->
  commitTransaction config GetHeader Author NoRecursion EnablePreimageRecording fuel header coinbase tx w = Ret (inr err, w') ->
  same_reads (Block.statedb (current w)) (Block.statedb (current w')) /\ txs w' = txs w /\ receipts w' = receipts w /\
  pool (current w') = match err with ErrNonceTooHigh | ErrNonceTooLow | ErrInsufficientFunds | ErrGasLimitReached => pool (current w) | _ => pool (current w) - Message.Gas msg end.
Proof.
  intros Em Hw Hr Hc Hg E. set (b := current w) in *. set (s := Block.statedb b) in *. destruct (snapped_ok s Hw Hr) as [Ws Rs]. set (b1 := Block.mk L (pool b) (Block.usedGas b) (snapped s)).
  assert (Message.Gas msg = Transaction.GasLimit tx) as Eg by (unfold Transaction.AsMessage in Em; destruct (Transaction.Sender tx); by simplify_eq). rewrite Eg in Hg.
  unfold commitTransaction in E. fold b in E. unfold onDB at 1 in E. fold s in E. rewrite Snapshot_run in E. cbn [obind] in E. fold b1 in E.
  destruct (applyTx (Some coinbase) header tx b1) as [[[|err'] b2]|] eqn:E1; [done|..|done]. cbn [obind] in E. destruct (ApplyTransaction_goes (Some coinbase) header tx err' b1 b2 Ws Hc Hg E1) as (G & Cd & Hpool).
  destruct (undo_run header (HK := keeps_nothing (blockRules header) false) s b2 Hw Hr Hc I G Cd) as (u & Eu & _ & _ & _ & _ & Hs). rewrite Eu in E. cbn [obind] in E. injection E as <- <-.
  split; [done|]. split; [done|]. split; [done|]. exact (Hpool msg Em).
Qed.
End Blocks.

(** ** Examples *)

Section Examples.
Import EvmDemo StateTransition.

Definition plenty : nat := Z.to_nat 100001.

(** [alice] calls [bob], who reverts; and does so with too little gas. *)
Definition calling (gas : Z) : Message.t := Message.mk StateDemo.alice (Some StateDemo.bob) 2 gas 7 0 true [].
Abbreviation called := (TransitionDb block (run block plenty) (calling 60000)) (only parsing).
Abbreviation refused := (TransitionDb block (run block plenty) (calling 20000)) (only parsing).
Definition opening : StateTransition.t := New EvmDemo.evm 100000.

Lemma calling_ok gas : in_u64 gas -> msg_ok (calling gas).
Proof. intros Hg. split; [done|]. split_and!; done. Qed.

Lemma plenty_gas : 60000 < Z.of_nat plenty.
Proof. unfold plenty. rewrite Z2Nat.id; done. Qed.

Lemma called_runs : called opening = Ret (inl (ExecutionResult.mk 41012 (Some ErrExecutionReverted) []), leftover called opening).
Proof. apply answer_run. by vm_compute. Qed.

Lemma refused_runs : refused opening = Ret (inr ErrIntrinsicGas, leftover refused opening).
Proof. apply answer_run. by vm_compute. Qed.

Lemma IntrinsicGas_exact_witness : core.IntrinsicGas [Byte.x00; Byte.x05] true true true = inl 53020.
Proof. exact (IntrinsicGas_exact [Byte.x00; Byte.x05] true true true eq_refl). Defined.

Lemma TransitionDb_ends_witness : exists r st', called (New EvmDemo.evm 100000) = Ret (r, st') /\ ready (evm st') /\
  match r with
  | inl res => 0 <= ExecutionResult.UsedGas res <= 60000 /\ gp st' = 100000 - ExecutionResult.UsedGas res /\
      exists z, core.IntrinsicGas [] false true true = inl z /\ z <= 2 * ExecutionResult.UsedGas res
  | inr _ => True
  end.
Proof.
  exact (TransitionDb_ends block block_limit (calling 60000) plenty EvmDemo.evm 100000 start_ready start_fresh (calling_ok 60000 ltac:(done)) eq_refl ltac:(done) ltac:(done) plenty_gas).
Defined.

Lemma TransitionDb_ether_witness : exists r st', called (New EvmDemo.evm 100000) = Ret (r, st') /\ ether 1000000 0 (EVM.StateDB (evm st')).
Proof.
  exact (TransitionDb_ether block block_limit (calling 60000) plenty EvmDemo.evm 100000 1000000 start_ready start_fresh (calling_ok 60000 ltac:(done)) eq_refl ltac:(done) ltac:(done) plenty_gas (se_ether _ _ start_settled)).
Defined.

Lemma TransitionDb_failed_witness : (forall b, balance b (EVM.StateDB (evm (leftover called opening))) = balance b start - (if decide (b = StateDemo.alice) then 82024 else 0) + (if decide (b = StateDemo.bob) then 82024 else 0)) /\
  (forall b, b <> StateDemo.alice -> b <> StateDemo.bob -> same_views b start (EVM.StateDB (evm (leftover called opening)))).
Proof.
  exact (let H := TransitionDb_failed block block_limit (calling 60000) plenty EvmDemo.evm 100000 _ ErrExecutionReverted _ start_ready start_fresh (calling_ok 60000 ltac:(done)) eq_refl
    ltac:(done) ltac:(done) plenty_gas called_runs eq_refl ltac:(done) in conj (proj1 H) (proj1 (proj2 H))).
Defined.

Lemma TransitionDb_rejected_witness : gp (leftover refused opening) = 80000 /\ balance StateDemo.alice (EVM.StateDB (evm (leftover refused opening))) = balance StateDemo.alice start - 40000 /\
    forall b, b <> StateDemo.alice -> same_views b start (EVM.StateDB (evm (leftover refused opening))).
Proof. exact (TransitionDb_rejected block (calling 20000) plenty EvmDemo.evm 100000 ErrIntrinsicGas _ (re_ok _ start_ready) ltac:(done) refused_runs). Defined.

(** Five headers behind a sixth one; the hash of a header is its number. *)
Definition hashAt (n : Z) : bytes := replicate 32 (Z_byte n).
Definition link (h : bytes) (n : Z) : option Header.t := if (0 <=? n) && (n <? 5) && bool_decide (h = hashAt n) then Some (Header.mk (hashAt (n - 1)) n 0 0 0 []) else None.
Definition tip : Header.t := Header.mk (hashAt 4) 5 0 0 0 [].

Lemma link_ok : chain_ok link tip.
Proof. split; [done|]. split; [|done]. unfold link. intros h n header H. destruct (_ && _); [by injection H as <-|done]. Qed.

Lemma GetHashFn_exact_witness : answers link tip [2; 4; 2; 0] [] = hashOf link tip <$> [2; 4; 2; 0] /\ hashOf link tip <$> [2; 4; 2; 0] = [hashAt 2; hashAt 4; hashAt 2; hashAt 0].
Proof. split; [refine (GetHashFn_exact link tip link_ok [2; 4; 2; 0] _); repeat (apply Forall_cons; split; [done|]); done|by vm_compute]. Defined.

(** A block with two transactions of [alice], and the worker with one that is refused. *)
Definition forks : ChainConfig.t := ChainConfig.mk (Some 1) (Some 0) (Some 0) (Some 0) (Some 0) (Some 0) (Some 0) (Some 0) (Some 0) None.
Definition header : Header.t := Header.mk zeroHash 5 100000 1 1 [].
Definition noHeader (hash : bytes) (number : Z) : option Header.t := None.
Definition byCarol (header : Header.t) : bytes := carol.
Definition paying (nonce gas : Z) : Transaction.t := Transaction.mk nonce 2 gas (Some StateDemo.bob) 7 [] (replicate 32 (Z_byte nonce)) (Some StateDemo.alice) 27 nonce.
Abbreviation processed := (StateProcessor.Process forks noHeader byCarol false false plenty (mret tt) true (Some 5) StateDemo.bob [] header zeroHash [paying 0 50000; paying 1 50000]) (only parsing).
Abbreviation committed := (StateProcessor.commitTransaction forks noHeader byCarol false false plenty header carol (paying 0 20000)) (only parsing).
Definition building : StateProcessor.environment := StateProcessor.mkEnvironment (Block.mk StateDemo.demoLib 100000 0 start) [] [].

Lemma start_booked : booked 1000000 start.
Proof. destruct start_settled as [H1 H2 H3 H4 H5 H6], (reach_ok _ start_reach). split; [done..| |done]. by rewrite H5. Qed.

Lemma paying_ok : Forall tx_ok [paying 0 50000; paying 1 50000].
Proof. repeat (apply Forall_cons; split); [split_and!; done..|done]. Qed.

Lemma header_gas : Header.GasLimit header < Z.of_nat plenty.
Proof. unfold plenty. rewrite Z2Nat.id; done. Qed.

Lemma keeping : forall s, booked 1000000 s -> exists t, (mret tt : M unit) s = Ret (tt, t) /\ ether (1000000 + 0) 0 t.
Proof. intros s H. exists s. split; [done|apply H]. Qed.

Lemma committed_runs : committed building = Ret (inr ErrIntrinsicGas, leftover committed building).
Proof. apply answer_run. by vm_compute. Qed.

Lemma processed_runs : option_map (fun r => match r with inl (receipts, _, used) => Some (Receipt.CumulativeGasUsed <$> receipts, used) | inr _ => None end) (answer processed start) = Some (Some ([41012; 82024], 82024)).
Proof. by vm_compute. Qed.

Lemma Process_accounts_witness : match processed start with
  | Ret (inl (receipts, logs, used), t) => used = gasOf receipts /\ 0 <= used <= 100000 /\ cumulative 0 receipts /\
    Receipt.TxHash <$> receipts = Transaction.Hash <$> [paying 0 50000; paying 1 50000] /\ logs = concat (Receipt.Logs <$> receipts) /\ ether (1000000 + 0) 0 t
  | Ret (inr _, t) => ether 1000000 0 t
  | Panic why => refundPanic why
  end.
Proof.
  exact (Process_accounts forks noHeader byCarol false false plenty (mret tt) true (Some 5) StateDemo.bob [] header zeroHash [paying 0 50000; paying 1 50000] start 1000000 0 eq_refl
    ltac:(done) header_gas paying_ok start_booked ltac:(done) keeping).
Defined.

Lemma commitTransaction_leaks_witness : same_reads start (Block.statedb (StateProcessor.current (leftover committed building))) /\
  StateProcessor.txs (leftover committed building) = [] /\ StateProcessor.receipts (leftover committed building) = [] /\ Block.gp (StateProcessor.current (leftover committed building)) = 80000.
Proof.
  exact (commitTransaction_leaks forks noHeader byCarol false false plenty header carol (paying 0 20000) (calling 20000) ErrIntrinsicGas building _ eq_refl
    (bk_ok _ _ start_booked) (bk_revs _ _ start_booked) (bk_codes _ _ start_booked) ltac:(done) committed_runs).
Defined.
End Examples.
