(* ===== verification/TxList.v ===== *)
(** * The transactions of an account in the pool

    [core/tx_list.go]: the transactions of an account by their nonces, with a heap of
    the nonces and a cache of the sorted transactions ([txSortedMap]), and the list of
    the pool with its caps on cost and gas ([txList]). *)

From stdpp Require Import sorting.
From S2P Require Import Prelude GoStd StateDB Bloom EvmData EvmOps Transition.
Abbreviation nonceOf := Transaction.AccountNonce.

(** [tx.Cost]. *)
Definition Cost (tx : Transaction.t) : Z := Transaction.Price tx * Transaction.GasLimit tx + Transaction.Amount tx.

(** [sort.Sort] of distinct keys. *)
Definition byNonce (a b : Transaction.t) : Prop := nonceOf a <= nonceOf b.
#[export] Instance byNonce_dec a b : Decision (byNonce a b) := decide (nonceOf a <= nonceOf b).
#[export] Instance byNonce_trans : Transitive byNonce.
Proof. intros x y z. unfold byNonce. lia. Qed.
#[export] Instance byNonce_total : Total byNonce.
Proof. intros x y. unfold byNonce. lia. Qed.
Definition sortNonces (l : list Z) : list Z := merge_sort Z.le l.
Definition sortTxs (l : list Transaction.t) : list Transaction.t := merge_sort byNonce l.

Definition nonceLess (x y : Z) : outcome bool := Ret (x <? y).

(** A slice of pointers that are read from a map has nil for a missing key. *)
Abbreviation pointers := (list (option Transaction.t)).

Module txSortedMap.
Record t := mk { items : gmap Z Transaction.t; index : list Z; cache : option (list Transaction.t) }.

Definition newTxSortedMap : t := mk ∅ [] None.

Definition Get (m : t) (nonce : Z) : option Transaction.t := items m !! nonce.

Definition Put (m : t) (tx : Transaction.t) : outcome t :=
  let nonce := nonceOf tx in
  let! index := (if bool_decide (items m !! nonce = None) then heapPush nonceLess (index m) nonce else Ret (index m)) in
  Ret (mk (<[nonce := tx]> (items m)) index None).

(** The rounds of [Forward], at most one for each nonce of the heap. *)
Fixpoint forwardLoop (fuel : nat) (threshold : Z) (items : gmap Z Transaction.t) (index : list Z) (removed : pointers) : outcome (pointers * gmap Z Transaction.t * list Z) :=
  match fuel, index with
  | S fuel, x :: _ =>
      if x <? threshold then
        let! (nonce, index) := heapPop nonceLess index in
        forwardLoop fuel threshold (delete nonce items) index (removed ++ [items !! nonce])
      else Ret (removed, items, index)
  | _, _ => Ret (removed, items, index)
  end.

Definition Forward (m : t) (threshold : Z) : outcome (pointers * t) :=
  let! (r, index) := forwardLoop (length (index m)) threshold (items m) (index m) [] in
  let (removed, items) := r : pointers * gmap Z Transaction.t in
  let! cache := (match cache m with
                 | Some c => if zlen c <? zlen removed then Panic "slice bounds out of range" else Ret (Some (drop (length removed) c))
                 | None => Ret None
                 end) in
  Ret (removed, mk items index cache).

(** The rounds of [Cap], from [size] down. *)
Fixpoint capLoop (n : nat) (index : list Z) (items : gmap Z Transaction.t) (size : Z) (drops : pointers) : outcome (pointers * gmap Z Transaction.t) :=
  match n with
  | O => Ret (drops, items)
  | S n =>
      let! nonce := slice_get index (size - 1) in
      capLoop n index (delete nonce items) (size - 1) (drops ++ [items !! nonce])
  end.

Definition Cap (m : t) (threshold : Z) : outcome (pointers * t) :=
  let len := Z.of_nat (size (items m)) in
  if len <=? threshold then Ret ([], m)
  else
    let index := sortNonces (index m) in
    let! (drops, items) := capLoop (Z.to_nat (len - threshold)) index (items m) len [] in
    let! index := (if (threshold <? 0) || (zlen index <? threshold) then Panic "slice bounds out of range" else heapInit nonceLess (take (Z.to_nat threshold) index)) in
    let! cache := (match cache m with
                   | Some c => if zlen c <? zlen drops then Panic "slice bounds out of range" else Ret (Some (take (length c - length drops) c))
                   | None => Ret None
                   end) in
    Ret (drops, mk items index cache).

Fixpoint find (nonce : Z) (index : list Z) (i : nat) : option nat :=
  match index with
  | [] => None
  | x :: index => if x =? nonce then Some i else find nonce index (S i)
  end.

Definition Remove (m : t) (nonce : Z) : outcome (bool * t) :=
  if bool_decide (items m !! nonce = None) then Ret (false, m)
  else
    let! index := (match find nonce (index m) 0 with Some i => let! (_, h) := heapRemove nonceLess (index m) i in Ret h | None => Ret (index m) end) in
    Ret (true, mk (delete nonce (items m)) index None).

(** The rounds of [Ready]. *)
Fixpoint readyLoop (fuel : nat) (next : Z) (items : gmap Z Transaction.t) (index : list Z) (ready : pointers) : outcome (pointers * gmap Z Transaction.t * list Z) :=
  match fuel, index with
  | S fuel, x :: _ =>
      if x =? next then
        let! (_, index) := heapPop nonceLess index in
        readyLoop fuel (u64 (next + 1)) (delete next items) index (ready ++ [items !! next])
      else Ret (ready, items, index)
  | _, _ => Ret (ready, items, index)
  end.

Definition Ready (m : t) (start : Z) : outcome (pointers * t) :=
  match index m with
  | [] => Ret ([], m)
  | x :: _ =>
      if start <? x then Ret ([], m)
      else
        let! (r, index) := readyLoop (length (index m)) x (items m) (index m) [] in
        Ret (r.1, mk r.2 index None)
  end.

Definition Len (m : t) : Z := Z.of_nat (size (items m)).

Section Ranges.
(** The order in which Go visits a map. *)
Context (range : gmap Z Transaction.t -> list (Z * Transaction.t)).

Definition filter_ (m : t) (f : Transaction.t -> bool) : list Transaction.t * t :=
  let hit := filter (fun e => f e.2 = true) (range (items m)) in
  let items' := foldl (fun items e => delete e.1 items) (items m) hit in
  (snd <$> hit, mk items' (index m) (if bool_decide (hit = []) then cache m else None)).

Definition reheap (m : t) : outcome t :=
  let! index := heapInit nonceLess (fst <$> range (items m)) in
  Ret (mk (items m) index None).

Definition Filter (m : t) (f : Transaction.t -> bool) : outcome (list Transaction.t * t) :=
  let (removed, m) := filter_ m f in
  let! m := (if bool_decide (removed = []) then Ret m else reheap m) in
  Ret (removed, m).

Definition flatten (m : t) : list Transaction.t * t :=
  match cache m with
  | Some c => (c, m)
  | None => let c := sortTxs (snd <$> range (items m)) in (c, mk (items m) (index m) (Some c))
  end.

Definition Flatten (m : t) : list Transaction.t * t := flatten m.

Definition LastElement (m : t) : outcome (Transaction.t * t) :=
  let (c, m) := flatten m in
  let! tx := slice_get c (zlen c - 1) in
  Ret (tx, m).
End Ranges.
End txSortedMap.

Module txList.
Record t := mk { strict : bool; txs : txSortedMap.t; costcap : Z; gascap : Z }.

Definition newTxList (strict : bool) : t := mk strict txSortedMap.newTxSortedMap 0 0.

Definition Overlaps (l : t) (tx : Transaction.t) : bool := bool_decide (txSortedMap.Get (txs l) (nonceOf tx) <> None).

Definition Add (l : t) (tx : Transaction.t) (priceBump : Z) : outcome (bool * option Transaction.t * t) :=
  let old := txSortedMap.Get (txs l) (nonceOf tx) in
  let refused := match old with
    | Some old =>
        let threshold := i64 (100 + i64 priceBump) * Transaction.Price old / 100 in
        (Transaction.Price tx <=? Transaction.Price old) || (Transaction.Price tx <? threshold)
    | None => false
    end in
  if refused then Ret (false, None, l)
  else
    let! m := txSortedMap.Put (txs l) tx in
    Ret (true, old, mk (strict l) m (if costcap l <? Cost tx then Cost tx else costcap l) (if gascap l <? Transaction.GasLimit tx then Transaction.GasLimit tx else gascap l)).

Definition set_txs (l : t) (m : txSortedMap.t) : t := mk (strict l) m (costcap l) (gascap l).

Definition Forward (l : t) (threshold : Z) : outcome (pointers * t) := let! (r, m) := txSortedMap.Forward (txs l) threshold in Ret (r, set_txs l m).
Definition Cap (l : t) (threshold : Z) : outcome (pointers * t) := let! (r, m) := txSortedMap.Cap (txs l) threshold in Ret (r, set_txs l m).
Definition Ready (l : t) (start : Z) : outcome (pointers * t) := let! (r, m) := txSortedMap.Ready (txs l) start in Ret (r, set_txs l m).

Section Ranges.
Context (range : gmap Z Transaction.t -> list (Z * Transaction.t)).

Definition Filter (l : t) (costLimit gasLimit : Z) : outcome (list Transaction.t * list Transaction.t * t) :=
  if (costcap l <=? costLimit) && (gascap l <=? gasLimit) then Ret ([], [], l)
  else
    let! (removed, m) := txSortedMap.Filter range (txs l) (fun tx => (gasLimit <? Transaction.GasLimit tx) || (costLimit <? Cost tx)) in
    let l := mk (strict l) m costLimit gasLimit in
    if bool_decide (removed = []) then Ret ([], [], l)
    else
      let lowest := foldl (fun lowest tx => if nonceOf tx <? lowest then nonceOf tx else lowest) (two64 - 1) removed in
      let (invalids, m) := if strict l then txSortedMap.filter_ range m (fun tx => lowest <? nonceOf tx) else ([], m) in
      let! m := txSortedMap.reheap range m in
      Ret (removed, invalids, set_txs l m).

Definition Remove (l : t) (tx : Transaction.t) : outcome (bool * list Transaction.t * t) :=
  let nonce := nonceOf tx in
  let! (removed, m) := txSortedMap.Remove (txs l) nonce in
  if negb removed then Ret (false, [], set_txs l m)
  else if strict l then
    let! (invalids, m) := txSortedMap.Filter range m (fun tx => nonce <? nonceOf tx) in
    Ret (true, invalids, set_txs l m)
  else Ret (true, [], set_txs l m).

Definition Flatten (l : t) : list Transaction.t * t := let (c, m) := txSortedMap.Flatten range (txs l) in (c, set_txs l m).
End Ranges.
End txList.

(** ** Sorted nonces *)

Section Nonces.
Implicit Types (items : gmap Z Transaction.t) (l index : list Z) (n : Z).

(** The nonces of a map in order, and its transactions in this order. *)
Definition nonces items : list Z := sortNonces (map_to_list items).*1.
Definition pointersOf items l : pointers := (items !!.) <$> l.

Lemma nonces_perm items : nonces items ≡ₚ (map_to_list items).*1.
Proof. apply merge_sort_Permutation. Qed.

Lemma nonces_NoDup items : NoDup (nonces items).
Proof. rewrite nonces_perm. apply NoDup_fst_map_to_list. Qed.

Lemma elem_of_nonces items n : n ∈ nonces items <-> is_Some (items !! n).
Proof.
  rewrite nonces_perm, list_elem_of_fmap. split.
  - intros ((k & tx) & -> & H%elem_of_map_to_list). by exists tx.
  - intros [tx H]. exists (n, tx). split; [done|]. by apply elem_of_map_to_list.
Qed.

Lemma sortNonces_sorted l : StronglySorted Z.le (sortNonces l).
Proof. apply (StronglySorted_merge_sort Z.le). Qed.

Lemma nonces_sorted items : StronglySorted Z.le (nonces items).
Proof. apply sortNonces_sorted. Qed.

(** The list is determined by its order and its elements. *)
Lemma nonces_unique items l : StronglySorted Z.le l -> NoDup l -> (forall n, n ∈ l <-> is_Some (items !! n)) -> l = nonces items.
Proof.
  intros Hs Hn He. apply (StronglySorted_unique Z.le); [done|apply nonces_sorted|]. apply NoDup_Permutation; [done|apply nonces_NoDup|]. intros n. by rewrite He, elem_of_nonces.
Qed.

Lemma sort_nonces items index : NoDup index -> (forall n, n ∈ index <-> is_Some (items !! n)) -> sortNonces index = nonces items.
Proof.
  intros Hn He. pose proof (merge_sort_Permutation Z.le index) as Ep. apply nonces_unique; [apply sortNonces_sorted|unfold sortNonces; by rewrite Ep|unfold sortNonces]. intros n. by rewrite Ep.
Qed.

Lemma nonces_delete items n l : nonces items = n :: l -> nonces (delete n items) = l.
Proof.
  intros E. pose proof (nonces_sorted items) as Hs. pose proof (nonces_NoDup items) as Hn. rewrite E in Hs, Hn. apply StronglySorted_inv in Hs as [Hs _]. apply NoDup_cons in Hn as [Hnotin Hn]. symmetry. apply nonces_unique; [done..|].
  intros k. rewrite lookup_delete_is_Some, <- elem_of_nonces, E, elem_of_cons. split; [intros Hk; split; [by intros ->|by right]|naive_solver].
Qed.

(** The least nonce comes first. *)
Lemma nonces_least items n : is_Some (items !! n) -> (forall k, is_Some (items !! k) -> n <= k) -> nonces items = n :: nonces (delete n items).
Proof.
  intros Hn Hl. symmetry. apply nonces_unique.
  - constructor; [apply nonces_sorted|]. apply Forall_forall. intros k Hk%elem_of_nonces. apply lookup_delete_is_Some in Hk as [_ Hk]. by apply Hl.
  - apply NoDup_cons. split; [|apply nonces_NoDup]. rewrite elem_of_nonces, lookup_delete_is_Some. tauto.
  - intros k. rewrite elem_of_cons, elem_of_nonces, lookup_delete_is_Some. destruct (decide (k = n)) as [->|]; naive_solver.
Qed.

Lemma pointers_delete items n l : n ∉ l -> pointersOf (delete n items) l = pointersOf items l.
Proof. intros Hn. apply list_fmap_ext. intros i k Hk. apply lookup_delete_ne. intros ->. by apply Hn, (list_elem_of_lookup_2 _ i). Qed.

(** The nonces below a threshold come before the others. *)
Definition from (t : Z) items : gmap Z Transaction.t := filter (fun e => t <= e.1) items.

Lemma from_lookup t items k : is_Some (from t items !! k) <-> is_Some (items !! k) /\ t <= k.
Proof. unfold from. split; [intros [x [H1 H2]%map_lookup_filter_Some]; by split; [exists x|]|intros [[x H1] H2]; exists x; by apply map_lookup_filter_Some]. Qed.

Lemma nonces_split t items : nonces items = filter (fun k => k < t) (nonces items) ++ nonces (from t items).
Proof.
  symmetry. apply nonces_unique.
  - pose proof (nonces_sorted items) as Hs. assert (forall l1 l2, StronglySorted Z.le l1 -> StronglySorted Z.le l2 -> (forall x y, x ∈ l1 -> y ∈ l2 -> x <= y) -> StronglySorted Z.le (l1 ++ l2)) as Happ.
    { intros l1 l2 H1 H2 H. induction H1 as [|x l1 _ IH HF]; [done|]. cbn. constructor; [apply IH; intros; apply H; [by right|done]|]. apply Forall_app. split; [done|]. apply Forall_forall. intros y Hy. apply H; [by left|done]. }
    apply Happ; [|apply nonces_sorted|].
    + induction Hs as [|x l _ IH HF]; [constructor|]. rewrite filter_cons. case_decide; [|done]. constructor; [done|]. apply Forall_forall. intros y [_ Hy]%list_elem_of_filter. rewrite Forall_forall in HF. by apply HF.
    + intros x y [Hx _]%list_elem_of_filter [_ Hy]%elem_of_nonces%from_lookup. lia.
  - apply NoDup_app. split; [apply NoDup_filter, nonces_NoDup|]. split; [|apply nonces_NoDup]. intros x [Hx _]%list_elem_of_filter [_ Hy]%elem_of_nonces%from_lookup. lia.
  - intros k. rewrite elem_of_app, list_elem_of_filter, !elem_of_nonces, from_lookup. destruct (Z.lt_ge_cases k t); naive_solver lia.
Qed.
End Nonces.

(** ** The heap of nonces *)

Section Index.
Implicit Types (items : gmap Z Transaction.t) (index h : list Z) (n : Z).
Abbreviation heap h := (is_heap Z.ltb h).

(** A heap with the nonces of a map. *)
Record indexed items index : Prop := {
  ix_distinct : NoDup index;
  ix_nonces : forall n, n ∈ index <-> is_Some (items !! n);
  ix_heap : heap index
}.

Lemma heap_ok_nonces h : NoDup h -> heap_ok (fun _ : Z => True) h.
Proof. intros H. split; [done|]. by apply Forall_forall. Qed.

Lemma ltb_neg_trans (x y z : Z) : (y <? x) = false -> (z <? y) = false -> (z <? x) = false.
Proof. rewrite !Z.ltb_ge. lia. Qed.

Lemma ltb_asym (x y : Z) : (x <? y) = true -> (y <? x) = false.
Proof. rewrite Z.ltb_lt, Z.ltb_ge. lia. Qed.

Lemma push_nonce h n : NoDup (h ++ [n]) -> heap h -> exists h', heapPush nonceLess h n = Ret h' /\ h' ≡ₚ h ++ [n] /\ heap h'.
Proof. intros Hn. apply (heapPush_spec nonceLess Z.ltb (fun _ => True)); [done|by intros; apply ltb_asym|by intros x y z _ _ _; apply ltb_neg_trans|by apply heap_ok_nonces]. Qed.

Lemma init_nonces h : NoDup h -> exists h', heapInit nonceLess h = Ret h' /\ h' ≡ₚ h /\ heap h'.
Proof. intros Hn. apply (heapInit_spec nonceLess Z.ltb (fun _ => True)); [done|by intros; apply ltb_asym|by intros x y z _ _ _; apply ltb_neg_trans|by apply heap_ok_nonces]. Qed.

Lemma remove_nonce h i n : NoDup h -> heap h -> h !! i = Some n -> exists h', heapRemove nonceLess h i = Ret (n, h') /\ h ≡ₚ n :: h' /\ heap h'.
Proof. intros Hn. apply (heapRemove_spec nonceLess Z.ltb (fun _ => True)); [done|by intros; apply ltb_asym|by intros x y z _ _ _; apply ltb_neg_trans|by apply heap_ok_nonces]. Qed.

Lemma pop_nonce h n : NoDup h -> heap h -> h !! 0%nat = Some n -> exists h', heapPop nonceLess h = Ret (n, h') /\ h ≡ₚ n :: h' /\ heap h'.
Proof. intros Hn. apply (heapPop_spec nonceLess Z.ltb (fun _ => True)); [done|by intros; apply ltb_asym|by intros x y z _ _ _; apply ltb_neg_trans|by apply heap_ok_nonces]. Qed.

(** A heap without one of its nonces, for the map without it. *)
Lemma indexed_delete items index n h : indexed items index -> index ≡ₚ n :: h -> heap h -> indexed (delete n items) h.
Proof.
  intros [H1 H2 _] Ep Hh. rewrite Ep in H1. apply NoDup_cons in H1 as [Hn H1]. split; [done| |done]. intros k. rewrite lookup_delete_is_Some, <- H2, Ep, elem_of_cons. split; [intros Hk; split; [by intros ->|by right]|naive_solver].
Qed.

Lemma indexed_root items n h : indexed items (n :: h) -> nonces items = n :: nonces (delete n items).
Proof.
  intros [H1 H2 H3]. apply nonces_least; [apply H2; by left|]. intros k [j Hj]%H2%list_elem_of_lookup.
  pose proof (heap_root Z.ltb (fun _ => True) (fun x y _ _ => ltb_asym x y) (fun x y z _ _ _ => ltb_neg_trans x y z) (n :: h) n (proj2 (Forall_forall _ _) (fun _ _ => I)) H3 eq_refl j k Hj). lia.
Qed.

Lemma indexed_nil items : indexed items [] -> nonces items = [].
Proof. intros [_ H _]. symmetry. apply nonces_unique; [constructor|constructor|done]. Qed.

Lemma indexed_sort items index : indexed items index -> sortNonces index = nonces items.
Proof. intros [H1 H2 _]. by apply sort_nonces. Qed.

Lemma indexed_length items index : indexed items index -> length index = size items.
Proof.
  intros [H1 H2 _]. rewrite <- length_map_to_list, <- (length_fmap fst). apply Permutation_length. apply NoDup_Permutation; [done|apply NoDup_fst_map_to_list|].
  intros n. by rewrite H2, <- elem_of_nonces, nonces_perm.
Qed.

(** *** Forward *)

Lemma from_nil t items : indexed items [] -> from t items = items.
Proof.
  intros Hix. apply map_filter_id. intros k x Hk. assert (k ∈ nonces items) as H by (apply elem_of_nonces; by exists x). rewrite (indexed_nil _ Hix) in H. by apply elem_of_nil in H.
Qed.

Lemma forwardLoop_run fuel t items index removed : indexed items index -> (length index <= fuel)%nat ->
  exists index', txSortedMap.forwardLoop fuel t items index removed = Ret (removed ++ pointersOf items (filter (fun k => k < t) (nonces items)), from t items, index') /\ indexed (from t items) index'.
Proof.
  revert items index removed. induction fuel as [|fuel IH]; intros items index removed Hix Hf.
  - destruct index; [|cbn in Hf; lia]. exists []. cbn. rewrite (indexed_nil _ Hix), (from_nil _ _ Hix). cbn. by rewrite app_nil_r.
  - destruct index as [|n h]; [exists []; cbn; rewrite (indexed_nil _ Hix), (from_nil _ _ Hix); cbn; by rewrite app_nil_r|].
    pose proof (indexed_root _ _ _ Hix) as Hroot. cbn [txSortedMap.forwardLoop]. destruct (Z.ltb_spec n t) as [Hlt|Hge].
    + destruct (pop_nonce (n :: h) n (ix_distinct _ _ Hix) (ix_heap _ _ Hix) eq_refl) as (h' & -> & Ep & Hh). cbn [obind]. pose proof (indexed_delete _ _ _ _ Hix Ep Hh) as Hix'.
      destruct (IH (delete n items) h' (removed ++ [items !! n]) Hix') as (index' & E & Hix''). { apply Permutation_length in Ep. cbn in *. lia. }
      assert (from t (delete n items) = from t items) as Hfrom by (apply map_filter_delete_not; intros x _; cbn; lia). rewrite Hfrom in *. exists index'. split; [|done]. rewrite E. do 3 f_equal.
      rewrite Hroot, filter_cons, decide_True by done. unfold pointersOf. cbn [fmap list_fmap]. rewrite <- app_assoc. cbn [app]. do 2 f_equal. apply pointers_delete. intros [_ Hn]%list_elem_of_filter.
      apply elem_of_nonces, lookup_delete_is_Some in Hn. tauto.
    + exists (n :: h). assert (forall k, k ∈ nonces items -> t <= k) as Hall.
      { intros k Hk. pose proof (nonces_sorted items) as Hs. rewrite Hroot in Hs, Hk. apply StronglySorted_inv in Hs as [_ HF]. rewrite Forall_forall in HF. apply elem_of_cons in Hk as [->|Hk]; [done|]. pose proof (HF k Hk). lia. }
      assert (from t items = items) as -> by (apply map_filter_id; intros k x Hk; apply Hall, elem_of_nonces; by exists x). split; [|done]. rewrite filter_none by (intros k Hk; pose proof (Hall k Hk); lia).
      cbn. by rewrite app_nil_r.
Qed.

(** *** Ready *)

(** The nonces of a sorted list that follow each other from [next] on. *)
Fixpoint streak (next : Z) (l : list Z) : list Z := match l with y :: l => if y =? next then y :: streak (next + 1) l else [] | [] => [] end.

Definition without (l : list Z) items : gmap Z Transaction.t := filter (fun e => e.1 ∉ l) items.

Lemma without_lookup l items k : without l items !! k = if decide (k ∈ l) then None else items !! k.
Proof. unfold without. rewrite map_lookup_filter. destruct (items !! k); cbn; case_decide; case_guard || idtac; try done; case_decide; done. Qed.

Lemma without_cons n l items : without l (delete n items) = without (n :: l) items.
Proof.
  apply map_eq. intros k. rewrite !without_lookup. destruct (decide (k = n)) as [->|Hk].
  - rewrite lookup_delete_eq, (decide_True (P := n ∈ n :: l)) by (by left). by case_decide.
  - rewrite lookup_delete_ne by done. destruct (decide (k ∈ l)) as [H|H]; [by rewrite decide_True by (by right)|]. rewrite decide_False; [done|]. by intros [?|?]%elem_of_cons.
Qed.

Lemma without_nil items : without [] items = items.
Proof. apply map_eq. intros k. rewrite without_lookup, decide_False; [done|apply not_elem_of_nil]. Qed.

Lemma streak_sublist next l : streak next l `sublist_of` l.
Proof. revert next. induction l as [|y l IH]; intros next; [done|]. cbn. destruct (y =? next); [by apply sublist_skip|apply sublist_nil_l]. Qed.

Lemma readyLoop_run fuel next items index ready : indexed items index -> (length index <= fuel)%nat -> (forall n, is_Some (items !! n) -> in_u64 n) ->
  exists index', txSortedMap.readyLoop fuel next items index ready = Ret (ready ++ pointersOf items (streak next (nonces items)), without (streak next (nonces items)) items, index') /\
    indexed (without (streak next (nonces items)) items) index'.
Proof.
  revert next items index ready. induction fuel as [|fuel IH]; intros next items index ready Hix Hf Hu.
  { destruct index; [|cbn in Hf; lia]. exists []. rewrite (indexed_nil _ Hix). cbn [streak]. rewrite without_nil. cbn. by rewrite app_nil_r. }
  destruct index as [|n h]; [exists []; rewrite (indexed_nil _ Hix); cbn [streak]; rewrite without_nil; cbn; by rewrite app_nil_r|].
  pose proof (indexed_root _ _ _ Hix) as Hroot. rewrite Hroot. cbn [txSortedMap.readyLoop streak]. destruct (Z.eqb_spec n next) as [<-|Hne]; [|exists (n :: h); rewrite without_nil; cbn; by rewrite app_nil_r].
  destruct (pop_nonce (n :: h) n (ix_distinct _ _ Hix) (ix_heap _ _ Hix) eq_refl) as (h' & -> & Ep & Hh). cbn [obind]. pose proof (indexed_delete _ _ _ _ Hix Ep Hh) as Hix'. set (l := nonces (delete n items)) in *.
  assert (forall k, is_Some (delete n items !! k) -> in_u64 k) as Hu' by (intros k [_ Hk]%lookup_delete_is_Some; by apply Hu).
  assert (streak (u64 (n + 1)) l = streak (n + 1) l) as Hs.
  { destruct (Z.eq_dec n (two64 - 1)) as [->|]; [|rewrite u64_id; [done|]; pose proof (Hu n ltac:(apply (ix_nonces _ _ Hix); by left)); unfold in_u64 in *; lia].
    destruct l as [|y l'] eqn:El; [done|]. exfalso. assert (is_Some (delete (two64 - 1) items !! y)) as Hy by (apply elem_of_nonces; unfold l in El; rewrite El; by left). pose proof (Hu' y Hy) as Hy'. apply lookup_delete_is_Some in Hy as [Hy _].
    pose proof (nonces_sorted items) as Hst. rewrite Hroot in Hst. apply StronglySorted_inv in Hst as [_ HF]. rewrite Forall_cons in HF. unfold in_u64 in Hy'. lia. }
  destruct (IH (u64 (n + 1)) (delete n items) h' (ready ++ [items !! n]) Hix') as (index' & E & Hix''); [apply Permutation_length in Ep; cbn in *; lia|done|].
  fold l in E, Hix''. rewrite Hs, without_cons in *. exists index'. split; [|done]. rewrite E. do 3 f_equal. unfold pointersOf. cbn [fmap list_fmap]. rewrite <- app_assoc. cbn [app]. do 2 f_equal. apply pointers_delete.
  intros Hn. pose proof (elem_of_sublist _ _ _ Hn (streak_sublist (n + 1) l)) as Hn'%elem_of_nonces%lookup_delete_is_Some. tauto.
Qed.

(** *** Cap *)

Lemma capLoop_run (c s : nat) (l : list Z) items drops : NoDup l -> (c <= s <= length l)%nat -> txSortedMap.capLoop c l items (Z.of_nat s) drops =
  Ret (drops ++ pointersOf items (reverse (drop (s - c) (take s l))), without (drop (s - c) (take s l)) items).
Proof.
  intros Hn. revert items s drops. induction c as [|c IH]; intros items s drops Hs.
  - cbn. rewrite Nat.sub_0_r, drop_ge by (rewrite length_take; lia). rewrite without_nil. cbn. by rewrite app_nil_r.
  - cbn [txSortedMap.capLoop]. destruct s as [|s]; [lia|]. replace (Z.of_nat (S s) - 1) with (Z.of_nat s) by lia. destruct (lookup_lt_is_Some_2 l s ltac:(lia)) as [x Hx].
    rewrite (proj2 (slice_get_Ret l (Z.of_nat s) x)) by (rewrite Nat2Z.id; auto with lia). cbn [obind]. rewrite IH by lia. rewrite (take_S_r _ _ _ Hx). replace (S s - S c)%nat with (s - c)%nat by lia.
    rewrite drop_app_le by (rewrite length_take; lia). set (k := drop (s - c) (take s l)). assert (x ∉ k) as Hxk.
    { intros H. assert (x ∈ take s l) as (j & Hj & Hlt)%elem_of_take by exact (elem_of_sublist _ _ _ H (sublist_drop _ _)). assert (j = s) by (by eapply NoDup_lookup). lia. }
    rewrite reverse_snoc. unfold pointersOf. cbn [fmap list_fmap]. rewrite <- app_assoc. cbn [app]. do 2 f_equal; [f_equal; f_equal; apply pointers_delete; by rewrite elem_of_reverse|].
    rewrite without_cons. apply map_eq. intros m. rewrite !without_lookup. by repeat (case_decide; rewrite ?elem_of_cons, ?elem_of_app, ?elem_of_cons, ?elem_of_nil in * ); try done; exfalso; naive_solver.
Qed.
End Index.

(** ** The sorted map refines a map *)

Section SortedMap.
Import txSortedMap.
Context (range : gmap Z Transaction.t -> list (Z * Transaction.t)) (Hrange : forall m, range m ≡ₚ map_to_list m).
Implicit Types (m : t) (tx : Transaction.t) (n : Z).

Record wf m : Prop := {
  wf_keys : forall n tx, items m !! n = Some tx -> nonceOf tx = n /\ in_u64 n;
  wf_index : indexed (items m) (index m);
  wf_cache : forall c, cache m = Some c -> Some <$> c = pointersOf (items m) (nonces (items m))
}.

Definition keyed (items : gmap Z Transaction.t) : Prop := forall n tx, items !! n = Some tx -> nonceOf tx = n /\ in_u64 n.

Lemma keyed_sub items items' : items' ⊆ items -> keyed items -> keyed items'.
Proof. intros Hs H n tx E. apply H. by eapply lookup_weaken. Qed.

Lemma without_sub l items : without l items ⊆ items.
Proof. apply map_filter_subseteq. Qed.

(** The nonces that stay when the last ones go. *)
Lemma nonces_take k items : nonces (without (drop k (nonces items)) items) = take k (nonces items).
Proof.
  symmetry. pose proof (nonces_sorted items) as Hs. pose proof (nonces_NoDup items) as Hn. rewrite <- (take_drop k (nonces items)) in Hs, Hn. apply NoDup_app in Hn as (Hn & Hd & _). apply nonces_unique; [|done|].
  - apply StronglySorted_app_1_l in Hs. done.
  - intros x. unfold is_Some. rewrite without_lookup. split.
    + intros Hx. rewrite decide_False by (by apply Hd). apply elem_of_nonces. rewrite <- (take_drop k (nonces items)). apply elem_of_app. by left.
    + case_decide as E; [by intros []|]. intros Hx. assert (x ∈ nonces items) as H by (by apply elem_of_nonces). rewrite <- (take_drop k (nonces items)) in H. by apply elem_of_app in H as [?|?].
Qed.

Lemma pointers_ext items items' l : (forall x, x ∈ l -> items' !! x = items !! x) -> pointersOf items' l = pointersOf items l.
Proof. intros H. apply list_fmap_ext. intros i x Hx. by apply H, (list_elem_of_lookup_2 _ i). Qed.

Lemma Put_run m tx : wf m -> in_u64 (nonceOf tx) -> exists m', Put m tx = Ret m' /\ wf m' /\ items m' = <[nonceOf tx := tx]> (items m).
Proof.
  clear range Hrange. intros [H1 H2 H3] Hu. unfold Put. assert (keyed (<[nonceOf tx := tx]> (items m))) as Hk by (intros n x [[<- <-]|[_ E]]%lookup_insert_Some; [done|by apply H1]). set (n := nonceOf tx) in *. pose proof H2 as [I1 I2 I3].
  destruct (bool_decide_reflect (items m !! n = None)) as [E|E].
  - assert (n ∉ index m) as Hn by (rewrite I2, E; by intros []). destruct (push_nonce (index m) n) as (h & -> & Ep & Hh); [apply NoDup_app; split; [done|]; split; [set_solver|apply NoDup_singleton]|done|]. cbn [obind].
    eexists. split; [done|]. split; [|done]. split; [done| |done]. cbn. split; [|intros k|done].
    + rewrite Ep. apply NoDup_app. split; [done|]. split; [set_solver|apply NoDup_singleton].
    + rewrite Ep, elem_of_app, list_elem_of_singleton, I2, lookup_insert_is_Some. destruct (decide (n = k)) as [->|]; naive_solver.
  - cbn [obind]. eexists. split; [done|]. split; [|done]. split; [done| |done]. cbn. split; [done| |done]. intros k. rewrite I2, lookup_insert_is_Some. destruct (decide (n = k)) as [->|]; [|naive_solver]. split; [by left|]. intros _. by apply not_eq_None_Some.
Qed.

Lemma Forward_run m t : wf m -> exists m', Forward m t = Ret (pointersOf (items m) (filter (fun k => k < t) (nonces (items m))), m') /\ wf m' /\ items m' = from t (items m).
Proof.
  intros [H1 H2 H3]. unfold Forward. destruct (forwardLoop_run (length (index m)) t (items m) (index m) [] H2 ltac:(done)) as (h & -> & Hix). cbn [obind]. rewrite app_nil_l. set (gone := filter (fun k => k < t) (nonces (items m))).
  pose proof (nonces_split t (items m)) as Hsp. fold gone in Hsp. assert (keyed (from t (items m))) as Hk by (eapply keyed_sub; [apply map_filter_subseteq|done]).
  assert (pointersOf (from t (items m)) (nonces (from t (items m))) = pointersOf (items m) (nonces (from t (items m)))) as Hp.
  { apply pointers_ext. intros x [y Hy]%elem_of_nonces. rewrite Hy. symmetry. by apply map_lookup_filter_Some in Hy as [? _]. }
  destruct (cache m) as [c|] eqn:Ec.
  - pose proof (H3 c eq_refl) as Hc. rewrite Hsp in Hc. unfold pointersOf in Hc. rewrite fmap_app in Hc. pose proof (f_equal length Hc) as Hl. rewrite length_app, !length_fmap in Hl. unfold zlen, pointersOf. rewrite length_fmap.
    rewrite (proj2 (Z.ltb_ge _ _)) by lia. cbn [obind]. eexists. split; [done|]. split; [|done]. split; [done|done|]. cbn. intros c' [= <-]. fold (pointersOf (from t (items m)) (nonces (from t (items m)))). rewrite Hp.
    rewrite fmap_drop, Hc. apply drop_app_length'. by rewrite length_fmap.
  - cbn [obind]. eexists. split; [done|]. split; [|done]. by split.
Qed.

Lemma nonces_length items : length (nonces items) = size items.
Proof. by rewrite nonces_perm, length_fmap, length_map_to_list. Qed.

Lemma Cap_run m k : wf m -> 0 <= k -> let gone := drop (Z.to_nat k) (nonces (items m)) in
  exists m', Cap m k = Ret (pointersOf (items m) (reverse gone), m') /\ wf m' /\ items m' = without gone (items m).
Proof.
  intros [H1 H2 H3] Hk. cbv zeta. set (l := nonces (items m)). pose proof (nonces_length (items m)) as Hlen. fold l in Hlen. unfold Cap. destruct (Z.leb_spec (Z.of_nat (size (items m))) k) as [Hle|Hgt].
  - rewrite drop_ge, without_nil by lia. exists m. by split.
  - rewrite (indexed_sort _ _ H2). fold l. set (c := Z.to_nat (Z.of_nat (size (items m)) - k)). assert (c = (size (items m) - Z.to_nat k)%nat) as Hcc by (unfold c; lia). rewrite (capLoop_run c (size (items m)) l (items m) []) by (apply nonces_NoDup || lia). cbn [obind].
    replace (size (items m) - c)%nat with (Z.to_nat k) by lia. rewrite (take_ge l (size (items m))) by lia. rewrite app_nil_l. set (gone := drop (Z.to_nat k) l). rewrite (proj2 (Z.ltb_ge k 0)), (proj2 (Z.ltb_ge (zlen l) k)) by (unfold zlen; lia). cbn [orb].
    pose proof (nonces_take (Z.to_nat k) (items m)) as Htake. fold l gone in Htake. destruct (init_nonces (take (Z.to_nat k) l)) as (h & -> & Ep & Hh); [rewrite <- Htake; apply nonces_NoDup|]. cbn [obind].
    assert (indexed (without gone (items m)) h) as Hix.
    { split; [rewrite Ep, <- Htake; apply nonces_NoDup| |done]. intros n. by rewrite Ep, <- Htake, elem_of_nonces. }
    assert (keyed (without gone (items m))) as Hkey by (eapply keyed_sub; [apply without_sub|done]). destruct (cache m) as [cc|] eqn:Ec.
    + pose proof (H3 cc eq_refl) as Hc. fold l in Hc. pose proof (f_equal length Hc) as Hl. unfold pointersOf in Hl. rewrite !length_fmap in Hl. assert (length gone = (length l - Z.to_nat k)%nat) as Hg by apply length_drop.
      unfold zlen, pointersOf. rewrite length_fmap, length_reverse, (proj2 (Z.ltb_ge _ _)) by lia. cbn [obind]. eexists. split; [done|]. split; [|done]. split; [done|done|]. cbn. intros c' [= <-].
      fold (pointersOf (without gone (items m)) (nonces (without gone (items m)))). rewrite Htake, fmap_take, Hc. unfold pointersOf. rewrite <- fmap_take. replace (length cc - length gone)%nat with (Z.to_nat k) by lia.
      symmetry. apply pointers_ext. intros x Hx. rewrite without_lookup, decide_False; [done|]. intros Hx'. pose proof (nonces_NoDup (items m)) as Hn. fold l in Hn. rewrite <- (take_drop (Z.to_nat k) l) in Hn. apply NoDup_app in Hn as (_ & Hd & _). by apply (Hd x).
    + cbn [obind]. eexists. split; [done|]. split; [|done]. by split.
Qed.

Lemma find_run n l k : n ∈ l -> exists i, find n l k = Some (k + i)%nat /\ l !! i = Some n.
Proof.
  revert k. induction l as [|x l IH]; intros k Hn; [by apply elem_of_nil in Hn|]. cbn. destruct (Z.eqb_spec x n) as [->|Hne]; [exists 0%nat; split; [f_equal; lia|done]|].
  apply elem_of_cons in Hn as [->|Hn]; [done|]. destruct (IH (S k) Hn) as (i & E & Hi). exists (S i). split; [rewrite E; f_equal; lia|done].
Qed.

Lemma Remove_run m n : wf m -> exists m', Remove m n = Ret (bool_decide (is_Some (items m !! n)), m') /\ wf m' /\ items m' = delete n (items m).
Proof.
  intros [H1 H2 H3]. unfold Remove. destruct (bool_decide_reflect (items m !! n = None)) as [E|E].
  - exists m. rewrite bool_decide_false by (rewrite E; by intros []). split; [done|]. split; [done|]. by rewrite delete_id.
  - assert (is_Some (items m !! n)) as Hs by (by apply not_eq_None_Some). destruct (find_run n (index m) 0) as (i & -> & Hi); [by apply H2|]. rewrite Nat.add_0_l.
    destruct (remove_nonce (index m) i n (ix_distinct _ _ H2) (ix_heap _ _ H2) Hi) as (h & -> & Ep & Hh). cbn [obind]. eexists. rewrite bool_decide_true by done. split; [done|]. split; [|done].
    split; [apply (keyed_sub (items m)); [apply delete_subseteq|done]|by eapply indexed_delete|done].
Qed.

(** What [Ready] takes: nothing, or the first nonce and those that follow it. *)
Definition readies (start : Z) (l : list Z) : list Z := match l with x :: _ => if x <=? start then streak x l else [] | [] => [] end.

Lemma Ready_run m start : wf m -> let gone := readies start (nonces (items m)) in
  exists m', Ready m start = Ret (pointersOf (items m) gone, m') /\ wf m' /\ items m' = without gone (items m).
Proof.
  intros [H1 H2 H3]. cbv zeta. unfold Ready. destruct (index m) as [|x h] eqn:Ei.
  - rewrite (indexed_nil _ H2). cbn [readies]. rewrite without_nil. exists m. split; [done|]. split; [|done]. split; [done|by rewrite Ei|done].
  - pose proof (indexed_root _ _ _ H2) as Hroot. assert (readies start (nonces (items m)) = if x <=? start then streak x (nonces (items m)) else []) as -> by (by rewrite Hroot). rewrite Z.ltb_antisym. destruct (Z.leb_spec x start) as [Hle|Hgt]; cbn [negb].
    + destruct (readyLoop_run (length (x :: h)) x (items m) (x :: h) [] H2 ltac:(done)) as (h' & -> & Hix); [intros n [y Hy]; by apply (H1 n y)|]. cbn [obind fst snd]. rewrite app_nil_l. eexists. split; [done|]. split; [|done].
      split; [eapply keyed_sub; [apply without_sub|done]|done|done].
    + rewrite without_nil. exists m. split; [done|]. split; [|done]. split; [done|by rewrite Ei|done].
Qed.

(** *** Filter and Flatten *)

Definition keeping (f : Transaction.t -> bool) (items : gmap Z Transaction.t) : gmap Z Transaction.t := filter (fun e => f e.2 = false) items.

Lemma keeping_lookup f (items : gmap Z Transaction.t) n tx : keeping f items !! n = Some tx <-> items !! n = Some tx /\ f tx = false.
Proof. unfold keeping. by rewrite map_lookup_filter_Some. Qed.

Lemma delete_all (hit : list (Z * Transaction.t)) (items : gmap Z Transaction.t) k : foldl (fun (items : gmap Z Transaction.t) e => delete e.1 items) items hit !! k = if decide (k ∈ hit.*1) then None else items !! k.
Proof.
  revert items. induction hit as [|[n tx] hit IH]; intros items; [by rewrite decide_False by (by intros ?%elem_of_nil)|]. cbn [foldl fst fmap list_fmap]. rewrite IH. destruct (decide (k = n)) as [->|Hk].
  - rewrite lookup_delete_eq, (decide_True (P := n ∈ n :: _)) by (by left). by case_decide.
  - rewrite lookup_delete_ne by done. destruct (decide (k ∈ hit.*1)) as [H|H]; [by rewrite decide_True by (by right)|]. rewrite decide_False; [done|]. by intros [?|?]%elem_of_cons.
Qed.

Lemma filter_run m f : wf m -> exists removed m', filter_ range m f = (removed, m') /\ index m' = index m /\ items m' = keeping f (items m) /\ keyed (items m') /\
  removed ≡ₚ (filter (fun e => f e.2 = true) (map_to_list (items m))).*2 /\ (removed = [] -> m' = m).
Proof.
  intros [H1 H2 H3]. unfold filter_. set (hit := filter (fun e => f e.2 = true) (range (items m))). assert (hit ≡ₚ filter (fun e => f e.2 = true) (map_to_list (items m))) as Ep by (unfold hit; by rewrite Hrange).
  assert (foldl (fun items e => delete e.1 items) (items m) hit = keeping f (items m)) as Ek.
  { apply map_eq. intros k. rewrite delete_all. apply option_eq. intros tx. rewrite keeping_lookup. case_decide as E.
    - split; [done|]. intros [Hk Hf]. apply list_elem_of_fmap in E as ((k' & tx') & -> & Hin). rewrite Ep in Hin. apply list_elem_of_filter in Hin as [Hf' Hin%elem_of_map_to_list]. cbn in *. congruence.
    - split; [|tauto]. intros Hk. split; [done|]. destruct (f tx) eqn:Ef; [|done]. destruct E. apply list_elem_of_fmap. exists (k, tx). split; [done|]. rewrite Ep. apply list_elem_of_filter. split; [done|]. by apply elem_of_map_to_list. }
  do 2 eexists. split; [done|]. cbn. rewrite Ek. split; [done|]. split; [done|]. split; [eapply keyed_sub; [apply map_filter_subseteq|done]|]. split; [by rewrite Ep|].
  intros E%fmap_nil_inv. rewrite E in *. cbn in Ek. rewrite <- Ek. by destruct m.
Qed.

Lemma reheap_run m : keyed (items m) -> exists m', reheap range m = Ret m' /\ wf m' /\ items m' = items m.
Proof.
  intros Hk. unfold reheap. destruct (init_nonces (range (items m)).*1) as (h & -> & Ep & Hh); [rewrite Hrange; apply NoDup_fst_map_to_list|]. cbn [obind]. eexists. split; [done|]. split; [|done]. split; [done| |done]. cbn.
  rewrite Hrange in Ep. split; [rewrite Ep; apply NoDup_fst_map_to_list| |done]. intros n. by rewrite Ep, <- nonces_perm, elem_of_nonces.
Qed.

Lemma Filter_run m f : wf m -> exists removed m', Filter range m f = Ret (removed, m') /\ wf m' /\ items m' = keeping f (items m) /\ removed ≡ₚ (filter (fun e => f e.2 = true) (map_to_list (items m))).*2.
Proof.
  intros H. unfold Filter. destruct (filter_run m f H) as (removed & m1 & -> & _ & Hi & Hk & Hr & Hs). destruct (bool_decide_reflect (removed = [])) as [E|E].
  - cbn [obind]. exists removed, m1. rewrite (Hs E) in *. done.
  - destruct (reheap_run m1 Hk) as (m2 & -> & Hw & Hi2). cbn [obind]. exists removed, m2. split; [done|]. split; [done|]. split; [congruence|done].
Qed.

Lemma sortTxs_run m : wf m -> Some <$> sortTxs (snd <$> range (items m)) = pointersOf (items m) (nonces (items m)).
Proof.
  intros [H1 _ _]. set (c := sortTxs (snd <$> range (items m))). assert (c ≡ₚ (map_to_list (items m)).*2) as Ep by (unfold c, sortTxs; rewrite merge_sort_Permutation, Hrange; done).
  assert (forall tx, tx ∈ c -> items m !! nonceOf tx = Some tx) as Hin.
  { intros tx Htx. rewrite Ep in Htx. apply list_elem_of_fmap in Htx as ((n & tx') & -> & Hin%elem_of_map_to_list). cbn. by destruct (H1 n tx' Hin) as [-> _]. }
  assert (nonceOf <$> c = nonces (items m)) as <-.
  { apply nonces_unique.
    - assert (StronglySorted byNonce c) as Hs. { apply (StronglySorted_merge_sort byNonce). }
      clear -Hs. induction Hs as [|x l _ IH HF]; [constructor|]. cbn. constructor; [done|]. apply Forall_fmap. exact HF.
    - rewrite Ep. assert (nonceOf <$> (map_to_list (items m)).*2 = (map_to_list (items m)).*1) as ->; [|apply NoDup_fst_map_to_list]. rewrite <- list_fmap_compose. apply list_fmap_ext.
      intros i [n tx] Hi. cbn. apply list_elem_of_lookup_2, elem_of_map_to_list in Hi. by destruct (H1 n tx Hi).
    - intros n. split.
      + intros (tx & -> & Htx)%list_elem_of_fmap. exists tx. by apply Hin.
      + intros [tx Htx]. apply list_elem_of_fmap. exists tx. destruct (H1 n tx Htx) as [<- _]. split; [done|]. rewrite Ep. apply list_elem_of_fmap. exists (nonceOf tx, tx). split; [done|]. by apply elem_of_map_to_list. }
  unfold pointersOf. rewrite <- list_fmap_compose. apply list_fmap_ext. intros i tx Hi. cbn. symmetry. apply Hin. by eapply list_elem_of_lookup_2.
Qed.

Lemma Flatten_run m : wf m -> exists c m', Flatten range m = (c, m') /\ wf m' /\ items m' = items m /\ Some <$> c = pointersOf (items m) (nonces (items m)).
Proof.
  intros H. pose proof (sortTxs_run m H) as Hs. destruct H as [H1 H2 H3]. unfold Flatten, flatten. destruct (cache m) as [c|] eqn:Ec; do 2 eexists; (split; [done|]).
  - split; [by split; try done; rewrite Ec|]. split; [done|by apply H3].
  - split; [|done]. split; [done|done|]. cbn. by intros c [= <-].
Qed.

(** *** The operations *)

Inductive op := OPut (tx : Transaction.t) | OForward (threshold : Z) | OCap (threshold : Z) | ORemove (nonce : Z) | OReady (start : Z) | OFilter (f : Transaction.t -> bool) | OFlatten.

Definition exec (o : op) m : outcome (bool * pointers * t) :=
  match o with
  | OPut tx => let! m := Put m tx in Ret (true, [], m)
  | OForward k => let! (r, m) := Forward m k in Ret (true, r, m)
  | OCap k => let! (r, m) := Cap m k in Ret (true, r, m)
  | ORemove n => let! (b, m) := Remove m n in Ret (b, [], m)
  | OReady n => let! (r, m) := Ready m n in Ret (true, r, m)
  | OFilter f => let! (r, m) := Filter range m f in Ret (true, Some <$> r, m)
  | OFlatten => let (c, m) := Flatten range m in Ret (true, Some <$> c, m)
  end.

Definition op_ok (o : op) : Prop := match o with OPut tx => in_u64 (nonceOf tx) | OCap k => 0 <= k | _ => True end.

(** What an operation does to a map from nonces to transactions, and what it returns. *)
Definition meets (o : op) (before : gmap Z Transaction.t) (b : bool) (r : pointers) (after : gmap Z Transaction.t) : Prop :=
  match o with
  | OPut tx => after = <[nonceOf tx := tx]> before
  | OForward k => r = pointersOf before (filter (fun n => n < k) (nonces before)) /\ after = from k before
  | OCap k => let gone := drop (Z.to_nat k) (nonces before) in r = pointersOf before (reverse gone) /\ after = without gone before
  | ORemove n => b = bool_decide (is_Some (before !! n)) /\ after = delete n before
  | OReady n => let gone := readies n (nonces before) in r = pointersOf before gone /\ after = without gone before
  | OFilter f => r ≡ₚ Some <$> (filter (fun e => f e.2 = true) (map_to_list before)).*2 /\ after = keeping f before
  | OFlatten => r = pointersOf before (nonces before) /\ after = before
  end.


Lemma new_wf : wf newTxSortedMap.
Proof. split; [done| |done]. split; [constructor| |by intros j Hj x y]. intros n. cbn. rewrite elem_of_nil, lookup_empty. split; [done|by intros []]. Qed.
End SortedMap.

(** ** The list of an account *)

Abbreviation held l := (txSortedMap.items (txList.txs l)).

Section List.
Import txList.
Context (range : gmap Z Transaction.t -> list (Z * Transaction.t)) (Hrange : forall m, range m ≡ₚ map_to_list m).
Implicit Types (l : txList.t) (tx : Transaction.t).

(** The caps bound the cost and the gas of every transaction. *)
Definition lwf l : Prop := wf (txs l) /\ forall n tx, held l !! n = Some tx -> Cost tx <= costcap l /\ Transaction.GasLimit tx <= gascap l.

Definition above (costLimit gasLimit : Z) tx : Prop := gasLimit < Transaction.GasLimit tx \/ costLimit < Cost tx.

Lemma lowest_run (removed : list Transaction.t) (x : Z) : let low := foldl (fun lowest tx => if nonceOf tx <? lowest then nonceOf tx else lowest) x removed in
  low <= x /\ (forall tx, tx ∈ removed -> low <= nonceOf tx) /\ (low = x \/ exists tx, tx ∈ removed /\ nonceOf tx = low).
Proof.
  revert x. induction removed as [|tx removed IH]; intros x; cbv zeta; cbn [foldl]; [split; [lia|]; split; [by intros ? ?%elem_of_nil|by left]|]. set (y := if nonceOf tx <? x then nonceOf tx else x).
  assert (y <= x /\ y <= nonceOf tx /\ (y = x \/ y = nonceOf tx)) as (H1 & H2 & H3) by (unfold y; destruct (Z.ltb_spec (nonceOf tx) x); lia). destruct (IH y) as (I1 & I2 & I3). split; [lia|]. split.
  - intros t [->|Ht]%elem_of_cons; [lia|by apply I2].
  - destruct I3 as [->|(t & Ht & E)]; [|right; exists t; split; [by right|done]]. destruct H3 as [->| ->]; [by left|right; exists tx; split; [by left|done]].
Qed.

Lemma removed_spec (m : gmap Z Transaction.t) (f : Transaction.t -> bool) (removed : list Transaction.t) tx : removed ≡ₚ (filter (fun e => f e.2 = true) (map_to_list m)).*2 -> tx ∈ removed <-> exists n, m !! n = Some tx /\ f tx = true.
Proof.
  intros ->. rewrite list_elem_of_fmap. split.
  - intros ((n & x) & -> & [Hf Hin%elem_of_map_to_list]%list_elem_of_filter). by exists n.
  - intros (n & Hn & Hf). exists (n, tx). split; [done|]. apply list_elem_of_filter. split; [done|]. by apply elem_of_map_to_list.
Qed.

(** What a strict list must drop with the transactions above the limits: those behind one of them. *)
Definition behind l (costLimit gasLimit : Z) tx : Prop := exists k x, held l !! k = Some x /\ above costLimit gasLimit x /\ k < nonceOf tx.

Lemma above_bool costLimit gasLimit tx : (gasLimit <? Transaction.GasLimit tx) || (costLimit <? Cost tx) = true <-> above costLimit gasLimit tx.
Proof. unfold above. by rewrite orb_true_iff, !Z.ltb_lt. Qed.

Lemma above_bool_false costLimit gasLimit tx : (gasLimit <? Transaction.GasLimit tx) || (costLimit <? Cost tx) = false <-> ~ above costLimit gasLimit tx.
Proof. by rewrite <- above_bool, not_true_iff_false. Qed.

(** The lowest nonce of the removed transactions decides what lies behind them. *)
Lemma lowest_behind l costLimit gasLimit removed tx : lwf l -> (forall x, x ∈ removed <-> exists n, held l !! n = Some x /\ above costLimit gasLimit x) -> in_u64 (nonceOf tx) ->
  (foldl (fun lowest tx => if nonceOf tx <? lowest then nonceOf tx else lowest) (two64 - 1) removed <? nonceOf tx) = true <-> behind l costLimit gasLimit tx.
Proof.
  intros [[Hk _ _] _] Hr Hu. destruct (lowest_run removed (two64 - 1)) as (H1 & H2 & H3). set (low := foldl _ _ _) in *. clearbody low. rewrite Z.ltb_lt. split.
  - intros Hlt. destruct H3 as [->|(x & Hx & E)]; [unfold in_u64 in Hu; lia|]. apply Hr in Hx as (n & Hn & Ha). exists n, x. destruct (Hk n x Hn) as [<- _]. split; [done|]. split; [done|lia].
  - intros (k & x & Hx & Ha & Hlt). destruct (Hk k x Hx) as [E _]. pose proof (H2 x ltac:(apply Hr; by exists k)). lia.
Qed.

(** What [Filter] returns and leaves. *)
Record filtered l (costLimit gasLimit : Z) (removed invalids : list Transaction.t) l' : Prop := {
  fl_removed : forall tx, tx ∈ removed <-> exists n, held l !! n = Some tx /\ above costLimit gasLimit tx;
  fl_invalids : forall tx, tx ∈ invalids <-> strict l = true /\ (exists n, held l !! n = Some tx) /\ ~ above costLimit gasLimit tx /\ behind l costLimit gasLimit tx;
  fl_kept : forall n tx, held l' !! n = Some tx <-> held l !! n = Some tx /\ ~ above costLimit gasLimit tx /\ (strict l = true -> ~ behind l costLimit gasLimit tx)
}.

(** With nothing above the limits there is nothing to do. *)
Lemma filtered_none l costLimit gasLimit l' : (forall n tx, held l !! n = Some tx -> ~ above costLimit gasLimit tx) -> held l' = held l -> filtered l costLimit gasLimit [] [] l'.
Proof.
  intros H E. assert (forall tx, ~ behind l costLimit gasLimit tx) as Hb by (intros tx (k & x & Hx & Ha & _); by eapply H).
  split; [intros tx; rewrite elem_of_nil; naive_solver|intros tx; rewrite elem_of_nil; naive_solver|]. intros n tx. rewrite E. naive_solver.
Qed.

Lemma filter_range m f : wf m -> exists removed m', txSortedMap.filter_ range m f = (removed, m') /\ txSortedMap.items m' = keeping f (txSortedMap.items m) /\ keyed (txSortedMap.items m') /\
  forall tx, tx ∈ removed <-> exists n, txSortedMap.items m !! n = Some tx /\ f tx = true.
Proof. intros H. destruct (filter_run range Hrange m f H) as (r & m' & E & _ & Ei & Hk & Hr & _). exists r, m'. repeat (split; [done|]). intros tx. by apply removed_spec. Qed.

Lemma Filter_range m f : wf m -> exists removed m', txSortedMap.Filter range m f = Ret (removed, m') /\ wf m' /\ txSortedMap.items m' = keeping f (txSortedMap.items m) /\
  forall tx, tx ∈ removed <-> exists n, txSortedMap.items m !! n = Some tx /\ f tx = true.
Proof. intros H. destruct (Filter_run range Hrange m f H) as (r & m' & E & Hw & Ei & Hr). exists r, m'. repeat (split; [done|]). intros tx. by apply removed_spec. Qed.

(** The pass over a strict list, and the one over a list that is not. *)
Lemma invalids_run l m costLimit gasLimit removed : lwf l -> wf m -> txSortedMap.items m = keeping (fun tx => (gasLimit <? Transaction.GasLimit tx) || (costLimit <? Cost tx)) (held l) ->
  (forall x, x ∈ removed <-> exists n, held l !! n = Some x /\ above costLimit gasLimit x) ->
  let lowest := foldl (fun lowest tx => if nonceOf tx <? lowest then nonceOf tx else lowest) (two64 - 1) removed in
  exists invalids m', (if strict l then txSortedMap.filter_ range m (fun tx => lowest <? nonceOf tx) else ([], m)) = (invalids, m') /\ keyed (txSortedMap.items m') /\
    forall cost gas m'', txSortedMap.items m'' = txSortedMap.items m' -> filtered l costLimit gasLimit removed invalids (mk (strict l) m'' cost gas).
Proof.
  intros Hl Hm Em Hr lowest. pose proof Hl as [[Hk _ _] _]. assert (forall n tx, held l !! n = Some tx -> (lowest <? nonceOf tx) = true <-> behind l costLimit gasLimit tx) as Hb.
  { intros n tx Hn. apply lowest_behind; [done|done|]. by destruct (Hk n tx Hn) as [-> ?]. }
  destruct (strict l) eqn:Es.
  - destruct (filter_range m (fun tx => lowest <? nonceOf tx) Hm) as (inv & m' & -> & Ei & Hk' & Hi). exists inv, m'. split; [done|]. split; [done|]. intros c g m'' E''. split; [done| |].
    + intros tx. rewrite Hi, Em. setoid_rewrite keeping_lookup. setoid_rewrite above_bool_false. naive_solver.
    + intros n tx. cbn. rewrite E'', Ei, keeping_lookup, Em, keeping_lookup, above_bool_false, <- not_true_iff_false. naive_solver.
  - exists [], m. split; [done|]. split; [exact (wf_keys _ Hm)|]. intros c g m'' E''. split; [done| |].
    + intros tx. rewrite elem_of_nil, Es. naive_solver.
    + intros n tx. cbn. rewrite E'', Em, keeping_lookup, above_bool_false, Es. naive_solver.
Qed.

Lemma list_Filter_run l costLimit gasLimit : lwf l -> exists removed invalids l', Filter range l costLimit gasLimit = Ret (removed, invalids, l') /\ lwf l' /\ strict l' = strict l /\ filtered l costLimit gasLimit removed invalids l'.
Proof.
  intros Hl. pose proof Hl as [Hw Hc]. unfold Filter. destruct ((costcap l <=? costLimit) && (gascap l <=? gasLimit)) eqn:Ecap.
  - apply andb_true_iff in Ecap as [E1%Z.leb_le E2%Z.leb_le]. exists [], [], l. split; [done|]. split; [done|]. split; [done|]. apply filtered_none; [|done]. intros n tx Hn. unfold above. pose proof (Hc n tx Hn). lia.
  - destruct (Filter_range (txs l) (fun tx => (gasLimit <? Transaction.GasLimit tx) || (costLimit <? Cost tx)) Hw) as (removed & m1 & -> & Hw1 & E1 & Hr). cbn [obind]. setoid_rewrite above_bool in Hr. destruct (bool_decide_reflect (removed = [])) as [->|Hne].
    + exists [], [], (mk (strict l) m1 costLimit gasLimit). assert (forall n tx, held l !! n = Some tx -> ~ above costLimit gasLimit tx) as Hno by (intros n tx Hn Ha; apply (not_elem_of_nil tx), Hr; by exists n).
      split; [done|]. split; [|split; [done|apply filtered_none; [done|]]].
      * split; [done|]. intros n tx. cbn. rewrite E1, keeping_lookup, above_bool_false. unfold above. lia.
      * cbn. rewrite E1. apply map_filter_id. intros n tx Hn. cbn. by apply above_bool_false, (Hno n).
    + destruct (invalids_run l m1 costLimit gasLimit removed Hl Hw1 E1 Hr) as (inv & m2 & E2 & Hk2 & Hf). cbn [strict txList.txs]. rewrite E2. destruct (reheap_run range Hrange m2 Hk2) as (m3 & -> & Hw3 & E3). cbn [obind].
      exists removed, inv, (mk (strict l) m3 costLimit gasLimit). split; [done|]. specialize (Hf costLimit gasLimit m3 E3). split; [|done]. split; [done|]. intros n tx (_ & Ha & _)%Hf. unfold above in Ha. cbn. lia.
Qed.

(** C35: The filter of an account's list is exact.  The caps that let it skip the work
    bound the cost and the gas of every transaction, and they are kept; [Filter] returns
    the transactions above the limits; in a strict list it returns and removes with them
    the ones whose nonce lies behind one of them; it keeps all others. *)
Theorem Filter_exact l costLimit gasLimit : lwf l -> exists removed invalids l', Filter range l costLimit gasLimit = Ret (removed, invalids, l') /\ lwf l' /\ strict l' = strict l /\ filtered l costLimit gasLimit removed invalids l'.
Proof. apply list_Filter_run. Qed.

(** *** Strict lists *)

(** No nonce is missing between two that are there. *)
Definition gapless (m : gmap Z Transaction.t) : Prop := forall a b c, a <= b <= c -> is_Some (m !! a) -> is_Some (m !! c) -> is_Some (m !! b).

Inductive lop := LForward (threshold : Z) | LCap (threshold : Z) | LReady (start : Z) | LFilter (costLimit gasLimit : Z) | LRemove (tx : Transaction.t).

Definition lexec (o : lop) l : outcome txList.t :=
  match o with
  | LForward k => let! (_, l) := Forward l k in Ret l
  | LCap k => let! (_, l) := Cap l k in Ret l
  | LReady n => let! (_, l) := Ready l n in Ret l
  | LFilter c g => let! (_, _, l) := Filter range l c g in Ret l
  | LRemove tx => let! (_, _, l) := Remove range l tx in Ret l
  end.

Definition lop_ok (o : lop) : Prop := match o with LCap k => 0 <= k | _ => True end.

Lemma set_txs_lwf l m : lwf l -> wf m -> txSortedMap.items m ⊆ held l -> lwf (set_txs l m).
Proof. intros [_ H] Hm Hs. split; [done|]. intros n tx E. apply (H n). by eapply lookup_weaken. Qed.

Lemma gapless_part (P : Z -> Prop) (m m' : gmap Z Transaction.t) : gapless m -> (forall n, is_Some (m' !! n) <-> is_Some (m !! n) /\ P n) ->
  (forall a b c, a <= b <= c -> is_Some (m !! a) -> is_Some (m !! b) -> is_Some (m !! c) -> P a -> P c -> P b) -> gapless m'.
Proof. intros H HP Hc a b c Habc [Ha Pa]%HP [Hcc Pc]%HP. apply HP. assert (is_Some (m !! b)) as Hb by by eapply H. split; [done|exact (Hc a b c Habc Ha Hb Hcc Pa Pc)]. Qed.

Lemma without_is_Some gone (m : gmap Z Transaction.t) n : is_Some (without gone m !! n) <-> is_Some (m !! n) /\ n ∉ gone.
Proof. rewrite without_lookup. case_decide; [|tauto]. split; [by intros []|tauto]. Qed.

Lemma nonces_app_lt (m : gmap Z Transaction.t) (l1 l2 : list Z) (x y : Z) : nonces m = l1 ++ l2 -> x ∈ l1 -> y ∈ l2 -> x < y.
Proof.
  intros E Hx Hy. pose proof (nonces_NoDup m) as Hn. pose proof (nonces_sorted m) as Hs. rewrite E in Hs, Hn. apply NoDup_app in Hn as (_ & Hd & _). pose proof (StronglySorted_app_1_elem_of Z.le l1 l2 x y Hs Hx Hy).
  assert (x <> y) by (intros ->; by eapply Hd). lia.
Qed.

(** Without its highest nonces, or its lowest, a map without gaps has none. *)
Lemma gapless_drop rest gone (m : gmap Z Transaction.t) : gapless m -> nonces m = rest ++ gone -> gapless (without gone m).
Proof.
  intros H E. apply (gapless_part (.∉ gone) m); [done|by intros; apply without_is_Some|]. intros a b c Habc _ _ Hc%elem_of_nonces _ Pc Hin. rewrite E in Hc. apply elem_of_app in Hc as [Hc|Hc]; [|done].
  pose proof (nonces_app_lt m rest gone c b E Hc Hin). lia.
Qed.

Lemma gapless_take gone rest (m : gmap Z Transaction.t) : gapless m -> nonces m = gone ++ rest -> gapless (without gone m).
Proof.
  intros H E. apply (gapless_part (.∉ gone) m); [done|by intros; apply without_is_Some|]. intros a b c Habc Ha%elem_of_nonces _ _ Pa _ Hin. rewrite E in Ha. apply elem_of_app in Ha as [Ha|Ha]; [done|].
  pose proof (nonces_app_lt m gone rest b a E Hin Ha). lia.
Qed.

Lemma streak_prefix next (l : list Z) : exists rest, l = streak next l ++ rest.
Proof. revert next. induction l as [|y l IH]; intros next; [by exists []|]. cbn. destruct (y =? next); [|by eexists]. destruct (IH (next + 1)) as [rest E]. exists rest. cbn. by rewrite <- E. Qed.

Lemma readies_prefix start (l : list Z) : exists rest, l = readies start l ++ rest.
Proof. destruct l as [|x l]; [by exists []|]. unfold readies. destruct (x <=? start); [apply streak_prefix|by eexists]. Qed.

Lemma filtered_gapless l costLimit gasLimit removed invalids l' : lwf l -> strict l = true -> filtered l costLimit gasLimit removed invalids l' -> gapless (held l) -> gapless (held l').
Proof.
  intros [[Hk _ _] _] Hs [_ _ H] Hg a b c Habc [x Hx] [z Hz]. apply H in Hx as (Ex & _ & _). apply H in Hz as (Ez & Nz & Pz). destruct (Hg a b c Habc) as [y Ey]; [by exists x|by exists z|]. specialize (Pz Hs).
  destruct (Hk _ _ Ez) as [Enz _]. destruct (Hk _ _ Ey) as [Eny _]. exists y. apply H. split; [done|]. split.
  - intros Ha. destruct (Z.eq_dec b c) as [->|]; [assert (y = z) as -> by congruence; by apply Nz|]. apply Pz. exists b, y. split; [done|]. split; [done|lia].
  - intros _ (k & w & Ew & Ha & Hlt). apply Pz. exists k, w. split; [done|]. split; [done|lia].
Qed.

(** [Remove] of a nonce that is there, in a strict list, leaves the nonces below it. *)
Lemma list_Remove_run l tx : lwf l -> strict l = true -> exists b invalids l', Remove range l tx = Ret (b, invalids, l') /\ lwf l' /\ strict l' = true /\
  (held l' = held l \/ forall n x, held l' !! n = Some x <-> held l !! n = Some x /\ n < nonceOf tx).
Proof.
  intros Hl Hs. pose proof Hl as [Hw Hc]. unfold Remove. destruct (Remove_run (txs l) (nonceOf tx) Hw) as (m1 & -> & Hw1 & E1). cbn [obind]. destruct (bool_decide_reflect (is_Some (held l !! nonceOf tx))) as [E|E]; cbn [negb].
  - rewrite Hs. destruct (Filter_range m1 (fun x => nonceOf tx <? nonceOf x) Hw1) as (inv & m2 & -> & Hw2 & E2 & _). cbn [obind]. exists true, inv, (set_txs l m2).
    assert (forall n x, txSortedMap.items m2 !! n = Some x <-> held l !! n = Some x /\ n < nonceOf tx) as Hm.
    { intros n x. rewrite E2, keeping_lookup, E1, lookup_delete_Some, Z.ltb_ge. split; [intros [[Hne Hn] Hle]|intros [Hn Hlt]]; destruct (wf_keys _ Hw n x Hn) as [Ex _]; split; try done; try split; try done; lia. }
    split; [done|]. split; [|split; [done|by right]]. apply set_txs_lwf; [done|done|]. apply map_subseteq_spec. intros n x Hn. by apply Hm in Hn as [? _].
  - exists false, [], (set_txs l m1). assert (txSortedMap.items m1 = held l) as Em. { rewrite E1. apply delete_id. by apply eq_None_not_Some. }
    split; [done|]. split; [apply set_txs_lwf; [done|done|by rewrite Em]|]. split; [done|by left].
Qed.

(** C34: A strict list never has a gap because of a removal.  When its nonces follow each
    other, they do after dropping old nonces, after the cap, after taking the ready ones,
    after the filter of what the account cannot pay and after removing a transaction;
    none of these panics, and all of them keep the heap and the caps of the list right. *)
Theorem strict_stays_gapless l o : lwf l -> strict l = true -> gapless (held l) -> lop_ok o -> exists l', lexec o l = Ret l' /\ lwf l' /\ strict l' = true /\ gapless (held l').
Proof.
  intros Hl Hs Hg Ho. pose proof Hl as [Hw _]. destruct o as [k|k|n|c g|tx]; cbn [lexec].
  - unfold Forward. destruct (Forward_run (txs l) k Hw) as (m & -> & Hm & E). exists (set_txs l m). split; [done|]. split; [apply set_txs_lwf; [done|done|rewrite E; apply map_filter_subseteq]|]. split; [done|]. cbn. rewrite E.
    apply (gapless_part (Z.le k) (held l)); [done|by intros; apply from_lookup|lia].
  - unfold Cap. destruct (Cap_run (txs l) k Hw Ho) as (m & -> & Hm & E). exists (set_txs l m). split; [done|]. split; [apply set_txs_lwf; [done|done|rewrite E; apply without_sub]|]. split; [done|]. cbn. rewrite E.
    eapply gapless_drop; [done|symmetry; apply take_drop].
  - unfold Ready. destruct (Ready_run (txs l) n Hw) as (m & -> & Hm & E). exists (set_txs l m). split; [done|]. split; [apply set_txs_lwf; [done|done|rewrite E; apply without_sub]|]. split; [done|]. cbn. rewrite E.
    destruct (readies_prefix n (nonces (held l))) as [rest Er]. by eapply gapless_take.
  - destruct (list_Filter_run l c g Hl) as (r & i & l' & -> & Hl' & Hs' & Hf). exists l'. split; [done|]. split; [done|]. split; [by rewrite Hs'|]. exact (filtered_gapless l c g r i l' Hl Hs Hf Hg).
  - destruct (list_Remove_run l tx Hl Hs) as (b & i & l' & -> & Hl' & Hs' & Hk). exists l'. split; [done|]. split; [done|]. split; [done|]. destruct Hk as [->|Hk]; [done|].
    apply (gapless_part (fun n => n < nonceOf tx) (held l)); [done| |lia]. intros n. split; [intros [x Hx]; apply Hk in Hx as []; split; [by exists x|done]|intros [[x Hx] Hlt]; exists x; by apply Hk].
Qed.

(** *** Replacement *)

(** When [Add] takes a transaction. *)
Definition accepted l tx (priceBump : Z) : Prop :=
  forall old, held l !! nonceOf tx = Some old -> Transaction.Price old < Transaction.Price tx /\ Transaction.Price old * (100 + priceBump) / 100 <= Transaction.Price tx.

#[export] Instance accepted_dec l tx priceBump : Decision (accepted l tx priceBump).
Proof.
  destruct (held l !! nonceOf tx) as [old|] eqn:E; [|left; intros old Ho; by rewrite E in Ho]. destruct (decide (Transaction.Price old < Transaction.Price tx /\ Transaction.Price old * (100 + priceBump) / 100 <= Transaction.Price tx)) as [H|H].
  - left. intros o Ho. rewrite E in Ho. by injection Ho as <-.
  - right. intros Ha. by apply H, Ha.
Defined.

Lemma Add_run l tx priceBump : lwf l -> in_u64 (nonceOf tx) -> 0 <= priceBump < 2 ^ 63 - 100 ->
  (accepted l tx priceBump -> exists l', Add l tx priceBump = Ret (true, held l !! nonceOf tx, l') /\ lwf l' /\ strict l' = strict l /\ held l' = <[nonceOf tx := tx]> (held l)) /\
  (~ accepted l tx priceBump -> Add l tx priceBump = Ret (false, None, l)).
Proof.
  intros Hl Hu Hb. pose proof Hl as [Hw Hc]. unfold Add, txSortedMap.Get. set (refused := match held l !! nonceOf tx with Some _ => _ | None => _ end).
  assert (refused = false <-> accepted l tx priceBump) as Hr.
  { unfold refused, accepted. destruct (held l !! nonceOf tx) as [old|]; [|by split]. rewrite (i64_of_small_u64 priceBump), i64_of_small_u64 by (unfold two63; lia). rewrite orb_false_iff, Z.leb_gt, Z.ltb_ge, Z.mul_comm. naive_solver. }
  split; intros Ha; [|apply not_iff_compat in Hr; apply Hr, not_false_iff_true in Ha; by rewrite Ha]. apply Hr in Ha as ->. destruct (Put_run (txs l) tx Hw Hu) as (m & -> & Hm & E). cbn [obind]. eexists. split; [done|]. split; [|done].
  split; [done|]. intros n x. cbn. rewrite E. intros [[_ <-]|[_ Hx]]%lookup_insert_Some; [|pose proof (Hc n x Hx)]; destruct (Z.ltb_spec (costcap l) (Cost tx)), (Z.ltb_spec (gascap l) (Transaction.GasLimit tx)); lia.
Qed.

(** A transaction with a nonce that is taken replaces the old one only at a price
    that is strictly higher and that reaches the price bump; it is then the transaction
    of its nonce and the old one is returned.  Refused, it leaves the list as it was. *)
Theorem Add_replaces l tx priceBump : lwf l -> in_u64 (nonceOf tx) -> 0 <= priceBump < 2 ^ 63 - 100 ->
  (accepted l tx priceBump -> exists l', Add l tx priceBump = Ret (true, held l !! nonceOf tx, l') /\ lwf l' /\ strict l' = strict l /\ held l' = <[nonceOf tx := tx]> (held l)) /\
  (~ accepted l tx priceBump -> Add l tx priceBump = Ret (false, None, l)).
Proof. apply Add_run. Qed.

(** A list that is filled by [Add]. *)
Fixpoint addAll l (added : list Transaction.t) (priceBump : Z) : outcome txList.t :=
  match added with
  | tx :: added => let! (_, _, l) := Add l tx priceBump in addAll l added priceBump
  | [] => Ret l
  end.

Lemma new_lwf strict : lwf (newTxList strict).
Proof. split; [exact new_wf|]. intros n tx. cbn. by rewrite lookup_empty. Qed.

Lemma addAll_lwf added l priceBump : lwf l -> Forall (fun tx => in_u64 (nonceOf tx)) added -> 0 <= priceBump < 2 ^ 63 - 100 -> exists l', addAll l added priceBump = Ret l' /\ lwf l'.
Proof.
  intros Hl Ha Hb. revert l Hl. induction Ha as [|tx added Hu _ IH]; intros l Hl; [by exists l|]. cbn [addAll]. destruct (Add_run l tx priceBump Hl Hu Hb) as [H1 H2].
  destruct (decide (accepted l tx priceBump)) as [H|H]; [destruct (H1 H) as (l' & -> & Hl' & _); by apply IH|rewrite (H2 H); by apply IH].
Qed.
End List.

(** ** A list of three transactions *)

Module TxDemo.
Definition tx (nonce price gas : Z) : Transaction.t := Transaction.mk nonce price gas None 1 [] [] None 27 nonce.
Definition three : txList.t := match addAll (txList.newTxList true) [tx 5 10 21000; tx 7 10 90000; tx 6 10 21000] 10 with Ret l => l | Panic _ => txList.newTxList true end.

Lemma three_lwf : lwf three.
Proof.
  destruct (addAll_lwf [tx 5 10 21000; tx 7 10 90000; tx 6 10 21000] (txList.newTxList true) 10) as (l & E & Hl); [apply new_lwf|repeat constructor; done|lia|]. unfold three. by rewrite E.
Qed.

Lemma three_held : held three = {[5 := tx 5 10 21000; 6 := tx 6 10 21000; 7 := tx 7 10 90000]}.
Proof. vm_compute. reflexivity. Qed.

Lemma three_gapless : gapless (held three).
Proof.
  assert (forall k, is_Some (held three !! k) <-> k ∈ [5; 6; 7]) as H by (intros k; rewrite three_held, <- elem_of_dom, !dom_insert_L, dom_singleton_L; set_solver).
  intros a b c Habc. rewrite !H, !elem_of_cons, !elem_of_nil. lia.
Qed.
End TxDemo.

Import TxDemo.


(** A gas limit of 50000 takes the transaction of nonce 7. *)
Lemma Filter_exact_witness : lwf three /\ exists removed invalids l', txList.Filter map_to_list three (10 ^ 6) 50000 = Ret (removed, invalids, l') /\ lwf l' /\ txList.strict l' = txList.strict three /\ filtered three (10 ^ 6) 50000 removed invalids l'.
Proof. exact (conj three_lwf (Filter_exact map_to_list (fun m => reflexivity _) three (10 ^ 6) 50000 three_lwf)). Defined.

Lemma strict_stays_gapless_witness : gapless (held three) /\ exists l', lexec map_to_list (LRemove (tx 6 10 21000)) three = Ret l' /\ lwf l' /\ txList.strict l' = true /\ gapless (held l').
Proof. exact (conj three_gapless (strict_stays_gapless map_to_list (fun m => reflexivity _) three (LRemove (tx 6 10 21000)) three_lwf eq_refl three_gapless I)). Defined.

(** At a bump of ten in a hundred the price 11 replaces 10, and 10 does not. *)
Lemma Add_replaces_witness : (exists l', txList.Add three (tx 6 11 21000) 10 = Ret (true, held three !! 6, l') /\ lwf l' /\ txList.strict l' = txList.strict three /\ held l' = <[6 := tx 6 11 21000]> (held three)) /\
  txList.Add three (tx 6 10 21000) 10 = Ret (false, None, three).
Proof.
  split; [apply (Add_replaces three (tx 6 11 21000) 10)|apply (Add_replaces three (tx 6 10 21000) 10)]; try exact three_lwf; try lia; try done.
  - intros old. rewrite three_held. vm_compute. intros [= <-]. by split.
  - intros Ha. destruct (Ha (tx 6 10 21000) ltac:(by rewrite three_held)) as [H _]. by vm_compute in H.
Defined.
