(* ===== verification/Miner.v ===== *)
(** * The block that is being built

    The transactions of the pool in the order of their prices and nonces
    ([core/types/transaction.go]), the gas limit of the next block
    ([core/block_validator.go]) and the check of it and of the uncles
    ([consensus/ethash/consensus.go]), and the worker that fills a block
    ([miner/worker.go]). *)

From S2P Require Import Prelude GoStd Effects StateDB Bloom EvmData EvmOps Transition.
Import state vm.

(** ** Transactions by price and nonce *)

(** [TxByPriceAndTime]: the higher price is first, and of equal ones the earlier. *)
Definition priceTimeLess (x y : Transaction.t) : bool :=
  if Transaction.Price x =? Transaction.Price y then Transaction.time x <? Transaction.time y else Transaction.Price y <? Transaction.Price x.

Definition Less (x y : Transaction.t) : outcome bool := Ret (priceTimeLess x y).

Module TransactionsByPriceAndNonce.
Record t := mk { txs : gmap bytes (list Transaction.t); heads : list Transaction.t }.

Section Set_.
Context (signer : Transaction.t -> option bytes).

(** [Sender] whose error is ignored. *)
Definition sender (tx : Transaction.t) : bytes := default (replicate 20 Byte.x00) (signer tx).

(** The loop over the accounts, which writes the map that it reads: [accounts] are the
    keys in the order in which they come up. *)
Fixpoint headsLoop (accounts : list bytes) (txs : gmap bytes (list Transaction.t)) (heads : list Transaction.t) : outcome (gmap bytes (list Transaction.t) * list Transaction.t) :=
  match accounts with
  | [] => Ret (txs, heads)
  | from :: accounts =>
      match txs !! from with
      | None => headsLoop accounts txs heads
      | Some [] => Panic "index out of range"
      | Some (tx :: rest) =>
          let acc := sender tx in
          let txs := <[acc := rest]> txs in
          let txs := if bool_decide (from = acc) then txs else delete from txs in
          headsLoop accounts txs (heads ++ [tx])
      end
  end.

Definition NewTransactionsByPriceAndNonce (accounts : list bytes) (txs : gmap bytes (list Transaction.t)) : outcome t :=
  let! (txs, heads) := headsLoop accounts txs [] in
  let! heads := heapInit Less heads in
  Ret (mk txs heads).

Definition Peek (s : t) : option Transaction.t := head (heads s).

Definition Pop (s : t) : outcome t := let! (_, heads) := heapPop Less (heads s) in Ret (mk (txs s) heads).

Definition Shift (s : t) : outcome t :=
  match heads s with
  | [] => Panic "index out of range"
  | tx :: _ =>
      let acc := sender tx in
      match txs s !! acc with
      | Some (next :: rest) =>
          let! heads := heapFix Less (<[0%nat := next]> (heads s)) 0 in
          Ret (mk (<[acc := rest]> (txs s)) heads)
      | _ => Pop s
      end
  end.
End Set_.

(** The transactions that are left. *)
Definition count (s : t) : nat := length (heads s) + map_fold (fun _ l n => length l + n)%nat 0%nat (txs s).
End TransactionsByPriceAndNonce.

(** ** The gas limit *)

Definition GasLimitBoundDivisor : Z := 1024.
Definition MinGasLimit : Z := 5000.

Definition CalcGasLimit (parentGasUsed parentGasLimit gasFloor gasCeil : Z) : Z :=
  let contrib := u64 (parentGasUsed + parentGasUsed `div` 2) `div` GasLimitBoundDivisor in
  let decay := u64 (parentGasLimit `div` GasLimitBoundDivisor - 1) in
  let limit := u64 (u64 (parentGasLimit - decay) + contrib) in
  let limit := if limit <? MinGasLimit then MinGasLimit else limit in
  if limit <? gasFloor then
    let limit := u64 (parentGasLimit + decay) in
    if gasFloor <? limit then gasFloor else limit
  else if gasCeil <? limit then
    let limit := u64 (parentGasLimit - decay) in
    if limit <? gasCeil then gasCeil else limit
  else limit.

(** The part of [verifyHeader] about the gas. *)
Definition verifyGas (parentGasLimit gasLimit gasUsed : Z) : bool :=
  let cap := 0x7fffffffffffffff in
  if cap <? gasLimit then false
  else if gasLimit <? gasUsed then false
  else
    let diff := i64 (i64 parentGasLimit - i64 gasLimit) in
    let diff := if diff <? 0 then i64 (diff * -1) else diff in
    let limit := parentGasLimit `div` GasLimitBoundDivisor in
    negb ((limit <=? u64 diff) || (gasLimit <? MinGasLimit)).

(** ** Uncles *)

(** A block: its hash, its header, and its uncles with their hashes. *)
Module block.
Record t := mk { Hash : bytes; header : Header.t; Uncles : list (bytes * Header.t) }.
Definition ParentHash (b : t) : bytes := Header.ParentHash (header b).
End block.

Section Ancestors.
Context (GetBlock : bytes -> Z -> option block.t) (GetBlockNumber : bytes -> option Z).

Fixpoint blocksLoop (n : nat) (hash : bytes) (number : Z) : list block.t :=
  match n with
  | O => []
  | S n =>
      match GetBlock hash number with
      | None => []
      | Some b => b :: blocksLoop n (block.ParentHash b) (u64 (number - 1))
      end
  end.

Definition GetBlocksFromHash (hash : bytes) (n : nat) : list block.t :=
  match GetBlockNumber hash with None => [] | Some number => blocksLoop n hash number end.

(** *** The check of the engine *)

Inductive uncleError := errTooManyUncles | errDuplicateUncle | errUncleIsAncestor | errDanglingUncle | errUncleHeader.

Fixpoint gatherLoop (n : nat) (parent : bytes) (number : Z) (uncles : gset bytes) (ancestors : gmap bytes Header.t) : gset bytes * gmap bytes Header.t :=
  match n with
  | O => (uncles, ancestors)
  | S n =>
      match GetBlock parent number with
      | None => (uncles, ancestors)
      | Some ancestor =>
          let ancestors := <[block.Hash ancestor := block.header ancestor]> ancestors in
          let uncles := foldl (fun uncles uncle => uncles ∪ {[uncle.1]}) uncles (block.Uncles ancestor) in
          gatherLoop n (block.ParentHash ancestor) (u64 (number - 1)) uncles ancestors
      end
  end.

(** [verifyHeader header parent], for an uncle with its seal. *)
Context (verifyHeader : Header.t -> Header.t -> bool).

Fixpoint unclesLoop (parentHash : bytes) (ancestors : gmap bytes Header.t) (uncles : gset bytes) (l : list (bytes * Header.t)) : option uncleError :=
  match l with
  | [] => None
  | (hash, uncle) :: l =>
      if bool_decide (hash ∈ uncles) then Some errDuplicateUncle
      else
        let uncles := uncles ∪ {[hash]} in
        if bool_decide (ancestors !! hash <> None) then Some errUncleIsAncestor
        else
          match ancestors !! Header.ParentHash uncle with
          | None => Some errDanglingUncle
          | Some parent =>
              if bool_decide (Header.ParentHash uncle = parentHash) then Some errDanglingUncle
              else if verifyHeader uncle parent then unclesLoop parentHash ancestors uncles l else Some errUncleHeader
          end
  end.

Definition VerifyUncles (fullFake : bool) (b : block.t) : option uncleError :=
  if fullFake then None
  else if 2 <? zlen (block.Uncles b) then Some errTooManyUncles
  else if bool_decide (block.Uncles b = []) then None
  else
    let (uncles, ancestors) := gatherLoop 7 (block.ParentHash b) (u64 (u64 (Header.Number (block.header b)) - 1)) ∅ ∅ in
    let ancestors := <[block.Hash b := block.header b]> ancestors in
    let uncles := uncles ∪ {[block.Hash b]} in
    unclesLoop (block.ParentHash b) ancestors uncles (block.Uncles b).
End Ancestors.

(** ** The worker *)

Definition staleThreshold : Z := 7.
Definition commitInterruptNone : Z := 0.
Definition commitInterruptNewHead : Z := 1.
Definition commitInterruptResubmit : Z := 2.

(** What is sent to the loop that adjusts the interval: [Increase] with the gas that is
    used and the limit, whose quotient is the ratio, or [Decrease]. *)
Inductive intervalAdjust := Increase (used limit : Z) | Decrease.

Inductive commitError := errUncleNotUnique | errUncleSibling | errUncleParent | errUncleIncluded.

Module worker.
Section Worker.
Context {L : StateLib} {V : EvmLib} {C : CryptoLib}.

(** The header's [GasUsed] is counted here, and the gas pool may be nil. *)
Record environment := mkEnvironment {
  header : Header.t; GasUsed : Z; state : StateDB.t; ancestors : gset bytes; family : gset bytes; uncles : gset bytes;
  tcount : Z; gasPool : option Z; txs : list Transaction.t; receipts : list Receipt.t
}.

Definition set_uncles (env : environment) (u : gset bytes) : environment :=
  mkEnvironment (header env) (GasUsed env) (state env) (ancestors env) (family env) u (tcount env) (gasPool env) (txs env) (receipts env).

Definition makeCurrent (StateAt : option StateDB.t) (blocks : list block.t) (h : Header.t) : option environment :=
  match StateAt with
  | None => None
  | Some s =>
      let add sets ancestor :=
        let family := foldl (fun family uncle => family ∪ {[uncle.1]}) sets.2 (block.Uncles ancestor) in
        (sets.1 ∪ {[block.Hash ancestor]}, family ∪ {[block.Hash ancestor]}) in
      let sets := foldl add (∅, ∅) blocks in
      Some (mkEnvironment h 0 s sets.1 sets.2 ∅ 0 None [] [])
  end.

Definition commitUncle (env : environment) (hash : bytes) (uncle : Header.t) : option commitError * environment :=
  if bool_decide (hash ∈ uncles env) then (Some errUncleNotUnique, env)
  else if bool_decide (Header.ParentHash (header env) = Header.ParentHash uncle) then (Some errUncleSibling, env)
  else if negb (bool_decide (Header.ParentHash uncle ∈ ancestors env)) then (Some errUncleParent, env)
  else if bool_decide (hash ∈ family env) then (Some errUncleIncluded, env)
  else (None, set_uncles env (uncles env ∪ {[hash]})).

(** The second loop of [commitUncles], over the blocks in some order. *)
Fixpoint pickLoop (blocks : list (bytes * Header.t)) (picked : list (bytes * Header.t)) (env : environment) : list (bytes * Header.t) * environment :=
  match blocks with
  | [] => (picked, env)
  | (hash, uncle) :: blocks =>
      if zlen picked =? 2 then (picked, env)
      else
        match commitUncle env hash uncle with
        | (Some _, env) => pickLoop blocks picked env
        | (None, env) => pickLoop blocks (picked ++ [(hash, uncle)]) env
        end
  end.

(** A block is kept under its hash; [range] is the order in which a map is read. *)
Definition commitUncles (range : gmap bytes Header.t -> list (bytes * Header.t)) (blocks : gmap bytes Header.t) (picked : list (bytes * Header.t)) (env : environment) :
    gmap bytes Header.t * list (bytes * Header.t) * environment :=
  let stale (uncle : Header.t) := u64 (u64 (Header.Number uncle) + staleThreshold) <=? u64 (Header.Number (header env)) in
  let blocks := foldl (fun blocks e => if stale e.2 then delete e.1 blocks else blocks) blocks (range blocks) in
  let (picked, env) := pickLoop (range blocks) picked env in
  (blocks, picked, env).

(** *** Transactions *)

Abbreviation PriceSet := TransactionsByPriceAndNonce.t.
Context (config : ChainConfig.t) (GetHeader : bytes -> Z -> option Header.t) (Author : Header.t -> bytes) (NoRecursion EnablePreimageRecording : bool) (fuel : nat).
Context (signer : Transaction.t -> option bytes) (coinbase : bytes).

(** [interrupt n] is what the [n]-th look at the flag returns: other goroutines set it. *)
Context (interrupt : option (nat -> Z)).

Inductive ending := Interrupted | Finished | OutOfRounds.

Definition interrupted (looks : nat) : bool := match interrupt with Some look => negb (look looks =? commitInterruptNone) | None => false end.
Definition looked (looks : nat) : nat := match interrupt with Some _ => S looks | None => looks end.

(** The rounds, at most one for each transaction. *)
Fixpoint commitLoop (rounds looks : nat) (h : Header.t) (set : PriceSet) (n : Z) (w : StateProcessor.environment) (logs : list Log.t) :
    outcome (ending * nat * PriceSet * Z * StateProcessor.environment * list Log.t) :=
  match rounds with
  | O => Ret (OutOfRounds, looks, set, n, w, logs)
  | S rounds =>
      if interrupted looks then Ret (Interrupted, looked looks, set, n, w, logs)
      else
        let looks := looked looks in
        if Block.gp (StateProcessor.current w) <? params.TxGas then Ret (Finished, looks, set, n, w, logs)
        else
          match TransactionsByPriceAndNonce.Peek set with
          | None => Ret (Finished, looks, set, n, w, logs)
          | Some tx =>
              if Transaction.Protected tx && negb (ChainConfig.isForked (ChainConfig.EIP155Block config) (Header.Number h)) then
                let! set := TransactionsByPriceAndNonce.Pop set in commitLoop rounds looks h set n w logs
              else
                let! (_, b) := StateProcessor.onDB (Prepare (Transaction.Hash tx) zeroHash n) (StateProcessor.current w) in
                let! (r, w) := StateProcessor.commitTransaction config GetHeader Author NoRecursion EnablePreimageRecording fuel h coinbase tx
                  (StateProcessor.mkEnvironment b (StateProcessor.txs w) (StateProcessor.receipts w)) in
                match r with
                | inl new => let! set := TransactionsByPriceAndNonce.Shift signer set in commitLoop rounds looks h set (n + 1) w (logs ++ new)
                | inr ErrGasLimitReached | inr ErrNonceTooHigh => let! set := TransactionsByPriceAndNonce.Pop set in commitLoop rounds looks h set n w logs
                | inr _ => let! set := TransactionsByPriceAndNonce.Shift signer set in commitLoop rounds looks h set n w logs
                end
          end
  end.

(** What a call tells others: the adjustments, and the logs for the subscribers. *)
Record report := mkReport { adjusts : list intervalAdjust; feed : option (list Log.t) }.

Definition building (env : environment) (pool : Z) : StateProcessor.environment := StateProcessor.mkEnvironment (Block.mk L pool (GasUsed env) (state env)) (txs env) (receipts env).
Definition built (env : environment) (n : Z) (w : StateProcessor.environment) : environment :=
  let b := StateProcessor.current w in
  mkEnvironment (header env) (Block.usedGas b) (Block.statedb b) (ancestors env) (family env) (uncles env) n (Some (Block.gp b)) (StateProcessor.txs w) (StateProcessor.receipts w).

(** [commitTransactions]: whether the work is to be discarded, the report, and the
    number of looks at the flag so far.  Its callers have an environment. *)
Definition commitTransactions (isRunning : bool) (looks : nat) (set : PriceSet) (env : environment) : outcome (ending * bool * report * nat * PriceSet * environment) :=
  let! pool := (match gasPool env with None => GasPool.AddGas 0 (Header.GasLimit (header env)) | Some pool => Ret pool end) in
  let! (x, logs) := commitLoop (S (TransactionsByPriceAndNonce.count set)) looks (header env) set (tcount env) (building env pool) [] in
  let '(e, looks, set, n, w) := x : ending * nat * PriceSet * Z * StateProcessor.environment in
  let env := built env n w in
  match e, interrupt with
  | Interrupted, Some look =>
      let limit := Header.GasLimit (header env) in
      let adjust := if look looks =? commitInterruptResubmit then [Increase (u64 (limit - Block.gp (StateProcessor.current w))) limit] else [] in
      Ret (e, look (S looks) =? commitInterruptNewHead, mkReport adjust None, S (S looks), set, env)
  | _, _ =>
      let feed := if negb isRunning && (0 <? zlen logs) then Some logs else None in
      Ret (e, false, mkReport (match interrupt with Some _ => [Decrease] | None => [] end) feed, looks, set, env)
  end.

(** The transactions of local accounts are taken out of the pending ones. *)
Definition splitLocals (locals : list bytes) (pending : gmap bytes (list Transaction.t)) : gmap bytes (list Transaction.t) * gmap bytes (list Transaction.t) :=
  foldl (fun r account =>
    match r.2 !! account with
    | Some (tx :: txs) => (<[account := tx :: txs]> r.1, delete account r.2)
    | _ => r
    end) (∅, pending) locals.

(** One half of the filling: nothing is done without transactions. *)
Definition commitHalf (keys : gmap bytes (list Transaction.t) -> list bytes) (isRunning : bool) (looks : nat) (pending : gmap bytes (list Transaction.t)) (env : environment) : outcome (bool * nat * environment) :=
  if 0 <? Z.of_nat (size pending) then
    let! set := TransactionsByPriceAndNonce.NewTransactionsByPriceAndNonce signer (keys pending) pending in
    let! (x, env) := commitTransactions isRunning looks set env in
    let '(_, stop, _, looks, _) := x : ending * bool * report * nat * PriceSet in
    Ret (stop, looks, env)
  else Ret (false, looks, env).

(** The end of [commitNewWork] before [commit]: the local transactions come first;
    [None] for work that is discarded. *)
Definition fillBlock (keys : gmap bytes (list Transaction.t) -> list bytes) (isRunning : bool) (locals : list bytes) (pending : gmap bytes (list Transaction.t)) (env : environment) : outcome (option environment) :=
  let (localTxs, remoteTxs) := splitLocals locals pending in
  let! (x, env) := commitHalf keys isRunning 0 localTxs env in
  let (stop, looks) := x : bool * nat in
  if stop then Ret None
  else
    let! (x, env) := commitHalf keys isRunning looks remoteTxs env in
    let (stop, _) := x : bool * nat in
    Ret (if stop then None else Some env).
End Worker.
End worker.
