(* ===== verification/MinerSafety.v ===== *)
(** * Facts about the block that is being built

    The order of the transactions, the gas limit and the uncles that the engine accepts,
    and the books of the block that the worker fills. *)

From S2P Require Import Prelude GoStd Effects StateDB StateRevert StateSafety Bloom EvmData EvmOps EvmState EvmInv EvmDemo EvmSafety Transition TransitionSafety Miner.
Import state vm.

(** ** Transactions by price and nonce *)

Lemma priceTimeLess_asym x y : priceTimeLess x y = true -> priceTimeLess y x = false.
Proof. unfold priceTimeLess. destruct (Z.eqb_spec (Transaction.Price x) (Transaction.Price y)), (Z.eqb_spec (Transaction.Price y) (Transaction.Price x)); lia. Qed.

Lemma priceTimeLess_trans x y z : priceTimeLess y x = false -> priceTimeLess z y = false -> priceTimeLess z x = false.
Proof.
  unfold priceTimeLess. destruct (Z.eqb_spec (Transaction.Price y) (Transaction.Price x)), (Z.eqb_spec (Transaction.Price z) (Transaction.Price y)), (Z.eqb_spec (Transaction.Price z) (Transaction.Price x)); lia.
Qed.

Section Order.
Import TransactionsByPriceAndNonce.
Context (signer : Transaction.t -> option bytes).
Abbreviation from tx := (sender signer tx).
Abbreviation queues := (gmap bytes (list Transaction.t)).
Abbreviation heap := (is_heap priceTimeLess).
Implicit Types (s : TransactionsByPriceAndNonce.t) (q : queues) (tx : Transaction.t) (a : bytes).

(** The pending transactions of the accounts: no queue is empty, and all transactions
    of a queue are from its account. *)
Definition queues_ok q : Prop := forall a l, q !! a = Some l -> l <> [] /\ Forall (fun tx => from tx = a) l.

(** The set has the heads of the queues in a heap, and the rest of each queue. *)
Record holds s q : Prop := {
  ho_heap : heap (heads s);
  ho_senders : NoDup ((fun tx => from tx) <$> heads s);
  ho_heads : forall tx, tx ∈ heads s <-> exists l, q !! from tx = Some (tx :: l);
  ho_rest : forall a tx l, q !! a = Some (tx :: l) -> txs s !! a = Some l;
  ho_queues : queues_ok q
}.

(** What is left when the first transaction of an account is taken. *)
Definition shifted q a : queues := match q !! a with Some (_ :: rest) => if bool_decide (rest = []) then delete a q else <[a := rest]> q | _ => q end.

Lemma heap_ok_senders (h : list Transaction.t) : NoDup ((fun tx => from tx) <$> h) -> heap_ok (fun _ => True) h.
Proof. intros H. split; [by eapply NoDup_fmap_1|by apply Forall_true]. Qed.

Lemma init_heads h : NoDup ((fun tx => from tx) <$> h) -> exists h', heapInit Less h = Ret h' /\ h' ≡ₚ h /\ heap h'.
Proof. intros Hn. apply (heapInit_spec Less priceTimeLess (fun _ => True)); [done|by intros; apply priceTimeLess_asym|by intros x y z _ _ _; apply priceTimeLess_trans|by apply heap_ok_senders]. Qed.

Lemma pop_heads h tx : NoDup ((fun tx => from tx) <$> h) -> heap h -> h !! 0%nat = Some tx -> exists h', heapPop Less h = Ret (tx, h') /\ h ≡ₚ tx :: h' /\ heap h'.
Proof. intros Hn. apply (heapPop_spec Less priceTimeLess (fun _ => True)); [done|by intros; apply priceTimeLess_asym|by intros x y z _ _ _; apply priceTimeLess_trans|by apply heap_ok_senders]. Qed.

Lemma headsLoop_run (accounts : list bytes) (m : queues) (hs : list Transaction.t) : NoDup accounts -> (forall a, a ∈ accounts -> exists tx l, m !! a = Some (tx :: l) /\ from tx = a) ->
  exists m' new, headsLoop signer accounts m hs = Ret (m', hs ++ new) /\ (fun tx => from tx) <$> new = accounts /\ (forall tx, tx ∈ new -> exists l, m !! from tx = Some (tx :: l)) /\
    (forall a, a ∈ accounts -> forall tx l, m !! a = Some (tx :: l) -> m' !! a = Some l) /\ (forall a, a ∉ accounts -> m' !! a = m !! a).
Proof.
  intros Hn. revert m hs. induction Hn as [|a accounts Ha _ IH]; intros m hs H.
  { exists m, []. cbn. rewrite app_nil_r. split; [done|]. split; [done|]. split; [by intros ? ?%elem_of_nil|]. split; [by intros ? ?%elem_of_nil|done]. }
  destruct (H a ltac:(by left)) as (tx & l & E & Ef). cbn [headsLoop]. rewrite E, Ef, bool_decide_true by done.
  assert (forall b, b <> a -> <[a := l]> m !! b = m !! b) as Hm by (intros b Hb; by apply lookup_insert_ne).
  destruct (IH (<[a := l]> m) (hs ++ [tx])) as (m' & new & -> & E1 & E2 & E3 & E4); [intros b Hb; rewrite (Hm b) by (by intros ->); apply H; by right|].
  exists m', (tx :: new). rewrite <- app_assoc. split; [done|]. split; [cbn; by rewrite Ef, E1|]. split_and!.
  - intros y [->|Hy]%elem_of_cons; [exists l; by rewrite Ef|]. destruct (E2 y Hy) as [l' El]. assert (from y ∈ accounts) as Hin by (rewrite <- E1; apply list_elem_of_fmap; by exists y).
    rewrite Hm in El by (by intros <-). by exists l'.
  - intros b [->|Hb]%elem_of_cons y l' El; [rewrite E4, lookup_insert_eq by done; congruence|]. apply (E3 b Hb y l'). by rewrite Hm by (by intros ->).
  - intros b [Hb Hb']%not_elem_of_cons. rewrite E4 by done. by apply Hm.
Qed.

Lemma New_run accounts q : queues_ok q -> NoDup accounts -> (forall a, a ∈ accounts <-> is_Some (q !! a)) -> exists s, NewTransactionsByPriceAndNonce signer accounts q = Ret s /\ holds s q.
Proof.
  intros Hq Hn Ha. assert (forall a l, q !! a = Some l -> exists tx rest, l = tx :: rest /\ from tx = a) as Hh.
  { intros a l E. destruct (Hq a l E) as [Hl Hf]. destruct l as [|tx rest]; [done|]. apply Forall_cons in Hf as [Hf _]. by exists tx, rest. }
  destruct (headsLoop_run accounts q [] Hn) as (m & new & E & E1 & E2 & E3 & _). { intros a [l El]%Ha. destruct (Hh a l El) as (tx & rest & -> & Ef). by exists tx, rest. }
  unfold NewTransactionsByPriceAndNonce. rewrite E. cbn [obind app]. destruct (init_heads new) as (h & -> & Ep & Hh'); [by rewrite E1|]. cbn [obind]. eexists. split; [done|]. split; cbn.
  - done.
  - by rewrite Ep, E1.
  - intros tx. rewrite Ep. split; [apply E2|]. intros [l El]. assert (from tx ∈ accounts) as Hin by (apply Ha; by eexists). rewrite <- E1 in Hin. apply list_elem_of_fmap in Hin as (y & Ey & Hy).
    destruct (E2 y Hy) as [l' El']. rewrite <- Ey, El in El'. by injection El' as -> _.
  - intros a tx l El. eapply E3; [apply Ha; by eexists|exact El].
  - done.
Qed.

(** The best of the heads is the first. *)
Lemma Peek_run s q : holds s q -> match Peek s with
  | None => q = ∅
  | Some tx => (exists l, q !! from tx = Some (tx :: l)) /\ forall a y l, q !! a = Some (y :: l) -> priceTimeLess y tx = false
  end.
Proof.
  intros [H1 H2 H3 _ H5]. unfold Peek. assert (forall a y l, q !! a = Some (y :: l) -> y ∈ heads s) as Hin.
  { intros a y l E. apply H3. exists l. destruct (H5 _ _ E) as [_ Hf]. apply Forall_cons in Hf as [-> _]. done. }
  destruct (heads s) as [|tx h] eqn:E; cbn [head].
  - apply map_eq. intros a. rewrite lookup_empty. destruct (q !! a) as [[|y l]|] eqn:Ea; [by destruct (H5 _ _ Ea)| |done]. by apply Hin, elem_of_nil in Ea.
  - split; [apply H3; by left|]. intros a y l Ea. apply Hin, list_elem_of_lookup in Ea as [j Hj].
    by eapply (heap_root priceTimeLess (fun _ => True) (fun x y _ _ => priceTimeLess_asym x y) (fun x y z _ _ _ => priceTimeLess_trans x y z) (tx :: h) tx (proj2 (Forall_forall _ _) (fun _ _ => I)) H1 eq_refl).
Qed.

Lemma count_replace (m : queues) a l l' : m !! a = Some l -> let total (m : queues) := map_fold (fun _ l n => length l + n)%nat 0%nat m in (total (<[a := l']> m) + length l = total m + length l')%nat.
Proof.
  intros E total. assert (forall m a l, m !! a = None -> total (<[a := l]> m) = (length l + total m)%nat) as Hi by (intros m0 a0 l0 E0; apply (map_fold_insert_L (fun _ (l : list Transaction.t) n => (length l + n)%nat) 0%nat a0 l0 m0); [lia|done]).
  rewrite <- (insert_delete_id m a l E) at 2. rewrite <- (insert_delete_eq m a l'), !Hi by apply lookup_delete_eq. lia.
Qed.

(** Without the first head. *)
Lemma Pop_run s q tx : holds s q -> Peek s = Some tx -> exists s', Pop s = Ret s' /\ holds s' (delete (from tx) q) /\ (count s' < count s)%nat.
Proof.
  intros [H1 H2 H3 H4 H5] Hp. unfold Pop, Peek in *. destruct (pop_heads (heads s) tx H2 H1) as (h & -> & Ep & Hh); [by rewrite <- head_lookup|]. cbn [obind]. eexists. split; [done|].
  pose proof H2 as Hn. rewrite Ep in Hn. cbn in Hn. apply NoDup_cons in Hn as [Hni Hn]. split; [|unfold count; cbn; rewrite Ep; cbn; lia]. split; cbn.
  - done.
  - done.
  - intros y. split.
    + intros Hy. assert (from tx <> from y) as Hne by (intros E; apply Hni; rewrite E; apply list_elem_of_fmap; by exists y). rewrite lookup_delete_ne by done. apply H3. rewrite Ep. by right.
    + intros [l [Hne El]%lookup_delete_Some]. assert (y ∈ heads s) as Hy by (apply H3; by exists l). rewrite Ep in Hy. by apply elem_of_cons in Hy as [->|].
  - intros a y l [_ El]%lookup_delete_Some. by eapply H4.
  - intros a l [_ El]%lookup_delete_Some. by apply H5.
Qed.

Lemma fix_heads tx next h : NoDup ((fun tx => from tx) <$> next :: h) -> heap (tx :: h) -> exists h', heapFix Less (next :: h) 0 = Ret h' /\ h' ≡ₚ next :: h /\ heap h'.
Proof.
  intros Hn Hh. apply (heapFix_root_spec Less priceTimeLess (fun _ => True)); [done|by intros; apply priceTimeLess_asym|by intros x y z _ _ _; apply priceTimeLess_trans|by apply heap_ok_senders|cbn; lia|].
  intros k Hk Hp x y Hx Hy. apply (Hh k Hk x y); [by destruct (parent k)|by destruct k].
Qed.

(** The next transaction of the account takes the place of the first head. *)
Lemma Shift_run s q tx : holds s q -> Peek s = Some tx -> exists s', Shift signer s = Ret s' /\ holds s' (shifted q (from tx)) /\ (count s' < count s)%nat.
Proof.
  intros H Hp. pose proof (Peek_run s q H) as Hb. rewrite Hp in Hb. destruct Hb as [[l El] _]. unfold Shift, shifted. rewrite El. pose proof H as [H1 H2 H3 H4 H5]. pose proof (H4 _ _ _ El) as Er.
  unfold Peek in Hp. destruct (heads s) as [|tx' h] eqn:Eh; [done|]. cbn in Hp. injection Hp as ->. rewrite Er. destruct l as [|next rest]; [rewrite bool_decide_true by done; apply Pop_run; [done|unfold Peek; by rewrite Eh]|].
  rewrite bool_decide_false by done. destruct (H5 _ _ El) as [_ Hf]. apply Forall_cons in Hf as [_ Hf]. pose proof Hf as [Hnext _]%Forall_cons.
  destruct (fix_heads tx next h) as (h' & E' & Ep & Hh); [cbn; by rewrite Hnext|done|]. cbn [insert list_insert]. rewrite E'. cbn [obind]. eexists. split; [done|]. cbn in H2. apply NoDup_cons in H2 as [Hni Hn]. split.
  - split; cbn; [done|rewrite Ep; cbn; rewrite Hnext; by apply NoDup_cons| |..].
    + intros y. rewrite Ep, elem_of_cons. destruct (decide (from y = from tx)) as [E|E].
      * rewrite E, lookup_insert_eq. split; [intros [->|Hy]; [by exists rest|]|intros [l' [= -> _]]; by left]. exfalso. apply Hni. rewrite <- E. apply list_elem_of_fmap. by exists y.
      * rewrite lookup_insert_ne by done. rewrite <- H3, elem_of_cons. split; [intros [->|?]; [done|by right]|intros [->|?]; [done|by right]].
    + intros a y l' [[<- [= <- <-]]|[Hne Ea]]%lookup_insert_Some; [apply lookup_insert_eq|]. rewrite lookup_insert_ne by done. by eapply H4.
    + intros a l' [[<- <-]|[Hne Ea]]%lookup_insert_Some; [done|by apply H5].
  - unfold count. cbn. rewrite Ep, Eh. pose proof (count_replace (txs s) (from tx) (next :: rest) rest Er) as Hc. cbn in *. lia.
Qed.

(** *** The order *)

(** The transactions that come up when each one is followed by [Shift] or [Pop]. *)
Fixpoint drive (shifts : list bool) (s : TransactionsByPriceAndNonce.t) : outcome (list Transaction.t) :=
  match shifts, Peek s with
  | shift :: shifts, Some tx =>
      let! s := (if shift : bool then Shift signer s else Pop s) in
      let! rest := drive shifts s in
      Ret (tx :: rest)
  | _, _ => Ret []
  end.

(** The same from the queues: each time the first transaction of some account than which
    no account has a better one. *)
Inductive greedy : queues -> list bool -> list Transaction.t -> Prop :=
| greedy_stop (q : queues) : greedy q [] []
| greedy_empty shifts : greedy ∅ shifts []
| greedy_take (q : queues) tx l (shift : bool) shifts rest : q !! from tx = Some (tx :: l) -> (forall a y l, q !! a = Some (y :: l) -> priceTimeLess y tx = false) ->
    greedy (if shift then shifted q (from tx) else delete (from tx) q) shifts rest -> greedy q (shift :: shifts) (tx :: rest).

Lemma drive_run shifts s q : holds s q -> exists out, drive shifts s = Ret out /\ greedy q shifts out.
Proof.
  revert s q. induction shifts as [|shift shifts IH]; intros s q H; [exists []; by split; [|constructor]|]. cbn [drive]. pose proof (Peek_run s q H) as Hp.
  destruct (Peek s) as [tx|] eqn:E; [|subst q; exists []; split; [done|constructor]]. destruct Hp as [[l El] Hb].
  assert (exists s', (if shift then Shift signer s else Pop s) = Ret s' /\ holds s' (if shift then shifted q (from tx) else delete (from tx) q)) as (s' & -> & H').
  { destruct shift; [destruct (Shift_run s q tx H E) as (s' & E' & H' & _)|destruct (Pop_run s q tx H E) as (s' & E' & H' & _)]; by exists s'. }
  cbn [obind]. destruct (IH s' _ H') as (out & -> & Hg). exists (tx :: out). split; [done|]. by econstructor.
Qed.

(** C32: The transactions come up by price and nonce.  A set that is made of the pending
    transactions gives, whatever of [Shift] and [Pop] follows each transaction, the
    first of some account's queue each time, and no account's first has a higher price,
    or the same price and an earlier time; [Shift] goes on to the next of the account
    and [Pop] drops the account.  Nothing panics. *)
Theorem order_greedy accounts q shifts : queues_ok q -> NoDup accounts -> (forall a, a ∈ accounts <-> is_Some (q !! a)) ->
  exists s out, NewTransactionsByPriceAndNonce signer accounts q = Ret s /\ drive shifts s = Ret out /\ greedy q shifts out.
Proof. intros Hq Hn Ha. destruct (New_run accounts q Hq Hn Ha) as (s & E & H). destruct (drive_run shifts s q H) as (out & E' & Hg). by exists s, out. Qed.
End Order.

(** ** The gas limit *)

(** The limit moves by less than what the divisor allows. *)
Lemma CalcGasLimit_range used limit floor ceil : 6144 <= limit -> limit + limit `div` 1024 < 2 ^ 63 -> 0 <= used <= limit -> 0 <= floor -> MinGasLimit <= ceil ->
  let r := CalcGasLimit used limit floor ceil in MinGasLimit <= r /\ limit - limit `div` 1024 < r < limit + limit `div` 1024.
Proof.
  intros H1 H2 H3 H4 H5 r. unfold MinGasLimit in *. pose proof (Z.div_mod limit 1024 ltac:(lia)) as Hd. pose proof (Z.mod_pos_bound limit 1024 ltac:(lia)). set (d := limit `div` 1024) in *.
  pose proof (Z.div_mod used 2 ltac:(lia)). pose proof (Z.mod_pos_bound used 2 ltac:(lia)). set (u2 := used `div` 2) in *.
  assert (u64 (used + u2) = used + u2) as Eu by (apply u64_id; unfold in_u64, two64; lia). assert (u64 (d - 1) = d - 1) as Ed by (apply u64_id; unfold in_u64, two64; lia).
  pose proof (Z.div_mod (used + u2) 1024 ltac:(lia)). pose proof (Z.mod_pos_bound (used + u2) 1024 ltac:(lia)). set (c := (used + u2) `div` 1024) in *.
  assert (r = let l := limit - (d - 1) + c in let l := if l <? 5000 then 5000 else l in
    if l <? floor then if floor <? limit + (d - 1) then floor else limit + (d - 1) else if ceil <? l then if limit - (d - 1) <? ceil then ceil else limit - (d - 1) else l) as ->.
  { unfold r, CalcGasLimit, GasLimitBoundDivisor, MinGasLimit. fold d u2. rewrite Eu, Ed. fold c. cbv zeta. rewrite !u64_id by (unfold in_u64, two64; rewrite ?u64_id by (unfold in_u64, two64; lia); lia). done. }
  cbv zeta. destruct (Z.ltb_spec (limit - (d - 1) + c) 5000); repeat match goal with |- context [?x <? ?y] => destruct (Z.ltb_spec x y) end; lia.
Qed.


(** ** Uncles *)

Section Uncles.
Context {L : StateLib}.
Import worker.
Context (GetBlock : bytes -> Z -> option block.t) (GetBlockNumber : bytes -> option Z) (verifyHeader : Header.t -> Header.t -> bool).
Implicit Types (env : environment) (h : bytes) (u : Header.t) (b : block.t) (blocks : list block.t) (picked : list (bytes * Header.t)).

(** The uncles of the blocks. *)
Definition pastUncles blocks : list bytes := concat ((fun b => (block.Uncles b).*1) <$> blocks).

Lemma add_uncles (l : list (bytes * Header.t)) (s : gset bytes) : foldl (fun s uncle => s ∪ {[uncle.1]}) s l = s ∪ list_to_set l.*1.
Proof. revert s. induction l as [|x l IH]; intros s; [set_solver|]. cbn [foldl fmap list_fmap list_to_set]. rewrite IH. set_solver. Qed.

Lemma makeCurrent_run s blocks hd : exists env, makeCurrent (Some s) blocks hd = Some env /\ header env = hd /\ uncles env = ∅ /\
  ancestors env = list_to_set (block.Hash <$> blocks) /\ family env = list_to_set (block.Hash <$> blocks) ∪ list_to_set (pastUncles blocks).
Proof.
  unfold makeCurrent. eexists. split; [done|]. cbn. split; [done|]. split; [done|]. set (add := fun (sets : gset bytes * gset bytes) ancestor => _).
  assert (forall sets, foldl add sets blocks = (sets.1 ∪ list_to_set (block.Hash <$> blocks), sets.2 ∪ list_to_set (block.Hash <$> blocks) ∪ list_to_set (pastUncles blocks))) as H.
  { induction blocks as [|b blocks IH]; intros [s1 s2]; [cbn; f_equal; set_solver|]. cbn [foldl]. rewrite IH. unfold add, pastUncles. cbn. rewrite add_uncles, list_to_set_app_L. f_equal; set_solver. }
  rewrite H. cbn. split; set_solver.
Qed.

(** The check gathers the same blocks. *)
Lemma gatherLoop_run n parent number past known : let blocks := blocksLoop GetBlock n parent number in
  exists known', gatherLoop GetBlock n parent number past known = (past ∪ list_to_set (pastUncles blocks), known') /\
    (forall h, is_Some (known' !! h) <-> is_Some (known !! h) \/ h ∈ block.Hash <$> blocks) /\
    (forall h u, known' !! h = Some u -> known !! h = Some u \/ exists b, b ∈ blocks /\ block.Hash b = h /\ block.header b = u).
Proof.
  revert parent number past known. induction n as [|n IH]; intros parent number past known; cbn [blocksLoop gatherLoop].
  { exists known. split; [f_equal; set_solver|]. split; [intros h; cbn; set_solver|by left]. }
  destruct (GetBlock parent number) as [b|]; [|exists known; split; [f_equal; set_solver|]; split; [intros h; cbn; set_solver|by left]].
  edestruct IH as (known' & -> & H1 & H2). exists known'. rewrite add_uncles. split; [f_equal; unfold pastUncles; cbn; rewrite list_to_set_app_L; set_solver|]. split.
  - intros h. rewrite H1, lookup_insert_is_Some', fmap_cons, elem_of_cons. naive_solver.
  - intros h u [Hk|(b' & Hb & E)]%H2; [|right; exists b'; split; [by right|done]]. apply lookup_insert_Some in Hk as [[<- <-]|[_ Hk]]; [right; exists b; split; [by left|done]|by left].
Qed.

(** What holds of the uncles that the worker picks. *)
Record picks env0 picked env : Prop := {
  pi_header : header env = header env0;
  pi_ancestors : ancestors env = ancestors env0;
  pi_family : family env = family env0;
  pi_uncles : uncles env = list_to_set picked.*1;
  pi_distinct : NoDup (picked.*1);
  pi_two : (length picked <= 2)%nat;
  pi_fit : forall h u, (h, u) ∈ picked -> Header.ParentHash u <> Header.ParentHash (header env0) /\ Header.ParentHash u ∈ ancestors env0 /\ h ∉ family env0
}.

Lemma commitUncle_picks env0 picked env h u : picks env0 picked env -> (length picked < 2)%nat ->
  match commitUncle env h u with (Some _, env') => env' = env | (None, env') => picks env0 (picked ++ [(h, u)]) env' end.
Proof.
  intros [H1 H2 H3 H4 H5 H6 H7] Hl. unfold commitUncle. destruct (bool_decide_reflect (h ∈ uncles env)) as [E|E]; [done|]. destruct (bool_decide_reflect (Header.ParentHash (header env) = Header.ParentHash u)) as [E1|E1]; [done|].
  destruct (bool_decide_reflect (Header.ParentHash u ∈ ancestors env)) as [E2|E2]; cbn [negb]; [|done]. destruct (bool_decide_reflect (h ∈ family env)) as [E3|E3]; [done|]. rewrite H4, elem_of_list_to_set in E.
  split; cbn; try done.
  - rewrite H4, fmap_app, list_to_set_app_L. cbn. set_solver.
  - rewrite fmap_app. apply NoDup_app. split; [done|]. split; [|apply NoDup_singleton]. intros x Hx. intros Hx'%list_elem_of_singleton. cbn in Hx'. by subst x.
  - rewrite length_app. cbn. lia.
  - intros h' u' [Hin|E'%list_elem_of_singleton]%elem_of_app; [by apply (H7 h')|]. injection E' as -> ->. rewrite <- H1, <- H2, <- H3. split; [congruence|done].
Qed.

Lemma pickLoop_picks (l : list (bytes * Header.t)) env0 picked env : picks env0 picked env -> let r := pickLoop l picked env in picks env0 r.1 r.2 /\ forall e, e ∈ r.1 -> e ∈ picked \/ e ∈ l.
Proof.
  revert picked env. induction l as [|[h u] l IH]; intros picked env H; cbn [pickLoop]; [split; [done|by left]|]. destruct (Z.eqb_spec (zlen picked) 2) as [E|E]; [split; [done|by left]|].
  assert (length picked < 2)%nat as Hl by (pose proof (pi_two _ _ _ H); unfold zlen in E; lia). pose proof (commitUncle_picks env0 picked env h u H Hl) as Hc. destruct (commitUncle env h u) as [[err|] env'].
  - subst env'. destruct (IH picked env H) as [I1 I2]. split; [done|]. intros e [?|?]%I2; [by left|right; by right].
  - destruct (IH _ _ Hc) as [I1 I2]. split; [done|]. intros e [He|?]%I2; [|right; by right]. apply elem_of_app in He as [?|He]; [by left|]. apply list_elem_of_singleton in He as ->. right. by left.
Qed.

Lemma unclesLoop_accepts (parentHash : bytes) (known : gmap bytes Header.t) (past : gset bytes) picked : NoDup (picked.*1) ->
  (forall h u, (h, u) ∈ picked -> (h ∉ past) /\ known !! h = None /\ Header.ParentHash u <> parentHash /\ exists p, known !! (Header.ParentHash u) = Some p /\ verifyHeader u p = true) ->
  unclesLoop verifyHeader parentHash known past picked = None.
Proof.
  revert past. induction picked as [|[h u] picked IH]; intros past Hn H; [done|]. cbn [unclesLoop]. destruct (H h u ltac:(by left)) as (H1 & H2 & H3 & p & H4 & H5). cbn in Hn. apply NoDup_cons in Hn as [Hni Hn].
  rewrite !bool_decide_false by (done || by rewrite H2; intros []). rewrite H4, H5. apply IH; [done|]. intros h' u' Hin. destruct (H h' u' ltac:(by right)) as (G1 & G). split; [|done].
  assert (h' <> h) by (intros ->; apply Hni, list_elem_of_fmap; by exists (h, u')). set_solver.
Qed.

Context (range : gmap bytes Header.t -> list (bytes * Header.t)) (Hrange : forall m, range m ≡ₚ map_to_list m).

Lemma commitUncles_picks (m : gmap bytes Header.t) env0 picked env : picks env0 picked env -> let r := commitUncles range m picked env in
  picks env0 r.1.2 r.2 /\ forall h u, (h, u) ∈ r.1.2 -> (h, u) ∈ picked \/ m !! h = Some u.
Proof.
  intros H. unfold commitUncles. set (m' := foldl _ m (range m)). assert (m' ⊆ m) as Hm.
  { unfold m'. generalize (range m). intros l. assert (forall m1, m1 ⊆ m -> foldl (fun (blocks : gmap bytes Header.t) e => if u64 (u64 (Header.Number e.2) + staleThreshold) <=? u64 (Header.Number (header env)) then delete e.1 blocks else blocks) m1 l ⊆ m) as Hl; [|by apply Hl].
    induction l as [|e l IH]; intros m1 H1; [done|]. cbn [foldl]. apply IH. destruct (_ <=? _); [|done]. transitivity m1; [apply delete_subseteq|done]. }
  destruct (pickLoop_picks (range m') env0 picked env H) as [I1 I2]. destruct (pickLoop (range m') picked env) as [p e]. split; [done|]. cbn. intros h u [?|Hin]%I2; [by left|]. right. rewrite Hrange in Hin. apply elem_of_map_to_list in Hin.
  by eapply lookup_weaken.
Qed.

End Uncles.

(** ** The transactions of the block *)

Lemma gasOf_app l1 l2 : gasOf (l1 ++ l2) = gasOf l1 + gasOf l2.
Proof. induction l1 as [|r l1 IH]; [done|]. cbn. unfold gasOf in *. lia. Qed.

Lemma cumulative_app n l1 l2 : cumulative n l1 -> cumulative (n + gasOf l1) l2 -> cumulative n (l1 ++ l2).
Proof.
  revert n. induction l1 as [|r l1 IH]; intros n; cbn [app cumulative gasOf foldr]; [by rewrite Z.add_0_r|]. intros [H1 H2] H3. split; [done|]. apply IH; [done|]. by replace (n + Receipt.GasUsed r + gasOf l1) with (n + (Receipt.GasUsed r + gasOf l1)) by lia.
Qed.

Section Filling.
Context {L : StateLib} {HL : StateLaws L} {HT : TrieLaws L} {V : EvmLib} {HV : EvmLaws V} {C : CryptoLib} {HC : CryptoLaws C}.
Context (config : ChainConfig.t) (GetHeader : bytes -> Z -> option Header.t) (Author : Header.t -> bytes) (NoRecursion EnablePreimageRecording : bool) (fuel : nat).
Context (signer : Transaction.t -> option bytes) (coinbase : bytes) (interrupt : option (nat -> Z)).
Import worker.
Abbreviation from tx := (TransactionsByPriceAndNonce.sender signer tx).
Abbreviation queues := (gmap bytes (list Transaction.t)).
Abbreviation pool env := (default (Header.GasLimit (header env)) (gasPool env)).
Abbreviation queue q a := (default [] ((q : queues) !! a)).
Implicit Types (env : environment) (q : queues) (tx : Transaction.t) (most : Z).

(** The transactions [new] of the queues are in the block with the receipts [rs]. *)
Record packed most q env env' (new : list Transaction.t) (rs : list Receipt.t) : Prop := {
  pk_header : header env' = header env;
  pk_txs : txs env' = txs env ++ new;
  pk_receipts : receipts env' = receipts env ++ rs;
  pk_hashes : Receipt.TxHash <$> rs = Transaction.Hash <$> new;
  pk_count : tcount env' = tcount env + zlen new;
  pk_gas : GasUsed env' = GasUsed env + gasOf rs /\ 0 <= gasOf rs;
  pk_cumulative : cumulative (GasUsed env) rs;
  pk_pool : 0 <= pool env' /\ GasUsed env' + pool env' <= GasUsed env + pool env;
  pk_state : booked most (state env');
  pk_order : forall a, filter (fun tx => from tx = a) new `sublist_of` queue q a
}.

Lemma packed_nothing most q env env' : header env' = header env -> txs env' = txs env -> receipts env' = receipts env -> tcount env' = tcount env -> GasUsed env' = GasUsed env ->
  0 <= pool env' <= pool env -> booked most (state env') -> packed most q env env' [] [].
Proof. intros H1 H2 H3 H4 H5 H6 H7. split; rewrite ?app_nil_r; try done; try (unfold zlen; cbn; lia). intros a. apply sublist_nil_l. Qed.

Lemma packed_trans most q1 q2 q env env1 env2 new1 new2 rs1 rs2 : packed most q1 env env1 new1 rs1 -> packed most q2 env1 env2 new2 rs2 ->
  (forall a, queue q1 a ++ queue q2 a `sublist_of` queue q a) -> packed most q env env2 (new1 ++ new2) (rs1 ++ rs2).
Proof.
  intros [A1 A2 A3 A4 A5 A6 A7 A8 A9 A10] [B1 B2 B3 B4 B5 B6 B7 B8 B9 B10] Hq. split.
  - by rewrite B1.
  - by rewrite B2, A2, app_assoc.
  - by rewrite B3, A3, app_assoc.
  - by rewrite !fmap_app, A4, B4.
  - unfold zlen in *. rewrite length_app. lia.
  - rewrite gasOf_app. lia.
  - apply cumulative_app; [done|]. destruct A6 as [<- _]. done.
  - lia.
  - done.
  - intros a. rewrite filter_app. etransitivity; [|apply (Hq a)]. by apply sublist_app.
Qed.

Abbreviation run := (commitLoop config GetHeader Author NoRecursion EnablePreimageRecording fuel signer coinbase interrupt).
Abbreviation blockRules h := (ChainConfig.toRules config (Header.Number h)).

(** What is asked of the block, and of the transactions that may come into it. *)
Definition buildable most env : Prop := Rules.IsByzantium (blockRules (header env)) = true /\ in_u64 (Header.GasLimit (header env)) /\ Header.GasLimit (header env) < Z.of_nat fuel /\
  booked most (state env) /\ 0 <= pool env /\ 0 <= GasUsed env /\ GasUsed env + pool env <= Header.GasLimit (header env).

Definition pending_ok q : Prop := queues_ok signer q /\ forall a l, q !! a = Some l -> Forall tx_ok l.

Lemma packed_buildable most q env env' new rs : buildable most env -> packed most q env env' new rs -> buildable most env'.
Proof. intros (B1 & B2 & B3 & B4 & B5 & B6 & B7) [A1 _ _ _ _ A6 _ A8 A9 _]. unfold buildable. rewrite A1 in *. split_and!; try done; lia. Qed.

Lemma pending_delete q a : pending_ok q -> pending_ok (delete a q).
Proof. intros [H1 H2]. split; [intros b l [_ E]%lookup_delete_Some; by apply H1|intros b l [_ E]%lookup_delete_Some; by eapply H2]. Qed.

Lemma pending_shifted q a : pending_ok q -> pending_ok (shifted q a).
Proof.
  intros H. pose proof H as [H1 H2]. unfold shifted. destruct (q !! a) as [[|tx l]|] eqn:E; [done| |done]. destruct (bool_decide_reflect (l = [])) as [El|El]; [by apply pending_delete|].
  destruct (H1 _ _ E) as [_ [_ Hl]%Forall_cons]. pose proof (H2 _ _ E) as [_ Hl2]%Forall_cons. split; intros b l' [[<- <-]|[_ E']]%lookup_insert_Some; try done; [by apply H1|by eapply H2].
Qed.

Lemma queue_delete q a b : queue (delete a q) b `sublist_of` queue q b.
Proof. destruct (decide (a = b)) as [->|]; [rewrite lookup_delete_eq; apply sublist_nil_l|by rewrite lookup_delete_ne]. Qed.

Lemma queue_shifted q tx l b : q !! from tx = Some (tx :: l) -> queue {[from tx := [tx]]} b ++ queue (shifted q (from tx)) b `sublist_of` queue q b.
Proof.
  intros E. unfold shifted. rewrite E. destruct (decide (from tx = b)) as [<-|Hne].
  - rewrite lookup_singleton_eq, E. cbn. apply sublist_skip. destruct (bool_decide_reflect (l = [])) as [->|]; [by rewrite lookup_delete_eq|by rewrite lookup_insert_eq].
  - rewrite lookup_singleton_ne by done. cbn. destruct (bool_decide (l = [])); [by rewrite lookup_delete_ne|by rewrite lookup_insert_ne].
Qed.

Lemma queue_skip q tx b : queue ∅ b ++ queue (shifted q (from tx)) b `sublist_of` queue q b.
Proof.
  rewrite lookup_empty. cbn. unfold shifted. destruct (q !! from tx) as [[|y l]|] eqn:E; [done| |done]. destruct (bool_decide (l = [])); [apply queue_delete|].
  destruct (decide (from tx = b)) as [<-|Hne]; [rewrite lookup_insert_eq, E; by apply sublist_cons|by rewrite lookup_insert_ne].
Qed.

(** One transaction in the block, or none. *)
Lemma commit_packed most env tx n w : buildable most (built env n w) -> tx_ok tx ->
  match (let! (_, b) := StateProcessor.onDB (Prepare (Transaction.Hash tx) zeroHash n) (StateProcessor.current w) in
         StateProcessor.commitTransaction config GetHeader Author NoRecursion EnablePreimageRecording fuel (header env) coinbase tx (StateProcessor.mkEnvironment b (StateProcessor.txs w) (StateProcessor.receipts w))) with
  | Ret (inl logs, w') => exists r, logs = Receipt.Logs r /\ packed most {[from tx := [tx]]} (built env n w) (built env (n + 1) w') [tx] [r]
  | Ret (inr _, w') => packed most ∅ (built env n w) (built env n w') [] []
  | Panic why => refundPanic why
  end.
Proof.
  intros (B1 & B2 & B3 & B4 & B5 & B6 & B7) Htx. unfold StateProcessor.onDB, Prepare, modify. cbn [obind]. set (s := StateDB.set_txIndex _ n). assert (booked most s) as Hs by (by eapply Prepare_booked). cbn in B1, B2, B3, B5, B6, B7.
  set (w0 := StateProcessor.mkEnvironment _ _ _). pose proof (commitTransaction_run config GetHeader Author NoRecursion EnablePreimageRecording fuel (header env) coinbase tx w0 most B1 B2 Htx Hs B5 B6 B7 B3) as H.
  unfold pwp in H. destruct (StateProcessor.commitTransaction _ _ _ _ _ _ _ _ tx w0) as [[[logs|err] w']|]; [..|done]; destruct H as [Hb H].
  - destruct H as (r & E1 & E2 & -> & E3 & E4 & E5 & E6 & E7 & E8). cbn in *. exists r. split; [done|]. split; cbn; try done; try (by rewrite E3); try lia.
    intros a. destruct (decide (from tx = a)) as [<-|]; [by rewrite lookup_singleton_eq|apply sublist_nil_l].
  - destruct H as (E1 & E2 & E3 & E4). cbn in *. by apply packed_nothing.
Qed.

Lemma packed_sub most q q' env env' new rs : packed most q' env env' new rs -> (forall a, queue q' a `sublist_of` queue q a) -> packed most q env env' new rs.
Proof. intros [H1 H2 H3 H4 H5 H6 H7 H8 H9 H10] Hs. split; try done. intros a. by etransitivity; [apply H10|apply Hs]. Qed.

(** What the rounds leave of a block. *)
Definition rounds_end most env q n w logs (r : outcome (ending * nat * TransactionsByPriceAndNonce.t * Z * StateProcessor.environment * list Log.t)) : Prop :=
  match r with
  | Ret (e, looks', set', n', w', logs') => e <> OutOfRounds /\ (e = Interrupted -> interrupt <> None) /\ (e = Finished -> Block.gp (StateProcessor.current w') < params.TxGas \/ TransactionsByPriceAndNonce.Peek set' = None) /\
      exists new rs, packed most q (built env n w) (built env n' w') new rs /\ logs' = logs ++ concat (Receipt.Logs <$> rs)
  | Panic why => refundPanic why
  end.

(** More rounds after one that put [new] into the block. *)
Lemma rounds_more most env q1 q2 q n w logs new rs n1 w1 r : packed most q1 (built env n w) (built env n1 w1) new rs -> (forall a, queue q1 a ++ queue q2 a `sublist_of` queue q a) ->
  rounds_end most env q2 n1 w1 (logs ++ concat (Receipt.Logs <$> rs)) r -> rounds_end most env q n w logs r.
Proof.
  intros Hp Hq. destruct r as [[[[[[e looks'] set'] n'] w'] logs']|]; [|done]. cbn. intros (H1 & H2 & H3 & new2 & rs2 & Hp2 & ->). split_and!; try done. exists (new ++ new2), (rs ++ rs2).
  split; [by eapply packed_trans|]. by rewrite fmap_app, concat_app, app_assoc.
Qed.

(** The rounds. *)
Lemma commitLoop_run rounds looks set n w logs env q most : buildable most (built env n w) -> holds signer set q -> pending_ok q -> (TransactionsByPriceAndNonce.count set < rounds)%nat ->
  rounds_end most env q n w logs (run rounds looks (header env) set n w logs).
Proof.
  revert looks set n w logs q. induction rounds as [|rounds IH]; intros looks set n w logs q Hb Hh Hq Hc; [lia|]. cbn [commitLoop].
  assert (packed most ∅ (built env n w) (built env n w) [] []) as Hnone by (apply packed_nothing; try done; [|apply Hb]; destruct Hb as (_ & _ & _ & _ & ? & _); lia).
  assert (exists new rs, packed most q (built env n w) (built env n w) new rs /\ logs = logs ++ concat (Receipt.Logs <$> rs)) as Hstop.
  { exists [], []. cbn. rewrite app_nil_r. split; [|done]. eapply packed_sub; [exact Hnone|]. intros a. rewrite lookup_empty. apply sublist_nil_l. }
  destruct (interrupted interrupt looks) eqn:Ei; [split; [done|]; split; [intros _ E; unfold interrupted in Ei; by rewrite E in Ei|]; done|]. destruct (Z.ltb_spec (Block.gp (StateProcessor.current w)) params.TxGas); [split_and!; try done; by left|].
  pose proof (Peek_run signer set q Hh) as Hp. destruct (TransactionsByPriceAndNonce.Peek set) as [tx|] eqn:Ep; [|split_and!; try done; by right]. destruct Hp as [[l El] _].
  pose proof (proj2 Hq _ _ El) as [Htx _]%Forall_cons. destruct (Pop_run signer set q tx Hh Ep) as (popped & Epop & Hpop & Cpop). destruct (Shift_run signer set q tx Hh Ep) as (moved & Emove & Hmove & Cmove).
  assert (forall looks w1, packed most ∅ (built env n w) (built env n w1) [] [] -> rounds_end most env q n w logs (run rounds looks (header env) popped n w1 logs)) as Hdrop.
  { intros looks' w1 Hpk. eapply (rounds_more most env ∅ (delete (from tx) q)); [exact Hpk|intros a; rewrite lookup_empty; apply queue_delete|]. cbn. rewrite app_nil_r. apply IH; [by eapply packed_buildable|done|by apply pending_delete|lia]. }
  assert (forall looks w1, packed most ∅ (built env n w) (built env n w1) [] [] -> rounds_end most env q n w logs (run rounds looks (header env) moved n w1 logs)) as Hskip.
  { intros looks' w1 Hpk. eapply (rounds_more most env ∅ (shifted q (from tx))); [exact Hpk|intros a; apply queue_skip|]. cbn. rewrite app_nil_r. apply IH; [by eapply packed_buildable|done|by apply pending_shifted|lia]. }
  destruct (Transaction.Protected tx && _); [rewrite Epop; by apply Hdrop|]. pose proof (commit_packed most env tx n w Hb Htx) as Hcom. destruct (StateProcessor.onDB _ (StateProcessor.current w)) as [[u b]|]; [|done]. cbn [obind] in *.
  destruct (StateProcessor.commitTransaction _ _ _ _ _ _ _ _ tx _) as [[[new|err] w1]|]; [..|done]; cbn [obind].
  - destruct Hcom as (r & -> & Hpk). rewrite Emove. cbn [obind]. eapply (rounds_more most env _ (shifted q (from tx))); [exact Hpk|intros a; by eapply queue_shifted|]. cbn. rewrite app_nil_r. apply IH; [by eapply packed_buildable|done|by apply pending_shifted|lia].
  - destruct err; rewrite ?Epop, ?Emove; cbn [obind]; by (apply Hdrop || apply Hskip).
Qed.

Lemma commitTransactions_run isRunning looks set env q most : buildable most env -> holds signer set q -> pending_ok q ->
  match commitTransactions config GetHeader Author NoRecursion EnablePreimageRecording fuel signer coinbase interrupt isRunning looks set env with
  | Ret (e, stop, report, looks', set', env') => e <> OutOfRounds /\ (interrupt = None -> e = Finished /\ stop = false /\ adjusts report = []) /\
      (e = Finished -> pool env' < params.TxGas \/ TransactionsByPriceAndNonce.Peek set' = None) /\ exists new rs, packed most q env env' new rs /\ forall logs, feed report = Some logs -> logs = concat (Receipt.Logs <$> rs)
  | Panic why => refundPanic why
  end.
Proof.
  intros Hb Hh Hq. pose proof Hb as (_ & B2 & _ & _ & B5 & _). unfold commitTransactions. assert ((match gasPool env with None => GasPool.AddGas 0 (Header.GasLimit (header env)) | Some p => Ret p end) = Ret (pool env)) as ->.
  { destruct (gasPool env); [done|]. unfold GasPool.AddGas. rewrite (proj2 (Z.ltb_ge _ _)) by (unfold in_u64 in *; lia). done. }
  cbn [obind]. pose proof (commitLoop_run (S (TransactionsByPriceAndNonce.count set)) looks set (tcount env) (building env (pool env)) [] env q most Hb Hh Hq ltac:(lia)) as H.
  destruct (run _ looks (header env) set (tcount env) (building env (pool env)) []) as [[[[[[e looks'] set'] n'] w'] logs']|]; [|exact H]. cbn [obind rounds_end] in *. destruct H as (H1 & H2 & H3 & new & rs & Hp & ->).
  assert (packed most q env (built env n' w') new rs) as Hp' by (destruct Hp; by split).
  destruct e; [|clear H2|done]; [destruct interrupt as [look|]; [|by destruct (H2 eq_refl)]|]; cbn.
  - split_and!; try done. by exists new, rs.
  - split_and!; try done; [by intros ->|]. exists new, rs. split; [done|]. intros logs. destruct (negb isRunning && _); [by intros [= <-]|done].
Qed.

(** C10: [commitTransactions] keeps the books of the block.  It ends after at most one round
    for each transaction, but for a refund counter that is subtracted below zero; what
    it adds are transactions of the pending queues, those of one account in the order of
    its queue, with one receipt each, in their order; the gas that the block used grows
    by what the receipts report, their cumulative gas adds up, and it stays with the
    rest of the pool within the limit; no ether is made.  Without an interruption it
    stops for lack of gas or of transactions. *)
Theorem commitTransactions_books isRunning looks set env q most : buildable most env -> holds signer set q -> pending_ok q ->
  match commitTransactions config GetHeader Author NoRecursion EnablePreimageRecording fuel signer coinbase interrupt isRunning looks set env with
  | Ret (e, stop, report, looks', set', env') => e <> OutOfRounds /\ (interrupt = None -> e = Finished /\ stop = false /\ adjusts report = []) /\
      (e = Finished -> pool env' < params.TxGas \/ TransactionsByPriceAndNonce.Peek set' = None) /\ exists new rs, packed most q env env' new rs /\ forall logs, feed report = Some logs -> logs = concat (Receipt.Logs <$> rs)
  | Panic why => refundPanic why
  end.
Proof. apply commitTransactions_run. Qed.

(** *** Local and remote transactions *)

Lemma splitLocals_run (locals : list bytes) q : queues_ok signer q -> let r := splitLocals locals q in forall a, r.1 !! a = (if decide (a ∈ locals) then q !! a else None) /\ r.2 !! a = (if decide (a ∈ locals) then None else q !! a).
Proof.
  intros Hq. unfold splitLocals. cbv zeta. induction locals as [|x locals IH] using rev_ind; [intros a; cbn; by rewrite decide_False by apply not_elem_of_nil|]. intros a. rewrite foldl_app. cbn [foldl]. set (r := foldl _ _ locals) in *.
  destruct (IH a) as [I1 I2]. pose proof (proj2 (IH x)) as Ix. destruct (decide (a = x)) as [->|Hne].
  - rewrite !(decide_True (P := x ∈ locals ++ [x])) by set_solver. destruct (decide (x ∈ locals)) as [Hx|Hx]; [by rewrite Ix|]. rewrite Ix. destruct (q !! x) as [[|tx l]|] eqn:E; [by destruct (Hq _ _ E)| |by rewrite I1].
    cbn. by rewrite lookup_insert_eq, lookup_delete_eq.
  - assert ((if decide (a ∈ locals ++ [x]) then q !! a else None) = (if decide (a ∈ locals) then q !! a else None) /\ (if decide (a ∈ locals ++ [x]) then None else q !! a) = (if decide (a ∈ locals) then None else q !! a)) as [-> ->] by (repeat case_decide; set_solver).
    destruct (r.2 !! x) as [[|tx l]|]; [done| |done]. cbn. by rewrite lookup_insert_ne, lookup_delete_ne.
Qed.

Lemma packed_from most q env env' new rs tx : packed most q env env' new rs -> tx ∈ new -> is_Some (q !! from tx).
Proof.
  intros H Hin. assert (tx ∈ queue q (from tx)) as Hq by (eapply elem_of_sublist; [|apply (pk_order _ _ _ _ _ _ H)]; by apply list_elem_of_filter). destruct (q !! from tx); [done|]. by apply elem_of_nil in Hq.
Qed.

Lemma pending_part q q' : pending_ok q -> q' ⊆ q -> pending_ok q'.
Proof. intros [H1 H2] Hs. split; intros a l E; [apply H1|eapply H2]; by eapply lookup_weaken. Qed.

Context (keys : queues -> list bytes) (Hkeys : forall q, NoDup (keys q) /\ forall a, a ∈ keys q <-> is_Some (q !! a)).
Abbreviation half := (commitHalf config GetHeader Author NoRecursion EnablePreimageRecording fuel signer coinbase interrupt keys).

Lemma commitHalf_run isRunning looks q env most : buildable most env -> pending_ok q ->
  match half isRunning looks q env with
  | Ret (stop, looks', env') => (interrupt = None -> stop = false) /\ exists new rs, packed most q env env' new rs
  | Panic why => refundPanic why
  end.
Proof.
  intros Hb Hq. unfold commitHalf. destruct (0 <? Z.of_nat (size q)).
  - destruct (Hkeys q) as [K1 K2]. destruct (New_run signer (keys q) q (proj1 Hq) K1 K2) as (set & -> & Hh). cbn [obind]. pose proof (commitTransactions_run isRunning looks set env q most Hb Hh Hq) as H.
    destruct (commitTransactions _ _ _ _ _ _ _ _ _ isRunning looks set env) as [[[[[[e stop] report] looks'] set'] env']|]; [|done]. cbn. destruct H as (_ & H1 & _ & new & rs & Hp & _). split; [intros E; by destruct (H1 E) as (_ & ? & _)|by exists new, rs].
  - split; [done|]. exists [], []. apply packed_nothing; try done; [|apply Hb]. destruct Hb as (_ & _ & _ & _ & ? & _). lia.
Qed.

(** C9: The worker fills a block from the pool.  The transactions of the local accounts
    come first and those of the others after them; each account's are in the order of
    its queue; and the books are kept over both.  Without an interruption the work is
    not discarded. *)
Theorem fillBlock_books isRunning locals q env most : buildable most env -> pending_ok q ->
  match fillBlock config GetHeader Author NoRecursion EnablePreimageRecording fuel signer coinbase interrupt keys isRunning locals q env with
  | Ret None => interrupt <> None
  | Ret (Some env') => exists new1 new2 rs, packed most q env env' (new1 ++ new2) rs /\ (forall tx, tx ∈ new1 -> from tx ∈ locals) /\ (forall tx, tx ∈ new2 -> from tx ∉ locals)
  | Panic why => refundPanic why
  end.
Proof.
  intros Hb Hq. unfold fillBlock. pose proof (splitLocals_run locals q (proj1 Hq)) as Hs. destruct (splitLocals locals q) as [ql qr]. cbn in Hs.
  assert (pending_ok ql) as Hl by (apply (pending_part q ql Hq), map_subseteq_spec; intros a l; rewrite (proj1 (Hs a)); by case_decide). assert (pending_ok qr) as Hr by (apply (pending_part q qr Hq), map_subseteq_spec; intros a l; rewrite (proj2 (Hs a)); by case_decide).
  pose proof (commitHalf_run isRunning 0 ql env most Hb Hl) as H1. destruct (half isRunning 0 ql env) as [[[stop looks] env1]|]; [|done]. cbn [obind]. destruct H1 as (S1 & new1 & rs1 & P1). destruct stop; [by intros E; specialize (S1 E)|].
  pose proof (commitHalf_run isRunning looks qr env1 most (packed_buildable _ _ _ _ _ _ Hb P1) Hr) as H2. destruct (half isRunning looks qr env1) as [[[stop looks2] env2]|]; [|done]. cbn [obind]. destruct H2 as (S2 & new2 & rs2 & P2). destruct stop; [by intros E; specialize (S2 E)|].
  exists new1, new2, (rs1 ++ rs2). split_and!.
  - eapply packed_trans; [exact P1|exact P2|]. intros a. destruct (Hs a) as [-> ->]. case_decide; cbn; by rewrite ?app_nil_r.
  - intros tx [l E]%(packed_from _ _ _ _ _ _ _ P1). rewrite (proj1 (Hs _)) in E. by case_decide.
  - intros tx [l E]%(packed_from _ _ _ _ _ _ _ P2). rewrite (proj2 (Hs _)) in E. by case_decide.
Qed.
End Filling.

(** ** Examples *)

Section Examples.
Import EvmDemo.
Abbreviation keysOf := (fun q : gmap bytes (list Transaction.t) => (map_to_list q).*1).
Abbreviation rangeOf := (map_to_list : gmap bytes Header.t -> list (bytes * Header.t)).

(** Two transactions of [alice] and one of [bob], at a higher price. *)
Definition bobs : Transaction.t := Transaction.mk 0 3 30000 (Some carol) 0 [] (replicate 32 (Z_byte 9)) (Some StateDemo.bob) 27 5.
Definition pending : gmap bytes (list Transaction.t) := {[StateDemo.alice := [paying 0 50000; paying 1 50000]; StateDemo.bob := [bobs]]}.
Definition mining : worker.environment := worker.mkEnvironment header 0 start ∅ ∅ ∅ 0 None [] [].
Definition pricing : TransactionsByPriceAndNonce.t := TransactionsByPriceAndNonce.mk {[StateDemo.alice := [paying 1 50000]]} [paying 0 50000].
Definition aliceOnly : gmap bytes (list Transaction.t) := {[StateDemo.alice := [paying 0 50000; paying 1 50000]]}.

Lemma pending_lookup a l : pending !! a = Some l -> (a = StateDemo.alice /\ l = [paying 0 50000; paying 1 50000]) \/ (a = StateDemo.bob /\ l = [bobs]).
Proof. unfold pending. intros [[<- <-]|[_ [<- <-]%lookup_singleton_Some]]%lookup_insert_Some; auto. Qed.

Lemma pending_fits : pending_ok Transaction.Sender pending.
Proof.
  split; intros a l [[-> ->]|[-> ->]]%pending_lookup; [split; [done|repeat constructor]|split; [done|repeat constructor]|exact paying_ok|]. apply Forall_cons. split; [split_and!; done|done].
Qed.

Lemma alice_fits : pending_ok Transaction.Sender aliceOnly.
Proof. apply (pending_part Transaction.Sender pending); [exact pending_fits|]. apply insert_mono, map_empty_subseteq. Qed.

Lemma pricing_holds : holds Transaction.Sender pricing aliceOnly.
Proof.
  split.
  - intros j Hj x y Hx Hy. destruct j as [|j]; [lia|]. destruct j; by cbn in Hy.
  - repeat constructor. apply not_elem_of_nil.
  - intros tx. cbn [TransactionsByPriceAndNonce.heads pricing]. rewrite list_elem_of_singleton. split; [intros ->; by exists [paying 1 50000]|]. intros [l E]. unfold aliceOnly in E. apply lookup_singleton_Some in E as [_ E]. congruence.
  - intros a tx l E. unfold aliceOnly in E. apply lookup_singleton_Some in E as [<- E]. injection E as <- <-. apply lookup_singleton_eq.
  - apply alice_fits.
Qed.

Lemma keysOf_ok q : NoDup (keysOf q) /\ forall a, a ∈ keysOf q <-> is_Some (q !! a).
Proof.
  split; [apply NoDup_fst_map_to_list|]. intros a. rewrite list_elem_of_fmap. split; [intros ((b & l) & -> & H%elem_of_map_to_list); by exists l|intros [l H]; exists (a, l); split; [done|by apply elem_of_map_to_list]].
Qed.

Lemma mining_buildable : buildable forks plenty 1000000 mining.
Proof. split; [done|]. split; [done|]. split; [exact header_gas|]. split; [exact start_booked|]. cbn. lia. Qed.

Lemma order_greedy_witness : exists s out, TransactionsByPriceAndNonce.NewTransactionsByPriceAndNonce Transaction.Sender (keysOf pending) pending = Ret s /\
  drive Transaction.Sender [true; true; true] s = Ret out /\ greedy Transaction.Sender pending [true; true; true] out.
Proof. exact (order_greedy Transaction.Sender (keysOf pending) pending [true; true; true] (proj1 pending_fits) (proj1 (keysOf_ok pending)) (proj2 (keysOf_ok pending))). Defined.


Abbreviation worked := (worker.commitTransactions forks noHeader byCarol false false plenty Transaction.Sender carol None true 0 pricing) (only parsing).
Abbreviation filledUp := (worker.fillBlock forks noHeader byCarol false false plenty Transaction.Sender carol None keysOf true [StateDemo.alice] pending) (only parsing).

Lemma commitTransactions_books_witness : match worked mining with
  | Ret (e, stop, report, looks', set', env') => e <> worker.OutOfRounds /\ (@None (nat -> Z) = None -> e = worker.Finished /\ stop = false /\ worker.adjusts report = []) /\
      (e = worker.Finished -> default (Header.GasLimit (worker.header env')) (worker.gasPool env') < params.TxGas \/ TransactionsByPriceAndNonce.Peek set' = None) /\
      exists new rs, packed Transaction.Sender 1000000 aliceOnly mining env' new rs /\ forall logs, worker.feed report = Some logs -> logs = concat (Receipt.Logs <$> rs)
  | Panic why => refundPanic why
  end.
Proof. pose proof (commitTransactions_books forks noHeader byCarol false false plenty Transaction.Sender carol None true 0 pricing mining aliceOnly 1000000 mining_buildable pricing_holds alice_fits) as H. exact H. Defined.

Lemma worked_runs : match worked mining with Ret (_, _, _, _, _, env') => Some (Receipt.CumulativeGasUsed <$> worker.receipts env', worker.gasPool env') | Panic _ => None end = Some ([41012; 82024], Some 17976).
Proof. by vm_compute. Qed.

Lemma fillBlock_books_witness : match filledUp mining with
  | Ret None => @None (nat -> Z) <> None
  | Ret (Some env') => exists new1 new2 rs, packed Transaction.Sender 1000000 pending mining env' (new1 ++ new2) rs /\
      (forall tx, tx ∈ new1 -> TransactionsByPriceAndNonce.sender Transaction.Sender tx ∈ [StateDemo.alice]) /\ (forall tx, tx ∈ new2 -> TransactionsByPriceAndNonce.sender Transaction.Sender tx ∉ [StateDemo.alice])
  | Panic why => refundPanic why
  end.
Proof.
  pose proof (fillBlock_books forks noHeader byCarol false false plenty Transaction.Sender carol None keysOf keysOf_ok true [StateDemo.alice] pending mining 1000000 mining_buildable pending_fits) as H. exact H.
Defined.

(** A chain of two blocks, and a block of the second one's height that is not in it. *)
Definition grand : block.t := block.mk (hashAt 3) (Header.mk (hashAt 2) 3 0 0 0 []) [].
Definition second : block.t := block.mk (hashAt 4) (Header.mk (hashAt 3) 4 0 0 0 []) [].
Definition aside : Header.t := Header.mk (hashAt 3) 4 0 1 0 [].
Definition chainBlock (h : bytes) (n : Z) : option block.t := if (n =? 4) && bool_decide (h = hashAt 4) then Some second else if (n =? 3) && bool_decide (h = hashAt 3) then Some grand else None.
Definition chainNumber (h : bytes) : option Z := if bool_decide (h = hashAt 4) then Some 4 else None.
Definition later (u p : Header.t) : bool := Header.Number u =? Header.Number p + 1.
Definition onSecond : worker.environment := default mining (worker.makeCurrent (Some start) (GetBlocksFromHash chainBlock chainNumber (hashAt 4) 7) tip).
Definition withUncle : block.t := block.mk (hashAt 5) tip [(hashAt 8, aside)].

Lemma on_made : worker.makeCurrent (Some start) (GetBlocksFromHash chainBlock chainNumber (hashAt 4) 7) tip = Some onSecond.
Proof. reflexivity. Qed.

Lemma chain_blocks : GetBlocksFromHash chainBlock chainNumber (Header.ParentHash tip) 7 = [second; grand].
Proof. vm_compute. reflexivity. Qed.

Lemma picked_one : block.Uncles withUncle = (worker.commitUncles rangeOf ∅ (worker.commitUncles rangeOf {[hashAt 8 := aside]} [] onSecond).1.2 (worker.commitUncles rangeOf {[hashAt 8 := aside]} [] onSecond).2).1.2.
Proof. vm_compute. reflexivity. Qed.

Lemma aside_fits h u : ({[hashAt 8 := aside]} : gmap bytes Header.t) !! h = Some u \/ (∅ : gmap bytes Header.t) !! h = Some u -> h <> block.Hash withUncle /\ Header.ParentHash u <> block.Hash withUncle /\
  forall p, p ∈ GetBlocksFromHash chainBlock chainNumber (Header.ParentHash tip) 7 -> block.Hash p = Header.ParentHash u -> later u (block.header p) = true.
Proof.
  intros [[<- <-]%lookup_singleton_Some|[]%lookup_empty_Some]. split; [done|]. split; [done|]. intros p. rewrite chain_blocks, !elem_of_cons, elem_of_nil. intros [->|[->|[]]]; done.
Qed.

End Examples.
